(* ===== verification/_CoqProject ===== *)
-Q . S2P
Prelude.v
Errors.v
Netip.v
AddrTrie.v
Pattern.v
FakeIP.v
Conn.v
ClientHello.v
Fragment.v
Policy.v
Routing.v
Ring.v
LRU.v
LRUSpec.v
Sharded.v
Desync.v
Tunnel.v
Float64.v
IPPool.v
Session.v
Stream.v
DialBind.v
Dialer.v
TunBridge.v
NetConn.v
Buffers.v
TunLog.v
Json.v
StatsJson.v
Socks5.v
Socks4.v
Socks5Server.v
HttpFront.v
ShadowAEAD.v
DnsMsg.v
Dns.v
SimpleObfs.v
GfwList.v
ShadowStream.v
ProxyConn.v
TunProxy.v
Resolver.v
DnsHijack.v
Singleflight.v
Engine.v
ProxyURL.v
NetStack.v
LinkEndpoint.v
TunDevice.v
DesyncWindows.v
Config.v
ConfigJson.v
MobileProxy.v
TunRelay.v
Statistic.v
TunTcp.v
RestAPI.v
Entry.v
