(* ===== verification/Prelude.v ===== *)
(** * Lumine for Android: a verification library of the Go core

    Lumine is a local proxy and VPN that gets connections past censorship
    without a remote server.  The repository has two Go programs in one: the core
    (src/enimul, with its mobile library) and the packet engine that turns the
    packets of an Android tunnel interface into connections (src/tun2socks).
    This library models the logic of both and proves what makes it correct.

    ** How the program works

    An application's packets reach the packet engine, which hands every TCP
    connection and UDP session to the mobile proxy.  DNS queries to the tunnel's
    resolver are answered on the spot: a query for a domain with a rule gets a
    synthetic address from a pool, everything else goes to the configured
    upstreams.  A connection to a synthetic address is planned as a connection to
    its domain: rules found in matchers for domains and address prefixes are
    merged into a policy, the target is resolved (through the upstreams, a cache,
    or a pool of addresses that is measured in the background) and dialled.  The
    bridge then looks at the first TLS record and sends the ClientHello in the
    way the policy asks for: as it is, cut into TLS records and segments around
    the server name, or behind a forged packet with a short TTL.  Local clients
    can use a SOCKS5 or HTTP proxy instead; then the tunnel code does the same.

    ** Files, and the code they model

    - Prelude: byte strings, slices, machine integers, package strings and
      strconv, tactics and hints.  Errors: internal/errors and internal/fmt, the
      results [res] (a value, an error or a panic) and the state monad [stM].
    - Netip: the parts of net and net/netip the program uses.  Float64: IEEE 754
      arithmetic for the pools' weights.
    - AddrTrie: internal/addrtrie, the matchers.  Pattern: the patterns of
      core/config.go.  Policy: core/policy.go, decoding, merging and rewriting.
      Routing: genPolicy, NAT64, the built-in list and core/dial_plan.go.
    - FakeIP: core/fake_ip.go, the pools of synthetic addresses.
    - Conn: a connection as a log of operations with an oracle for errors.
      ClientHello, Fragment, Desync: the parser of core/tunnel.go,
      core/fragment.go with oob*.go and waitack_linux.go, core/desync.go and
      desync_linux.go.  DesyncWindows: desync_windows.go, oob_windows.go and the
      stubs of the other systems.
    - Tunnel: core/tunnel.go and policyConn.  TunBridge: core/tun_bridge.go.
    - Ring, LRU, LRUSpec, Sharded: internal/freelru; LRUSpec is the ordered list
      the array of linked rings implements.
    - IPPool: core/ippool.go.  Singleflight: internal/singleflight.
    - DnsMsg, Dns, Resolver, DnsHijack: core/dns.go, bootstrap.go, resolver.go and
      dns_hijack.go.
    - GfwList: core/gfwlist.go, the built-in list and its regular expression.
      DialBind: internal/dial, the local address of outgoing connections.
      Config: LoadConfig of core/config.go, core/runtime.go, core/log*.go and
      internal/log.
    - Json: encoding/json as the program uses it, values, the scanner, the encoder
      and the decoding of structs field by field.  ConfigJson: the UnmarshalJSON
      methods, the configuration file and CheckConfig.  StatsJson: the JSON texts
      of the statistics.  Entry: main.go and the remaining calls of
      mobile/mobile_api.go.
    - Stream: a byte stream with its peer.  NetConn: connections and packet
      connections of Go whose bytes arrive in segments.
    - Socks5: tun2socks/transport/socks5.  Socks4: transport/socks4.  SimpleObfs:
      transport/simple-obfs.  ShadowAEAD, ShadowStream: transport/shadowsocks,
      the AEAD and the stream ciphers, the packet connections and the choice of a
      cipher.  Socks5Server, HttpFront: core/socks5.go and core/http.go.
    - ProxyConn, TunProxy: tun2socks/proxy and metadata, the connections the
      proxies hand out and how each of them dials.  Buffers: tun2socks/buffer.
    - Session: core/counter.go, core/session_stats.go, mobile/logfile.go.
      Engine: tun2socks/engine and the life cycle in mobile/mobile_api.go.
      ProxyURL: engine/parse.go.  NetStack: tun2socks/core with its options.
      LinkEndpoint: core/device/iobased.  TunDevice: core/device/tun and fdbased,
      and the goroutines of the endpoint.  Dialer: tun2socks/dialer on every
      platform.  TunLog: tun2socks/log.
    - MobileProxy: mobile/lumine_proxy.go, queued_packet_conn.go,
      dns_tcp_conn.go.  TunRelay: tun2socks/tunnel/udp.go and tunnel/statistic.
      Statistic: the trackers of tunnel/statistic and tunnel/global.go.  TunTcp:
      tunnel.go, tcp.go and addr.go of tun2socks/tunnel.  RestAPI:
      tun2socks/restapi.

    State is a record named after the Go type, an operation a function that takes
    the state and returns the new one; names follow the source.  A loop is a
    Fixpoint; goroutines are step relations ([Singleflight.step],
    [IPPool.poolStep], [Session.counterStep], [MobileProxy.queueStep],
    [Engine.mobileStep], [Tunnel.fwStep], [TunTcp.pipeStep], [TunTcp.tunnelStep],
    [DialBind.monitorStep], [RestAPI.startStep], [TunDevice.Attach.step], and the
    pool of SimpleObfs).  A panic is a value ([Panic], or [None] for an index out
    of range), so "does not panic" is part of the theorems.
    Integers are in [Z], with the wrap-around of their width written out where
    the code can reach it.  Log output is left out, except for the functions that
    compose log messages.

    ** What the theorems show

    - Matching: the tries implement lists of rules (longest suffix, longest
      prefix).  Merging takes each field from the first rule that sets it; what
      decodes is in the ranges the decoder checks (of the counts it converts from
      unsigned numbers, only the width is known).
    - Routing: exactly which connections are blocked, and which pass under a
      blocking default policy; a synthetic address is planned as
      its domain; and, through the hijacked resolver, the plan and the mobile
      proxy together, a blocked domain is never dialled.
    - Synthetic addresses: allocation succeeds unless the pool is full, two live
      domains never share an address, an address stays with its domain for its
      lifetime, and answers carry synthetic addresses only.
    - Sending: the parser finds the server name in every well-formed ClientHello
      and never indexes out of range; the fragmented hello arrives whole and no
      record contains the name, under the options that keep it whole; a forged
      packet that does not reach the server hides the name; the tunnel and the
      bridge deliver every byte in order, for every cut of the stream into
      writes, and nothing to a name that is blocked.
    - Resolution: what is resolved is what an upstream answered for that domain;
      upstreams are asked in rotation; configuring is all or nothing; the
      anti-hijack client believes only replies to its own query, until its wait has
      run out.
    - Caches, pools and calls: the LRU cache refines its list specification, the
      sharded cache keeps its capacity; the pools choose fairly and safely under
      every interleaving; single flight runs one function per key, and every
      caller comes back.
    - Protocols: SOCKS4 and SOCKS5 addresses, AEAD and stream cipher data and
      obfuscated streams survive the wire however it is cut into segments, no
      nonce is used twice, client and server handshakes agree, and the SOCKS5 and
      HTTP front ends decide alike but for a blocking default policy.
    - Proxies and relays: no dial leaves a connection open that it does not
      return, proxy URLs round-trip, an HTTP proxy keeps the bytes it read ahead,
      both directions of a relay are delivered under every interleaving up to the
      read deadline of a half-closed connection, every
      connection handed to the tunnel is taken or closed, pooled buffers have one
      holder.
    - Setting up: whatever the bytes of the configuration file are, the policies
      in force after loading are in range; the text of every policy decodes to it,
      and JSON text scans to the value that was encoded; CheckConfig agrees with
      LoadConfig on single values.  The domain list loads, a configuration that loads is in force
      (and which part of it is when loading fails), the stack is built in its
      order, the local address is set for all dialers or none, and without a token
      the REST interface is only reachable from the device, with one, only a
      preflight is answered without it.
    - The device side: the library closes only its own descriptors, unless a
      number is reused while the engine stops, the packet queue is a bounded FIFO, DNS over TCP answers in order and ends, a UDP
      session has one peer and ends within three timeouts of silence, the log
      files keep the tail of the log within their bounds, packets pass the link
      endpoint unchanged, a TUN interface that fails to open leaks no descriptor,
      sockets are used only with the options they should have, trackers are
      transparent, and the Windows sender gives back all it took on every path.

    ** Parameters, fuel and bounds

    Code outside the repository is an argument or a class: Unicode case mapping
    ([GoUnicode]), durations ([GoTime]), URLs ([GoURL]), the DNS library
    ([DNSLib], [DNSNet]), ciphers ([AEADLaws] states decryption of what was
    encrypted), dials, clocks and system calls.  Further arguments stand for what
    the program does not decide: the call that single flight finds in flight
    ([Dns.flight]), when the splice of the forged packet happens and which TTL
    reaches the server ([Desync.splicing]), the CORS middleware and the router of
    the REST interface, how often the teardown of the gVisor stack closes the
    device again ([Engine.stop]), and when time passes in a relay
    ([TunTcp.pipeStep]).  Each theorem that assumes
    something of them has a witness with a concrete instance.

    Fuel is only used where recursion is not structural, and theorems say that it
    is enough: the extension loop of the parser and the readers take one unit per
    byte of input; the waiting loop has 302 rounds for three seconds of ten
    milliseconds; bucket walks take the number of slots; allocation takes the size
    of the pool; the DNS server on TCP takes the length of its input; readers of
    segmented connections take one unit per segment, or per segment and byte; a
    repetition in a regular expression takes the length of its input; the JSON
    scanner takes twice the length of the text; nonces are distinct below 256 to
    the size of the nonce.

    ** Not modelled

    System calls, gVisor, WireGuard and zap are arguments, with what the code
    relies on of them.  Left out are the WebSocket parts of the REST
    interface, its profiling handlers and the JSON text of its list of
    connections; keep-alive options of the proxies; the buffer pool of the core's
    logger; the fallback resolver of the Go runtime on Android
    (internal/platform) and the GUID of a Windows tunnel (engine/parse_windows.go).
    These are single calls of libraries without logic of the program.  The
    commented-out operations of internal/freelru are not code. *)

From Stdlib Require Export ZArith Lia.
From stdpp Require Export base tactics gmap strings pretty numbers option list_numbers list.
Export list.
Local Open Scope Z_scope.

(** ** Byte strings

    A Go [string] and a Go [[]byte] are both sequences of bytes; they are
    modelled by [list Z], every element of a well-formed one being in
    [0, 256).  String literals are injected by the coercion [lit]. *)

Abbreviation gostring := (list Z).
Abbreviation bytes := (list Z).

Definition chr (a : Ascii.ascii) : Z := Z.of_N (Ascii.N_of_ascii a).

Definition lit (s : String.string) : list Z := chr <$> String.list_ascii_of_string s.

Coercion lit : String.string >-> list.

Definition is_byte (z : Z) : Prop := 0 ≤ z < 256.

Definition wf_bytes (l : bytes) : Prop := Forall is_byte l.

Definition zlen {A} (l : list A) : Z := Z.of_nat (length l).

(** ** Machine integers: wrap-around written out *)

Definition u8 (x : Z) : Z := x mod 2 ^ 8.
Definition u16 (x : Z) : Z := x mod 2 ^ 16.
Definition u32 (x : Z) : Z := x mod 2 ^ 32.
Definition u64 (x : Z) : Z := x mod 2 ^ 64.
Definition i64 (x : Z) : Z := (x + 2 ^ 63) mod 2 ^ 64 - 2 ^ 63.

(** [binary.BigEndian.Uint16] and [PutUint16]. *)
Definition be16 (hi lo : Z) : Z := Z.lor (Z.shiftl hi 8) lo.
Definition put_be16 (x : Z) : bytes := [u8 (Z.shiftr x 8); u8 x].

(** ** Slices: [s[i:j]] and [s[i]], [None] where Go panics *)

Definition slice {A} (l : list A) (i j : Z) : option (list A) :=
  if (0 <=? i) && (i <=? j) && (j <=? zlen l)
  then Some (take (Z.to_nat (j - i)) (drop (Z.to_nat i) l))
  else None.

Definition idx {A} (l : list A) (i : Z) : option A :=
  if 0 <=? i then l !! Z.to_nat i else None.

(** ** The parts of package [strings] the program uses *)

Definition has_prefix (s p : gostring) : bool := bool_decide (p `prefix_of` s).
Definition has_suffix (s p : gostring) : bool := bool_decide (p `suffix_of` s).

Definition trim_prefix (s p : gostring) : gostring :=
  if has_prefix s p then drop (length p) s else s.

Definition trim_suffix (s p : gostring) : gostring :=
  if has_suffix s p then take (length s - length p) s else s.

(** [strings.IndexByte] and [strings.LastIndexByte]; Go's [-1] is [None]. *)
Fixpoint index_byte (s : gostring) (c : Z) : option nat :=
  match s with
  | [] => None
  | x :: s' => if x =? c then Some O else S <$> index_byte s' c
  end.

Fixpoint last_index_byte (s : gostring) (c : Z) : option nat :=
  match s with
  | [] => None
  | x :: s' =>
      match last_index_byte s' c with
      | Some n => Some (S n)
      | None => if x =? c then Some O else None
      end
  end.

Definition contains_byte (s : gostring) (c : Z) : bool := bool_decide (c ∈ s).

Fixpoint contains (s sub : gostring) : bool :=
  has_prefix s sub || match s with [] => false | _ :: s' => contains s' sub end.

(** [strings.Split(s, c)] for a one-byte separator. *)
Fixpoint split_byte (c : Z) (s : gostring) : list gostring :=
  match s with
  | [] => [[]]
  | x :: s' =>
      if x =? c then [] :: split_byte c s'
      else match split_byte c s' with
           | [] => [[x]]
           | w :: ws => (x :: w) :: ws
           end
  end.

Fixpoint join_with (sep : gostring) (l : list gostring) : gostring :=
  match l with
  | [] => []
  | [s] => s
  | s :: l' => s ++ sep ++ join_with sep l'
  end.

(** The UTF-8 encodings of the code points [unicode.IsSpace] accepts. *)
Definition space_encodings : list bytes :=
  [[9]; [10]; [11]; [12]; [13]; [32]; [194; 133]; [194; 160]; [225; 154; 128];
   [226; 128; 168]; [226; 128; 169]; [226; 128; 175]; [226; 129; 159]; [227; 128; 128]]
  ++ ((λ k, [226; 128; k]) <$> seqZ 128 11).

Definition find_space_prefix (s : gostring) : option nat :=
  length <$> List.find (has_prefix s) space_encodings.

Fixpoint trim_left_space_fuel (fuel : nat) (s : gostring) : gostring :=
  match fuel with
  | O => s
  | S f =>
      match find_space_prefix s with
      | Some n => trim_left_space_fuel f (drop n s)
      | None => s
      end
  end.

Fixpoint trim_right_space_fuel (fuel : nat) (s : gostring) : gostring :=
  match fuel with
  | O => s
  | S f =>
      match List.find (has_suffix s) space_encodings with
      | Some e => trim_right_space_fuel f (take (length s - length e) s)
      | None => s
      end
  end.

(** [strings.TrimSpace]; each step removes at least one byte, so the length is
    fuel enough. *)
Definition trim_space (s : gostring) : gostring :=
  trim_right_space_fuel (length s) (trim_left_space_fuel (length s) s).

(** [strings.ToLower]: bytewise on an ASCII string; on a string with other
    characters Go consults the Unicode tables, which are a parameter. *)
Class GoUnicode := unicode_to_lower : gostring → gostring.

Definition lower_byte (c : Z) : Z := if (65 <=? c) && (c <=? 90) then c + 32 else c.

Definition is_ascii (s : gostring) : bool := forallb (λ c, c <? 128) s.

Definition to_lower `{GoUnicode} (s : gostring) : gostring :=
  if is_ascii s then lower_byte <$> s else unicode_to_lower s.

(** [strconv.Itoa], [FormatInt], [FormatUint] in base ten. *)
Definition itoa (n : Z) : gostring := lit (pretty n).

Definition is_digit (c : Z) : bool := (48 <=? c) && (c <=? 57).

(** The value of a digit sequence, [acc*10 + digit] from the left. *)
Definition digits_value (s : gostring) : Z := foldl (λ acc c, acc * 10 + (c - 48)) 0 s.

(** [strconv.ParseUint(s, 10, bits)]: no sign, no underscore, at least one
    digit, value below [2^bits]. *)
Definition parse_uint (bits : Z) (s : gostring) : option Z :=
  if bool_decide (s = []) || negb (forallb is_digit s) then None
  else if digits_value s <? 2 ^ bits then Some (digits_value s) else None.

(** ** Tactics *)

(** Split every [if] and [match] on a boolean comparison of the goal, turning
    the test into a proposition. *)
Ltac case_bool :=
  match goal with
  | |- context [if bool_decide ?P then _ else _] => case_bool_decide
  | |- context [if Z.eqb ?x ?y then _ else _] => destruct (Z.eqb_spec x y)
  | |- context [if Z.ltb ?x ?y then _ else _] => destruct (Z.ltb_spec x y)
  | |- context [if Z.leb ?x ?y then _ else _] => destruct (Z.leb_spec x y)
  | |- context [if ?b then _ else _] => let E := fresh "Eb" in destruct b eqn:E
  end.

Ltac bool_to_prop :=
  repeat match goal with
  | H : _ && _ = true |- _ => apply andb_prop in H; destruct H
  | H : _ || _ = false |- _ => apply orb_false_elim in H; destruct H
  | H : _ && _ = false |- _ => apply andb_false_iff in H
  | H : _ || _ = true |- _ => apply orb_prop in H
  | H : negb _ = true |- _ => apply negb_true_iff in H
  | H : negb _ = false |- _ => apply negb_false_iff in H
  | H : (_ <? _) = true |- _ => apply Z.ltb_lt in H
  | H : (_ <? _) = false |- _ => apply Z.ltb_ge in H
  | H : (_ <=? _) = true |- _ => apply Z.leb_le in H
  | H : (_ <=? _) = false |- _ => apply Z.leb_gt in H
  | H : (_ =? _) = true |- _ => apply Z.eqb_eq in H
  | H : (_ =? _) = false |- _ => apply Z.eqb_neq in H
  | H : bool_decide _ = true |- _ => apply bool_decide_eq_true in H
  | H : bool_decide _ = false |- _ => apply bool_decide_eq_false in H
  end.

Create HintDb lumine.

(** ** Lemmas shared by the components *)

Lemma zlen_nonneg {A} (l : list A) : 0 ≤ zlen l.
Proof. unfold zlen. lia. Qed.

Lemma zlen_app {A} (l k : list A) : zlen (l ++ k) = zlen l + zlen k.
Proof. unfold zlen. rewrite length_app. lia. Qed.

Lemma zlen_cons {A} (x : A) (l : list A) : zlen (x :: l) = zlen l + 1.
Proof. unfold zlen. simpl. lia. Qed.

#[export] Hint Resolve zlen_nonneg : lumine.

Lemma slice_Some {A} (l : list A) i j k :
  slice l i j = Some k ↔
  0 ≤ i ∧ i ≤ j ∧ j ≤ zlen l ∧ k = take (Z.to_nat (j - i)) (drop (Z.to_nat i) l).
Proof.
  unfold slice. split.
  - case_bool; [|done]. intros [= <-]. bool_to_prop. split_and!; lia || done.
  - intros (?&?&?&->).
    destruct (Z.leb_spec 0 i), (Z.leb_spec i j), (Z.leb_spec j (zlen l)); simpl; done || lia.
Qed.

Lemma slice_None {A} (l : list A) i j :
  slice l i j = None ↔ i < 0 ∨ j < i ∨ zlen l < j.
Proof.
  unfold slice.
  destruct (Z.leb_spec 0 i), (Z.leb_spec i j), (Z.leb_spec j (zlen l)); simpl;
    split; intros; try done; lia.
Qed.

Lemma slice_length {A} (l : list A) i j k : slice l i j = Some k → zlen k = j - i.
Proof.
  intros (?&?&?&->)%slice_Some. unfold zlen in *.
  rewrite length_take, length_drop. lia.
Qed.

Lemma slice_app {A} (pre mid post : list A) i j :
  i = zlen pre → j = zlen pre + zlen mid → slice (pre ++ mid ++ post) i j = Some mid.
Proof.
  intros -> ->. apply slice_Some. pose proof (zlen_nonneg pre). pose proof (zlen_nonneg mid).
  pose proof (zlen_nonneg post). rewrite !zlen_app. split_and!; [lia..|].
  replace (Z.to_nat (zlen pre + zlen mid - zlen pre)) with (length mid) by (unfold zlen; lia).
  replace (Z.to_nat (zlen pre)) with (length pre) by (unfold zlen; lia).
  by rewrite drop_app_length, take_app_length.
Qed.

Lemma slice_full_app {A} (l : list A) i j k :
  slice l i j = Some k →
  l = take (Z.to_nat i) l ++ k ++ drop (Z.to_nat j) l.
Proof.
  intros (?&?&?&->)%slice_Some.
  replace (Z.to_nat j) with (Z.to_nat i + Z.to_nat (j - i))%nat by lia.
  rewrite <- drop_drop, take_drop, take_drop. done.
Qed.

Lemma idx_Some_lt {A} (l : list A) i x : idx l i = Some x → 0 ≤ i < zlen l.
Proof.
  unfold idx, zlen. case_bool; [|done]. intros ?%lookup_lt_Some. lia.
Qed.

Lemma idx_is_Some {A} (l : list A) i : 0 ≤ i < zlen l → is_Some (idx l i).
Proof.
  unfold idx, zlen. intros ?. destruct (Z.leb_spec 0 i); [|lia].
  apply lookup_lt_is_Some. lia.
Qed.

(** A decidable property of every number of a small range, by computation. *)
Lemma range_decide (P : Z → Prop) `{!∀ i, Decision (P i)} (n : Z) :
  forallb (λ i, bool_decide (P i)) (seqZ 0 n) = true → ∀ i, 0 ≤ i < n → P i.
Proof.
  intros Hall i Hi. rewrite forallb_forall in Hall.
  apply (bool_decide_eq_true_1 (P i)), Hall, list_elem_of_In, elem_of_seqZ. lia.
Qed.

Lemma last_index_byte_None s c : last_index_byte s c = None ↔ c ∉ s.
Proof.
  induction s as [|x s IH]; simpl; [set_solver|].
  destruct (last_index_byte s c) eqn:E.
  - split; [done|]. intros Hn. assert (c ∉ s) by set_solver. naive_solver.
  - destruct (Z.eqb_spec x c); split; intros; try done; set_solver.
Qed.

Lemma last_index_byte_Some s c j :
  last_index_byte s c = Some j ↔
  s = take j s ++ c :: drop (S j) s ∧ c ∉ drop (S j) s ∧ (j < length s)%nat.
Proof.
  revert j. induction s as [|x s IH]; intros j; simpl.
  - split; [done|]. intros (_&_&?). lia.
  - destruct (last_index_byte s c) as [k|] eqn:E.
    + assert (Some k = Some k) as Hk%IH by done. destruct Hk as (Hk1&Hk2&Hk3). split.
      * intros [= <-]. split_and!; [|done|lia]. simpl. by rewrite <- Hk1.
      * intros (H1&H2&H3). destruct j as [|j]; simpl in *.
        { exfalso. apply H2. rewrite drop_0, Hk1. set_solver. }
        injection H1 as H1.
        assert (Some k = Some j) as [= ->]; [|done].
        apply IH. split_and!; [done|done|lia].
    + apply last_index_byte_None in E. destruct (Z.eqb_spec x c) as [->|Hne].
      * split; [intros [= <-]; simpl; rewrite drop_0; split_and!; [done|done|lia]|].
        intros (H1&H2&H3). destruct j as [|j]; [done|]. simpl in *.
        exfalso. apply E. injection H1 as H1. rewrite H1. set_solver.
      * split; [done|]. intros (H1&H2&H3). exfalso.
        destruct j as [|j]; simpl in *; [by injection H1|].
        apply E. injection H1 as H1. rewrite H1. set_solver.
Qed.

Lemma digits_value_nonneg s : forallb is_digit s = true → 0 ≤ digits_value s.
Proof.
  unfold digits_value. assert (∀ acc, 0 ≤ acc → forallb is_digit s = true →
    0 ≤ foldl (λ acc c, acc * 10 + (c - 48)) acc s) as H; [|by apply H].
  induction s as [|c s IH]; intros acc Hacc Hs; [done|]. simpl in *.
  unfold is_digit in Hs. bool_to_prop. apply IH; [lia|done].
Qed.

Lemma parse_uint_nonneg bits s n : parse_uint bits s = Some n → 0 ≤ n.
Proof.
  unfold parse_uint. destruct (bool_decide (s = [])); [done|]. simpl.
  destruct (forallb is_digit s) eqn:E; [|done]. simpl.
  destruct (_ <? _); [|done]. intros [= <-]. by apply digits_value_nonneg.
Qed.

Lemma digits_value_snoc ds c : digits_value (ds ++ [c]) = digits_value ds * 10 + (c - 48).
Proof. unfold digits_value. by rewrite foldl_app. Qed.

Lemma pretty_digit (d : N) : (d < 10)%N → ∀ s, lit (String.String (pretty_N_char d) s) = (48 + Z.of_N d) :: lit s.
Proof.
  intros Hd s. assert (d = 0 ∨ d = 1 ∨ d = 2 ∨ d = 3 ∨ d = 4 ∨ d = 5 ∨ d = 6 ∨ d = 7 ∨ d = 8 ∨ d = 9)%N as H by lia.
  by destruct_or! H; subst.
Qed.

Lemma pretty_N_digits (x : N) s :
  ∃ ds, lit (pretty_N_go x s) = ds ++ lit s ∧ forallb is_digit ds = true ∧ digits_value ds = Z.of_N x.
Proof.
  revert s. induction (N.lt_wf_0 x) as [x _ IH]. intros s. destruct (decide (x = 0)%N) as [->|Hx].
  - exists []. rewrite pretty_N_go_0. done.
  - rewrite pretty_N_go_step by lia.
    destruct (IH (x / 10)%N ltac:(apply N.div_lt; lia) (String.String (pretty_N_char (x mod 10)) s)) as (ds & E & Hd & Hv).
    assert (x mod 10 < 10)%N as Hm by (apply N.mod_lt; lia).
    pose proof (N.div_mod x 10 ltac:(done)) as Hdm.
    set (r := (x mod 10)%N) in *. set (q := (x / 10)%N) in *. clearbody r q.
    exists (ds ++ [48 + Z.of_N r]). rewrite E, pretty_digit by done. split_and!.
    + by rewrite <- app_assoc.
    + rewrite forallb_app, Hd. simpl. unfold is_digit. destruct (Z.leb_spec 48 (48 + Z.of_N r)); [|lia].
      destruct (Z.leb_spec (48 + Z.of_N r) 57); [done|lia].
    + rewrite digits_value_snoc, Hv. lia.
Qed.

(** The decimal text of a number is digits that read back as the number. *)
Lemma itoa_digits n : 0 ≤ n → forallb is_digit (itoa n) = true ∧ digits_value (itoa n) = n ∧ itoa n ≠ [].
Proof.
  intros Hn. unfold itoa. destruct n as [|p|p]; [done| |lia].
  change (pretty (Z.pos p)) with (pretty (N.pos p)). unfold pretty, pretty_N. rewrite decide_False by done.
  destruct (pretty_N_digits (N.pos p) "") as (ds & -> & Hd & Hv). rewrite app_nil_r. split_and!; [done|done|].
  intros ->. simpl in Hv. unfold digits_value in Hv. simpl in Hv. lia.
Qed.

(** The decimal text of a positive number does not begin with a zero. *)
Lemma pretty_N_head (x : N) s : x ≠ 0%N → ∃ c t, lit (pretty_N_go x s) = c :: t ∧ 49 ≤ c ≤ 57.
Proof.
  revert s. induction (N.lt_wf_0 x) as [x _ IH]. intros s Hx. rewrite pretty_N_go_step by lia.
  assert (x mod 10 < 10)%N as Hm by (apply N.mod_lt; lia).
  destruct (decide (x / 10 = 0)%N) as [E|E]; [|apply IH; [apply N.div_lt; lia|done]].
  rewrite E, pretty_N_go_0, pretty_digit by done. eexists _, _. split; [done|].
  pose proof (N.div_mod x 10 ltac:(done)) as Hd. rewrite E in Hd. lia.
Qed.

Lemma itoa_head n : 0 < n → ∃ c t, itoa n = c :: t ∧ 49 ≤ c ≤ 57.
Proof.
  intros Hn. unfold itoa. destruct n as [|p|p]; [lia| |lia].
  change (pretty (Z.pos p)) with (pretty (N.pos p)). unfold pretty, pretty_N. rewrite decide_False by done.
  by apply pretty_N_head.
Qed.

Lemma itoa_neg n : 0 < n → itoa (- n) = 45 :: itoa n.
Proof. intros Hn. destruct n as [|p|p]; [lia|done|lia]. Qed.

Lemma parse_uint_itoa bits n : 0 ≤ n < 2 ^ bits → parse_uint bits (itoa n) = Some n.
Proof.
  intros Hn. destruct (itoa_digits n) as (Hd & Hv & Hne); [lia|]. unfold parse_uint.
  rewrite bool_decide_eq_false_2, Hd, Hv by done. cbn. by rewrite (proj2 (Z.ltb_lt _ _)) by lia.
Qed.

(** A number with its low bits put in by [|]. *)
Lemma lor_shiftl_add h l k : 0 ≤ k → 0 ≤ l < 2 ^ k → Z.lor (Z.shiftl h k) l = h * 2 ^ k + l.
Proof.
  intros Hk Hl. rewrite <- Z.shiftl_mul_pow2 by lia.
  rewrite Z.add_nocarry_lxor.
  - rewrite <- Z.lxor_lor; [done|]. apply Z.bits_inj'. intros n Hn.
    rewrite Z.land_spec, Z.testbit_0_l. destruct (Z_lt_dec n k).
    + by rewrite Z.shiftl_spec_low.
    + rewrite <- (Z.mod_small l (2 ^ k)) by done. rewrite Z.mod_pow2_bits_high by lia. apply andb_false_r.
  - apply Z.bits_inj'. intros n Hn.
    rewrite Z.land_spec, Z.testbit_0_l. destruct (Z_lt_dec n k).
    + by rewrite Z.shiftl_spec_low.
    + rewrite <- (Z.mod_small l (2 ^ k)) by done. rewrite Z.mod_pow2_bits_high by lia. apply andb_false_r.
Qed.

Lemma be16_add h l : 0 ≤ l < 256 → be16 h l = h * 256 + l.
Proof. intros Hl. unfold be16. by rewrite lor_shiftl_add. Qed.

Lemma u8_range x : 0 ≤ u8 x < 256.
Proof. apply Z.mod_pos_bound. lia. Qed.

Lemma be16_put x : 0 ≤ x < 2 ^ 16 → be16 (u8 (Z.shiftr x 8)) (u8 x) = x.
Proof.
  intros Hx. rewrite be16_add by apply u8_range. unfold u8. rewrite Z.shiftr_div_pow2 by lia.
  change (2 ^ 8) with 256. Z.div_mod_to_equations. lia.
Qed.

#[global] Instance is_byte_dec z : Decision (is_byte z).
Proof. unfold is_byte. apply _. Defined.

#[global] Instance wf_bytes_dec l : Decision (wf_bytes l).
Proof. unfold wf_bytes. apply _. Defined.

(** A decidable closed goal, by evaluation. *)
Ltac by_decide := apply (bool_decide_eq_true_1 _); vm_compute; reflexivity.
