(* ===== verification/Errors.v ===== *)
(** * Errors, results and formatting

    The packages [enimul/internal/errors] and [enimul/internal/fmt], and the
    result type in which fallible code returns.  A Go [error] value that may be
    [nil] is an [option error]. *)

From S2P Require Import Prelude.
Local Open Scope Z_scope.

(** ** Package errors *)

(** Error values: [errors.New] (and [fmt.Errorf] with no [%w]), the package's
    own [opError] and [joinError], [fmt.Errorf] ending in [%w], and the errors
    the operating system and the network return. *)
Inductive error :=
| errorString (text : gostring)
| opError (op : gostring) (err : error)
| joinError (errs : list error)
| wrapError (text : gostring) (err : error)
| sysError (code : Z).

Section ErrorText.
(** [sysText] prints the errors that come from outside the program. *)
Context (sysText : Z → gostring).

(** [joinError.Error]: the texts with a semicolon between them. *)
Definition joinText (texts : list gostring) : gostring :=
  match texts with
  | [] => []
  | t :: rest => foldl (λ b t', b ++ "; " ++ t') t rest
  end.

(** The [Error] methods. *)
Fixpoint Error (e : error) : gostring :=
  match e with
  | errorString t => t
  | opError op e' => op ++ ": " ++ Error e'
  | joinError errs => joinText (List.map Error errs)
  | wrapError t e' => t ++ Error e'
  | sysError c => sysText c
  end.
End ErrorText.

Definition New (text : gostring) : option error := Some (errorString text).

Definition WithStr (op : gostring) (err : option error) : option error :=
  match err with
  | None => None
  | Some e => Some (opError op e)
  end.

Definition Join (errs : list (option error)) : option error :=
  match omap id errs with
  | [] => None
  | es => Some (joinError es)
  end.

(** [errors.Is], through the [Unwrap] methods of [opError] and [joinError]. *)
Fixpoint Is (e t : error) : Prop :=
  e = t ∨
  match e with
  | opError _ e' | wrapError _ e' => Is e' t
  | joinError errs => foldr or False (List.map (λ e', Is e' t) errs)
  | _ => False
  end.

(** ** Results

    [Ok a] is a normal return, [Err e] a return with a non-nil error, [Panic]
    a run-time panic (an index or a slice bound out of range). *)
Inductive res (A : Type) :=
| Ok (a : A)
| Err (e : error)
| Panic.
Arguments Ok {_} _.
Arguments Err {_} _.
Arguments Panic {_}.

#[global] Instance res_ret : MRet res := @Ok.
#[global] Instance res_bind : MBind res := λ A B k m,
  match m with
  | Ok a => k a
  | Err e => Err e
  | Panic => Panic
  end.

(** A checked access: Go panics where the option is [None]. *)
Definition checked {A} (o : option A) : res A :=
  match o with
  | Some a => Ok a
  | None => Panic
  end.

Definition fail {A} (msg : String.string) : res A := Err (errorString msg).

(** Attach a context to the error branch, as [E.WithStr] does on a return. *)
Definition with_str {A} (op : String.string) (m : res A) : res A :=
  match m with
  | Err e => Err (opError op e)
  | r => r
  end.

Lemma bind_Ok {A B} (m : res A) (k : A → res B) b :
  m ≫= k = Ok b ↔ ∃ a, m = Ok a ∧ k a = Ok b.
Proof. destruct m; naive_solver. Qed.

Lemma bind_not_Panic {A B} (m : res A) (k : A → res B) :
  m ≠ Panic → (∀ a, m = Ok a → k a ≠ Panic) → m ≫= k ≠ Panic.
Proof. destruct m; naive_solver. Qed.

#[export] Hint Resolve bind_not_Panic : lumine.

Lemma checked_Ok {A} (o : option A) a : checked o = Ok a ↔ o = Some a.
Proof. destruct o; naive_solver. Qed.

(** ** Code that keeps a state

    A computation over a state [S] that may return, fail or panic; what it did to
    the state before it failed stays done. *)
Definition stM (S A : Type) : Type := S → res A * S.

#[global] Instance stM_ret S : MRet (stM S) := λ A a s, (Ok a, s).
#[global] Instance stM_bind S : MBind (stM S) := λ A B k m s,
  match m s with
  | (Ok a, s') => k a s'
  | (Err e, s') => (Err e, s')
  | (Panic, s') => (Panic, s')
  end.

Definition liftS {S A} (r : res A) : stM S A := λ s, (r, s).
Definition modifyS {S} (f : S → S) : stM S unit := λ s, (Ok tt, f s).
Definition getS {S A} (f : S → A) : stM S A := λ s, (Ok (f s), s).

(** Go on with the error of [m]; a panic is not caught. *)
Definition attemptS {S A} (m : stM S A) : stM S (res A) := λ s,
  match m s with
  | (Panic, s') => (Panic, s')
  | (r, s') => (Ok r, s')
  end.

Definition isErr {A} (r : res A) : bool := match r with Err _ => true | _ => false end.

Lemma bindS {S A B} (m : stM S A) (k : A → stM S B) s a s' : m s = (Ok a, s') → (m ≫= k) s = k a s'.
Proof. intros E. unfold mbind, stM_bind. by rewrite E. Qed.

Lemma bindS_inv {S A B} (m : stM S A) (k : A → stM S B) s b s'' :
  (m ≫= k) s = (Ok b, s'') → ∃ a s', m s = (Ok a, s') ∧ k a s' = (Ok b, s'').
Proof. unfold mbind, stM_bind. destruct (m s) as [[a|e|] s'] eqn:E; [|done..]. by exists a, s'. Qed.

Lemma bindS_Err {S A B} (m : stM S A) (k : A → stM S B) s e s' : m s = (Err e, s') → (m ≫= k) s = (Err e, s').
Proof. intros E. unfold mbind, stM_bind. by rewrite E. Qed.

(** ** Package fmt (format.go) *)

Definition hexDigits : gostring := "0123456789abcdef".

Definition hexDigit (n : Z) : Z := hexDigits !!! Z.to_nat n.

Definition Byte_ (b : Z) : gostring :=
  [hexDigit (Z.shiftr b 4); hexDigit (Z.land b 15)].

Definition ConnIDToHex5 (name id : Z) : gostring :=
  name :: 91 ::
    ((λ i, hexDigit (Z.land (Z.shiftr id (4 * (4 - i))) 15)) <$> seqZ 0 5)
  ++ [93].

(** The arguments [Append] distinguishes: a [Stringer] or an [error] is already
    printed by its method, a string is copied, an integer printed in base ten. *)
Inductive fmtArg :=
| ArgText (s : gostring)
| ArgInt (n : Z).

Definition Append (b : bytes) (args : list fmtArg) : bytes :=
  foldl (λ b a, b ++ match a with ArgText s => s | ArgInt n => itoa n end) b args.

Definition Concat (args : list fmtArg) : gostring := Append [] args.

(** [NewAny] and [WithAny] of package errors. *)
Definition NewAny (args : list fmtArg) : option error := New (Concat args).
Definition WithAny (err : option error) (args : list fmtArg) : option error := WithStr (Concat args) err.

(** [Unwrap] of the two error types. *)
Definition Unwrap (e : error) : list error :=
  match e with opError _ e' | wrapError _ e' => [e'] | joinError errs => errs | _ => [] end.

(** An error wraps what it unwraps to. *)
Lemma Is_Unwrap e e' : e' ∈ Unwrap e → Is e e'.
Proof.
  destruct e as [t|op e0|errs|t e0|c]; cbn; rewrite ?list_elem_of_singleton; try (by intros ?%not_elem_of_nil).
  - intros ->. right. destruct e0; by left.
  - intros H. right. induction H as [x l|x y l _ IH]; cbn; [left; destruct x; by left|by right].
  - intros ->. right. destruct e0; by left.
Qed.

(** The value of a lower-case hexadecimal digit. *)
Definition hexValue (c : Z) : option Z :=
  if is_digit c then Some (c - 48)
  else if (97 <=? c) && (c <=? 102) then Some (c - 87)
  else None.

Lemma hexValue_hexDigit n : 0 ≤ n < 16 → hexValue (hexDigit n) = Some n.
Proof.
  apply (range_decide (λ n, hexValue (hexDigit n) = Some n) 16). by vm_compute.
Qed.

Lemma hexDigit_inj n m : 0 ≤ n < 16 → 0 ≤ m < 16 → hexDigit n = hexDigit m → n = m.
Proof.
  intros Hn Hm E. apply hexValue_hexDigit in Hn, Hm. rewrite E in Hn. congruence.
Qed.

Lemma nibble_range x k : 0 ≤ Z.land (Z.shiftr x k) 15 < 16.
Proof.
  change 15 with (Z.ones 4). rewrite Z.land_ones by lia.
  apply Z.mod_pos_bound. lia.
Qed.

(** A twenty-bit identifier is its five nibbles. *)
Lemma nibbles_value x :
  0 ≤ x < 2 ^ 20 →
  x = Z.land (Z.shiftr x 16) 15 * 2 ^ 16 + Z.land (Z.shiftr x 12) 15 * 2 ^ 12
      + Z.land (Z.shiftr x 8) 15 * 2 ^ 8 + Z.land (Z.shiftr x 4) 15 * 2 ^ 4
      + Z.land (Z.shiftr x 0) 15.
Proof.
  intros Hx. change 15 with (Z.ones 4). rewrite !Z.land_ones, !Z.shiftr_div_pow2 by lia.
  Z.div_mod_to_equations. lia.
Qed.

(** Two connection identifiers in the range the counters use print
    differently. *)
Lemma ConnIDToHex5_inj name id1 id2 :
  0 ≤ id1 < 2 ^ 20 → 0 ≤ id2 < 2 ^ 20 →
  ConnIDToHex5 name id1 = ConnIDToHex5 name id2 → id1 = id2.
Proof.
  intros H1 H2 E. injection E as E4 E3 E2 E1 E0.
  apply hexDigit_inj in E4, E3, E2, E1, E0; try apply nibble_range.
  assert (∀ k, k ∈ [16; 12; 8; 4; 0] →
    Z.land (Z.shiftr id1 k) 15 = Z.land (Z.shiftr id2 k) 15) as Hk.
  { intros k Hk. repeat (apply elem_of_cons in Hk as [->|Hk]; [assumption|]). set_solver. }
  rewrite (nibbles_value id1 H1), (nibbles_value id2 H2).
  by rewrite !Hk by set_solver.
Qed.

Lemma WithStr_nil op err : WithStr op err = None ↔ err = None.
Proof. destruct err; naive_solver. Qed.

Lemma foldr_or_elem (P : list Prop) : foldr or False P ↔ ∃ p, p ∈ P ∧ p.
Proof. induction P; simpl; set_solver. Qed.

Lemma Is_Join errs e t :
  Join errs = Some e → (Is e t ↔ e = t ∨ ∃ e', Some e' ∈ errs ∧ Is e' t).
Proof.
  unfold Join. intros E.
  assert (e = joinError (omap id errs)) as -> by (destruct (omap id errs); naive_solver).
  simpl. rewrite foldr_or_elem.
  assert (∀ e', e' ∈ omap id errs ↔ Some e' ∈ errs) as Hom.
  { intros e'. rewrite list_elem_of_omap. naive_solver. }
  split; (intros [?|H]; [by left|right]).
  - destruct H as (p & Hp & Hpp). apply list_elem_of_In, in_map_iff in Hp as (e' & <- & Hin).
    exists e'. rewrite <- Hom. by rewrite list_elem_of_In.
  - destruct H as (e' & Hin & HIs). exists (Is e' t). split; [|done].
    apply list_elem_of_In, in_map_iff. exists e'. split; [done|].
    by apply list_elem_of_In, Hom.
Qed.
