(* ===== verification/Netip.v ===== *)
(** * Packages [net/netip] and [net]: addresses, prefixes and their text form

    What the program uses of the Go standard library's address types: parsing,
    printing, prefix containment, the successor of an address.  An IPv4 address
    is its 32-bit value, an IPv6 address its 128-bit value with a zone. *)

From S2P Require Import Prelude Errors.
Local Open Scope Z_scope.

Inductive Addr :=
| AddrInvalid
| Addr4 (v : Z)
| Addr6 (v : Z) (zone : gostring).

#[global] Instance Addr_eq_dec : EqDecision Addr.
Proof. solve_decision. Defined.

#[global] Instance Addr_inhabited : Inhabited Addr := populate AddrInvalid.

Definition addr_wf (a : Addr) : Prop :=
  match a with
  | AddrInvalid => False
  | Addr4 v => 0 ≤ v < 2 ^ 32
  | Addr6 v _ => 0 ≤ v < 2 ^ 128
  end.

Definition IsValid (a : Addr) : bool := match a with AddrInvalid => false | _ => true end.
Definition Is4 (a : Addr) : bool := match a with Addr4 _ => true | _ => false end.
Definition Is6 (a : Addr) : bool := match a with Addr6 _ _ => true | _ => false end.
Definition Is4In6 (a : Addr) : bool :=
  match a with Addr6 v _ => Z.shiftr v 32 =? 65535 | _ => false end.

Definition BitLen (a : Addr) : Z :=
  match a with AddrInvalid => 0 | Addr4 _ => 32 | Addr6 _ _ => 128 end.

Definition Unmap (a : Addr) : Addr :=
  match a with
  | Addr6 v _ => if Is4In6 a then Addr4 (v mod 2 ^ 32) else a
  | _ => a
  end.

(** Big-endian byte lists. *)
Fixpoint be_bytes (n : nat) (v : Z) : bytes :=
  match n with
  | O => []
  | S n' => be_bytes n' (Z.shiftr v 8) ++ [u8 v]
  end.

Definition be_value (l : bytes) : Z := foldl (λ acc b, acc * 256 + b) 0 l.

Definition As4 (a : Addr) : bytes :=
  match a with Addr4 v => be_bytes 4 v | Addr6 v _ => be_bytes 4 (v mod 2 ^ 32) | _ => [] end.

(** An IPv4 address in 16-byte form is the IPv4-mapped one. *)
Definition As16 (a : Addr) : bytes :=
  match a with
  | Addr4 v => be_bytes 16 (65535 * 2 ^ 32 + v)
  | Addr6 v _ => be_bytes 16 v
  | AddrInvalid => be_bytes 16 0
  end.

Definition AsSlice (a : Addr) : bytes :=
  match a with
  | Addr4 v => be_bytes 4 v
  | Addr6 v _ => be_bytes 16 v
  | AddrInvalid => []
  end.

Definition AddrFrom4 (b : bytes) : Addr := Addr4 (be_value b).
Definition AddrFrom16 (b : bytes) : Addr := Addr6 (be_value b) [].

Definition AddrFromSlice (b : bytes) : option Addr :=
  if zlen b =? 4 then Some (AddrFrom4 b)
  else if zlen b =? 16 then Some (AddrFrom16 b) else None.

(** [Addr.Next]: the zero [Addr] after the last address. *)
Definition Next (a : Addr) : Addr :=
  match a with
  | AddrInvalid => AddrInvalid
  | Addr4 v => if v =? 2 ^ 32 - 1 then AddrInvalid else Addr4 (v + 1)
  | Addr6 v z => if v =? 2 ^ 128 - 1 then AddrInvalid else Addr6 (v + 1) z
  end.

(** ** Parsing *)

(** [parseIPv4Fields]: [dig] digits of the current field read, worth [val];
    [fields] are the completed ones. *)
Fixpoint parse4_loop (s : gostring) (val dig : Z) (fields : list Z) : option (list Z) :=
  match s with
  | [] => if zlen fields <? 3 then None else Some (fields ++ [val])
  | c :: s' =>
      if is_digit c then
        if (dig =? 1) && (val =? 0) then None
        else let val' := val * 10 + (c - 48) in
             if 255 <? val' then None else parse4_loop s' val' (dig + 1) fields
      else if c =? 46 then
        if (dig =? 0) || bool_decide (s' = []) then None
        else if zlen fields =? 3 then None
        else parse4_loop s' 0 0 (fields ++ [val])
      else None
  end.

Definition parse_ipv4_fields (s : gostring) : option (list Z) := parse4_loop s 0 0 [].

Definition hex_value (c : Z) : option Z :=
  if is_digit c then Some (c - 48)
  else if (97 <=? c) && (c <=? 102) then Some (c - 87)
  else if (65 <=? c) && (c <=? 70) then Some (c - 55)
  else None.

(** The hexadecimal group at the front of [s]: its digit count, its value and
    the rest; [None] when it has more than four digits. *)
Fixpoint scan_hex (s : gostring) (off : Z) (acc : Z) : option (Z * Z * gostring) :=
  match s with
  | [] => Some (off, acc, [])
  | c :: s' =>
      match hex_value c with
      | None => Some (off, acc, s)
      | Some d => if 3 <? off then None else scan_hex s' (off + 1) (acc * 16 + d)
      end
  end.

(** The group loop of [parseIPv6]; [ip] holds the bytes parsed so far,
    [ellipsis] the position of a [::].  Eight rounds fill the address. *)
Fixpoint parse6_loop (fuel : nat) (s : gostring) (ip : bytes) (ellipsis : option nat)
    : option (bytes * option nat * gostring) :=
  match fuel with
  | O => Some (ip, ellipsis, s)
  | S fuel' =>
      if 16 <=? zlen ip then Some (ip, ellipsis, s) else
      '(off, acc, rest) ← scan_hex s 0 0;
      if off =? 0 then None else
      if bool_decide (head rest = Some 46) then
        if bool_decide (ellipsis = None) && negb (zlen ip =? 12) then None
        else if 16 <? zlen ip + 4 then None
        else f ← parse_ipv4_fields s; Some (ip ++ f, ellipsis, [])
      else
        let ip' := ip ++ [Z.shiftr acc 8; u8 acc] in
        match rest with
        | [] => Some (ip', ellipsis, [])
        | c :: rest' =>
            if negb (c =? 58) then None else
            match rest' with
            | [] => None
            | c' :: rest'' =>
                if c' =? 58 then
                  if bool_decide (ellipsis ≠ None) then None
                  else if bool_decide (rest'' = []) then Some (ip', Some (length ip'), [])
                  else parse6_loop fuel' rest'' ip' (Some (length ip'))
                else parse6_loop fuel' rest' ip' ellipsis
            end
        end
  end.

Definition finish6 (ip : bytes) (ellipsis : option nat) (s : gostring) : option bytes :=
  if negb (bool_decide (s = [])) then None
  else if zlen ip <? 16 then
    match ellipsis with
    | None => None
    | Some e => Some (take e ip ++ replicate (16 - length ip) 0 ++ drop e ip)
    end
  else if bool_decide (ellipsis = None) then Some ip else None.

Definition parse_ipv6 (s0 : gostring) : option Addr :=
  '(s, zone) ← match index_byte s0 37 with
               | None => Some (s0, [])
               | Some i => let z := drop (S i) s0 in
                           if bool_decide (z = []) then None else Some (take i s0, z)
               end;
  if has_prefix s "::" then
    let s' := drop 2 s in
    if bool_decide (s' = []) then Some (Addr6 0 zone) else
    '(ip, e, rest) ← parse6_loop 8 s' [] (Some O);
    b ← finish6 ip e rest; Some (Addr6 (be_value b) zone)
  else
    '(ip, e, rest) ← parse6_loop 8 s [] None;
    b ← finish6 ip e rest; Some (Addr6 (be_value b) zone).

(** [netip.ParseAddr] chooses by the first ['.'], [':'] or ['%']. *)
Definition ParseAddr (s : gostring) : option Addr :=
  match List.find (λ c, (c =? 46) || (c =? 58) || (c =? 37)) s with
  | Some 46 => Addr4 ∘ be_value <$> parse_ipv4_fields s
  | Some 58 => parse_ipv6 s
  | _ => None
  end.

(** ** Printing *)

Definition string4 (v : Z) : gostring :=
  match be_bytes 4 v with
  | [a; b; c; d] => itoa a ++ "." ++ itoa b ++ "." ++ itoa c ++ "." ++ itoa d
  | _ => []
  end.

Fixpoint hex_digits_fuel (fuel : nat) (x : Z) : gostring :=
  match fuel with
  | O => []
  | S f => (if x <? 16 then [] else hex_digits_fuel f (x / 16)) ++ [hexDigit (x mod 16)]
  end.

(** [appendHex] of a 16-bit group: no leading zero, at least one digit. *)
Definition append_hex (x : Z) : gostring := hex_digits_fuel 4 x.

Fixpoint be_groups (n : nat) (v : Z) : list Z :=
  match n with
  | O => []
  | S n' => be_groups n' (Z.shiftr v 16) ++ [u16 v]
  end.

Fixpoint zero_run (l : list Z) : nat :=
  match l with
  | 0 :: l' => S (zero_run l')
  | _ => O
  end.

(** The first longest run of at least two zero groups, as start and end. *)
Definition longest_zero_run (g : list Z) : option (nat * nat) :=
  foldl (λ best i,
    let l := zero_run (drop i g) in
    if bool_decide (2 ≤ l)%nat &&
       bool_decide (match best with None => 0%nat | Some (a, b) => (b - a)%nat end < l)%nat
    then Some (i, (i + l)%nat) else best) None (seq 0 8).

Definition groups_text (g : list Z) : gostring := join_with ":" (append_hex <$> g).

Definition string6 (v : Z) (zone : gostring) : gostring :=
  let g := be_groups 8 v in
  let body :=
    match longest_zero_run g with
    | None => groups_text g
    | Some (a, b) => groups_text (take a g) ++ "::" ++ groups_text (drop b g)
    end in
  body ++ (if bool_decide (zone = []) then [] else "%" ++ zone).

Definition AddrString (a : Addr) : gostring :=
  match a with
  | AddrInvalid => "invalid IP"
  | Addr4 v => string4 v
  | Addr6 v zone =>
      if Is4In6 a
      then "::ffff:" ++ string4 (v mod 2 ^ 32) ++
           (if bool_decide (zone = []) then [] else "%" ++ zone)
      else string6 v zone
  end.

(** ** Prefixes *)

Record Prefix := mkPrefix { PAddr : Addr; PBits : Z }.

#[global] Instance Prefix_eq_dec : EqDecision Prefix.
Proof. solve_decision. Defined.

Definition ParsePrefix (s : gostring) : option Prefix :=
  i ← last_index_byte s 47;
  ip ← ParseAddr (take i s);
  if match ip with Addr6 _ z => negb (bool_decide (z = [])) | _ => false end then None else
  let bitsStr := drop (S i) s in
  if match bitsStr with
     | c :: _ :: _ => (c <? 49) || (57 <? c)
     | _ => false
     end then None else
  bits ← parse_uint 63 bitsStr;
  if (if Is6 ip then 128 else 32) <? bits then None else Some (mkPrefix ip bits).

Definition addr_value (a : Addr) : Z :=
  match a with AddrInvalid => 0 | Addr4 v => v | Addr6 v _ => v end.

Definition has_zone (a : Addr) : bool :=
  match a with Addr6 _ z => negb (bool_decide (z = [])) | _ => false end.

(** [Prefix.Contains] on a valid prefix. *)
Definition Contains (p : Prefix) (a : Addr) : bool :=
  negb (has_zone a) && (0 <? BitLen (PAddr p)) && (BitLen (PAddr p) =? BitLen a) &&
  (Z.shiftr (Z.lxor (addr_value a) (addr_value (PAddr p))) (BitLen a - PBits p) =? 0).

Definition mask_value (w bits v : Z) : Z := Z.shiftl (Z.shiftr v (w - bits)) (w - bits).

(** [Prefix.Masked]: the address with the bits past the prefix cleared. *)
Definition Masked (p : Prefix) : Prefix :=
  mkPrefix
    match PAddr p with
    | AddrInvalid => AddrInvalid
    | Addr4 v => Addr4 (mask_value 32 (PBits p) v)
    | Addr6 v _ => Addr6 (mask_value 128 (PBits p) v) []
    end (PBits p).

(** ** Package net *)

(** [net.ParseIP]: the 16-byte form, [None] for nil; a zone is refused. *)
Definition ParseIP (s : gostring) : option bytes :=
  match ParseAddr s with
  | Some a => if has_zone a then None else Some (As16 a)
  | None => None
  end.

(** [IP.To4] of a 4-byte or 16-byte slice. *)
Definition To4 (ip : bytes) : option bytes :=
  if zlen ip =? 4 then Some ip
  else if (zlen ip =? 16) && bool_decide (take 12 ip = replicate 10 0 ++ [255; 255])
  then Some (drop 12 ip) else None.

Definition To16 (ip : bytes) : option bytes :=
  if zlen ip =? 4 then Some (replicate 10 0 ++ [255; 255] ++ ip)
  else if zlen ip =? 16 then Some ip else None.

(** [net.IP.IsLoopback] *)
Definition IsLoopback (ip : bytes) : bool :=
  match To4 ip with
  | Some v => bool_decide (head v = Some 127)
  | None => bool_decide (ip = replicate 15 0 ++ [1])
  end.

Definition IPString (ip : bytes) : gostring :=
  match To4 ip with
  | Some p4 => AddrString (AddrFrom4 p4)
  | None =>
      if zlen ip =? 16 then AddrString (AddrFrom16 ip)
      else if zlen ip =? 0 then "<nil>"
      else "?" ++ concat ((λ b, [hexDigit (Z.shiftr b 4); hexDigit (Z.land b 15)]) <$> ip)
  end.

(** [net.JoinHostPort]. *)
Definition JoinHostPort (host port : gostring) : gostring :=
  if contains_byte host 58 then "[" ++ host ++ "]:" ++ port else host ++ ":" ++ port.

(** [net.SplitHostPort]. *)
Definition SplitHostPort (hostport : gostring) : res (gostring * gostring) :=
  let bad why := Err (errorString ("address " ++ hostport ++ ": " ++ why)) in
  match last_index_byte hostport 58 with
  | None => bad (lit "missing port in address")
  | Some i =>
      let finish host j k :=
        if contains_byte (drop j hostport) 91 then bad (lit "unexpected '[' in address")
        else if contains_byte (drop k hostport) 93 then bad (lit "unexpected ']' in address")
        else Ok (host, drop (S i) hostport) in
      match hostport with
      | 91 :: _ =>
          match index_byte hostport 93 with
          | None => bad (lit "missing ']' in address")
          | Some e =>
              if (S e =? length hostport)%nat then bad (lit "missing port in address")
              else if (S e =? i)%nat then finish (take (e - 1) (drop 1 hostport)) 1%nat (S e)
              else if bool_decide (hostport !! S e = Some 58) then bad (lit "too many colons in address")
              else bad (lit "missing port in address")
          end
      | _ =>
          let host := take i hostport in
          if contains_byte host 58 then bad (lit "too many colons in address") else finish host 0%nat 0%nat
      end
  end.

Example split_examples :
  SplitHostPort "1.2.3.4:443" = Ok (lit "1.2.3.4", lit "443") ∧
  SplitHostPort "[fd66::1]:53" = Ok (lit "fd66::1", lit "53") ∧
  (∃ e, SplitHostPort "fd66::1" = Err e) ∧ (∃ e, SplitHostPort "[fd66::1]" = Err e).
Proof. vm_compute. split_and!; try done; by eexists. Qed.

Example parse_examples :
  ParseAddr "192.168.1.20" = Some (Addr4 3232235796) ∧
  ParseAddr "1.2.3" = None ∧ ParseAddr "01.2.3.4" = None ∧ ParseAddr "1.2.3.4." = None ∧
  ParseAddr "fd66:6c75:6d69:100::1" = Some (Addr6 (0xfd666c756d6901000000000000000001) []) ∧
  ParseAddr "::ffff:1.2.3.4" = Some (Addr6 (0xffff01020304) []) ∧
  ParseAddr "1::2::3" = None ∧ ParseAddr "fe80::1%eth0" = Some (Addr6 (0xfe80 * 2 ^ 112 + 1) "eth0").
Proof. vm_compute. done. Qed.

Example print_examples :
  AddrString (Addr4 3232235796) = "192.168.1.20" ∧
  AddrString (Addr6 (0xfd666c756d6901000000000000000001) []) = "fd66:6c75:6d69:100::1" ∧
  AddrString (Addr6 (0xffff01020304) []) = "::ffff:1.2.3.4" ∧
  AddrString (Addr6 0 []) = "::" ∧ AddrString (Addr6 1 []) = "::1" ∧
  AddrString (Addr6 (0x20010db8000000000001000000000001) []) = "2001:db8::1:0:0:1" ∧
  Contains (mkPrefix (Addr4 (198 * 2 ^ 24 + 18 * 2 ^ 16)) 15) (Addr4 (198 * 2 ^ 24 + 19 * 2 ^ 16 + 7)) = true.
Proof. vm_compute. done. Qed.

(** ** Facts: byte lists *)

Lemma be_bytes_length n v : length (be_bytes n v) = n.
Proof. revert v. induction n; intros v; simpl; [done|]. rewrite length_app, IHn. simpl. lia. Qed.

Lemma be_bytes_wf n v : wf_bytes (be_bytes n v).
Proof.
  revert v. induction n; intros v; simpl; [constructor|].
  apply Forall_app. split; [apply IHn|]. constructor; [|constructor].
  unfold is_byte, u8. unfold addr_wf. apply Z.mod_pos_bound. reflexivity.
Qed.

Lemma be_value_snoc l x : be_value (l ++ [x]) = be_value l * 256 + x.
Proof. unfold be_value. by rewrite foldl_app. Qed.

Lemma be_value_app l k : be_value (l ++ k) = be_value l * 256 ^ zlen k + be_value k.
Proof.
  induction k as [|x k IH] using rev_ind.
  - rewrite app_nil_r. change (be_value []) with 0. change (256 ^ zlen []) with 1. lia.
  - rewrite app_assoc, !be_value_snoc, IH, zlen_app. replace (zlen [x]) with 1 by done.
    rewrite Z.pow_add_r by (apply zlen_nonneg || lia). lia.
Qed.

Lemma be_value_bytes n v : 0 ≤ v → be_value (be_bytes n v) = v mod 2 ^ (8 * Z.of_nat n).
Proof.
  revert v. induction n as [|n IH]; intros v Hv; cbn [be_bytes].
  - change (2 ^ (8 * Z.of_nat 0)) with 1. by rewrite Z.mod_1_r.
  - rewrite be_value_app, IH by (apply Z.shiftr_nonneg; lia).
    replace (zlen [u8 v]) with 1 by done. unfold be_value, u8. simpl foldl.
    rewrite Z.shiftr_div_pow2 by lia.
    replace (8 * Z.of_nat (S n)) with (8 + 8 * Z.of_nat n) by lia.
    rewrite Z.pow_add_r by lia. rewrite Z.rem_mul_r by (try apply Z.pow_nonzero; lia).
    change (256 ^ 1) with 256. change (2 ^ 8) with 256. lia.
Qed.

Lemma be_value_bytes_small n v :
  0 ≤ v < 2 ^ (8 * Z.of_nat n) → be_value (be_bytes n v) = v.
Proof. intros Hv. rewrite be_value_bytes by lia. by apply Z.mod_small. Qed.

Lemma be_bytes_value l : wf_bytes l → be_bytes (length l) (be_value l) = l.
Proof.
  induction l as [|x l IH] using rev_ind; intros Hwf; [done|].
  apply Forall_app in Hwf as [Hl Hx]. rewrite Forall_singleton in Hx. unfold is_byte in Hx.
  rewrite length_app, Nat.add_comm. simpl. rewrite be_value_app.
  replace (256 ^ zlen [x]) with 256 by done. replace (be_value [x]) with x by done.
  f_equal.
  - rewrite Z.shiftr_div_pow2 by lia. change (2 ^ 8) with 256.
    rewrite Z.div_add_l by lia. rewrite (Z.div_small x) by lia. rewrite Z.add_0_r. by apply IH.
  - unfold u8. change (2 ^ 8) with 256.
    rewrite Z.add_comm, Z.mod_add by lia. by rewrite Z.mod_small.
Qed.

Lemma be_value_range l : wf_bytes l → 0 ≤ be_value l < 2 ^ (8 * zlen l).
Proof.
  induction l as [|x l IH] using rev_ind; intros Hwf; [done|].
  apply Forall_app in Hwf as [Hl Hx]. rewrite Forall_singleton in Hx. unfold is_byte in Hx.
  specialize (IH Hl). rewrite be_value_app, zlen_app.
  replace (zlen [x]) with 1 by done. replace (be_value [x]) with x by done.
  replace (8 * (zlen l + 1)) with (8 * zlen l + 8) by lia.
  rewrite Z.pow_add_r by (try apply Z.mul_nonneg_nonneg; try apply zlen_nonneg; lia).
  change (256 ^ 1) with 256. change (2 ^ 8) with 256. nia.
Qed.

(** ** Facts: the IPv4 text form parses back *)

(** The effect of a run of digits on the state of [parse4_loop]. *)
Fixpoint digit_run (ds : gostring) (val dig : Z) : option (Z * Z) :=
  match ds with
  | [] => Some (val, dig)
  | c :: ds' =>
      if is_digit c && negb ((dig =? 1) && (val =? 0)) && negb (255 <? val * 10 + (c - 48))
      then digit_run ds' (val * 10 + (c - 48)) (dig + 1) else None
  end.

Lemma parse4_loop_digits ds rest val dig fields val' dig' :
  digit_run ds val dig = Some (val', dig') →
  parse4_loop (ds ++ rest) val dig fields = parse4_loop rest val' dig' fields.
Proof.
  revert val dig. induction ds as [|c ds IH]; intros val dig; simpl; [by intros [= -> ->]|].
  destruct (is_digit c); [|done]. destruct ((dig =? 1) && (val =? 0)); [done|].
  destruct (255 <? _); [done|]. simpl. apply IH.
Qed.

Lemma digit_run_octet a :
  0 ≤ a < 256 → digit_run (itoa a) 0 0 = Some (a, zlen (itoa a)) ∧ 0 < zlen (itoa a).
Proof.
  apply (range_decide (λ a,
    digit_run (itoa a) 0 0 = Some (a, zlen (itoa a)) ∧ 0 < zlen (itoa a)) 256).
  by vm_compute.
Qed.

Lemma parse4_loop_octet a rest fields :
  0 ≤ a < 256 → rest ≠ [] → zlen fields ≠ 3 →
  parse4_loop (itoa a ++ 46 :: rest) 0 0 fields = parse4_loop rest 0 0 (fields ++ [a]).
Proof.
  intros [Hrun Hpos]%digit_run_octet Hrest Hf.
  rewrite (parse4_loop_digits _ _ _ _ _ _ _ Hrun). simpl.
  rewrite bool_decide_eq_false_2 by done.
  destruct (Z.eqb_spec (zlen (itoa a)) 0); [lia|]. simpl.
  by destruct (Z.eqb_spec (zlen fields) 3).
Qed.

Lemma itoa_octet_digits a : 0 ≤ a < 256 → forallb is_digit (itoa a) = true.
Proof. apply (range_decide (λ a, forallb is_digit (itoa a) = true) 256). by vm_compute. Qed.

Lemma string4_octets v :
  ∃ a b c d, be_bytes 4 v = [a; b; c; d] ∧ wf_bytes [a; b; c; d] ∧
    string4 v = itoa a ++ 46 :: itoa b ++ 46 :: itoa c ++ 46 :: itoa d.
Proof.
  pose proof (be_bytes_length 4 v) as Hl. pose proof (be_bytes_wf 4 v) as Hwf.
  unfold string4. destruct (be_bytes 4 v) as [|a [|b [|c [|d [|]]]]] eqn:E; try done.
  exists a, b, c, d. done.
Qed.

Lemma parse4_string4 v : 0 ≤ v < 2 ^ 32 → parse_ipv4_fields (string4 v) = Some (be_bytes 4 v).
Proof.
  intros Hv. destruct (string4_octets v) as (a&b&c&d&Hb&Hwf&->). rewrite Hb.
  unfold parse_ipv4_fields, wf_bytes in *. rewrite !Forall_cons in Hwf.
  destruct Hwf as (Ha&Hb'&Hc&Hd&_). unfold is_byte in *.
  assert (∀ x, 0 ≤ x < 256 → itoa x ≠ []) as Hne.
  { intros x [_ Hx]%digit_run_octet E. by rewrite E in Hx. }
  assert (∀ x (l : gostring), 0 ≤ x < 256 → itoa x ++ l ≠ []) as Hne'.
  { intros x l Hx [E _]%app_nil. by apply (Hne x). }
  rewrite !parse4_loop_octet by (done || by apply Hne || by apply Hne').
  destruct (digit_run_octet d Hd) as [Hrun _].
  rewrite <- (app_nil_r (itoa d)).
  by rewrite (parse4_loop_digits _ _ _ _ _ _ _ Hrun).
Qed.

Lemma find_digits_app (P : Z → bool) ds c rest :
  (∀ x, is_digit x = true → P x = false) → forallb is_digit ds = true → P c = true →
  List.find P (ds ++ c :: rest) = Some c.
Proof.
  intros HP Hds Hc. induction ds as [|x ds IH]; simpl in *; [by rewrite Hc|].
  apply andb_prop in Hds as [Hx Hds]. rewrite (HP x Hx). by apply IH.
Qed.

Lemma sep_not_digit x :
  is_digit x = true → (x =? 46) || (x =? 58) || (x =? 37) = false.
Proof.
  unfold is_digit. intros H. bool_to_prop.
  destruct (Z.eqb_spec x 46), (Z.eqb_spec x 58), (Z.eqb_spec x 37); simpl; lia || done.
Qed.

Lemma ParseAddr_string4 v : 0 ≤ v < 2 ^ 32 → ParseAddr (string4 v) = Some (Addr4 v).
Proof.
  intros Hv. unfold ParseAddr. rewrite parse4_string4 by done.
  destruct (string4_octets v) as (a&b&c&d&Hb&Hwf&->).
  unfold wf_bytes in Hwf. rewrite !Forall_cons in Hwf. destruct Hwf as (Ha&_).
  rewrite (find_digits_app _ (itoa a)); [|apply sep_not_digit|by apply itoa_octet_digits|done].
  change (Some (Addr4 (be_value (be_bytes 4 v))) = Some (Addr4 v)).
  by rewrite be_value_bytes_small.
Qed.

(** ** Facts: the IPv6 text form parses back *)

Definition is_hex (c : Z) : bool := match hex_value c with Some _ => true | None => false end.

Lemma hex_value_hexDigit n : 0 ≤ n < 16 → hex_value (hexDigit n) = Some n.
Proof. apply (range_decide (λ n, hex_value (hexDigit n) = Some n) 16). by vm_compute. Qed.

Lemma hex_digits_fuel_spec f x :
  (1 ≤ f)%nat → 0 ≤ x < 16 ^ Z.of_nat f →
  1 ≤ zlen (hex_digits_fuel f x) ≤ Z.of_nat f ∧ forallb is_hex (hex_digits_fuel f x) = true.
Proof.
  revert x. induction f as [|f IH]; intros x Hf Hx; [lia|]. cbn [hex_digits_fuel].
  rewrite zlen_app, forallb_app. replace (zlen [hexDigit (x mod 16)]) with 1 by done.
  assert (0 ≤ x mod 16 < 16) as Hm by (apply Z.mod_pos_bound; lia).
  cbn [forallb]. unfold is_hex at 2. rewrite (hex_value_hexDigit _ Hm).
  destruct (Z.ltb_spec x 16); [simpl; change (zlen (A:=Z) []) with 0; split; [lia|done]|].
  destruct f as [|f]; [change (16 ^ Z.of_nat 1) with 16 in Hx; lia|].
  destruct (IH (x / 16)) as [Hl ->]; [lia| |split; [lia|done]].
  rewrite Nat2Z.inj_succ, Z.pow_succ_r in Hx by lia.
  split; [apply Z.div_pos; lia|apply Z.div_lt_upper_bound; lia].
Qed.

Lemma scan_hex_digits f x rest off acc :
  (1 ≤ f)%nat → 0 ≤ x < 16 ^ Z.of_nat f → 0 ≤ off →
  off + zlen (hex_digits_fuel f x) ≤ 4 →
  scan_hex (hex_digits_fuel f x ++ rest) off acc =
  scan_hex rest (off + zlen (hex_digits_fuel f x))
    (acc * 16 ^ zlen (hex_digits_fuel f x) + x).
Proof.
  revert x rest. induction f as [|f IH]; intros x rest Hf Hx Hoff Hlen; [lia|].
  cbn [hex_digits_fuel] in *. rewrite zlen_app in *.
  replace (zlen [hexDigit (x mod 16)]) with 1 in * by done.
  assert (0 ≤ x mod 16 < 16) as Hm by (apply Z.mod_pos_bound; lia).
  destruct (Z.ltb_spec x 16) as [Hs|Hs].
  - change (zlen (A:=Z) []) with 0 in *. simpl app. cbn [scan_hex].
    rewrite (hex_value_hexDigit _ Hm).
    destruct (Z.ltb_spec 3 off); [lia|]. rewrite Z.mod_small by lia. f_equal; lia.
  - destruct f as [|f]; [change (16 ^ Z.of_nat 1) with 16 in Hx; lia|].
    assert (0 ≤ x / 16 < 16 ^ Z.of_nat (S f)) as Hd.
    { rewrite Nat2Z.inj_succ, Z.pow_succ_r in Hx by lia.
      split; [apply Z.div_pos; lia|apply Z.div_lt_upper_bound; lia]. }
    rewrite <- app_assoc, IH by (lia || done). cbn [app scan_hex].
    rewrite (hex_value_hexDigit _ Hm).
    destruct (Z.ltb_spec 3 (off + zlen (hex_digits_fuel (S f) (x / 16)))); [lia|].
    rewrite Z.pow_add_r by (apply zlen_nonneg || lia).
    pose proof (Z.div_mod x 16). f_equal; lia.
Qed.

Lemma append_hex_spec x :
  0 ≤ x < 65536 → 1 ≤ zlen (append_hex x) ≤ 4 ∧ forallb is_hex (append_hex x) = true.
Proof. intros Hx. apply (hex_digits_fuel_spec 4); [lia|done]. Qed.

Lemma scan_append_hex x rest :
  0 ≤ x < 65536 → (∀ c, head rest = Some c → is_hex c = false) →
  scan_hex (append_hex x ++ rest) 0 0 = Some (zlen (append_hex x), x, rest).
Proof.
  intros Hx Hrest. pose proof (append_hex_spec x Hx) as [Hl _].
  unfold append_hex in *. rewrite scan_hex_digits by (done || lia).
  destruct rest as [|c rest]; simpl; [done|].
  specialize (Hrest c eq_refl). unfold is_hex in Hrest. by destruct (hex_value c).
Qed.

(** The bytes of a list of 16-bit groups. *)
Definition gbytes (gs : list Z) : bytes := gs ≫= λ g, [Z.shiftr g 8; u8 g].

Lemma gbytes_app l k : gbytes (l ++ k) = gbytes l ++ gbytes k.
Proof. apply bind_app. Qed.

Lemma gbytes_length l : length (gbytes l) = (2 * length l)%nat.
Proof. induction l; simpl in *; lia. Qed.

Lemma gbytes_zeros n : gbytes (replicate n 0) = replicate (2 * n) 0.
Proof. induction n as [|n IH]; [done|]. replace (2 * S n)%nat with (S (S (2 * n))) by lia. simpl in *. by rewrite IH. Qed.

Lemma gbytes_groups n v : 0 ≤ v → gbytes (be_groups n v) = be_bytes (2 * n) v.
Proof.
  revert v. induction n as [|n IH]; intros v Hv; [done|].
  replace (2 * S n)%nat with (S (S (2 * n))) by lia. cbn [be_groups be_bytes].
  rewrite gbytes_app, IH by (apply Z.shiftr_nonneg; lia).
  rewrite Z.shiftr_shiftr, <- app_assoc by lia.
  f_equal. unfold gbytes, u16, u8. simpl.
  rewrite !Z.shiftr_div_pow2 by lia. f_equal; [|f_equal]; Z.div_mod_to_equations; lia.
Qed.

Lemma be_groups_length n v : length (be_groups n v) = n.
Proof. revert v. induction n; intros v; simpl; [done|]. rewrite length_app, IHn. simpl. lia. Qed.

Lemma be_groups_range n v : Forall (λ g, 0 ≤ g < 65536) (be_groups n v).
Proof.
  revert v. induction n; intros v; simpl; [constructor|].
  apply Forall_app. split; [apply IHn|]. constructor; [|constructor].
  unfold u16. unfold addr_wf. apply Z.mod_pos_bound. reflexivity.
Qed.

Lemma is_hex_sep c : is_hex c = true → c ≠ 46 ∧ c ≠ 58 ∧ c ≠ 37.
Proof. intros H. split_and!; intros ->; done. Qed.

Lemma append_hex_cons x : 0 ≤ x < 65536 → ∃ c l, append_hex x = c :: l ∧ is_hex c = true.
Proof.
  intros [Hl Hh]%append_hex_spec. destruct (append_hex x) as [|c l]; [by destruct Hl|].
  simpl in Hh. apply andb_prop in Hh as [? _]. eauto.
Qed.

Lemma groups_text_cons x y gs :
  groups_text (x :: y :: gs) = append_hex x ++ 58 :: groups_text (y :: gs).
Proof. done. Qed.

Lemma groups_text_head x gs :
  0 ≤ x < 65536 → ∃ c l, groups_text (x :: gs) = c :: l ∧ is_hex c = true.
Proof.
  intros (c & l & E & Hc)%append_hex_cons. destruct gs as [|y gs].
  - exists c, l. done.
  - rewrite groups_text_cons, E. eexists _, _. done.
Qed.

(** A list of groups fills the address from [ip] on. *)
Lemma parse6_loop_groups gs fuel ip e :
  gs ≠ [] → Forall (λ g, 0 ≤ g < 65536) gs → (length gs ≤ fuel)%nat →
  (length ip + 2 * length gs ≤ 16)%nat →
  parse6_loop fuel (groups_text gs) ip e = Some (ip ++ gbytes gs, e, []).
Proof.
  revert fuel ip. induction gs as [|x gs IH]; intros fuel ip Hne Hr Hf Hl; [done|].
  apply Forall_cons in Hr as [Hx Hr]. destruct fuel as [|fuel]; simpl in Hf; [lia|].
  cbn [parse6_loop]. simpl in Hl.
  destruct (Z.leb_spec 16 (zlen ip)); [unfold zlen in *; lia|].
  destruct (append_hex_spec x Hx) as [Hlx _]. destruct gs as [|y gs].
  - unfold groups_text. simpl join_with. rewrite <- (app_nil_r (append_hex x)).
    rewrite scan_append_hex by done. simpl.
    destruct (Z.eqb_spec (zlen (append_hex x)) 0); [lia|]. done.
  - rewrite groups_text_cons, scan_append_hex by (done || by intros c [= <-]).
    cbn [mbind option_bind]. destruct (Z.eqb_spec (zlen (append_hex x)) 0); [lia|].
    rewrite bool_decide_eq_false_2 by done. cbn [negb].
    rewrite (Z.eqb_refl 58). cbn [negb].
    destruct (groups_text_head y gs) as (c & l & E & Hc);
      [by apply Forall_cons in Hr as [? _]|].
    rewrite E. destruct (Z.eqb_spec c 58) as [->|_]; [done|]. rewrite <- E, IH; try done.
    + by rewrite <- app_assoc.
    + simpl in *. lia.
    + rewrite length_app. simpl in *. lia.
Qed.

(** Groups followed by [::] stop at the ellipsis. *)
Lemma parse6_loop_ellipsis gs fuel ip rest :
  gs ≠ [] → Forall (λ g, 0 ≤ g < 65536) gs → (length gs ≤ fuel)%nat →
  (length ip + 2 * length gs ≤ 16)%nat →
  parse6_loop fuel (groups_text gs ++ 58 :: 58 :: rest) ip None =
  let ip' := ip ++ gbytes gs in
  if bool_decide (rest = []) then Some (ip', Some (length ip'), [])
  else parse6_loop (fuel - length gs) rest ip' (Some (length ip')).
Proof.
  revert fuel ip. induction gs as [|x gs IH]; intros fuel ip Hne Hr Hf Hl; [done|].
  apply Forall_cons in Hr as [Hx Hr]. destruct fuel as [|fuel]; simpl in Hf; [lia|].
  cbn [parse6_loop]. simpl in Hl.
  destruct (Z.leb_spec 16 (zlen ip)); [unfold zlen in *; lia|].
  destruct (append_hex_spec x Hx) as [Hlx _]. destruct gs as [|y gs].
  - unfold groups_text. simpl join_with.
    rewrite scan_append_hex by (done || by intros c [= <-]).
    cbn [mbind option_bind]. destruct (Z.eqb_spec (zlen (append_hex x)) 0); [lia|].
    rewrite bool_decide_eq_false_2 by done. rewrite (Z.eqb_refl 58). cbn [negb].
    rewrite bool_decide_eq_false_2 by naive_solver. simpl. by rewrite Nat.sub_0_r.
  - rewrite groups_text_cons, <- app_assoc. cbn [app].
    rewrite scan_append_hex by (done || by intros c [= <-]).
    cbn [mbind option_bind]. destruct (Z.eqb_spec (zlen (append_hex x)) 0); [lia|].
    rewrite bool_decide_eq_false_2 by done. cbn [negb].
    rewrite (Z.eqb_refl 58). cbn [negb app].
    destruct (groups_text_head y gs) as (c & l & E & Hc);
      [by apply Forall_cons in Hr as [? _]|].
    rewrite E. cbn [app]. destruct (Z.eqb_spec c 58) as [->|_]; [done|].
    change (c :: l ++ 58 :: 58 :: rest) with ((c :: l) ++ 58 :: 58 :: rest).
    rewrite <- E, IH; try done.
    + cbn [gbytes mbind list_bind]. by rewrite <- !app_assoc.
    + simpl in *. lia.
    + rewrite length_app. simpl in *. lia.
Qed.

Lemma zero_run_spec l : take (zero_run l) l = replicate (zero_run l) 0 ∧ (zero_run l ≤ length l)%nat.
Proof.
  induction l as [|x l [IH1 IH2]]; [done|]. destruct x; simpl; [|by split; [|lia]..].
  split; [by rewrite IH1|lia].
Qed.

Lemma longest_zero_run_spec g a b :
  length g = 8%nat → longest_zero_run g = Some (a, b) →
  (a + 2 ≤ b ≤ 8)%nat ∧ g = take a g ++ replicate (b - a) 0 ++ drop b g.
Proof.
  intros Hg. unfold longest_zero_run.
  set (f := λ (best : option (nat * nat)) i, _). revert a b.
  assert (∀ l best, (∀ i, i ∈ l → i < 8)%nat →
    (∀ a b, best = Some (a, b) →
       (a + 2 ≤ b ≤ 8)%nat ∧ g = take a g ++ replicate (b - a) 0 ++ drop b g) →
    ∀ a b, foldl f best l = Some (a, b) →
       (a + 2 ≤ b ≤ 8)%nat ∧ g = take a g ++ replicate (b - a) 0 ++ drop b g) as Hind.
  { intros l. induction l as [|i l IH]; intros best Hl Hb; [done|].
    simpl. apply IH; [set_solver|]. intros a b. unfold f. cbv zeta.
    case_bool; [|apply Hb]. bool_to_prop. intros [= <- <-].
    destruct (zero_run_spec (drop i g)) as [Hz1 Hz2]. rewrite length_drop in Hz2.
    split; [lia|]. replace (i + zero_run (drop i g) - i)%nat with (zero_run (drop i g)) by lia.
    rewrite <- Hz1, <- drop_drop, take_drop, take_drop. done. }
  intros a b. apply Hind; [|done].
  intros i Hi. apply elem_of_seq in Hi. lia.
Qed.

Definition hex_colon (c : Z) : bool := is_hex c || (c =? 58).

Lemma hex_colon_cases c : hex_colon c = true → c = 58 ∨ (c ≠ 46 ∧ c ≠ 58 ∧ c ≠ 37).
Proof.
  unfold hex_colon. intros [H%is_hex_sep|H%Z.eqb_eq]%orb_prop; [by right|by left].
Qed.

Lemma find_colon s :
  forallb hex_colon s = true → 58 ∈ s →
  List.find (λ c, (c =? 46) || (c =? 58) || (c =? 37)) s = Some 58.
Proof.
  induction s as [|c s IH]; intros Hs Hin; [set_solver|].
  simpl in *. apply andb_prop in Hs as [Hc Hs].
  apply hex_colon_cases in Hc as [->|(H1&H2&H3)]; [done|].
  rewrite (proj2 (Z.eqb_neq c 46)), (proj2 (Z.eqb_neq c 58)), (proj2 (Z.eqb_neq c 37)) by done.
  apply IH; [done|set_solver].
Qed.

Lemma index_percent s : forallb hex_colon s = true → index_byte s 37 = None.
Proof.
  induction s as [|c s IH]; intros Hs; [done|]. simpl in *.
  apply andb_prop in Hs as [Hc Hs]. rewrite IH by done.
  destruct (Z.eqb_spec c 37) as [->|]; done.
Qed.

Lemma forallb_hex_colon s : forallb is_hex s = true → forallb hex_colon s = true.
Proof.
  rewrite !forallb_forall. intros H c Hc. unfold hex_colon. by rewrite (H c Hc).
Qed.

Lemma groups_text_hex_colon gs :
  Forall (λ g, 0 ≤ g < 65536) gs → forallb hex_colon (groups_text gs) = true.
Proof.
  induction gs as [|x gs IH]; [done|]. intros [Hx Hr]%Forall_cons.
  destruct (append_hex_spec x Hx) as [_ Hh%forallb_hex_colon].
  destruct gs as [|y gs]; [done|]. rewrite groups_text_cons, forallb_app, Hh. simpl.
  by rewrite <- IH.
Qed.

Lemma groups_text_colon x y gs : 58 ∈ groups_text (x :: y :: gs).
Proof. rewrite groups_text_cons. set_solver. Qed.

Lemma has_prefix_colons s c l : s = c :: l → is_hex c = true → has_prefix s "::" = false.
Proof.
  intros -> Hc. apply bool_decide_eq_false_2. intros [k E]. injection E as -> _. done.
Qed.

Lemma finish6_full ip : length ip = 16%nat → finish6 ip None [] = Some ip.
Proof.
  intros Hl. unfold finish6. rewrite bool_decide_eq_true_2 by done. simpl.
  unfold zlen. rewrite Hl. done.
Qed.

Lemma finish6_ellipsis l r :
  (length l + length r < 16)%nat →
  finish6 (l ++ r) (Some (length l)) [] =
  Some (l ++ replicate (16 - (length l + length r)) 0 ++ r).
Proof.
  intros Hl. unfold finish6. rewrite bool_decide_eq_true_2 by done. simpl.
  unfold zlen. rewrite length_app. destruct (Z.ltb_spec (Z.of_nat (length l + length r)) 16); [|lia].
  by rewrite take_app_length, drop_app_length.
Qed.

(** The compressed form [l::r], where [::] stands for two or more zero groups. *)
Lemma parse_ipv6_compressed l r :
  Forall (λ g, 0 ≤ g < 65536) l → Forall (λ g, 0 ≤ g < 65536) r →
  (length l + length r ≤ 6)%nat →
  parse_ipv6 (groups_text l ++ "::" ++ groups_text r) =
  Some (Addr6 (be_value (gbytes (l ++ replicate (8 - (length l + length r)) 0 ++ r))) []).
Proof.
  intros Hl Hr Hlen. unfold parse_ipv6. change ("::" ++ groups_text r) with (58 :: 58 :: groups_text r).
  assert (forallb hex_colon (groups_text l ++ 58 :: 58 :: groups_text r) = true) as Hhc.
  { rewrite forallb_app. cbn [forallb]. by rewrite !groups_text_hex_colon. }
  rewrite (index_percent _ Hhc). cbn [mbind option_bind].
  rewrite !gbytes_app, gbytes_zeros.
  assert (2 * (8 - (length l + length r)) = 16 - (length (gbytes l) + length (gbytes r)))%nat as ->.
  { rewrite !gbytes_length. lia. }
  assert (length (gbytes l) + length (gbytes r) < 16)%nat as Hlt by (rewrite !gbytes_length; lia).
  destruct l as [|x l].
  - change (groups_text [] ++ 58 :: 58 :: groups_text r) with (58 :: 58 :: groups_text r).
    rewrite (bool_decide_eq_true_2 _ (prefix_app_r (lit "::") (lit "::") (groups_text r) (reflexivity _)) : has_prefix (58 :: 58 :: groups_text r) "::" = true).
    change (drop 2 (58 :: 58 :: groups_text r)) with (groups_text r). cbv zeta.
    destruct r as [|y r]; [done|].
    destruct (groups_text_head y r) as (c & k & E & _); [by apply Forall_cons in Hr as [? _]|].
    rewrite bool_decide_eq_false_2 by (rewrite E; done).
    rewrite parse6_loop_groups by (done || simpl in *; lia). cbn [mbind option_bind].
    pose proof (finish6_ellipsis [] (gbytes (y :: r)) Hlt) as Hf. simpl app in *.
    change (length (A:=Z) []) with 0%nat in Hf. rewrite Hf. done.
  - destruct (groups_text_head x l) as (c & k & E & Hc); [by apply Forall_cons in Hl as [? _]|].
    rewrite (has_prefix_colons _ c (k ++ 58 :: 58 :: groups_text r)) by (rewrite ?E; done).
    rewrite parse6_loop_ellipsis by (done || simpl in *; lia). cbv zeta.
    change ([] ++ gbytes (x :: l)) with (gbytes (x :: l)).
    destruct r as [|y r].
    + rewrite bool_decide_eq_true_2 by done. cbn [mbind option_bind].
      pose proof (finish6_ellipsis (gbytes (x :: l)) [] Hlt) as Hf.
      rewrite app_nil_r in Hf. rewrite Hf. done.
    + destruct (groups_text_head y r) as (c' & k' & E' & _); [by apply Forall_cons in Hr as [? _]|].
      rewrite bool_decide_eq_false_2 by (rewrite E'; done).
      rewrite parse6_loop_groups
        by (done || rewrite ?gbytes_length; simpl in *; lia).
      cbn [mbind option_bind]. rewrite finish6_ellipsis by done. done.
Qed.

Lemma scan_hex_run ds rest off acc :
  forallb is_hex ds = true → 0 ≤ off → off + zlen ds ≤ 4 →
  (∀ c, head rest = Some c → is_hex c = false) →
  ∃ acc', scan_hex (ds ++ rest) off acc = Some (off + zlen ds, acc', rest).
Proof.
  revert off acc. induction ds as [|c ds IH]; intros off acc Hds Hoff Hlen Hrest.
  - simpl. change (zlen (A:=Z) []) with 0. rewrite Z.add_0_r.
    destruct rest as [|c rest]; simpl; [by eexists|].
    specialize (Hrest c eq_refl). unfold is_hex in Hrest. destruct (hex_value c); [done|]. by eexists.
  - simpl in Hds. apply andb_prop in Hds as [Hc Hds]. rewrite zlen_cons in *. simpl.
    unfold is_hex in Hc. destruct (hex_value c) as [d|]; [|done].
    pose proof (zlen_nonneg ds).
    destruct (Z.ltb_spec 3 off); [lia|].
    destruct (IH (off + 1) (acc * 16 + d)) as [acc' ->]; try done; try lia.
    exists acc'. do 3 f_equal. lia.
Qed.

Lemma itoa_octet_hex a : 0 ≤ a < 256 → forallb is_hex (itoa a) = true ∧ 1 ≤ zlen (itoa a) ≤ 3.
Proof.
  apply (range_decide (λ a, forallb is_hex (itoa a) = true ∧ 1 ≤ zlen (itoa a) ≤ 3) 256).
  by vm_compute.
Qed.

Lemma string4_no_percent v : 37 ∉ string4 v.
Proof.
  assert (∀ a, 0 ≤ a < 256 → 37 ∉ itoa a) as H.
  { apply (range_decide (λ a, 37 ∉ itoa a) 256). by vm_compute. }
  destruct (string4_octets v) as (a&b&c&d&_&Hwf&->).
  unfold wf_bytes, is_byte in Hwf. rewrite !Forall_cons in Hwf.
  destruct Hwf as (Ha&Hb&Hc&Hd&_). apply H in Ha, Hb, Hc, Hd. set_solver.
Qed.

Lemma index_byte_None s c : c ∉ s → index_byte s c = None.
Proof.
  induction s as [|x s IH]; intros Hs; [done|]. simpl.
  destruct (Z.eqb_spec x c) as [->|]; [set_solver|]. rewrite IH by set_solver. done.
Qed.

Lemma parse_ipv6_mapped w :
  0 ≤ w < 2 ^ 32 → parse_ipv6 ("::ffff:" ++ string4 w) = Some (Addr6 (65535 * 2 ^ 32 + w) []).
Proof.
  intros Hw. unfold parse_ipv6. rewrite index_byte_None.
  2: { pose proof (string4_no_percent w) as H. rewrite elem_of_app.
       assert (bool_decide (37 ∈ lit "::ffff:") = false) as Hc%bool_decide_eq_false by done.
       tauto. }
  cbn [mbind option_bind].
  change (has_prefix ("::ffff:" ++ string4 w) "::") with true. cbv iota.
  change (drop 2 ("::ffff:" ++ string4 w)) with (102 :: 102 :: 102 :: 102 :: 58 :: string4 w).
  cbv zeta. rewrite bool_decide_eq_false_2 by done.
  destruct (string4_octets w) as (a&b&c&d&Hb&Hwf&Hs).
  pose proof (parse4_string4 w Hw) as Hp. pose proof Hwf as Hwf'.
  unfold wf_bytes, is_byte in Hwf. rewrite !Forall_cons in Hwf. destruct Hwf as (Ha&_).
  destruct (itoa_octet_hex a Ha) as [Hh Hl].
  assert (∃ x l, string4 w = x :: l ∧ is_hex x = true) as (x & l & Ex & Hx).
  { rewrite Hs. destruct (itoa a) as [|x l] eqn:E; [by destruct Hl|].
    simpl in Hh. apply andb_prop in Hh as [? _]. eexists _, _. done. }
  assert (parse6_loop 7 (string4 w) [255; 255] (Some 0%nat) =
          Some ([255; 255] ++ be_bytes 4 w, Some 0%nat, [])) as Hloop.
  { generalize 6%nat as n. intros n.
    cbn [parse6_loop]. change (16 <=? zlen [255; 255]) with false. cbv iota.
    rewrite Hs. destruct (scan_hex_run (itoa a) (46 :: itoa b ++ 46 :: itoa c ++ 46 :: itoa d) 0 0)
      as [acc' ->]; [done|lia|lia|by intros ? [= <-]|].
    cbn [mbind option_bind]. destruct (Z.eqb_spec (0 + zlen (itoa a)) 0); [lia|].
    rewrite bool_decide_eq_true_2 by done. rewrite <- Hs, Hp. done. }
  remember 7%nat as n.
  cbn [parse6_loop]. change (16 <=? zlen (A:=Z) []) with false. cbv iota.
  change (scan_hex (102 :: 102 :: 102 :: 102 :: 58 :: string4 w) 0 0)
    with (Some (4, 65535, 58 :: string4 w)).
  cbn [mbind option_bind]. change (4 =? 0) with false. cbv iota.
  rewrite bool_decide_eq_false_2 by done. rewrite (Z.eqb_refl 58). cbn [negb].
  rewrite Ex. destruct (Z.eqb_spec x 58) as [->|_]; [done|]. rewrite <- Ex.
  change ([] ++ [Z.shiftr 65535 8; u8 65535]) with [255; 255]. rewrite Hloop.
  cbn [mbind option_bind].
  pose proof (finish6_ellipsis [] ([255; 255] ++ be_bytes 4 w)) as Hf.
  change (length (A:=Z) []) with 0%nat in Hf. rewrite Hb in Hf |- *. simpl app in Hf |- *.
  rewrite Hf by (simpl; lia). cbn [mbind option_bind]. do 2 f_equal.
  change (be_value [0;0;0;0;0;0;0;0;0;0;255;255;a;b;c;d] = 65535 * 2 ^ 32 + w).
  change [0;0;0;0;0;0;0;0;0;0;255;255;a;b;c;d]
    with ([0;0;0;0;0;0;0;0;0;0;255;255] ++ [a; b; c; d]).
  rewrite <- Hb, be_value_app, be_value_bytes_small by done. done.
Qed.

Lemma mapped_value v :
  0 ≤ v < 2 ^ 128 → Z.shiftr v 32 = 65535 → 65535 * 2 ^ 32 + v mod 2 ^ 32 = v.
Proof.
  intros Hv H. rewrite Z.shiftr_div_pow2 in H by lia.
  pose proof (Z.div_mod v (2 ^ 32)). lia.
Qed.

Lemma ParseAddr_colon s :
  List.find (λ c, (c =? 46) || (c =? 58) || (c =? 37)) s = Some 58 → ParseAddr s = parse_ipv6 s.
Proof. unfold ParseAddr. by intros ->. Qed.

(** Every well-formed address without a zone parses back from its text. *)
Lemma ParseAddr_AddrString a :
  addr_wf a → has_zone a = false → ParseAddr (AddrString a) = Some a.
Proof.
  destruct a as [|v|v zone]; intros Hwf Hz; [done|by apply ParseAddr_string4|].
  unfold addr_wf in Hwf. unfold has_zone in Hz. apply negb_false_iff, bool_decide_eq_true in Hz as ->.
  unfold AddrString. destruct (Is4In6 (Addr6 v [])) eqn:E4; unfold Is4In6 in E4.
  - apply Z.eqb_eq in E4. rewrite bool_decide_eq_true_2, app_nil_r by done.
    rewrite ParseAddr_colon by done.
    rewrite parse_ipv6_mapped by (apply Z.mod_pos_bound; lia).
    by rewrite mapped_value.
  - unfold string6. rewrite (bool_decide_eq_true_2 (([] : gostring) = [])), app_nil_r by done.
    pose proof (be_groups_length 8 v) as Hlen. pose proof (be_groups_range 8 v) as Hrange.
    assert (be_value (gbytes (be_groups 8 v)) = v) as Hval.
    { rewrite gbytes_groups by lia. by apply be_value_bytes_small. }
    destruct (longest_zero_run (be_groups 8 v)) as [[x y]|] eqn:Erun.
    + apply longest_zero_run_spec in Erun as [Hxy Hsplit]; [|done].
      assert (Forall (λ g, 0 ≤ g < 65536) (take x (be_groups 8 v)) ∧
              Forall (λ g, 0 ≤ g < 65536) (drop y (be_groups 8 v))) as [Hl Hr].
      { split; [by apply Forall_take|by apply Forall_drop]. }
      rewrite ParseAddr_colon.
      * rewrite parse_ipv6_compressed; [|done|done|rewrite length_take, length_drop; lia].
        rewrite length_take, length_drop.
        replace (8 - (x `min` length (be_groups 8 v) + (length (be_groups 8 v) - y)))%nat
          with (y - x)%nat by lia.
        by rewrite <- Hsplit, Hval.
      * apply find_colon; [|apply elem_of_app; right; apply elem_of_app; left;
                            apply elem_of_cons; by left].
        rewrite !forallb_app, !groups_text_hex_colon by done. done.
    + destruct (be_groups 8 v) as [|x [|y g]] eqn:Eg; [done..|].
      rewrite ParseAddr_colon by (apply find_colon;
        [by apply groups_text_hex_colon|by apply groups_text_colon]).
      unfold parse_ipv6.
      rewrite index_percent by by apply groups_text_hex_colon. cbn [mbind option_bind].
      destruct (groups_text_head x (y :: g)) as (c & l & E & Hc); [by apply Forall_cons in Hrange as [? _]|].
      rewrite (has_prefix_colons _ _ _ E Hc).
      rewrite parse6_loop_groups by (done || rewrite ?Hlen; simpl; lia).
      cbn [mbind option_bind].
      change ([] ++ gbytes (x :: y :: g)) with (gbytes (x :: y :: g)).
      rewrite finish6_full by (rewrite gbytes_length, Hlen; done).
      cbn [mbind option_bind]. by rewrite Hval.
Qed.

Lemma AddrString_inj a b :
  addr_wf a → addr_wf b → has_zone a = false → has_zone b = false →
  AddrString a = AddrString b → a = b.
Proof.
  intros Ha Hb Hza Hzb E. apply ParseAddr_AddrString in Ha, Hb; [|done..]. congruence.
Qed.

(** ** Facts: what [ParseAddr] returns is well formed *)

Lemma parse4_loop_wf s val dig fields f :
  wf_bytes fields → is_byte val → zlen fields ≤ 3 →
  parse4_loop s val dig fields = Some f → wf_bytes f ∧ zlen f = 4.
Proof.
  revert val dig fields. induction s as [|c s IH]; intros val dig fields Hf Hv Hl.
  - cbn [parse4_loop]. destruct (Z.ltb_spec (zlen fields) 3); [done|].
    intros [= <-]. split; [|rewrite zlen_app; change (zlen [val]) with 1; lia].
    apply Forall_app. split; [done|]. by rewrite Forall_singleton.
  - cbn [parse4_loop]. destruct (is_digit c) eqn:Ed.
    + destruct ((dig =? 1) && (val =? 0)); [done|].
      destruct (Z.ltb_spec 255 (val * 10 + (c - 48))); [done|].
      unfold is_digit in Ed. bool_to_prop. apply IH; [done| |done]. unfold is_byte in *. lia.
    + destruct (Z.eqb_spec c 46); [|done].
      destruct ((dig =? 0) || bool_decide (s = [])); [done|].
      destruct (Z.eqb_spec (zlen fields) 3); [done|].
      apply IH; [|unfold is_byte; lia|rewrite zlen_app; change (zlen [val]) with 1; lia].
      apply Forall_app. split; [done|]. by rewrite Forall_singleton.
Qed.

Lemma parse_ipv4_fields_wf s f : parse_ipv4_fields s = Some f → wf_bytes f ∧ zlen f = 4.
Proof. apply parse4_loop_wf; [constructor|unfold is_byte; lia|unfold zlen; simpl; lia]. Qed.

Lemma hex_value_range c d : hex_value c = Some d → 0 ≤ d < 16.
Proof. unfold hex_value, is_digit. repeat case_bool; intros [= <-]; bool_to_prop; lia. Qed.

Lemma scan_hex_range s off acc off' acc' rest :
  0 ≤ off ≤ 4 → 0 ≤ acc < 16 ^ off → scan_hex s off acc = Some (off', acc', rest) →
  0 ≤ acc' < 65536.
Proof.
  revert off acc. induction s as [|c s IH]; intros off acc Ho Ha; simpl.
  - intros [= <- <- <-]. pose proof (Z.pow_le_mono_r 16 off 4). change (16 ^ 4) with 65536 in *. lia.
  - destruct (hex_value c) as [d|] eqn:E.
    + case_bool; [done|]. apply IH; [lia|]. apply hex_value_range in E.
      rewrite Z.pow_add_r by lia. change (16 ^ 1) with 16. lia.
    + intros [= <- <- <-]. pose proof (Z.pow_le_mono_r 16 off 4). change (16 ^ 4) with 65536 in *. lia.
Qed.

Lemma parse6_loop_wf fuel s ip e ip' e' rest :
  wf_bytes ip → (length ip ≤ 16)%nat → Nat.Even (length ip) →
  parse6_loop fuel s ip e = Some (ip', e', rest) → wf_bytes ip' ∧ (length ip' ≤ 16)%nat.
Proof.
  revert s ip e. induction fuel as [|fuel IH]; intros s ip e Hip Hl Hev; cbn [parse6_loop].
  { by intros [= <- <- <-]. }
  destruct (Z.leb_spec 16 (zlen ip)) as [|Hlt]; [by intros [= <- <- <-]|].
  destruct (scan_hex s 0 0) as [[[off acc] rest0]|] eqn:Es; [|done]. cbn [mbind option_bind].
  apply scan_hex_range in Es; [|lia|done].
  destruct (off =? 0); [done|]. destruct (bool_decide (head rest0 = Some 46)).
  { destruct (_ && _); [done|]. destruct (Z.ltb_spec 16 (zlen ip + 4)); [done|].
    destruct (parse_ipv4_fields s) as [f|] eqn:Ef; [|done]. intros [= <- <- <-].
    apply parse_ipv4_fields_wf in Ef as [Hf Hfl]. split; [by apply Forall_app|].
    rewrite length_app. unfold zlen in *. lia. }
  assert (wf_bytes (ip ++ [Z.shiftr acc 8; u8 acc])) as Hwf'.
  { apply Forall_app. split; [done|]. repeat constructor; unfold u8;
      rewrite ?Z.shiftr_div_pow2 by lia; change (2 ^ 8) with 256; try (Z.div_mod_to_equations; lia). }
  assert (length (ip ++ [Z.shiftr acc 8; u8 acc]) = length ip + 2)%nat as Hl' by (by rewrite length_app).
  assert (length ip + 2 ≤ 16)%nat as Hle.
  { destruct Hev as [k Hk]. unfold zlen in Hlt. lia. }
  assert (Nat.Even (length (ip ++ [Z.shiftr acc 8; u8 acc]))) as Hev'.
  { rewrite Hl'. destruct Hev as [k Hk]. exists (k + 1)%nat. lia. }
  destruct rest0 as [|c rest0]; [intros [= <- <- <-]; split; [done|lia]|].
  destruct (negb _); [done|]. destruct rest0 as [|c' rest0]; [done|].
  destruct (c' =? 58).
  - destruct (bool_decide (e ≠ None)); [done|].
    destruct (bool_decide (rest0 = [])); [intros [= <- <- <-]; split; [done|lia]|].
    apply IH; [done|lia|done].
  - apply IH; [done|lia|done].
Qed.

Lemma finish6_wf ip e s b :
  wf_bytes ip → (length ip ≤ 16)%nat → finish6 ip e s = Some b → wf_bytes b ∧ zlen b = 16.
Proof.
  unfold finish6. intros Hwf Hl. destruct (negb _); [done|].
  destruct (Z.ltb_spec (zlen ip) 16).
  - destruct e as [k|]; [|done]. intros [= <-]. split.
    + apply Forall_app; split; [by apply Forall_take|]. apply Forall_app; split; [|by apply Forall_drop].
      apply Forall_replicate. unfold is_byte. lia.
    + unfold zlen in *. rewrite !length_app, length_take, length_replicate, length_drop. lia.
  - case_bool_decide; [|done]. intros [= <-]. split; [done|]. unfold zlen in *. lia.
Qed.

Lemma ParseAddr_wf s a : ParseAddr s = Some a → addr_wf a.
Proof.
  assert (∀ z s0 e, ('(ip, e, rest) ← parse6_loop 8 s0 [] e;
    b ← finish6 ip e rest; Some (Addr6 (be_value b) z)) = Some a → addr_wf a) as H6.
  { intros z s0 e. destruct (parse6_loop 8 s0 [] e) as [[[ip e'] rest]|] eqn:El; [|done].
    apply parse6_loop_wf in El as [Hip Hl]; [|constructor|simpl; lia|by exists 0%nat].
    cbn [mbind option_bind].
    destruct (finish6 ip e' rest) as [b|] eqn:Ef; [|done]. intros [= <-].
    apply finish6_wf in Ef as [Hb Hbl]; [|done..]. pose proof (be_value_range b Hb) as Hr.
    rewrite Hbl in Hr. exact Hr. }
  unfold ParseAddr. destruct (List.find _ s) as [c|]; [|done].
  destruct (decide (c = 46)) as [->|H46].
  { destruct (parse_ipv4_fields s) as [f|] eqn:Ef; [|done].
    intros [= <-]. apply parse_ipv4_fields_wf in Ef as [Hf Hl].
    pose proof (be_value_range f Hf) as Hr. rewrite Hl in Hr. exact Hr. }
  destruct (decide (c = 58)) as [->|H58].
  2: { intros H. exfalso. revert H. repeat case_match; done. }
  unfold parse_ipv6. destruct (match index_byte s 37 with Some i => _ | None => _ end) as [[s0 zone]|]; [|done].
  cbn [mbind option_bind]. destruct (has_prefix s0 "::"); [|apply H6].
  cbv zeta. destruct (bool_decide (drop 2 s0 = [])); [|apply H6].
  intros [= <-]. unfold addr_wf. lia.
Qed.

Lemma Unmap_wf a : addr_wf a → addr_wf (Unmap a).
Proof.
  destruct a as [|v|v z]; [exact id|exact id|]. unfold Unmap. intros H.
  destruct (Is4In6 (Addr6 v z)); [|exact H]. unfold addr_wf.
  apply Z.mod_pos_bound. reflexivity.
Qed.

Lemma ParsePrefix_wf s q :
  ParsePrefix s = Some q →
  addr_wf (PAddr q) ∧ has_zone (PAddr q) = false ∧ 0 ≤ PBits q ≤ BitLen (PAddr q).
Proof.
  unfold ParsePrefix. destruct (last_index_byte s 47) as [i|]; [|done]. cbn [mbind option_bind].
  destruct (ParseAddr (take i s)) as [ip|] eqn:Ea; [|done]. apply ParseAddr_wf in Ea.
  cbn [mbind option_bind]. fold (has_zone ip). destruct (has_zone ip) eqn:Ez; [done|].
  destruct (match drop (S i) s with [] => _ | _ => _ end); [done|].
  destruct (parse_uint 63 (drop (S i) s)) as [bits|] eqn:Eb; [|done]. cbn [mbind option_bind].
  apply parse_uint_nonneg in Eb.
  destruct (Z.ltb_spec (if Is6 ip then 128 else 32) bits) as [|Hb]; [done|]. intros [= <-].
  cbn [PAddr PBits]. split_and!; [exact Ea|exact Ez|exact Eb|]. destruct ip; [destruct Ea|exact Hb..].
Qed.
