(* ===== verification/AddrTrie.v ===== *)
(** * Package [addrtrie]: the domain matcher and the IP prefix tries

    [enimul/internal/addrtrie].  The domain matcher is a trie over the labels
    of a name read from the right; the IP tries are binary tries over the bits
    of an address.  Every node is owned by its parent, so the in-place updates
    of the code are functional updates along one path. *)

From S2P Require Import Prelude Errors Netip.
Local Open Scope Z_scope.

(** The value [w] gives to the longest of the first [n] non-empty prefixes of
    [ls] that has one, [base] when none has. *)
Fixpoint longestPrefix {A T} (w : list A → option T) (ls : list A) (n : nat) (base : option T)
    : option T :=
  match n with
  | O => base
  | S n' =>
      match w (take n ls) with
      | Some v => Some v
      | None => longestPrefix w ls n' base
      end
  end.

(** The first label decides whether [base] is replaced. *)
Lemma longestPrefix_cons {A T} (w : list A → option T) l ls n base :
  longestPrefix w (l :: ls) (S n) base =
  longestPrefix (λ k, w (l :: k)) ls n (match w [l] with Some v => Some v | None => base end).
Proof.
  induction n as [|n IH]; [done|].
  change (longestPrefix w (l :: ls) (S (S n)) base) with
    (match w (l :: take (S n) ls) with
     | Some v => Some v | None => longestPrefix w (l :: ls) (S n) base end).
  rewrite IH. done.
Qed.

Lemma longestPrefix_ext {A T} (w w' : list A → option T) ls n base :
  (∀ k, w k = w' k) → longestPrefix w ls n base = longestPrefix w' ls n base.
Proof. intros H. induction n as [|n IH]; simpl; [done|]. by rewrite H, IH. Qed.

Lemma longestPrefix_None {A T} (w : list A → option T) ls n base :
  (∀ k, w k = None) → longestPrefix w ls n base = base.
Proof. intros H. induction n as [|n IH]; simpl; [done|]. by rewrite H. Qed.

Lemma longestPrefix_unique {A T} (w : list A → option T) ls n base v k :
  (∀ l u, w l = Some u → u = v) → (1 ≤ k ≤ n)%nat → w (take k ls) = Some v →
  longestPrefix w ls n base = Some v.
Proof.
  intros Hu Hk Hw. induction n as [|n IH]; [lia|]. cbn [longestPrefix].
  destruct (w (take (S n) ls)) eqn:E; [by rewrite (Hu _ _ E)|].
  apply IH. destruct (decide (k = S n)); [congruence|lia].
Qed.

Lemma longestPrefix_miss {A T} (w : list A → option T) ls n base :
  (∀ k, (1 ≤ k ≤ n)%nat → w (take k ls) = None) → longestPrefix w ls n base = base.
Proof.
  induction n as [|n IH]; intros H; [done|]. cbn [longestPrefix].
  rewrite H by lia. apply IH. intros k Hk. apply H. lia.
Qed.

(** ** The domain matcher (domain.go) *)

Module Domain.

(** A node: the [hasExact] and [hasWildcard] flags with their values are
    options. *)
Inductive labelNode (T : Type) := LabelNode {
  children : gmap gostring (labelNode T);
  exactValue : option T;
  wildcardValue : option T;
}.
Arguments LabelNode {_} _ _ _.
Arguments children {_} _.
Arguments exactValue {_} _.
Arguments wildcardValue {_} _.

Section Matcher.
Context {T : Type}.
Implicit Types (node : labelNode T) (s prefix : gostring).

Definition emptyNode : labelNode T := LabelNode ∅ None None.

(** [NewDomainMatcher]; the matcher is its root node. *)
Definition NewDomainMatcher : labelNode T := emptyNode.

(** One round of the label loops: with [prefix = pattern[:i+1]] the last
    label, the text that remains before its dot, and whether there was a dot
    ([j != -1]). *)
Definition cutLabel prefix : gostring * gostring * bool :=
  match last_index_byte prefix 46 with
  | None => (prefix, [], false)
  | Some j => (drop (S j) prefix, take j prefix, true)
  end.

(** The loop of [insertPattern]; [leaf] is what is done at the last node.  The
    remaining text shrinks in every round, so its length is fuel enough. *)
Fixpoint insertLoop (fuel : nat) prefix (leaf : labelNode T → labelNode T) node
    : labelNode T :=
  match fuel with
  | O => leaf node
  | S fuel' =>
      if bool_decide (prefix = []) then leaf node else
      let '(label, rest, _) := cutLabel prefix in
      let child := default emptyNode (children node !! label) in
      LabelNode (<[label := insertLoop fuel' rest leaf child]> (children node))
        (exactValue node) (wildcardValue node)
  end.

Definition insertPattern (root : labelNode T) (pattern : gostring) (value : T)
    (isWildcard isExact : bool) : labelNode T :=
  insertLoop (length pattern) pattern
    (λ node, LabelNode (children node)
               (if isExact then Some value else exactValue node)
               (if isWildcard then Some value else wildcardValue node)) root.

Definition Add (root : labelNode T) (pattern : gostring) (value : T)
    : res (labelNode T) :=
  if bool_decide (pattern = lit "*") then
    Ok (LabelNode (children root) (exactValue root) (Some value))
  else if negb (contains pattern ".") then
    Err (errorString ("invalid pattern: " ++ pattern))
  else if has_prefix pattern "*." then
    Ok (insertPattern root (drop 2 pattern) value true false)
  else if has_prefix pattern "*" then
    Ok (insertPattern root (drop 1 pattern) value true true)
  else
    Ok (insertPattern root pattern value false true).

(** The loop of [Find]: the node reached, the candidate, [fullyMatched]. *)
Fixpoint findLoop (fuel : nat) prefix node (candidate : option T)
    : labelNode T * option T * bool :=
  match fuel with
  | O => (node, candidate, true)
  | S fuel' =>
      if bool_decide (prefix = []) then (node, candidate, true) else
      let '(label, rest, dot) := cutLabel prefix in
      match children node !! label with
      | None => (node, candidate, false)
      | Some child =>
          let candidate' :=
            if dot then
              match wildcardValue child with Some v => Some v | None => candidate end
            else candidate in
          findLoop fuel' rest child candidate'
      end
  end.

(** [Find]: the exact value of a fully matched name, else the candidate, else
    the root's wildcard; [None] for [exists = false]. *)
Definition Find (root : labelNode T) (domain : gostring) : option T :=
  let '(node, candidate, fullyMatched) := findLoop (length domain) domain root None in
  match (if fullyMatched then exactValue node else None) with
  | Some v => Some v
  | None =>
      match candidate with
      | Some v => Some v
      | None => wildcardValue root
      end
  end.

(** ** The specification: labels, and rules kept in a list *)

(** The labels of a name from the right, and how many of them have a dot
    before them; a leading dot does not start another label. *)
Fixpoint labelsFuel (fuel : nat) prefix : list (gostring * bool) :=
  match fuel with
  | O => []
  | S fuel' =>
      if bool_decide (prefix = []) then [] else
      let '(label, rest, dot) := cutLabel prefix in
      (label, dot) :: labelsFuel fuel' rest
  end.

Definition labels (s : gostring) : list gostring := (labelsFuel (length s) s).*1.
Definition dotted (s : gostring) : nat := length (filter (λ p, p.2 = true) (labelsFuel (length s) s)).

(** What a rule says: an exact name, or every proper subdomain of a name. *)
Inductive rule := Exact (ls : list gostring) (v : T) | Wildcard (ls : list gostring) (v : T).

(** The rules of a pattern; [None] for a pattern [Add] refuses. *)
Definition rulesOf (pattern : gostring) (value : T) : option (list rule) :=
  if bool_decide (pattern = lit "*") then Some [Wildcard [] value]
  else if negb (contains pattern ".") then None
  else if has_prefix pattern "*." then Some [Wildcard (labels (drop 2 pattern)) value]
  else if has_prefix pattern "*" then
    Some [Wildcard (labels (drop 1 pattern)) value; Exact (labels (drop 1 pattern)) value]
  else Some [Exact (labels pattern) value].

Definition exactRule (rs : list rule) (ls : list gostring) : option T :=
  foldl (λ acc r, match r with
                  | Exact ls' v => if bool_decide (ls' = ls) then Some v else acc
                  | _ => acc end) None rs.

Definition wildcardRule (rs : list rule) (ls : list gostring) : option T :=
  foldl (λ acc r, match r with
                  | Wildcard ls' v => if bool_decide (ls' = ls) then Some v else acc
                  | _ => acc end) None rs.

(** The reference matcher: the exact rule of the name; else the wildcard rule
    of its longest suffix that leaves a dot; a later rule for the same name
    replaces an earlier one. *)
Definition refFind (rs : list rule) (domain : gostring) : option T :=
  match exactRule rs (labels domain) with
  | Some v => Some v
  | None => longestPrefix (wildcardRule rs) (labels domain) (dotted domain) (wildcardRule rs [])
  end.

(** A matcher filled by a sequence of [Add] calls whose errors are ignored, as
    [LoadConfig] fills it, and the rules of the patterns it accepted. *)
Definition addAll (root : labelNode T) (ps : list (gostring * T)) : labelNode T :=
  foldl (λ r p, match Add r p.1 p.2 with Ok r' => r' | _ => r end) root ps.

Definition rulesAll (ps : list (gostring * T)) : list rule :=
  ps ≫= λ p, default [] (rulesOf p.1 p.2).

(** ** The trie implements the reference matcher *)

(** The node at the end of a path of labels. *)
Fixpoint nodeAt node (ls : list gostring) : option (labelNode T) :=
  match ls with
  | [] => Some node
  | l :: ls' => c ← children node !! l; nodeAt c ls'
  end.

Definition exactAt node ls : option T := nodeAt node ls ≫= exactValue.
Definition wildcardAt node ls : option T := nodeAt node ls ≫= wildcardValue.

Fixpoint insertAt (ls : list gostring) (leaf : labelNode T → labelNode T) node : labelNode T :=
  match ls with
  | [] => leaf node
  | l :: ls' =>
      LabelNode (<[l := insertAt ls' leaf (default emptyNode (children node !! l))]> (children node))
        (exactValue node) (wildcardValue node)
  end.

Lemma insertLoop_labels fuel prefix leaf node :
  insertLoop fuel prefix leaf node = insertAt (labelsFuel fuel prefix).*1 leaf node.
Proof.
  revert prefix node. induction fuel as [|fuel IH]; intros prefix node; simpl; [done|].
  case_bool_decide; [done|]. destruct (cutLabel prefix) as [[label rest] dot].
  simpl. by rewrite IH.
Qed.

(** An insertion changes what is stored at its own path only. *)
Lemma insertAt_nodeAt (P : labelNode T → option T) ls leaf node ls' :
  P emptyNode = None →
  (∀ n c, P (LabelNode c (exactValue n) (wildcardValue n)) = P n) →
  (∀ n, children (leaf n) = children n) →
  nodeAt (insertAt ls leaf node) ls' ≫= P =
  if decide (ls = ls') then P (leaf (default emptyNode (nodeAt node ls)))
  else nodeAt node ls' ≫= P.
Proof.
  intros HP0 HP Hleaf. revert node ls'.
  induction ls as [|l ls IH]; intros node [|l' ls'].
  - by rewrite decide_True.
  - rewrite decide_False by done. simpl. by rewrite Hleaf.
  - rewrite decide_False by done. simpl. by rewrite HP.
  - simpl. destruct (decide (l = l')) as [<-|Hne].
    + rewrite lookup_insert_eq. simpl. rewrite IH.
      destruct (children node !! l) as [c|]; simpl.
      * destruct (decide (ls = ls')), (decide (l :: ls = l :: ls')); congruence.
      * destruct (decide (ls = ls')), (decide (l :: ls = l :: ls')); try congruence.
        -- subst. destruct ls'; simpl; [done|]. by rewrite lookup_empty.
        -- destruct ls'; simpl; [done|]. by rewrite lookup_empty.
    + rewrite lookup_insert_ne by done. by rewrite decide_False by congruence.
Qed.

Lemma exactAt_insertPattern root pattern v w e ls :
  exactAt (insertPattern root pattern v w e) ls =
  if decide (labels pattern = ls ∧ e = true) then Some v else exactAt root ls.
Proof.
  unfold exactAt, insertPattern. rewrite insertLoop_labels.
  fold (labels pattern). rewrite insertAt_nodeAt by done. cbn [exactValue].
  destruct (decide (labels pattern = ls)) as [<-|], e;
    try (rewrite decide_True by done; done); rewrite decide_False by naive_solver; try done.
  by destruct (nodeAt root (labels pattern)).
Qed.

Lemma wildcardAt_insertPattern root pattern v w e ls :
  wildcardAt (insertPattern root pattern v w e) ls =
  if decide (labels pattern = ls ∧ w = true) then Some v else wildcardAt root ls.
Proof.
  unfold wildcardAt, insertPattern. rewrite insertLoop_labels.
  fold (labels pattern). rewrite insertAt_nodeAt by done. cbn [wildcardValue].
  destruct (decide (labels pattern = ls)) as [<-|], w;
    try (rewrite decide_True by done; done); rewrite decide_False by naive_solver; try done.
  by destruct (nodeAt root (labels pattern)).
Qed.

(** [refines root rs]: the trie stores exactly the rules [rs]. *)
Definition refines (root : labelNode T) (rs : list rule) : Prop :=
  ∀ ls, exactAt root ls = exactRule rs ls ∧ wildcardAt root ls = wildcardRule rs ls.

Lemma refines_new : refines NewDomainMatcher [].
Proof. intros [|l ls]; by unfold exactAt, wildcardAt. Qed.

Lemma refines_Add root rs pattern v :
  refines root rs →
  match Add root pattern v with
  | Ok root' => ∃ new, rulesOf pattern v = Some new ∧ refines root' (rs ++ new)
  | Err _ => rulesOf pattern v = None
  | Panic => False
  end.
Proof.
  intros Href. unfold Add, rulesOf.
  assert (∀ ls r, exactRule (rs ++ [r]) ls =
    match r with Exact ls' w => if bool_decide (ls' = ls) then Some w else exactRule rs ls
    | _ => exactRule rs ls end) as He by (intros; unfold exactRule; by rewrite foldl_app).
  assert (∀ ls r, wildcardRule (rs ++ [r]) ls =
    match r with Wildcard ls' w => if bool_decide (ls' = ls) then Some w else wildcardRule rs ls
    | _ => wildcardRule rs ls end) as Hw by (intros; unfold wildcardRule; by rewrite foldl_app).
  case_bool_decide.
  { eexists. split; [done|]. intros ls. rewrite He, Hw. destruct (Href ls) as [<- <-].
    destruct ls as [|l ls]; [by split|]. rewrite bool_decide_eq_false_2 by done. by split. }
  destruct (contains pattern "."); [simpl|done].
  destruct (has_prefix pattern "*."); [|destruct (has_prefix pattern "*")];
    (eexists; split; [done|]); intros ls;
    rewrite exactAt_insertPattern, wildcardAt_insertPattern; destruct (Href ls) as [-> ->].
  - rewrite He, Hw. rewrite (decide_False (P := _ ∧ false = true)) by naive_solver.
    split; [done|]. case_bool_decide; [by rewrite decide_True|by rewrite decide_False by naive_solver].
  - unfold exactRule, wildcardRule. rewrite !foldl_app. simpl.
    split; (case_bool_decide; [by rewrite decide_True|by rewrite decide_False by naive_solver]).
  - rewrite He, Hw. rewrite (decide_False (P := _ ∧ false = true)) by naive_solver.
    split; [|done]. case_bool_decide; [by rewrite decide_True|by rewrite decide_False by naive_solver].
Qed.

Lemma refines_addAll root rs ps :
  refines root rs → refines (addAll root ps) (rs ++ rulesAll ps).
Proof.
  revert root rs. induction ps as [|[pattern v] ps IH]; intros root rs Href.
  - simpl. by rewrite app_nil_r.
  - unfold rulesAll. cbn [addAll foldl mbind list_bind]. fold (rulesAll ps).
    pose proof (refines_Add root rs pattern v Href) as HA. simpl.
    destruct (Add root pattern v) as [root'|e|]; [| |done].
    + destruct HA as (new & -> & Hnew). rewrite app_assoc. by apply IH.
    + rewrite HA. by apply IH.
Qed.

(** The flags of the labels: a dot before all but possibly the last one. *)
Lemma labelsFuel_nodot fuel prefix l ds :
  labelsFuel fuel prefix = (l, false) :: ds → ds = [].
Proof.
  destruct fuel as [|fuel]; [done|]. simpl. case_bool_decide; [done|].
  unfold cutLabel. destruct (last_index_byte prefix 46); [congruence|].
  intros [= <- <-]. by destruct fuel.
Qed.

Lemma findLoop_spec fuel prefix node cand :
  let lds := labelsFuel fuel prefix in
  let '(node', cand', full) := findLoop fuel prefix node cand in
  (if full then exactValue node' else None) = exactAt node lds.*1 ∧
  cand' = longestPrefix (wildcardAt node) lds.*1 (length (filter (λ p, p.2 = true) lds)) cand.
Proof.
  revert prefix node cand. induction fuel as [|fuel IH]; intros prefix node cand; [by split|].
  cbn [findLoop labelsFuel]. case_bool_decide; [by split|].
  destruct (cutLabel prefix) as [[label rest] dot] eqn:Ecut.
  cbv zeta. cbn [fmap list_fmap fst].
  assert (Hdot : dot = false → labelsFuel fuel rest = []).
  { intros ->. apply (labelsFuel_nodot (S fuel) prefix label). simpl.
    rewrite bool_decide_eq_false_2 by done. by rewrite Ecut. }
  destruct (children node !! label) as [c|] eqn:Ec.
  - specialize (IH rest c (if dot then match wildcardValue c with Some v => Some v | None => cand end else cand)).
    destruct (findLoop fuel rest c _) as [[node' cand'] full]. cbv zeta in IH.
    destruct IH as [IH1 IH2]. split.
    + rewrite IH1. unfold exactAt. simpl. by rewrite Ec.
    + rewrite IH2. destruct dot.
      * rewrite filter_cons_True by done. cbn [length]. rewrite longestPrefix_cons.
        assert (wildcardAt node [label] = wildcardValue c) as ->
          by (unfold wildcardAt; simpl; by rewrite Ec).
        apply longestPrefix_ext. intros k. unfold wildcardAt. simpl. by rewrite Ec.
      * rewrite Hdot by done. rewrite filter_cons_False by done. done.
  - split; [unfold exactAt; simpl; by rewrite Ec|].
    assert (∀ k, wildcardAt node (label :: k) = None) as Hw
      by (intros k; unfold wildcardAt; simpl; by rewrite Ec).
    destruct dot.
    + rewrite filter_cons_True by done. cbn [length].
      rewrite longestPrefix_cons, longestPrefix_None by done. by rewrite Hw.
    + rewrite Hdot by done. rewrite filter_cons_False by done. done.
Qed.

Lemma longestPrefix_base {A} (w : list A → option T) ls n base :
  longestPrefix w ls n base =
  match longestPrefix w ls n None with Some v => Some v | None => base end.
Proof. induction n as [|n IH]; simpl; [done|]. by destruct (w (take (S n) ls)). Qed.

Lemma Find_refines root rs domain : refines root rs → Find root domain = refFind rs domain.
Proof.
  intros Href. unfold Find, refFind.
  pose proof (findLoop_spec (length domain) domain root None) as Hf. cbv zeta in Hf.
  destruct (findLoop (length domain) domain root None) as [[node cand] full].
  destruct Hf as [-> ->]. fold (labels domain). fold (dotted domain).
  destruct (Href (labels domain)) as [-> _].
  destruct (exactRule rs (labels domain)); [done|].
  rewrite (longestPrefix_base (wildcardRule rs)).
  rewrite (longestPrefix_ext _ (wildcardRule rs)) by (intros k; apply Href).
  destruct (Href []) as [_ <-]. done.
Qed.

(** C3: a matcher filled by any sequence of [Add] calls answers [Find] as the
    reference matcher does on the accepted rules: the exact rule of the name,
    else the wildcard rule of the longest suffix that leaves a dot, else the
    catch-all, a later rule replacing an earlier one for the same name. *)
Theorem Find_matches_rules ps domain :
  Find (addAll NewDomainMatcher ps) domain = refFind (rulesAll ps) domain.
Proof. apply Find_refines, (refines_addAll _ []), refines_new. Qed.

(** An answer is a value that was added. *)
Lemma exactRule_elem rs ls v : exactRule rs ls = Some v → ∃ ls', Exact ls' v ∈ rs.
Proof.
  unfold exactRule. induction rs as [|r rs IH] using rev_ind; [done|]. rewrite foldl_app. cbn.
  destruct r as [ls' v'|ls' v']; [case_bool_decide; [intros [= <-]; exists ls'; set_solver|]|]; intros [ls'' ?]%IH; exists ls''; set_solver.
Qed.

Lemma wildcardRule_elem rs ls v : wildcardRule rs ls = Some v → ∃ ls', Wildcard ls' v ∈ rs.
Proof.
  unfold wildcardRule. induction rs as [|r rs IH] using rev_ind; [done|]. rewrite foldl_app. cbn.
  destruct r as [ls' v'|ls' v']; [|case_bool_decide; [intros [= <-]; exists ls'; set_solver|]]; intros [ls'' ?]%IH; exists ls''; set_solver.
Qed.

Lemma longestPrefix_elem (w : list gostring → option T) ls n base v :
  longestPrefix w ls n base = Some v → base = Some v ∨ ∃ ls', w ls' = Some v.
Proof.
  induction n as [|n IH]; cbn [longestPrefix]; [by left|]. destruct (w _) as [x|] eqn:E; [|done]. intros [= ->]. by right; eexists.
Qed.

Lemma rulesAll_elem ps r : r ∈ rulesAll ps → match r with Exact _ v | Wildcard _ v => v ∈ ps.*2 end.
Proof.
  unfold rulesAll. intros ([pat v] & Hr & Hp)%list_elem_of_bind. cbn in Hr. apply (list_elem_of_fmap_2 snd) in Hp. cbn in Hp.
  unfold rulesOf in Hr. repeat case_match; cbn in Hr; set_solver.
Qed.

Lemma Find_inserted ps domain v : Find (addAll NewDomainMatcher ps) domain = Some v → v ∈ ps.*2.
Proof.
  rewrite (Find_refines _ (rulesAll ps)) by (apply (refines_addAll _ []), refines_new). unfold refFind.
  destruct (exactRule _ _) as [x|] eqn:E.
  - intros [= ->]. apply exactRule_elem in E as (ls & E). by apply rulesAll_elem in E.
  - intros [H|(ls & H)]%longestPrefix_elem; apply wildcardRule_elem in H as (ls' & H); by apply rulesAll_elem in H.
Qed.

(** ** Labels of a composed name *)

Lemma cutLabel_shorter prefix label rest dot :
  prefix ≠ [] → cutLabel prefix = (label, rest, dot) → (length rest < length prefix)%nat.
Proof.
  unfold cutLabel. intros Hne. destruct (last_index_byte prefix 46) as [j|] eqn:E.
  - apply last_index_byte_Some in E as (_&_&?). intros [= <- <- <-]. rewrite length_take. lia.
  - intros [= <- <- <-]. destruct prefix; simpl; [done|lia].
Qed.

Lemma labelsFuel_enough f f' s :
  (length s ≤ f)%nat → (length s ≤ f')%nat → labelsFuel f s = labelsFuel f' s.
Proof.
  revert f' s. induction f as [|f IH]; intros [|f'] s Hf Hf'; simpl; try done.
  - destruct s; [done|simpl in Hf; lia].
  - destruct s; [done|simpl in Hf'; lia].
  - case_bool_decide as Hs; [done|]. destruct (cutLabel s) as [[label rest] dot] eqn:E.
    apply cutLabel_shorter in E; [|done]. f_equal. apply IH; lia.
Qed.

Lemma cutLabel_app x d :
  cutLabel (x ++ 46 :: d) =
  match last_index_byte d 46 with
  | Some j => (drop (S j) d, x ++ 46 :: take j d, true)
  | None => (d, x, true)
  end.
Proof.
  unfold cutLabel. destruct (last_index_byte d 46) as [j|] eqn:E.
  - apply last_index_byte_Some in E as (H1&H2&H3).
    assert (last_index_byte (x ++ 46 :: d) 46 = Some (length x + S j)%nat) as ->.
    { apply last_index_byte_Some. rewrite take_app_add, <- Nat.add_succ_r, drop_app_add.
      simpl. split_and!; [|done|rewrite length_app; simpl; lia].
      rewrite <- app_assoc. simpl. by rewrite <- H1. }
    rewrite <- Nat.add_succ_r, drop_app_add, take_app_add. done.
  - apply last_index_byte_None in E.
    assert (last_index_byte (x ++ 46 :: d) 46 = Some (length x)) as ->.
    { apply last_index_byte_Some. rewrite take_app_length.
      replace (S (length x)) with (length x + 1)%nat by lia. rewrite drop_app_add.
      simpl. rewrite drop_0. split_and!; [done|done|rewrite length_app; simpl; lia]. }
    replace (S (length x)) with (length x + 1)%nat by lia.
    rewrite drop_app_add, take_app_length. simpl. by rewrite drop_0.
Qed.

Lemma labelsFuel_app f x d :
  d ≠ [] → head d ≠ Some 46 → (length (x ++ 46%Z :: d) ≤ f)%nat →
  labelsFuel f (x ++ 46 :: d) =
  ((λ l, (l, true)) <$> (labelsFuel f d).*1) ++ labelsFuel f x.
Proof.
  revert d. induction f as [|f IH]; intros d Hd Hh Hf.
  { rewrite length_app in Hf. simpl in Hf. lia. }
  rewrite length_app in Hf. simpl in Hf. cbn [labelsFuel].
  rewrite bool_decide_eq_false_2 by (intros [_ ?]%app_nil; done).
  rewrite (bool_decide_eq_false_2 (d = [])) by done. rewrite cutLabel_app.
  unfold cutLabel at 1. destruct (last_index_byte d 46) as [j|] eqn:E.
  - apply last_index_byte_Some in E as (H1&H2&H3).
    assert (j ≠ O) as Hj by (intros ->; rewrite H1 in Hh; done).
    rewrite IH.
    + cbn [fmap list_fmap fst app]. f_equal. f_equal.
      change (if bool_decide (x = []) then _ else _) with (labelsFuel (S f) x).
      apply labelsFuel_enough; lia.
    + destruct d; [done|]. by destruct j.
    + destruct d; [done|]. by destruct j.
    + rewrite length_app. simpl. rewrite length_take. lia.
  - cbn [fmap list_fmap fst app].
    assert (labelsFuel f [] = []) as -> by (by destruct f). simpl. f_equal.
    change (if bool_decide (x = []) then _ else _) with (labelsFuel (S f) x).
    apply labelsFuel_enough; lia.
Qed.

Lemma labels_app x d :
  d ≠ [] → head d ≠ Some 46 →
  labels (x ++ 46 :: d) = labels d ++ labels x ∧
  dotted (x ++ 46 :: d) = (length (labels d) + dotted x)%nat.
Proof.
  intros Hd Hh. unfold labels, dotted. set (f := length (x ++ 46 :: d)).
  assert (length d ≤ f ∧ length x ≤ f)%nat as [Hfd Hfx].
  { unfold f. rewrite length_app. simpl. lia. }
  rewrite (labelsFuel_enough (length d) f), (labelsFuel_enough (length x) f) by lia.
  rewrite labelsFuel_app by done.
  rewrite fmap_app, filter_app, length_app, <- list_fmap_compose. split.
  - f_equal. rewrite <- (list_fmap_id ((labelsFuel f d).*1)) at 2. done.
  - f_equal. generalize ((labelsFuel f d).*1). intros ls.
    induction ls as [|l ls IHls]; [done|]. cbn [fmap list_fmap].
    rewrite filter_cons_True by done. simpl. f_equal. apply IHls.
Qed.

Lemma dotted_lt f d :
  d ≠ [] → head d ≠ Some 46 → (length d ≤ f)%nat →
  (length (filter (λ p, p.2 = true) (labelsFuel f d)) < length (labelsFuel f d))%nat.
Proof.
  revert d. induction f as [|f IH]; intros d Hd Hh Hf; [destruct d; simpl in *; [done|lia]|].
  cbn [labelsFuel]. rewrite bool_decide_eq_false_2 by done. unfold cutLabel.
  destruct (last_index_byte d 46) as [j|] eqn:E.
  - apply last_index_byte_Some in E as (H1&H2&H3).
    rewrite filter_cons_True by done. simpl. apply le_n_S, IH.
    + destruct d; [done|]. destruct j; [|done]. by rewrite H1 in Hh.
    + destruct d; [done|]. destruct j; [|done]. by rewrite H1 in Hh.
    + rewrite length_take. lia.
  - rewrite filter_cons_False by done. simpl.
    assert (labelsFuel f [] = []) as -> by (by destruct f). simpl. lia.
Qed.

Lemma labels_dotted d :
  d ≠ [] → head d ≠ Some 46 → (dotted d < length (labels d))%nat.
Proof. intros. unfold dotted, labels. rewrite length_fmap. by apply dotted_lt. Qed.

Lemma contains_dot_app x d : contains (x ++ 46 :: d) "." = true.
Proof.
  induction x as [|c x IH]; [done|]. simpl. apply orb_true_iff. by right.
Qed.

(** A pattern [*.d] matches every name below [d] and not [d] itself. *)
Theorem wildcard_pattern_subdomains (d x : gostring) (v : T) :
  d ≠ [] → head d ≠ Some 46 →
  ∃ m, Add NewDomainMatcher ("*." ++ d) v = Ok m ∧
    Find m (x ++ "." ++ d) = Some v ∧ Find m d = None.
Proof.
  intros Hd Hh.
  pose proof (refines_Add NewDomainMatcher [] ("*." ++ d) v refines_new) as HA.
  assert (rulesOf ("*." ++ d) v = Some [Wildcard (labels d) v]) as Hr.
  { unfold rulesOf. rewrite bool_decide_eq_false_2 by done.
    change ("*." ++ d) with ([42] ++ 46 :: d). by rewrite contains_dot_app. }
  destruct (Add NewDomainMatcher ("*." ++ d) v) as [m|e|]; [|congruence|done].
  destruct HA as (new & Hnew & Href). rewrite Hr in Hnew. injection Hnew as <-.
  change ([] ++ [Wildcard (labels d) v]) with [Wildcard (labels d) v] in Href.
  exists m. split; [done|]. rewrite !(Find_refines m _ _ Href). unfold refFind.
  assert (∀ ls, exactRule [Wildcard (labels d) v] ls = None) as He by done.
  assert (∀ ls, wildcardRule [Wildcard (labels d) v] ls =
                if bool_decide (labels d = ls) then Some v else None) as Hw by done.
  rewrite !He. pose proof (labels_dotted d Hd Hh) as Hlt. split.
  - change (x ++ "." ++ d) with (x ++ 46 :: d).
    destruct (labels_app x d Hd Hh) as [-> ->].
    apply (longestPrefix_unique _ _ _ _ v (length (labels d))).
    + intros l u. rewrite Hw. by case_bool_decide; intros [= <-].
    + lia.
    + rewrite take_app_length, Hw. by rewrite bool_decide_eq_true_2.
  - rewrite longestPrefix_miss.
    + rewrite Hw. rewrite bool_decide_eq_false_2; [done|]. intros E. rewrite E in Hlt. simpl in Hlt. lia.
    + intros k Hk. rewrite Hw, bool_decide_eq_false_2; [done|].
      intros E. apply (f_equal length) in E. rewrite length_take in E. lia.
Qed.

End Matcher.

Lemma wildcard_pattern_subdomains_witness :
  (lit "example.com" ≠ [] ∧ head (lit "example.com") ≠ Some 46) ∧
  ∃ m, Add (@NewDomainMatcher Z) ("*." ++ "example.com") 7 = Ok m ∧
    Find m ("www" ++ "." ++ "example.com") = Some 7 ∧ Find m "example.com" = None.
Proof.
  split; [split; discriminate|].
  apply (wildcard_pattern_subdomains "example.com" "www" 7); discriminate.
Defined.

End Domain.

(** ** The IP tries (ipv4.go, ipv6.go) *)

Module IPTrie.

Inductive bitNode (T : Type) := BitNode {
  child0 : option (bitNode T);
  child1 : option (bitNode T);
  value : option T;
}.
Arguments BitNode {_} _ _ _.
Arguments child0 {_} _.
Arguments child1 {_} _.
Arguments value {_} _.

Definition getBit32 (v i : Z) : Z := Z.land (Z.shiftr v (31 - i)) 1.

(** A 128-bit value as two 64-bit halves. *)
Record uint128 := mkU128 { hi : Z; lo : Z }.

Definition getBit128 (v : uint128) (i : Z) : Z :=
  if i <? 64 then Z.land (Z.shiftr (hi v) (63 - i)) 1
  else Z.land (Z.shiftr (lo v) (63 - (i - 64))) 1.

Definition parseIPv4OrCIDR (s : gostring) : res (Z * Z) :=
  match ParsePrefix s with
  | Some prefix =>
      let addr := PAddr prefix in
      if negb (Is4 addr) then fail "non-IPv4 mask" else
      let bitLen := PBits prefix in
      if (bitLen <? 0) || (32 <? bitLen) then fail "non-canonical mask"
      else Ok (be_value (As4 addr), bitLen)
  | None =>
      match ParseAddr s with
      | Some addr =>
          let addr := Unmap addr in
          if negb (Is4 addr) then fail "invalid IPv4 address"
          else Ok (be_value (As4 addr), 32)
      | None => fail "invalid IPv4 address or CIDR"
      end
  end.

Definition u128_of (b : bytes) : uint128 := mkU128 (be_value (take 8 b)) (be_value (drop 8 b)).

Definition parseIPv6OrCIDR (s : gostring) : res (uint128 * Z) :=
  match ParsePrefix s with
  | Some prefix =>
      let addr := Unmap (PAddr prefix) in
      if Is4 addr then fail "non-IPv6 mask" else
      let ip := u128_of (As16 addr) in
      let bitLen := PBits prefix in
      if (bitLen <? 0) || (128 <? bitLen) then fail "non-canonical mask"
      else Ok (ip, bitLen)
  | None =>
      match ParseAddr s with
      | Some addr =>
          let addr := Unmap addr in
          if Is4 addr then fail "invalid IPv6 address"
          else Ok (u128_of (As16 addr), 128)
      | None => fail "invalid IPv6 address or CIDR"
      end
  end.

Section Trie.
Context {T : Type}.
Implicit Types node : bitNode T.

Definition emptyBit : bitNode T := BitNode None None None.

Definition NewIPv4Trie : bitNode T := emptyBit.
Definition NewIPv6Trie : bitNode T := emptyBit.

Definition childAt node (b : Z) : option (bitNode T) :=
  if b =? 0 then child0 node else child1 node.

Definition setChild node (b : Z) (c : bitNode T) : bitNode T :=
  if b =? 0 then BitNode (Some c) (child1 node) (value node)
  else BitNode (child0 node) (Some c) (value node).

(** The loop of [Insert] over the [n] bits from [i] on. *)
Fixpoint insertLoop (bit : Z → Z) (n : nat) (i : Z) (v : T) node : bitNode T :=
  match n with
  | O => BitNode (child0 node) (child1 node) (Some v)
  | S n' =>
      let b := bit i in
      setChild node b (insertLoop bit n' (i + 1) v (default emptyBit (childAt node b)))
  end.

(** The loop of [Find] over at most [n] bits from [i] on, then the check of
    the node it stopped at. *)
Fixpoint findLoop (bit : Z → Z) (n : nat) (i : Z) node (matched : option T) : option T :=
  let matched := match value node with Some v => Some v | None => matched end in
  match n with
  | O => matched
  | S n' =>
      match childAt node (bit i) with
      | None => matched
      | Some c => findLoop bit n' (i + 1) c matched
      end
  end.

Definition Insert4 (root : bitNode T) (prefix : gostring) (v : T) : res (bitNode T) :=
  if bool_decide (prefix = lit "*") then
    Ok (BitNode (child0 root) (child1 root) (Some v))
  else
    '(ip, bitLen) ← parseIPv4OrCIDR prefix;
    Ok (insertLoop (getBit32 ip) (Z.to_nat bitLen) 0 v root).

Definition Find4 (root : bitNode T) (ipStr : gostring) : option T :=
  match ParseAddr ipStr with
  | None => None
  | Some addr =>
      let addr := Unmap addr in
      if negb (Is4 addr) then None else
      let ipUint := be_value (As4 addr) in
      match findLoop (getBit32 ipUint) 32 0 root None with
      | Some v => Some v
      | None => value root
      end
  end.

Definition Insert6 (root : bitNode T) (prefix : gostring) (v : T) : res (bitNode T) :=
  if bool_decide (prefix = lit "*") then
    Ok (BitNode (child0 root) (child1 root) (Some v))
  else
    '(ip, bitLen) ← parseIPv6OrCIDR prefix;
    Ok (insertLoop (getBit128 ip) (Z.to_nat bitLen) 0 v root).

Definition Find6 (root : bitNode T) (ipStr : gostring) : option T :=
  match ParseAddr ipStr with
  | None => None
  | Some addr =>
      let addr := Unmap addr in
      if Is4 addr then None else
      let ipUint := u128_of (As16 addr) in
      match findLoop (getBit128 ipUint) 128 0 root None with
      | Some v => Some v
      | None => value root
      end
  end.

(** ** The specification: the longest matching prefix

    Rules are kept in a list; [matchPrefix] scans it and keeps the longest
    prefix that contains the address, a later rule winning a tie. *)

Definition matchPrefix (rs : list (Prefix * T)) (a : Addr) : option (Z * T) :=
  foldl (λ best r,
    if Contains r.1 a &&
       match best with Some (b, _) => b <=? PBits r.1 | None => true end
    then Some (PBits r.1, r.2) else best) None rs.

(** The rule a pattern stands for: [*] is the whole family, a CIDR its prefix,
    an address a prefix of full length. *)
Definition rule4 (p : gostring * T) : option (Prefix * T) :=
  if bool_decide (p.1 = lit "*") then Some (mkPrefix (Addr4 0) 0, p.2) else
  match ParsePrefix p.1 with
  | Some q => if Is4 (PAddr q) then Some (q, p.2) else None
  | None => a ← ParseAddr p.1; if Is4 (Unmap a) then Some (mkPrefix (Unmap a) 32, p.2) else None
  end.

Definition rule6 (p : gostring * T) : option (Prefix * T) :=
  if bool_decide (p.1 = lit "*") then Some (mkPrefix (Addr6 0 []) 0, p.2) else
  match ParsePrefix p.1 with
  | Some q => if Is4 (Unmap (PAddr q)) then None else Some (q, p.2)
  | None => a ← ParseAddr p.1;
            if Is4 (Unmap a) then None else Some (mkPrefix (Addr6 (addr_value a) []) 128, p.2)
  end.

(** Tries filled by [Insert] calls whose errors are ignored, as in
    [LoadConfig]. *)
Definition insertAll (ins : bitNode T → gostring → T → res (bitNode T))
    (root : bitNode T) (ps : list (gostring * T)) : bitNode T :=
  foldl (λ r p, match ins r p.1 p.2 with Ok r' => r' | _ => r end) root ps.

(** ** Paths of bits *)

Definition childB node (b : bool) : option (bitNode T) := if b then child1 node else child0 node.

Fixpoint valueAt node (bs : list bool) {struct bs} : option T :=
  match bs with
  | [] => value node
  | b :: bs' => c ← childB node b; valueAt c bs'
  end.

Definition path (bit : Z → Z) (i : Z) (n : nat) : list bool :=
  (λ k, negb (bit k =? 0)) <$> seqZ i (Z.of_nat n).

Lemma path_S bit i n : path bit i (S n) = negb (bit i =? 0) :: path bit (i + 1) n.
Proof.
  unfold path. rewrite seqZ_cons by lia. simpl. f_equal. f_equal. f_equal; lia.
Qed.

Lemma valueAt_insertLoop bit n i v node bs :
  valueAt (insertLoop bit n i v node) bs =
  if decide (path bit i n = bs) then Some v else valueAt node bs.
Proof.
  revert i node bs. induction n as [|n IH]; intros i node bs.
  - change (path bit i 0) with ([] : list bool). destruct bs as [|b bs].
    + by rewrite decide_True.
    + rewrite decide_False by done. destruct b; reflexivity.
  - rewrite path_S. cbn [insertLoop]. destruct bs as [|b bs].
    { rewrite decide_False by done. unfold setChild. by destruct (bit i =? 0). }
    assert (∀ b' c, childB (setChild node (bit i) c) b' =
      if decide (negb (bit i =? 0) = b') then Some c else childB node b') as Hc.
    { intros b' c. unfold setChild. by destruct (bit i =? 0), b'. }
    cbn [valueAt]. rewrite Hc.
    destruct (decide (negb (bit i =? 0) = b)) as [<-|Hb].
    + simpl. rewrite IH.
      assert (childAt node (bit i) = childB node (negb (bit i =? 0))) as ->.
      { unfold childAt. by destruct (bit i =? 0). }
      destruct (decide (path bit (i + 1) n = bs)) as [->|Hne].
      * by rewrite decide_True.
      * rewrite decide_False by congruence. destruct (childB node _); simpl; [done|].
        by destruct bs as [|[] ?].
    + by rewrite decide_False by congruence.
Qed.

Lemma findLoop_longest bit n i node m :
  findLoop bit n i node m =
  longestPrefix (valueAt node) (path bit i n) n
    (match value node with Some v => Some v | None => m end).
Proof.
  revert i node m. induction n as [|n IH]; intros i node m; [done|].
  cbn [findLoop]. rewrite path_S, longestPrefix_cons.
  assert (childAt node (bit i) = childB node (negb (bit i =? 0))) as ->.
  { unfold childAt. by destruct (bit i =? 0). }
  cbn [valueAt]. destruct (childB node (negb (bit i =? 0))) as [c|] eqn:Ec; simpl.
  - rewrite IH. done.
  - by rewrite longestPrefix_None.
Qed.

(** The value of the last rule for a path. *)
Definition lastRule (rs : list (list bool * T)) (bs : list bool) : option T :=
  foldl (λ acc r, if bool_decide (r.1 = bs) then Some r.2 else acc) None rs.

Lemma lastRule_snoc rs r bs :
  lastRule (rs ++ [r]) bs = if bool_decide (r.1 = bs) then Some r.2 else lastRule rs bs.
Proof. unfold lastRule. by rewrite foldl_app. Qed.

(** The longest prefix of [ls] with a value, together with its length. *)
Fixpoint bestPrefix (w : list bool → option T) (ls : list bool) (n : nat) : option (nat * T) :=
  match w (take n ls) with
  | Some v => Some (n, v)
  | None => match n with O => None | S n' => bestPrefix w ls n' end
  end.

Lemma longestPrefix_best w ls n :
  longestPrefix w ls n (w []) = snd <$> bestPrefix w ls n.
Proof.
  induction n as [|n IH]; cbn [longestPrefix bestPrefix].
  - rewrite take_0. by destruct (w []).
  - destruct (w (take (S n) ls)); [done|]. apply IH.
Qed.

Lemma bestPrefix_le w ls n m v : bestPrefix w ls n = Some (m, v) → (m ≤ n)%nat.
Proof.
  induction n as [|n IH]; cbn [bestPrefix].
  - rewrite take_0. destruct (w []); naive_solver.
  - destruct (w (take (S n) ls)); [naive_solver|]. intros ?%IH. lia.
Qed.

Lemma bestPrefix_snoc rs b v ls n :
  (n ≤ length ls)%nat →
  bestPrefix (lastRule (rs ++ [(b, v)])) ls n =
  if decide (b `prefix_of` ls ∧ (length b ≤ n)%nat) then
    match bestPrefix (lastRule rs) ls n with
    | Some (m, u) => if decide (m ≤ length b)%nat then Some (length b, v) else Some (m, u)
    | None => Some (length b, v)
    end
  else bestPrefix (lastRule rs) ls n.
Proof.
  intros Hn. induction n as [|n IH].
  - cbn [bestPrefix]. rewrite take_0, lastRule_snoc. cbn [fst snd].
    destruct b as [|b0 b].
    + rewrite decide_True by (split; [apply prefix_nil|simpl; lia]).
      rewrite bool_decide_eq_true_2 by done.
      destruct (lastRule rs []); [|done]. by rewrite decide_True by (simpl; lia).
    + rewrite (decide_False (P := _ ∧ _)) by (intros [_ ?]; simpl in *; lia).
      by rewrite bool_decide_eq_false_2 by done.
  - cbn [bestPrefix]. rewrite lastRule_snoc. cbn [fst snd].
    destruct (decide (b = take (S n) ls)) as [Hb|Hb].
    + rewrite bool_decide_eq_true_2 by done.
      assert (length b = S n) as Hl by (rewrite Hb, length_take; lia).
      rewrite decide_True by (split; [rewrite Hb; apply prefix_take|lia]).
      rewrite Hl. destruct (lastRule rs (take (S n) ls)).
      { by rewrite decide_True by lia. }
      destruct (bestPrefix (lastRule rs) ls n) as [[m u]|] eqn:E; [|done].
      apply bestPrefix_le in E. by rewrite decide_True by lia.
    + rewrite bool_decide_eq_false_2 by done.
      destruct (lastRule rs (take (S n) ls)) as [u|] eqn:Eu.
      * destruct (decide (b `prefix_of` ls ∧ (length b ≤ S n)%nat)) as [[[k ->] Hl]|]; [|done].
        destruct (decide (S n ≤ length b)%nat) as [Hle|]; [exfalso|done].
        apply Hb. rewrite take_app_le by lia. rewrite take_ge by lia. done.
      * rewrite IH by lia.
        destruct (decide (b `prefix_of` ls ∧ (length b ≤ n)%nat)) as [[Hp Hl]|Hno].
        { by rewrite decide_True by (split; [done|lia]). }
        rewrite decide_False; [done|]. intros [[k ->] Hl]. apply Hno. split; [by eexists|].
        destruct (decide (length b = S n)); [|lia].
        exfalso. apply Hb. rewrite take_app_le by lia. by rewrite take_ge by lia.
Qed.

(** ** Bits of an address and prefix containment *)

Definition bitsOf (w x : Z) (n : nat) : list bool :=
  (λ i, Z.testbit x (w - 1 - i)) <$> seqZ 0 (Z.of_nat n).

Lemma bitsOf_length w x n : length (bitsOf w x n) = n.
Proof. unfold bitsOf. rewrite length_fmap, length_seqZ. lia. Qed.

Lemma bitsOf_lookup w x n k :
  (k < n)%nat → bitsOf w x n !! k = Some (Z.testbit x (w - 1 - Z.of_nat k)).
Proof.
  intros Hk. unfold bitsOf. rewrite list_lookup_fmap, lookup_seqZ_lt by lia.
  simpl. done.
Qed.

Lemma take_bitsOf w x n m : (n ≤ m)%nat → take n (bitsOf w x m) = bitsOf w x n.
Proof.
  intros Hnm. apply list_eq. intros k.
  destruct (decide (k < n)%nat) as [Hk|Hk].
  - rewrite lookup_take_lt by done. by rewrite !bitsOf_lookup by lia.
  - rewrite !lookup_ge_None_2 by (rewrite ?length_take, ?bitsOf_length; lia). done.
Qed.

Lemma bits_agree w a p n :
  0 ≤ a < 2 ^ w → 0 ≤ p < 2 ^ w → (Z.of_nat n ≤ w) →
  Z.shiftr (Z.lxor a p) (w - Z.of_nat n) = 0 ↔ bitsOf w p n = bitsOf w a n.
Proof.
  intros Ha Hp Hn. split.
  - intros H. apply list_eq. intros k. destruct (decide (k < n)%nat) as [Hk|Hk].
    + rewrite !bitsOf_lookup by done. f_equal.
      assert (Z.testbit (Z.shiftr (Z.lxor a p) (w - Z.of_nat n)) (Z.of_nat n - 1 - Z.of_nat k) = false) as Hb
        by (rewrite H; apply Z.testbit_0_l).
      rewrite Z.shiftr_spec, Z.lxor_spec in Hb by lia.
      replace (Z.of_nat n - 1 - Z.of_nat k + (w - Z.of_nat n)) with (w - 1 - Z.of_nat k) in Hb by lia.
      by apply xorb_eq in Hb.
    + rewrite !lookup_ge_None_2 by (rewrite bitsOf_length; lia). done.
  - intros H. apply Z.bits_inj'. intros i Hi. rewrite Z.testbit_0_l, Z.shiftr_spec, Z.lxor_spec by lia.
    destruct (Z_lt_dec (i + (w - Z.of_nat n)) w) as [Hlt|Hge].
    + assert (∃ k, (k < n)%nat ∧ i + (w - Z.of_nat n) = w - 1 - Z.of_nat k) as (k & Hk & ->).
      { exists (Z.to_nat (Z.of_nat n - 1 - i)). lia. }
      apply (f_equal (lookup k)) in H. rewrite !bitsOf_lookup in H by done.
      injection H as ->. apply xorb_nilpotent.
    + assert (∀ x, 0 ≤ x < 2 ^ w → Z.testbit x (i + (w - Z.of_nat n)) = false) as Hz.
      { intros x Hx. rewrite <- (Z.mod_small x (2 ^ w)) by done. apply Z.mod_pow2_bits_high. lia. }
      by rewrite !Hz.
Qed.

Lemma bit_at x k : 0 ≤ k → negb (Z.land (Z.shiftr x k) 1 =? 0) = Z.testbit x k.
Proof.
  intros Hk. change 1 with (Z.ones 1). rewrite Z.land_ones by lia. change (2 ^ 1) with 2.
  rewrite <- Z.bit0_mod, Z.shiftr_spec, Z.add_0_l by lia. by destruct (Z.testbit x k).
Qed.

Lemma path_getBit32 x n : (n ≤ 32)%nat → path (getBit32 x) 0 n = bitsOf 32 x n.
Proof.
  intros Hn. unfold path, bitsOf. apply list_fmap_ext. intros i k Hk%lookup_seqZ.
  unfold getBit32. rewrite bit_at by lia. f_equal.
Qed.

Lemma be_bytes_app n m v :
  0 ≤ v → be_bytes (n + m) v = be_bytes n (Z.shiftr v (8 * Z.of_nat m)) ++ be_bytes m v.
Proof.
  revert v. induction m as [|m IH]; intros v Hv.
  - rewrite Nat.add_0_r, app_nil_r. change (8 * Z.of_nat 0) with 0. by rewrite Z.shiftr_0_r.
  - rewrite Nat.add_succ_r. cbn [be_bytes].
    rewrite IH by (apply Z.shiftr_nonneg; lia).
    rewrite Z.shiftr_shiftr, app_assoc by lia. do 4 f_equal. lia.
Qed.

Lemma u128_halves v :
  0 ≤ v < 2 ^ 128 → u128_of (be_bytes 16 v) = mkU128 (v / 2 ^ 64) (v mod 2 ^ 64).
Proof.
  intros Hv. unfold u128_of. rewrite (be_bytes_app 8 8) by lia.
  rewrite take_app_le, take_ge, drop_app_ge, be_bytes_length, drop_0 by (rewrite ?be_bytes_length; lia).
  rewrite be_value_bytes_small, be_value_bytes; [|lia|].
  - rewrite Z.shiftr_div_pow2 by lia. done.
  - rewrite Z.shiftr_div_pow2 by lia. change (8 * Z.of_nat 8) with 64.
    split; [apply Z.div_pos; lia|]. apply Z.div_lt_upper_bound; [lia|].
    rewrite <- Z.pow_add_r by lia. apply Hv.
Qed.

Lemma path_getBit128 v n :
  0 ≤ v < 2 ^ 128 → (n ≤ 128)%nat →
  path (getBit128 (u128_of (be_bytes 16 v))) 0 n = bitsOf 128 v n.
Proof.
  intros Hv Hn. rewrite u128_halves by done. unfold path, bitsOf.
  apply list_fmap_ext. intros i k Hk%lookup_seqZ. unfold getBit128. cbn [hi lo].
  destruct (Z.ltb_spec k 64).
  - rewrite bit_at by lia. rewrite <- Z.shiftr_div_pow2, Z.shiftr_spec by lia. f_equal. lia.
  - rewrite bit_at by lia. rewrite Z.mod_pow2_bits_low by lia. f_equal. lia.
Qed.

(** ** The trie and the reference agree, for either address family *)

Section Family.
Context (w : Z) (mk : Z → Addr).
Context (Hw : 0 < w) (Hlen : ∀ x, BitLen (mk x) = w)
        (Hzone : ∀ x, has_zone (mk x) = false) (Hval : ∀ x, addr_value (mk x) = x).

(** A rule of this family with its bits in range. *)
Definition ruleOK (r : Prefix * T) : Prop :=
  ∃ p, PAddr r.1 = mk p ∧ 0 ≤ p < 2 ^ w ∧ 0 ≤ PBits r.1 ≤ w.

Definition encode (r : Prefix * T) : list bool * T :=
  (bitsOf w (addr_value (PAddr r.1)) (Z.to_nat (PBits r.1)), r.2).

Lemma Contains_bits r a :
  ruleOK r → 0 ≤ a < 2 ^ w →
  Contains r.1 (mk a) = true ↔ (encode r).1 `prefix_of` bitsOf w a (Z.to_nat w).
Proof.
  intros (p & Ep & Hp & Hn) Ha. unfold Contains, encode. cbn [fst].
  rewrite Ep, !Hlen, Hzone, !Hval, Z.eqb_refl. simpl.
  destruct (Z.ltb_spec 0 w); [simpl|lia]. rewrite Z.eqb_eq.
  rewrite <- (Z2Nat.id (PBits r.1)) at 1 by lia. rewrite bits_agree by lia.
  set (n := Z.to_nat (PBits r.1)). assert (n ≤ Z.to_nat w)%nat by lia.
  rewrite <- (take_bitsOf w a n (Z.to_nat w)) by lia. split.
  - intros ->. apply prefix_take.
  - intros [k Hk]. rewrite Hk, take_app_le by (rewrite bitsOf_length; lia).
    by rewrite take_ge by (rewrite bitsOf_length; lia).
Qed.

Lemma matchPrefix_best rs a :
  Forall ruleOK rs → 0 ≤ a < 2 ^ w →
  bestPrefix (lastRule (encode <$> rs)) (bitsOf w a (Z.to_nat w)) (Z.to_nat w) =
  (λ '(b, v), (Z.to_nat b, v)) <$> matchPrefix rs (mk a) ∧
  (∀ b v, matchPrefix rs (mk a) = Some (b, v) → 0 ≤ b).
Proof.
  intros Hrs Ha. induction rs as [|r rs IH] using rev_ind.
  - split; [|done].
    assert (∀ l n, bestPrefix (lastRule []) l n = None) as Hnone; [|apply Hnone].
    intros l n. induction n as [|n IHn]; [done|exact IHn].
  - apply Forall_app in Hrs as [Hrs Hr]. rewrite Forall_singleton in Hr.
    destruct (IH Hrs) as [IH1 IH2]. clear IH. rewrite fmap_app. simpl fmap.
    assert (length (encode r).1 = Z.to_nat (PBits r.1)) as Hl by apply bitsOf_length.
    destruct (encode r) as [bs u] eqn:Er. injection Er as Ebs Eu.
    rewrite bestPrefix_snoc by (rewrite bitsOf_length; lia). rewrite IH1. cbn [fst] in Hl.
    unfold matchPrefix in *. rewrite foldl_app. cbn [foldl].
    set (old := foldl _ None rs) in *. pose proof (Contains_bits r a Hr Ha) as Hc.
    unfold encode in Hc. cbn [fst] in Hc. rewrite Ebs in Hc.
    destruct Hr as (p & _ & _ & Hn).
    destruct (Contains r.1 (mk a)).
    + rewrite decide_True by (split; [by apply Hc|lia]).
      destruct old as [[b v]|]; simpl.
      * specialize (IH2 b v eq_refl). rewrite Hl.
        destruct (Z.leb_spec b (PBits r.1)).
        -- rewrite decide_True by lia. rewrite <- Eu. split; [done|]. intros ? ? [= <- _]. lia.
        -- rewrite decide_False by lia. split; [done|]. intros ? ? [= <- _]. lia.
      * rewrite Hl, <- Eu. split; [done|]. intros ? ? [= <- _]. lia.
    + rewrite decide_False; [by split|]. intros [Hp _]. apply Hc in Hp. done.
Qed.

(** The trie stores the rules [rs]. *)
Definition stores (root : bitNode T) (rs : list (Prefix * T)) : Prop :=
  Forall ruleOK rs ∧ ∀ bs, valueAt root bs = lastRule (encode <$> rs) bs.

Lemma stores_find root rs bit a :
  stores root rs → 0 ≤ a < 2 ^ w →
  path bit 0 (Z.to_nat w) = bitsOf w a (Z.to_nat w) →
  match findLoop bit (Z.to_nat w) 0 root None with
  | Some v => Some v
  | None => value root
  end = snd <$> matchPrefix rs (mk a).
Proof.
  intros [Hok Hst] Ha Hp.
  assert (findLoop bit (Z.to_nat w) 0 root None = snd <$> matchPrefix rs (mk a)) as Hf.
  { rewrite findLoop_longest, Hp.
    assert (match value root with Some v => Some v | None => None end = valueAt root []) as ->
      by (simpl; by destruct (value root)).
    rewrite (longestPrefix_ext _ _ _ _ _ Hst), Hst, longestPrefix_best.
    destruct (matchPrefix_best rs a Hok Ha) as [-> _].
    by destruct (matchPrefix rs (mk a)) as [[b v]|]. }
  rewrite Hf. destruct (matchPrefix rs (mk a)) as [[b v]|] eqn:Em; [done|]. simpl in *.
  (* no match at all: in particular none at the root *)
  pose proof (matchPrefix_best rs a Hok Ha) as [Hb _]. rewrite Em in Hb. simpl in Hb.
  change (value root) with (valueAt root []). rewrite Hst.
  revert Hb. generalize (Z.to_nat w) at 2. intros n. induction n as [|n IHn]; cbn [bestPrefix].
  - rewrite take_0. by destruct (lastRule _ []).
  - by destruct (lastRule _ (take _ _)).
Qed.

Lemma stores_insert root rs bit p n v :
  stores root rs → 0 ≤ p < 2 ^ w → 0 ≤ n ≤ w →
  path bit 0 (Z.to_nat n) = bitsOf w p (Z.to_nat n) →
  stores (insertLoop bit (Z.to_nat n) 0 v root) (rs ++ [(mkPrefix (mk p) n, v)]).
Proof.
  intros [Hok Hst] Hp Hn Hpath. split.
  - apply Forall_app. split; [done|]. rewrite Forall_singleton. by exists p.
  - intros bs. rewrite valueAt_insertLoop, Hpath, fmap_app. simpl fmap.
    rewrite lastRule_snoc, Hst. unfold encode at 2 3. cbn [fst snd PAddr PBits].
    rewrite Hval. case_bool_decide; [by rewrite decide_True|by rewrite decide_False].
Qed.
End Family.

(** ** The two families *)

Lemma As4_value v : 0 ≤ v < 2 ^ 32 → be_value (As4 (Addr4 v)) = v.
Proof. intros Hv. cbn [As4]. apply be_value_bytes_small. exact Hv. Qed.

Lemma Is4_inv a : Is4 a = true → ∃ v, a = Addr4 v.
Proof. destruct a; try done. by eexists. Qed.

Lemma Unmap_not4 a : addr_wf a → Is4 (Unmap a) = false → ∃ v z, a = Addr6 v z ∧ Unmap a = a.
Proof.
  destruct a as [|v|v z]; [intros []|intros _; discriminate|].
  intros _. unfold Unmap. destruct (Is4In6 (Addr6 v z)); [discriminate|]. by exists v, z.
Qed.

Lemma stores_new w mk : stores w mk emptyBit [].
Proof. split; [constructor|]. by intros [|[] ?]. Qed.

Definition mk6 (v : Z) : Addr := Addr6 v [].

Definition stores4 := stores 32 Addr4.
Definition stores6 := stores 128 mk6.

Lemma insertLoop_0 bit v root :
  insertLoop bit (Z.to_nat 0) 0 v root = BitNode (child0 root) (child1 root) (Some v).
Proof. done. Qed.

Lemma Insert4_stores root rs p v :
  stores4 root rs →
  match Insert4 root p v with
  | Ok root' => ∃ r, rule4 (p, v) = Some r ∧ stores4 root' (rs ++ [r])
  | Err _ => rule4 (p, v) = None
  | Panic => False
  end.
Proof.
  intros Hst.
  assert (∀ x n, 0 ≤ x < 2 ^ 32 → 0 ≤ n ≤ 32 →
    stores4 (insertLoop (getBit32 x) (Z.to_nat n) 0 v root)
      (rs ++ [(mkPrefix (Addr4 x) n, v)])) as Hins.
  { intros x n Hx Hn. apply stores_insert; try done. apply path_getBit32. lia. }
  unfold Insert4, rule4. cbn [fst snd]. case_bool_decide.
  { eexists; split; [done|]. rewrite <- (insertLoop_0 (getBit32 0) v root). by apply Hins. }
  unfold parseIPv4OrCIDR. destruct (ParsePrefix p) as [[q n]|] eqn:Eq.
  - apply ParsePrefix_wf in Eq as (Hq & Hz & Hn). cbn [PAddr PBits] in *.
    destruct (Is4 q) eqn:E4; [|done]. apply Is4_inv in E4 as [x ->]. cbn [BitLen] in Hn. cbn [negb].
    destruct (Z.ltb_spec n 0); [lia|]. destruct (Z.ltb_spec 32 n); [lia|].
    cbn [orb mbind res_bind]. eexists; split; [done|].
    rewrite As4_value by exact Hq. by apply Hins.
  - destruct (ParseAddr p) as [a|] eqn:Ea; [|done]. apply ParseAddr_wf, Unmap_wf in Ea.
    cbn [mbind option_bind]. destruct (Is4 (Unmap a)) eqn:E4; [|done].
    apply Is4_inv in E4 as [x Hx]. rewrite Hx in *. cbn [negb mbind res_bind].
    eexists; split; [done|]. rewrite As4_value by exact Ea. apply Hins; [exact Ea|lia].
Qed.

Lemma Insert6_stores root rs p v :
  stores6 root rs →
  match Insert6 root p v with
  | Ok root' => ∃ r, rule6 (p, v) = Some r ∧ stores6 root' (rs ++ [r])
  | Err _ => rule6 (p, v) = None
  | Panic => False
  end.
Proof.
  intros Hst.
  assert (∀ x n, 0 ≤ x < 2 ^ 128 → 0 ≤ n ≤ 128 →
    stores6 (insertLoop (getBit128 (u128_of (be_bytes 16 x))) (Z.to_nat n) 0 v root)
      (rs ++ [(mkPrefix (mk6 x) n, v)])) as Hins.
  { intros x n Hx Hn. apply stores_insert; try done. apply path_getBit128; [exact Hx|lia]. }
  unfold Insert6, rule6. cbn [fst snd]. case_bool_decide.
  { eexists; split; [done|].
    rewrite <- (insertLoop_0 (getBit128 (u128_of (be_bytes 16 0))) v root). apply Hins; lia. }
  unfold parseIPv6OrCIDR. destruct (ParsePrefix p) as [[q n]|] eqn:Eq.
  - apply ParsePrefix_wf in Eq as (Hq & Hz & Hn). cbn [PAddr PBits] in *.
    destruct (Is4 (Unmap q)) eqn:E4; [done|].
    apply Unmap_not4 in E4 as (x & z & -> & ->); [|exact Hq]. cbn [BitLen] in Hn.
    destruct (Z.ltb_spec n 0); [lia|]. destruct (Z.ltb_spec 128 n); [lia|].
    cbn [orb mbind res_bind]. eexists; split; [done|].
    assert (z = []) as -> by (unfold has_zone in Hz; by case_bool_decide).
    cbn [As16]. apply Hins; [exact Hq|lia].
  - destruct (ParseAddr p) as [a|] eqn:Ea; [|done]. apply ParseAddr_wf in Ea.
    cbn [mbind option_bind]. destruct (Is4 (Unmap a)) eqn:E4; [done|].
    apply Unmap_not4 in E4 as (x & z & -> & ->); [|exact Ea]. cbn [mbind res_bind].
    eexists; split; [done|]. cbn [As16 addr_value]. apply Hins; [exact Ea|lia].
Qed.

Lemma insertAll_stores (st : bitNode T → list (Prefix * T) → Prop) ins rule root rs ps :
  (∀ root rs p v, st root rs →
    match ins root p v with
    | Ok root' => ∃ r, rule (p, v) = Some r ∧ st root' (rs ++ [r])
    | Err _ => rule (p, v) = None
    | Panic => False
    end) →
  st root rs → st (insertAll ins root ps) (rs ++ omap rule ps).
Proof.
  intros Hins. revert root rs. induction ps as [|[p v] ps IH]; intros root rs Hst.
  - by rewrite app_nil_r.
  - cbn [insertAll foldl fst snd]. specialize (Hins root rs p v Hst).
    destruct (ins root p v) as [root'|e|]; [| |done].
    + destruct Hins as (r & Hr & Hst'). cbn [omap list_omap]. rewrite Hr.
      replace (rs ++ r :: omap rule ps) with ((rs ++ [r]) ++ omap rule ps)
        by (by rewrite <- app_assoc). by apply IH.
    + cbn [omap list_omap]. rewrite Hins. by apply IH.
Qed.

Lemma Find4_match (ps : list (gostring * T)) (ipStr : gostring) :
  Find4 (insertAll Insert4 NewIPv4Trie ps) ipStr =
  match ParseAddr ipStr with
  | Some a => if Is4 (Unmap a) then snd <$> matchPrefix (omap rule4 ps) (Unmap a) else None
  | None => None
  end.
Proof.
  pose proof (insertAll_stores stores4 Insert4 rule4 emptyBit [] ps Insert4_stores (stores_new 32 _)) as Hst.
  unfold Find4, NewIPv4Trie. destruct (ParseAddr ipStr) as [a|] eqn:Ea; [|done].
  apply ParseAddr_wf, Unmap_wf in Ea. destruct (Is4 (Unmap a)) eqn:E4; [|done].
  apply Is4_inv in E4 as [x Hx]. rewrite Hx in *. cbn [negb]. rewrite As4_value by exact Ea.
  apply (stores_find 32 Addr4); try done. apply path_getBit32. simpl. lia.
Qed.

(** C18: the IPv4 trie answers with the value of the longest inserted prefix that
    contains the queried address, the later one of two equal prefixes; a query
    that is no IPv4 address (mapped ones count as IPv4) matches nothing. *)
Theorem Find4_longest_match (ps : list (gostring * T)) (ipStr : gostring) :
  Find4 (insertAll Insert4 NewIPv4Trie ps) ipStr =
  match ParseAddr ipStr with
  | Some a => if Is4 (Unmap a) then snd <$> matchPrefix (omap rule4 ps) (Unmap a) else None
  | None => None
  end.
Proof. apply Find4_match. Qed.

(** The IPv6 trie answers with the value of the longest inserted prefix that
    contains the queried address (its zone aside), the later one of two equal
    prefixes; a query that is no proper IPv6 address matches nothing. *)
Theorem Find6_longest_match (ps : list (gostring * T)) (ipStr : gostring) :
  Find6 (insertAll Insert6 NewIPv6Trie ps) ipStr =
  match ParseAddr ipStr with
  | Some a =>
      if Is4 (Unmap a) then None
      else snd <$> matchPrefix (omap rule6 ps) (Addr6 (addr_value a) [])
  | None => None
  end.
Proof.
  pose proof (insertAll_stores stores6 Insert6 rule6 emptyBit [] ps Insert6_stores (stores_new 128 _)) as Hst.
  unfold Find6, NewIPv6Trie. destruct (ParseAddr ipStr) as [a|] eqn:Ea; [|done].
  apply ParseAddr_wf in Ea. destruct (Is4 (Unmap a)) eqn:E4; [done|].
  apply Unmap_not4 in E4 as (x & z & -> & ->); [|exact Ea]. cbn [As16 addr_value].
  apply (stores_find 128 mk6); try done. apply path_getBit128; [exact Ea|].
  apply Nat.le_refl.
Qed.

(** An answer is a value that was inserted. *)
Lemma matchPrefix_elem rs a b v : matchPrefix rs a = Some (b, v) → v ∈ rs.*2.
Proof.
  unfold matchPrefix. induction rs as [|r rs IH] using rev_ind; [done|]. rewrite foldl_app, fmap_app. cbn.
  destruct (_ && _); [intros [= <- <-]; set_solver|]. intros ?%IH. set_solver.
Qed.

Lemma rules_elem (rule : gostring * T → option (Prefix * T)) ps v :
  (∀ p r, rule p = Some r → r.2 = p.2) → v ∈ (omap rule ps).*2 → v ∈ ps.*2.
Proof.
  intros Hrule Hv. apply list_elem_of_fmap in Hv as (r & -> & Hr). apply list_elem_of_omap in Hr as (p & Hp & E).
  rewrite (Hrule _ _ E). by apply list_elem_of_fmap_2.
Qed.

Lemma Find4_inserted ps ipStr v : Find4 (insertAll Insert4 NewIPv4Trie ps) ipStr = Some v → v ∈ ps.*2.
Proof.
  rewrite Find4_match. destruct (ParseAddr ipStr) as [a|]; [|done]. destruct (Is4 _); [|done].
  intros ([b x] & E & ->)%fmap_Some. apply matchPrefix_elem in E. eapply rules_elem; [|exact E].
  intros [k y] r. unfold rule4. cbn. repeat case_match; try done; [by intros [= <-]..|].
  intros (? & _ & Hr)%bind_Some. case_match; [|done]. by injection Hr as <-.
Qed.

Lemma Find6_inserted ps ipStr v : Find6 (insertAll Insert6 NewIPv6Trie ps) ipStr = Some v → v ∈ ps.*2.
Proof.
  rewrite Find6_longest_match. destruct (ParseAddr ipStr) as [a|]; [|done]. destruct (Is4 _); [done|].
  intros ([b x] & E & ->)%fmap_Some. apply matchPrefix_elem in E. eapply rules_elem; [|exact E].
  intros [k y] r. unfold rule6. cbn. repeat case_match; try done; [by intros [= <-]..|].
  intros (? & _ & Hr)%bind_Some. case_match; [done|]. by injection Hr as <-.
Qed.

End Trie.
End IPTrie.
