(* ===== verification/Pattern.v ===== *)
(** * Rule patterns of the configuration (core/config.go)

    A key of [hosts], [domain_policies] or [ip_policies] is a list of patterns
    separated by semicolons; [expandPattern] expands the parenthesised
    alternatives of a pattern, and [LoadConfig] adds every expansion to a
    matcher.  Go's [for i := range s] over a string visits the first byte of
    every UTF-8 character, so the decoder's widths are modelled too. *)

From S2P Require Import Prelude Errors Netip AddrTrie.
Local Open Scope Z_scope.

(** ** Ranging over a string *)

Definition is_cont (c : Z) : bool := (128 <=? c) && (c <=? 191).

Definition between (lo hi c : Z) : bool := (lo <=? c) && (c <=? hi).

(** The width [utf8.DecodeRuneInString] reports at the front of a non-empty
    string: one for ASCII and for every invalid sequence. *)
Definition rune_width (s : gostring) : nat :=
  match s with
  | b0 :: b1 :: rest =>
      if between 194 223 b0 && is_cont b1 then 2
      else
        let second := if b0 =? 224 then between 160 191 b1
                      else if b0 =? 237 then between 128 159 b1
                      else if b0 =? 240 then between 144 191 b1
                      else if b0 =? 244 then between 128 143 b1
                      else is_cont b1 in
        match rest with
        | b2 :: rest' =>
            if between 224 239 b0 && second && is_cont b2 then 3
            else match rest' with
                 | b3 :: _ => if between 240 244 b0 && second && is_cont b2 && is_cont b3
                              then 4 else 1
                 | [] => 1
                 end
        | [] => 1
        end
  | _ => 1
  end.

(** [string(b)] of a byte: the UTF-8 encoding of the code point [b]. *)
Definition string_of_byte (b : Z) : gostring :=
  if b <? 128 then [b] else [Z.lor 192 (Z.shiftr b 6); Z.lor 128 (Z.land b 63)].

(** ** expandPattern and splitByPipe *)

(** The loop of [splitByPipe]: [skip] bytes of the current character are still
    to be passed over. *)
Fixpoint splitByPipeLoop (s : gostring) (skip : nat) (result : list gostring) (curr : gostring)
    : list gostring :=
  match s with
  | [] => result ++ [curr]
  | c :: s' =>
      match skip with
      | S k => splitByPipeLoop s' k result curr
      | O =>
          let k := Nat.pred (rune_width s) in
          if c =? 124 then splitByPipeLoop s' k (result ++ [curr]) []
          else splitByPipeLoop s' k result (curr ++ string_of_byte c)
      end
  end.

Definition splitByPipe (s : gostring) : list gostring :=
  if bool_decide (s = []) then [[]] else splitByPipeLoop s 0 [] [].

(** The position of the bracket that closes a group, [depth] brackets being
    open; the scan is bytewise. *)
Fixpoint closeBracket (s : gostring) (depth : nat) (i : nat) : option nat :=
  match s with
  | [] => None
  | c :: s' =>
      if c =? 40 then closeBracket s' (S depth) (S i)
      else if c =? 41 then
        match Nat.pred depth with
        | O => Some i
        | d => closeBracket s' d (S i)
        end
      else closeBracket s' depth (S i)
  end.

Fixpoint expandPatternFuel (fuel : nat) (s : gostring) : list gostring :=
  match fuel with
  | O => splitByPipe s
  | S fuel' =>
      match index_byte s 40 with
      | None => splitByPipe s
      | Some lft =>
          match closeBracket (drop (S lft) s) 1 (S lft) with
          | None => splitByPipe s
          | Some rgt =>
              let prefix := take lft s in
              let inner := take (rgt - S lft) (drop (S lft) s) in
              let suffix := drop (S rgt) s in
              let parts := splitByPipe inner in
              let suffixResults := expandPatternFuel fuel' suffix in
              part ← parts; suff ← suffixResults; [prefix ++ part ++ suff]
          end
      end
  end.

(** Every call recurses on a proper suffix, so the length is fuel enough. *)
Definition expandPattern (s : gostring) : list gostring := expandPatternFuel (length s) s.

(** ** The rule tables [LoadConfig] builds

    The Go code ranges over a map; [rules] lists its entries in the order of
    that iteration.  The matchers' errors are ignored, as the code does. *)

Definition patternsOf (key : gostring) : list gostring :=
  elem ← split_byte 59 key; expandPattern elem.

Definition isIPv6 (ip : gostring) : bool := contains ip ":".

Section Tables.
Context {T : Type}.

Definition loadDomains (rules : list (gostring * T)) : Domain.labelNode T :=
  Domain.addAll Domain.NewDomainMatcher ('(key, v) ← rules; p ← patternsOf key; [(p, v)]).

Definition ipEntries (rules : list (gostring * T)) : list (gostring * T) :=
  '(key, v) ← rules; p ← patternsOf key; [(p, v)].

Definition loadIPs (rules : list (gostring * T)) : IPTrie.bitNode T * IPTrie.bitNode T :=
  let es := ipEntries rules in
  (IPTrie.insertAll IPTrie.Insert4 IPTrie.NewIPv4Trie (filter (λ e, isIPv6 e.1 = false) es),
   IPTrie.insertAll IPTrie.Insert6 IPTrie.NewIPv6Trie (filter (λ e, isIPv6 e.1 = true) es)).

End Tables.

Example expand_examples :
  expandPattern "(www|api).example.(com|net)" =
    [lit "www.example.com"; lit "www.example.net"; lit "api.example.com"; lit "api.example.net"] ∧
  expandPattern "a|b" = [lit "a"; lit "b"] ∧ expandPattern "a(b|c" = [lit "a(b"; lit "c"] ∧
  expandPattern "" = [[]] ∧ patternsOf "a.b;(x|y).c" = [lit "a.b"; lit "x.c"; lit "y.c"].
Proof. vm_compute. done. Qed.

(** A character outside ASCII does not survive: only its first byte is read, and
    as a code point ([m\195\188nchen.de] becomes [m\195\131nchen.de]). *)
Example expand_non_ascii :
  expandPattern ([109; 195; 188] ++ "nchen.de") = [[109; 195; 131] ++ lit "nchen.de"].
Proof. vm_compute. done. Qed.

(** ** Patterns as a grammar

    A pattern is a sequence of groups, each a literal and its alternatives, and
    a tail of top-level alternatives. *)

Record pattern := mkPattern {
  groups : list (gostring * list gostring);
  tail_alts : list gostring;
}.

Definition printAlts (l : list gostring) : gostring := join_with "|" l.

Definition printPattern (p : pattern) : gostring :=
  concat ((λ g, g.1 ++ "(" ++ printAlts g.2 ++ ")") <$> groups p) ++ printAlts (tail_alts p).

Fixpoint choices (gs : list (gostring * list gostring)) (tl : list gostring) : list gostring :=
  match gs with
  | [] => tl
  | g :: gs' => alt ← g.2; rest ← choices gs' tl; [g.1 ++ alt ++ rest]
  end.

Definition expansions (p : pattern) : list gostring := choices (groups p) (tail_alts p).

(** A literal of the grammar: ASCII, none of the characters [(], [)], [|]. *)
Definition plain (w : gostring) : Prop := Forall (λ c, c < 128 ∧ c ≠ 40 ∧ c ≠ 41 ∧ c ≠ 124) w.

Definition plainAlts (l : list gostring) : Prop := l ≠ [] ∧ Forall plain l.

Definition plainPattern (p : pattern) : Prop :=
  Forall (λ g, plain g.1 ∧ plainAlts g.2) (groups p) ∧ plainAlts (tail_alts p).

Definition ascii (s : gostring) : Prop := Forall (λ c, c < 128) s.

Lemma rune_width_ascii c s : c < 128 → rune_width (c :: s) = 1%nat.
Proof.
  intros Hc. unfold rune_width, between. destruct s as [|b1 rest]; [done|].
  destruct (Z.leb_spec 194 c); [lia|]. destruct (Z.leb_spec 224 c); [lia|].
  destruct (Z.leb_spec 240 c); [lia|]. cbn [andb]. by destruct rest as [|? []].
Qed.

Lemma split_byte_ne c s : split_byte c s ≠ [].
Proof. destruct s as [|x s]; simpl; [done|]. destruct (_ =? _); [done|]. by destruct (split_byte c s). Qed.

Lemma splitByPipeLoop_ascii s result curr :
  ascii s →
  splitByPipeLoop s 0 result curr =
  result ++ match split_byte 124 s with w :: ws => (curr ++ w) :: ws | [] => [curr] end.
Proof.
  revert result curr. induction s as [|c s IH]; intros result curr Hs.
  - simpl. by rewrite app_nil_r.
  - apply Forall_cons in Hs as [Hc Hs]. cbn [splitByPipeLoop split_byte].
    rewrite rune_width_ascii by done. cbn [Nat.pred].
    destruct (Z.eqb_spec c 124); rewrite IH by done.
    + rewrite app_nil_r, <- app_assoc. simpl. pose proof (split_byte_ne 124 s).
      by destruct (split_byte 124 s).
    + unfold string_of_byte. destruct (Z.ltb_spec c 128); [|lia].
      destruct (split_byte 124 s); [done|]. by rewrite <- app_assoc.
Qed.

Lemma splitByPipe_ascii s : ascii s → splitByPipe s = split_byte 124 s.
Proof.
  intros Hs. unfold splitByPipe. case_bool_decide; [by subst|].
  rewrite splitByPipeLoop_ascii by done. simpl.
  pose proof (split_byte_ne 124 s). by destruct (split_byte 124 s).
Qed.

Lemma split_byte_app_sep c w s : c ∉ w → split_byte c (w ++ c :: s) = w :: split_byte c s.
Proof.
  induction w as [|x w IH]; intros Hw; simpl; [by rewrite Z.eqb_refl|].
  destruct (Z.eqb_spec x c) as [->|]; [set_solver|]. by rewrite IH by set_solver.
Qed.

Lemma split_byte_none c w : c ∉ w → split_byte c w = [w].
Proof.
  induction w as [|x w IH]; intros Hw; simpl; [done|].
  destruct (Z.eqb_spec x c) as [->|]; [set_solver|]. by rewrite IH by set_solver.
Qed.

Lemma plain_not_elem w c : plain w → c = 40 ∨ c = 41 ∨ c = 124 → c ∉ w.
Proof. intros Hw Hc Hin. eapply Forall_forall in Hw; [|done]. lia. Qed.

Lemma plain_ascii w : plain w → ascii w.
Proof. intros H. eapply Forall_impl; [exact H|]. simpl. lia. Qed.

Lemma split_join l : plainAlts l → split_byte 124 (printAlts l) = l.
Proof.
  intros [Hne Hl]. unfold printAlts. induction l as [|w l IH]; [done|]. clear Hne.
  apply Forall_cons in Hl as [Hw Hl]. destruct l as [|w' l].
  - simpl. apply split_byte_none. apply plain_not_elem; auto.
  - change (join_with "|" (w :: w' :: l)) with (w ++ 124 :: join_with "|" (w' :: l)).
    rewrite split_byte_app_sep by (apply plain_not_elem; auto). f_equal. by apply IH.
Qed.

(** The characters of printed alternatives: no brackets. *)
Lemma printAlts_chars l : Forall plain l → Forall (λ c, c < 128 ∧ c ≠ 40 ∧ c ≠ 41) (printAlts l).
Proof.
  unfold printAlts. induction l as [|w l IH]; intros Hl; [constructor|].
  apply Forall_cons in Hl as [Hw Hl].
  assert (Forall (λ c, c < 128 ∧ c ≠ 40 ∧ c ≠ 41) w) as Hw' by (eapply Forall_impl; [done|]; simpl; lia).
  destruct l as [|w' l]; [done|].
  change (join_with "|" (w :: w' :: l)) with (w ++ [124] ++ join_with "|" (w' :: l)).
  apply Forall_app. split; [done|]. apply Forall_app. split; [|by apply IH].
  apply Forall_singleton. lia.
Qed.

Lemma index_byte_app w c s : c ∉ w → index_byte (w ++ c :: s) c = Some (length w).
Proof.
  induction w as [|x w IH]; intros Hw; simpl; [by rewrite Z.eqb_refl|].
  destruct (Z.eqb_spec x c) as [->|]; [set_solver|]. by rewrite IH by set_solver.
Qed.

Lemma closeBracket_app w s i :
  40 ∉ w → 41 ∉ w → closeBracket (w ++ 41 :: s) 1 i = Some (i + length w)%nat.
Proof.
  revert i. induction w as [|x w IH]; intros i Ho Hc; simpl; [f_equal; lia|].
  destruct (Z.eqb_spec x 40); [set_solver|]. destruct (Z.eqb_spec x 41); [set_solver|].
  rewrite IH by set_solver. f_equal. lia.
Qed.

Lemma Forall_not_elem {A} (P : A → Prop) l x : Forall P l → ¬ P x → x ∉ l.
Proof. intros Hl Hx Hin. eapply Forall_forall in Hl; [|done]. done. Qed.

(** Fuel beyond the number of groups changes nothing. *)
Lemma expandPatternFuel_print gs tl fuel :
  Forall (λ g, plain g.1 ∧ plainAlts g.2) gs → plainAlts tl → (length gs ≤ fuel)%nat →
  expandPatternFuel fuel (printPattern (mkPattern gs tl)) = choices gs tl.
Proof.
  revert fuel. induction gs as [|[w alts] gs IH]; intros fuel Hgs Htl Hf.
  - unfold printPattern. simpl. pose proof (printAlts_chars tl (proj2 Htl)) as Hch.
    assert (splitByPipe (printAlts tl) = tl) as Hsplit.
    { rewrite splitByPipe_ascii by (eapply Forall_impl; [exact Hch|]; simpl; lia).
      by rewrite split_join. }
    destruct fuel; simpl; [done|].
    rewrite index_byte_None by (eapply Forall_not_elem; [exact Hch|]; simpl; lia). done.
  - apply Forall_cons in Hgs as [[Hw Halts] Hgs]. destruct fuel as [|fuel]; [simpl in Hf; lia|].
    pose proof (printAlts_chars alts (proj2 Halts)) as Hch.
    assert (printPattern (mkPattern ((w, alts) :: gs) tl) =
      w ++ 40 :: printAlts alts ++ 41 :: printPattern (mkPattern gs tl)) as ->.
    { unfold printPattern. cbn [groups tail_alts]. rewrite fmap_cons. cbn [concat fst snd].
      by rewrite <- !app_assoc. }
    set (rest := printPattern (mkPattern gs tl)). cbn [expandPatternFuel].
    rewrite index_byte_app by (apply plain_not_elem; auto).
    assert (drop (S (length w)) (w ++ 40 :: printAlts alts ++ 41 :: rest) = printAlts alts ++ 41 :: rest) as Hd.
    { rewrite drop_app_ge by lia. replace (S (length w) - length w)%nat with 1%nat by lia. done. }
    rewrite Hd, closeBracket_app by (eapply Forall_not_elem; [exact Hch|simpl; lia]).
    replace (S (length w) + length (printAlts alts) - S (length w))%nat with (length (printAlts alts)) by lia.
    rewrite take_app_length, take_app_length.
    replace (S (S (length w) + length (printAlts alts)))%nat
      with (S (length w) + S (length (printAlts alts)))%nat by lia.
    rewrite <- drop_drop, Hd, drop_app_ge by lia.
    replace (S (length (printAlts alts)) - length (printAlts alts))%nat with 1%nat by lia.
    cbn [drop]. rewrite IH by (try done; simpl in Hf; lia).
    rewrite splitByPipe_ascii by (eapply Forall_impl; [exact Hch|]; simpl; lia).
    by rewrite split_join.
Qed.

Lemma printPattern_length gs tl : (length gs ≤ length (printPattern (mkPattern gs tl)))%nat.
Proof.
  unfold printPattern. cbn [groups tail_alts]. rewrite length_app.
  assert (length gs ≤ length (concat ((λ g, g.1 ++ "(" ++ printAlts g.2 ++ ")") <$> gs)))%nat; [|lia].
  induction gs as [|g gs IH]; [done|]. rewrite fmap_cons. cbn [concat].
  rewrite !length_app. cbn [length lit]. simpl length in *. lia.
Qed.

(** A pattern written in the documented form (literals and bracketed
    alternatives, any number of groups) expands to the product of its
    alternatives, in order. *)
Theorem expandPattern_product (p : pattern) :
  plainPattern p → expandPattern (printPattern p) = expansions p.
Proof.
  destruct p as [gs tl]. intros [Hgs Htl]. unfold expandPattern, expansions.
  apply expandPatternFuel_print; [done..|]. apply printPattern_length.
Qed.

Lemma expandPattern_product_witness :
  let p := mkPattern [(lit "", [lit "www"; lit "api"]); (lit ".example.", [lit "com"; lit "net"])] [[]] in
  plainPattern p ∧
  expandPattern (printPattern p) = expansions p ∧ length (expansions p) = 4%nat.
Proof.
  assert (plainPattern (mkPattern [(lit "", [lit "www"; lit "api"]);
            (lit ".example.", [lit "com"; lit "net"])] [[]])) as H.
  { unfold plainPattern, plainAlts, plain. cbn. repeat (constructor || done || lia). }
  split; [exact H|split; [exact (expandPattern_product _ H)|reflexivity]].
Defined.
