(* ===== verification/FakeIP.v ===== *)
(** * Synthetic addresses (core/fake_ip.go)

    The DNS interceptor answers with addresses of a private pool and remembers
    which domain each stands for.  [fakeIPStore] is the pool: two maps that
    mirror each other and the address to try next.  Times are nanoseconds; the
    store's clock is an argument of every operation. *)

From S2P Require Import Prelude Errors Netip.
Local Open Scope Z_scope.

Definition second : Z := 1000000000.

Definition vpnDNSIPv4Addr : gostring := "172.19.0.2".
Definition vpnTunnelIPv6Addr : gostring := "fd66:6c75:6d69::1".
Definition fakeIPv4CIDR : gostring := "198.18.0.0/15".
Definition fakeIPv6CIDR : gostring := "fd66:6c75:6d69:100::/56".
Definition defaultFakeTTL : Z := 60.
Definition fakeIPTTLFloor : Z := 60 * second.

Record fakeIPEntry := mkEntry {
  fe_domain : gostring;
  fe_ip : gostring;
  fe_expiresAt : Z;
}.

#[global] Instance fakeIPEntry_eq_dec : EqDecision fakeIPEntry.
Proof. solve_decision. Defined.

Record fakeIPStore := mkStore {
  fs_prefix : Prefix;
  fs_next : Addr;
  fs_domainToEntry : gmap gostring fakeIPEntry;
  fs_ipToEntry : gmap gostring fakeIPEntry;
}.

(** [mustNewFakeIPStore]: [MustParsePrefix] panics on a bad CIDR. *)
Definition mustNewFakeIPStore (cidr : gostring) : option fakeIPStore :=
  prefix ← ParsePrefix cidr;
  Some (mkStore prefix (Next (PAddr prefix)) ∅ ∅).

Definition IsVPNDNSAddress (host : gostring) (port : Z) : bool :=
  bool_decide (host = vpnDNSIPv4Addr) && (port =? 53).

Definition setMaps (s : fakeIPStore) d i : fakeIPStore := mkStore (fs_prefix s) (fs_next s) d i.

Definition deleteEntryLocked (s : fakeIPStore) (entry : fakeIPEntry) : fakeIPStore :=
  let d := match fs_domainToEntry s !! fe_domain entry with
           | Some current => if bool_decide (fe_ip current = fe_ip entry)
                             then delete (fe_domain entry) (fs_domainToEntry s)
                             else fs_domainToEntry s
           | None => fs_domainToEntry s
           end in
  let i := match fs_ipToEntry s !! fe_ip entry with
           | Some current => if bool_decide (fe_domain current = fe_domain entry)
                             then delete (fe_ip entry) (fs_ipToEntry s)
                             else fs_ipToEntry s
           | None => fs_ipToEntry s
           end in
  setMaps s d i.

(** The body of the cleanup loop, over the entries in some order. *)
Definition cleanupOver (now : Z) (entries : list fakeIPEntry) (s : fakeIPStore) : fakeIPStore :=
  foldl (λ s entry, if fe_expiresAt entry <=? now then deleteEntryLocked s entry else s) s entries.

Definition cleanupExpiredLocked (now : Z) (s : fakeIPStore) : fakeIPStore :=
  cleanupOver now (map_to_list (fs_domainToEntry s)).*2 s.

Definition putEntry (s : fakeIPStore) (entry : fakeIPEntry) (next : Addr) : fakeIPStore :=
  mkStore (fs_prefix s) next
    (<[fe_domain entry := entry]> (fs_domainToEntry s))
    (<[fe_ip entry := entry]> (fs_ipToEntry s)).

(** The search loop of [Allocate]; [None] when the fuel runs out. *)
Fixpoint allocateLoop (fuel : nat) (domain : gostring) (lifetime now : Z) (start candidate : Addr)
    (s : fakeIPStore) : option (res gostring * fakeIPStore) :=
  match fuel with
  | O => None
  | S fuel' =>
      let candidate := if Contains (fs_prefix s) candidate then candidate
                       else Next (PAddr (fs_prefix s)) in
      let ip := AddrString candidate in
      let take_it s :=
        Some (Ok ip, putEntry s (mkEntry domain ip (now + lifetime)) (Next candidate)) in
      match fs_ipToEntry s !! ip with
      | Some entry =>
          if now <? fe_expiresAt entry then
            let candidate := Next candidate in
            if bool_decide (candidate = start) then Some (fail "fake ip pool exhausted", s)
            else allocateLoop fuel' domain lifetime now start candidate s
          else take_it (deleteEntryLocked s entry)
      | None => take_it s
      end
  end.

(** Fuel for the search: one round more than there are entries. *)
Definition allocFuel (s : fakeIPStore) : nat := S (size (fs_ipToEntry s)).

Section Ops.
Context `{GoUnicode}.

Definition Allocate (domain : gostring) (lifetime now : Z) (s : fakeIPStore)
    : option (res gostring * fakeIPStore) :=
  let domain := to_lower domain in
  if bool_decide (domain = []) then Some (fail "domain is empty", s) else
  let lifetime := if lifetime <=? 0 then defaultFakeTTL * second else lifetime in
  let s := cleanupExpiredLocked now s in
  match fs_domainToEntry s !! domain with
  | Some entry =>
      let entry := mkEntry (fe_domain entry) (fe_ip entry) (now + lifetime) in
      Some (Ok (fe_ip entry),
            setMaps s (<[domain := entry]> (fs_domainToEntry s))
                      (<[fe_ip entry := entry]> (fs_ipToEntry s)))
  | None => allocateLoop (allocFuel s) domain lifetime now (fs_next s) (fs_next s) s
  end.

Definition LookupDomain (ip : gostring) (now : Z) (s : fakeIPStore)
    : option gostring * fakeIPStore :=
  match fs_ipToEntry s !! ip with
  | None => (None, s)
  | Some entry =>
      if fe_expiresAt entry <=? now then (None, deleteEntryLocked s entry)
      else (Some (fe_domain entry), s)
  end.

End Ops.

Definition fakeIPLifetime (ttl : Z) : Z :=
  let ttl := if ttl =? 0 then defaultFakeTTL else ttl in
  let lifetime := ttl * second in
  if lifetime <? fakeIPTTLFloor then fakeIPTTLFloor else lifetime.

(** The two stores of the program, by address family. *)
Record fakeStores := mkStores { v4Store : fakeIPStore; v6Store : fakeIPStore }.

Definition newFakeStores : option fakeStores :=
  s4 ← mustNewFakeIPStore fakeIPv4CIDR;
  s6 ← mustNewFakeIPStore fakeIPv6CIDR;
  Some (mkStores s4 s6).

Definition lookupFakeDomainByIP (ip : gostring) (now : Z) (st : fakeStores)
    : option gostring * fakeStores :=
  let '(r, s4) := LookupDomain ip now (v4Store st) in
  match r with
  | Some d => (Some d, mkStores s4 (v6Store st))
  | None => let '(r, s6) := LookupDomain ip now (v6Store st) in (r, mkStores s4 s6)
  end.

Definition isFakeIPAddress (ip : gostring) (st : fakeStores) : bool :=
  match ParseAddr ip with
  | None => false
  | Some addr => Contains (fs_prefix (v4Store st)) addr || Contains (fs_prefix (v6Store st)) addr
  end.

Definition TypeA : Z := 1.
Definition TypeAAAA : Z := 28.

Definition allocateFakeIP `{GoUnicode} (domain : gostring) (qtype ttl now : Z) (st : fakeStores)
    : option (res gostring * fakeStores) :=
  let lifetime := fakeIPLifetime ttl in
  if qtype =? TypeA then
    '(r, s) ← Allocate domain lifetime now (v4Store st); Some (r, mkStores s (v6Store st))
  else if qtype =? TypeAAAA then
    '(r, s) ← Allocate domain lifetime now (v6Store st); Some (r, mkStores (v4Store st) s)
  else Some (fail "unsupported fake ip qtype", st).

(** ** The pool of a prefix *)

Definition addrAt (p : Prefix) (v : Z) : Addr :=
  match PAddr p with Addr4 _ => Addr4 v | _ => Addr6 v [] end.

Definition poolBase (p : Prefix) : Z := addr_value (PAddr p).
Definition poolSpan (p : Prefix) : Z := 2 ^ (BitLen (PAddr p) - PBits p).

(** A masked prefix with at least one address besides the network's own. *)
Definition poolOK (p : Prefix) : Prop :=
  addr_wf (PAddr p) ∧ has_zone (PAddr p) = false ∧ 0 ≤ PBits p < BitLen (PAddr p) ∧
  poolBase p mod poolSpan p = 0.

Definition poolLast (p : Prefix) : Z := poolBase p + poolSpan p - 1.

Definition inPool (p : Prefix) (ip : gostring) : Prop :=
  ∃ v, poolBase p < v ≤ poolLast p ∧ ip = AddrString (addrAt p v).

Section Pool.
Context (p : Prefix) (Hp : poolOK p).

Lemma poolSpan_ge : 2 ≤ poolSpan p.
Proof.
  destruct Hp as (_ & _ & Hb & _). unfold poolSpan.
  replace 2 with (2 ^ 1) at 1 by done. apply Z.pow_le_mono_r; lia.
Qed.

Lemma PAddr_at : PAddr p = addrAt p (poolBase p).
Proof.
  destruct Hp as (Hwf & Hz & _). unfold addrAt, poolBase.
  destruct (PAddr p) as [|v|v z]; [done|done|]. cbn [addr_value].
  unfold has_zone in Hz. by case_bool_decide; subst.
Qed.

Lemma addrAt_BitLen v : BitLen (addrAt p v) = BitLen (PAddr p).
Proof. destruct Hp as (Hwf & _). unfold addrAt. by destruct (PAddr p). Qed.

Lemma pool_top : 0 ≤ poolBase p ∧ poolBase p + poolSpan p ≤ 2 ^ BitLen (PAddr p).
Proof.
  destruct Hp as (Hwf & _ & Hb & Hm).
  assert (0 ≤ poolBase p < 2 ^ BitLen (PAddr p)) as Hr
    by (unfold poolBase; destruct (PAddr p); [destruct Hwf|exact Hwf..]).
  split; [lia|]. pose proof poolSpan_ge as Hs.
  assert (2 ^ BitLen (PAddr p) = poolSpan p * 2 ^ PBits p) as HW.
  { unfold poolSpan. rewrite <- Z.pow_add_r by lia. f_equal. lia. }
  apply Z.mod_divide in Hm as [q Hq]; [|lia]. rewrite HW, Hq in *.
  assert (q < 2 ^ PBits p) as Hlt by (apply (Z.mul_lt_mono_pos_r (poolSpan p)); lia).
  assert (q + 1 ≤ 2 ^ PBits p) as Hle by lia.
  apply (Z.mul_le_mono_nonneg_l _ _ (poolSpan p)) in Hle; lia.
Qed.

Lemma addrAt_wf v : 0 ≤ v < 2 ^ BitLen (PAddr p) → addr_wf (addrAt p v).
Proof.
  destruct Hp as (Hwf & _). unfold addrAt. destruct (PAddr p); [destruct Hwf|exact id|exact id].
Qed.

Lemma addrAt_value v : addr_value (addrAt p v) = v.
Proof. unfold addrAt. by destruct (PAddr p). Qed.

Lemma addrAt_zone v : has_zone (addrAt p v) = false.
Proof. unfold addrAt. by destruct (PAddr p). Qed.

Lemma addrAt_inj v u : addrAt p v = addrAt p u → v = u.
Proof. intros E%(f_equal addr_value). by rewrite !addrAt_value in E. Qed.

Lemma Contains_pool v :
  0 ≤ v → Contains p (addrAt p v) = true ↔ poolBase p ≤ v ≤ poolLast p.
Proof.
  intros Hv. unfold Contains. rewrite addrAt_zone, addrAt_BitLen, addrAt_value, Z.eqb_refl.
  destruct Hp as (Hwf & _ & Hb & Hm). pose proof poolSpan_ge as Hs. pose proof pool_top as Ht.
  destruct (Z.ltb_spec 0 (BitLen (PAddr p))); [cbn [negb andb]|lia].
  rewrite Z.eqb_eq. fold (poolBase p). rewrite Z.shiftr_lxor, Z.lxor_eq_0_iff.
  rewrite !Z.shiftr_div_pow2 by lia. fold (poolSpan p). unfold poolLast.
  apply Z.mod_divide in Hm as [q Hq]; [|lia]. rewrite Hq, Z.div_mul by lia. split.
  - intros <-. pose proof (Z.mul_div_le v (poolSpan p)). pose proof (Z.mul_succ_div_gt v (poolSpan p)). lia.
  - intros ?. symmetry. apply (Z.div_unique _ _ _ (v - q * poolSpan p)); lia.
Qed.

Lemma Next_pool v : 0 ≤ v → v + 1 < 2 ^ BitLen (PAddr p) → Next (addrAt p v) = addrAt p (v + 1).
Proof.
  destruct Hp as (Hwf & _). unfold addrAt. destruct (PAddr p); [destruct Hwf| |]; cbn [BitLen Next];
    intros; match goal with |- context [Z.eqb ?a ?b] => destruct (Z.eqb_spec a b); [lia|done] end.
Qed.

(** The address after the last one is outside the pool. *)
Lemma Next_last :
  Contains p (Next (addrAt p (poolLast p))) = false ∧
  ∀ v, poolBase p < v ≤ poolLast p → Next (addrAt p (poolLast p)) ≠ addrAt p v.
Proof.
  pose proof pool_top as Ht. pose proof poolSpan_ge as Hs.
  destruct (decide (poolLast p + 1 < 2 ^ BitLen (PAddr p))) as [Hlt|Hge].
  - rewrite Next_pool by (unfold poolLast in *; lia). split.
    + apply not_true_iff_false. rewrite Contains_pool by (unfold poolLast in *; lia). unfold poolLast. lia.
    + intros v Hv E%addrAt_inj. lia.
  - assert (poolLast p = 2 ^ BitLen (PAddr p) - 1) as -> by (unfold poolLast in *; lia).
    assert (Next (addrAt p (2 ^ BitLen (PAddr p) - 1)) = AddrInvalid) as ->.
    { destruct Hp as (Hwf & _). unfold addrAt. destruct (PAddr p); [destruct Hwf| |]; cbn [BitLen Next];
      by rewrite Z.eqb_refl. }
    destruct Hp as (Hwf & _ & Hb & _). split.
    + unfold Contains. cbn [BitLen has_zone negb]. destruct (Z.ltb_spec 0 (BitLen (PAddr p))); [|lia].
      destruct (Z.eqb_spec (BitLen (PAddr p)) 0); [lia|done].
    + intros v _. unfold addrAt. by destruct (PAddr p).
Qed.

Lemma pool_string_inj v u :
  poolBase p < v ≤ poolLast p → poolBase p < u ≤ poolLast p →
  AddrString (addrAt p v) = AddrString (addrAt p u) → v = u.
Proof.
  intros Hv Hu E. pose proof pool_top. unfold poolLast in *.
  apply addrAt_inj. apply AddrString_inj; auto using addrAt_zone; apply addrAt_wf; lia.
Qed.

End Pool.

(** ** The invariant of a store *)

Record wfStore (s : fakeIPStore) : Prop := {
  wf_pool : poolOK (fs_prefix s);
  wf_next : (∃ v, poolBase (fs_prefix s) < v ≤ poolLast (fs_prefix s) ∧
                  fs_next s = addrAt (fs_prefix s) v) ∨
            fs_next s = Next (addrAt (fs_prefix s) (poolLast (fs_prefix s)));
  wf_fresh : fs_next s = addrAt (fs_prefix s) (poolBase (fs_prefix s) + 1) → fs_ipToEntry s = ∅;
  wf_dom : ∀ d e, fs_domainToEntry s !! d = Some e →
             fe_domain e = d ∧ fs_ipToEntry s !! fe_ip e = Some e;
  wf_ip : ∀ i e, fs_ipToEntry s !! i = Some e →
            fe_ip e = i ∧ fs_domainToEntry s !! fe_domain e = Some e ∧ inPool (fs_prefix s) i;
}.

(** The second map is determined by the first. *)
Lemma ip_lookup s i e :
  wfStore s →
  fs_ipToEntry s !! i = Some e ↔ fe_ip e = i ∧ fs_domainToEntry s !! fe_domain e = Some e.
Proof.
  intros Hs. split.
  - intros (?&?&_)%(wf_ip _ Hs). done.
  - intros [<- H]. by apply (wf_dom _ Hs) in H as [_ H].
Qed.

Lemma store_ext s t :
  wfStore s → wfStore t → fs_prefix s = fs_prefix t → fs_next s = fs_next t →
  fs_domainToEntry s = fs_domainToEntry t → s = t.
Proof.
  intros Hs Ht Hp Hn Hd. destruct s as [p n d i], t as [p' n' d' i']. simpl in *. subst.
  f_equal. apply map_eq. intros k. apply option_eq. intros e.
  etransitivity; [apply (ip_lookup _ k e Hs)|]. symmetry. apply (ip_lookup _ k e Ht).
Qed.

Lemma deleteEntry_absent s e :
  wfStore s → fs_domainToEntry s !! fe_domain e = None → deleteEntryLocked s e = s.
Proof.
  intros Hs Hd. unfold deleteEntryLocked. rewrite Hd.
  destruct (fs_ipToEntry s !! fe_ip e) as [c|] eqn:Ei; [|by destruct s].
  case_bool_decide as Ec; [|by destruct s].
  apply (wf_ip _ Hs) in Ei as (_ & Hc & _). congruence.
Qed.

Lemma deleteEntry_present s e :
  wfStore s → fs_domainToEntry s !! fe_domain e = Some e →
  deleteEntryLocked s e =
    setMaps s (delete (fe_domain e) (fs_domainToEntry s)) (delete (fe_ip e) (fs_ipToEntry s)) ∧
  wfStore (deleteEntryLocked s e).
Proof.
  intros Hs Hd. pose proof (wf_dom _ Hs _ _ Hd) as [_ Hi].
  assert (deleteEntryLocked s e =
    setMaps s (delete (fe_domain e) (fs_domainToEntry s)) (delete (fe_ip e) (fs_ipToEntry s))) as E.
  { unfold deleteEntryLocked. rewrite Hd, Hi. by rewrite !bool_decide_eq_true_2. }
  split; [done|]. rewrite E. destruct Hs as [H1 H2 H3 H4 H5]. constructor; simpl; try done.
  - intros ->%H3. by rewrite delete_empty.
  - intros d e' [Hne Hd']%lookup_delete_Some. destruct (H4 _ _ Hd') as [<- Hi']. split; [done|].
    rewrite lookup_delete_ne; [done|]. intros Eip. rewrite <- Eip in Hi'. congruence.
  - intros i e' [Hne Hi']%lookup_delete_Some. destruct (H5 _ _ Hi') as (<- & Hd' & Hp).
    split_and!; [done| |done]. rewrite lookup_delete_ne; [done|]. intros Edo.
    rewrite <- Edo in Hd'. congruence.
Qed.

(** The cleanup in any order of the entries. *)
Lemma cleanupOver_spec now l s :
  wfStore s →
  (∀ e, e ∈ l → fs_domainToEntry s !! fe_domain e = Some e ∨ fs_domainToEntry s !! fe_domain e = None) →
  wfStore (cleanupOver now l s) ∧
  fs_prefix (cleanupOver now l s) = fs_prefix s ∧ fs_next (cleanupOver now l s) = fs_next s ∧
  ∀ d e, fs_domainToEntry (cleanupOver now l s) !! d = Some e ↔
         fs_domainToEntry s !! d = Some e ∧ (e ∈ l → now < fe_expiresAt e).
Proof.
  revert s. induction l as [|x l IH]; intros s Hs Hl.
  { split_and!; try done. intros. set_solver. }
  unfold cleanupOver. cbn [foldl]. fold (cleanupOver now l).
  destruct (Z.leb_spec (fe_expiresAt x) now) as [Hexp|Hlive].
  - destruct (Hl x ltac:(set_solver)) as [Hx|Hx].
    + destruct (deleteEntry_present s x Hs Hx) as [E Hs'].
      destruct (IH (deleteEntryLocked s x) Hs') as (I1 & I2 & I3 & I4).
      { intros e He. rewrite E. simpl. destruct (decide (fe_domain x = fe_domain e)) as [->|Hne].
        - right. by rewrite lookup_delete_eq.
        - rewrite !lookup_delete_ne by done. apply Hl. set_solver. }
      unfold cleanupOver in *. split_and!; [done|rewrite I2, E; done|rewrite I3, E; done|].
      intros d e. rewrite I4, E. simpl. rewrite lookup_delete_Some. split.
      * intros [[Hne Hd] Hin]. split; [done|]. intros [->|Hin']%elem_of_cons; [|by apply Hin].
        pose proof (wf_dom _ Hs _ _ Hd) as [? _]. done.
      * intros [Hd Hin]. split; [split; [|done]|set_solver]. intros <-. rewrite Hx in Hd.
        injection Hd as <-. specialize (Hin ltac:(set_solver)). lia.
    + rewrite deleteEntry_absent by done. destruct (IH s Hs ltac:(set_solver)) as (I1 & I2 & I3 & I4).
      split_and!; try done. intros d e. unfold cleanupOver in I4. rewrite I4. split.
      * intros [Hd Hin]. split; [done|]. intros [->|Hin']%elem_of_cons; [|by apply Hin].
        pose proof (wf_dom _ Hs _ _ Hd) as [<- _]. congruence.
      * intros [Hd Hin]. split; [done|set_solver].
  - destruct (IH s Hs ltac:(set_solver)) as (I1 & I2 & I3 & I4).
    split_and!; try done. intros d e. unfold cleanupOver in I4. rewrite I4. split.
    + intros [Hd Hin]. split; [done|]. intros [->|?]%elem_of_cons; [done|]. by apply Hin.
    + intros [Hd Hin]. split; [done|set_solver].
Qed.

Lemma entries_complete s d e :
  fs_domainToEntry s !! d = Some e → e ∈ (map_to_list (fs_domainToEntry s)).*2.
Proof. intros H. apply list_elem_of_fmap. exists (d, e). split; [done|]. by apply elem_of_map_to_list. Qed.

Lemma entries_present s e :
  wfStore s → e ∈ (map_to_list (fs_domainToEntry s)).*2 → fs_domainToEntry s !! fe_domain e = Some e.
Proof.
  intros Hs ([d e'] & -> & H%elem_of_map_to_list)%list_elem_of_fmap. simpl.
  by destruct (wf_dom _ Hs _ _ H) as [-> _].
Qed.

(** What the cleanup leaves: exactly the live entries. *)
Lemma cleanup_spec now s :
  wfStore s →
  wfStore (cleanupExpiredLocked now s) ∧
  fs_prefix (cleanupExpiredLocked now s) = fs_prefix s ∧
  fs_next (cleanupExpiredLocked now s) = fs_next s ∧
  ∀ d e, fs_domainToEntry (cleanupExpiredLocked now s) !! d = Some e ↔
         fs_domainToEntry s !! d = Some e ∧ now < fe_expiresAt e.
Proof.
  intros Hs. destruct (cleanupOver_spec now _ s Hs (λ e He, or_introl (entries_present s e Hs He)))
    as (H1 & H2 & H3 & H4).
  split_and!; try done. intros d e. rewrite H4. split.
  - intros [Hd Hin]. split; [done|]. apply Hin. by eapply entries_complete.
  - by intros [Hd Hin].
Qed.

(** The order in which Go visits the map does not matter. *)
Lemma cleanup_any_order now s l :
  wfStore s → l ≡ₚ (map_to_list (fs_domainToEntry s)).*2 →
  cleanupOver now l s = cleanupExpiredLocked now s.
Proof.
  intros Hs Hl. destruct (cleanup_spec now s Hs) as (H1 & H2 & H3 & H4).
  destruct (cleanupOver_spec now l s Hs) as (I1 & I2 & I3 & I4).
  { intros e He. rewrite Hl in He. left. by apply entries_present. }
  apply store_ext; [done..|congruence|congruence|]. apply map_eq. intros d. apply option_eq. intros e.
  rewrite I4, H4. split; intros [Hd Hin]; (split; [done|]); [|done].
  apply Hin. rewrite Hl. by eapply entries_complete.
Qed.

(** ** The search for a free address *)

Section Search.
Context (s : fakeIPStore) (Hs : wfStore s) (now : Z).
Context (Hlive : ∀ i e, fs_ipToEntry s !! i = Some e → now < fe_expiresAt e).

Let p := fs_prefix s.
Let first := poolBase p + 1.
Let count := poolSpan p - 1.

(** The first address tried, and the one tried after [k] occupied ones. *)
Definition startAt : Z :=
  if decide (fs_next s = Next (addrAt p (poolLast p))) then first else addr_value (fs_next s).

Definition tryAt (k : Z) : Z :=
  if startAt + k <=? poolLast p then startAt + k else startAt + k - count.

Definition occupied (k : Z) : Prop := is_Some (fs_ipToEntry s !! AddrString (addrAt p (tryAt k))).

Let Hp : poolOK p := wf_pool s Hs.

Lemma startAt_range : first ≤ startAt ≤ poolLast p.
Proof.
  pose proof (poolSpan_ge p Hp). unfold startAt. destruct (decide _) as [E|E].
  - unfold first, poolLast. lia.
  - destruct (wf_next s Hs) as [(v & Hv & ->)|]; [|done]. rewrite addrAt_value. fold p in Hv.
    unfold first. lia.
Qed.

Lemma tryAt_range k : 0 ≤ k < count → first ≤ tryAt k ≤ poolLast p.
Proof.
  intros Hk. pose proof startAt_range. unfold tryAt. destruct (Z.leb_spec (startAt + k) (poolLast p));
    unfold first, poolLast, count in *; lia.
Qed.

Lemma tryAt_inj j k : 0 ≤ j < count → 0 ≤ k < count → tryAt j = tryAt k → j = k.
Proof.
  intros Hj Hk. pose proof startAt_range. unfold tryAt.
  destruct (Z.leb_spec (startAt + j) (poolLast p)), (Z.leb_spec (startAt + k) (poolLast p));
    unfold first, poolLast, count in *; lia.
Qed.

Definition normalise (c : Addr) : Addr := if Contains p c then c else Next (PAddr p).

Lemma normalise_at v : first ≤ v ≤ poolLast p → normalise (addrAt p v) = addrAt p v.
Proof.
  intros Hv. unfold normalise. pose proof (pool_top p Hp).
  destruct (Contains p (addrAt p v)) eqn:E; [done|].
  apply not_true_iff_false in E. exfalso. apply E, Contains_pool; unfold first in Hv; lia || done.
Qed.

Lemma normalise_out c : Contains p c = false → normalise c = addrAt p first.
Proof.
  intros E. unfold normalise. rewrite E, (PAddr_at p Hp). apply Next_pool; [done|..];
    pose proof (pool_top p Hp); pose proof (poolSpan_ge p Hp); lia.
Qed.

Lemma normalise_start : normalise (fs_next s) = addrAt p (tryAt 0).
Proof.
  pose proof startAt_range as Hr. unfold tryAt.
  destruct (Z.leb_spec (startAt + 0) (poolLast p)); [|lia]. rewrite Z.add_0_r. unfold startAt in *.
  destruct (decide _) as [E|E].
  - rewrite E. apply normalise_out, Next_last, Hp.
  - destruct (wf_next s Hs) as [(v & Hv & Ev)|]; [|done]. fold p in Hv, Ev.
    rewrite Ev, addrAt_value in *. by apply normalise_at.
Qed.

(** The loop moves on to the next untried address. *)
Lemma tryAt_next k :
  0 ≤ k → k + 1 < count → startAt ≠ first ∨ fs_next s ≠ addrAt p first →
  Next (addrAt p (tryAt k)) ≠ fs_next s ∧
  normalise (Next (addrAt p (tryAt k))) = addrAt p (tryAt (k + 1)).
Proof.
  intros Hk Hk1 Hfirst. pose proof startAt_range as Hsr. pose proof (tryAt_range k ltac:(lia)) as Htr.
  pose proof (pool_top p Hp) as Htop. destruct (Next_last p Hp) as [Hl1 Hl2].
  destruct (decide (tryAt k = poolLast p)) as [El|El].
  - rewrite El. split.
    + unfold tryAt, startAt in *. destruct (wf_next s Hs) as [(v & Hv & ->)|Hn]; [by apply Hl2|].
      fold p in Hn. rewrite decide_True in El by done.
      destruct (Z.leb_spec (first + k) (poolLast p)); unfold first, poolLast, count in *; lia.
    + rewrite normalise_out by done. f_equal. unfold tryAt in *.
      destruct (Z.leb_spec (startAt + k) (poolLast p)), (Z.leb_spec (startAt + (k + 1)) (poolLast p));
        unfold first, poolLast, count in *; lia.
  - assert (tryAt (k + 1) = tryAt k + 1) as Et.
    { unfold tryAt in *. destruct (Z.leb_spec (startAt + k) (poolLast p)),
        (Z.leb_spec (startAt + (k + 1)) (poolLast p)); unfold first, poolLast, count in *; lia. }
    rewrite Next_pool by (try done; unfold first, poolLast in *; lia). split.
    + destruct (wf_next s Hs) as [(v & Hv & Ev)|Hn]; [fold p in Hv, Ev|fold p in Hn].
      * rewrite Ev. intros Eq%addrAt_inj. assert (startAt = v) as Esv.
        { unfold startAt. rewrite decide_False, Ev, addrAt_value; [done|]. rewrite Ev. by apply not_eq_sym, Hl2. }
        rewrite <- Et in Eq. rewrite <- Esv in Eq.
        assert (tryAt 0 = startAt) as E0.
        { unfold tryAt. rewrite Z.add_0_r. destruct (Z.leb_spec startAt (poolLast p)); [done|lia]. }
        rewrite <- E0 in Eq. apply tryAt_inj in Eq; lia.
      * rewrite Hn. apply not_eq_sym, Hl2. pose proof (tryAt_range (k + 1) ltac:(lia)).
        unfold first in *. lia.
    + rewrite normalise_at by (unfold first in *; lia). by rewrite Et.
Qed.

Lemma tryAt_last :
  fs_next s ≠ addrAt p first → Next (addrAt p (tryAt (count - 1))) = fs_next s.
Proof.
  intros Hne. pose proof startAt_range as Hsr. pose proof (pool_top p Hp) as Htop.
  pose proof (poolSpan_ge p Hp). destruct (Next_last p Hp) as [Hl1 Hl2].
  destruct (wf_next s Hs) as [(v & Hv & Ev)|Hn]; [fold p in Hv, Ev|fold p in Hn].
  - assert (startAt = v) as Esv.
    { unfold startAt. rewrite decide_False, Ev, addrAt_value; [done|]. rewrite Ev. by apply not_eq_sym, Hl2. }
    assert (v ≠ first) by congruence.
    assert (tryAt (count - 1) = v - 1) as ->.
    { unfold tryAt. rewrite Esv. destruct (Z.leb_spec (v + (count - 1)) (poolLast p));
        unfold first, poolLast, count in *; lia. }
    rewrite Next_pool by (try done; unfold first, poolLast in *; lia). rewrite Ev. f_equal. lia.
  - assert (startAt = first) as Esv by (unfold startAt; by rewrite decide_True).
    rewrite Hn. do 2 f_equal. unfold tryAt. rewrite Esv.
    destruct (Z.leb_spec (first + (count - 1)) (poolLast p)); unfold first, poolLast, count in *; lia.
Qed.

(** As many different addresses cannot be occupied as there are entries. *)
Lemma occupied_count k :
  0 ≤ k ≤ count → (∀ j, 0 ≤ j < k → occupied j) → k ≤ Z.of_nat (size (fs_ipToEntry s)).
Proof.
  intros Hk Hocc. set (keys := (λ j, AddrString (addrAt p (tryAt j))) <$> seqZ 0 k).
  assert (NoDup keys) as Hnd.
  { apply NoDup_fmap_2_strong; [|apply NoDup_seqZ].
    intros i j Hi%elem_of_seqZ Hj%elem_of_seqZ E.
    apply tryAt_inj; [lia..|]. eapply pool_string_inj; [exact Hp| | |exact E];
      (pose proof (tryAt_range i ltac:(lia)); pose proof (tryAt_range j ltac:(lia)); unfold first in *; lia). }
  assert (keys ⊆+ (map_to_list (fs_ipToEntry s)).*1) as Hsub.
  { apply NoDup_submseteq; [done|]. intros x (j & -> & Hj%elem_of_seqZ)%list_elem_of_fmap.
    destruct (Hocc j ltac:(lia)) as [e He]. apply list_elem_of_fmap. eexists (_, e).
    split; [done|]. by apply elem_of_map_to_list. }
  apply submseteq_length in Hsub. unfold keys in Hsub.
  rewrite !length_fmap, length_seqZ, length_map_to_list in Hsub. lia.
Qed.

Lemma allocateLoop_spec domain lifetime fuel k c :
  normalise c = addrAt p (tryAt k) → 0 ≤ k < count → (∀ j, 0 ≤ j < k → occupied j) →
  Z.of_nat (size (fs_ipToEntry s)) < k + Z.of_nat fuel →
  (∃ j, 0 ≤ j < count ∧ ¬ occupied j ∧
     let ip := AddrString (addrAt p (tryAt j)) in
     allocateLoop fuel domain lifetime now (fs_next s) c s =
     Some (Ok ip, putEntry s (mkEntry domain ip (now + lifetime)) (Next (addrAt p (tryAt j))))) ∨
  ((∀ j, 0 ≤ j < count → occupied j) ∧
   allocateLoop fuel domain lifetime now (fs_next s) c s = Some (fail "fake ip pool exhausted", s)).
Proof.
  revert k c. induction fuel as [|fuel IH]; intros k c Hc Hk Hocc Hf.
  { pose proof (occupied_count k ltac:(lia) Hocc). lia. }
  cbn [allocateLoop]. fold p. fold (normalise c). rewrite Hc.
  destruct (fs_ipToEntry s !! AddrString (addrAt p (tryAt k))) as [e|] eqn:Ei.
  2: { left. exists k. split_and!; [lia|lia| |done]. unfold occupied. rewrite Ei. by intros [? ?]. }
  pose proof (Hlive _ _ Ei). destruct (Z.ltb_spec now (fe_expiresAt e)); [|lia].
  assert (∀ j, 0 ≤ j < k + 1 → occupied j) as Hocc'.
  { intros j Hj. destruct (decide (j = k)) as [->|]; [by exists e|]. apply Hocc. lia. }
  assert (fs_next s ≠ addrAt p first) as Hnf.
  { intros E. apply (wf_fresh s Hs) in E. by rewrite E, lookup_empty in Ei. }
  destruct (decide (k = count - 1)) as [->|Hlast].
  - right. rewrite tryAt_last by done. rewrite bool_decide_eq_true_2 by done.
    split; [|done]. intros j Hj. apply Hocc'. lia.
  - destruct (tryAt_next k ltac:(lia) ltac:(lia) (or_intror Hnf)) as [Hne Hnorm].
    rewrite bool_decide_eq_false_2 by done. apply (IH (k + 1)); [done|lia|done|lia].
Qed.

End Search.

(** ** Operations keep the invariant *)

Lemma putEntry_wf s d ip exp v :
  wfStore s → fs_domainToEntry s !! d = None → fs_ipToEntry s !! ip = None →
  poolBase (fs_prefix s) < v ≤ poolLast (fs_prefix s) → ip = AddrString (addrAt (fs_prefix s) v) →
  wfStore (putEntry s (mkEntry d ip exp) (Next (addrAt (fs_prefix s) v))).
Proof.
  intros Hs Hd Hi Hv Hip. pose proof (wf_pool s Hs) as Hp. set (p := fs_prefix s) in *.
  pose proof (pool_top p Hp). destruct (Next_last p Hp) as [_ Hl2].
  assert (v < poolLast p → Next (addrAt p v) = addrAt p (v + 1)) as Hnx
    by (intros; apply Next_pool; unfold poolLast in *; lia || done).
  constructor; simpl; fold p.
  - done.
  - destruct (decide (v = poolLast p)) as [->|]; [by right|left].
    exists (v + 1). split; [lia|]. apply Hnx. lia.
  - intros E. exfalso. destruct (decide (v = poolLast p)) as [->|].
    + revert E. apply Hl2. unfold poolLast. pose proof (poolSpan_ge p Hp). lia.
    + rewrite Hnx in E by lia. apply addrAt_inj in E. lia.
  - intros d' e [[<- <-]|[Hne Hd']]%lookup_insert_Some.
    + split; [done|]. by rewrite lookup_insert_eq.
    + destruct (wf_dom s Hs _ _ Hd') as [<- Hi']. split; [done|].
      rewrite lookup_insert_ne; [done|]. intros E. rewrite <- E in Hi'. congruence.
  - intros i e [[<- <-]|[Hne Hi']]%lookup_insert_Some.
    + split_and!; [done|by rewrite lookup_insert_eq|]. by exists v.
    + destruct (wf_ip s Hs _ _ Hi') as (<- & Hd' & Hpool). split_and!; [done| |done].
      rewrite lookup_insert_ne; [done|]. intros E. rewrite <- E in Hd'. congruence.
Qed.

(** Refreshing the expiry of an entry. *)
Lemma refresh_wf s d e exp :
  wfStore s → fs_domainToEntry s !! d = Some e →
  let e' := mkEntry (fe_domain e) (fe_ip e) exp in
  wfStore (setMaps s (<[d := e']> (fs_domainToEntry s)) (<[fe_ip e := e']> (fs_ipToEntry s))).
Proof.
  intros Hs Hd e'. destruct (wf_dom s Hs _ _ Hd) as [Ed Hi]. constructor; simpl.
  - apply Hs.
  - apply Hs.
  - intros E. exfalso. apply (wf_fresh s Hs) in E. by rewrite E, lookup_empty in Hi.
  - intros d' x [[<- <-]|[Hne Hd']]%lookup_insert_Some.
    + split; [done|]. simpl. by rewrite lookup_insert_eq.
    + destruct (wf_dom s Hs _ _ Hd') as [<- Hi']. split; [done|].
      rewrite lookup_insert_ne; [done|]. intros E. rewrite <- E in Hi'.
      rewrite Hi in Hi'. by injection Hi' as <-.
  - intros i x [[<- <-]|[Hne Hi']]%lookup_insert_Some.
    + simpl. rewrite Ed. split_and!; [done|by rewrite lookup_insert_eq|].
      by destruct (wf_ip s Hs _ _ Hi) as (_ & _ & ?).
    + destruct (wf_ip s Hs _ _ Hi') as (<- & Hd' & Hpool). split_and!; [done| |done].
      rewrite lookup_insert_ne; [done|]. intros E. rewrite <- E in Hd'. congruence.
Qed.

Definition effectiveLifetime (lifetime : Z) : Z :=
  if lifetime <=? 0 then defaultFakeTTL * second else lifetime.

(** Every address of the pool is held by a live entry. *)
Definition poolFull (s : fakeIPStore) (now : Z) : Prop :=
  ∀ v, poolBase (fs_prefix s) < v ≤ poolLast (fs_prefix s) →
  ∃ e, fs_ipToEntry s !! AddrString (addrAt (fs_prefix s) v) = Some e ∧ now < fe_expiresAt e.

Section OpsSpec.
Context `{GoUnicode}.

Lemma Allocate_spec domain lifetime now s :
  wfStore s →
  let d := to_lower domain in
  let exp := now + effectiveLifetime lifetime in
  ∃ r s', Allocate domain lifetime now s = Some (r, s') ∧ wfStore s' ∧ fs_prefix s' = fs_prefix s ∧
  match r with
  | Ok ip =>
      d ≠ [] ∧ inPool (fs_prefix s) ip ∧
      fs_domainToEntry s' !! d = Some (mkEntry d ip exp) ∧
      (∀ d' e, d' ≠ d → fs_domainToEntry s' !! d' = Some e ↔
                        fs_domainToEntry s !! d' = Some e ∧ now < fe_expiresAt e) ∧
      (∀ e, fs_domainToEntry s !! d = Some e → now < fe_expiresAt e → ip = fe_ip e)
  | Err _ => (d = [] ∧ s' = s) ∨
      (s' = cleanupExpiredLocked now s ∧ poolFull s' now ∧
       ∀ e, fs_domainToEntry s !! d = Some e → fe_expiresAt e ≤ now)
  | Panic => False
  end.
Proof.
  intros Hs d exp. unfold Allocate. fold d. case_bool_decide as Hd.
  { eexists _, s. split_and!; [done|done|done|]. by left. }
  destruct (cleanup_spec now s Hs) as (Hc & Hcp & Hcn & Hcd). set (c := cleanupExpiredLocked now s) in *.
  fold (effectiveLifetime lifetime). fold exp.
  destruct (fs_domainToEntry c !! d) as [e|] eqn:Ee.
  - eexists _, _. split; [done|]. destruct (wf_dom c Hc _ _ Ee) as [Ed Ei].
    split; [exact (refresh_wf c d e exp Hc Ee)|]. split; [done|]. cbn [fe_ip fe_domain]. rewrite Ed.
    split_and!; [done| |simpl; by rewrite lookup_insert_eq| |].
    + rewrite <- Hcp. by destruct (wf_ip c Hc _ _ Ei) as (_ & _ & ?).
    + intros d' e' Hne. simpl. rewrite lookup_insert_ne by done. apply Hcd.
    + intros e' He' Hlive. assert (fs_domainToEntry c !! d = Some e') as E by by apply Hcd. congruence.
  - assert (∀ i e, fs_ipToEntry c !! i = Some e → now < fe_expiresAt e) as Hlive.
    { intros i e (_ & He & _)%(wf_ip c Hc). by apply Hcd in He as [_ ?]. }
    pose proof (poolSpan_ge _ (wf_pool c Hc)) as Hsp.
    assert (∀ e, fs_domainToEntry s !! d = Some e → now < fe_expiresAt e → False) as Hnone.
    { intros e He Hl. assert (fs_domainToEntry c !! d = Some e) by by apply Hcd. congruence. }
    destruct (allocateLoop_spec c Hc now Hlive d (effectiveLifetime lifetime) (allocFuel c) 0 (fs_next c))
      as [(j & Hj & Hfree & ->)|[Hall ->]].
    + by apply normalise_start.
    + lia.
    + lia.
    + unfold allocFuel. lia.
    + set (ip := AddrString (addrAt (fs_prefix c) (tryAt c j))) in *.
      pose proof (tryAt_range c Hc j Hj) as Htr.
      assert (fs_ipToEntry c !! ip = None) as Hip by (apply eq_None_not_Some; exact Hfree).
      eexists _, _. split; [done|]. split; [apply putEntry_wf; [done|done|done|lia|done]|].
      split; [done|]. split_and!; [done| |simpl; by rewrite lookup_insert_eq| |].
      * rewrite <- Hcp. exists (tryAt c j). split; [lia|done].
      * intros d' e' Hne. simpl. rewrite lookup_insert_ne by done. apply Hcd.
      * intros e He Hl. destruct (Hnone e He Hl).
    + eexists _, c. split_and!; [done|done|done|]. right. split; [done|]. split.
      2: { intros e He. destruct (decide (fe_expiresAt e ≤ now)); [done|]. destruct (Hnone e He). lia. }
      intros v Hv.
      assert (∃ j, 0 ≤ j < poolSpan (fs_prefix c) - 1 ∧ tryAt c j = v) as (j & Hj & <-).
      { pose proof (startAt_range c Hc) as Hsr. unfold tryAt, poolLast in *.
        destruct (decide (startAt c ≤ v)).
        - exists (v - startAt c). split; [lia|].
          match goal with |- context [Z.leb ?a ?b] => destruct (Z.leb_spec a b); lia end.
        - exists (v - startAt c + (poolSpan (fs_prefix c) - 1)). split; [lia|].
          match goal with |- context [Z.leb ?a ?b] => destruct (Z.leb_spec a b); lia end. }
      destruct (Hall j Hj) as [e He]. exists e. split; [done|]. by eapply Hlive.
Qed.

Lemma LookupDomain_spec ip now s r s' :
  wfStore s → LookupDomain ip now s = (r, s') →
  wfStore s' ∧ fs_prefix s' = fs_prefix s ∧
  (∀ d, r = Some d ↔ ∃ e, fs_domainToEntry s !! d = Some e ∧ fe_ip e = ip ∧ now < fe_expiresAt e) ∧
  (∀ d e, now < fe_expiresAt e →
     fs_domainToEntry s' !! d = Some e ↔ fs_domainToEntry s !! d = Some e).
Proof.
  intros Hs. unfold LookupDomain. destruct (fs_ipToEntry s !! ip) as [e|] eqn:Ei.
  - destruct (wf_ip s Hs _ _ Ei) as (Eip & Ed & _).
    destruct (Z.leb_spec (fe_expiresAt e) now) as [Hexp|Hl]; intros [= <- <-].
    + destruct (deleteEntry_present s e Hs Ed) as [Edel Hwf].
      split; [done|]. rewrite Edel. split_and!; [done| |].
      * intros d. split; [done|]. intros (e' & He' & Hip & Hl'). exfalso.
        apply (wf_dom s Hs) in He' as [_ He']. rewrite Hip in He'. assert (e = e') as -> by congruence. lia.
      * intros d e' Hl'. simpl. rewrite lookup_delete_Some. split; [by intros [_ ?]|].
        intros He'. split; [|done]. intros <-. assert (e = e') as -> by congruence. lia.
    + split_and!; [done|done| |done]. intros d. split.
      * intros [= <-]. by exists e.
      * intros (e' & He' & Hip & Hl'). destruct (wf_dom s Hs _ _ He') as [<- Hi']. congruence.
  - intros [= <- <-]. split_and!; [done|done| |done]. intros d. split; [done|].
    intros (e' & He' & Hip & _). apply (wf_dom s Hs) in He' as [_ He']. congruence.
Qed.

(** ** Runs of operations *)

Inductive op :=
| opAllocate (domain : gostring) (lifetime now : Z)
| opLookup (ip : gostring) (now : Z).

Definition exec (o : op) (s : fakeIPStore) : fakeIPStore :=
  match o with
  | opAllocate d l now => match Allocate d l now s with Some (_, s') => s' | None => s end
  | opLookup ip now => snd (LookupDomain ip now s)
  end.

Definition run (os : list op) (s : fakeIPStore) : fakeIPStore := foldl (λ s o, exec o s) s os.

(** The stores the program can hold: one of its two pools after any calls. *)
Definition reachable (s : fakeIPStore) : Prop :=
  ∃ cidr s0 os, cidr ∈ [fakeIPv4CIDR; fakeIPv6CIDR] ∧ mustNewFakeIPStore cidr = Some s0 ∧ s = run os s0.

Lemma exec_wf o s : wfStore s → wfStore (exec o s).
Proof.
  intros Hs. destruct o as [d l now|ip now]; simpl.
  - destruct (Allocate_spec d l now s Hs) as (r & s' & -> & Hwf & _). done.
  - destruct (LookupDomain ip now s) as [r s'] eqn:E. by apply LookupDomain_spec in E as [? _].
Qed.

Lemma run_wf os s : wfStore s → wfStore (run os s).
Proof. revert s. induction os as [|o os IH]; intros s Hs; [done|]. by apply IH, exec_wf. Qed.

Lemma new_wf p :
  poolOK p → wfStore (mkStore p (Next (PAddr p)) ∅ ∅).
Proof.
  intros Hp. pose proof (poolSpan_ge p Hp). pose proof (pool_top p Hp).
  constructor; simpl; try done. left. exists (poolBase p + 1). split; [unfold poolLast; lia|].
  rewrite PAddr_at by done. apply Next_pool; lia || done.
Qed.

Lemma cidr4 : ParsePrefix fakeIPv4CIDR = Some (mkPrefix (Addr4 0xc6120000) 15).
Proof. by vm_compute. Qed.

Lemma cidr6 :
  ParsePrefix fakeIPv6CIDR = Some (mkPrefix (Addr6 0xfd666c756d6901000000000000000000 []) 56).
Proof. by vm_compute. Qed.

Lemma pools_ok :
  poolOK (mkPrefix (Addr4 0xc6120000) 15) ∧
  poolOK (mkPrefix (Addr6 0xfd666c756d6901000000000000000000 []) 56).
Proof. unfold poolOK, addr_wf. cbn [PAddr PBits BitLen]. split_and!; try done; lia. Qed.

Lemma reachable_wf s : reachable s → wfStore s.
Proof.
  intros (cidr & s0 & os & Hc & H0 & ->). apply run_wf. unfold mustNewFakeIPStore in H0.
  assert (∃ p, ParsePrefix cidr = Some p ∧ poolOK p) as (p & Hpar & Hp).
  { destruct pools_ok as [P4 P6]. apply elem_of_cons in Hc as [->|Hc].
    - eexists. split; [apply cidr4|exact P4].
    - apply list_elem_of_singleton in Hc as ->. eexists. split; [apply cidr6|exact P6]. }
  rewrite Hpar in H0. cbn in H0. injection H0 as <-. by apply new_wf.
Qed.

(** C7: in every store the program can reach, [Allocate] returns: it fails only
    for an empty name or when every address of the pool is held by an unexpired
    entry, and otherwise gives an address of the pool that stands for the domain
    until the lifetime is over. *)
Theorem Allocate_returns s domain lifetime now :
  reachable s →
  ∃ r s', Allocate domain lifetime now s = Some (r, s') ∧ reachable s' ∧
  match r with
  | Ok ip => inPool (fs_prefix s) ip ∧
             ∀ t, t < now + effectiveLifetime lifetime →
                  fst (LookupDomain ip t s') = Some (to_lower domain)
  | Err _ => to_lower domain = [] ∨ poolFull s' now
  | Panic => False
  end.
Proof.
  intros Hr. pose proof (reachable_wf s Hr) as Hs.
  destruct (Allocate_spec domain lifetime now s Hs) as (r & s' & E & Hs' & Hp & Hres).
  exists r, s'. split; [done|]. split.
  { destruct Hr as (cidr & s0 & os & Hc & H0 & ->). exists cidr, s0, (os ++ [opAllocate domain lifetime now]).
    split_and!; [done|done|]. unfold run in *. rewrite foldl_app. simpl. by rewrite E. }
  destruct r as [ip|e|]; [|by destruct Hres as [[? _]|(_ & ? & _)]; [left|right]|done].
  destruct Hres as (_ & Hpool & Hd & _). split; [done|]. intros t Ht.
  destruct (LookupDomain ip t s') as [r s''] eqn:El.
  apply LookupDomain_spec in El as (_ & _ & Hl & _); [|done]. apply Hl. by eexists.
Qed.

(** C26: two domains with unexpired entries never share a synthetic address, and
    the address of a domain looks up that domain and no other. *)
Theorem fake_ip_injective s d1 d2 e1 e2 now :
  reachable s →
  fs_domainToEntry s !! d1 = Some e1 → fs_domainToEntry s !! d2 = Some e2 →
  now < fe_expiresAt e1 →
  fst (LookupDomain (fe_ip e1) now s) = Some d1 ∧ (fe_ip e1 = fe_ip e2 → d1 = d2).
Proof.
  intros Hs%reachable_wf H1 H2 Hl. destruct (LookupDomain (fe_ip e1) now s) as [r s'] eqn:El.
  apply LookupDomain_spec in El as (_ & _ & Hlk & _); [|done]. split; [apply Hlk; by exists e1|].
  intros E. apply (wf_dom s Hs) in H1 as [<- H1], H2 as [<- H2]. congruence.
Qed.

(** An operation that leaves the entry of [d] alone until the deadline. *)
Definition keeps (d : gostring) (deadline : Z) (o : op) : Prop :=
  match o with
  | opAllocate d' l now => now < deadline ∧ (to_lower d' = d → deadline ≤ now + effectiveLifetime l)
  | opLookup _ now => now < deadline
  end.

Lemma exec_keeps d deadline o s e :
  wfStore s → keeps d deadline o → fs_domainToEntry s !! d = Some e → deadline ≤ fe_expiresAt e →
  ∃ e', fs_domainToEntry (exec o s) !! d = Some e' ∧ fe_ip e' = fe_ip e ∧ deadline ≤ fe_expiresAt e'.
Proof.
  intros Hs Hk He Hu. destruct o as [d' l now|ip now]; simpl in *.
  - destruct Hk as [Hnow Hsame]. destruct (Allocate_spec d' l now s Hs) as (r & s' & -> & _ & _ & Hres).
    destruct r as [ip|err|]; [| |done].
    + destruct Hres as (_ & _ & Hd & Hother & Hsameip). destruct (decide (d = to_lower d')) as [->|Hne].
      * exists (mkEntry (to_lower d') ip (now + effectiveLifetime l)). split_and!; [done| |simpl; auto].
        simpl. apply Hsameip; [done|lia].
      * exists e. split_and!; [|done|done]. apply Hother; [done|]. split; [done|lia].
    + exists e. split_and!; [|done|done]. destruct Hres as [[_ ->]|(-> & _)]; [done|].
      destruct (cleanup_spec now s Hs) as (_ & _ & _ & Hc). apply Hc. split; [done|lia].
  - destruct (LookupDomain ip now s) as [r s'] eqn:El.
    apply LookupDomain_spec in El as (_ & _ & _ & Hkeep); [|done]. exists e. simpl.
    split_and!; [|done|done]. apply Hkeep; [lia|done].
Qed.

Lemma run_keeps d deadline os s e :
  wfStore s → Forall (keeps d deadline) os → fs_domainToEntry s !! d = Some e → deadline ≤ fe_expiresAt e →
  ∃ e', fs_domainToEntry (run os s) !! d = Some e' ∧ fe_ip e' = fe_ip e ∧ deadline ≤ fe_expiresAt e'.
Proof.
  revert s e. induction os as [|o os IH]; intros s e Hs Hos He Hu; [by exists e|].
  apply Forall_cons in Hos as [Ho Hos].
  destruct (exec_keeps d deadline o s e Hs Ho He Hu) as (e1 & H1 & <- & Hu1).
  exact (IH (exec o s) e1 (exec_wf o s Hs) Hos H1 Hu1).
Qed.

(** C25: an address handed out stays with its domain: whatever calls follow before
    the lifetime is over (none of which shortens this domain's own lifetime),
    the address still looks up the domain and the domain gets the same address
    again. *)
Theorem fake_ip_stable s s' domain lifetime now ip os t lifetime' :
  let deadline := now + effectiveLifetime lifetime in
  reachable s → Allocate domain lifetime now s = Some (Ok ip, s') →
  Forall (keeps (to_lower domain) deadline) os → t < deadline →
  fst (LookupDomain ip t (run os s')) = Some (to_lower domain) ∧
  fst <$> Allocate domain lifetime' t (run os s') = Some (Ok ip).
Proof.
  intros deadline Hs%reachable_wf HA Hos Ht.
  destruct (Allocate_spec domain lifetime now s Hs) as (r & s'' & E & Hs' & _ & Hres).
  rewrite E in HA. injection HA as -> ->. destruct Hres as (Hne & _ & Hd & _).
  destruct (run_keeps _ deadline os s' _ Hs' Hos Hd (Z.le_refl _)) as (e & He & Hip & Hu). simpl in Hip.
  pose proof (run_wf os s' Hs') as Hrun. split.
  - destruct (LookupDomain ip t (run os s')) as [r u] eqn:El.
    apply LookupDomain_spec in El as (_ & _ & Hl & _); [|done]. apply Hl. exists e. split_and!; [done..|lia].
  - destruct (Allocate_spec domain lifetime' t (run os s') Hrun) as (r & u & -> & Hu' & _ & Hres).
    destruct r as [ip'|err|]; [| |done].
    + destruct Hres as (_ & _ & _ & _ & Hsame). rewrite (Hsame e He) by lia. simpl. by rewrite Hip.
    + exfalso. destruct Hres as [[? _]|(_ & _ & Hexp)]; [done|]. specialize (Hexp e He). lia.
Qed.
End OpsSpec.

(** A Unicode table for the witnesses: the names below are ASCII. *)
Definition unicode_id : GoUnicode := λ s, s.

Definition demoStore : fakeIPStore :=
  mkStore (mkPrefix (Addr4 0xc6120000) 15) (Addr4 0xc6120001) ∅ ∅.

Definition demoOps : list op := [opAllocate "a.com" 0 5; opAllocate "B.com" (second * 90) 7].

Lemma demo_reachable os : @reachable unicode_id (@run unicode_id os demoStore).
Proof.
  exists fakeIPv4CIDR, demoStore, os. split_and!; [apply elem_of_cons; by left|by vm_compute|done].
Qed.

Lemma Allocate_returns_witness :
  ∃ s', @Allocate unicode_id "a.com" 0 5 demoStore = Some (Ok (lit "198.18.0.1"), s') ∧
        @reachable unicode_id s' ∧
        ∀ t, t < 5 + effectiveLifetime 0 → fst (LookupDomain "198.18.0.1" t s') = Some (lit "a.com").
Proof.
  destruct (@Allocate_returns unicode_id demoStore "a.com" 0 5 (demo_reachable []))
    as (r & s' & E & Hr & Hres).
  assert (fst <$> @Allocate unicode_id "a.com" 0 5 demoStore = Some (Ok (lit "198.18.0.1"))) as Er
    by (vm_compute; reflexivity).
  rewrite E in Er. injection Er as ->. exists s'.
  split; [exact E|]. split; [exact Hr|]. exact (proj2 Hres).
Defined.

Lemma fake_ip_injective_witness :
  let s := @run unicode_id demoOps demoStore in
  let e1 := mkEntry "a.com" "198.18.0.1" (5 + 60 * second) in
  let e2 := mkEntry "b.com" "198.18.0.2" (7 + 90 * second) in
  fst (LookupDomain (fe_ip e1) 8 s) = Some (lit "a.com") ∧
  (fe_ip e1 = fe_ip e2 → lit "a.com" = lit "b.com").
Proof.
  apply (@fake_ip_injective unicode_id); [apply demo_reachable|vm_compute; reflexivity..].
Defined.

Lemma fake_ip_stable_witness :
  ∃ s', @Allocate unicode_id "a.com" 0 5 demoStore = Some (Ok (lit "198.18.0.1"), s') ∧
  fst (LookupDomain "198.18.0.1" 9 (@run unicode_id demoOps s')) = Some (lit "a.com") ∧
  fst <$> @Allocate unicode_id "a.com" 3 9 (@run unicode_id demoOps s') = Some (Ok (lit "198.18.0.1")).
Proof.
  eexists. split; [vm_compute; reflexivity|].
  refine (@fake_ip_stable unicode_id demoStore _ "a.com" 0 5 "198.18.0.1" demoOps 9 3 _ _ _ _).
  - exact (demo_reachable []).
  - vm_compute; reflexivity.
  - unfold demoOps. constructor; [|constructor; [|constructor]]; vm_compute;
      (split; [reflexivity|intros; discriminate]).
  - vm_compute. reflexivity.
Defined.
