(* ===== verification/Conn.v ===== *)
(** * Connections as the sending code sees them

    A connection is the log of the operations performed on it together with the
    environment's answers: [oracle k] is the error of the [k]-th operation, or
    [None] when it succeeds; [polls k] is the [k]-th reading of [TCP_INFO] (the
    unacknowledged segments, or an error) and the time since the wait began.
    Code that sends is a computation of type [netM]: it may return, fail with
    an error, or panic, and leaves the log behind. *)

From S2P Require Import Prelude Errors.
Local Open Scope Z_scope.

Inductive event :=
| EvWrite (b : bytes)
| EvOOB (b : bytes) (urgent : Z)
| EvRawConn
| EvControl
| EvSleep (d : Z)
| EvGetTTL
| EvSetTTL (ttl : Z)
| EvPipe
| EvMmap (n : Z)
| EvVmsplice (page : bytes)
| EvSplice (n : Z)
| EvPage (b : bytes).

#[global] Instance event_eq_dec : EqDecision event.
Proof. solve_decision. Defined.

Record conn := mkConn {
  log : list (event * option error);
  oracle : nat → option error;
  polls : nat → res Z * Z;
  pollIdx : nat;
}.

Definition netM (A : Type) : Type := conn → res A * conn.

#[global] Instance netM_ret : MRet netM := λ A a c, (Ok a, c).
#[global] Instance netM_bind : MBind netM := λ A B k m c,
  match m c with
  | (Ok a, c') => k a c'
  | (Err e, c') => (Err e, c')
  | (Panic, c') => (Panic, c')
  end.

Definition lift {A} (r : res A) : netM A := λ c, (r, c).

(** Go panics where the option is [None]. *)
Definition checkedM {A} (o : option A) : netM A := lift (checked o).

Definition failM {A} (msg : String.string) : netM A := lift (fail msg).

Definition with_strM {A} (op : gostring) (m : netM A) : netM A := λ c,
  match m c with
  | (Err e, c') => (Err (opError op e), c')
  | r => r
  end.

Definition append_log (c : conn) (ev : event * option error) : conn :=
  mkConn (log c ++ [ev]) (oracle c) (polls c) (pollIdx c).

(** One operation: the environment decides whether it fails. *)
Definition perform (ev : event) : netM unit := λ c,
  let e := oracle c (length (log c)) in
  (match e with None => Ok tt | Some e => Err e end, append_log c (ev, e)).

(** [time.Sleep] cannot fail. *)
Definition sleep (d : Z) : netM unit := λ c, (Ok tt, append_log c (EvSleep d, None)).

Definition write (b : bytes) : netM unit := perform (EvWrite b).

(** Run [f] on the elements in order, with their indices. *)
Fixpoint forM (i : Z) {A} (l : list A) (f : Z → A → netM unit) : netM unit :=
  match l with
  | [] => mret tt
  | x :: l' => f i x;; forM (i + 1) l' f
  end.

(** A quiet network: nothing fails from here on. *)
Definition quiet (c : conn) : Prop := (∀ k, oracle c k = None) ∧ (∀ k, ∃ t, polls c k = (Ok 0, t)).

Definition freshConn : conn := mkConn [] (λ _, None) (λ _, (Ok 0, 0)) 0.

(** The operations logged between two states of a connection. *)
Definition sent (c : conn) : list event := (log c).*1.

(** ** The byte stream the peer reads

    TCP keeps one urgent byte: when a second one is announced the first is read
    in line, so only the last urgent byte leaves the stream.  (What spliced pages
    add is described with the code that splices, in [Desync].) *)

Fixpoint has_oob (evs : list event) : bool :=
  match evs with
  | [] => false
  | EvOOB _ _ :: _ => true
  | _ :: evs' => has_oob evs'
  end.

Fixpoint inband (evs : list event) : bytes :=
  match evs with
  | [] => []
  | EvWrite b :: evs' => b ++ inband evs'
  | EvOOB b x :: evs' => b ++ (if has_oob evs' then [x] else []) ++ inband evs'
  | _ :: evs' => inband evs'
  end.

Lemma has_oob_app l k : has_oob (l ++ k) = has_oob l || has_oob k.
Proof. induction l as [|[] l IH]; simpl; done. Qed.

(** Appending events without urgent data. *)
Lemma inband_app_plain l k : has_oob k = false → inband (l ++ k) = inband l ++ inband k.
Proof.
  intros Hk. induction l as [|[] l IH]; simpl; rewrite ?IH; rewrite ?app_assoc; try done.
  by rewrite has_oob_app, Hk, orb_false_r, <- !app_assoc.
Qed.

(** What a sequence of operations adds to the stream: [plain b] adds the bytes
    [b]; [urgent b x] adds [b] and leaves [x] as the urgent byte. *)
Definition plain (b : bytes) (evs : list event) : Prop :=
  ∀ k, inband (evs ++ k) = b ++ inband k ∧ has_oob (evs ++ k) = has_oob k.

Definition urgent (b : bytes) (x : Z) (evs : list event) : Prop :=
  ∀ k, inband (evs ++ k) = b ++ (if has_oob k then [x] else []) ++ inband k ∧
       has_oob (evs ++ k) = true.

(** The stream in the end is [b]. *)
Definition delivers (b : bytes) (evs : list event) : Prop := inband evs = b.

(** [m] succeeds on every quiet connection, returns [a], and performs operations
    that satisfy [K]. *)
Definition emits {A} (m : netM A) (a : A) (K : list event → Prop) : Prop :=
  ∀ c, quiet c → ∃ c' evs, m c = (Ok a, c') ∧ quiet c' ∧ sent c' = sent c ++ evs ∧ K evs.

Lemma emits_weaken {A} (m : netM A) a (K K' : list event → Prop) :
  emits m a K → (∀ evs, K evs → K' evs) → emits m a K'.
Proof. intros Hm HK c Hc. destruct (Hm c Hc) as (c' & evs & ? & ? & ? & ?). exists c', evs. auto. Qed.

Lemma emits_bind {A B} (m : netM A) (k : A → netM B) a b (K1 K2 K : list event → Prop) :
  emits m a K1 → emits (k a) b K2 → (∀ e1 e2, K1 e1 → K2 e2 → K (e1 ++ e2)) →
  emits (m ≫= k) b K.
Proof.
  intros Hm Hk HK c Hc. destruct (Hm c Hc) as (c1 & e1 & E1 & Hc1 & L1 & H1).
  destruct (Hk c1 Hc1) as (c2 & e2 & E2 & Hc2 & L2 & H2). exists c2, (e1 ++ e2).
  unfold mbind, netM_bind. rewrite E1. split_and!; [done|done| |auto]. by rewrite L2, L1, app_assoc.
Qed.

Lemma plain_nil : plain [] [].
Proof. by intros k. Qed.

Lemma plain_app b1 b2 e1 e2 : plain b1 e1 → plain b2 e2 → plain (b1 ++ b2) (e1 ++ e2).
Proof.
  intros H1 H2 k. destruct (H1 (e2 ++ k)) as [I1 O1], (H2 k) as [I2 O2].
  rewrite <- !app_assoc, I1, O1, I2, O2. done.
Qed.

Lemma plain_urgent b1 b2 x e1 e2 : plain b1 e1 → urgent b2 x e2 → urgent (b1 ++ b2) x (e1 ++ e2).
Proof.
  intros H1 H2 k. destruct (H1 (e2 ++ k)) as [I1 O1], (H2 k) as [I2 O2].
  rewrite <- !app_assoc, I1, O1, I2, O2. done.
Qed.

Lemma urgent_urgent b1 b2 x y e1 e2 :
  urgent b1 x e1 → urgent b2 y e2 → urgent (b1 ++ [x] ++ b2) y (e1 ++ e2).
Proof.
  intros H1 H2 k. destruct (H1 (e2 ++ k)) as [I1 O1], (H2 k) as [I2 O2].
  rewrite <- !app_assoc, I1, O1, O2, I2. done.
Qed.

(** Bytes sent after the last urgent byte. *)
Lemma urgent_plain b1 b2 x e1 e2 : urgent b1 x e1 → plain b2 e2 → delivers (b1 ++ b2) (e1 ++ e2).
Proof.
  intros H1 H2. destruct (H2 []) as [I2 O2]. rewrite app_nil_r in I2, O2. simpl in O2.
  destruct (H1 e2) as [I1 _]. unfold delivers. rewrite I1, O2, I2. simpl. by rewrite app_nil_r.
Qed.

Lemma plain_delivers b evs : plain b evs → delivers b evs.
Proof. intros H. destruct (H []) as [I _]. unfold delivers. by rewrite !app_nil_r in I. Qed.

Lemma urgent_delivers b x evs : urgent b x evs → delivers b evs.
Proof. intros H. destruct (H []) as [I _]. unfold delivers. by rewrite !app_nil_r in I. Qed.

Lemma emits_ret {A} (a : A) : emits (mret a) a (plain []).
Proof. intros c Hc. exists c, []. split_and!; [done|done|by rewrite app_nil_r|apply plain_nil]. Qed.

Lemma emits_perform ev (K : list event → Prop) : K [ev] → emits (perform ev) tt K.
Proof.
  intros HK c [Ho Hp]. unfold perform. rewrite Ho. eexists _, [ev]. split; [done|]. split; [by split|].
  split; [|done]. unfold sent, append_log. simpl. by rewrite fmap_app.
Qed.

Lemma emits_sleep d : emits (sleep d) tt (plain []).
Proof.
  intros c [Ho Hp]. eexists _, [EvSleep d]. split; [done|]. split; [by split|].
  split; [|by intros k]. unfold sent, append_log. simpl. by rewrite fmap_app.
Qed.

Lemma emits_write b : emits (write b) tt (plain b).
Proof. apply emits_perform. by intros k. Qed.

Lemma emits_with_str {A} op (m : netM A) a K : emits m a K → emits (with_strM op m) a K.
Proof.
  intros Hm c Hc. destruct (Hm c Hc) as (c' & evs & E & H). exists c', evs. unfold with_strM. by rewrite E.
Qed.

Lemma emits_checked {A} (o : option A) a : o = Some a → emits (checkedM o) a (plain []).
Proof. intros ->. apply emits_ret. Qed.

(** Sequencing computations that add plain bytes. *)
Lemma emits_seq {A B} (m : netM A) (k : A → netM B) a b b1 b2 :
  emits m a (plain b1) → emits (k a) b (plain b2) → emits (m ≫= k) b (plain (b1 ++ b2)).
Proof. intros H1 H2. eapply emits_bind; [exact H1|exact H2|]. intros. by apply plain_app. Qed.

(** A silent step in front. *)
Lemma emits_skip {A B} (m : netM A) (k : A → netM B) a b (K : list event → Prop) :
  emits m a (plain []) → emits (k a) b K → (∀ e1 e2, plain [] e1 → K e2 → K (e1 ++ e2)) →
  emits (m ≫= k) b K.
Proof. intros H1 H2 HK. by eapply emits_bind. Qed.

Lemma emits_forM {A} (l : list A) f (g : A → bytes) i :
  (∀ j x, l !! j = Some x → emits (f (i + Z.of_nat j) x) tt (plain (g x))) →
  emits (forM i l f) tt (plain (concat (g <$> l))).
Proof.
  revert i. induction l as [|x l IH]; intros i Hf; [apply emits_ret|].
  cbn [forM fmap list_fmap concat]. apply (emits_seq _ _ tt).
  - specialize (Hf 0%nat x eq_refl). by rewrite Z.add_0_r in Hf.
  - apply IH. intros j y Hj. specialize (Hf (S j) y Hj).
    replace (i + 1 + Z.of_nat j) with (i + Z.of_nat (S j)) by lia. done.
Qed.

#[export] Hint Resolve emits_ret emits_sleep emits_write emits_with_str emits_checked : lumine.
