(* ===== verification/ClientHello.v ===== *)
(** * The TLS ClientHello parser (core/tunnel.go)

    [parseClientHello] finds the server name in the first record of a
    connection and notes two extensions.  A run that would index past the data
    is [None] (a Go panic).  The second half of the file gives the record
    format as an encoder and relates the two. *)

From S2P Require Import Prelude Errors.
Local Open Scope Z_scope.

Definition tlsRecordTypeHandshake : Z := 22.
Definition tlsMajorVersion : Z := 3.
Definition tlsRecordHeaderLen : Z := 5.
Definition tlsHandshakeHeaderLen : Z := 4.
Definition tlsHandshakeTypeClientHello : Z := 1.
Definition tlsExtTypeSNI : Z := 0.
Definition tlsExtTypeKeyShare : Z := 51.
Definition tlsExtTypeECH : Z := 254.

(** The results of [parseClientHello], the error included; [prtVer] is a slice
    of the data, empty for nil. *)
Record helloInfo := mkHello {
  prtVer : bytes;
  sniStart : Z;
  sniLen : Z;
  hasKeyShare : bool;
  hasECH : bool;
  helloErr : option error;
}.

(** [binary.BigEndian.Uint16(data[i:i+2])]. *)
Definition u16at (data : bytes) (i : Z) : option Z :=
  b ← slice data i (i + 2); h ← idx b 0; l ← idx b 1; Some (be16 h l).

Definition noHello (ver : bytes) (e : option error) : option helloInfo :=
  Some (mkHello ver (-1) 0 false false e).

(** One extension at [offset], given its type, length and bounds: the new state
    of the scan, or the error it stops with. *)
Definition sniExtension (data : bytes) (extDataStart extLen extDataEnd sniStart0 : Z)
    : option (res (Z * Z)) :=
  if negb (sniStart0 =? -1) then Some (fail "duplicate SNI extension") else
  if extLen <? 2 then Some (fail "malformed SNI extension (too short for list length)") else
  listLen ← u16at data extDataStart;
  if negb (listLen + 2 =? extLen) then Some (fail "SNI list length field mismatch") else
  let cursor := extDataStart + 2 in
  if extDataEnd <? cursor + 3 then Some (fail "SNI entry too short") else
  nameType ← idx data cursor;
  if negb (nameType =? 0) then Some (fail "unsupported SNI name type") else
  nameLen ← u16at data (cursor + 1);
  let nameStart := cursor + 3 in
  let nameEnd := nameStart + nameLen in
  if extDataEnd <? nameEnd then Some (fail "SNI name length exceeds extension") else
  Some (Ok (nameStart, nameLen)).

(** The extension loop.  Every round moves on by at least four bytes, so the
    length of the data is fuel enough. *)
Fixpoint extensionLoop (fuel : nat) (data : bytes) (ver : bytes) (offset extensionsEnd : Z)
    (sniStart sniLen : Z) (hasKeyShare hasECH : bool) : option helloInfo :=
  match fuel with
  | O => None
  | S fuel' =>
      if extensionsEnd <? offset + 4
      then Some (mkHello ver sniStart sniLen hasKeyShare hasECH None) else
      extType ← u16at data offset;
      extLen ← u16at data (offset + 2);
      let extDataStart := offset + 4 in
      let extDataEnd := extDataStart + extLen in
      if extensionsEnd <? extDataEnd then
        Some (mkHello ver sniStart sniLen hasKeyShare hasECH
                (New "extension length exceeds extensions block"))
      else if extType =? tlsExtTypeKeyShare then
        extensionLoop fuel' data ver extDataEnd extensionsEnd sniStart sniLen true hasECH
      else if extType =? tlsExtTypeECH then
        extensionLoop fuel' data ver extDataEnd extensionsEnd sniStart sniLen hasKeyShare true
      else if extType =? tlsExtTypeSNI then
        r ← sniExtension data extDataStart extLen extDataEnd sniStart;
        match r with
        | Ok (nameStart, nameLen) =>
            extensionLoop fuel' data ver extDataEnd extensionsEnd nameStart nameLen hasKeyShare hasECH
        | Err e => Some (mkHello ver sniStart sniLen hasKeyShare hasECH (Some e))
        | Panic => None
        end
      else extensionLoop fuel' data ver extDataEnd extensionsEnd sniStart sniLen hasKeyShare hasECH
  end.

(** From the session id to the extensions, [offset] being just after Random. *)
Definition parseHelloBody (data ver : bytes) (offset : Z) : option helloInfo :=
  let len := zlen data in
  if len <=? offset then noHello ver (New "unexpected end after Random") else
  sessionIDLen ← idx data offset;
  let offset := offset + 1 in
  if len <? offset + sessionIDLen then noHello ver (New "session_id length exceeds data") else
  let offset := offset + sessionIDLen in
  if len <? offset + 2 then noHello ver (New "cannot read cipher_suites length") else
  csLen ← u16at data offset;
  let offset := offset + 2 in
  if len <? offset + csLen then noHello ver (New "cipher_suites exceed data") else
  let offset := offset + csLen in
  if len <=? offset then noHello ver (New "cannot read compression_methods length") else
  compMethodsLen ← idx data offset;
  let offset := offset + 1 in
  if len <? offset + compMethodsLen then noHello ver (New "compression_methods exceed data") else
  let offset := offset + compMethodsLen in
  if len <? offset + 2 then noHello ver None else
  extTotalLen ← u16at data offset;
  let offset := offset + 2 in
  if len <? offset + extTotalLen then noHello ver (New "extensions length exceeds data") else
  extensionLoop (S (length data)) data ver offset (offset + extTotalLen) (-1) 0 false false.

Definition parseClientHello (data : bytes) : option helloInfo :=
  d0 ← idx data 0;
  if negb (d0 =? tlsRecordTypeHandshake) then noHello [] (New "not a TLS handshake record") else
  d1 ← idx data 1;
  if negb (d1 =? tlsMajorVersion) then noHello [] (New "not a standard TLS record") else
  recordLen ← u16at data 3;
  if zlen data <? tlsRecordHeaderLen + recordLen
  then noHello [] (New "record length exceeds data size") else
  let offset := tlsRecordHeaderLen in
  if recordLen <? tlsHandshakeHeaderLen then noHello [] (New "handshake message too short") else
  ty ← idx data offset;
  if negb (ty =? tlsHandshakeTypeClientHello)
  then noHello [] (New ("not a ClientHello handshake (type=" ++ itoa ty ++ ")")) else
  h1 ← idx data (offset + 1); h2 ← idx data (offset + 2); h3 ← idx data (offset + 3);
  let handshakeLen := Z.lor (Z.lor (Z.shiftl h1 16) (Z.shiftl h2 8)) h3 in
  if recordLen <? handshakeLen + tlsHandshakeHeaderLen
  then noHello [] (New "handshake length exceeds record length") else
  let offset := offset + tlsHandshakeHeaderLen in
  if handshakeLen <? 2 + 32 + 1
  then noHello [] (New "ClientHello too short for mandatory fields") else
  ver ← slice data offset (offset + 2);
  parseHelloBody data ver (offset + 2 + 32).

(** [bytesHasPrefix]: [None] where [b] is shorter than a prefix it is compared
    with. *)
Fixpoint bytesHasPrefix (b : bytes) (prefixes : list gostring) : option bool :=
  match prefixes with
  | [] => Some false
  | p :: rest =>
      s ← slice b 0 (zlen p);
      if bool_decide (s = p) then Some true else bytesHasPrefix b rest
  end.

(** [sendTLSAlert] writes one record; [prtVer] must have two bytes. *)
Definition tlsAlertLevelFatal : Z := 2.
Definition tlsAlertAccessDenied : Z := 70.
Definition tlsAlertProtocolVersion : Z := 49.

Definition tlsAlertRecord (ver : bytes) (desc level : Z) : option bytes :=
  v0 ← idx ver 0; v1 ← idx ver 1; Some [21; v0; v1; 0; 2; level; desc].

(** ** No panic, and the server name lies within the data *)

Lemma u16at_Some data i : 0 ≤ i → i + 2 ≤ zlen data → ∃ v, u16at data i = Some v.
Proof.
  intros Hi Hl. unfold u16at.
  destruct (slice data i (i + 2)) as [b|] eqn:E; [|apply slice_None in E; lia].
  apply slice_length in E. cbn [mbind option_bind].
  destruct (idx_is_Some b 0 ltac:(lia)) as [h ->], (idx_is_Some b 1 ltac:(lia)) as [l ->]. by eexists.
Qed.

Lemma idx_byte data i b : wf_bytes data → idx data i = Some b → 0 ≤ b < 256.
Proof.
  unfold idx. case_bool; [|done]. intros Hwf E. eapply Forall_lookup_1 in Hwf; [exact Hwf|done].
Qed.

Lemma slice_wf data i j b : wf_bytes data → slice data i j = Some b → wf_bytes b.
Proof. intros Hwf (_&_&_&->)%slice_Some. by apply Forall_take, Forall_drop. Qed.

Lemma be16_nonneg h l : 0 ≤ h → 0 ≤ l → 0 ≤ be16 h l.
Proof. intros. unfold be16. apply Z.lor_nonneg. rewrite Z.shiftl_nonneg. done. Qed.

Lemma u16at_nonneg data i v : wf_bytes data → u16at data i = Some v → 0 ≤ v.
Proof.
  unfold u16at. intros Hwf. destruct (slice data i (i + 2)) as [b|] eqn:E; [|done].
  apply slice_wf in E; [|done]. cbn [mbind option_bind].
  destruct (idx b 0) as [h|] eqn:Eh; [|done]. destruct (idx b 1) as [l|] eqn:El; [|done].
  intros [= <-]. apply idx_byte in Eh, El; [|done..]. apply be16_nonneg; lia.
Qed.

(** Where a result puts the server name: nowhere, or inside the data. *)
Definition nameInside (data : bytes) (h : helloInfo) : Prop :=
  (sniStart h = -1 ∧ sniLen h = 0) ∨
  (tlsRecordHeaderLen < sniStart h ∧ 0 ≤ sniLen h ∧ sniStart h + sniLen h ≤ zlen data).

Lemma sniExtension_ok data st len en s0 :
  wf_bytes data → 5 ≤ st → en = st + len → en ≤ zlen data →
  ∃ r, sniExtension data st len en s0 = Some r ∧
  match r with
  | Ok (p, n) => 5 < p ∧ 0 ≤ n ∧ p + n ≤ zlen data
  | Err _ => True
  | Panic => False
  end.
Proof.
  intros Hwf Hst -> Hen. unfold sniExtension.
  destruct (negb (s0 =? -1)); [by eexists|]. destruct (Z.ltb_spec len 2); [by eexists|].
  destruct (u16at_Some data st ltac:(lia) ltac:(lia)) as [ll ->]. cbn [mbind option_bind].
  destruct (negb (ll + 2 =? len)); [by eexists|].
  destruct (Z.ltb_spec (st + len) (st + 2 + 3)); [by eexists|].
  destruct (idx_is_Some data (st + 2) ltac:(lia)) as [nt ->]. cbn [mbind option_bind].
  destruct (negb (nt =? 0)); [by eexists|].
  destruct (u16at_Some data (st + 2 + 1) ltac:(lia) ltac:(lia)) as [nl Enl]. rewrite Enl.
  apply u16at_nonneg in Enl; [|done]. cbn [mbind option_bind].
  destruct (Z.ltb_spec (st + len) (st + 2 + 3 + nl)); eexists; (split; [done|]); [done|simpl; lia].
Qed.

Lemma extensionLoop_ok fuel data ver off en ss sl ks ech :
  wf_bytes data → 5 ≤ off → en ≤ zlen data → (Z.to_nat (en - off) < fuel)%nat →
  nameInside data (mkHello ver ss sl ks ech None) →
  ∃ h, extensionLoop fuel data ver off en ss sl ks ech = Some h ∧ nameInside data h ∧ prtVer h = ver.
Proof.
  intros Hwf. revert off ss sl ks ech. induction fuel as [|fuel IH]; intros off ss sl ks ech Hoff Hen Hf Hin; [lia|].
  cbn [extensionLoop]. destruct (Z.ltb_spec en (off + 4)); [by eexists|].
  destruct (u16at_Some data off ltac:(lia) ltac:(lia)) as [ty ->]. cbn [mbind option_bind].
  destruct (u16at_Some data (off + 2) ltac:(lia) ltac:(lia)) as [el Eel]. rewrite Eel.
  apply u16at_nonneg in Eel; [|done]. cbn [mbind option_bind].
  destruct (Z.ltb_spec en (off + 4 + el)); [by eexists|].
  destruct (ty =? tlsExtTypeKeyShare); [apply IH; [lia..|done]|].
  destruct (ty =? tlsExtTypeECH); [apply IH; [lia..|done]|].
  destruct (ty =? tlsExtTypeSNI); [|apply IH; [lia..|done]].
  destruct (sniExtension_ok data (off + 4) el (off + 4 + el) ss Hwf ltac:(lia) eq_refl ltac:(lia))
    as (r & -> & Hr). cbn [mbind option_bind].
  destruct r as [[p n]|e|]; [|by eexists|done]. apply IH; [lia..|].
  right. unfold tlsRecordHeaderLen. simpl. lia.
Qed.

Lemma noHello_ok data ver e :
  ∃ h, noHello ver e = Some h ∧ nameInside data h ∧ prtVer h = ver.
Proof. eexists. split; [done|]. split; [by left|done]. Qed.

Lemma parseHelloBody_ok data ver off :
  wf_bytes data → 5 ≤ off →
  ∃ h, parseHelloBody data ver off = Some h ∧ nameInside data h ∧ prtVer h = ver.
Proof.
  intros Hwf Hoff. unfold parseHelloBody. cbv zeta.
  destruct (Z.leb_spec (zlen data) off); [apply noHello_ok|].
  destruct (idx_is_Some data off ltac:(lia)) as [sid Es]. rewrite Es. apply idx_byte in Es; [|done].
  cbn [mbind option_bind]. destruct (Z.ltb_spec (zlen data) (off + 1 + sid)); [apply noHello_ok|].
  set (o1 := off + 1 + sid) in *. destruct (Z.ltb_spec (zlen data) (o1 + 2)); [apply noHello_ok|].
  destruct (u16at_Some data o1 ltac:(lia) ltac:(lia)) as [cs Ec]. rewrite Ec. apply u16at_nonneg in Ec; [|done].
  cbn [mbind option_bind]. destruct (Z.ltb_spec (zlen data) (o1 + 2 + cs)); [apply noHello_ok|].
  set (o2 := o1 + 2 + cs) in *. destruct (Z.leb_spec (zlen data) o2); [apply noHello_ok|].
  destruct (idx_is_Some data o2 ltac:(lia)) as [cm Em]. rewrite Em. apply idx_byte in Em; [|done].
  cbn [mbind option_bind]. destruct (Z.ltb_spec (zlen data) (o2 + 1 + cm)); [apply noHello_ok|].
  set (o3 := o2 + 1 + cm) in *. destruct (Z.ltb_spec (zlen data) (o3 + 2)); [apply noHello_ok|].
  destruct (u16at_Some data o3 ltac:(lia) ltac:(lia)) as [ex Ee]. rewrite Ee. apply u16at_nonneg in Ee; [|done].
  cbn [mbind option_bind]. destruct (Z.ltb_spec (zlen data) (o3 + 2 + ex)); [apply noHello_ok|].
  apply extensionLoop_ok; [done|lia|lia| |by left]. unfold zlen in *. lia.
Qed.

(** On any record with its header the parser returns; a hello it accepts has its
    mandatory fields. *)
Lemma parseClientHello_sound (data : bytes) :
  wf_bytes data → 5 ≤ zlen data →
  ∃ h, parseClientHello data = Some h ∧ nameInside data h ∧
       (helloErr h = None → zlen (prtVer h) = 2 ∧ 44 ≤ zlen data).
Proof.
  intros Hwf Hlen. unfold parseClientHello, tlsRecordHeaderLen, tlsHandshakeHeaderLen.
  assert (∀ e, ∃ h, noHello [] (New e) = Some h ∧ nameInside data h ∧
    (helloErr h = None → zlen (prtVer h) = 2 ∧ 44 ≤ zlen data)) as Hno.
  { intros e. eexists. split; [done|]. split; [by left|done]. }
  destruct (idx_is_Some data 0 ltac:(lia)) as [d0 ->]. cbn [mbind option_bind].
  destruct (negb (d0 =? tlsRecordTypeHandshake)); [apply Hno|].
  destruct (idx_is_Some data 1 ltac:(lia)) as [d1 ->]. cbn [mbind option_bind].
  destruct (negb (d1 =? tlsMajorVersion)); [apply Hno|].
  destruct (u16at_Some data 3 ltac:(lia) ltac:(lia)) as [rl ->]. cbn [mbind option_bind].
  destruct (Z.ltb_spec (zlen data) (5 + rl)); [apply Hno|]. cbv zeta.
  destruct (Z.ltb_spec rl 4); [apply Hno|].
  destruct (idx_is_Some data 5 ltac:(lia)) as [ty ->]. cbn [mbind option_bind].
  destruct (negb (ty =? tlsHandshakeTypeClientHello)); [apply Hno|].
  destruct (idx_is_Some data (5 + 1) ltac:(lia)) as [h1 ->]. cbn [mbind option_bind].
  destruct (idx_is_Some data (5 + 2) ltac:(lia)) as [h2 ->]. cbn [mbind option_bind].
  destruct (idx_is_Some data (5 + 3) ltac:(lia)) as [h3 ->]. cbn [mbind option_bind].
  set (hl := Z.lor _ h3). destruct (Z.ltb_spec rl (hl + 4)); [apply Hno|].
  destruct (Z.ltb_spec hl (2 + 32 + 1)); [apply Hno|].
  destruct (slice data (5 + 4) (5 + 4 + 2)) as [ver|] eqn:Ev; [|apply slice_None in Ev; lia].
  apply slice_length in Ev. cbn [mbind option_bind].
  destruct (parseHelloBody_ok data ver (5 + 4 + 2 + 32) Hwf ltac:(lia)) as (h & -> & Hin & Hver).
  exists h. split_and!; [done|done|]. intros _. rewrite Hver. lia.
Qed.

(** C40: on any record with its five header bytes the parser does not panic, and
    the server name it reports lies inside the data (a start of [-1] stands for
    none). *)
Theorem parseClientHello_safe (data : bytes) :
  wf_bytes data → 5 ≤ zlen data →
  ∃ h, parseClientHello data = Some h ∧ nameInside data h ∧
       (helloErr h = None → zlen (prtVer h) = 2).
Proof.
  intros Hwf Hl. destruct (parseClientHello_sound data Hwf Hl) as (h & E & Hin & Hv).
  exists h. split_and!; [done|done|]. by intros [? _]%Hv.
Qed.

Lemma parseClientHello_safe_witness :
  wf_bytes [22; 3; 1; 0; 4; 1; 0; 0; 0] ∧ 5 ≤ zlen [22; 3; 1; 0; 4; 1; 0; 0; 0] ∧
  ∃ h, parseClientHello [22; 3; 1; 0; 4; 1; 0; 0; 0] = Some h ∧ nameInside [22; 3; 1; 0; 4; 1; 0; 0; 0] h ∧
       (helloErr h = None → zlen (prtVer h) = 2).
Proof.
  assert (wf_bytes [22; 3; 1; 0; 4; 1; 0; 0; 0]) as Hwf by by_decide.
  split; [exact Hwf|]. split; [unfold zlen; simpl; lia|].
  apply (parseClientHello_safe [22; 3; 1; 0; 4; 1; 0; 0; 0] Hwf). unfold zlen. simpl. lia.
Defined.

(** ** The record format as an encoder *)

Definition put_be24 (x : Z) : bytes := [u8 (Z.shiftr x 16); u8 (Z.shiftr x 8); u8 x].

Record clientHello := mkClientHello {
  ch_minor : Z;
  ch_version : bytes;
  ch_random : bytes;
  ch_session : bytes;
  ch_ciphers : bytes;
  ch_compression : bytes;
  ch_extensions : list (Z * bytes);
}.

Definition encodeExtensions (es : list (Z * bytes)) : bytes :=
  concat ((λ e, put_be16 e.1 ++ put_be16 (zlen e.2) ++ e.2) <$> es).

Definition sniData (name : bytes) : bytes :=
  put_be16 (zlen name + 3) ++ [0] ++ put_be16 (zlen name) ++ name.

Definition helloBody (c : clientHello) : bytes :=
  ch_version c ++ ch_random c ++ [zlen (ch_session c)] ++ ch_session c ++
  put_be16 (zlen (ch_ciphers c)) ++ ch_ciphers c ++
  [zlen (ch_compression c)] ++ ch_compression c ++
  put_be16 (zlen (encodeExtensions (ch_extensions c))) ++ encodeExtensions (ch_extensions c).

Definition encodeHello (c : clientHello) : bytes :=
  [22; 3; ch_minor c] ++ put_be16 (4 + zlen (helloBody c)) ++
  [1] ++ put_be24 (zlen (helloBody c)) ++ helloBody c.

(** The fields fit their length prefixes. *)
Definition helloFits (c : clientHello) : Prop :=
  zlen (ch_version c) = 2 ∧ zlen (ch_random c) = 32 ∧ 4 + zlen (helloBody c) < 2 ^ 16 ∧
  zlen (ch_session c) < 2 ^ 8 ∧ zlen (ch_compression c) < 2 ^ 8 ∧
  Forall (λ e, 0 ≤ e.1 < 2 ^ 16) (ch_extensions c).

Definition hasExt (t : Z) (es : list (Z * bytes)) : bool := existsb (λ e, e.1 =? t) es.

Lemma idx_app {A} (pre post : list A) x i : i = zlen pre → idx (pre ++ x :: post) i = Some x.
Proof.
  intros ->. unfold idx, zlen. destruct (Z.leb_spec 0 (Z.of_nat (length pre))); [|lia].
  rewrite Nat2Z.id, lookup_app_r, Nat.sub_diag by lia. done.
Qed.

Lemma u16at_app pre v post i :
  0 ≤ v < 2 ^ 16 → i = zlen pre → u16at (pre ++ put_be16 v ++ post) i = Some v.
Proof.
  intros Hv Hi. unfold u16at.
  rewrite (slice_app pre (put_be16 v) post) by (done || (rewrite Hi; done)).
  unfold put_be16. cbn [mbind option_bind].
  change (idx [?a; ?b] 0) with (Some a). change (idx [?a; ?b] 1) with (Some b).
  cbn [mbind option_bind]. by rewrite be16_put.
Qed.

Lemma u8_of_24 x : 0 ≤ x < 2 ^ 24 →
  Z.lor (Z.lor (Z.shiftl (u8 (Z.shiftr x 16)) 16) (Z.shiftl (u8 (Z.shiftr x 8)) 8)) (u8 x) = x.
Proof.
  intros Hx. pose proof (u8_range x). pose proof (u8_range (Z.shiftr x 8)).
  rewrite (lor_shiftl_add _ (Z.shiftl _ 8)) by (rewrite ?Z.shiftl_mul_pow2 by lia; lia).
  rewrite Z.shiftl_mul_pow2 by lia.
  replace (u8 (Z.shiftr x 16) * 2 ^ 16 + u8 (Z.shiftr x 8) * 2 ^ 8)
    with (Z.shiftl (u8 (Z.shiftr x 16) * 2 ^ 8 + u8 (Z.shiftr x 8)) 8)
    by (rewrite Z.shiftl_mul_pow2 by lia; lia).
  rewrite lor_shiftl_add by lia. unfold u8. rewrite !Z.shiftr_div_pow2 by lia.
  change (2 ^ 16) with 65536. change (2 ^ 8) with 256. change (2 ^ 24) with 16777216 in Hx.
  Z.div_mod_to_equations. lia.
Qed.

Lemma zlen_put16 v : zlen (put_be16 v) = 2.
Proof. done. Qed.

Lemma encodeExtensions_cons e es :
  encodeExtensions (e :: es) = put_be16 e.1 ++ put_be16 (zlen e.2) ++ e.2 ++ encodeExtensions es.
Proof. unfold encodeExtensions. rewrite fmap_cons. cbn [concat]. by rewrite <- !app_assoc. Qed.

Lemma encodeExtensions_app es es' :
  encodeExtensions (es ++ es') = encodeExtensions es ++ encodeExtensions es'.
Proof. unfold encodeExtensions. by rewrite fmap_app, concat_app. Qed.

(** The header of the extension at [off], wherever the data continues. *)
Lemma extension_header pre e post off :
  off = zlen pre → 0 ≤ e.1 < 2 ^ 16 → zlen e.2 < 2 ^ 16 →
  let data := pre ++ put_be16 e.1 ++ put_be16 (zlen e.2) ++ e.2 ++ post in
  u16at data off = Some e.1 ∧ u16at data (off + 2) = Some (zlen e.2).
Proof.
  intros -> Ht Hl data. pose proof (zlen_nonneg e.2). split.
  - by apply u16at_app.
  - unfold data. rewrite (app_assoc pre). apply u16at_app; [lia|]. by rewrite zlen_app.
Qed.

Lemma extensions_fit es : Forall (λ e, zlen e.2 < 2 ^ 16) es ∨ 2 ^ 16 ≤ zlen (encodeExtensions es).
Proof.
  induction es as [|e es IH]; [left; constructor|]. rewrite encodeExtensions_cons, !zlen_app, !zlen_put16.
  pose proof (zlen_nonneg (encodeExtensions es)). pose proof (zlen_nonneg e.2).
  destruct (Z_lt_dec (zlen e.2) (2 ^ 16)) as [Hl|Hl]; [|right; lia].
  destruct IH as [IH|IH]; [left; by constructor|right; lia].
Qed.

(** Extensions other than the server name only set the flags. *)
Lemma extensionLoop_plain es pre post fuel ver off en ss sl ks ech :
  let data := pre ++ encodeExtensions es ++ post in
  off = zlen pre → off + zlen (encodeExtensions es) ≤ en →
  Forall (λ e, 0 ≤ e.1 < 2 ^ 16 ∧ zlen e.2 < 2 ^ 16 ∧ e.1 ≠ tlsExtTypeSNI) es →
  extensionLoop (length es + fuel) data ver off en ss sl ks ech =
  extensionLoop fuel data ver (off + zlen (encodeExtensions es)) en ss sl
    (ks || hasExt tlsExtTypeKeyShare es) (ech || hasExt tlsExtTypeECH es).
Proof.
  revert pre off ks ech. induction es as [|e es IH]; intros pre off ks ech data Hoff Hen Hes.
  - simpl. rewrite !orb_false_r. f_equal. change (zlen (encodeExtensions [])) with 0. lia.
  - apply Forall_cons in Hes as [(Ht & Hl & Hne) Hes]. pose proof (zlen_nonneg e.2).
    assert (data = pre ++ put_be16 e.1 ++ put_be16 (zlen e.2) ++ e.2 ++ (encodeExtensions es ++ post)) as Hd.
    { unfold data. rewrite encodeExtensions_cons. by rewrite <- !app_assoc. }
    assert (zlen (encodeExtensions (e :: es)) = 4 + zlen e.2 + zlen (encodeExtensions es)) as Hz.
    { rewrite encodeExtensions_cons, !zlen_app, !zlen_put16. lia. }
    pose proof (zlen_nonneg (encodeExtensions es)).
    destruct (extension_header pre e (encodeExtensions es ++ post) off Hoff Ht Hl) as [E1 E2].
    rewrite <- Hd in E1, E2. cbn [length Nat.add extensionLoop].
    destruct (Z.ltb_spec en (off + 4)); [lia|]. rewrite E1, E2. cbn [mbind option_bind].
    destruct (Z.ltb_spec en (off + 4 + zlen e.2)); [lia|].
    assert (∀ ks ech, extensionLoop (length es + fuel) data ver (off + 4 + zlen e.2) en ss sl ks ech =
      extensionLoop fuel data ver (off + zlen (encodeExtensions (e :: es))) en ss sl
        (ks || hasExt tlsExtTypeKeyShare es) (ech || hasExt tlsExtTypeECH es)) as IH'.
    { intros ks' ech'. set (pre' := pre ++ put_be16 e.1 ++ put_be16 (zlen e.2) ++ e.2).
      assert (data = pre' ++ encodeExtensions es ++ post) as Hd'.
      { rewrite Hd. unfold pre'. by rewrite <- !app_assoc. }
      assert (zlen pre' = off + 4 + zlen e.2) as Hp'.
      { unfold pre'. rewrite !zlen_app, !zlen_put16. lia. }
      rewrite Hd', (IH pre') by (done || lia). f_equal. lia. }
    unfold hasExt in *. cbn [existsb].
    destruct (Z.eqb_spec e.1 tlsExtTypeKeyShare) as [Ek|Ek].
    { rewrite IH'. destruct (Z.eqb_spec e.1 tlsExtTypeECH) as [Ee|]; [rewrite Ek in Ee; done|].
      by rewrite orb_true_r, !orb_true_l. }
    destruct (Z.eqb_spec e.1 tlsExtTypeECH).
    { rewrite IH'. by rewrite orb_true_r, !orb_true_l. }
    destruct (Z.eqb_spec e.1 tlsExtTypeSNI); [done|]. by rewrite IH'.
Qed.

(** The server name extension. *)
Lemma sniExtension_name pre name post st :
  st = zlen pre → zlen name + 3 < 2 ^ 16 →
  sniExtension (pre ++ sniData name ++ post) st (zlen (sniData name)) (st + zlen (sniData name)) (-1) =
  Some (Ok (st + 5, zlen name)).
Proof.
  intros -> Hn. pose proof (zlen_nonneg name) as H0. unfold sniExtension. cbn [Z.eqb Z.opp negb].
  assert (zlen (sniData name) = 5 + zlen name) as Hz.
  { unfold sniData. rewrite !zlen_app, !zlen_put16. change (zlen [0]) with 1. lia. }
  rewrite Hz. destruct (Z.ltb_spec (5 + zlen name) 2); [lia|]. unfold sniData. rewrite <- !app_assoc.
  rewrite (u16at_app _ _ _ (zlen pre)) by (done || lia). cbn [mbind option_bind].
  destruct (Z.eqb_spec (zlen name + 3 + 2) (5 + zlen name)); [cbn [negb]|lia].
  destruct (Z.ltb_spec (zlen pre + (5 + zlen name)) (zlen pre + 2 + 3)); [lia|].
  rewrite (app_assoc pre). change ([0] ++ ?x) with (0 :: x).
  rewrite idx_app by (rewrite zlen_app, zlen_put16; lia). cbn [mbind option_bind Z.eqb negb].
  change (0 :: ?x) with ([0] ++ x). rewrite (app_assoc _ [0]).
  rewrite u16at_app by (rewrite ?zlen_app, ?zlen_put16; change (zlen [0]) with 1; lia).
  cbn [mbind option_bind]. destruct (Z.ltb_spec (zlen pre + (5 + zlen name)) (zlen pre + 2 + 3 + zlen name)); [lia|].
  do 3 f_equal. lia.
Qed.

Lemma hasExt_app t es es' : hasExt t (es ++ es') = hasExt t es || hasExt t es'.
Proof. apply existsb_app. Qed.

(** The loop over a list of extensions that ends the data, with at most the one
    server name [name]. *)
Lemma extensionLoop_end fuel data ver en ss sl ks ech :
  extensionLoop (S fuel) data ver en en ss sl ks ech = Some (mkHello ver ss sl ks ech None).
Proof. cbn [extensionLoop]. destruct (Z.ltb_spec en (en + 4)); [done|lia]. Qed.

Definition plainExts (es : list (Z * bytes)) : Prop := Forall (λ e, e.1 ≠ tlsExtTypeSNI) es.

Lemma extensionLoop_sni pre es1 name es2 ver off fuel :
  let exts := es1 ++ (tlsExtTypeSNI, sniData name) :: es2 in
  let data := pre ++ encodeExtensions exts in
  off = zlen pre → Forall (λ e, 0 ≤ e.1 < 2 ^ 16) exts → zlen (encodeExtensions exts) < 2 ^ 16 →
  plainExts es1 → plainExts es2 → (length exts < fuel)%nat →
  extensionLoop fuel data ver off (zlen data) (-1) 0 false false =
  Some (mkHello ver (off + zlen (encodeExtensions es1) + 9) (zlen name)
          (hasExt tlsExtTypeKeyShare exts) (hasExt tlsExtTypeECH exts) None).
Proof.
  intros exts data Hoff Ht Hfit Hp1 Hp2 Hfuel.
  assert (Forall (λ e, zlen e.2 < 2 ^ 16) exts) as Hl by (destruct (extensions_fit exts); [done|lia]).
  assert (∀ es, es = es1 ∨ es = es2 →
    Forall (λ e, 0 ≤ e.1 < 2 ^ 16 ∧ zlen e.2 < 2 ^ 16 ∧ e.1 ≠ tlsExtTypeSNI) es) as Hall.
  { intros es Hes. apply Forall_app in Ht as [Ht1 [_ Ht2]%Forall_cons], Hl as [Hl1 [_ Hl2]%Forall_cons].
    unfold plainExts in *. rewrite !Forall_forall in *. destruct Hes as [-> | ->]; intros e He; auto. }
  assert (zlen (sniData name) = zlen name + 5) as Hsni.
  { unfold sniData. rewrite !zlen_app, !zlen_put16. change (zlen [0]) with 1. lia. }
  pose proof (zlen_nonneg name). pose proof (zlen_nonneg (encodeExtensions es1)).
  pose proof (zlen_nonneg (encodeExtensions es2)).
  set (sni := (tlsExtTypeSNI, sniData name)) in *.
  assert (encodeExtensions exts = encodeExtensions es1 ++ encodeExtensions (sni :: es2)) as Henc
    by apply encodeExtensions_app.
  rewrite Henc, encodeExtensions_cons, !zlen_app, !zlen_put16 in Hfit. cbn [snd sni] in Hfit.
  set (o1 := off + zlen (encodeExtensions es1)). set (o2 := o1 + 4 + zlen (sniData name)).
  assert (zlen data = o2 + zlen (encodeExtensions es2)) as Hdl.
  { unfold data. rewrite Henc, encodeExtensions_cons, !zlen_app, !zlen_put16. cbn [snd sni]. lia. }
  replace fuel with (length es1 + (S (length es2 + S (fuel - length exts - 1))))%nat
    by (unfold exts in *; rewrite length_app in *; simpl in *; lia).
  assert (data = pre ++ encodeExtensions es1 ++ encodeExtensions (sni :: es2)) as Hd1 by (unfold data; by rewrite Henc).
  rewrite Hd1 at 1. rewrite extensionLoop_plain by (auto; lia). rewrite <- Hd1. fold o1.
  set (pre1 := pre ++ encodeExtensions es1).
  assert (data = pre1 ++ put_be16 (fst sni) ++ put_be16 (zlen (snd sni)) ++ snd sni ++ encodeExtensions es2) as Hd2.
  { rewrite Hd1, encodeExtensions_cons. unfold pre1. by rewrite <- !app_assoc. }
  assert (o1 = zlen pre1) as Ho1 by (unfold pre1, o1; rewrite zlen_app; lia).
  destruct (extension_header pre1 sni (encodeExtensions es2) o1 Ho1) as [E1 E2]; [done|cbn [snd sni]; lia|].
  rewrite <- Hd2 in E1, E2. cbn [extensionLoop].
  destruct (Z.ltb_spec (zlen data) (o1 + 4)); [lia|]. rewrite E1, E2. cbn [mbind option_bind fst snd sni].
  fold o2. destruct (Z.ltb_spec (zlen data) o2); [lia|].
  change (tlsExtTypeSNI =? tlsExtTypeKeyShare) with false. change (tlsExtTypeSNI =? tlsExtTypeECH) with false.
  rewrite Z.eqb_refl. set (pre2 := pre1 ++ put_be16 tlsExtTypeSNI ++ put_be16 (zlen (sniData name))).
  assert (data = pre2 ++ sniData name ++ encodeExtensions es2) as Hd3.
  { rewrite Hd2. unfold pre2. cbn [fst snd sni]. by rewrite <- !app_assoc. }
  assert (zlen pre2 = o1 + 4) as Hp2l by (unfold pre2; rewrite !zlen_app, !zlen_put16; lia).
  rewrite Hd3 at 1. unfold o2 at 1. rewrite sniExtension_name by lia. cbn [mbind option_bind].
  set (pre3 := pre2 ++ sniData name).
  assert (data = pre3 ++ encodeExtensions es2 ++ []) as Hd4.
  { rewrite Hd3. unfold pre3. by rewrite <- !app_assoc, app_nil_r. }
  assert (o2 = zlen pre3) as Ho3 by (unfold pre3; rewrite zlen_app, Hp2l; done).
  rewrite Hd4 at 1. rewrite extensionLoop_plain by (auto; lia). rewrite <- Hd4. fold o2. rewrite <- Hdl.
  rewrite extensionLoop_end. unfold exts. rewrite !hasExt_app. f_equal. f_equal.
  lia.
Qed.

(** The fixed part in front of the extensions. *)
Definition helloPrefix (c : clientHello) : bytes :=
  ch_version c ++ ch_random c ++ [zlen (ch_session c)] ++ ch_session c ++
  put_be16 (zlen (ch_ciphers c)) ++ ch_ciphers c ++
  [zlen (ch_compression c)] ++ ch_compression c ++
  put_be16 (zlen (encodeExtensions (ch_extensions c))).

Definition helloHeader (c : clientHello) : bytes :=
  [22; 3; ch_minor c] ++ put_be16 (4 + zlen (helloBody c)) ++ [1] ++ put_be24 (zlen (helloBody c)).

Lemma encodeHello_split c :
  encodeHello c = (helloHeader c ++ helloPrefix c) ++ encodeExtensions (ch_extensions c).
Proof.
  unfold encodeHello, helloHeader. rewrite <- !app_assoc. do 4 f_equal.
  unfold helloBody, helloPrefix. by rewrite <- !app_assoc.
Qed.

Lemma helloBody_split c : helloBody c = helloPrefix c ++ encodeExtensions (ch_extensions c).
Proof. unfold helloBody, helloPrefix. by rewrite <- !app_assoc. Qed.

Lemma zlen_single {A} (x : A) : zlen [x] = 1.
Proof. done. Qed.

Lemma zlen_put24 x : zlen (put_be24 x) = 3.
Proof. done. Qed.

(** Reading one byte, or a 16-bit number, behind a known prefix. *)
Lemma idx_at (data pre post : bytes) x i :
  data = pre ++ [x] ++ post → i = zlen pre → idx data i = Some x.
Proof. intros -> ->. by apply idx_app. Qed.

Lemma u16_at (data pre post : bytes) v i :
  data = pre ++ put_be16 v ++ post → 0 ≤ v < 2 ^ 16 → i = zlen pre → u16at data i = Some v.
Proof. intros -> Hv ->. by apply u16at_app. Qed.

Lemma zlen_nil {A} : zlen (@nil A) = 0.
Proof. done. Qed.

Ltac zlen_solve := rewrite ?zlen_app, ?zlen_put16, ?zlen_put24, ?zlen_cons, ?zlen_nil; lia.

(** From the session id on: [pre] is everything up to Random. *)
Lemma parseHelloBody_encode pre c ver off :
  let exts := encodeExtensions (ch_extensions c) in
  let mid := [zlen (ch_session c)] ++ ch_session c ++ put_be16 (zlen (ch_ciphers c)) ++
    ch_ciphers c ++ [zlen (ch_compression c)] ++ ch_compression c ++ put_be16 (zlen exts) in
  let data := pre ++ mid ++ exts in
  off = zlen pre → zlen (ch_ciphers c) < 2 ^ 16 → zlen exts < 2 ^ 16 →
  parseHelloBody data ver off =
  extensionLoop (S (length data)) data ver (zlen (pre ++ mid)) (zlen data) (-1) 0 false false.
Proof.
  intros exts mid data Hoff Hcs Hex.
  set (sid := ch_session c) in *. set (cs := ch_ciphers c) in *. set (cm := ch_compression c) in *.
  pose proof (zlen_nonneg sid). pose proof (zlen_nonneg cs). pose proof (zlen_nonneg cm).
  pose proof (zlen_nonneg exts).
  assert (zlen data = off + 1 + zlen sid + 2 + zlen cs + 1 + zlen cm + 2 + zlen exts) as Hd
    by (unfold data, mid; zlen_solve).
  unfold parseHelloBody. cbv zeta. destruct (Z.leb_spec (zlen data) off); [lia|].
  rewrite (idx_at data pre (sid ++ put_be16 (zlen cs) ++ cs ++ [zlen cm] ++ cm ++ put_be16 (zlen exts) ++ exts) (zlen sid))
    by (unfold data, mid; rewrite <- ?app_assoc; done). cbn [mbind option_bind].
  set (o1 := off + 1 + zlen sid). destruct (Z.ltb_spec (zlen data) o1); [lia|].
  destruct (Z.ltb_spec (zlen data) (o1 + 2)); [lia|].
  rewrite (u16_at data (pre ++ [zlen sid] ++ sid) (cs ++ [zlen cm] ++ cm ++ put_be16 (zlen exts) ++ exts) (zlen cs))
    by (unfold data, mid; rewrite <- ?app_assoc; done || lia || zlen_solve). cbn [mbind option_bind].
  set (o2 := o1 + 2 + zlen cs). destruct (Z.ltb_spec (zlen data) o2); [lia|].
  destruct (Z.leb_spec (zlen data) o2); [lia|].
  rewrite (idx_at data (pre ++ [zlen sid] ++ sid ++ put_be16 (zlen cs) ++ cs) (cm ++ put_be16 (zlen exts) ++ exts) (zlen cm))
    by (unfold data, mid; rewrite <- ?app_assoc; done || zlen_solve). cbn [mbind option_bind].
  set (o3 := o2 + 1 + zlen cm). destruct (Z.ltb_spec (zlen data) o3); [lia|].
  destruct (Z.ltb_spec (zlen data) (o3 + 2)); [lia|].
  rewrite (u16_at data (pre ++ [zlen sid] ++ sid ++ put_be16 (zlen cs) ++ cs ++ [zlen cm] ++ cm) exts (zlen exts))
    by (unfold data, mid; rewrite <- ?app_assoc; done || lia || zlen_solve). cbn [mbind option_bind].
  destruct (Z.ltb_spec (zlen data) (o3 + 2 + zlen exts)); [lia|].
  f_equal; [|lia]. unfold mid. zlen_solve.
Qed.

(** The parser reaches the extensions of an encoded hello. *)
Lemma parse_encodeHello c :
  helloFits c →
  let data := encodeHello c in
  parseClientHello data =
  extensionLoop (S (length data)) data (ch_version c) (zlen (helloHeader c ++ helloPrefix c))
    (zlen data) (-1) 0 false false.
Proof.
  intros (Hv & Hr & Hfit & _ & _ & Ht) data. set (exts := encodeExtensions (ch_extensions c)) in *.
  pose proof (zlen_nonneg (ch_session c)). pose proof (zlen_nonneg (ch_ciphers c)).
  pose proof (zlen_nonneg (ch_compression c)). pose proof (zlen_nonneg exts).
  set (n := zlen (helloBody c)) in *.
  assert (n = 40 + zlen (ch_session c) + zlen (ch_ciphers c) + zlen (ch_compression c) + zlen exts) as Hn
    by (unfold n, helloBody; fold exts; zlen_solve).
  assert (zlen data = 9 + n) as Hd by (unfold data, encodeHello; fold n; zlen_solve).
  set (body := helloBody c) in *.
  assert (data = [22; 3; ch_minor c] ++ put_be16 (4 + n) ++ [1] ++ put_be24 n ++ body) as Hdata by done.
  unfold parseClientHello, tlsRecordHeaderLen, tlsHandshakeHeaderLen.
  rewrite (idx_at data [] ([3; ch_minor c] ++ put_be16 (4 + n) ++ [1] ++ put_be24 n ++ body) 22 0) by done.
  cbn [mbind option_bind]. change (negb (22 =? tlsRecordTypeHandshake)) with false. cbv iota.
  rewrite (idx_at data [22] ([ch_minor c] ++ put_be16 (4 + n) ++ [1] ++ put_be24 n ++ body) 3 1) by done.
  cbn [mbind option_bind]. change (negb (3 =? tlsMajorVersion)) with false. cbv iota.
  rewrite (u16_at data [22; 3; ch_minor c] ([1] ++ put_be24 n ++ body) (4 + n) 3) by (done || lia).
  cbn [mbind option_bind]. destruct (Z.ltb_spec (zlen data) (5 + (4 + n))); [lia|]. cbv zeta.
  destruct (Z.ltb_spec (4 + n) 4); [lia|].
  rewrite (idx_at data ([22; 3; ch_minor c] ++ put_be16 (4 + n)) (put_be24 n ++ body) 1 5) by done.
  cbn [mbind option_bind]. change (negb (1 =? tlsHandshakeTypeClientHello)) with false. cbv iota.
  set (q := [22; 3; ch_minor c] ++ put_be16 (4 + n) ++ [1]).
  rewrite (idx_at data q ([u8 (Z.shiftr n 8); u8 n] ++ body) (u8 (Z.shiftr n 16)) (5 + 1)) by done.
  rewrite (idx_at data (q ++ [u8 (Z.shiftr n 16)]) ([u8 n] ++ body) (u8 (Z.shiftr n 8)) (5 + 2)) by done.
  rewrite (idx_at data (q ++ [u8 (Z.shiftr n 16); u8 (Z.shiftr n 8)]) body (u8 n) (5 + 3)) by done.
  cbn [mbind option_bind]. rewrite u8_of_24 by (change (2 ^ 16) with 65536 in *; lia).
  destruct (Z.ltb_spec (4 + n) (n + 4)); [lia|]. destruct (Z.ltb_spec n (2 + 32 + 1)); [lia|].
  assert (data = helloHeader c ++ ch_version c ++ (ch_random c ++ drop 34 body)) as Hver.
  { rewrite Hdata. unfold helloHeader. fold body n. rewrite <- !app_assoc. do 4 f_equal.
    unfold body, helloBody. rewrite (app_assoc (ch_version c) (ch_random c)).
    rewrite drop_app_ge by (rewrite length_app; unfold zlen in *; lia).
    replace (34 - length (ch_version c ++ ch_random c))%nat with O
      by (rewrite length_app; unfold zlen in *; lia). rewrite drop_0. by rewrite <- !app_assoc. }
  assert (zlen (helloHeader c) = 9) as Hh by done.
  rewrite Hver at 1. rewrite (slice_app (helloHeader c) (ch_version c)) by lia. cbn [mbind option_bind].
  set (pre := helloHeader c ++ ch_version c ++ ch_random c).
  assert (zlen pre = 43) as Hpre by (unfold pre; zlen_solve).
  pose proof (parseHelloBody_encode pre c (ch_version c) (5 + 4 + 2 + 32) ltac:(lia) ltac:(lia)) as Hbody.
  specialize (Hbody ltac:(fold exts; lia)). fold exts in Hbody.
  assert (data = pre ++ ([zlen (ch_session c)] ++ ch_session c ++ put_be16 (zlen (ch_ciphers c)) ++
    ch_ciphers c ++ [zlen (ch_compression c)] ++ ch_compression c ++ put_be16 (zlen exts)) ++ exts) as Hdata'.
  { rewrite Hdata. unfold pre, helloHeader. fold body n. unfold body, helloBody. fold exts.
    by rewrite <- !app_assoc. }
  rewrite <- Hdata' in Hbody. rewrite Hbody. f_equal. unfold pre, helloPrefix. fold exts.
  f_equal. by rewrite <- !app_assoc.
Qed.

(** The parser on an encoded hello whose only server name is [name]. *)
Lemma parse_encodeHello_name (c : clientHello) (es1 es2 : list (Z * bytes)) (name : bytes) :
  helloFits c → ch_extensions c = es1 ++ (tlsExtTypeSNI, sniData name) :: es2 →
  plainExts es1 → plainExts es2 →
  ∃ h, parseClientHello (encodeHello c) = Some h ∧ helloErr h = None ∧
    slice (encodeHello c) (sniStart h) (sniStart h + sniLen h) = Some name ∧
    prtVer h = ch_version c ∧
    hasKeyShare h = hasExt tlsExtTypeKeyShare (ch_extensions c) ∧
    hasECH h = hasExt tlsExtTypeECH (ch_extensions c).
Proof.
  intros Hfits He Hp1 Hp2. pose proof Hfits as (Hv & Hr & Hfit & _ & _ & Ht).
  assert (zlen (encodeExtensions (ch_extensions c)) < 2 ^ 16) as Hex.
  { rewrite helloBody_split, zlen_app in Hfit. pose proof (zlen_nonneg (helloPrefix c)). lia. }
  rewrite parse_encodeHello by done. rewrite !encodeHello_split. rewrite He in *.
  set (pre := helloHeader c ++ helloPrefix c). set (exts := es1 ++ _ :: es2) in *.
  assert (length exts < S (length (pre ++ encodeExtensions exts)))%nat as Hfuel.
  { rewrite length_app. assert (length exts ≤ length (encodeExtensions exts))%nat; [|lia].
    clear. induction exts as [|e es IH]; [done|].
    rewrite encodeExtensions_cons, !length_app. simpl. lia. }
  pose proof (extensionLoop_sni pre es1 name es2 (ch_version c) (zlen pre) _ eq_refl Ht Hex Hp1 Hp2 Hfuel) as Hloop.
  cbv zeta in Hloop. fold exts in Hloop. rewrite Hloop.
  eexists. split; [done|]. cbn [helloErr sniStart sniLen prtVer hasKeyShare hasECH]. split_and!; try done.
  unfold exts. rewrite encodeExtensions_app, encodeExtensions_cons. cbn [fst snd]. unfold sniData at 2.
  rewrite <- !app_assoc.
  set (pre' := pre ++ encodeExtensions es1 ++ put_be16 tlsExtTypeSNI ++ put_be16 (zlen (sniData name)) ++
               put_be16 (zlen name + 3) ++ [0] ++ put_be16 (zlen name)).
  replace (pre ++ _) with (pre' ++ name ++ encodeExtensions es2)
    by (unfold pre'; by rewrite <- !app_assoc).
  apply slice_app; unfold pre'; zlen_solve.
Qed.

(** C6: parsing is the inverse of the record format: in every well-formed
    ClientHello record the parser finds the server name at its place, the
    protocol version, and whether the extensions it looks for are present. *)
Theorem parse_encodeHello_sni (c : clientHello) (es1 es2 : list (Z * bytes)) (name : bytes) :
  helloFits c → ch_extensions c = es1 ++ (tlsExtTypeSNI, sniData name) :: es2 →
  plainExts es1 → plainExts es2 →
  ∃ h, parseClientHello (encodeHello c) = Some h ∧ helloErr h = None ∧
    slice (encodeHello c) (sniStart h) (sniStart h + sniLen h) = Some name ∧
    prtVer h = ch_version c ∧
    hasKeyShare h = hasExt tlsExtTypeKeyShare (ch_extensions c) ∧
    hasECH h = hasExt tlsExtTypeECH (ch_extensions c).
Proof. apply parse_encodeHello_name. Qed.

(** A hello for [example.com] with a key share and an ECH extension of the
    registered type 0xfe0d. *)
Definition demoHello : clientHello :=
  mkClientHello 1 [3; 3] (replicate 32 7) [] [19; 1] [0]
    [(tlsExtTypeSNI, sniData "example.com"); (tlsExtTypeKeyShare, [0; 0]); (65037, [1; 2; 3])].

Lemma parse_encodeHello_sni_witness :
  ∃ h, parseClientHello (encodeHello demoHello) = Some h ∧ helloErr h = None ∧
    slice (encodeHello demoHello) (sniStart h) (sniStart h + sniLen h) = Some (lit "example.com") ∧
    prtVer h = [3; 3] ∧ hasKeyShare h = true ∧ hasECH h = false.
Proof.
  apply (parse_encodeHello_sni demoHello [] [(tlsExtTypeKeyShare, [0; 0]); (65037, [1; 2; 3])] "example.com").
  - unfold helloFits. split_and!; vm_compute; try reflexivity. repeat constructor; discriminate.
  - reflexivity.
  - constructor.
  - repeat constructor; discriminate.
Defined.
