(* ===== verification/Fragment.v ===== *)
(** * Fragmented sending of a ClientHello (core/fragment.go, oob*.go, waitack_linux.go)

    [sendRecords] splits the first record of a TLS connection into several TLS
    records and TCP segments, cutting inside the server name. *)

From S2P Require Import Prelude Errors Conn ClientHello.
Local Open Scope Z_scope.

Definition millisecond : Z := 1000000.

(** ** Out-of-band data and acknowledgements *)

(** [getRawConn] of a connection that has a descriptor. *)
Definition getRawConn : netM unit := with_strM "get raw conn" (perform EvRawConn).

Definition sendWithOOB (data : bytes) (oob : Z) : netM unit :=
  getRawConn;; with_strM "sendto (MSG_OOB)" (perform (EvOOB data oob)).

(** The polling loop of [waitForAck]: a round that finds unacknowledged data
    sleeps ten milliseconds; [None] when the fuel runs out. *)
Fixpoint ackLoop (fuel : nat) (delay : Z) (c : conn) : option (res unit * conn) :=
  match fuel with
  | O => None
  | S fuel' =>
      let '(info, elapsed) := polls c (pollIdx c) in
      let c := mkConn (log c) (oracle c) (polls c) (S (pollIdx c)) in
      match info with
      | Err e => Some (Err e, c)
      | Panic => Some (Panic, c)
      | Ok unacked =>
          if unacked =? 0 then
            if elapsed <=? 20 * millisecond then Some (sleep delay c) else Some (Ok tt, c)
          else if 3000 * millisecond <? elapsed then
            Some (fail "timeout waiting for peer ACK", c)
          else ackLoop fuel' delay (snd (sleep (10 * millisecond) c))
      end
  end.

(** Three seconds in steps of ten milliseconds. *)
Definition ackFuel : nat := 302.

Definition waitForAck (enabled : bool) (delay : Z) : netM unit :=
  if negb enabled then sleep delay else
  with_strM "wait for ACK" getRawConn;;
  with_strM "wait for ack: raw control" (perform EvControl);;
  with_strM "wait for ack: get tcp info" (λ c, default (Panic, c) (ackLoop ackFuel delay c)).

(** ** Splitting *)

Definition findLastDotOrMidPos (data : bytes) (sniStart sniLen : Z) : option Z :=
  if (sniStart <? 0) || (sniLen <=? 0) || (zlen data <? sniStart + sniLen)
  then Some (Z.quot (zlen data) 2)
  else
    name ← slice data sniStart (sniStart + sniLen);
    Some (match last_index_byte name 46 with
          | None => Z.quot sniLen 2 + sniStart
          | Some subIdx => sniStart + Z.of_nat subIdx
          end).

Definition makeRecord (header payload : bytes) : bytes :=
  take 3 header ++ put_be16 (u16 (zlen payload)) ++ payload.

(** [addHeader] of a part: [header] is [None] for nil. *)
Definition withHeader (header : option bytes) (part : bytes) : bytes :=
  match header with
  | Some h => makeRecord h part
  | None => part
  end.

(** The loop of [splitAndAppend]: [n] parts still to cut, [base] bytes each, the
    last one taking the rest. *)
Fixpoint splitLoop (n : nat) (base : nat) (data : bytes) : list bytes :=
  match n with
  | O => []
  | S O => [data]
  | S n' => take base data :: splitLoop n' base (drop base data)
  end.

Definition splitAndAppend (data : bytes) (header : option bytes) (n : Z) (result : list bytes)
    : list bytes :=
  if n <=? 0 then result
  else if (n =? 1) || (zlen data <? n) then result ++ [withHeader header data]
  else
    let base := Z.to_nat (Z.quot (zlen data) n) in
    result ++ (withHeader header <$> splitLoop (Z.to_nat n) base data).

(** ** sendRecords *)

(** A byte that may be unset (type [Byte] of policy.go). *)
Definition Byte := option Z.

(** The packets of a single record, and of the records themselves. *)
Definition sendPackets (oob ack : bool) (interval : Z) (packets : list bytes) : netM unit :=
  forM 0 packets (λ i packet,
    (if (i =? 0) && oob then with_strM "oob" (sendWithOOB packet 0)
     else with_strM ("write packet " ++ itoa (i + 1)) (write packet));;
    waitForAck ack interval).

Definition sendChunks (oob oobex ack : bool) (interval : Z) (chunks : list bytes) : netM unit :=
  forM 0 chunks (λ i chunk,
    (if i =? 0 then
       if oob then with_strM "oob" (sendWithOOB chunk 0)
       else if oobex then
         let l := zlen chunk in
         body ← checkedM (slice chunk 0 (l - 1)); x ← checkedM (idx chunk (l - 1));
         with_strM "oob 1" (sendWithOOB body x)
       else mret tt
     else if (i =? 1) && oobex then with_strM "oob 2" (sendWithOOB chunk 0)
     else with_strM ("write record " ++ itoa (i + 1)) (write chunk));;
    waitForAck ack interval).

(** The [i]-th of [segments] equal slices of the merged records. *)
Definition segmentAt (merged : bytes) (segments i : Z) : option bytes :=
  let base := Z.quot (zlen merged) segments in
  slice merged (i * base) (if i =? segments - 1 then zlen merged else i * base + base).

Definition sendSegments (oob ack : bool) (interval segments : Z) (merged : bytes) : netM unit :=
  forM 0 (seqZ 0 segments) (λ i _,
    seg ← checkedM (segmentAt merged segments i);
    (if (i =? 0) && oob then with_strM "oob" (sendWithOOB seg 0)
     else with_strM ("write segment " ++ itoa (i + 1)) (write seg));;
    waitForAck ack interval).

(** The two urgent sends in front of everything else; returns what is left. *)
Definition sendOOBEx (ack : bool) (interval : Z) (data : bytes) : netM bytes :=
  a ← checkedM (slice data 0 15); x ← checkedM (idx data 15);
  with_strM "oob 1" (sendWithOOB a x);;
  b ← checkedM (slice data 16 35);
  with_strM "oob 2" (sendWithOOB b 0);;
  waitForAck ack interval;;
  checkedM (slice data 35 (zlen data)).

(** [clientHello[2] = minorVersion.Byte()]. *)
Definition patchMinor (clientHello : bytes) (minorVersion : Byte) : bytes :=
  match minorVersion with
  | None => clientHello
  | Some v => <[2%nat := v]> clientHello
  end.

(** [make([]T, 0, cap)] for elements of [size] bytes: the runtime panics when the
    block would be larger than the address space of the 64-bit targets (48 bits)
    or the capacity is negative.  That memory of an admissible size can be had
    is assumed: Go ends the process otherwise. *)
Definition makeslice (size cap : Z) : option unit :=
  if (0 <=? cap) && (size * cap <=? 2 ^ 48) then Some tt else None.

(** The size of a slice header. *)
Definition sliceHeader : Z := 24.

Definition sendRecords (clientHello : bytes) (offset length records segments : Z)
    (minorVersion : Byte) (oob oobex waitForAckEnabled : bool) (interval : Z) : netM unit :=
  let records := if records <? 1 then 1 else records in
  let segments := if segments =? 0 then 1 else if segments <? 0 then -1 else segments in
  if zlen clientHello <? 5 then write clientHello else
  if oobex && (zlen clientHello <? 35) then write clientHello else
  let clientHello := patchMinor clientHello minorVersion in
  if records =? 1 then
    rest ← (if oobex then sendOOBEx waitForAckEnabled interval clientHello else mret clientHello);
    let offset := if oobex then offset - 35 else offset in
    let segments := if segments <? 1 then 1 else segments in
    if segments =? 1 then with_strM "send remaining data" (write rest) else
    let leftSegments := Z.quot segments 2 in
    let rightSegments := segments - leftSegments in
    checkedM (makeslice sliceHeader segments);;
    cut ← checkedM (findLastDotOrMidPos rest offset length);
    l ← checkedM (slice rest 0 cut); r ← checkedM (slice rest cut (zlen rest));
    let packets := splitAndAppend r None rightSegments (splitAndAppend l None leftSegments []) in
    sendPackets oob waitForAckEnabled interval packets
  else
    let leftChunks := Z.quot records 2 in
    let rightChunks := records - leftChunks in
    checkedM (makeslice sliceHeader records);;
    cut ← checkedM (findLastDotOrMidPos clientHello offset length);
    header ← checkedM (slice clientHello 0 3);
    l ← checkedM (slice clientHello tlsRecordHeaderLen cut);
    r ← checkedM (slice clientHello cut (zlen clientHello));
    let chunks := splitAndAppend r (Some header) rightChunks
                    (splitAndAppend l (Some header) leftChunks []) in
    if segments =? -1 then sendChunks oob oobex waitForAckEnabled interval chunks else
    checkedM (makeslice 1 (i64 (records * tlsRecordHeaderLen + zlen clientHello)));;
    let merged := concat chunks in
    rest ← (if oobex then sendOOBEx waitForAckEnabled interval merged else mret merged);
    if (segments =? 1) || (zlen rest <=? segments) then write rest
    else sendSegments oob waitForAckEnabled interval segments rest.

(** ** Splitting loses nothing *)

Lemma splitLoop_concat n base data : (0 < n)%nat → concat (splitLoop n base data) = data.
Proof.
  revert data. induction n as [|[|n] IH]; intros data Hn; [lia|simpl; by rewrite app_nil_r|].
  change (splitLoop (S (S n)) base data) with (take base data :: splitLoop (S n) base (drop base data)).
  cbn [concat]. rewrite IH by lia. apply take_drop.
Qed.

Lemma splitLoop_length n base data : length (splitLoop n base data) = n.
Proof. revert data. induction n as [|[|n] IH]; intros data; [done..|]. simpl in *. by rewrite IH. Qed.

(** The parts [splitAndAppend] cuts. *)
Definition partsOf (data : bytes) (n : Z) : list bytes :=
  if (n =? 1) || (zlen data <? n) then [data]
  else splitLoop (Z.to_nat n) (Z.to_nat (Z.quot (zlen data) n)) data.

Lemma splitAndAppend_parts data header n result :
  0 < n → splitAndAppend data header n result = result ++ (withHeader header <$> partsOf data n).
Proof.
  intros Hn. unfold splitAndAppend, partsOf. destruct (Z.leb_spec n 0); [lia|].
  by destruct ((n =? 1) || (zlen data <? n)).
Qed.

Lemma partsOf_concat data n : 0 < n → concat (partsOf data n) = data.
Proof.
  intros Hn. unfold partsOf. destruct (_ || _); [simpl; by rewrite app_nil_r|].
  apply splitLoop_concat. lia.
Qed.

Lemma partsOf_nonempty data n : 0 < n → partsOf data n ≠ [].
Proof.
  intros Hn. unfold partsOf. destruct (_ || _); [done|]. intros E%(f_equal length).
  rewrite splitLoop_length in E. simpl in E. lia.
Qed.

(** No part is empty unless the data is. *)
Lemma splitLoop_parts n base data :
  (0 < base)%nat → (n * base ≤ length data)%nat → Forall (λ p, p ≠ []) (splitLoop n base data).
Proof.
  intros Hb. revert data. induction n as [|[|n] IH]; intros data Hl; [constructor| |].
  - constructor; [|constructor]. intros ->. simpl in Hl. lia.
  - change (splitLoop (S (S n)) base data) with (take base data :: splitLoop (S n) base (drop base data)).
    constructor.
    + intros E%(f_equal length). rewrite length_take in E. simpl in *. lia.
    + apply IH. rewrite length_drop. simpl in *. lia.
Qed.

Lemma partsOf_parts data n : 0 < n → data ≠ [] → Forall (λ p, p ≠ []) (partsOf data n).
Proof.
  intros Hn Hd. unfold partsOf. destruct (Z.eqb_spec n 1); [by repeat constructor|].
  destruct (Z.ltb_spec (zlen data) n); [by repeat constructor|]. cbn [orb].
  rewrite Z.quot_div_nonneg by lia. pose proof (Z.div_le_lower_bound (zlen data) n 1).
  pose proof (Z.mul_div_le (zlen data) n). apply splitLoop_parts; [lia|]. unfold zlen in *. nia.
Qed.

(** As many parts as asked for when there are bytes for them. *)
Lemma partsOf_length data n : 0 < n → n ≤ zlen data → zlen (partsOf data n) = n.
Proof.
  intros Hn Hl. unfold partsOf. destruct (Z.eqb_spec n 1) as [->|]; [done|].
  destruct (Z.ltb_spec (zlen data) n); [lia|]. simpl. unfold zlen. rewrite splitLoop_length. lia.
Qed.

(** ** The steps on a quiet connection *)

Lemma waitForAck_emits ack d : emits (waitForAck ack d) tt (plain []).
Proof.
  unfold waitForAck, getRawConn. destruct ack; [cbn [negb]|apply emits_sleep].
  assert (∀ ev, ev = EvRawConn ∨ ev = EvControl → emits (perform ev) tt (plain [])) as Hp.
  { intros ev Hev. apply emits_perform. intros k. by destruct Hev as [-> | ->]. }
  repeat first [apply (emits_seq _ _ tt tt [] []); [eauto with lumine|]].
  apply emits_with_str. intros c [Ho Hpo].
  unfold ackFuel. change 302%nat with (S 301). generalize 301%nat as fuel. intros fuel. cbn [ackLoop].
  destruct (Hpo (pollIdx c)) as [t ->]. cbn [Z.eqb]. case_bool.
  - destruct (emits_sleep d (mkConn (log c) (oracle c) (polls c) (S (pollIdx c)))) as (c' & evs & E & Hc');
      [by split|]. exists c', evs. cbn [default from_option]. rewrite E. done.
  - eexists _, []. split; [done|]. split; [by split|]. split; [by rewrite app_nil_r|apply plain_nil].
Qed.

Lemma sendWithOOB_emits data x : emits (sendWithOOB data x) tt (urgent data x).
Proof.
  unfold sendWithOOB, getRawConn. eapply emits_bind.
  - apply emits_with_str, emits_perform. instantiate (1 := plain []). by intros k.
  - apply emits_with_str, emits_perform. instantiate (1 := urgent data x). by intros k.
  - intros e1 e2 H1 H2. exact (plain_urgent [] data x e1 e2 H1 H2).
Qed.

(** A step followed by a wait. *)
Lemma then_wait {K : list event → Prop} (m : netM unit) ack d :
  emits m tt K → (∀ e1 e2, K e1 → plain [] e2 → K (e1 ++ e2)) →
  emits (m;; waitForAck ack d) tt K.
Proof. intros Hm HK. eapply emits_bind; [exact Hm|apply waitForAck_emits|exact HK]. Qed.

Lemma plain_silent b e1 e2 : plain b e1 → plain [] e2 → plain b (e1 ++ e2).
Proof. intros H1 H2. rewrite <- (app_nil_r b). by apply plain_app. Qed.

Lemma urgent_silent b x e1 e2 : urgent b x e1 → plain [] e2 → urgent b x (e1 ++ e2).
Proof.
  intros H1 H2 k. destruct (H1 (e2 ++ k)) as [I1 O1], (H2 k) as [I2 O2].
  rewrite <- !app_assoc, I1, O1, O2, I2. done.
Qed.

Lemma delivers_silent b e1 e2 : delivers b e1 → plain [] e2 → delivers b (e1 ++ e2).
Proof.
  intros H1 H2. destruct (H2 []) as [I2 O2]. rewrite app_nil_r in I2, O2. simpl in I2, O2.
  unfold delivers in *. rewrite inband_app_plain by done. by rewrite I2, H1, app_nil_r.
Qed.

(** A run of plain writes, each followed by a wait. *)
Lemma write_all_emits {A} (l : list A) f (g : A → bytes) i :
  (∀ j x, l !! j = Some x →
     ∃ msg ack d, f (i + Z.of_nat j) x = (with_strM msg (write (g x));; waitForAck ack d)) →
  emits (forM i l f) tt (plain (concat (g <$> l))).
Proof.
  intros Hf. apply emits_forM. intros j x Hj. destruct (Hf j x Hj) as (msg & ack & d & ->).
  apply then_wait; [eauto with lumine|apply plain_silent].
Qed.

Lemma sendPackets_emits oob ack d packets :
  packets ≠ [] → emits (sendPackets oob ack d packets) tt
    (if oob then delivers (concat packets) else plain (concat packets)).
Proof.
  intros Hne. destruct packets as [|p ps]; [done|]. unfold sendPackets. cbn [forM concat].
  assert (∀ i, 0 < i → emits (forM i ps (λ i packet,
    (if (i =? 0) && oob then with_strM "oob" (sendWithOOB packet 0)
     else with_strM ("write packet " ++ itoa (i + 1)) (write packet));; waitForAck ack d)) tt
    (plain (concat ps))) as Hrest.
  { intros i Hi. rewrite <- (list_fmap_id ps) at 2. apply write_all_emits. intros j x Hj.
    destruct (Z.eqb_spec (i + Z.of_nat j) 0); [lia|]. cbn [andb]. by eexists _, ack, d. }
  destruct oob; cbn [Z.eqb andb].
  - eapply emits_bind; [|apply (Hrest 1); lia|].
    + apply then_wait; [apply emits_with_str, sendWithOOB_emits|apply urgent_silent].
    + intros e1 e2 H1 H2. by eapply urgent_plain.
  - apply (emits_seq _ _ tt); [|apply (Hrest 1); lia].
    apply then_wait; [eauto with lumine|apply plain_silent].
Qed.

(** The records themselves, at least two of them and with one of the urgent
    modes; without either the first record is skipped. *)
Lemma sendChunks_emits oob oobex ack d a b cs :
  a ≠ [] → oob && oobex = false →
  emits (sendChunks oob oobex ack d (a :: b :: cs)) tt
    (delivers ((if oob || oobex then a else []) ++ b ++ concat cs)).
Proof.
  intros Ha Hx. unfold sendChunks. cbn [forM].
  match goal with |- emits (_;; _;; forM ?i cs ?f) _ _ => set (F := f) end.
  assert (emits (forM (0 + 1 + 1) cs F) tt (plain (concat cs))) as Hrest.
  { rewrite <- (list_fmap_id cs) at 2. apply write_all_emits. intros j x Hj. unfold F.
    destruct (Z.eqb_spec (0 + 1 + 1 + Z.of_nat j) 0); [lia|].
    destruct (Z.eqb_spec (0 + 1 + 1 + Z.of_nat j) 1); [lia|]. cbn [andb]. by eexists _, ack, d. }
  change (0 + 1 =? 0) with false. change (0 + 1 =? 1) with true. cbn [Z.eqb andb].
  assert (oobex = false →
    emits ((with_strM ("write record " ++ itoa (0 + 1 + 1)) (write b);; waitForAck ack d);;
           forM (0 + 1 + 1) cs F) tt (plain (b ++ concat cs))) as Hplain.
  { intros _. apply (emits_seq _ _ tt); [|exact Hrest].
    apply then_wait; [eauto with lumine|apply plain_silent]. }
  destruct oob, oobex; cbn [orb andb] in *; try done.
  - eapply emits_bind; [|by apply Hplain|].
    + apply then_wait; [apply emits_with_str, sendWithOOB_emits|apply urgent_silent].
    + intros e1 e2 H1 H2. by eapply urgent_plain.
  - pose proof (app_removelast_last 0 Ha) as Hlast.
    set (body := removelast a) in *. set (x := List.last a 0) in *.
    assert (zlen a = zlen body + 1) as Hl by (rewrite Hlast, zlen_app; done).
    pose proof (zlen_nonneg body).
    assert (emits (body0 ← checkedM (slice a 0 (zlen a - 1));
      x0 ← checkedM (idx a (zlen a - 1)); with_strM "oob 1" (sendWithOOB body0 x0)) tt (urgent body x)) as H1.
    { eapply emits_skip; [apply emits_checked|eapply emits_skip; [apply emits_checked| |]|].
      - rewrite Hlast at 1. apply (slice_app [] body [x]); [done|]. rewrite zlen_nil. lia.
      - rewrite Hlast at 1. apply idx_app. lia.
      - apply emits_with_str, sendWithOOB_emits.
      - intros e1 e2. apply (plain_urgent [] body).
      - intros e1 e2. apply (plain_urgent [] body). }
    eapply emits_bind; [apply then_wait; [exact H1|apply urgent_silent]| |].
    + eapply emits_bind; [|exact Hrest|].
      * apply then_wait; [apply emits_with_str, sendWithOOB_emits|apply urgent_silent].
      * instantiate (1 := λ e, ∃ e1 e2, e = e1 ++ e2 ∧ urgent b 0 e1 ∧ plain (concat cs) e2).
        intros e1 e2 ? ?. by exists e1, e2.
    + intros e1 ? H2 (e2 & e3 & -> & H3 & H4). rewrite (app_assoc e1), Hlast.
      pose proof (urgent_urgent _ _ _ _ _ _ H2 H3) as H5.
      replace ((body ++ [x]) ++ b ++ concat cs) with ((body ++ [x] ++ b) ++ concat cs)
        by (by rewrite <- !app_assoc). by eapply urgent_plain.
  - eapply emits_bind; [|by apply Hplain|].
    + apply then_wait; [apply emits_ret|apply plain_silent].
    + intros e1 e2 H1 H2. apply plain_delivers. exact (plain_app [] _ _ _ H1 H2).
Qed.

Lemma sendOOBEx_emits ack d data :
  35 ≤ zlen data →
  emits (sendOOBEx ack d data) (drop 35 data) (urgent (take 35 data) 0).
Proof.
  intros Hl. unfold sendOOBEx.
  destruct (idx_is_Some data 15 ltac:(lia)) as [x Hx].
  assert (take 35 data = take 15 data ++ [x] ++ take 19 (drop 16 data)) as Ht.
  { replace 35%nat with (15 + (1 + 19))%nat by lia. rewrite <- !take_take_drop. do 2 f_equal.
    - unfold idx in Hx. simpl in Hx. apply list_eq. intros [|i].
      + rewrite lookup_take_lt, lookup_drop by lia. exact Hx.
      + by rewrite lookup_take_ge by lia.
    - by rewrite drop_drop. }
  rewrite Ht.
  assert (∀ e1 e2 (b : bytes) y, plain [] e1 → urgent b y e2 → urgent b y (e1 ++ e2)) as Hskip.
  { intros e1 e2 b y. apply (plain_urgent [] b). }
  eapply emits_skip; [apply emits_checked, slice_Some; split_and!; [lia|lia|lia|done]| |by auto].
  eapply emits_skip; [by apply emits_checked| |by auto].
  eapply emits_bind; [apply emits_with_str, sendWithOOB_emits| |].
  - eapply emits_skip; [apply emits_checked, slice_Some; split_and!; [lia|lia|lia|done]| |].
    + eapply emits_bind; [apply emits_with_str, sendWithOOB_emits| |].
      * eapply emits_bind; [apply waitForAck_emits|apply emits_checked, slice_Some| ].
        -- split_and!; [lia|lia|lia|]. rewrite take_ge; [done|]. rewrite length_drop. unfold zlen. lia.
        -- intros e1 e2 H1 H2. exact (plain_app [] [] _ _ H1 H2).
      * intros e1 e2 H1 H2. by apply urgent_silent.
    + intros e1 e2. apply Hskip.
  - intros e1 e2 H1 H2. exact (urgent_urgent _ _ _ _ _ _ H1 H2).
Qed.

Lemma splitLoop_lookup n base data i :
  (i < n)%nat →
  splitLoop n base data !! i =
  Some (if decide (i = n - 1)%nat then drop (i * base) data else take base (drop (i * base) data)).
Proof.
  revert data i. induction n as [|[|n] IH]; intros data i Hi; [lia| |].
  - assert (i = 0)%nat as -> by lia. by rewrite decide_True by lia.
  - change (splitLoop (S (S n)) base data) with (take base data :: splitLoop (S n) base (drop base data)).
    destruct i as [|i].
    + rewrite decide_False by lia. done.
    + cbn [lookup list_lookup]. rewrite IH by lia. rewrite !drop_drop.
      replace (base + i * base)%nat with (S i * base)%nat by lia.
      destruct (decide (i = S n - 1)%nat), (decide (S i = S (S n) - 1)%nat); done || lia.
Qed.

Lemma sendSegments_emits oob ack d n merged :
  1 < n → n < zlen merged →
  emits (sendSegments oob ack d n merged) tt (if oob then delivers merged else plain merged).
Proof.
  intros Hn Hl. unfold sendSegments. set (base := Z.to_nat (Z.quot (zlen merged) n)).
  set (parts := splitLoop (Z.to_nat n) base merged).
  assert (Z.quot (zlen merged) n = Z.of_nat base) as Hbase.
  { unfold base. rewrite Z2Nat.id; [done|]. apply Z.quot_pos; lia. }
  assert (n * Z.of_nat base ≤ zlen merged) as Hmul.
  { rewrite <- Hbase. rewrite Z.quot_div_nonneg by lia. apply Z.mul_div_le. lia. }
  assert (length parts = Z.to_nat n) as Hpl by apply splitLoop_length.
  assert (∀ i, 0 ≤ i < n → segmentAt merged n i = Some (parts !!! Z.to_nat i)) as Hseg.
  { intros i Hi. unfold segmentAt. rewrite Hbase.
    pose proof (splitLoop_lookup (Z.to_nat n) base merged (Z.to_nat i) ltac:(lia)) as Hlk.
    apply list_lookup_total_correct in Hlk. fold parts in Hlk. rewrite Hlk. clear Hlk.
    assert (0 ≤ i * Z.of_nat base ∧ (i + 1) * Z.of_nat base ≤ n * Z.of_nat base) as Hib by nia.
    assert (Z.to_nat (i * Z.of_nat base) = Z.to_nat i * base)%nat as Hidx by lia.
    apply slice_Some. rewrite Hidx. destruct (Z.eqb_spec i (n - 1)).
    - rewrite decide_True by lia. split_and!; [lia|lia|lia|]. rewrite take_ge; [done|].
      rewrite length_drop. unfold zlen in *. lia.
    - rewrite decide_False by lia. split_and!; [lia|lia|nia|]. f_equal. lia. }
  assert (concat parts = merged) as Hcat by (apply splitLoop_concat; lia).
  clearbody parts. destruct parts as [|p0 parts]; [simpl in Hpl; lia|].
  rewrite seqZ_cons by lia. cbn [forM]. simpl in Hpl.
  match goal with |- emits (_;; forM ?i _ ?f) _ _ => set (F := f) end.
  assert (emits (forM (0 + 1) (seqZ (Z.succ 0) (Z.pred n)) F) tt (plain (concat parts))) as Hrest.
  { assert (concat parts = concat ((λ i, (p0 :: parts) !!! Z.to_nat i) <$> seqZ (Z.succ 0) (Z.pred n))) as ->.
    { f_equal. apply list_eq. intros j. rewrite list_lookup_fmap.
      destruct (decide (j < length parts)%nat) as [Hj|Hj].
      - rewrite lookup_seqZ_lt by lia. cbn [fmap option_fmap option_map].
        replace (Z.to_nat (Z.succ 0 + Z.of_nat j)) with (S j) by lia. cbn.
        by apply list_lookup_lookup_total_lt.
      - rewrite lookup_ge_None_2 by lia. by rewrite lookup_seqZ_ge by lia. }
    apply emits_forM. intros j x Hj. apply lookup_seqZ in Hj as [-> Hj]. unfold F.
    eapply emits_skip; [apply emits_checked, Hseg; lia| |].
    - destruct (Z.eqb_spec (0 + 1 + Z.of_nat j) 0); [lia|]. cbn [andb].
      replace (Z.succ 0 + Z.of_nat j) with (0 + 1 + Z.of_nat j) by lia.
      apply then_wait; [eauto with lumine|apply plain_silent].
    - intros e1 e2. apply (plain_app []). }
  change ((p0 :: parts) !!! Z.to_nat 0) with p0 in *. cbn [concat] in Hcat.
  match goal with |- emits ?m _ _ =>
    enough (emits m tt (if oob then delivers (p0 ++ concat parts) else plain (p0 ++ concat parts))) as Hm
      by (by rewrite Hcat in Hm) end.
  destruct oob.
  - apply (emits_bind _ _ tt tt (urgent p0 0) (plain (concat parts))); [|exact Hrest|].
    + eapply emits_skip; [apply emits_checked, (Hseg 0); lia| |intros e1 e2; apply (plain_urgent [] p0)].
      apply then_wait; [apply emits_with_str, sendWithOOB_emits|apply urgent_silent].
    + intros e1 e2 H1 H2. by eapply urgent_plain.
  - apply (emits_seq _ _ tt); [|exact Hrest].
    eapply emits_skip; [apply emits_checked, (Hseg 0); lia| |intros e1 e2; apply (plain_app [] p0)].
    apply then_wait; [apply emits_with_str, emits_write|apply plain_silent].
Qed.

(** ** What the peer receives *)

(** Where the code cuts a hello whose server name is at [sniStart]. *)
Lemma cut_range data st ln :
  0 ≤ st → 0 < ln → st + ln ≤ zlen data →
  ∃ cut, findLastDotOrMidPos data st ln = Some cut ∧ st ≤ cut < st + ln.
Proof.
  intros Hs Hl Hd. unfold findLastDotOrMidPos.
  destruct (Z.ltb_spec st 0), (Z.leb_spec ln 0), (Z.ltb_spec (zlen data) (st + ln)); try lia.
  cbn [orb]. destruct (slice data st (st + ln)) as [name|] eqn:E; [|apply slice_None in E; lia].
  apply slice_length in E. cbn [mbind option_bind]. eexists. split; [done|].
  destruct (last_index_byte name 46) as [j|] eqn:Ej.
  - apply last_index_byte_Some in Ej as (_ & _ & Hj). unfold zlen in E. lia.
  - pose proof (Z.quot_lt ln 2). pose proof (Z.quot_pos ln 2). lia.
Qed.

(** The middle, when there is no name in the data. *)
Lemma cut_mid data st ln :
  st < 0 ∨ ln ≤ 0 ∨ zlen data < st + ln →
  findLastDotOrMidPos data st ln = Some (Z.quot (zlen data) 2).
Proof.
  intros H. unfold findLastDotOrMidPos.
  destruct (Z.ltb_spec st 0), (Z.leb_spec ln 0), (Z.ltb_spec (zlen data) (st + ln)); try done; lia.
Qed.

Lemma cut_any data st ln :
  ∃ cut, findLastDotOrMidPos data st ln = Some cut ∧ 0 ≤ cut ≤ zlen data.
Proof.
  pose proof (zlen_nonneg data).
  destruct (decide (0 ≤ st ∧ 0 < ln ∧ st + ln ≤ zlen data)) as [(?&?&?)|Hn].
  - destruct (cut_range data st ln) as (cut & E & Hc); [done..|]. exists cut. split; [done|lia].
  - rewrite cut_mid by lia. eexists. split; [done|].
    pose proof (Z.quot_pos (zlen data) 2). pose proof (Z.quot_le_upper_bound (zlen data) 2 (zlen data)). lia.
Qed.

Lemma slice_0 {A} (l : list A) j : 0 ≤ j ≤ zlen l → slice l 0 j = Some (take (Z.to_nat j) l).
Proof. intros. apply slice_Some. split_and!; [lia..|]. by rewrite Z.sub_0_r. Qed.

Lemma slice_end {A} (l : list A) i : 0 ≤ i ≤ zlen l → slice l i (zlen l) = Some (drop (Z.to_nat i) l).
Proof.
  intros. apply slice_Some. split_and!; [lia..|]. rewrite take_ge; [done|]. rewrite length_drop.
  unfold zlen in *. lia.
Qed.

Lemma patchMinor_zlen h m : zlen (patchMinor h m) = zlen h.
Proof. destruct m; simpl; [|done]. unfold zlen. by rewrite length_insert. Qed.

(** The blocks [sendRecords] asks for can be had. *)
Definition allocates (hello : bytes) (records segments : Z) : bool :=
  if records <=? 1 then (segments <=? 1) || bool_decide (makeslice sliceHeader segments = Some tt)
  else bool_decide (makeslice sliceHeader records = Some tt) &&
       ((segments <? 0) ||
        bool_decide (makeslice 1 (i64 (records * tlsRecordHeaderLen + zlen hello)) = Some tt)).

Lemma makeslice_cases size cap : makeslice size cap = Some tt ∨ makeslice size cap = None.
Proof. unfold makeslice. case_bool; auto. Qed.

(** Counts and hellos of any realistic size are allocated. *)
Lemma allocates_small hello records segments :
  records ≤ 2 ^ 43 → segments ≤ 2 ^ 43 → zlen hello ≤ 2 ^ 43 → allocates hello records segments = true.
Proof.
  intros Hr Hs Hl. pose proof (zlen_nonneg hello). unfold allocates, makeslice, sliceHeader, tlsRecordHeaderLen.
  assert (1 < records → i64 (records * 5 + zlen hello) = records * 5 + zlen hello) as E.
  { intros ?. unfold i64. rewrite Z.mod_small by lia. lia. }
  destruct (Z.leb_spec records 1).
  - destruct (Z.leb_spec segments 1); [done|]. cbn [orb].
    by destruct (Z.leb_spec 0 segments), (Z.leb_spec (24 * segments) (2 ^ 48)); try lia.
  - rewrite E by lia. destruct (Z.leb_spec 0 records), (Z.leb_spec (24 * records) (2 ^ 48)); try lia.
    destruct (Z.leb_spec 0 (records * 5 + zlen hello)), (Z.leb_spec (1 * (records * 5 + zlen hello)) (2 ^ 48)); try lia.
    by rewrite orb_true_r.
Qed.

(** One record: the hello arrives unchanged but for its minor version. *)
Lemma sendRecords_one hello off ln records segments minor oob oobex ack d :
  35 ≤ zlen hello → records ≤ 1 → oob && oobex = false → allocates hello records segments = true →
  emits (sendRecords hello off ln records segments minor oob oobex ack d) tt
    (delivers (patchMinor hello minor)).
Proof.
  intros Hl Hr Hx Hal. unfold sendRecords.
  destruct (Z.ltb_spec (zlen hello) 5); [lia|]. destruct (Z.ltb_spec (zlen hello) 35); [lia|].
  rewrite andb_false_r. assert ((if records <? 1 then 1 else records) =? 1 = true) as ->
    by (destruct (Z.ltb_spec records 1); [done|apply Z.eqb_eq; lia]).
  set (h := patchMinor hello minor). assert (35 ≤ zlen h) as Hh by (unfold h; by rewrite patchMinor_zlen).
  set (segs := if segments =? 0 then 1 else if segments <? 0 then -1 else segments).
  assert (∀ rest o, emits (let segments := if segs <? 1 then 1 else segs in
    if segments =? 1 then with_strM "send remaining data" (write rest) else
    let leftSegments := Z.quot segments 2 in
    let rightSegments := segments - leftSegments in
    checkedM (makeslice sliceHeader segments);;
    cut ← checkedM (findLastDotOrMidPos rest o ln);
    l ← checkedM (slice rest 0 cut); r ← checkedM (slice rest cut (zlen rest));
    sendPackets oob ack d (splitAndAppend r None rightSegments (splitAndAppend l None leftSegments [])))
    tt (if oob then delivers rest else plain rest)) as Hrest.
  { intros rest o. cbv zeta. set (n := if segs <? 1 then 1 else segs).
    assert (1 ≤ n) as Hn by (unfold n; destruct (Z.ltb_spec segs 1); lia).
    destruct (Z.eqb_spec n 1).
    { eapply emits_weaken; [apply emits_with_str, emits_write|].
      intros evs He. destruct oob; [by apply plain_delivers|done]. }
    assert (makeslice sliceHeader n = Some tt) as Hmk.
    { unfold allocates in Hal. destruct (Z.leb_spec records 1); [|lia].
      destruct (Z.leb_spec segments 1) as [Hs1|Hs1]; cbn [orb] in Hal.
      - exfalso. unfold n, segs in *. clear -n0 Hs1. repeat case_match; lia.
      - assert (n = segments) as -> by (unfold n, segs; repeat case_match; lia).
        by apply bool_decide_eq_true in Hal. }
    destruct (cut_any rest o ln) as (cut & Ec & Hc).
    assert (0 < Z.quot n 2 ∧ 0 < n - Z.quot n 2) as [Hq1 Hq2].
    { rewrite Z.quot_div_nonneg by lia. split; [apply Z.div_str_pos; lia|].
      pose proof (Z.div_lt n 2). lia. }
    assert (∀ e1 e2, plain [] e1 → (if oob then delivers rest else plain rest) e2 →
      (if oob then delivers rest else plain rest) (e1 ++ e2)) as Hsk.
    { intros e1 e2 H1 H2. destruct oob; [|exact (plain_app [] rest e1 e2 H1 H2)].
      unfold delivers in *. destruct (H1 e2) as [-> _]. done. }
    eapply emits_skip; [apply emits_checked, Hmk| |exact Hsk].
    eapply emits_skip; [by apply emits_checked| |exact Hsk].
    eapply emits_skip; [apply emits_checked, slice_0; lia| |exact Hsk].
    eapply emits_skip; [apply emits_checked, slice_end; lia| |exact Hsk].
    rewrite !splitAndAppend_parts by done.
    assert (concat (([] ++ (withHeader None <$> partsOf (take (Z.to_nat cut) rest) (Z.quot n 2))) ++
       (withHeader None <$> partsOf (drop (Z.to_nat cut) rest) (n - Z.quot n 2))) = rest) as Hcat.
    { change (withHeader None) with (λ p : bytes, p). rewrite !list_fmap_id, concat_app. simpl.
      rewrite !partsOf_concat by done. apply take_drop. }
    eapply emits_weaken; [apply sendPackets_emits|].
    - intros [E _]%app_eq_nil. simpl in E. apply fmap_nil_inv in E. by apply partsOf_nonempty in E.
    - intros evs. by rewrite Hcat. }
  destruct oobex.
  - destruct oob; [done|]. eapply emits_bind; [by apply sendOOBEx_emits|apply Hrest|].
    intros e1 e2 H1 H2. rewrite <- (take_drop 35 h). by eapply urgent_plain.
  - eapply emits_bind; [apply emits_ret|apply Hrest|]. intros e1 e2 H1 H2.
    destruct oob.
    + unfold delivers in *. destruct (H1 e2) as [-> _]. done.
    + apply plain_delivers. exact (plain_app [] h e1 e2 H1 H2).
Qed.

Lemma makeRecords_zlen hd ps :
  zlen hd = 3 → zlen (concat (makeRecord hd <$> ps)) = zlen (concat ps) + 5 * zlen ps.
Proof.
  intros Hhd. induction ps as [|p ps IH]; [done|]. rewrite fmap_cons. cbn [concat].
  rewrite !zlen_app, IH, zlen_cons. unfold makeRecord. rewrite !zlen_app, zlen_put16.
  assert (zlen (take 3 hd) = 3) by (rewrite take_ge; [done|unfold zlen in Hhd; lia]). lia.
Qed.

(** Several records: the records carry the hello's body, cut at the same place
    on both sides of the server name. *)
Lemma sendRecords_many hello off ln records segments minor oob oobex ack d :
  35 ≤ zlen hello → 5 < off → 0 < ln → off + ln ≤ zlen hello → 1 < records →
  oob && oobex = false →
  let h := patchMinor hello minor in
  ∃ cut left right, findLastDotOrMidPos h off ln = Some cut ∧ off ≤ cut < off + ln ∧
    left ≠ [] ∧ right ≠ [] ∧ Forall (λ p, p ≠ []) left ∧
    concat left = take (Z.to_nat cut - 5) (drop 5 h) ∧ concat right = drop (Z.to_nat cut) h ∧
    let rs := makeRecord (take 3 h) <$> (left ++ right) in
    allocates hello records segments = true →
    emits (sendRecords hello off ln records segments minor oob oobex ack d) tt
      (delivers (concat (if (segments <? 0) && negb (oob || oobex) then tail rs else rs))).
Proof.
  intros Hl Hoff Hln Hin Hr Hx h. unfold sendRecords.
  destruct (Z.ltb_spec (zlen hello) 5); [lia|]. destruct (Z.ltb_spec (zlen hello) 35); [lia|].
  rewrite andb_false_r. fold h. assert (zlen h = zlen hello) as Hh by apply patchMinor_zlen.
  destruct (Z.ltb_spec records 1); [lia|]. destruct (Z.eqb_spec records 1); [lia|].
  destruct (cut_range h off ln) as (cut & Ec & Hc); [lia..|].
  assert (0 < Z.quot records 2 ∧ 0 < records - Z.quot records 2) as [Hq1 Hq2].
  { rewrite Z.quot_div_nonneg by lia. split; [apply Z.div_str_pos; lia|]. pose proof (Z.div_lt records 2). lia. }
  set (lpart := take (Z.to_nat cut - 5) (drop 5 h)). set (rpart := drop (Z.to_nat cut) h).
  set (left := partsOf lpart (Z.quot records 2)). set (right := partsOf rpart (records - Z.quot records 2)).
  assert (left ≠ [] ∧ right ≠ []) as [Hne1 Hne2] by (split; by apply partsOf_nonempty).
  assert (lpart ≠ []) as Hlp.
  { intros E%(f_equal length). unfold lpart in E. rewrite length_take, length_drop in E. unfold zlen in *. simpl in E. lia. }
  exists cut, left, right. split_and!; [done|lia|lia|done|done|by apply partsOf_parts|by apply partsOf_concat|by apply partsOf_concat|].
  set (rs := makeRecord (take 3 h) <$> (left ++ right)). cbv zeta. intros Hal.
  assert (∀ b e1 e2, plain [] e1 → delivers b e2 → delivers b (e1 ++ e2)) as Hsk.
  { intros b e1 e2 He1 He2. unfold delivers in *. by destruct (He1 e2) as [-> _]. }
  unfold allocates in Hal. destruct (Z.leb_spec records 1); [lia|].
  apply andb_true_iff in Hal as [Hal1%bool_decide_eq_true Hal2].
  eapply emits_skip; [apply emits_checked, Hal1| |apply Hsk].
  eapply emits_skip; [by apply emits_checked| |apply Hsk].
  eapply emits_skip; [apply emits_checked, slice_0; lia| |apply Hsk].
  eapply emits_skip; [apply emits_checked, slice_Some; split_and!; [done|unfold tlsRecordHeaderLen; lia|lia|done]| |apply Hsk].
  eapply emits_skip; [apply emits_checked, slice_end; lia| |apply Hsk].
  rewrite !splitAndAppend_parts by done. unfold tlsRecordHeaderLen.
  replace (Z.to_nat (cut - 5)) with (Z.to_nat cut - 5)%nat by lia. change (Z.to_nat 5) with 5%nat.
  change (Z.to_nat 3) with 3%nat. fold lpart rpart left right.
  change (withHeader (Some (take 3 h))) with (makeRecord (take 3 h)).
  rewrite app_nil_l, <- fmap_app. fold rs.
  assert (zlen (take 3 h) = 3) as Hhd by (unfold zlen in *; rewrite length_take; lia).
  assert (∃ a b cs, rs = a :: b :: cs ∧ a ≠ []) as (a & b & cs & Hrs & Ha).
  { unfold rs. destruct left as [|l0 ls]; [done|]. destruct right as [|r0 rr]; [done|].
    rewrite fmap_app. assert (∀ p, makeRecord (take 3 h) p ≠ []) as Hmk.
    { intros p. unfold makeRecord, put_be16. by destruct (take 3 (take 3 h)). }
    destruct ls as [|l1 ls]; simpl; eexists _, _, _; split; try done; apply Hmk. }
  assert (35 ≤ zlen (concat rs)) as Hcrs.
  { unfold rs. rewrite makeRecords_zlen by done. rewrite concat_app.
    assert (concat left = lpart ∧ concat right = rpart) as [-> ->] by (split; by apply partsOf_concat).
    assert (1 ≤ length left ∧ 1 ≤ length right)%nat by (clear -Hne1 Hne2; destruct left, right; simpl; done || lia).
    unfold lpart, rpart, zlen in *. rewrite !length_app, length_take, !length_drop. lia. }
  set (segs := if segments =? 0 then 1 else if segments <? 0 then -1 else segments).
  destruct (Z.eqb_spec segs (-1)) as [Hs|Hs].
  - assert (segments <? 0 = true) as ->.
    { unfold segs in Hs. destruct (Z.eqb_spec segments 0); [lia|]. by destruct (Z.ltb_spec segments 0); [|lia]. }
    rewrite Hrs. eapply emits_weaken; [by apply sendChunks_emits|]. intros evs He.
    by destruct oob, oobex.
  - assert (segments <? 0 = false) as ->.
    { unfold segs in Hs. destruct (Z.eqb_spec segments 0) as [->|]; [done|]. by destruct (Z.ltb_spec segments 0). }
    assert (1 ≤ segs) as Hsegs.
    { unfold segs in *. destruct (Z.eqb_spec segments 0); [lia|]. destruct (Z.ltb_spec segments 0); lia. }
    cbn [andb]. assert (segments <? 0 = false) as Hsf.
    { unfold segs in Hsegs. destruct (Z.eqb_spec segments 0); [by subst|]. by destruct (Z.ltb_spec segments 0). }
    rewrite Hsf in Hal2. apply bool_decide_eq_true in Hal2. rewrite <- Hh in Hal2.
    eapply emits_skip; [apply emits_checked, Hal2| |apply Hsk].
    set (merged := concat rs) in *.
    assert (∀ rest, emits (if (segs =? 1) || (zlen rest <=? segs) then write rest
      else sendSegments oob ack d segs rest) tt (if oob then delivers rest else plain rest)) as Hrest.
    { intros rest. destruct (Z.eqb_spec segs 1); [|destruct (Z.leb_spec (zlen rest) segs)]; cbn [orb].
      1-2: eapply emits_weaken; [apply emits_write|]; intros evs He; destruct oob; [by apply plain_delivers|done].
      apply sendSegments_emits; lia. }
    destruct oobex.
    + destruct oob; [done|]. eapply emits_bind; [by apply sendOOBEx_emits|apply Hrest|].
      intros e1 e2 He1 He2. rewrite <- (take_drop 35 merged). by eapply urgent_plain.
    + eapply emits_bind; [apply emits_ret|apply Hrest|]. intros e1 e2 He1 He2. destruct oob.
      * by apply Hsk.
      * apply plain_delivers. exact (plain_app [] merged e1 e2 He1 He2).
Qed.

Lemma patch_body h m : (3 ≤ length h)%nat → drop 5 (patchMinor h m) = drop 5 h.
Proof. intros. destruct m; simpl; [|done]. by rewrite drop_insert_lt by lia. Qed.

Lemma cut_join (h : bytes) cut :
  5 ≤ cut ≤ zlen h → take (Z.to_nat cut - 5) (drop 5 h) ++ drop (Z.to_nat cut) h = drop 5 h.
Proof.
  intros Hc. replace (Z.to_nat cut) with (5 + (Z.to_nat cut - 5))%nat at 2 by lia.
  by rewrite <- drop_drop, take_drop.
Qed.

(** [m] panics on every quiet connection. *)
Definition panics {A} (m : netM A) : Prop := ∀ c, quiet c → fst (m c) = Panic.

Lemma panics_checked {A B} (o : option A) (k : A → netM B) : o = None → panics (checkedM o ≫= k).
Proof. by intros -> c _. Qed.

Lemma panics_bind {A B} (m : netM A) (k : A → netM B) a K :
  emits m a K → panics (k a) → panics (m ≫= k).
Proof.
  intros Hm Hk c Hc. destruct (Hm c Hc) as (c' & evs & E & Hc' & _). unfold mbind, netM_bind.
  rewrite E. by apply Hk.
Qed.

(** Counts that ask for too large a block make the sender panic. *)
Lemma sendRecords_panics hello off ln records segments minor oob oobex ack d :
  35 ≤ zlen hello → 5 < off → 0 < ln → off + ln ≤ zlen hello → allocates hello records segments = false →
  panics (sendRecords hello off ln records segments minor oob oobex ack d).
Proof.
  intros Hl Hoff Hln Hin Hal. unfold sendRecords, allocates in *.
  destruct (Z.ltb_spec (zlen hello) 5); [lia|]. destruct (Z.ltb_spec (zlen hello) 35); [lia|].
  rewrite andb_false_r. set (h := patchMinor hello minor).
  assert (zlen h = zlen hello) as Hh by apply patchMinor_zlen. destruct (Z.leb_spec records 1).
  - assert ((if records <? 1 then 1 else records) =? 1 = true) as ->
      by (destruct (Z.ltb_spec records 1); [done|apply Z.eqb_eq; lia]).
    destruct (Z.leb_spec segments 1); [done|]. cbn [orb] in Hal. apply bool_decide_eq_false in Hal.
    destruct (makeslice_cases sliceHeader segments) as [|Hmk]; [done|].
    destruct (Z.eqb_spec segments 0), (Z.ltb_spec segments 0), (Z.ltb_spec segments 1), (Z.eqb_spec segments 1); try lia.
    eapply (panics_bind _ _ (if oobex then drop 35 h else h) (λ _, True)).
    + destruct oobex; (eapply emits_weaken; [|done]); [apply sendOOBEx_emits; lia|apply emits_ret].
    + cbv zeta. by apply panics_checked.
  - destruct (Z.ltb_spec records 1); [lia|]. destruct (Z.eqb_spec records 1); [lia|]. cbv zeta.
    destruct (makeslice_cases sliceHeader records) as [Hmk|Hmk]; rewrite Hmk in *; [|by apply panics_checked].
    rewrite bool_decide_true in Hal by done. cbn [andb] in Hal.
    apply orb_false_iff in Hal as [Hs%Z.ltb_ge Hm%bool_decide_eq_false].
    destruct (makeslice_cases 1 (i64 (records * tlsRecordHeaderLen + zlen hello))) as [|Hm']; [done|].
    destruct (cut_range h off ln) as (cut & Ec & Hc); [lia..|].
    eapply panics_bind; [by apply emits_checked|].
    eapply panics_bind; [apply emits_checked, Ec|].
    eapply panics_bind; [apply emits_checked, slice_0; lia|].
    eapply panics_bind; [apply emits_checked, slice_Some; split_and!; [done|unfold tlsRecordHeaderLen; lia|lia|done]|].
    eapply panics_bind; [apply emits_checked, slice_end; lia|].
    assert ((if segments =? 0 then 1 else if segments <? 0 then -1 else segments) =? -1 = false) as ->.
    { apply Z.eqb_neq. destruct (Z.eqb_spec segments 0), (Z.ltb_spec segments 0); lia. }
    rewrite Hh. by apply panics_checked.
Qed.

Lemma sendRecords_parts hello off ln records segments minor oob oobex ack d :
  35 ≤ zlen hello → 5 < off → 0 < ln → off + ln ≤ zlen hello → oob && oobex = false →
  allocates hello records segments = true →
  records ≤ 1 ∨ 0 ≤ segments ∨ oob || oobex = true →
  ∃ parts, concat parts = drop 5 hello ∧
    emits (sendRecords hello off ln records segments minor oob oobex ack d) tt
      (delivers (if records <=? 1 then patchMinor hello minor
                 else concat (makeRecord (take 3 (patchMinor hello minor)) <$> parts))).
Proof.
  intros Hl Hoff Hln Hin Hx Hal Hcase. destruct (Z.leb_spec records 1) as [Hr|Hr].
  - exists [drop 5 hello]. split; [simpl; by rewrite app_nil_r|]. by apply sendRecords_one.
  - destruct (sendRecords_many hello off ln records segments minor oob oobex ack d)
      as (cut & left & right & _ & Hc & _ & _ & _ & Hleft & Hright & Hem); [lia..|done|]. specialize (Hem Hal).
    exists (left ++ right). split.
    + rewrite concat_app, Hleft, Hright, cut_join by (rewrite patchMinor_zlen; lia).
      apply patch_body. unfold zlen in Hl. lia.
    + assert ((segments <? 0) && negb (oob || oobex) = false) as E.
      { destruct Hcase as [?|[?| ->]]; [lia| |by rewrite andb_false_r].
        destruct (Z.ltb_spec segments 0); [lia|done]. }
      rewrite E in Hem. exact Hem.
Qed.

(** C1: when no call of the network fails, [sendRecords] delivers the whole
    ClientHello in band, only its minor version patched: unchanged when at most
    one record is asked for, and otherwise as TLS records whose payloads, joined,
    are the hello's body.  This holds for every hello of 35 bytes or more whose
    server name lies in its body, every record and segment count for which the
    runtime can make the slices ([allocates]; for any other the sender panics),
    and at most one of the two urgent modes, except several records sent one by
    one (a negative segment count) without an urgent mode, see
    [sendRecords_drops_first]; for both modes at once see
    [both_urgent_modes_stray]. *)
Theorem sendRecords_delivers hello off ln records segments minor oob oobex ack d :
  35 ≤ zlen hello → 5 < off → 0 < ln → off + ln ≤ zlen hello → oob && oobex = false →
  records ≤ 1 ∨ 0 ≤ segments ∨ oob || oobex = true →
  let m := sendRecords hello off ln records segments minor oob oobex ack d in
  if allocates hello records segments then
    ∃ parts, concat parts = drop 5 hello ∧
      emits m tt
        (delivers (if records <=? 1 then patchMinor hello minor
                   else concat (makeRecord (take 3 (patchMinor hello minor)) <$> parts)))
  else panics m.
Proof.
  intros Hl Hoff Hln Hin Hx Hcase m. destruct (allocates hello records segments) eqn:Hal.
  - by apply sendRecords_parts.
  - by apply sendRecords_panics.
Qed.

(** The cut is strictly inside a name of two bytes or more whose last dot is not
    its first byte. *)
Lemma cut_inside data off ln name cut :
  0 ≤ off → 1 < ln → slice data off (off + ln) = Some name → last_index_byte name 46 ≠ Some 0%nat →
  findLastDotOrMidPos data off ln = Some cut → off < cut < off + ln.
Proof.
  intros Hoff Hln Hname Hdot Hcut. apply slice_Some in Hname as Hs. destruct Hs as (_ & _ & Hin & _).
  destruct (cut_range data off ln) as (c & Ec & Hc); [lia..|]. rewrite Hcut in Ec. injection Ec as <-.
  split; [|lia]. unfold findLastDotOrMidPos in Hcut. rewrite Hname in Hcut.
  destruct (Z.ltb_spec off 0), (Z.leb_spec ln 0), (Z.ltb_spec (zlen data) (off + ln)); try lia.
  cbn in Hcut. injection Hcut as <-. destruct (last_index_byte name 46) as [[|j]|]; [done|lia|].
  rewrite Z.quot_div_nonneg by lia. pose proof (Z.div_le_lower_bound ln 2 1). lia.
Qed.

Lemma patch_slice h m i j : 3 ≤ i → slice (patchMinor h m) i j = slice h i j.
Proof.
  intros Hi. destruct m as [v|]; [|done]. unfold slice. simpl patchMinor.
  assert (zlen (<[2%nat:=v]> h) = zlen h) as -> by (unfold zlen; by rewrite length_insert).
  rewrite drop_insert_lt by lia. done.
Qed.

(** A part on either side of the cut does not reach over it. *)
Lemma part_bounds (left right before after : list bytes) p :
  left ++ right = before ++ p :: after →
  zlen (concat before) + zlen p ≤ zlen (concat left) ∨ zlen (concat left) ≤ zlen (concat before).
Proof.
  intros E. destruct (decide (length before < length left)%nat) as [Hlt|Hge].
  - left. apply (f_equal (take (length left))) in E. rewrite take_app_length, take_app_ge in E by lia.
    destruct (length left - length before)%nat as [|k] eqn:Ek; [lia|]. cbn [take] in E. rewrite E.
    rewrite concat_app, zlen_app. cbn [concat]. rewrite zlen_app. pose proof (zlen_nonneg (concat (take k after))). lia.
  - right. apply (f_equal (take (length left))) in E. rewrite take_app_length, take_app_le in E by lia.
    rewrite <- (take_drop (length left) before), <- E, concat_app, zlen_app.
    pose proof (zlen_nonneg (concat (drop (length left) before))). lia.
Qed.

(** C24: with two or more records no single record contains the server name: the
    cut falls strictly inside the name whenever it has at least two bytes and
    its last dot is not its first byte.  (Counts for which the runtime cannot
    make the slices panic and send nothing.) *)
Theorem no_record_contains_name hello off ln name records segments minor oob oobex ack d :
  35 ≤ zlen hello → 5 < off → 1 < ln → slice hello off (off + ln) = Some name →
  last_index_byte name 46 ≠ Some 0%nat → 1 < records → oob && oobex = false →
  0 ≤ segments ∨ oob || oobex = true →
  ∃ parts, concat parts = drop 5 hello ∧
    (if allocates hello records segments then
       emits (sendRecords hello off ln records segments minor oob oobex ack d) tt
         (delivers (concat (makeRecord (take 3 (patchMinor hello minor)) <$> parts)))
     else panics (sendRecords hello off ln records segments minor oob oobex ack d)) ∧
    ∀ before p after, parts = before ++ p :: after →
      let start := 5 + zlen (concat before) in ¬ (start ≤ off ∧ off + ln ≤ start + zlen p).
Proof.
  intros Hl Hoff Hln Hname Hdot Hr Hx Hcase.
  apply slice_Some in Hname as Hsl. destruct Hsl as (_ & _ & Hin & Hnm).
  pose proof (sendRecords_many hello off ln records segments minor oob oobex ack d Hl Hoff ltac:(lia) Hin Hr Hx)
    as (cut & left & right & Hcut & Hc & _ & _ & _ & Hleft & Hright & Hem).
  assert ((segments <? 0) && negb (oob || oobex) = false) as E.
  { destruct Hcase as [?| ->]; [|by rewrite andb_false_r]. destruct (Z.ltb_spec segments 0); [lia|done]. }
  rewrite E in Hem. exists (left ++ right). split.
  { rewrite concat_app, Hleft, Hright, cut_join by (rewrite patchMinor_zlen; lia).
    apply patch_body. unfold zlen in Hl. lia. }
  split; [destruct (allocates _ _ _) eqn:Hal; [by apply Hem|by apply sendRecords_panics; [lia..|]]|].
  rewrite <- (patch_slice hello minor) in Hname by lia.
  assert (0 ≤ off) as Hoff0 by lia. pose proof (cut_inside _ off ln name cut Hoff0 Hln Hname Hdot Hcut) as Hcs.
  intros before p after Hparts start [Hs1 Hs2].
  assert (zlen (concat left) = cut - 5) as Hll.
  { rewrite Hleft. pose proof (patchMinor_zlen hello minor) as Hz. unfold zlen in *.
    rewrite length_take, length_drop. lia. }
  destruct (part_bounds left right before after p Hparts); unfold start in *; lia.
Qed.

(** Several records sent one by one (a negative segment count) without an
    urgent mode: the first record is skipped, so the peer never receives the
    beginning of the hello, although the sender reports success. *)
Theorem sendRecords_drops_first hello off ln records segments minor ack d :
  35 ≤ zlen hello → 5 < off → 0 < ln → off + ln ≤ zlen hello → 1 < records → segments < 0 →
  allocates hello records segments = true →
  ∃ first parts, first ++ concat parts = drop 5 hello ∧ first ≠ [] ∧
    emits (sendRecords hello off ln records segments minor false false ack d) tt
      (delivers (concat (makeRecord (take 3 (patchMinor hello minor)) <$> parts))).
Proof.
  intros Hl Hoff Hln Hin Hr Hs Hal.
  pose proof (sendRecords_many hello off ln records segments minor false false ack d Hl Hoff Hln Hin Hr eq_refl)
    as (cut & left & right & Hcut & Hc & Hne & _ & Hparts & Hleft & Hright & Hem).
  specialize (Hem Hal). destruct (Z.ltb_spec segments 0); [|lia]. cbn [andb negb orb] in Hem.
  destruct left as [|f left]; [done|]. exists f, (left ++ right). split_and!; [| |exact Hem].
  - change (f ++ concat (left ++ right)) with (concat ((f :: left) ++ right)).
    rewrite concat_app, Hleft, Hright, cut_join by (rewrite patchMinor_zlen; lia).
    apply patch_body. unfold zlen in Hl. lia.
  - by apply Forall_cons in Hparts as [? _].
Qed.

(** The demonstration hello; its server name, [example.com], starts at 61. *)
Definition demoRecord : bytes := encodeHello demoHello.

Lemma sendRecords_delivers_witness :
  ∃ parts, concat parts = drop 5 demoRecord ∧
    emits (sendRecords demoRecord 61 11 4 2 (Some 3) false true true (5 * millisecond)) tt
      (delivers (concat (makeRecord [22; 3; 3] <$> parts))).
Proof.
  apply (sendRecords_delivers demoRecord 61 11 4 2 (Some 3) false true true (5 * millisecond));
    try reflexivity; try (vm_compute; discriminate).
  right. left. vm_compute. discriminate.
Defined.

Lemma no_record_contains_name_witness :
  ∃ parts, concat parts = drop 5 demoRecord ∧
    emits (sendRecords demoRecord 61 11 2 1 None true false false 0) tt
      (delivers (concat (makeRecord [22; 3; 1] <$> parts))) ∧
    ∀ before p after, parts = before ++ p :: after →
      let start := 5 + zlen (concat before) in ¬ (start ≤ 61 ∧ 61 + 11 ≤ start + zlen p).
Proof.
  apply (no_record_contains_name demoRecord 61 11 "example.com" 2 1 None true false false 0);
    try reflexivity; try (vm_compute; discriminate).
  right. reflexivity.
Defined.

Lemma sendRecords_drops_first_witness :
  ∃ first parts, first ++ concat parts = drop 5 demoRecord ∧ first ≠ [] ∧
    emits (sendRecords demoRecord 61 11 3 (-1) None false false false 0) tt
      (delivers (concat (makeRecord [22; 3; 1] <$> parts))).
Proof.
  apply (sendRecords_drops_first demoRecord 61 11 3 (-1) None false 0);
    try reflexivity; vm_compute; discriminate.
Defined.

(** With both urgent modes on, a second urgent byte pushes the zero of the first
    into the stream: the peer of four records sent one by one reads a byte more
    than they hold, right after the first record; with the records merged and
    cut into segments it lands after the first 35 bytes. *)
Theorem both_urgent_modes_stray :
  let run segments := inband (sent (snd (sendRecords demoRecord 61 11 4 segments None true true false 0 freshConn))) in
  let good := inband (sent (snd (sendRecords demoRecord 61 11 4 1 None false false false 0 freshConn))) in
  (∃ first rest, good = first ++ rest ∧ run (-1) = first ++ [0] ++ rest) ∧
  run 3 = take 35 good ++ [0] ++ drop 35 good.
Proof.
  split; [|vm_compute; reflexivity].
  exists (take 36 (inband (sent (snd (sendRecords demoRecord 61 11 4 1 None false false false 0 freshConn))))),
    (drop 36 (inband (sent (snd (sendRecords demoRecord 61 11 4 1 None false false false 0 freshConn))))).
  split; vm_compute; reflexivity.
Qed.

(** A count that no slice can hold panics before a byte is sent. *)
Theorem huge_count_panics :
  sendRecords demoRecord 61 11 (2 ^ 44) 1 None false false false 0 freshConn = (Panic, freshConn).
Proof. vm_compute. reflexivity. Qed.

Lemma ackLoop_returns fuel delay c i :
  (∀ k, (k < 302)%nat → Z.of_nat k * (10 * millisecond) ≤ snd (polls c (i + k))) →
  (pollIdx c = i + (302 - fuel))%nat → (0 < fuel ≤ 302)%nat →
  ∃ r, ackLoop fuel delay c = Some r.
Proof.
  revert c. induction fuel as [|fuel IH]; intros c Ht Hi Hf; [lia|]. cbn [ackLoop].
  destruct (polls c (pollIdx c)) as [info elapsed] eqn:Ep.
  destruct info as [u|e|]; [|by eexists..].
  destruct (u =? 0); [destruct (elapsed <=? 20 * millisecond); by eexists|].
  destruct (Z.ltb_spec (3000 * millisecond) elapsed) as [|Hle]; [by eexists|].
  assert (302 - S fuel < 301)%nat as Hk.
  { specialize (Ht (302 - S fuel)%nat ltac:(lia)). rewrite <- Hi, Ep in Ht. simpl in Ht.
    unfold millisecond in *. lia. }
  apply IH; [exact Ht|simpl; lia|lia].
Qed.

(** Waiting for an acknowledgement ends: when each poll comes at least ten
    milliseconds after the one before, the loop returns within its three
    seconds whatever the kernel reports. *)
Theorem ackLoop_terminates delay c :
  (∀ k, (k < 302)%nat → Z.of_nat k * (10 * millisecond) ≤ snd (polls c (pollIdx c + k))) →
  ∃ r c', ackLoop ackFuel delay c = Some (r, c').
Proof.
  intros Ht. destruct (ackLoop_returns ackFuel delay c (pollIdx c) Ht) as [[r c'] E].
  - change (302 - ackFuel)%nat with O. lia.
  - unfold ackFuel. lia.
  - by exists r, c'.
Qed.

Lemma ackLoop_terminates_witness :
  let c := mkConn [] (λ _, None) (λ k, (Ok 1, Z.of_nat k * (10 * millisecond))) 0 in
  ∃ r c', ackLoop ackFuel 5 c = Some (r, c').
Proof. apply ackLoop_terminates. intros k _. simpl. apply Z.le_refl. Defined.
