(* ===== verification/Policy.v ===== *)
(** * Policies (core/policy.go, the DNS modes of core/dns.go)

    A policy says how a connection is made.  Rules of the configuration are
    partial policies; [mergePolicies] combines them by precedence.  The file
    also holds the address rewriting of [transformIP].  Durations are
    nanoseconds. *)

From S2P Require Import Prelude Errors Netip.
Local Open Scope Z_scope.

Definition unsetInt : Z := -1.
Definition unsetString : gostring := [0].

(** ** Enumerations *)

Inductive SniffOverrideMode :=
| SniffOverrideUnset
| SniffOverrideOff
| SniffOverrideAlways
| SniffOverridePolicyExists
| SniffOverrideRouteOnly.

Inductive Mode :=
| ModeUnset
| ModeRaw
| ModeDirect
| ModeTLSRF
| ModeTTLD
| ModeBlock
| ModeTLSAlert.

Definition ModeDefault : Mode := ModeTLSRF.

Inductive DNSMode :=
| DNSModeUnset
| DNSModePreferIPv4
| DNSModePreferIPv6
| DNSModeIPv4Only
| DNSModeIPv6Only.

Definition DNSModeDefault : DNSMode := DNSModePreferIPv4.

Inductive TriBool :=
| BoolUnset
| BoolFalse
| BoolTrue.

#[global] Instance SniffOverrideMode_eq_dec : EqDecision SniffOverrideMode.
Proof. solve_decision. Defined.
#[global] Instance Mode_eq_dec : EqDecision Mode.
Proof. solve_decision. Defined.
#[global] Instance DNSMode_eq_dec : EqDecision DNSMode.
Proof. solve_decision. Defined.
#[global] Instance TriBool_eq_dec : EqDecision TriBool.
Proof. solve_decision. Defined.

Definition IsTrue (b : TriBool) : bool := bool_decide (b = BoolTrue).
Definition IsUnset (b : TriBool) : bool := bool_decide (b = BoolUnset).

(** The [UnmarshalJSON] methods, given the JSON string. *)
Definition unmarshalSniff (s : gostring) : res SniffOverrideMode :=
  if bool_decide (s = lit "off") then Ok SniffOverrideOff
  else if bool_decide (s = lit "always") then Ok SniffOverrideAlways
  else if bool_decide (s = lit "policy_exists") then Ok SniffOverridePolicyExists
  else if bool_decide (s = lit "route_only") then Ok SniffOverrideRouteOnly
  else Err (errorString ("invalid sniff_override: " ++ s)).

Definition unmarshalMode (s : gostring) : res Mode :=
  if bool_decide (s = lit "raw") then Ok ModeRaw
  else if bool_decide (s = lit "direct") then Ok ModeDirect
  else if bool_decide (s = lit "tls-rf") then Ok ModeTLSRF
  else if bool_decide (s = lit "ttl-d") then Ok ModeTTLD
  else if bool_decide (s = lit "block") then Ok ModeBlock
  else if bool_decide (s = lit "tls-alert") then Ok ModeTLSAlert
  else Err (errorString ("invalid mode: " ++ s)).

Definition ModeString (m : Mode) : gostring :=
  match m with
  | ModeRaw => "raw"
  | ModeDirect => "direct"
  | ModeTLSRF => "tls-rf"
  | ModeTTLD => "ttl-d"
  | ModeBlock => "block"
  | ModeTLSAlert => "tls-alert"
  | ModeUnset => "unknown"
  end.

Definition unmarshalDNSMode (s : gostring) : res DNSMode :=
  if bool_decide (s = lit "prefer_ipv4") then Ok DNSModePreferIPv4
  else if bool_decide (s = lit "prefer_ipv6") then Ok DNSModePreferIPv6
  else if bool_decide (s = lit "ipv4_only") then Ok DNSModeIPv4Only
  else if bool_decide (s = lit "ipv6_only") then Ok DNSModeIPv6Only
  else Err (errorString ("invalid dns_mode: " ++ s)).

Definition DNSModeString (m : DNSMode) : gostring :=
  match m with
  | DNSModePreferIPv4 => "prefer_ipv4"
  | DNSModePreferIPv6 => "prefer_ipv6"
  | DNSModeIPv4Only => "ipv4_only"
  | DNSModeIPv6Only => "ipv6_only"
  | DNSModeUnset => "unknown"
  end.

(** [TriBool] is decoded from the raw JSON text. *)
Definition unmarshalTriBool (data : gostring) : res TriBool :=
  if bool_decide (data = lit "false") then Ok BoolFalse
  else if bool_decide (data = lit "true") then Ok BoolTrue
  else Err (errorString ("invalid bool: " ++ data)).

(** ** The policy record *)

Record Policy := mkPolicy {
  pReplyFirst : TriBool;
  pSniffOverrideMode : SniffOverrideMode;
  pDNSMode : DNSMode;
  pDNSCacheTTL : Z;
  pConnectTimeout : Z;
  pHost : gostring;
  pMapTo : gostring;
  pNat64Prefix : gostring;
  pPort : Z;
  pHttpStatus : Z;
  pTLS13Only : TriBool;
  pMode : Mode;
  pNumRecords : Z;
  pNumSegments : Z;
  pWaitForAck : TriBool;
  pOOB : TriBool;
  pOOBEx : TriBool;
  pMinorVer : option Z;
  pSendInterval : Z;
  pFakeTTL : Z;
  pFakeSleep : Z;
  pMaxTTL : Z;
  pAttempts : Z;
  pSingleTimeout : Z;
  pTTLCacheTTL : Z;
}.

#[global] Instance Policy_eq_dec : EqDecision Policy.
Proof. solve_decision. Defined.

(** The Go zero value. *)
Definition zeroPolicy : Policy :=
  mkPolicy BoolUnset SniffOverrideUnset DNSModeUnset 0 0 [] [] [] 0 0 BoolUnset ModeUnset
    0 0 BoolUnset BoolUnset BoolUnset None 0 0 0 0 0 0 0.

(** ** Policy.UnmarshalJSON

    [rawPolicy] is the JSON object: a field is [None] when its key is missing.
    Enumerations are still strings, numbers already fit the Go type the code
    decodes them into. *)

Record rawPolicy := mkRaw {
  rSniffOverrideMode : option gostring;
  rReplyFirst : option gostring;
  rConnectTimeout : option gostring;
  rHost : option gostring;
  rMapTo : option gostring;
  rNat64Prefix : option gostring;
  rPort : option Z;
  rDNSMode : option gostring;
  rDNSCacheTTL : option gostring;
  rHttpStatus : option Z;
  rTLS13Only : option gostring;
  rMode : option gostring;
  rNumRecords : option Z;
  rNumSegments : option Z;
  rWaitForAck : option gostring;
  rOOB : option gostring;
  rOOBEx : option gostring;
  rMinorVer : option Z;
  rSendInterval : option gostring;
  rFakeTTL : option Z;
  rFakeSleep : option gostring;
  rMaxTTL : option Z;
  rAttempts : option Z;
  rSingleTimeout : option gostring;
  rTTLCacheTTL : option gostring;
}.

(** What the JSON decoder guarantees of the numbers. *)
Definition rawInRange (r : rawPolicy) : Prop :=
  let within lo hi (o : option Z) := match o with Some x => lo ≤ x < hi | None => True end in
  within 0 (2 ^ 16) (rPort r) ∧ within 0 (2 ^ 64) (rHttpStatus r) ∧
  within 0 (2 ^ 64) (rNumRecords r) ∧ within (- 2 ^ 63) (2 ^ 63) (rNumSegments r) ∧
  within 0 (2 ^ 8) (rMinorVer r) ∧ within 0 (2 ^ 8) (rFakeTTL r) ∧
  within 0 (2 ^ 8) (rMaxTTL r) ∧ within 0 (2 ^ 64) (rAttempts r).

(** [time.ParseDuration] and [Duration.String] of the standard library. *)
Class GoTime := {
  ParseDuration : gostring → res Z;
  DurationString : Z → gostring;
}.

Definition optional {A} (f : gostring → res A) (unset : A) (o : option gostring) : res A :=
  match o with
  | None => Ok unset
  | Some s => f s
  end.

(** A string that may not be the sentinel. *)
Definition stringField (name : String.string) (o : option gostring) : res gostring :=
  match o with
  | None => Ok unsetString
  | Some s =>
      if bool_decide (s = unsetString) then fail name else Ok s
  end.

Section Unmarshal.
Context `{GoTime}.

(** A duration field: missing gives [unset]; [okay] is the range test, [bad] the
    text of the range error. *)
Definition durationField (name : String.string) (okay : Z → bool) (bad : String.string) (unset : Z)
    (o : option gostring) : res Z :=
  match o with
  | None => Ok unset
  | Some s =>
      match ParseDuration s with
      | Err e => Err (wrapError ("parse " ++ name ++ " " ++ s ++ ": ") e)
      | Panic => Panic
      | Ok d => if okay d then Ok d else Err (errorString (name ++ " " ++ s ++ ": " ++ bad))
      end
  end.

(** A count that may not be zero when given; it is converted to [int]. *)
Definition countField (msg : String.string) (o : option Z) : res Z :=
  match o with
  | None => Ok 0
  | Some x => if x =? 0 then fail msg else Ok (i64 x)
  end.

Definition unmarshalPolicy (tmp : rawPolicy) : res Policy :=
  sniff ← optional unmarshalSniff SniffOverrideUnset (rSniffOverrideMode tmp);
  reply ← optional unmarshalTriBool BoolUnset (rReplyFirst tmp);
  dnsMode ← optional unmarshalDNSMode DNSModeUnset (rDNSMode tmp);
  tls13 ← optional unmarshalTriBool BoolUnset (rTLS13Only tmp);
  mode ← optional unmarshalMode ModeUnset (rMode tmp);
  ack ← optional unmarshalTriBool BoolUnset (rWaitForAck tmp);
  oob ← optional unmarshalTriBool BoolUnset (rOOB tmp);
  oobex ← optional unmarshalTriBool BoolUnset (rOOBEx tmp);
  host ← stringField "host cannot be `\x00`" (rHost tmp);
  mapTo ← stringField "map_to cannot be `\x00`" (rMapTo tmp);
  let nat64 := match rNat64Prefix tmp with
               | None => []
               | Some s =>
                   let prefix := trim_space s in
                   if bool_decide (prefix = unsetString) || bool_decide (prefix = []) ||
                      bool_decide (prefix = lit "off") then [] else prefix
               end in
  let port := default unsetInt (rPort tmp) in
  let httpStatus := match rHttpStatus tmp with None => unsetInt | Some x => i64 x end in
  numRecords ← countField "num_records cannot be 0" (rNumRecords tmp);
  numSegments ← match rNumSegments tmp with
                | None => Ok 0
                | Some x => if x =? 0 then fail "num_segs cannot be 0"
                            else if x <? -1 then fail "num_segs cannot be less than -1"
                            else Ok x
                end;
  let fakeTTL := default unsetInt (rFakeTTL tmp) in
  attempts ← countField "attempts cannot be 0" (rAttempts tmp);
  maxTTL ← match rMaxTTL tmp with
           | None => Ok 0
           | Some x => if x =? 0 then fail "max_ttl cannot be 0" else Ok x
           end;
  connectTimeout ← durationField "connect_timeout" (λ d, 0 <? d) "must be greater than 0"
                     unsetInt (rConnectTimeout tmp);
  sendInterval ← durationField "send_interval" (λ d, 0 <=? d) "outside the valid range"
                   unsetInt (rSendInterval tmp);
  fakeSleep ← durationField "fake_sleep" (λ d, 0 <? d) "must be greater than 0" 0 (rFakeSleep tmp);
  singleTimeout ← durationField "single_timeout" (λ d, 0 <? d) "must be greater than 0"
                    unsetInt (rSingleTimeout tmp);
  dnsCacheTTL ← durationField "dns_cache_ttl" (λ d, 0 <=? d) "must be greater than -1"
                  unsetInt (rDNSCacheTTL tmp);
  ttlCacheTTL ← durationField "ttl_cache_ttl" (λ d, 0 <=? d) "must be greater than -1"
                  unsetInt (rTTLCacheTTL tmp);
  Ok (mkPolicy reply sniff dnsMode dnsCacheTTL connectTimeout host mapTo nat64 port httpStatus tls13
        mode numRecords numSegments ack oob oobex (rMinorVer tmp) sendInterval fakeTTL fakeSleep maxTTL
        attempts singleTimeout ttlCacheTTL).

(** ** Policy.String *)

Definition sayIf (b : bool) (s : gostring) : list gostring := if b then [s] else [].

Definition PolicyString (p : Policy) : gostring :=
  let mode_fields :=
    match pMode p with
    | ModeTLSRF =>
        match pMinorVer p with Some v => [lit "minor_ver=" ++ itoa v] | None => [] end ++
        sayIf (negb (pNumRecords p =? unsetInt) && negb (pNumRecords p =? 1)) ("records=" ++ itoa (pNumRecords p)) ++
        sayIf (negb (pNumSegments p =? unsetInt) && negb (pNumSegments p =? 1)) ("segs=" ++ itoa (pNumSegments p)) ++
        sayIf (0 <? pSendInterval p) ("send_interval=" ++ DurationString (pSendInterval p)) ++
        sayIf (IsTrue (pOOB p)) "oob" ++
        sayIf (IsTrue (pOOBEx p)) "oob_ex"
    | ModeTTLD =>
        (if (pFakeTTL p =? 0) || (pFakeTTL p =? unsetInt) then
           [lit "auto_fake_ttl"] ++
           sayIf (negb (pAttempts p =? 0)) ("attempts=" ++ itoa (pAttempts p)) ++
           sayIf (negb (pMaxTTL p =? 0)) ("max_ttl=" ++ itoa (pMaxTTL p)) ++
           sayIf (negb (pSingleTimeout p =? 0)) ("single_timeout=" ++ DurationString (pSingleTimeout p)) ++
           sayIf (0 <? pTTLCacheTTL p) ("ttl_cache_ttl=" ++ DurationString (pTTLCacheTTL p))
         else [lit "fake_ttl=" ++ itoa (pFakeTTL p)]) ++
        [lit "fake_sleep=" ++ DurationString (pFakeSleep p)]
    | _ => []
    end in
  join_with " " (
    sayIf (negb (bool_decide (pNat64Prefix p = []))) ("nat64=" ++ pNat64Prefix p) ++
    sayIf (negb (pConnectTimeout p =? 0)) ("timeout=" ++ DurationString (pConnectTimeout p)) ++
    sayIf (negb (pPort p =? unsetInt) && negb (pPort p =? 0)) ("port=" ++ itoa (pPort p)) ++
    (if bool_decide (pHost p = []) || bool_decide (pHost p = unsetString) then
       sayIf (negb (bool_decide (pDNSMode p = DNSModeUnset))) (DNSModeString (pDNSMode p)) ++
       sayIf (0 <? pDNSCacheTTL p) ("dns_cache_ttl=" ++ DurationString (pDNSCacheTTL p))
     else []) ++
    sayIf (0 <? pHttpStatus p) ("http_status=" ++ itoa (pHttpStatus p)) ++
    sayIf (IsTrue (pTLS13Only p)) "tls13_only" ++
    [ModeString (pMode p)] ++ mode_fields).

End Unmarshal.

(** ** mergePolicies *)

(** One field: a value still unset takes the rule's value when that is set. *)
Definition pick {A} `{EqDecision A} (unset m p : A) : A :=
  if bool_decide (m = unset) && negb (bool_decide (p = unset)) then p else m.

Definition unsetPolicy : Policy :=
  mkPolicy BoolUnset SniffOverrideUnset DNSModeUnset unsetInt unsetInt unsetString unsetString []
    unsetInt unsetInt BoolUnset ModeUnset 0 0 BoolUnset BoolUnset BoolUnset None unsetInt unsetInt
    0 0 0 unsetInt unsetInt.

Definition mergeStep (m p : Policy) : Policy :=
  mkPolicy
    (pick BoolUnset (pReplyFirst m) (pReplyFirst p))
    (pick SniffOverrideUnset (pSniffOverrideMode m) (pSniffOverrideMode p))
    (pick DNSModeUnset (pDNSMode m) (pDNSMode p))
    (pick unsetInt (pDNSCacheTTL m) (pDNSCacheTTL p))
    (pick unsetInt (pConnectTimeout m) (pConnectTimeout p))
    (pick unsetString (pHost m) (pHost p))
    (pick unsetString (pMapTo m) (pMapTo p))
    (pick [] (pNat64Prefix m) (pNat64Prefix p))
    (pick unsetInt (pPort m) (pPort p))
    (pick unsetInt (pHttpStatus m) (pHttpStatus p))
    (pick BoolUnset (pTLS13Only m) (pTLS13Only p))
    (pick ModeUnset (pMode m) (pMode p))
    (pick 0 (pNumRecords m) (pNumRecords p))
    (pick 0 (pNumSegments m) (pNumSegments p))
    (pick BoolUnset (pWaitForAck m) (pWaitForAck p))
    (pick BoolUnset (pOOB m) (pOOB p))
    (pick BoolUnset (pOOBEx m) (pOOBEx p))
    (pick None (pMinorVer m) (pMinorVer p))
    (pick unsetInt (pSendInterval m) (pSendInterval p))
    (pick unsetInt (pFakeTTL m) (pFakeTTL p))
    (pick 0 (pFakeSleep m) (pFakeSleep p))
    (pick 0 (pMaxTTL m) (pMaxTTL p))
    (pick 0 (pAttempts m) (pAttempts p))
    (pick unsetInt (pSingleTimeout m) (pSingleTimeout p))
    (pick unsetInt (pTTLCacheTTL m) (pTTLCacheTTL p)).

Definition setModes (p : Policy) (mode : Mode) (dns : DNSMode) : Policy :=
  mkPolicy (pReplyFirst p) (pSniffOverrideMode p) dns (pDNSCacheTTL p) (pConnectTimeout p)
    (pHost p) (pMapTo p) (pNat64Prefix p) (pPort p) (pHttpStatus p) (pTLS13Only p) mode
    (pNumRecords p) (pNumSegments p) (pWaitForAck p) (pOOB p) (pOOBEx p) (pMinorVer p)
    (pSendInterval p) (pFakeTTL p) (pFakeSleep p) (pMaxTTL p) (pAttempts p) (pSingleTimeout p)
    (pTTLCacheTTL p).

Definition mergePolicies (policies : list Policy) : Policy :=
  let merged := foldl mergeStep unsetPolicy policies in
  setModes merged
    (if bool_decide (pMode merged = ModeUnset) then ModeDefault else pMode merged)
    (if bool_decide (pDNSMode merged = DNSModeUnset) then DNSModeDefault else pDNSMode merged).

(** ** transformIP *)

(** One byte of the result: from the network, from the address, or mixed where
    the prefix ends inside it; [bitPos] is the byte's first bit. *)
Definition mixByte (bits bitPos netByte ipByte : Z) : Z :=
  if u8 (bitPos + 8) <=? bits then netByte
  else if bits <=? bitPos then ipByte
  else
    let maskBits := u8 (u8 bits - bitPos) in
    let mask := u8 (Z.shiftl 255 (8 - maskBits)) in
    Z.lor (Z.land netByte mask) (Z.land ipByte (255 - mask)).

Definition mixBytes (bits : Z) (netBytes ipBytes : bytes) : bytes :=
  imap (λ i '(n, p), mixByte bits (u8 (Z.of_nat i * 8)) n p) (zip netBytes ipBytes).

Definition transformIP (ipStr targetNetStr : gostring) : res gostring :=
  match ParseAddr ipStr with
  | None => fail "invalid IP"
  | Some ip =>
      match ParsePrefix targetNetStr with
      | None => Err (opError "invalid target network" (sysError 0))
      | Some prefix =>
          if negb (Bool.eqb (Is4 ip) (Is4 (PAddr prefix)))
          then fail "IP version mismatch between source IP and target network"
          else
            let networkAddr := PAddr (Masked prefix) in
            let bits := PBits prefix in
            if Is4 ip
            then Ok (AddrString (AddrFrom4 (mixBytes bits (As4 networkAddr) (As4 ip))))
            else Ok (AddrString (AddrFrom16 (mixBytes bits (As16 networkAddr) (As16 ip))))
      end
  end.

Example transform_examples :
  transformIP "10.1.2.3" "192.168.0.0/20" = Ok (lit "192.168.2.3") ∧
  transformIP "10.1.255.3" "192.168.0.0/20" = Ok (lit "192.168.15.3") ∧
  transformIP "fd00::1:2" "2001:db8::/64" = Ok (lit "2001:db8::1:2").
Proof. vm_compute. done. Qed.

(** ** Precedence: the first rule that sets a field wins *)

Definition firstSet {A} `{EqDecision A} (unset : A) (l : list A) : A :=
  default unset (List.find (λ x, negb (bool_decide (x = unset))) l).

Lemma foldl_pick {A} `{EqDecision A} (unset m : A) l :
  foldl (pick unset) m l = if decide (m = unset) then firstSet unset l else m.
Proof.
  revert m. induction l as [|x l IH]; intros m; simpl.
  - by destruct (decide (m = unset)).
  - rewrite IH. unfold pick, firstSet. simpl.
    destruct (decide (m = unset)) as [->|Hm].
    + rewrite bool_decide_eq_true_2 by done. simpl.
      destruct (decide (x = unset)) as [->|Hx]; [by rewrite bool_decide_eq_true_2, decide_True|].
      by rewrite bool_decide_eq_false_2, decide_False.
    + by rewrite bool_decide_eq_false_2, decide_False.
Qed.

Lemma merge_field {A} `{EqDecision A} (f : Policy → A) unset ps :
  (∀ m p, f (mergeStep m p) = pick unset (f m) (f p)) → f unsetPolicy = unset →
  f (foldl mergeStep unsetPolicy ps) = firstSet unset (f <$> ps).
Proof.
  intros Hstep Hun.
  assert (∀ m, f (foldl mergeStep m ps) = foldl (pick unset) (f m) (f <$> ps)) as ->.
  { induction ps as [|p ps IH]; intros m; simpl; [done|]. by rewrite IH, Hstep. }
  rewrite foldl_pick, Hun. by rewrite decide_True.
Qed.

Definition withDefault {A} `{EqDecision A} (unset dflt x : A) : A := if decide (x = unset) then dflt else x.

(** C14: [mergePolicies] takes every field from the first policy of the list that
    sets it; an unset mode and DNS mode fall back to the program's defaults. *)
Theorem mergePolicies_first_set (ps : list Policy) :
  mergePolicies ps =
  mkPolicy
    (firstSet BoolUnset (pReplyFirst <$> ps))
    (firstSet SniffOverrideUnset (pSniffOverrideMode <$> ps))
    (withDefault DNSModeUnset DNSModePreferIPv4 (firstSet DNSModeUnset (pDNSMode <$> ps)))
    (firstSet unsetInt (pDNSCacheTTL <$> ps))
    (firstSet unsetInt (pConnectTimeout <$> ps))
    (firstSet unsetString (pHost <$> ps))
    (firstSet unsetString (pMapTo <$> ps))
    (firstSet [] (pNat64Prefix <$> ps))
    (firstSet unsetInt (pPort <$> ps))
    (firstSet unsetInt (pHttpStatus <$> ps))
    (firstSet BoolUnset (pTLS13Only <$> ps))
    (withDefault ModeUnset ModeTLSRF (firstSet ModeUnset (pMode <$> ps)))
    (firstSet 0 (pNumRecords <$> ps))
    (firstSet 0 (pNumSegments <$> ps))
    (firstSet BoolUnset (pWaitForAck <$> ps))
    (firstSet BoolUnset (pOOB <$> ps))
    (firstSet BoolUnset (pOOBEx <$> ps))
    (firstSet None (pMinorVer <$> ps))
    (firstSet unsetInt (pSendInterval <$> ps))
    (firstSet unsetInt (pFakeTTL <$> ps))
    (firstSet 0 (pFakeSleep <$> ps))
    (firstSet 0 (pMaxTTL <$> ps))
    (firstSet 0 (pAttempts <$> ps))
    (firstSet unsetInt (pSingleTimeout <$> ps))
    (firstSet unsetInt (pTTLCacheTTL <$> ps)).
Proof.
  unfold mergePolicies, setModes, withDefault. cbv zeta.
  f_equal; try (by apply merge_field).
  - rewrite (merge_field pDNSMode DNSModeUnset) by done.
    by case_bool_decide; destruct (decide _).
  - rewrite (merge_field pMode ModeUnset) by done.
    by case_bool_decide; destruct (decide _).
Qed.

Lemma merge_pMode ps :
  pMode (mergePolicies ps) = withDefault ModeUnset ModeDefault (firstSet ModeUnset (pMode <$> ps)).
Proof.
  rewrite <- (merge_field pMode ModeUnset ps) by done. unfold mergePolicies, setModes, withDefault.
  cbn [pMode]. by case_bool_decide; destruct (decide _).
Qed.

Lemma merge_mode_set ps : pMode (mergePolicies ps) ≠ ModeUnset.
Proof. rewrite merge_pMode. unfold withDefault. by destruct (decide _). Qed.

Lemma merge_mode_head p ps : pMode p ≠ ModeUnset → pMode (mergePolicies (p :: ps)) = pMode p.
Proof.
  intros Hp. rewrite merge_pMode. unfold firstSet, withDefault. rewrite fmap_cons. cbn [List.find].
  rewrite bool_decide_eq_false_2 by done. simpl. by rewrite decide_False.
Qed.

(** ** Validation *)

(** What every policy read from a configuration satisfies. The status and the two
    counts are only known to be of the width of [int]: the code reads them as
    [uint] and converts, so the upper half of the range comes out negative
    ([ConfigJson.huge_count_loads_negative]). *)
Definition policyValid (p : Policy) : Prop :=
  -1 ≤ pPort p < 2 ^ 16 ∧ -1 ≤ pFakeTTL p < 2 ^ 8 ∧ 0 ≤ pMaxTTL p < 2 ^ 8 ∧
  -1 ≤ pNumSegments p < 2 ^ 63 ∧
  - 2 ^ 63 ≤ pHttpStatus p < 2 ^ 63 ∧ - 2 ^ 63 ≤ pNumRecords p < 2 ^ 63 ∧ - 2 ^ 63 ≤ pAttempts p < 2 ^ 63 ∧
  (pConnectTimeout p = unsetInt ∨ 0 < pConnectTimeout p) ∧
  (pSingleTimeout p = unsetInt ∨ 0 < pSingleTimeout p) ∧
  0 ≤ pFakeSleep p ∧ -1 ≤ pSendInterval p ∧ -1 ≤ pDNSCacheTTL p ∧ -1 ≤ pTTLCacheTTL p ∧
  pNat64Prefix p ≠ unsetString ∧
  match pMinorVer p with Some v => 0 ≤ v < 2 ^ 8 | None => True end.

Section UnmarshalFacts.
Context `{GoTime}.

Lemma durationField_ok name okay bad unset o d :
  durationField name okay bad unset o = Ok d → d = unset ∨ okay d = true.
Proof.
  unfold durationField. destruct o as [s|]; [|naive_solver].
  destruct (ParseDuration s); try done. case_bool; [|done]. intros [= <-]. auto.
Qed.

Lemma stringField_unset name o s : stringField name o = Ok s → (s = unsetString ↔ o = None).
Proof.
  unfold stringField. destruct o as [t|]; [case_bool_decide; [done|]|]; intros [= <-]; split; done.
Qed.

Lemma countField_zero msg o n :
  match o with Some x => 0 ≤ x < 2 ^ 64 | None => True end →
  countField msg o = Ok n → (n = 0 ↔ o = None).
Proof.
  unfold countField. destruct o as [x|]; [|naive_solver]. intros Hx. case_bool; [done|].
  intros [= <-]. split; [|done]. unfold i64. intros E.
  assert (x + 2 ^ 63 = 2 ^ 63 + 2 ^ 64 * ((x + 2 ^ 63) / 2 ^ 64)) as Hdiv by (Z.div_mod_to_equations; lia).
  assert (x = 2 ^ 64 * ((x + 2 ^ 63) / 2 ^ 64)) as Hx' by lia. nia.
Qed.

Lemma i64_range x : - 2 ^ 63 ≤ i64 x < 2 ^ 63.
Proof. unfold i64. pose proof (Z.mod_pos_bound (x + 2 ^ 63) (2 ^ 64)). lia. Qed.

Lemma countField_range msg o n : countField msg o = Ok n → - 2 ^ 63 ≤ n < 2 ^ 63.
Proof.
  unfold countField. destruct o as [x|]; [case_bool; [done|]|]; intros [= <-]; [apply i64_range|lia].
Qed.

(** A policy that decodes is within range, and its sentinels stand for
    missing keys only: the host is unset exactly when the key is missing, and a
    record count is zero exactly when it is missing. *)
Lemma unmarshalPolicy_valid (raw : rawPolicy) (p : Policy) :
  rawInRange raw → unmarshalPolicy raw = Ok p →
  policyValid p ∧ (pHost p = unsetString ↔ rHost raw = None) ∧
  (pMapTo p = unsetString ↔ rMapTo raw = None) ∧
  (pNumRecords p = 0 ↔ rNumRecords raw = None) ∧ (pAttempts p = 0 ↔ rAttempts raw = None).
Proof.
  intros Hr. unfold rawInRange in Hr. cbv zeta beta in Hr.
  destruct Hr as (Hport & Hstat & Hrec & Hseg & Hmin & Hfake & Hmax & Hatt).
  unfold unmarshalPolicy. cbv zeta. intros E.
  apply bind_Ok in E as (sniff & _ & E). apply bind_Ok in E as (reply & _ & E).
  apply bind_Ok in E as (dnsm & _ & E). apply bind_Ok in E as (tls13 & _ & E).
  apply bind_Ok in E as (mode & _ & E). apply bind_Ok in E as (ack & _ & E).
  apply bind_Ok in E as (oob & _ & E). apply bind_Ok in E as (oobex & _ & E).
  apply bind_Ok in E as (host & Ehost & E). apply bind_Ok in E as (mapto & Emap & E).
  apply bind_Ok in E as (nr & Enr & E). apply bind_Ok in E as (ns & Ens & E).
  apply bind_Ok in E as (att & Eatt & E). apply bind_Ok in E as (mttl & Emttl & E).
  apply bind_Ok in E as (ct & Ect & E). apply bind_Ok in E as (si & Esi & E).
  apply bind_Ok in E as (fs & Efs & E). apply bind_Ok in E as (st & Est & E).
  apply bind_Ok in E as (dc & Edc & E). apply bind_Ok in E as (tc & Etc & E).
  injection E as <-.
  apply durationField_ok in Ect, Esi, Efs, Est, Edc, Etc. apply stringField_unset in Ehost, Emap.
  pose proof (countField_range _ _ _ Enr). pose proof (countField_range _ _ _ Eatt).
  apply countField_zero in Enr, Eatt; [|done..]. unfold policyValid. simpl.
  rewrite ?Z.ltb_lt, ?Z.leb_le in *. unfold unsetInt in *.
  assert (- 2 ^ 63 ≤ match rHttpStatus raw with None => -1 | Some x => i64 x end < 2 ^ 63) as Hst'.
  { destruct (rHttpStatus raw); [apply i64_range|lia]. }
  assert (-1 ≤ ns < 2 ^ 63) as Hns.
  { destruct (rNumSegments raw) as [x|]; [|injection Ens as <-; lia].
    destruct (x =? 0); [done|]. destruct (Z.ltb_spec x (-1)); [done|]. injection Ens as <-. lia. }
  assert (0 ≤ mttl < 2 ^ 8) as Hmt.
  { destruct (rMaxTTL raw) as [x|]; [|injection Emttl as <-; lia].
    destruct (x =? 0); [done|]. by injection Emttl as <-. }
  assert (∀ o hi, match o with Some x => 0 ≤ x < hi | None => True end →
    0 < hi → -1 ≤ default (-1) o < hi) as Hdef by (intros [x|] hi; simpl; lia).
  pose proof (Hdef _ _ Hport ltac:(lia)). pose proof (Hdef _ _ Hfake ltac:(lia)).
  split_and!; try assumption; try lia.
  destruct (rNat64Prefix raw) as [t|]; [|done].
  destruct (decide (trim_space t = unsetString)) as [->|Hne].
  - by rewrite bool_decide_eq_true_2.
  - destruct (_ || _); done.
Qed.

End UnmarshalFacts.

Definition goTimeNone : GoTime := {| ParseDuration := λ _, Ok 5; DurationString := λ _, [] |}.

(** ** Address rewriting, bit by bit *)

Lemma be_value_testbit l j :
  wf_bytes l → 0 ≤ j →
  Z.testbit (be_value l) j =
  if j <? 8 * zlen l then Z.testbit (l !!! (length l - 1 - Z.to_nat (j / 8))%nat) (j mod 8) else false.
Proof.
  revert j. induction l as [|x l IH] using rev_ind; intros j Hwf Hj.
  - change (be_value []) with 0. rewrite Z.testbit_0_l. destruct (Z.ltb_spec j (8 * zlen (@nil Z))); [|done].
    change (zlen (@nil Z)) with 0 in *. lia.
  - apply Forall_app in Hwf as [Hl Hx]. rewrite Forall_singleton in Hx. unfold is_byte in Hx.
    rewrite be_value_snoc. change 256 with (2 ^ 8). rewrite <- lor_shiftl_add by lia.
    rewrite Z.lor_spec, zlen_app. change (zlen [x]) with 1. rewrite length_app. simpl length.
    pose proof (zlen_nonneg l).
    destruct (Z_lt_dec j 8) as [Hlt|Hge].
    + rewrite Z.shiftl_spec_low by lia. rewrite Z.div_small, Z.mod_small by lia.
      destruct (Z.ltb_spec j (8 * (zlen l + 1))); [|lia].
      rewrite lookup_total_app_r by lia. replace (length l + 1 - 1 - Z.to_nat 0 - length l)%nat with O by lia. done.
    + rewrite Z.shiftl_spec by lia.
      rewrite IH by (done || lia).
      rewrite <- (Z.mod_small x (2 ^ 8)) at 1 by lia. rewrite Z.mod_pow2_bits_high, orb_false_r by lia.
      replace j with (j - 8 + 1 * 8) at 5 6 by lia. rewrite Z.div_add, Z_mod_plus_full by lia.
      destruct (Z.ltb_spec (j - 8) (8 * zlen l)), (Z.ltb_spec j (8 * (zlen l + 1))); try lia.
      assert ((j - 8) / 8 < zlen l) by (apply Z.div_lt_upper_bound; lia).
      assert (0 ≤ (j - 8) / 8) by (apply Z.div_pos; lia).
      rewrite lookup_total_app_l by (unfold zlen in *; lia). f_equal. f_equal. lia.
Qed.

(** The bits of one mixed byte: those above the end of the prefix come from the
    network. *)
Lemma mixByte_testbit bits pos n p j :
  0 ≤ n < 256 → 0 ≤ p < 256 → 0 ≤ pos ≤ 120 → 0 ≤ bits ≤ 128 → 0 ≤ j < 8 →
  Z.testbit (mixByte bits pos n p) j = Z.testbit (if pos + 7 - j <? bits then n else p) j.
Proof.
  intros Hn Hp Hpos Hbits Hj. unfold mixByte, u8. rewrite (Z.mod_small (pos + 8)) by lia.
  destruct (Z.leb_spec (pos + 8) bits).
  { destruct (Z.ltb_spec (pos + 7 - j) bits); [done|lia]. }
  destruct (Z.leb_spec bits pos).
  { destruct (Z.ltb_spec (pos + 7 - j) bits); [lia|done]. }
  rewrite (Z.mod_small bits), (Z.mod_small (bits - pos)) by lia.
  set (k := 8 - (bits - pos)). assert (0 < k < 8) by lia.
  assert (∀ i, 0 ≤ i < 8 → Z.testbit (Z.shiftl 255 k mod 2 ^ 8) i = (k <=? i)) as Hmask.
  { intros i Hi. rewrite Z.mod_pow2_bits_low by lia. rewrite Z.shiftl_spec by lia.
    change 255 with (Z.ones 8). destruct (Z.leb_spec k i).
    - apply Z.ones_spec_low. lia.
    - apply Z.testbit_neg_r. lia. }
  set (mask := Z.shiftl 255 k mod 2 ^ 8) in *.
  assert (0 ≤ mask < 2 ^ 8) as Hmr by (apply Z.mod_pos_bound; lia).
  assert (Z.testbit (255 - mask) j = negb (k <=? j)) as Hneg.
  { rewrite <- Hmask by lia. replace (255 - mask) with (Z.lxor mask (Z.ones 8)).
    - rewrite Z.lxor_spec, Z.ones_spec_low by lia. by destruct (Z.testbit mask j).
    - change (Z.ones 8) with 255. revert mask Hmr Hmask. intros m Hm _.
      revert m Hm. apply (range_decide (λ m, Z.lxor m 255 = 255 - m) (2 ^ 8)). by vm_compute. }
  rewrite Z.lor_spec, !Z.land_spec, Hneg, Hmask by lia.
  destruct (Z.leb_spec k j), (Z.ltb_spec (pos + 7 - j) bits); try lia;
    simpl; rewrite ?andb_true_r, ?andb_false_r, ?orb_false_r; done.
Qed.

Lemma bits_small x k :
  0 ≤ x → 0 ≤ k → (∀ j, k ≤ j → Z.testbit x j = false) → x < 2 ^ k.
Proof.
  intros Hx Hk Hb. assert (x mod 2 ^ k = x) as <-; [|apply Z.mod_pos_bound; lia].
  apply Z.bits_inj'. intros j Hj. destruct (Z_lt_dec j k).
  - apply Z.mod_pow2_bits_low. lia.
  - rewrite Z.mod_pow2_bits_high by lia. symmetry. apply Hb. lia.
Qed.

Lemma high_bits x k j : 0 ≤ x < 2 ^ k → 0 ≤ k ≤ j → Z.testbit x j = false.
Proof. intros Hx Hj. rewrite <- (Z.mod_small x (2 ^ k)) by lia. apply Z.mod_pow2_bits_high. lia. Qed.

Lemma mixByte_range bits pos n p :
  is_byte n → is_byte p → is_byte (mixByte bits pos n p).
Proof.
  intros Hn Hp. unfold mixByte. destruct (_ <=? bits); [done|]. destruct (bits <=? pos); [done|].
  cbv zeta. set (mask := u8 (Z.shiftl 255 _)). pose proof (u8_range (Z.shiftl 255 (8 - u8 (u8 bits - pos)))) as Hm.
  fold mask in Hm. unfold is_byte in *.
  assert (0 ≤ Z.lor (Z.land n mask) (Z.land p (255 - mask))) as H0
    by (apply Z.lor_nonneg; split; apply Z.land_nonneg; lia).
  split; [done|]. apply (bits_small _ 8); [done|lia|]. intros j Hj.
  rewrite Z.lor_spec, !Z.land_spec, (high_bits n 8), (high_bits p 8) by (change (2 ^ 8) with 256; lia). done.
Qed.

Section Mix.
Context (bits : Z) (N I : bytes).
Context (HN : wf_bytes N) (HI : wf_bytes I) (Hlen : length N = length I)
        (Hsmall : (length N ≤ 16)%nat) (Hbits : 0 ≤ bits ≤ 128).

Lemma mixBytes_length : length (mixBytes bits N I) = length N.
Proof. unfold mixBytes. rewrite length_imap, length_zip_with. lia. Qed.

Lemma mixBytes_lookup i :
  (i < length N)%nat →
  mixBytes bits N I !!! i = mixByte bits (Z.of_nat i * 8) (N !!! i) (I !!! i).
Proof.
  intros Hi. apply list_lookup_total_correct. unfold mixBytes.
  rewrite list_lookup_imap, lookup_zip_with.
  rewrite (list_lookup_lookup_total_lt N i), (list_lookup_lookup_total_lt I i) by lia. simpl.
  unfold u8. by rewrite Z.mod_small by lia.
Qed.

Lemma lookup_is_byte (l : bytes) i : wf_bytes l → (i < length l)%nat → is_byte (l !!! i).
Proof.
  intros Hl Hi. eapply Forall_lookup_1; [exact Hl|]. by apply list_lookup_lookup_total_lt.
Qed.

Lemma mixBytes_wf : wf_bytes (mixBytes bits N I).
Proof.
  apply Forall_forall. intros x [i Hi]%list_elem_of_lookup.
  pose proof (lookup_lt_Some _ _ _ Hi) as Hlt. rewrite mixBytes_length in Hlt.
  apply list_lookup_total_correct in Hi. rewrite mixBytes_lookup in Hi by done. subst x.
  apply mixByte_range; apply lookup_is_byte; (done || lia).
Qed.

Lemma mixBytes_testbit j :
  0 ≤ j < 8 * zlen N →
  Z.testbit (be_value (mixBytes bits N I)) j =
  Z.testbit (be_value (if 8 * zlen N - bits <=? j then N else I)) j.
Proof.
  intros Hj. assert (0 ≤ j / 8) by (apply Z.div_pos; lia).
  assert (j / 8 < zlen N) by (apply Z.div_lt_upper_bound; lia).
  pose proof (Z.mod_pos_bound j 8 ltac:(lia)) as Hm. pose proof (Z.div_mod j 8 ltac:(lia)) as Hdm.
  rewrite be_value_testbit by (lia || apply mixBytes_wf).
  assert (zlen (mixBytes bits N I) = zlen N) as -> by (unfold zlen; by rewrite mixBytes_length).
  assert (zlen I = zlen N) as HzI by (unfold zlen; lia).
  destruct (Z.ltb_spec j (8 * zlen N)); [|lia]. rewrite mixBytes_length.
  set (i := (length N - 1 - Z.to_nat (j / 8))%nat). assert (i < length N)%nat by (unfold zlen in *; lia).
  assert (Z.of_nat i = zlen N - 1 - j / 8) as Hi by (unfold zlen in *; lia).
  rewrite mixBytes_lookup by done.
  pose proof (lookup_is_byte N i HN ltac:(lia)) as HbN. pose proof (lookup_is_byte I i HI ltac:(lia)) as HbI.
  rewrite mixByte_testbit by (try done; unfold zlen in *; lia).
  destruct (Z.ltb_spec (Z.of_nat i * 8 + 7 - j mod 8) bits), (Z.leb_spec (8 * zlen N - bits) j); try lia.
  - rewrite be_value_testbit by (done || lia). destruct (Z.ltb_spec j (8 * zlen N)); [done|lia].
  - rewrite be_value_testbit by (done || lia). rewrite HzI. destruct (Z.ltb_spec j (8 * zlen N)); [|lia].
    by rewrite <- Hlen.
Qed.

End Mix.

Lemma mask_value_range w bits v :
  0 ≤ bits ≤ w → 0 ≤ v < 2 ^ w → 0 ≤ mask_value w bits v < 2 ^ w.
Proof.
  intros Hb Hv. unfold mask_value. rewrite Z.shiftl_mul_pow2, Z.shiftr_div_pow2 by lia.
  pose proof (Z.pow_pos_nonneg 2 (w - bits)). pose proof (Z.mul_div_le v (2 ^ (w - bits))).
  pose proof (Z.div_pos v (2 ^ (w - bits))). nia.
Qed.

Lemma mask_value_bit w bits v j :
  w - bits ≤ j → 0 ≤ bits ≤ w → Z.testbit (mask_value w bits v) j = Z.testbit v j.
Proof.
  intros Hj Hb. unfold mask_value. rewrite Z.shiftl_spec, Z.shiftr_spec by lia. f_equal. lia.
Qed.

(** The value [transformIP] computes, for addresses of [n] bytes. *)
Lemma transform_value (n : nat) bits net ip :
  (n ≤ 16)%nat → 0 ≤ bits ≤ 8 * Z.of_nat n → 0 ≤ net < 2 ^ (8 * Z.of_nat n) → 0 ≤ ip < 2 ^ (8 * Z.of_nat n) →
  let v := be_value (mixBytes bits (be_bytes n (mask_value (8 * Z.of_nat n) bits net)) (be_bytes n ip)) in
  0 ≤ v < 2 ^ (8 * Z.of_nat n) ∧
  ∀ j, 0 ≤ j < 8 * Z.of_nat n →
    Z.testbit v j = Z.testbit (if 8 * Z.of_nat n - bits <=? j then net else ip) j.
Proof.
  intros Hn Hb Hnet Hip v. set (W := 8 * Z.of_nat n) in *.
  pose proof (mask_value_range W bits net Hb Hnet) as Hmask.
  set (N := be_bytes n (mask_value W bits net)) in *. set (I := be_bytes n ip) in *.
  assert (wf_bytes N ∧ wf_bytes I) as [HN HI] by (split; apply be_bytes_wf).
  assert (length N = n ∧ length I = n) as [LN LI] by (split; apply be_bytes_length).
  assert (zlen N = Z.of_nat n) as ZN by (unfold zlen; lia). split.
  - assert (wf_bytes (mixBytes bits N I)) as Hwf by (apply mixBytes_wf; (done || lia)).
    pose proof (be_value_range _ Hwf) as Hr. unfold zlen in Hr. rewrite mixBytes_length, LN in Hr by lia. exact Hr.
  - intros j Hj. unfold v. rewrite mixBytes_testbit by (done || lia). rewrite ZN. fold W.
    destruct (Z.leb_spec (W - bits) j); unfold N, I; rewrite be_value_bytes_small by done;
      [by apply mask_value_bit|done].
Qed.

(** Rewriting an address into a network of the same family succeeds; the
    result keeps the network's bits above the prefix length and the original
    address's bits below it, and its text reads back as that address. *)
Theorem transformIP_bits (ipStr netStr : gostring) (ip : Addr) (prefix : Prefix) :
  ParseAddr ipStr = Some ip → ParsePrefix netStr = Some prefix → Is4 ip = Is4 (PAddr prefix) →
  ∃ text a, transformIP ipStr netStr = Ok text ∧ ParseAddr text = Some a ∧ Is4 a = Is4 ip ∧
    ∀ j, 0 ≤ j < BitLen ip →
      Z.testbit (addr_value a) j =
      Z.testbit (if BitLen ip - PBits prefix <=? j then addr_value (PAddr prefix) else addr_value ip) j.
Proof.
  intros Hip Hpre Hfam. unfold transformIP. rewrite Hip, Hpre, Hfam, eqb_reflx. cbn [negb].
  apply ParseAddr_wf in Hip. apply ParsePrefix_wf in Hpre as (Hp & Hz & Hb).
  destruct prefix as [pa bits]. cbn [PAddr PBits] in *. unfold Masked. cbn [PAddr PBits].
  destruct ip as [|iv|iv iz], pa as [|pv|pv pz]; try (by destruct Hip); try (by destruct Hp); try done.
  - cbn [Is4 As4 addr_value BitLen] in *.
    destruct (transform_value 4 bits pv iv) as [Hr Hbit]; [lia|lia|exact Hp|exact Hip|].
    eexists _, _. split; [done|]. split; [apply ParseAddr_AddrString; [exact Hr|done]|]. split; [done|].
    exact Hbit.
  - cbn [Is4 As16 addr_value BitLen] in *.
    destruct (transform_value 16 bits pv iv) as [Hr Hbit]; [lia|lia|exact Hp|exact Hip|].
    eexists _, _. split; [done|]. split; [apply ParseAddr_AddrString; [exact Hr|done]|]. split; [done|].
    exact Hbit.
Qed.

Lemma transformIP_bits_witness :
  ParseAddr "10.1.255.3" = Some (Addr4 0x0a01ff03) ∧
  ∃ text a, transformIP "10.1.255.3" "192.168.0.0/20" = Ok text ∧ ParseAddr text = Some a ∧
    ∀ j, 0 ≤ j < 32 →
      Z.testbit (addr_value a) j = Z.testbit (if 32 - 20 <=? j then 0xc0a80000 else 0x0a01ff03) j.
Proof.
  split; [vm_compute; reflexivity|].
  destruct (transformIP_bits "10.1.255.3" "192.168.0.0/20" (Addr4 0x0a01ff03) (mkPrefix (Addr4 0xc0a80000) 20))
    as (text & a & E & Ha & _ & Hbits); [vm_compute; reflexivity..|].
  exists text, a. split; [exact E|]. split; [exact Ha|exact Hbits].
Defined.

Lemma mode_roundtrip m : m ≠ ModeUnset → unmarshalMode (ModeString m) = Ok m.
Proof. by destruct m; [done|vm_compute..]. Qed.

Lemma dnsmode_roundtrip m : m ≠ DNSModeUnset → unmarshalDNSMode (DNSModeString m) = Ok m.
Proof. by destruct m; [done|vm_compute..]. Qed.
