(* ===== verification/Routing.v ===== *)
(** * Routing decisions (core/policy.go, dial_plan.go, nat64.go, gfwlist.go)

    [genPolicy] chooses the address and the policy of a connection from the
    rule tables; [PlanRequest] adds the recovery of synthetic addresses, the
    built-in list and NAT64.  The tables are the matchers of [AddrTrie] filled
    from the configuration.  What the code asks of the IP pools, of the DNS
    resolver and of the reverse lookup are arguments: the answers those calls
    give at that moment.  Log output is left out. *)

From S2P Require Import Prelude Errors Netip AddrTrie Pattern FakeIP Policy.
Local Open Scope Z_scope.

Definition noRedirectPrefix : gostring := "^".
Definition ipPoolTagPrefix : gostring := "$".
Definition resolvePrefix : gostring := "?".

Record Tables := mkTables {
  defaultPolicy : Policy;
  domainMatcher : Domain.labelNode Policy;
  hostsMatcher : Domain.labelNode gostring;
  ipMatcher : IPTrie.bitNode Policy;
  ipv6Matcher : IPTrie.bitNode Policy;
  gfwDomainMatcher : Domain.labelNode unit;
  gfwBypassMatcher : Domain.labelNode unit;
}.

(** The tables [LoadConfig] builds: the rules of each section of the
    configuration in the order the maps are visited, and the two pattern lists
    of the built-in list. *)
Definition loadTables (dflt : Policy) (hosts : list (gostring * gostring))
    (domains ips : list (gostring * Policy)) (blocked bypass : list gostring) : Tables :=
  mkTables dflt (loadDomains domains) (loadDomains hosts) (loadIPs ips).1 (loadIPs ips).2
    (Domain.addAll Domain.NewDomainMatcher ((λ p, (p, tt)) <$> blocked))
    (Domain.addAll Domain.NewDomainMatcher ((λ p, (p, tt)) <$> bypass)).

(** The outcomes of [genPolicy]: a target and a policy, or one of its three
    flags. *)
Inductive genResult :=
| GenOK (dstHost : gostring) (p : Policy)
| GenFailed
| GenBlocked
| GenNotFound.

Section Route.
Context `{GoUnicode}.
Context (t : Tables).
Context (getFromIPPool : gostring → res gostring).
Context (dnsResolve : gostring → DNSMode → Z → res (gostring * bool)).

Definition getIPPolicy (ip : gostring) : option Policy :=
  if isIPv6 ip then IPTrie.Find6 (ipv6Matcher t) ip else IPTrie.Find4 (ipMatcher t) ip.

(** [ipRedirect]: the address to use and the rule it matched. *)
Definition ipRedirect (ip : gostring) : res (gostring * option Policy) :=
  match getIPPolicy ip with
  | None => Ok (ip, None)
  | Some policy =>
      if bool_decide (pMapTo policy = []) || bool_decide (pMapTo policy = unsetString)
      then Ok (ip, Some policy)
      else if has_prefix (pMapTo policy) ipPoolTagPrefix then
        mapTo ← getFromIPPool (drop 1 (pMapTo policy));
        Ok (mapTo, Some policy)
      else if bool_decide (last_index_byte (pMapTo policy) 47 = None)
      then Ok (pMapTo policy, Some policy)
      else
        mapTo ← transformIP ip (pMapTo policy);
        Ok (mapTo, Some policy)
  end.

Definition isIPText (s : gostring) : bool := bool_decide (ParseIP s ≠ None).

(** The branch of [genPolicy] for an address. *)
Definition genPolicyIP (originHost : gostring) : genResult :=
  match ipRedirect originHost with
  | Ok (dstHost, ipPolicy) =>
      let p := match ipPolicy with
               | None => defaultPolicy t
               | Some ipp => mergePolicies [ipp; defaultPolicy t]
               end in
      if bool_decide (pMode p = ModeBlock) then GenBlocked else GenOK dstHost p
  | _ => GenFailed
  end.

(** What the host rules select for a domain: the text, whether [^] suppresses
    the redirect, and whether the name itself is to be resolved. *)
Definition selectHost (p : Policy) (originHost : gostring) : gostring * bool * bool :=
  let noRedirect := has_prefix (pHost p) noRedirectPrefix in
  let policyHost := if noRedirect then drop 1 (pHost p) else pHost p in
  if bool_decide (policyHost = []) || bool_decide (policyHost = unsetString) then
    let selectedHost := default [] (Domain.Find (hostsMatcher t) originHost) in
    let noRedirect := has_prefix selectedHost noRedirectPrefix in
    let selectedHost := if noRedirect then drop 1 selectedHost else selectedHost in
    (selectedHost, noRedirect,
     bool_decide (selectedHost = []) || bool_decide (selectedHost = unsetString))
  else (policyHost, noRedirect, false).

(** The target of a domain from the selected host text. *)
Definition targetOf (p : Policy) (originHost selectedHost : gostring) : res gostring :=
  if has_prefix selectedHost resolvePrefix then
    '(ip, _) ← dnsResolve (drop 1 selectedHost) (pDNSMode p) (pDNSCacheTTL p); Ok ip
  else if bool_decide (selectedHost = lit "self") then Ok originHost
  else if has_prefix selectedHost ipPoolTagPrefix then getFromIPPool (drop 1 selectedHost)
  else Ok selectedHost.

(** The end of [genPolicy] for a domain: the redirect of the target. *)
Definition finishDomain (domainPolicy : option Policy) (p : Policy) (noRedirect : bool)
    (dstHost : gostring) : genResult :=
  if noRedirect then GenOK dstHost p else
  match ipRedirect dstHost with
  | Ok (dstHost, None) => GenOK dstHost p
  | Ok (dstHost, Some ipPolicy) =>
      let p := match domainPolicy with
               | Some dp => mergePolicies [dp; ipPolicy; defaultPolicy t]
               | None => mergePolicies [ipPolicy; defaultPolicy t]
               end in
      if bool_decide (pMode p = ModeBlock) then GenBlocked else GenOK dstHost p
  | _ => GenFailed
  end.

Definition genPolicyDomain (originHost : gostring) (returnWhenDomainNotFound : bool) : genResult :=
  let domainPolicy := Domain.Find (domainMatcher t) originHost in
  if bool_decide (pMode <$> domainPolicy = Some ModeBlock) then GenBlocked else
  let p := match domainPolicy with
           | Some dp => mergePolicies [dp; defaultPolicy t]
           | None => defaultPolicy t
           end in
  let '(selectedHost, noRedirect, resolveOrigin) := selectHost p originHost in
  if resolveOrigin && returnWhenDomainNotFound then GenNotFound else
  let resolved :=
    if resolveOrigin then
      '(ip, _) ← dnsResolve originHost (pDNSMode p) (pDNSCacheTTL p); Ok ip
    else Ok [] in
  match resolved with
  | Ok ip =>
      let target := if bool_decide (ip = []) then targetOf p originHost selectedHost else Ok ip in
      match target with
      | Ok dstHost => finishDomain domainPolicy p noRedirect dstHost
      | _ => GenFailed
      end
  | _ => GenFailed
  end.

Definition genPolicy (originHost : gostring) (isIP returnWhenDomainNotFound : bool) : genResult :=
  if isIP || isIPText originHost then genPolicyIP originHost
  else genPolicyDomain originHost returnWhenDomainNotFound.

(** ** The built-in list *)

Inductive domainRouteClass := domainRoutePlain | domainRouteRule | domainRouteGFW.

Definition found {T} (o : option T) : bool := bool_decide (is_Some o).

Definition isGFWDomain (domain : gostring) : bool :=
  if bool_decide (domain = []) then false else
  let domain := to_lower domain in
  if found (Domain.Find (gfwBypassMatcher t) domain) then false
  else found (Domain.Find (gfwDomainMatcher t) domain).

Definition classifyDomainRoute (domain : gostring) : domainRouteClass :=
  let domain := to_lower domain in
  if bool_decide (domain = []) then domainRoutePlain
  else if found (Domain.Find (domainMatcher t) domain) then domainRouteRule
  else if isGFWDomain domain then domainRouteGFW
  else domainRoutePlain.

Definition shouldUseFakeIP (domain : gostring) : bool :=
  match classifyDomainRoute domain with
  | domainRouteRule | domainRouteGFW => true
  | domainRoutePlain => false
  end.

(** Go composite literals: every other field is the zero value. *)
Definition plainFallbackPolicy : Policy := setModes zeroPolicy ModeRaw DNSModeUnset.
Definition gfwFallbackPolicy : Policy := setModes zeroPolicy ModeTLSRF DNSModeUnset.

(** ** NAT64 *)

Definition slash : Z := 47.

(** [net.ParseCIDR]: the masked network address as 4 or 16 bytes; the length may
    have leading zeros. *)
Definition ParseCIDR (s : gostring) : option bytes :=
  i ← index_byte s slash;
  ip ← ParseAddr (take i s);
  let l := BitLen ip in
  n ← parse_uint 63 (drop (S i) s);
  if has_zone ip || (l <? n) then None
  else Some (AsSlice (PAddr (Masked (mkPrefix ip n)))).

(** The prefix address, from a CIDR or an address. *)
Definition nat64PrefixIP (prefix : gostring) : option bytes :=
  if contains prefix "/" then ParseCIDR prefix else ParseIP prefix.

Definition mapNAT64Addr (ipStr prefix : gostring) : gostring * bool :=
  let prefix := trim_space prefix in
  if bool_decide (prefix = []) then (ipStr, true) else
  match ParseIP ipStr with
  | None => (ipStr, true)
  | Some parsedIP =>
      match To4 parsedIP with
      | None => (ipStr, false)
      | Some ipv4 =>
          match nat64PrefixIP prefix with
          | None => (ipStr, true)
          | Some b => if zlen b =? 16 then (IPString (take 12 b ++ ipv4), true) else (ipStr, true)
          end
      end
  end.

Definition isNAT64Enabled (p : Policy) : bool := negb (bool_decide (trim_space (pNat64Prefix p) = [])).

Definition planNat64 (host : gostring) (p : Policy) : res gostring :=
  if negb (isNAT64Enabled p) then Ok host else
  dstHost ← (if isIPText host then Ok host
             else match dnsResolve host (pDNSMode p) (pDNSCacheTTL p) with
                  | Ok (ip, _) => Ok ip
                  | Err e => Err (opError ("nat64 resolve " ++ host) e)
                  | Panic => Panic
                  end);
  let '(mapped, ok) := mapNAT64Addr dstHost (pNat64Prefix p) in
  if negb ok then Err (errorString ("native IPv6 " ++ dstHost ++ " excluded under NAT64 mode"))
  else Ok mapped.

(** ** PlanRequest *)

Inductive DomainTargetMode := ResolveDomainTarget | PreserveDomainTarget.

Record RequestContext := mkRequest {
  rq_source : gostring;
  rq_host : gostring;
  rq_port : Z;
  rq_mode : DomainTargetMode;
}.

Record DialPlan := mkPlan {
  dp_source : gostring;
  dp_originHost : gostring;
  dp_originPort : Z;
  dp_recoveredDomain : gostring;
  dp_matchedDomain : bool;
  dp_matchedIP : bool;
  dp_targetHost : gostring;
  dp_targetPort : Z;
  dp_policy : Policy;
  dp_blocked : bool;
}.

Definition joinPort (host : gostring) (port : Z) : gostring :=
  if port <=? 0 then host else JoinHostPort host (itoa port).

Definition TargetAddress (p : DialPlan) : gostring := joinPort (dp_targetHost p) (dp_targetPort p).
Definition OriginAddress (p : DialPlan) : gostring := joinPort (dp_originHost p) (dp_originPort p).

(** The reverse lookup and the test for a synthetic address. *)
Context (lookupDomain : gostring → option gostring) (isFakeIP : gostring → bool).

(** The plan once the host to plan for is known. *)
Definition planFor (req : RequestContext) (recoveredDomain planningHost : gostring) (isIP : bool)
    : res DialPlan :=
  let matchedIP := isIP && found (getIPPolicy planningHost) in
  let matchedDomain := negb isIP && found (Domain.Find (domainMatcher t) planningHost) in
  let returnWhenDomainNotFound :=
    match rq_mode req with PreserveDomainTarget => true | ResolveDomainTarget => false end in
  let continue (dstHost : gostring) (policy : Policy) : res DialPlan :=
    let '(policy, matchedDomain) :=
      if negb isIP && negb matchedDomain then
        match classifyDomainRoute planningHost with
        | domainRouteGFW => (mergePolicies [gfwFallbackPolicy; defaultPolicy t], true)
        | domainRoutePlain => (mergePolicies [plainFallbackPolicy; defaultPolicy t], matchedDomain)
        | domainRouteRule => (policy, matchedDomain)
        end
      else (policy, matchedDomain) in
    let matchedIP :=
      matchedIP || (negb (bool_decide (dstHost = [])) && isIPText dstHost && found (getIPPolicy dstHost)) in
    dstHost ← (if isNAT64Enabled policy &&
                  (negb (bool_decide (recoveredDomain = [])) || negb (isFakeIP dstHost))
               then planNat64 dstHost policy else Ok dstHost);
    let targetPort := if 0 <? pPort policy then pPort policy else rq_port req in
    Ok (mkPlan (rq_source req) (rq_host req) (rq_port req) recoveredDomain matchedDomain matchedIP
          dstHost targetPort policy false) in
  match genPolicy planningHost isIP returnWhenDomainNotFound with
  | GenFailed => fail "failed to resolve dial plan"
  | GenBlocked =>
      Ok (mkPlan (rq_source req) (rq_host req) (rq_port req) recoveredDomain matchedDomain matchedIP
            [] 0 zeroPolicy true)
  | GenNotFound => continue planningHost (defaultPolicy t)
  | GenOK dstHost policy => continue dstHost policy
  end.

Definition PlanRequest (req : RequestContext) : res DialPlan :=
  if bool_decide (rq_host req = []) then fail "request host is empty" else
  let isIP := isIPText (rq_host req) in
  let recoveredDomain := if isIP then default [] (lookupDomain (rq_host req)) else [] in
  if isIP && negb (bool_decide (recoveredDomain = []))
  then planFor req recoveredDomain recoveredDomain false
  else planFor req recoveredDomain (rq_host req) isIP.

(** ** Block rules *)

Definition succeeds {A} (r : res A) : Prop := match r with Ok _ => True | _ => False end.

(** The mode the rules decide on: that of the first that sets one. *)
Definition decides (rules : list Policy) : Mode := firstSet ModeUnset (pMode <$> rules).

(** The target the rules for hosts choose for a domain, and whether it is exempt
    from the rules for addresses ([^]); nothing is chosen when the name would have
    to be resolved and is not to be, or when a lookup fails. *)
Definition chosenTarget (originHost : gostring) (returnWhenDomainNotFound : bool) : option (gostring * bool) :=
  let p := match Domain.Find (domainMatcher t) originHost with
           | Some dp => mergePolicies [dp; defaultPolicy t]
           | None => defaultPolicy t
           end in
  let '(selectedHost, exempt, resolveOrigin) := selectHost p originHost in
  let named := match targetOf p originHost selectedHost with Ok target => Some (target, exempt) | _ => None end in
  if resolveOrigin then
    if returnWhenDomainNotFound then None else
    match dnsResolve originHost (pDNSMode p) (pDNSCacheTTL p) with
    | Ok (ip, _) => if bool_decide (ip = []) then named else Some (ip, exempt)
    | _ => None
    end
  else named.

Lemma decides_merge ps : pMode (mergePolicies ps) = ModeBlock ↔ decides ps = ModeBlock.
Proof.
  rewrite merge_pMode. unfold decides, withDefault. destruct (decide _) as [E|]; [|done]. by rewrite E.
Qed.

Lemma decides_single p : decides [p] = pMode p.
Proof.
  unfold decides, firstSet. cbn [fmap list_fmap List.find]. case_bool_decide as E; simpl; [by rewrite E|done].
Qed.

Lemma decides_unset p ps : pMode p = ModeUnset → decides (p :: ps) = decides ps.
Proof. intros E. unfold decides, firstSet. cbn [fmap list_fmap List.find]. by rewrite E, bool_decide_eq_true_2. Qed.

Lemma decides_set p ps : pMode p ≠ ModeUnset → decides (p :: ps) = pMode p.
Proof. intros E. unfold decides, firstSet. cbn [fmap list_fmap List.find]. by rewrite bool_decide_eq_false_2. Qed.

Lemma ipRedirect_rule ip dst o : ipRedirect ip = Ok (dst, o) → o = getIPPolicy ip.
Proof.
  unfold ipRedirect. destruct (getIPPolicy ip) as [r|]; [|by intros [= <- <-]].
  destruct (_ || _); [by intros [= <- <-]|]. destruct (has_prefix _ _).
  - intros (? & _ & [= <- <-])%bind_Ok. done.
  - destruct (bool_decide _); [by intros [= <- <-]|]. intros (? & _ & [= <- <-])%bind_Ok. done.
Qed.

Lemma ipRedirect_none ip : getIPPolicy ip = None → ipRedirect ip = Ok (ip, None).
Proof. unfold ipRedirect. by intros ->. Qed.

(** The domain branch is the block test of the domain's rule followed by
    [finishDomain] on the chosen target. *)
Lemma genPolicyDomain_chosen originHost nf :
  let rule := Domain.Find (domainMatcher t) originHost in
  let p := match rule with Some dp => mergePolicies [dp; defaultPolicy t] | None => defaultPolicy t end in
  pMode <$> rule ≠ Some ModeBlock →
  match chosenTarget originHost nf with
  | Some (target, exempt) => genPolicyDomain originHost nf = finishDomain rule p exempt target
  | None => genPolicyDomain originHost nf = GenFailed ∨ genPolicyDomain originHost nf = GenNotFound
  end.
Proof.
  intros rule p Hb. unfold genPolicyDomain, chosenTarget. fold rule. cbv zeta. fold p.
  rewrite bool_decide_eq_false_2 by done. destruct (selectHost p originHost) as [[sel nr] ro].
  destruct ro; cbn [andb]; [destruct nf; [by right|]; destruct (dnsResolve _ _ _) as [[ip c]|e|]; cbn [mbind res_bind]; try by left|].
  - case_bool_decide; [|done]. destruct (targetOf _ _ _); by left || done.
  - rewrite bool_decide_eq_true_2 by done. destruct (targetOf _ _ _); by left || done.
Qed.

Lemma finishDomain_blocked rule p exempt target :
  finishDomain rule p exempt target = GenBlocked ↔
  exempt = false ∧ succeeds (ipRedirect target) ∧
  ∃ r, getIPPolicy target = Some r ∧ decides (option_list rule ++ [r; defaultPolicy t]) = ModeBlock.
Proof.
  unfold finishDomain. destruct exempt; [naive_solver|].
  destruct (ipRedirect target) as [[d o]|e|] eqn:E; [|split; [done|by intros (_ & [] & _)]..].
  apply ipRedirect_rule in E as ->. destruct (getIPPolicy target) as [r|]; [|naive_solver].
  assert (pMode (match rule with Some dp => mergePolicies [dp; r; defaultPolicy t] | None => mergePolicies [r; defaultPolicy t] end) = ModeBlock ↔
    decides (option_list rule ++ [r; defaultPolicy t]) = ModeBlock) as Hd by (destruct rule; apply decides_merge).
  cbv zeta. case_bool_decide; split; [|done|done|]; [intros _|intros (_ & _ & r' & [= <-] & ?)]; [|tauto].
  split_and!; [done..|]. exists r. tauto.
Qed.

Lemma finishDomain_let_through rule p exempt target :
  (∃ dst p', finishDomain rule p exempt target = GenOK dst p' ∧ pMode p' = ModeBlock) ↔
  pMode p = ModeBlock ∧ (exempt = true ∨ getIPPolicy target = None).
Proof.
  unfold finishDomain. destruct exempt; [split; [intros (? & ? & [= <- <-] & ?); auto|intros [? _]; eauto]|].
  split.
  - intros (dst & p' & E & Hb). destruct (ipRedirect target) as [[d o]|e|] eqn:Er; try done.
    apply ipRedirect_rule in Er. destruct o as [r|]; [|injection E as <- <-; auto].
    cbv zeta in E. case_bool_decide; [done|]. by injection E as <- <-.
  - intros [Hb [?|E]]; [done|]. rewrite ipRedirect_none by done. eauto.
Qed.

Lemma genPolicyIP_blocked host :
  genPolicyIP host = GenBlocked ↔
  succeeds (ipRedirect host) ∧ decides (option_list (getIPPolicy host) ++ [defaultPolicy t]) = ModeBlock.
Proof.
  unfold genPolicyIP. destruct (ipRedirect host) as [[d o]|e|] eqn:E; [|split; [done|by intros [[] _]]..].
  apply ipRedirect_rule in E as ->. cbv zeta.
  assert (pMode (match getIPPolicy host with None => defaultPolicy t | Some r => mergePolicies [r; defaultPolicy t] end) = ModeBlock ↔
    decides (option_list (getIPPolicy host) ++ [defaultPolicy t]) = ModeBlock) as <-.
  { destruct (getIPPolicy host); [apply decides_merge|]. simpl. by rewrite decides_single. }
  case_bool_decide; naive_solver.
Qed.

Lemma genPolicyIP_passes host dst p : genPolicyIP host = GenOK dst p → pMode p ≠ ModeBlock.
Proof.
  unfold genPolicyIP. destruct (ipRedirect host) as [[d o]|e|]; try done. cbv zeta.
  case_bool_decide; [done|]. by intros [= <- <-].
Qed.

(** Without a rule that blocks, the policy a domain starts from blocks exactly
    when the default policy does and no rule sets a mode. *)
Lemma defaults_block (rule : option Policy) :
  pMode <$> rule ≠ Some ModeBlock →
  pMode (match rule with Some dp => mergePolicies [dp; defaultPolicy t] | None => defaultPolicy t end) = ModeBlock ↔
  pMode (defaultPolicy t) = ModeBlock ∧ from_option pMode ModeUnset rule = ModeUnset.
Proof.
  intros Hr. destruct rule as [dp|]; [|simpl; naive_solver]. rewrite decides_merge. cbn [from_option].
  destruct (decide (pMode dp = ModeUnset)) as [E|E].
  - rewrite decides_unset, decides_single by done. tauto.
  - rewrite decides_set by done. split; [intros Hb; destruct Hr; simpl; by rewrite Hb|by intros [_ ?]].
Qed.

(** C17: which connections [genPolicy] blocks, and which it lets through although
    their mode is [block]. For an address, given as such or in text, the rule for
    the address decides before the default policy: the connection is blocked
    exactly when the mode they decide on is [block], unless the redirect of the
    address fails. A domain is blocked exactly when its own rule says [block], or
    when the target chosen for it is not exempt ([^]), has a rule, and the first
    mode set by the domain's rule, the target's rule and the default policy is
    [block]: a domain rule with another mode overrides a blocking address rule. A
    connection passes with the mode [block] exactly when it is for a domain, the
    default policy says [block], the domain's rule, if any, sets no mode and the
    chosen target is exempt or has no rule. *)
Theorem genPolicy_block originHost isIP nf :
  let isIP' := isIP || isIPText originHost in
  let rule := Domain.Find (domainMatcher t) originHost in
  let byTarget target := decides (option_list rule ++ option_list (getIPPolicy target) ++ [defaultPolicy t]) in
  (genPolicy originHost isIP nf = GenBlocked ↔
     if isIP'
     then succeeds (ipRedirect originHost) ∧ decides (option_list (getIPPolicy originHost) ++ [defaultPolicy t]) = ModeBlock
     else pMode <$> rule = Some ModeBlock ∨
          ∃ target, chosenTarget originHost nf = Some (target, false) ∧ is_Some (getIPPolicy target) ∧
            succeeds (ipRedirect target) ∧ byTarget target = ModeBlock) ∧
  ((∃ dst p, genPolicy originHost isIP nf = GenOK dst p ∧ pMode p = ModeBlock) ↔
     isIP' = false ∧ pMode (defaultPolicy t) = ModeBlock ∧ from_option pMode ModeUnset rule = ModeUnset ∧
     ∃ target exempt, chosenTarget originHost nf = Some (target, exempt) ∧ (exempt = true ∨ getIPPolicy target = None)).
Proof.
  intros isIP' rule byTarget. unfold genPolicy. fold isIP'. destruct isIP'.
  - split; [apply genPolicyIP_blocked|]. split; [|by intros [? _]].
    intros (dst & p & E & Hb). by apply genPolicyIP_passes in E.
  - destruct (decide (pMode <$> rule = Some ModeBlock)) as [Hr|Hr].
    + assert (genPolicyDomain originHost nf = GenBlocked) as ->.
      { unfold genPolicyDomain. fold rule. by rewrite bool_decide_eq_true_2. }
      split; [naive_solver|]. split; [by intros (? & ? & ? & _)|]. intros (_ & _ & Hu & _).
      destruct rule as [dp|]; [|done]. cbn in Hr, Hu. congruence.
    + pose proof (genPolicyDomain_chosen originHost nf Hr) as Hc. cbv zeta in Hc. fold rule in Hc.
      destruct (chosenTarget originHost nf) as [[target exempt]|].
      2: { split; split; destruct Hc as [->| ->]; naive_solver. }
      rewrite Hc. split.
      * rewrite finishDomain_blocked. unfold byTarget. split.
        -- intros (-> & Hok & r & E & Hd). right. exists target. rewrite E. eauto.
        -- intros [?|(? & [= <- ->] & [r E] & Hok & Hd)]; [done|]. rewrite E in Hd. eauto.
      * rewrite finishDomain_let_through, defaults_block by done. naive_solver.
Qed.

(** A block rule for the domain makes the plan a blocked one. *)
Lemma planFor_block req recovered d dp :
  isIPText d = false → Domain.Find (domainMatcher t) d = Some dp → pMode dp = ModeBlock →
  ∃ plan, planFor req recovered d false = Ok plan ∧ dp_blocked plan = true.
Proof.
  intros Hip Hf Hb. unfold planFor, genPolicy, genPolicyDomain. rewrite Hip, Hf. cbn [orb fmap option_fmap option_map].
  rewrite Hb, bool_decide_eq_true_2 by done. by eexists.
Qed.

(** A request for a domain that has no rule is planned with one of the two
    built-in fallback policies, and those decide the connect timeout, the send
    interval and the other durations and numbers themselves: what the default
    policy says about them is not used. *)
Theorem fallback_hides_default req recovered host plan :
  planFor req recovered host false = Ok plan → dp_blocked plan = false →
  Domain.Find (domainMatcher t) host = None → Domain.Find (domainMatcher t) (to_lower host) = None →
  pMode (dp_policy plan) = (match classifyDomainRoute host with domainRouteGFW => ModeTLSRF | _ => ModeRaw end) ∧
  pConnectTimeout (dp_policy plan) = 0 ∧ pSendInterval (dp_policy plan) = 0 ∧
  pDNSCacheTTL (dp_policy plan) = 0 ∧ pPort (dp_policy plan) = 0 ∧ pHttpStatus (dp_policy plan) = 0 ∧
  pHost (dp_policy plan) = [] ∧ dp_targetPort plan = rq_port req.
Proof.
  intros E Hb Hf Hfl.
  assert (found (@None Policy) = false) as Hnone by (apply bool_decide_eq_false_2; by intros [? ?]).
  assert (classifyDomainRoute host ≠ domainRouteRule) as Hc.
  { unfold classifyDomainRoute. destruct (bool_decide (to_lower host = [])); [done|].
    rewrite Hfl, Hnone. by destruct (isGFWDomain _). }
  unfold planFor in E. rewrite Hf, Hnone in E. cbn [negb andb] in E.
  destruct (genPolicy host false _) as [dst pol| | |]; [| |by injection E as <-|].
  2: done.
  all: destruct (classifyDomainRoute host); [|done|]; cbv zeta in E; apply bind_Ok in E as (d & _ & E);
    cbv zeta in E; injection E as <-; cbn [dp_policy dp_targetPort]; split_and!;
    unfold mergePolicies, gfwFallbackPolicy, plainFallbackPolicy; by vm_compute.
Qed.

End Route.

(** ** Witnesses for the rules above *)

Definition emptyTables (dflt : Policy) : Tables := loadTables dflt [] [] [] [] [].

Definition noPools : gostring → res gostring := λ _, fail "no ip pools".

(** A resolver that knows one address. *)
Definition demoDNS : gostring → DNSMode → Z → res (gostring * bool) := λ _ _ _, Ok (lit "93.184.216.34", false).

(** The default policy [block] lets an unmatched domain through, and a domain rule
    of mode [raw] overrides a blocking rule for its address. *)
Example block_not_enforced :
  genPolicy (emptyTables (setModes unsetPolicy ModeBlock DNSModeUnset)) noPools demoDNS "example.com" false false =
    GenOK "93.184.216.34" (setModes unsetPolicy ModeBlock DNSModeUnset) ∧
  let raw := setModes unsetPolicy ModeRaw DNSModeUnset in
  let ips := [(lit "93.184.216.0/24", setModes unsetPolicy ModeBlock DNSModeUnset)] in
  genPolicy (loadTables unsetPolicy [] [] ips [] []) noPools demoDNS "example.com" false false = GenBlocked ∧
  ∃ p, genPolicy (loadTables unsetPolicy [] [(lit "example.com", raw)] ips [] []) noPools demoDNS "example.com" false false =
    GenOK "93.184.216.34" p ∧ pMode p = ModeRaw.
Proof. split; [vm_compute; reflexivity|]. split; [vm_compute; reflexivity|]. eexists. split; vm_compute; reflexivity. Qed.

Lemma fallback_hides_default_witness :
  let t := emptyTables (mkPolicy BoolUnset SniffOverrideUnset DNSModePreferIPv4 (-1) (5 * second) unsetString
             unsetString [] (-1) (-1) BoolUnset ModeTLSRF 4 2 BoolUnset BoolUnset BoolUnset None
             (10 * 1000000) (-1) 0 0 0 (-1) (-1)) in
  ∃ plan, @planFor unicode_id t noPools demoDNS (λ _, false) (mkRequest [] "example.com" 443 ResolveDomainTarget)
            [] "example.com" false = Ok plan ∧
    pConnectTimeout (dp_policy plan) = 0 ∧ pSendInterval (dp_policy plan) = 0.
Proof.
  eexists. split; [vm_compute; reflexivity|].
  match goal with |- pConnectTimeout (dp_policy ?pl) = 0 ∧ _ =>
    pose proof (@fallback_hides_default unicode_id
      (emptyTables (mkPolicy BoolUnset SniffOverrideUnset DNSModePreferIPv4 (-1) (5 * second) unsetString
             unsetString [] (-1) (-1) BoolUnset ModeTLSRF 4 2 BoolUnset BoolUnset BoolUnset None
             (10 * 1000000) (-1) 0 0 0 (-1) (-1))) noPools demoDNS (λ _, false)
      (mkRequest [] "example.com" 443 ResolveDomainTarget) [] "example.com" pl
      ltac:(vm_compute; reflexivity) ltac:(vm_compute; reflexivity) ltac:(vm_compute; reflexivity)
      ltac:(vm_compute; reflexivity)) as Hall
  end.
  split; [exact (proj1 (proj2 Hall))|exact (proj1 (proj2 (proj2 Hall)))].
Defined.

(** ** Synthetic addresses lead back to their domain *)

Section Recover.
Context `{GoUnicode}.

Lemma pool_is_ip s ip : wfStore s → inPool (fs_prefix s) ip → isIPText ip = true.
Proof.
  intros Hs (v & Hv & ->). apply bool_decide_eq_true_2. unfold ParseIP.
  pose proof (wf_pool s Hs) as Hp. pose proof (pool_top _ Hp).
  rewrite ParseAddr_AddrString.
  - by rewrite addrAt_zone.
  - apply addrAt_wf; [done|]. unfold poolLast in *. lia.
  - apply addrAt_zone.
Qed.

(** Addresses of one pool are not in the other. *)
Lemma pools_disjoint s4 s6 ip :
  wfStore s4 → wfStore s6 → Is4 (PAddr (fs_prefix s4)) = true → Is4 (PAddr (fs_prefix s6)) = false →
  inPool (fs_prefix s6) ip → fs_ipToEntry s4 !! ip = None.
Proof.
  intros H4 H6 E4 E6 (v & Hv & ->).
  destruct (fs_ipToEntry s4 !! _) as [e|] eqn:E; [exfalso|done].
  apply (wf_ip s4 H4) in E as (_ & _ & u & Hu & Estr).
  pose proof (wf_pool _ H4) as P4. pose proof (wf_pool _ H6) as P6.
  pose proof (pool_top _ P4). pose proof (pool_top _ P6). unfold poolLast in *.
  apply AddrString_inj in Estr; [|apply addrAt_wf; (done || lia)|apply addrAt_wf; (done || lia)|apply addrAt_zone..].
  unfold addrAt in Estr. destruct (PAddr (fs_prefix s4)), (PAddr (fs_prefix s6)); done.
Qed.

(** Both stores well formed, each of its own family. *)
Definition wfStores (st : fakeStores) : Prop :=
  wfStore (v4Store st) ∧ wfStore (v6Store st) ∧
  Is4 (PAddr (fs_prefix (v4Store st))) = true ∧ Is4 (PAddr (fs_prefix (v6Store st))) = false.

Lemma lookup_allocated domain qtype ttl now st ip st' t :
  wfStores st → allocateFakeIP domain qtype ttl now st = Some (Ok ip, st') →
  t < now + effectiveLifetime (fakeIPLifetime ttl) →
  isIPText ip = true ∧ fst (lookupFakeDomainByIP ip t st') = Some (to_lower domain) ∧ to_lower domain ≠ [].
Proof.
  intros (H4 & H6 & E4 & E6) HA Ht. unfold allocateFakeIP in HA. unfold lookupFakeDomainByIP.
  destruct (qtype =? TypeA); [|destruct (qtype =? TypeAAAA); [|done]].
  - destruct (Allocate_spec domain (fakeIPLifetime ttl) now _ H4) as (r & s' & E & Hs' & Hp & Hres).
    rewrite E in HA. cbn in HA. injection HA as -> <-. destruct Hres as (Hne & Hpool & Hd & _).
    split; [exact (pool_is_ip (v4Store st) ip H4 Hpool)|]. split; [|done]. cbn [v4Store].
    destruct (LookupDomain ip t s') as [r s''] eqn:El.
    apply LookupDomain_spec in El as (_ & _ & Hl & _); [|done].
    assert (r = Some (to_lower domain)) as -> by (apply Hl; by eexists). done.
  - destruct (Allocate_spec domain (fakeIPLifetime ttl) now _ H6) as (r & s' & E & Hs' & Hp & Hres).
    rewrite E in HA. cbn in HA. injection HA as -> <-. destruct Hres as (Hne & Hpool & Hd & _).
    split; [exact (pool_is_ip (v6Store st) ip H6 Hpool)|]. split; [|done]. cbn [v4Store v6Store].
    assert (LookupDomain ip t (v4Store st) = (None, v4Store st)) as ->.
    { unfold LookupDomain. by rewrite (pools_disjoint _ (v6Store st)). }
    destruct (LookupDomain ip t s') as [r s''] eqn:El.
    apply LookupDomain_spec in El as (_ & _ & Hl & _); [|done]. apply Hl. by eexists.
Qed.

(** A request for an address that is known to stand for a domain. *)
Lemma plan_recovered tables pools dns lookup fake req ip d :
  isIPText ip = true → lookup ip = Some d → d ≠ [] → rq_host req = ip →
  PlanRequest tables pools dns lookup fake req = planFor tables pools dns fake req d d false.
Proof.
  intros Hip Hl Hne Hh. unfold PlanRequest. rewrite Hh, Hip, Hl. cbn [default from_option andb]. unfold id.
  rewrite (bool_decide_eq_false_2 (d = [])) by done. cbn [negb].
  rewrite bool_decide_eq_false_2; [done|]. intros ->. vm_compute in Hip. done.
Qed.

(** End to end, a request for a synthetic address is planned as a request
    for the domain it was handed out for: while the mapping lives, the plan is
    the one [PlanRequest] makes for that domain, with the domain noted as
    recovered. *)
Theorem fake_ip_plan st st' domain qtype ttl now ip t tables pools dns req :
  wfStores st → allocateFakeIP domain qtype ttl now st = Some (Ok ip, st') →
  t < now + effectiveLifetime (fakeIPLifetime ttl) → rq_host req = ip →
  let lookup := λ a, fst (lookupFakeDomainByIP a t st') in
  let fake := λ a, isFakeIPAddress a st' in
  PlanRequest tables pools dns lookup fake req =
  planFor tables pools dns fake req (to_lower domain) (to_lower domain) false.
Proof.
  intros Hst HA Ht Hh lookup fake.
  destruct (lookup_allocated _ _ _ _ _ _ _ t Hst HA Ht) as (Hip & Hl & Hne).
  by apply (plan_recovered _ _ _ _ _ _ ip).
Qed.

Lemma newStores_wf st : newFakeStores = Some st → wfStores st.
Proof.
  unfold newFakeStores, mustNewFakeIPStore. rewrite cidr4, cidr6. cbn [mbind option_bind].
  intros [= <-]. destruct pools_ok as [P4 P6].
  split_and!; cbn [v4Store v6Store]; [by apply new_wf|by apply new_wf|done|done].
Qed.

End Recover.

Lemma fake_ip_plan_witness :
  ∃ st st', newFakeStores = Some st ∧
    @allocateFakeIP unicode_id "Example.com" TypeAAAA 300 5 st = Some (Ok (lit "fd66:6c75:6d69:100::1"), st') ∧
    let t := emptyTables unsetPolicy in
    let req := mkRequest "mobile_tun" "fd66:6c75:6d69:100::1" 443 PreserveDomainTarget in
    @PlanRequest unicode_id t noPools demoDNS (λ a, fst (lookupFakeDomainByIP a 100 st'))
      (λ a, isFakeIPAddress a st') req =
    @planFor unicode_id t noPools demoDNS (λ a, isFakeIPAddress a st') req "example.com" "example.com" false.
Proof.
  eexists _, _. split; [vm_compute; reflexivity|]. split; [vm_compute; reflexivity|].
  refine (@fake_ip_plan unicode_id _ _ "Example.com" TypeAAAA 300 5 "fd66:6c75:6d69:100::1" 100
            (emptyTables unsetPolicy) noPools demoDNS _ _ _ _ _).
  - apply newStores_wf. vm_compute. reflexivity.
  - vm_compute. reflexivity.
  - vm_compute. reflexivity.
  - reflexivity.
Defined.

(** ** NAT64 addresses *)

Lemma nat64PrefixIP_wf prefix b : nat64PrefixIP prefix = Some b → wf_bytes b.
Proof.
  assert (∀ a, wf_bytes (AsSlice a) ∧ wf_bytes (As16 a)) as Hwf.
  { intros [|v|v z]; (split; [|apply be_bytes_wf]); [constructor|apply be_bytes_wf..]. }
  unfold nat64PrefixIP, ParseCIDR, ParseIP. destruct (contains prefix "/").
  - destruct (index_byte prefix slash) as [i|]; [|done]. cbn [mbind option_bind].
    destruct (ParseAddr (take i prefix)) as [a|]; [|done]. cbn [mbind option_bind].
    destruct (parse_uint 63 _) as [n|]; [|done]. cbn [mbind option_bind].
    destruct (_ || _); [done|]. intros [= <-]. apply Hwf.
  - destruct (ParseAddr prefix) as [a|]; [|done]. destruct (has_zone a); [done|]. intros [= <-]. apply Hwf.
Qed.

Definition v4Mapped : bytes := replicate 10 0 ++ [255; 255].

Lemma To4_mapped v : 0 ≤ v < 2 ^ 32 → To4 (As16 (Addr4 v)) = Some (be_bytes 4 v).
Proof.
  intros Hv. cbn [As16]. assert (be_bytes 16 (65535 * 2 ^ 32 + v) = v4Mapped ++ be_bytes 4 v) as ->.
  { rewrite (IPTrie.be_bytes_app 12 4) by lia. change (8 * Z.of_nat 4) with 32.
    assert (Z.shiftr (65535 * 2 ^ 32 + v) 32 = 65535) as ->.
    { rewrite Z.shiftr_div_pow2, Z.div_add_l, Z.div_small by lia. lia. }
    change (be_bytes 12 65535) with v4Mapped. f_equal.
    rewrite <- (be_bytes_value (be_bytes 4 v) (be_bytes_wf 4 v)), be_bytes_length.
    rewrite <- (be_bytes_value (be_bytes 4 (65535 * 2 ^ 32 + v)) (be_bytes_wf 4 _)), be_bytes_length.
    f_equal. rewrite !be_value_bytes by lia. change (8 * Z.of_nat 4) with 32.
    rewrite Z.add_comm, Z.mod_add by lia. done. }
  unfold To4, zlen. rewrite length_app, be_bytes_length. cbn [length v4Mapped replicate app].
  destruct (Z.eqb_spec (Z.of_nat 16) 4); [lia|]. change (Z.of_nat (12 + 4) =? 16) with true.
  rewrite bool_decide_eq_true_2 by done. done.
Qed.

(** Under NAT64 an IPv4 address becomes the IPv6 address with the first 96
    bits of the configured prefix and the IPv4 address as its last 32 bits, in
    text that reads back as exactly that address. *)
Theorem mapNAT64_embeds ipStr prefix v b :
  ParseAddr ipStr = Some (Addr4 v) → trim_space prefix ≠ [] →
  nat64PrefixIP (trim_space prefix) = Some b → zlen b = 16 → take 12 b ≠ v4Mapped →
  ∃ text, mapNAT64Addr ipStr prefix = (text, true) ∧
    ParseAddr text = Some (Addr6 (be_value (take 12 b) * 2 ^ 32 + v) []).
Proof.
  intros Hip Hne Hpre Hlen Hmap. pose proof (ParseAddr_wf _ _ Hip) as Hv. cbn [addr_wf] in Hv.
  pose proof (nat64PrefixIP_wf _ _ Hpre) as Hwf.
  unfold mapNAT64Addr. rewrite bool_decide_eq_false_2 by done.
  unfold ParseIP at 1. rewrite Hip. cbn [has_zone]. rewrite To4_mapped by done. rewrite Hpre, Hlen.
  change (16 =? 16) with true. cbv iota. eexists. split; [done|].
  set (q := take 12 b ++ be_bytes 4 v).
  assert (length q = 16%nat) as Hq.
  { unfold q. rewrite length_app, length_take, be_bytes_length. unfold zlen in Hlen. lia. }
  assert (wf_bytes q) as Hqw by (apply Forall_app; split; [by apply Forall_take|apply be_bytes_wf]).
  assert (be_value q = be_value (take 12 b) * 2 ^ 32 + v) as Hval.
  { unfold q. rewrite be_value_app, be_value_bytes_small by (change (8 * Z.of_nat 4) with 32; done).
    unfold zlen. rewrite be_bytes_length. done. }
  unfold IPString, To4, zlen. rewrite Hq. change (Z.of_nat 16 =? 4) with false.
  change (Z.of_nat 16 =? 16) with true. cbn [andb].
  assert (take 12 q = take 12 b) as Htq.
  { unfold q. rewrite take_app_le by (rewrite length_take; unfold zlen in Hlen; lia). by rewrite take_take. }
  rewrite Htq, bool_decide_eq_false_2 by done. unfold AddrFrom16. rewrite Hval.
  apply ParseAddr_AddrString; [|done]. rewrite <- Hval. cbn [addr_wf].
  pose proof (be_value_range q Hqw) as Hr. unfold zlen in Hr. rewrite Hq in Hr. exact Hr.
Qed.

Lemma mapNAT64_embeds_witness :
  ∃ text, mapNAT64Addr "192.0.2.33" " 64:ff9b::/96 " = (text, true) ∧
    ParseAddr text = Some (Addr6 (0x64ff9b0000000000000000 * 2 ^ 32 + 0xc0000221) []).
Proof.
  apply (mapNAT64_embeds "192.0.2.33" " 64:ff9b::/96 " 0xc0000221
           [0; 100; 255; 155; 0; 0; 0; 0; 0; 0; 0; 0; 0; 0; 0; 0]);
    [vm_compute; reflexivity|discriminate|vm_compute; reflexivity|reflexivity|discriminate].
Defined.
