(* ===== verification/Ring.v ===== *)
(** * Rings of indexes

    A doubly linked ring kept in two index functions, [f] forward and [g]
    backward, described by the list of its members from some starting point.
    The lemmas say what unlinking, linking and renaming a member does to the
    list; the LRU cache keeps all its elements in such rings. *)

From S2P Require Import Prelude.
Local Open Scope Z_scope.

(** Function update. *)
Definition fset {A} (f : Z → A) (x : Z) (y : A) : Z → A := λ z, if decide (z = x) then y else f z.

Lemma fset_eq {A} (f : Z → A) x y : fset f x y x = y.
Proof. unfold fset. by rewrite decide_True. Qed.

Lemma fset_ne {A} (f : Z → A) x y z : z ≠ x → fset f x y z = f z.
Proof. intros. unfold fset. by rewrite decide_False. Qed.

Section Ring.
Implicit Types (f g : Z → Z) (l : list Z).

(** The links from [x] through [l] to [y]. *)
Fixpoint path f g (x : Z) l (y : Z) : Prop :=
  match l with
  | [] => f x = y ∧ g y = x
  | z :: l' => f x = z ∧ g z = x ∧ path f g z l' y
  end.

Definition ring f g l : Prop :=
  match l with
  | [] => True
  | x :: l' => path f g x l' x
  end.

Lemma path_ext f g f' g' x l y :
  (∀ z, z ∈ x :: l → f' z = f z) → (∀ z, z ∈ l ++ [y] → g' z = g z) → path f g x l y → path f' g' x l y.
Proof.
  revert x. induction l as [|z l IH]; intros x Hf Hg; simpl.
  - intros [H1 H2]. rewrite Hf, Hg by set_solver. done.
  - intros (H1 & H2 & H3). rewrite Hf, Hg by set_solver. split_and!; [done..|].
    apply IH; [set_solver..|done].
Qed.

Lemma path_app f g x l1 z l2 y : path f g x (l1 ++ z :: l2) y ↔ path f g x l1 z ∧ path f g z l2 y.
Proof.
  revert x. induction l1 as [|w l1 IH]; intros x; simpl; [tauto|]. rewrite IH. tauto.
Qed.

(** The last link. *)
Lemma path_last f g x l y :
  path f g x l y → ∃ p, last (x :: l) = Some p ∧ f p = y ∧ g y = p.
Proof.
  revert x. induction l as [|z l IH]; intros x; cbn [path].
  - intros [H1 H2]. by exists x.
  - intros (H1 & H2 & H3). destruct (IH z H3) as (p & Hp & ?). by exists p.
Qed.

Lemma path_snoc f g x l p y : path f g x (l ++ [p]) y ↔ path f g x l p ∧ f p = y ∧ g y = p.
Proof. rewrite path_app. done. Qed.

Lemma ring_ext f g f' g' l :
  (∀ z, z ∈ l → f' z = f z) → (∀ z, z ∈ l → g' z = g z) → ring f g l → ring f' g' l.
Proof. destruct l as [|x l]; [done|]. intros Hf Hg. apply path_ext; [done|]. intros z Hz. apply Hg. set_solver. Qed.

Lemma ring_rotate f g l1 l2 : ring f g (l1 ++ l2) → ring f g (l2 ++ l1).
Proof.
  destruct l1 as [|x l1]; [by rewrite app_nil_r|]. destruct l2 as [|y l2]; [by rewrite app_nil_r|].
  simpl. rewrite !path_app. tauto.
Qed.

(** Any member can be put first. *)
Lemma ring_at f g l x : ring f g l → x ∈ l → NoDup l →
  ∃ l1 l2, l = l1 ++ x :: l2 ∧ ring f g (x :: l2 ++ l1) ∧ NoDup (x :: l2 ++ l1).
Proof.
  intros Hr (l1 & l2 & ->)%list_elem_of_split Hnd. exists l1, l2. split; [done|]. split.
  - change (ring f g ((x :: l2) ++ l1)). by apply ring_rotate.
  - eapply NoDup_Permutation_proper; [|exact Hnd]. rewrite <- Permutation_middle. constructor. apply Permutation_app_comm.
Qed.

Lemma ring_closed f g l x : ring f g l → x ∈ l → f x ∈ l ∧ g x ∈ l ∧ g (f x) = x ∧ f (g x) = x.
Proof.
  intros Hr Hx. apply list_elem_of_split in Hx as (l1 & l2 & ->).
  apply ring_rotate in Hr. simpl in Hr.
  destruct (path_last _ _ _ _ _ Hr) as (p & Hp & H1 & H2).
  assert (f x ∈ (x :: l2 ++ l1) ∧ g (f x) = x) as [F1 F2].
  { destruct (l2 ++ l1) as [|z l]; simpl in Hr; [destruct Hr as [-> ->]; set_solver|].
    destruct Hr as (-> & -> & _). set_solver. }
  apply last_Some_elem_of in Hp. rewrite H2. split_and!; [set_solver|set_solver|done|done].
Qed.

(** Unlinking the first member. *)
Lemma ring_remove f g x l : NoDup (x :: l) → ring f g (x :: l) →
  ring (fset f (g x) (f x)) (fset g (f x) (g x)) l.
Proof.
  intros [Hx Hnd]%NoDup_cons Hr. destruct l as [|y l]; [done|]. simpl in Hr.
  destruct Hr as (Hfx & Hgy & Hp). rewrite Hfx.
  destruct (decide (l = [])) as [->|Hne].
  - simpl in *. destruct Hp as [H1 H2]. rewrite H2, !fset_eq. done.
  - destruct (exists_last Hne) as (l' & p & ->). apply path_snoc in Hp as (Hp & H1 & H2).
    apply NoDup_cons in Hnd as [Hy Hnd]. apply NoDup_app in Hnd as (Hnd & Hdis & _).
    simpl. rewrite H2. apply path_snoc. split_and!; [|apply fset_eq..].
    eapply path_ext; [| |exact Hp]; intros z Hz; apply fset_ne; set_solver.
Qed.

(** Linking [x] before the first member. *)
Lemma ring_insert f g f' g' x y l : x ∉ y :: l → NoDup (y :: l) → ring f g (y :: l) →
  f' x = y → f' (g y) = x → (∀ z, z ≠ x → z ≠ g y → f' z = f z) →
  g' x = g y → g' y = x → (∀ z, z ≠ x → z ≠ y → g' z = g z) →
  ring f' g' (x :: y :: l).
Proof.
  intros Hx [Hy Hnd]%NoDup_cons Hr F1 F2 F3 G1 G2 G3. simpl in *. split_and!; [done..|].
  destruct (decide (l = [])) as [->|Hne]; [simpl in *; destruct Hr as [H1 H2]; rewrite H2 in *; done|].
  destruct (exists_last Hne) as (l' & p & ->). apply path_snoc in Hr as (Hp & H1 & H2). rewrite H2 in *.
  apply path_snoc. split_and!; [|done..]. apply NoDup_app in Hnd as (Hnd & Hdis & _).
  eapply path_ext; [| |exact Hp]; intros z Hz; [apply F3|apply G3]; set_solver.
Qed.

(** Renaming the first member to an index outside the ring. *)
Lemma ring_rename f g f1 g1 f' g' x x' l : x' ∉ x :: l → NoDup (x :: l) → ring f g (x :: l) →
  f1 = fset f (g x) x' → g1 = fset g (f x) x' → f' = fset f1 x' (f1 x) → g' = fset g1 x' (g1 x) →
  ring f' g' (x' :: l).
Proof.
  intros Hx' [Hx Hnd]%NoDup_cons Hr -> -> -> ->. destruct l as [|y l]; simpl in Hr.
  - destruct Hr as [H1 H2]. rewrite H1, H2. simpl. rewrite !fset_eq. done.
  - destruct Hr as (Hfx & Hgy & Hp). simpl. rewrite Hfx.
    apply NoDup_cons in Hnd as [Hy Hnd].
    assert (∃ p, p ∈ y :: l ∧ g x = p) as (p0 & Hp0 & Hgx).
    { destruct (path_last _ _ _ _ _ Hp) as (p & Hl & _ & ?). exists p. split; [by apply last_Some_elem_of|done]. }
    assert (x ≠ p0) as N1 by (intros ->; done).
    apply not_elem_of_cons in Hx' as [N2 [N3 Hl]%not_elem_of_cons].
    assert (x' ≠ p0) as N4 by (intros ->; by apply not_elem_of_cons in Hp0).
    apply not_elem_of_cons in Hx as [N5 Hxl].
    rewrite Hgx, fset_eq, (fset_ne f p0 x' x), (fset_ne _ x' _ y), fset_eq by done. split_and!; [done..|].
    destruct (decide (l = [])) as [->|Hne].
    + simpl in *. destruct Hp as [H1 H2]. assert (p0 = y) as -> by congruence.
      rewrite (fset_ne _ x' _ y), !fset_eq by done. rewrite (fset_ne g y x' x), Hgx by done. done.
    + destruct (exists_last Hne) as (l' & p & ->). apply path_snoc in Hp as (Hp & H1 & H2).
      assert (p0 = p) as -> by congruence. apply NoDup_app in Hnd as (Hnd & Hdis & _).
      apply path_snoc. split_and!.
      * eapply path_ext; [| |exact Hp]; intros z Hz; rewrite !fset_ne; try done; intros ->; set_solver.
      * rewrite (fset_ne _ x'), fset_eq by done. done.
      * rewrite fset_eq. by rewrite fset_ne by done.
Qed.

End Ring.
