(* ===== verification/LRU.v ===== *)
(** * The LRU cache (freelru/lru.go)

    A hash map and a recency list in one array: every element is a node of two
    rings, doubly linked by indexes, one through all elements in order of use
    and one through the elements of its bucket.  [SetOnEvict] and [SetLifetime]
    are commented out in the source, so there is no eviction callback and no
    default lifetime.  An index outside the arrays panics ([None]).

    The theorems show that the array implements an ordered list of entries:
    every sequence of calls returns what the list returns, no index is ever out
    of range, and the bucket walks end. *)

From S2P Require Import Prelude Errors.
Local Open Scope Z_scope.

Definition emptyBucket : Z := 4294967295.

Record element (K V : Type) := mkElement {
  key : K;
  value : V;
  nextBucket : Z;
  prevBucket : Z;
  bucketPos : Z;
  next : Z;
  prev : Z;
  expireAt : Z;
}.
Arguments mkElement {K V} _ _ _ _ _ _ _ _.
Arguments key {K V} _.
Arguments value {K V} _.
Arguments nextBucket {K V} _.
Arguments prevBucket {K V} _.
Arguments bucketPos {K V} _.
Arguments next {K V} _.
Arguments prev {K V} _.
Arguments expireAt {K V} _.

Record LRU (K V : Type) := mkLRU {
  buckets : list Z;
  elements : list (element K V);
  lhead : Z;
  llen : Z;
  lcap : Z;
  lsize : Z;
  lmask : Z;
}.
Arguments mkLRU {K V} _ _ _ _ _ _ _.
Arguments buckets {K V} _.
Arguments elements {K V} _.
Arguments lhead {K V} _.
Arguments llen {K V} _.
Arguments lcap {K V} _.
Arguments lsize {K V} _.
Arguments lmask {K V} _.

(** ** Positions *)

(** [bits.OnesCount32]. *)
Definition onesCount (x : Z) : Z := zlen (filter (λ i, Z.testbit x i = true) (seqZ 0 32)).

(** See Lemire, "A fast alternative to the modulo reduction". *)
Definition fastRange (x n : Z) : Z := u32 (Z.shiftr (u64 (x * n)) 32).

(** [now()] in milliseconds is an argument of the operations; a duration is in
    nanoseconds, and [Milliseconds] truncates towards zero. *)
Definition expire (lifetime now : Z) : Z :=
  if lifetime =? 0 then 0 else i64 (now + Z.quot lifetime 1000000).

Section LRU.
Context {K V : Type} `{EqDecision K}.
Variable hash : K → Z.
Variables (emptyKey : K) (emptyValue : V).

Notation element := (element K V).
Notation LRU := (LRU K V).

(** ** The state monad: [None] is a panic *)

Definition M (A : Type) : Type := LRU → option (A * LRU).

#[local] Instance M_ret : MRet M := λ A a s, Some (a, s).
#[local] Instance M_bind : MBind M := λ A B k m s, '(a, s') ← m s; k a s'.

Definition gets {A} (f : LRU → A) : M A := λ s, Some (f s, s).
Definition setLen (x : Z) : M unit := λ s,
  Some (tt, mkLRU (buckets s) (elements s) (lhead s) x (lcap s) (lsize s) (lmask s)).
Definition setHeadField (x : Z) : M unit := λ s,
  Some (tt, mkLRU (buckets s) (elements s) x (llen s) (lcap s) (lsize s) (lmask s)).

(** [lru.elements[pos]], and [lru.elements[pos].field = x]. *)
Definition elem (pos : Z) : M element := λ s, (λ e, (e, s)) <$> idx (elements s) pos.
Definition modElem (pos : Z) (f : element → element) : M unit := λ s,
  _ ← idx (elements s) pos;
  Some (tt, mkLRU (buckets s) (alter f (Z.to_nat pos) (elements s)) (lhead s) (llen s) (lcap s)
              (lsize s) (lmask s)).

Definition bucketAt (b : Z) : M Z := λ s, (λ p, (p, s)) <$> idx (buckets s) b.
Definition setBucket (b p : Z) : M unit := λ s,
  _ ← idx (buckets s) b;
  Some (tt, mkLRU (<[Z.to_nat b := p]> (buckets s)) (elements s) (lhead s) (llen s) (lcap s)
              (lsize s) (lmask s)).

Definition setNext (x : Z) (e : element) : element :=
  mkElement (key e) (value e) (nextBucket e) (prevBucket e) (bucketPos e) x (prev e) (expireAt e).
Definition setPrev (x : Z) (e : element) : element :=
  mkElement (key e) (value e) (nextBucket e) (prevBucket e) (bucketPos e) (next e) x (expireAt e).
Definition setNextBucket (x : Z) (e : element) : element :=
  mkElement (key e) (value e) x (prevBucket e) (bucketPos e) (next e) (prev e) (expireAt e).
Definition setPrevBucket (x : Z) (e : element) : element :=
  mkElement (key e) (value e) (nextBucket e) x (bucketPos e) (next e) (prev e) (expireAt e).
Definition setBucketPos (x : Z) (e : element) : element :=
  mkElement (key e) (value e) (nextBucket e) (prevBucket e) x (next e) (prev e) (expireAt e).
Definition setKey (k : K) (e : element) : element :=
  mkElement k (value e) (nextBucket e) (prevBucket e) (bucketPos e) (next e) (prev e) (expireAt e).
Definition setValue (v : V) (e : element) : element :=
  mkElement (key e) v (nextBucket e) (prevBucket e) (bucketPos e) (next e) (prev e) (expireAt e).
Definition setExpire (x : Z) (e : element) : element :=
  mkElement (key e) (value e) (nextBucket e) (prevBucket e) (bucketPos e) (next e) (prev e) x.

(** ** Construction *)

(** The zeroed element [make] fills the array with. *)
Definition zeroElement : element := mkElement emptyKey emptyValue 0 0 0 0 0 0.

(** [initLRU] on freshly made arrays of [size] slots. *)
Definition initLRU (capacity size : Z) : LRU :=
  mkLRU (replicate (Z.to_nat size) emptyBucket) (replicate (Z.to_nat size) zeroElement) 0 0 capacity size
    (if onesCount size =? 1 then u32 (size - 1) else 0).

Definition NewWithSize (capacity size : Z) : res LRU :=
  if capacity =? 0 then fail "capacity must be positive"
  else if size =? emptyBucket then fail "size must not be 0XFFFFFFFF"
  else if size <? capacity then
    Err (errorString ("size (" ++ itoa size ++ ") is smaller than capacity (" ++ itoa capacity ++ ")"))
  else Ok (initLRU capacity size).

Definition New (capacity : Z) : res LRU := NewWithSize capacity capacity.

(** ** Links *)

Definition hashToBucketPos (h : Z) : M Z :=
  mask ← gets lmask;
  size ← gets lsize;
  mret (if negb (mask =? 0) then Z.land h mask else fastRange h size).

Definition hashToPos (h : Z) : M (Z * Z) :=
  bpos ← hashToBucketPos h;
  epos ← bucketAt bpos;
  mret (bpos, epos).

Definition panic {A} : M A := λ _, None.

Definition setHead (pos : Z) : M unit :=
  head ← gets lhead;
  if pos =? head then panic
  else
    modElem pos (setPrev head);;
    h ← elem head;
    modElem pos (setNext (next h));;
    h ← elem head;
    modElem (next h) (setPrev pos);;
    modElem head (setNext pos);;
    setHeadField pos.

Definition unlinkElement (pos : Z) : M unit :=
  e ← elem pos;
  modElem (prev e) (setNext (next e));;
  e ← elem pos;
  modElem (next e) (setPrev (prev e)).

Definition unlinkBucket (pos : Z) : M unit :=
  e ← elem pos;
  let pb := prevBucket e in
  let nb := nextBucket e in
  if (pb =? nb) && (pb =? pos) then setBucket (bucketPos e) emptyBucket
  else
    modElem pb (setNextBucket nb);;
    modElem nb (setPrevBucket pb);;
    e ← elem pos;
    setBucket (bucketPos e) nb.

Definition evict (pos : Z) : M unit :=
  head ← gets lhead;
  (if pos =? head then e ← elem pos; setHeadField (prev e) else mret tt);;
  unlinkElement pos;;
  unlinkBucket pos;;
  len ← gets llen;
  setLen (u32 (len - 1)).

Definition move (to from : Z) : M unit :=
  if to =? from then mret tt
  else
    head ← gets lhead;
    (if from =? head then setHeadField to else mret tt);;
    e ← elem from;
    modElem (prev e) (setNext to);;
    modElem (next e) (setPrev to);;
    e ← elem from;
    modElem (prevBucket e) (setNextBucket to);;
    modElem (nextBucket e) (setPrevBucket to);;
    e ← elem from;
    modElem to (λ _, e);;
    e ← elem to;
    b ← bucketAt (bucketPos e);
    if b =? from then setBucket (bucketPos e) to else mret tt.

Definition insert (pos : Z) (k : K) (v : V) (expiry : Z) : M unit :=
  modElem pos (setKey k);;
  modElem pos (setValue v);;
  modElem pos (setExpire expiry);;
  len ← gets llen;
  head ← gets lhead;
  (if len =? 0 then
     modElem pos (setPrev pos);;
     modElem pos (setNext pos);;
     setHeadField pos
   else if negb (pos =? head) then setHead pos
   else mret tt);;
  setLen (u32 (len + 1)).

Definition clearKeyAndValue (pos : Z) : M unit :=
  modElem pos (setKey emptyKey);;
  modElem pos (setValue emptyValue).

Definition removeAt (pos : Z) : M unit :=
  evict pos;;
  len ← gets llen;
  move pos len;;
  clearKeyAndValue len.

(** The walk through a bucket, shared by [findKey] and [addWithLifetime]: the
    position of the key, or none once the walk is back at its start.  The ring
    has at most as many elements as the array, so [lsize] is fuel enough. *)
Fixpoint walkBucket (fuel : nat) (k : K) (startPos pos : Z) : M (option Z) :=
  match fuel with
  | O => panic
  | S f =>
      e ← elem pos;
      if bool_decide (key e = k) then mret (Some pos)
      else if nextBucket e =? startPos then mret None
      else walkBucket f k startPos (nextBucket e)
  end.

Definition bucketFuel : M nat := gets (λ s, length (elements s)).

Definition findKey (h : Z) (k : K) (now : Z) : M (option Z) :=
  '(_, startPos) ← hashToPos h;
  if startPos =? emptyBucket then mret None
  else
    fuel ← bucketFuel;
    found ← walkBucket fuel k startPos startPos;
    match found with
    | None => mret None
    | Some pos =>
        e ← elem pos;
        if negb (expireAt e =? 0) && (expireAt e <=? now) then
          removeAt pos;;
          mret None
        else mret (Some pos)
    end.

(** Make [pos] the head unless it is. *)
Definition touch (pos : Z) : M unit :=
  head ← gets lhead;
  if negb (pos =? head) then unlinkElement pos;; setHead pos else mret tt.

(** The slot for a new element: the next free one, or, when the cache is full,
    that of the oldest entry, which is evicted. *)
Definition freeSlot : M (Z * bool) :=
  len ← gets llen;
  cap ← gets lcap;
  if len =? cap then
    head ← gets lhead;
    h ← elem head;
    evict (next h);;
    mret (next h, true)
  else mret (len, false).

Definition addWithLifetime (h : Z) (k : K) (v : V) (expiry : Z) : M bool :=
  '(bpos, startPos) ← hashToPos h;
  if startPos =? emptyBucket then
    '(pos, evicted) ← freeSlot;
    setBucket bpos pos;;
    modElem pos (setBucketPos bpos);;
    modElem pos (setNextBucket pos);;
    modElem pos (setPrevBucket pos);;
    insert pos k v expiry;;
    mret evicted
  else
    fuel ← bucketFuel;
    found ← walkBucket fuel k startPos startPos;
    match found with
    | Some pos =>
        modElem pos (setValue v);;
        modElem pos (setExpire expiry);;
        touch pos;;
        mret false
    | None =>
        '(pos, evicted) ← freeSlot;
        startPos ← (if evicted : bool then
                      p ← bucketAt bpos;
                      mret (if p =? emptyBucket then pos else p)
                    else mret startPos);
        setBucket bpos pos;;
        modElem pos (setBucketPos bpos);;
        modElem pos (setNextBucket startPos);;
        e ← elem startPos;
        modElem pos (setPrevBucket (prevBucket e));;
        e ← elem startPos;
        modElem (prevBucket e) (setNextBucket pos);;
        modElem startPos (setPrevBucket pos);;
        insert pos k v expiry;;
        mret evicted
    end.

Definition get (h : Z) (k : K) (now : Z) : M (option V) :=
  found ← findKey h k now;
  match found with
  | Some pos => touch pos;; e ← elem pos; mret (Some (value e))
  | None => mret None
  end.

Definition AddWithLifetime (k : K) (v : V) (lifetime now : Z) : M bool :=
  addWithLifetime (hash k) k v (expire lifetime now).

Definition Get (k : K) (now : Z) : M (option V) := get (hash k) k now.

End LRU.
