(* ===== verification/LRUSpec.v ===== *)
(** * The LRU cache implements an ordered list of entries

    The abstract cache is the list of its entries, newest first.  The relation
    between the arrays of [LRU] and that list says that the elements in use form
    one ring in the order of the list, and the elements of each bucket another.
    Every operation is specified against the relation by a small program logic
    for the cache's state monad. *)

From S2P Require Import Prelude Errors Ring LRU.
Local Open Scope Z_scope.

(** ** The abstract cache *)

Section Spec.
Context {K V : Type} `{EqDecision K}.

Record entry := mkEntry { eKey : K; eValue : V; eExpire : Z }.

Definition without (k : K) (c : list entry) : list entry := filter (λ e, eKey e ≠ k) c.

Definition lookup (k : K) (c : list entry) : option entry := List.find (λ e, bool_decide (eKey e = k)) c.

(** Adding replaces the entry of the key, or else drops the oldest entry of a
    full cache; the result tells whether an entry was dropped. *)
Definition specAdd (cap : Z) (k : K) (v : V) (x : Z) (c : list entry) : bool * list entry :=
  match lookup k c with
  | Some _ => (false, mkEntry k v x :: without k c)
  | None =>
      if zlen c =? cap then (true, mkEntry k v x :: take (length c - 1) c)
      else (false, mkEntry k v x :: c)
  end.

Definition expired (e : entry) (now : Z) : bool := negb (eExpire e =? 0) && (eExpire e <=? now).

(** Reading makes the entry the newest; an expired entry is removed. *)
Definition specGet (k : K) (now : Z) (c : list entry) : option V * list entry :=
  match lookup k c with
  | Some e => if expired e now then (None, without k c) else (Some (eValue e), e :: without k c)
  | None => (None, c)
  end.

Lemma without_absent k (c : list entry) : (∀ e, e ∈ c → eKey e ≠ k) → without k c = c.
Proof.
  intros Hk. unfold without. induction c as [|x c IH]; [done|].
  rewrite filter_cons_True by (apply Hk; set_solver). f_equal. apply IH. set_solver.
Qed.

Lemma lookup_split k (c1 c2 : list entry) e :
  NoDup (eKey <$> c1 ++ e :: c2) → eKey e = k →
  lookup k (c1 ++ e :: c2) = Some e ∧ without k (c1 ++ e :: c2) = c1 ++ c2.
Proof.
  rewrite fmap_app, fmap_cons. intros (_ & Hdis & [Hne _]%NoDup_cons)%NoDup_app <-.
  assert (∀ x, x ∈ c1 ∨ x ∈ c2 → eKey x ≠ eKey e) as Hk.
  { intros x [Hx|Hx] E.
    - apply (Hdis (eKey x)); [by apply list_elem_of_fmap_2|]. rewrite E. set_solver.
    - apply Hne. rewrite <- E. by apply list_elem_of_fmap_2. }
  clear Hdis Hne. split.
  - unfold lookup. induction c1 as [|x c1 IH]; simpl; [by rewrite bool_decide_eq_true_2|].
    rewrite bool_decide_eq_false_2 by (apply Hk; set_solver). apply IH. intros y Hy. apply Hk. set_solver.
  - unfold without. rewrite filter_app, filter_cons_False by naive_solver. f_equal; apply without_absent; auto.
Qed.

Lemma lookup_none k (c : list entry) : (∀ e, e ∈ c → eKey e ≠ k) → lookup k c = None.
Proof.
  intros Hk. unfold lookup. induction c as [|x c IH]; [done|]. simpl.
  rewrite bool_decide_eq_false_2 by (apply Hk; set_solver). apply IH. set_solver.
Qed.

End Spec.
Arguments entry : clear implicits.
Arguments mkEntry {K V} _ _ _.

(** ** A program logic for the cache *)

Section Logic.
Context {K V : Type} `{EqDecision K}.
Variables (emptyKey : K) (emptyValue : V).
Variables (cap size mask : Z).

Notation element := (element K V).
Notation LRU := (LRU K V).
Notation M := (@M K V).

#[local] Existing Instance M_ret.
#[local] Existing Instance M_bind.

(** The contents of the arrays, as functions. *)
Record ghost := mkG { gE : Z → element; gB : Z → Z; gHead : Z; gLen : Z }.

Definition inb (p : Z) : Prop := 0 ≤ p < size.

Record rep (s : LRU) (g : ghost) : Prop := {
  rep_E : ∀ p, inb p → idx (elements s) p = Some (gE g p);
  rep_B : ∀ b, inb b → idx (buckets s) b = Some (gB g b);
  rep_head : lhead s = gHead g;
  rep_len : llen s = gLen g;
  rep_cap : lcap s = cap;
  rep_size : lsize s = size;
  rep_mask : lmask s = mask;
  rep_zlen : zlen (elements s) = size;
  rep_blen : zlen (buckets s) = size;
}.

(** [m], started in a state with contents [g], does not panic and ends with a
    result and contents that satisfy [Q]. *)
Definition hoare {A} (g : ghost) (m : M A) (Q : A → ghost → Prop) : Prop :=
  ∀ s, rep s g → ∃ a s' g', m s = Some (a, s') ∧ rep s' g' ∧ Q a g'.

Lemma hoare_ret {A} g (a : A) (Q : A → ghost → Prop) : Q a g → hoare g (mret a) Q.
Proof. intros HQ s Hs. by exists a, s, g. Qed.

Lemma hoare_bind {A A'} g (m : M A) (k : A → M A') Q :
  hoare g m (λ a g', hoare g' (k a) Q) → hoare g (m ≫= k) Q.
Proof.
  intros Hm s Hs. destruct (Hm s Hs) as (a & s' & g' & E & Hs' & Hk).
  destruct (Hk s' Hs') as (b & s'' & g'' & E' & Hs'' & HQ).
  exists b, s'', g''. split_and!; [|done..]. unfold mbind, M_bind. rewrite E. done.
Qed.

Lemma hoare_weaken {A} g (m : M A) (Q Q' : A → ghost → Prop) :
  hoare g m Q → (∀ a g', Q a g' → Q' a g') → hoare g m Q'.
Proof.
  intros Hm HQ s Hs. destruct (Hm s Hs) as (a & s' & g' & E & Hs' & Hq).
  exists a, s', g'. split_and!; auto.
Qed.

(** The element at [p] replaced. *)
Definition setE (g : ghost) (p : Z) (e : element) : ghost := mkG (fset (gE g) p e) (gB g) (gHead g) (gLen g).
Definition setB (g : ghost) (b p : Z) : ghost := mkG (gE g) (fset (gB g) b p) (gHead g) (gLen g).
Definition setH (g : ghost) (h : Z) : ghost := mkG (gE g) (gB g) h (gLen g).
Definition setN (g : ghost) (n : Z) : ghost := mkG (gE g) (gB g) (gHead g) n.

Lemma hoare_elem g p (Q : element → ghost → Prop) : inb p → Q (gE g p) g → hoare g (elem p) Q.
Proof.
  intros Hp HQ s Hs. exists (gE g p), s, g. split_and!; [|done..]. unfold elem. by rewrite (rep_E _ _ Hs).
Qed.

Lemma hoare_bucketAt g b (Q : Z → ghost → Prop) : inb b → Q (gB g b) g → hoare g (bucketAt b) Q.
Proof.
  intros Hp HQ s Hs. exists (gB g b), s, g. split_and!; [|done..]. unfold bucketAt. by rewrite (rep_B _ _ Hs).
Qed.

Lemma idx_alter {A} (f : A → A) (l : list A) p q : 0 ≤ p → 
  idx (alter f (Z.to_nat p) l) q = if decide (q = p) then f <$> idx l q else idx l q.
Proof.
  intros Hp. unfold idx. destruct (Z.leb_spec 0 q) as [Hq|Hq]; [|by case_decide].
  case_decide as E; [subst; apply list_lookup_alter_eq|]. apply list_lookup_alter_ne. lia.
Qed.

Lemma idx_insert {A} (x : A) (l : list A) p q : 0 ≤ p < zlen l →
  idx (<[Z.to_nat p := x]> l) q = if decide (q = p) then Some x else idx l q.
Proof.
  intros Hp. unfold idx, zlen in *. destruct (Z.leb_spec 0 q) as [Hq|Hq]; [|case_decide; [lia|done]].
  case_decide as E; [subst; apply list_lookup_insert_eq; lia|]. apply list_lookup_insert_ne. lia.
Qed.

Lemma hoare_modElem g p f (Q : unit → ghost → Prop) :
  inb p → Q tt (setE g p (f (gE g p))) → hoare g (modElem p f) Q.
Proof.
  intros Hp HQ s Hs. unfold modElem. rewrite (rep_E _ _ Hs p Hp). eexists _, _, _. split_and!; [done| |exact HQ].
  destruct Hs as [? ? ? ? ? ? ? Hz ?]. unfold inb in *. split; try done; simpl.
  - intros q Hq. rewrite idx_alter by lia. unfold fset. case_decide as E; [subst q; by rewrite rep_E0|by apply rep_E0].
  - unfold zlen in *. by rewrite length_alter.
Qed.

Lemma hoare_setBucket g b p (Q : unit → ghost → Prop) :
  inb b → Q tt (setB g b p) → hoare g (setBucket b p) Q.
Proof.
  intros Hp HQ s Hs. unfold setBucket. rewrite (rep_B _ _ Hs b Hp). eexists _, _, _. split_and!; [done| |exact HQ].
  destruct Hs as [? ? ? ? ? ? ? ? Hz]. unfold inb in *. split; try done; simpl.
  - intros q Hq. rewrite idx_insert by lia. unfold fset. case_decide as E; [done|by apply rep_B0].
  - unfold zlen in *. by rewrite length_insert.
Qed.

Lemma hoare_head g (Q : Z → ghost → Prop) : Q (gHead g) g → hoare g (gets lhead) Q.
Proof. intros HQ s Hs. eexists _, s, g. split_and!; [done..|]. by rewrite (rep_head _ _ Hs). Qed.

Lemma hoare_len g (Q : Z → ghost → Prop) : Q (gLen g) g → hoare g (gets llen) Q.
Proof. intros HQ s Hs. eexists _, s, g. split_and!; [done..|]. by rewrite (rep_len _ _ Hs). Qed.

Lemma hoare_cap g (Q : Z → ghost → Prop) : Q cap g → hoare g (gets lcap) Q.
Proof. intros HQ s Hs. eexists _, s, g. split_and!; [done..|]. by rewrite (rep_cap _ _ Hs). Qed.

Lemma hoare_setHeadField g h (Q : unit → ghost → Prop) : Q tt (setH g h) → hoare g (setHeadField h) Q.
Proof. intros HQ s []. eexists _, _, _. split_and!; [done| |exact HQ]. by split. Qed.

Lemma hoare_setLen g n (Q : unit → ghost → Prop) : Q tt (setN g n) → hoare g (setLen n) Q.
Proof. intros HQ s []. eexists _, _, _. split_and!; [done| |exact HQ]. by split. Qed.

Lemma hoare_if {A} g (b : bool) (m1 m2 : M A) Q :
  (b = true → hoare g m1 Q) → (b = false → hoare g m2 Q) → hoare g (if b then m1 else m2) Q.
Proof. destruct b; auto. Qed.

Ltac hstep :=
  lazymatch goal with
  | |- hoare _ (mbind _ _) _ => apply hoare_bind; hstep
  | |- hoare _ (mret _) _ => apply hoare_ret
  | |- hoare _ (elem _) _ => apply hoare_elem
  | |- hoare _ (modElem _ _) _ => apply hoare_modElem
  | |- hoare _ (bucketAt _) _ => apply hoare_bucketAt
  | |- hoare _ (setBucket _ _) _ => apply hoare_setBucket
  | |- hoare _ (gets lhead) _ => apply hoare_head
  | |- hoare _ (gets llen) _ => apply hoare_len
  | |- hoare _ (gets lcap) _ => apply hoare_cap
  | |- hoare _ (setHeadField _) _ => apply hoare_setHeadField
  | |- hoare _ (setLen _) _ => apply hoare_setLen
  end.

(** ** The links *)

Definition nx (g : ghost) (p : Z) : Z := next (gE g p).
Definition pv (g : ghost) (p : Z) : Z := prev (gE g p).
Definition nb (g : ghost) (p : Z) : Z := nextBucket (gE g p).
Definition pb (g : ghost) (p : Z) : Z := prevBucket (gE g p).
Definition bp (g : ghost) (p : Z) : Z := bucketPos (gE g p).

(** The entry at a position. *)
Definition dataOf (g : ghost) (p : Z) : K * V * Z := (key (gE g p), value (gE g p), expireAt (gE g p)).

Definition sameBuckets (g g' : ghost) : Prop :=
  (∀ q, nb g' q = nb g q) ∧ (∀ q, pb g' q = pb g q) ∧ (∀ q, bp g' q = bp g q) ∧ (∀ b, gB g' b = gB g b).

Definition sameOrder (g g' : ghost) : Prop :=
  (∀ q, nx g' q = nx g q) ∧ (∀ q, pv g' q = pv g q) ∧ gHead g' = gHead g ∧ gLen g' = gLen g.

Definition sameData (g g' : ghost) : Prop := ∀ q, dataOf g' q = dataOf g q.

(** Reduce a statement on the fields after some updates to the fields before. *)
Ltac fields :=
  unfold sameBuckets, sameOrder, sameData, dataOf, nx, pv, nb, pb, bp, setE, setB, setH, setN, fset; simpl;
  split_and?; intros; repeat (case_decide; subst; simpl); try congruence; try done.

Lemma unlinkElement_run g pos (Q : unit → ghost → Prop) :
  inb pos → inb (nx g pos) → inb (pv g pos) →
  (∀ g', sameBuckets g g' → sameData g g' → gHead g' = gHead g → gLen g' = gLen g →
     (∀ q, nx g' q = fset (nx g) (pv g pos) (nx g pos) q) →
     (∀ q, pv g' q = fset (pv g) (nx g pos) (pv g pos) q) → Q tt g') →
  hoare g (unlinkElement pos) Q.
Proof.
  intros Hp Hn Hv HQ. unfold unlinkElement. hstep; [done|]. hstep; [exact Hv|]. hstep; [done|].
  change (prev (gE g pos)) with (pv g pos). change (next (gE g pos)) with (nx g pos).
  set (g1 := setE g (pv g pos) _).
  assert (nx g1 pos = nx g pos) as E1 by (unfold g1; fields).
  assert (pv g1 pos = pv g pos) as E2 by (unfold g1; fields).
  change (prev (gE g1 pos)) with (pv g1 pos). change (next (gE g1 pos)) with (nx g1 pos). rewrite E1, E2.
  hstep; [exact Hn|]. apply HQ; unfold g1; clear; fields.
Qed.
(** ** The ring of all elements *)

Record orderOK (g : ghost) (O : list Z) : Prop := {
  ord_nodup : NoDup O;
  ord_inb : ∀ p, p ∈ O → inb p;
  ord_ring : ring (pv g) (nx g) O;
}.

Definition headOK (g : ghost) (O : list Z) : Prop :=
  match O with [] => True | x :: _ => gHead g = x end.

Lemma orderOK_same g g' O :
  (∀ q, nx g' q = nx g q) → (∀ q, pv g' q = pv g q) → orderOK g O → orderOK g' O.
Proof.
  intros Hn Hp [? ? Hr]. split; [done..|]. eapply ring_ext; [| |exact Hr]; auto.
Qed.

Lemma order_neighbours g O p : orderOK g O → p ∈ O → inb p ∧ inb (nx g p) ∧ inb (pv g p).
Proof.
  intros [Hnd Hin Hr] Hp. destruct (ring_closed _ _ _ _ Hr Hp) as (? & ? & _). auto.
Qed.

Lemma unlinkElement_order g pos O1 O2 (Q : unit → ghost → Prop) :
  orderOK g (O1 ++ pos :: O2) →
  (∀ g', sameBuckets g g' → sameData g g' → gHead g' = gHead g → gLen g' = gLen g →
     orderOK g' (O1 ++ O2) → Q tt g') →
  hoare g (unlinkElement pos) Q.
Proof.
  intros HO HQ. destruct (order_neighbours _ _ pos HO) as (? & ? & ?); [set_solver|].
  apply unlinkElement_run; [done..|]. intros g' Hb Hd Hh Hl Hnx Hpv. apply HQ; try done.
  destruct HO as [Hnd Hin Hr]. split.
  - apply (NoDup_app O1 (pos :: O2)) in Hnd as (? & Hdis & [??]%NoDup_cons). apply NoDup_app. set_solver.
  - set_solver.
  - apply ring_rotate. eapply ring_ext; [intros z _; apply Hpv|intros z _; apply Hnx|].
    apply ring_remove; [|exact (ring_rotate _ _ _ _ Hr)].
    eapply NoDup_Permutation_proper; [|exact Hnd]. apply (Permutation_app_comm (pos :: O2) O1).
Qed.

Lemma setHead_order g pos h O (Q : unit → ghost → Prop) :
  orderOK g (h :: O) → gHead g = h → pos ∉ h :: O → inb pos →
  (∀ g', sameBuckets g g' → sameData g g' → gHead g' = pos → gLen g' = gLen g →
     orderOK g' (pos :: h :: O) → Q tt g') →
  hoare g (setHead pos) Q.
Proof.
  intros HO Hh Hpos Hin HQ. destruct (order_neighbours _ _ h HO) as (Hih & Hinx & Hipv); [set_solver|].
  assert (nx g h ∈ h :: O) as Hnx by (eapply ring_closed; [apply HO|set_solver]).
  unfold setHead. hstep. rewrite Hh. destruct (Z.eqb_spec pos h) as [->|Hne]; [set_solver|].
  assert (pos ≠ nx g h) as Hne2 by (intros ->; done).
  hstep; [done|]. hstep; [done|]. hstep; [done|]. hstep; [done|].
  set (g1 := setE (setE g _ _) _ _).
  assert (next (gE g1 h) = nx g h) as E1 by (unfold g1; fields).
  rewrite E1. hstep; [done|]. hstep; [done|]. hstep.
  apply HQ; unfold g1; [clear -Hne; fields..|].
  destruct HO as [Hnd Hinb Hr]. split; [by apply NoDup_cons|set_solver|].
  apply (ring_insert (pv g) (nx g)); [done|done|done|..]; clear -Hne Hne2 Hnx; fields.
Qed.

(** ** The rings of the buckets *)

Definition headOr (l : list Z) : Z := match l with [] => emptyBucket | x :: _ => x end.

Record bucketsOK (g : ghost) (O : list Z) (Bk : Z → list Z) : Prop := {
  bk_pos : ∀ p, p ∈ O → inb (bp g p);
  bk_nodup : ∀ b, inb b → NoDup (Bk b);
  bk_mem : ∀ b p, inb b → p ∈ Bk b ↔ p ∈ O ∧ bp g p = b;
  bk_ring : ∀ b, inb b → ring (nb g) (pb g) (Bk b);
  bk_head : ∀ b, inb b → gB g b = headOr (Bk b);
}.

Lemma bucketsOK_same g g' O Bk : sameBuckets g g' → bucketsOK g O Bk → bucketsOK g' O Bk.
Proof.
  intros (Hn & Hp & Hb & HB) [H1 H2 H3 H4 H5]. split.
  - intros p Hp'. rewrite Hb. auto.
  - done.
  - intros b p ?. rewrite Hb. auto.
  - intros b ?. eapply ring_ext; [| |by apply H4]; auto.
  - intros b ?. rewrite HB. auto.
Qed.

Lemma unlinkBucket_buckets g pos O1 O2 Bk (Q : unit → ghost → Prop) :
  NoDup (O1 ++ pos :: O2) → (∀ p, p ∈ O1 ++ pos :: O2 → inb p) → bucketsOK g (O1 ++ pos :: O2) Bk →
  (∀ g' L, sameOrder g g' → sameData g g' → (∀ q, bp g' q = bp g q) →
     bucketsOK g' (O1 ++ O2) (fset Bk (bp g pos) L) → (L = [] → pb g' pos = pos) → Q tt g') →
  hoare g (unlinkBucket pos) Q.
Proof.
  intros Hndo HO HB HQ. set (b := bp g pos).
  assert (inb b) as Hb by (apply HB; set_solver).
  assert (pos ∈ Bk b) as Hpos by (apply (bk_mem _ _ _ HB); [done|set_solver]).
  destruct (ring_at _ _ _ _ (bk_ring _ _ _ HB b Hb) Hpos (bk_nodup _ _ _ HB b Hb)) as (l1 & l2 & EL & Hr & Hnd).
  assert (∀ p, p ∈ Bk b → inb p) as Hinb by (intros p (Hp & _)%(bk_mem _ _ _ HB b p Hb); by apply HO).
  destruct (ring_closed _ _ _ pos Hr) as (Hf & Hg & Hgf & Hfg); [set_solver|].
  assert (∀ q, q ∈ pos :: l2 ++ l1 ↔ q ∈ Bk b) as Hmem by (rewrite EL; set_solver).
  apply Hmem in Hf, Hg. unfold unlinkBucket. hstep; [auto|].
  change (prevBucket (gE g pos)) with (pb g pos). change (nextBucket (gE g pos)) with (nb g pos).
  change (bucketPos (gE g pos)) with b. apply (NoDup_cons pos) in Hnd as Hnd'. destruct Hnd' as [Hnp Hndl].
  assert (∀ g', sameData g g' → (∀ q, bp g' q = bp g q) → sameOrder g g' →
    (∀ q, q ∉ Bk b → nb g' q = nb g q ∧ pb g' q = pb g q) → (∀ c, c ≠ b → gB g' c = gB g c) →
    ring (nb g') (pb g') (l2 ++ l1) → gB g' b = headOr (l2 ++ l1) →
    bucketsOK g' (O1 ++ O2) (fset Bk b (l2 ++ l1))) as Hfin.
  { intros g' Hd Hbp Ho Hl Hgb Hring Hhd. destruct HB as [B1 B2 B3 B4 B5]. split.
    - intros p Hp. rewrite Hbp. apply B1. set_solver.
    - intros c Hc. unfold fset. case_decide; auto.
    - intros c p Hc. rewrite Hbp. unfold fset. case_decide as E; [subst c|].
      + assert (p ∈ l2 ++ l1 ↔ p ∈ Bk b ∧ p ≠ pos) as -> by (rewrite EL; set_solver).
        rewrite B3 by done.
        apply (NoDup_app O1 (pos :: O2)) in Hndo as (? & Hdis & [??]%NoDup_cons). set_solver.
      + rewrite B3 by done. split; [|set_solver]. intros [Hp Hc']. split; [|done].
        assert (p ≠ pos) by (intros ->; done). set_solver.
    - intros c Hc. unfold fset. case_decide as E; [done|].
      assert (∀ q, q ∈ Bk c → q ∉ Bk b) as Hne.
      { intros q Hq Hq'. apply B3 in Hq as [_ ?]; [|done]. apply B3 in Hq' as [_ ?]; [|done]. congruence. }
      eapply ring_ext; [| |by apply B4]; intros q Hq; apply Hl; auto.
    - intros c Hc. unfold fset. case_decide as E; [by subst|]. rewrite Hgb by done. auto. }
  apply hoare_if; intros Ec.
  - apply andb_prop in Ec as [E1%Z.eqb_eq E2%Z.eqb_eq]. hstep; [done|].
    assert (l2 ++ l1 = []) as E0.
    { destruct (l2 ++ l1) as [|y l] eqn:E; [done|]. simpl in Hr. destruct Hr as (? & ? & _).
      exfalso. apply Hnp. assert (y = pos) as -> by congruence. set_solver. }
    rewrite E0 in Hfin. eapply (HQ _ []); [..|apply Hfin|]; rewrite ?E0; try done;
      try solve [clear -E2; fields].
  - rewrite andb_false_iff, !Z.eqb_neq in Ec. hstep; [auto|]. hstep; [auto|]. hstep; [auto|].
    set (g1 := setE (setE g _ _) _ _).
    assert (bucketPos (gE g1 pos) = b) as E1 by (unfold g1, b; fields). rewrite E1. hstep; [done|].
    assert (∃ y l, l2 ++ l1 = y :: l) as (y & l & EY).
    { destruct (l2 ++ l1) as [|y l] eqn:E; [|by eexists _, _]. simpl in Hr. destruct Hr. lia. }
    assert (nb g pos = y) as Ey by (rewrite EY in Hr; simpl in Hr; by destruct Hr).
    eapply (HQ _ (l2 ++ l1)); [..|apply Hfin|by rewrite EY]; unfold g1, b; try solve [clear; fields].
    + assert (∀ q, q ∉ Bk b → q ≠ pb g pos ∧ q ≠ nb g pos) as Hq by (intros q Hq; split; intros ->; done).
      intros q [N1 N2]%Hq. clear -N1 N2. fields.
    + eapply ring_ext; [| |exact (ring_remove _ _ _ _ Hnd Hr)]; intros z _; clear; fields.
    + rewrite EY, <- Ey. simpl. unfold fset. rewrite decide_True; done.
Qed.
(** ** The invariant of the cache *)

Hypothesis size_bound : 0 < size < emptyBucket.

Record inv (g : ghost) (O : list Z) (Bk : Z → list Z) : Prop := {
  inv_order : orderOK g O;
  inv_head : headOK g O;
  inv_buckets : bucketsOK g O Bk;
  inv_len : gLen g = zlen O;
}.

Lemma nodup_bound l : NoDup l → (∀ p, p ∈ l → inb p) → zlen l ≤ size.
Proof.
  intros Hnd Hin. assert (length l ≤ length (seqZ 0 size))%nat as Hle.
  { apply submseteq_length, NoDup_submseteq; [done|]. intros p Hp%Hin. apply elem_of_seqZ. unfold inb in Hp. lia. }
  rewrite length_seqZ in Hle. unfold zlen. lia.
Qed.

Lemma orderOK_zlen g O : orderOK g O → zlen O ≤ size.
Proof. intros [Hnd Hin _]. by apply nodup_bound. Qed.

Lemma u32_small x : 0 ≤ x < 2 ^ 32 → u32 x = x.
Proof. intros Hx. unfold u32. by apply Z.mod_small. Qed.

Lemma evict_inv g pos O1 O2 Bk (Q : unit → ghost → Prop) :
  inv g (O1 ++ pos :: O2) Bk →
  (∀ g' L, sameData g g' → (∀ q, bp g' q = bp g q) → inv g' (O1 ++ O2) (fset Bk (bp g pos) L) →
     (L = [] → pb g' pos = pos) → Q tt g') →
  hoare g (evict pos) Q.
Proof.
  intros [HO Hh HB Hl] HQ. assert (inb pos) as Hpos by (apply HO; set_solver).
  pose proof (orderOK_zlen _ _ HO) as Hle. rewrite zlen_app, zlen_cons in *.
  pose proof (zlen_nonneg O1). pose proof (zlen_nonneg O2).
  unfold evict. hstep. apply hoare_bind.
  assert (∀ g1, sameBuckets g g1 → sameData g g1 → (∀ q, nx g1 q = nx g q) → (∀ q, pv g1 q = pv g q) →
    gLen g1 = gLen g → headOK g1 (O1 ++ O2) →
    hoare g1 (unlinkElement pos;; unlinkBucket pos;; len ← gets llen; setLen (u32 (len - 1))) Q) as Hrest.
  { intros g1 Hb Hd Hn Hp Hl1 Hh1. apply hoare_bind.
    assert (orderOK g1 (O1 ++ pos :: O2)) as HO1 by by eapply orderOK_same; [..|exact HO].
    pose proof (bucketsOK_same _ _ _ _ Hb HB) as HB1.
    eapply unlinkElement_order; [exact HO1|]. intros g2 Hb2 Hd2 Hh2 Hl2 HO2. apply hoare_bind.
    assert (∀ q, bp g2 q = bp g q) as Ebp.
    { intros q. destruct Hb2 as (_ & _ & E & _). rewrite E. destruct Hb as (_ & _ & E' & _). apply E'. }
    pose proof (bucketsOK_same _ _ _ _ Hb2 HB1) as HB2.
    eapply (unlinkBucket_buckets g2 pos O1 O2 Bk); [apply HO|exact (ord_inb _ _ HO)|exact HB2|].
    intros g3 L Ho3 Hd3 Hbp3 HB3 HL. rewrite Ebp in HB3. hstep. hstep.
    destruct Ho3 as (N3 & P3 & H3 & L3).
    eapply (HQ _ L); [..|exact HL].
    - intros q. change (dataOf g3 q = dataOf g q). by rewrite Hd3, Hd2, Hd.
    - intros q. change (bp g3 q = bp g q). by rewrite Hbp3.
    - split.
      + by eapply orderOK_same; [..|exact HO2].
      + unfold headOK in *. simpl. destruct (O1 ++ O2); [done|]. by rewrite H3, Hh2.
      + eapply bucketsOK_same; [|exact HB3]. done.
      + simpl. rewrite L3, Hl2, Hl1, Hl, zlen_app. rewrite u32_small by (unfold emptyBucket in *; lia). lia. }
  apply hoare_if; intros Ec.
  - apply Z.eqb_eq in Ec. hstep; [done|]. hstep. apply Hrest; try solve [clear; fields].
    destruct O1 as [|x O1]; simpl in Hh.
    + destruct O2 as [|y O2]; [done|]. simpl. destruct HO as [_ _ Hr]. simpl in Hr. by destruct Hr.
    + exfalso. destruct HO as [Hnd _ _]. simpl in Hnd. apply NoDup_cons in Hnd as [Hx _]. set_solver.
  - apply Z.eqb_neq in Ec. hstep. apply Hrest; try solve [clear; fields].
    destruct O1 as [|x O1]; simpl in *; congruence.
Qed.
(** The links [f] and [g] of a ring after its member [x] moved to [x']. *)
Definition moved (f g : Z → Z) (x x' : Z) : Z → Z := fset (fset f (g x) x') x' (fset f (g x) x' x).

Lemma ring_moved f g l1 l2 x x' : x' ∉ l1 ++ x :: l2 → NoDup (l1 ++ x :: l2) → ring f g (l1 ++ x :: l2) →
  ring (moved f g x x') (moved g f x x') (l1 ++ x' :: l2).
Proof.
  intros Hx' Hnd Hr. apply (ring_rotate _ _ (x' :: l2) l1).
  eapply (ring_rename f g _ _ _ _ x x' (l2 ++ l1)); [set_solver| |exact (ring_rotate _ _ _ _ Hr)|done..].
  eapply NoDup_Permutation_proper; [|exact Hnd]. apply (Permutation_app_comm (x :: l2) l1).
Qed.

Lemma NoDup_replace (l1 l2 : list Z) x x' : x' ∉ l1 ++ x :: l2 → NoDup (l1 ++ x :: l2) → NoDup (l1 ++ x' :: l2).
Proof.
  intros Hx' (? & Hdis & [??]%NoDup_cons)%NoDup_app. apply NoDup_app. split_and!; [done|set_solver|].
  apply NoDup_cons. split; [set_solver|done].
Qed.

Lemma moved_other f g x x' q : q ≠ x' → q ≠ g x → moved f g x x' q = f q.
Proof. intros. unfold moved. by rewrite !fset_ne. Qed.

Lemma move_run g to from (Q : unit → ghost → Prop) :
  to ≠ from → inb to → inb from → inb (nx g from) → inb (pv g from) → inb (nb g from) → inb (pb g from) →
  inb (bp g from) → to ≠ nb g from → to ≠ pb g from →
  (∀ g', (∀ q, nx g' q = moved (nx g) (pv g) from to q) → (∀ q, pv g' q = moved (pv g) (nx g) from to q) →
     (∀ q, nb g' q = moved (nb g) (pb g) from to q) → (∀ q, pb g' q = moved (pb g) (nb g) from to q) →
     (∀ q, bp g' q = fset (bp g) to (bp g from) q) → (∀ q, dataOf g' q = fset (dataOf g) to (dataOf g from) q) →
     gLen g' = gLen g → gHead g' = (if from =? gHead g then to else gHead g) →
     (∀ b, gB g' b = if decide (b = bp g from ∧ gB g b = from) then to else gB g b) → Q tt g') →
  hoare g (move to from) Q.
Proof.
  intros Hne Hto Hfrom H1 H2 H3 H4 H5 N1 N2 HQ. unfold move. destruct (Z.eqb_spec to from); [done|].
  hstep. apply hoare_bind.
  assert (∀ g0, gE g0 = gE g → gB g0 = gB g → gLen g0 = gLen g →
    gHead g0 = (if from =? gHead g then to else gHead g) →
    hoare g0 (e ← elem from; modElem (prev e) (setNext to);; modElem (next e) (setPrev to);;
      e ← elem from; modElem (prevBucket e) (setNextBucket to);; modElem (nextBucket e) (setPrevBucket to);;
      e ← elem from; modElem to (λ _, e);; e ← elem to; b ← bucketAt (bucketPos e);
      if b =? from then setBucket (bucketPos e) to else mret tt) Q) as Hrest.
  { intros [E0 B0 h0 n0] EE EB EL EH. simpl in EE, EB, EL, EH. subst E0 B0 n0.
    hstep; [done|]. hstep; [exact H2|]. hstep; [exact H1|].
    hstep; [done|]. set (g1 := setE (setE _ _ _) _ _).
    assert (nb g1 from = nb g from) as E1 by (unfold g1; fields).
    assert (pb g1 from = pb g from) as E2 by (unfold g1; fields).
    change (prevBucket (gE g1 from)) with (pb g1 from). change (nextBucket (gE g1 from)) with (nb g1 from).
    rewrite E1, E2. hstep; [exact H4|]. hstep; [exact H3|]. hstep; [done|]. hstep; [done|]. hstep; [done|].
    set (g2 := setE _ to _).
    assert (bp g2 to = bp g from) as E3 by (unfold g2, g1; clear; fields).
    change (bucketPos (gE g2 to)) with (bp g2 to). rewrite E3. hstep; [done|].
    assert (gB g2 = gB g) as E4 by done. rewrite E4.
    assert (∀ g3, gE g3 = gE g2 → gHead g3 = gHead g2 → gLen g3 = gLen g2 →
      (∀ b, gB g3 b = if decide (b = bp g from ∧ gB g b = from) then to else gB g b) → Q tt g3) as Hdone.
    { intros g3 Q1 Q2 Q3 Q4. apply HQ; [..|by rewrite Q3|by rewrite Q2|done];
        intros q; unfold moved, nx, pv, nb, pb, bp, dataOf in *; rewrite ?Q1; unfold g2, g1;
        clear -Hne N1 N2; fields. }
    apply hoare_if; intros Ec.
    - apply Z.eqb_eq in Ec. hstep; [done|]. apply Hdone; try done. intros b. unfold setB, fset. simpl.
      destruct (decide (b = bp g from)) as [->|Hn]; [by rewrite decide_True|]. rewrite decide_False; [done|tauto].
    - apply Z.eqb_neq in Ec. hstep. apply Hdone; try done. intros b. rewrite E4, decide_False; [done|].
      intros [-> ?]. done. }
  destruct (Z.eqb_spec from (gHead g)); hstep; by apply Hrest.
Qed.
Lemma bucket_of g O Bk p : bucketsOK g O Bk → p ∈ O → inb (bp g p) ∧ p ∈ Bk (bp g p).
Proof. intros HB Hp. pose proof (bk_pos _ _ _ HB p Hp). split; [done|]. by apply (bk_mem _ _ _ HB). Qed.

Lemma bucket_neighbours g O Bk p : bucketsOK g O Bk → p ∈ O → nb g p ∈ O ∧ pb g p ∈ O.
Proof.
  intros HB Hp. destruct (bucket_of _ _ _ _ HB Hp) as [Hb Hin].
  destruct (ring_closed _ _ _ _ (bk_ring _ _ _ HB _ Hb) Hin) as (H1 & H2 & _).
  by apply (bk_mem _ _ _ HB) in H1 as [? _], H2 as [? _].
Qed.

(** Two buckets share no element. *)
Lemma bucket_disjoint g O Bk b c p : bucketsOK g O Bk → inb b → inb c → p ∈ Bk b → p ∈ Bk c → b = c.
Proof. intros HB Hb Hc [_ <-]%(bk_mem _ _ _ HB) [_ <-]%(bk_mem _ _ _ HB); done. Qed.

Lemma move_buckets g g' O1 O2 Bk from to :
  bucketsOK g (O1 ++ from :: O2) Bk → NoDup (O1 ++ from :: O2) → to ∉ O1 ++ from :: O2 → inb to → inb from →
  (∀ q, nb g' q = moved (nb g) (pb g) from to q) → (∀ q, pb g' q = moved (pb g) (nb g) from to q) →
  (∀ q, bp g' q = fset (bp g) to (bp g from) q) →
  (∀ b, gB g' b = if decide (b = bp g from ∧ gB g b = from) then to else gB g b) →
  ∃ L, bucketsOK g' (O1 ++ to :: O2) (fset Bk (bp g from) L).
Proof.
  intros HB HndO Hto Hit Hif En Ep Eb EB. set (b := bp g from).
  destruct (bucket_of _ _ _ from HB) as [Hb Hin]; [set_solver|]. fold b in Hb, Hin.
  assert (∀ c q, inb c → q ∈ Bk c → q ∈ O1 ++ from :: O2) as HsubO by (intros c q Hc [? _]%(bk_mem _ _ _ HB); done).
  apply list_elem_of_split in Hin as (l1 & l2 & EL). exists (l1 ++ to :: l2).
  assert (to ∉ Bk b) as Htob by (intros ?; eapply Hto, HsubO; eauto).
  pose proof (bk_nodup _ _ _ HB b Hb) as Hnd. pose proof (bk_ring _ _ _ HB b Hb) as Hr.
  destruct (ring_closed _ _ _ from Hr) as (Hnf & Hpf & _ & _); [rewrite EL; set_solver|].
  assert (to ≠ from) as Hne by set_solver.
  pose proof HB as [B1 B2 B3 B4 B5]. split.
  - intros p Hp. rewrite Eb. unfold fset. case_decide; [done|]. apply B1. set_solver.
  - intros c Hc. unfold fset. case_decide; [|auto]. apply (NoDup_replace _ _ from); rewrite <- EL; done.
  - intros c p Hc. rewrite Eb. unfold fset at 1 2. destruct (decide (p = to)) as [->|Hp]; fold b.
    + destruct (decide (c = b)) as [->|Hcb]; [set_solver|]. split; [|naive_solver].
      intros Hx. destruct Hto. by eapply HsubO.
    + destruct (decide (c = b)) as [->|Hcb].
      * assert (p ∈ l1 ++ to :: l2 ↔ p ∈ Bk b ∧ p ≠ from) as ->.
        { rewrite EL in Hnd. apply (NoDup_app l1 (from :: l2)) in Hnd as (? & Hdis & [??]%NoDup_cons). rewrite EL. set_solver. }
        rewrite B3 by done. apply (NoDup_app O1 (from :: O2)) in HndO as (? & Hdis & [??]%NoDup_cons). set_solver.
      * rewrite B3 by done. split; [|set_solver]. intros [Hin <-]. split; [|done].
        assert (p ≠ from) by (intros ->; done). set_solver.
  - intros c Hc. unfold fset at 1. destruct (decide (c = b)) as [->|Hcb].
    + eapply ring_ext; [intros z _; apply En|intros z _; apply Ep|].
      rewrite EL in *. by apply ring_moved.
    + eapply ring_ext; [intros z Hz; rewrite En|intros z Hz; rewrite Ep|exact (B4 c Hc)]; apply moved_other;
        (intros ->; (destruct Hto; by eapply HsubO) || (destruct Hcb; by eapply (bucket_disjoint g))).
  - intros c Hc. rewrite EB, B5 by done. unfold fset at 1. destruct (decide (c = b)) as [->|Hcb].
    + rewrite EL in *. destruct l1 as [|x l1]; simpl; [by rewrite decide_True|].
      rewrite decide_False; [done|]. intros [_ ->]. simpl in Hnd. apply NoDup_cons in Hnd as [Hx _]. set_solver.
    + rewrite decide_False; [done|]. tauto.
Qed.

Lemma move_inv g from to O1 O2 Bk (Q : unit → ghost → Prop) :
  inv g (O1 ++ from :: O2) Bk → to ∉ O1 ++ from :: O2 → inb to →
  (∀ g' Bk', (∀ q, dataOf g' q = fset (dataOf g) to (dataOf g from) q) →
     (∀ q, bp g' q = fset (bp g) to (bp g from) q) → gLen g' = gLen g →
     inv g' (O1 ++ to :: O2) Bk' → Q tt g') →
  hoare g (move to from) Q.
Proof.
  intros [HO Hh HB Hl] Hto Hit HQ. assert (from ∈ O1 ++ from :: O2) as Hin by set_solver.
  destruct (order_neighbours _ _ _ HO Hin) as (Hif & ? & ?).
  destruct (bucket_neighbours _ _ _ _ HB Hin) as [Hnb Hpb]. destruct (bucket_of _ _ _ _ HB Hin) as [Hbp _].
  apply move_run; try done; try (by apply HO); try (intros ->; set_solver).
  intros g' E1 E2 E3 E4 E5 E6 E7 E8 E9.
  destruct (move_buckets g g' O1 O2 Bk from to) as [L HB']; try done; [apply HO|].
  apply (HQ _ (fset Bk (bp g from) L) E6 E5 E7). split; [|..|exact HB'|].
  - destruct HO as [Hnd Hinb Hr]. split.
    + by apply (NoDup_replace _ _ from).
    + set_solver.
    + eapply ring_ext; [intros z _; apply E2|intros z _; apply E1|]. by apply ring_moved.
  - unfold headOK in *. rewrite E8. destruct O1 as [|x O1]; simpl in *.
    + by rewrite Hh, Z.eqb_refl.
    + rewrite Hh. destruct (Z.eqb_spec from x) as [->|]; [|done]. exfalso.
      pose proof (ord_nodup _ _ HO) as Hnd. apply NoDup_cons in Hnd as [Hx _]. set_solver.
  - rewrite E7, Hl, !zlen_app, !zlen_cons. done.
Qed.
Lemma headOK_cons g h O : O ≠ [] → headOK g O → gHead g = h → ∃ t, O = h :: t.
Proof. destruct O as [|x O]; [done|]. simpl. intros _ -> ->. by eexists. Qed.

(** A member of the ring becomes its head. *)
Lemma touch_inv g pos O1 O2 Bk (Q : unit → ghost → Prop) :
  inv g (O1 ++ pos :: O2) Bk →
  (∀ g', sameBuckets g g' → sameData g g' → inv g' (pos :: O1 ++ O2) Bk → Q tt g') →
  hoare g (touch pos) Q.
Proof.
  intros [HO Hh HB Hl] HQ. unfold touch. hstep.
  assert (NoDup (O1 ++ pos :: O2)) as (Hnd1 & Hdis & [Hp2 Hnd2]%NoDup_cons)%NoDup_app by apply HO.
  destruct (Z.eqb_spec pos (gHead g)) as [Ep|Ep]; simpl.
  - hstep. apply HQ; [done..|]. destruct O1 as [|x O1]; [done|]. simpl in Hh. set_solver.
  - apply hoare_bind. eapply unlinkElement_order; [exact HO|]. intros g1 Hb1 Hd1 Hh1 Hl1 HO1.
    assert (∃ t, O1 ++ O2 = gHead g :: t) as [t Et].
    { destruct O1 as [|x O1]; simpl in Hh; [congruence|]. subst x. by eexists. }
    rewrite Et in *. eapply setHead_order; [exact HO1|congruence| |apply HO; set_solver|].
    { rewrite <- Et. set_solver. }
    intros g2 Hb2 Hd2 Hh2 Hl2 HO2. destruct Hb1 as (A1 & A2 & A3 & A4), Hb2 as (B1 & B2 & B3 & B4).
    assert (sameBuckets g g2) as Hb.
    { split_and!; intros; rewrite ?B1, ?B2, ?B3, ?B4; auto. }
    apply HQ; [done|intros q; by rewrite Hd2, Hd1|]. split; [done|exact Hh2| |].
    + destruct (bucketsOK_same _ _ _ _ Hb HB) as [Q1 Q2 Q3 Q4 Q5].
      assert (∀ p, p ∈ O1 ++ pos :: O2 ↔ p ∈ pos :: gHead g :: t) as Hm by (rewrite <- Et; set_solver).
      split; [|done| |done|done].
      * intros p Hp. apply Q1. by apply Hm.
      * intros b p Hb'. rewrite Q3 by done. by rewrite Hm.
    + rewrite Hl2, Hl1, Hl, <- Et, !zlen_cons, !zlen_app, zlen_cons. lia.
Qed.

(** The bucket side is not touched by [insert], the order side gets a new head. *)
Lemma insert_order g pos k v x O (Q : unit → ghost → Prop) :
  orderOK g O → headOK g O → gLen g = zlen O → pos ∉ O → inb pos → zlen O < size →
  (∀ g', sameBuckets g g' → orderOK g' (pos :: O) → headOK g' (pos :: O) → gLen g' = zlen (pos :: O) →
     (∀ q, dataOf g' q = fset (dataOf g) pos (k, v, x) q) → Q tt g') →
  hoare g (insert pos k v x) Q.
Proof.
  intros HO Hh Hl Hpos Hin Hlt HQ. pose proof (zlen_nonneg O). unfold insert.
  hstep; [done|]. hstep; [done|]. hstep; [done|]. hstep. hstep. apply hoare_bind.
  set (g1 := setE (setE (setE g _ _) _ _) _ _).
  change (gLen g1) with (gLen g). change (gHead g1) with (gHead g).
  assert (∀ g2, sameBuckets g1 g2 → sameData g1 g2 → orderOK g2 (pos :: O) → gHead g2 = pos →
    hoare g2 (setLen (u32 (gLen g + 1))) Q) as Hfin.
  { intros g2 (A1 & A2 & A3 & A4) Hd HO2 Hh2. hstep. apply HQ; [| |exact Hh2| |].
    - split_and!; intros; [unfold nb in *|unfold pb in *|unfold bp in *|]; simpl;
        rewrite ?A1, ?A2, ?A3, ?A4; unfold g1; clear; fields.
    - eapply orderOK_same; [..|exact HO2]; done.
    - simpl. rewrite zlen_cons, Hl. apply u32_small. unfold emptyBucket in *. lia.
    - intros q. change (dataOf g2 q = fset (dataOf g) pos (k, v, x) q). rewrite Hd. unfold g1. clear. fields. }
  destruct (Z.eqb_spec (gLen g) 0) as [E0|E0].
  - assert (O = []) as -> by (destruct O; [done|rewrite zlen_cons in Hl; pose proof (zlen_nonneg O); lia]).
    hstep; [done|]. hstep; [done|]. hstep. apply Hfin; unfold g1; [clear; fields..| |done].
    split; [apply NoDup_singleton|set_solver|]. simpl. clear. fields.
  - destruct O as [|h O]; [done|]. simpl in Hh.
    destruct (Z.eqb_spec pos (gHead g)) as [Ep|Ep]; [subst; set_solver|]. simpl.
    assert (orderOK g1 (h :: O)) as HO1 by (eapply orderOK_same; [..|exact HO]; unfold g1; clear; fields).
    eapply setHead_order; [exact HO1|exact Hh|done|done|]. intros g2 Hb Hd Hh2 Hl2 HO2. by apply Hfin.
Qed.
(** ** Walking a bucket *)

Definition posOf (h : Z) : Z := if negb (mask =? 0) then Z.land h mask else fastRange h size.

Lemma hashToPos_run g h (Q : Z * Z → ghost → Prop) :
  inb (posOf h) → Q (posOf h, gB g (posOf h)) g → hoare g (hashToPos h) Q.
Proof.
  intros Hin HQ. unfold hashToPos, hashToBucketPos. apply hoare_bind. apply hoare_bind.
  intros s Hs. eexists _, s, g. split_and!; [done..|]. apply hoare_bind.
  intros s' Hs'. eexists _, s', g. split_and!; [done..|]. apply hoare_ret.
  rewrite (rep_mask _ _ Hs), (rep_size _ _ Hs'). fold (posOf h). hstep; [done|]. by hstep.
Qed.

Definition hasKey (g : ghost) (k : K) (p : Z) : bool := bool_decide (key (gE g p) = k).

Lemma walkBucket_path g k x p l fuel :
  path (nb g) (pb g) p l x → x ∉ l → (∀ q, q ∈ p :: l → inb q) → (length l < fuel)%nat →
  hoare g (walkBucket fuel k x p) (λ r g', g' = g ∧ r = List.find (hasKey g k) (p :: l)).
Proof.
  revert p fuel. induction l as [|y l IH]; intros p fuel Hp Hx Hin Hf; (destruct fuel as [|fuel]; [simpl in Hf; lia|]);
    cbn [walkBucket List.find]; unfold hasKey at 1; (hstep; [apply Hin; set_solver|]);
    (destruct (bool_decide (key (gE g p) = k)); [by hstep|]); change (nextBucket (gE g p)) with (nb g p).
  - destruct Hp as [-> _]. rewrite Z.eqb_refl. by hstep.
  - destruct Hp as (-> & _ & Hp). destruct (Z.eqb_spec y x) as [->|_]; [set_solver|].
    apply IH; [done|set_solver|set_solver|simpl in Hf; lia].
Qed.

Lemma walkBucket_ring {A} g k b O Bk x l (cont : option Z → M A) (Q : A → ghost → Prop) :
  inv g O Bk → inb b → Bk b = x :: l → hoare g (cont (List.find (hasKey g k) (Bk b))) Q →
  hoare g (fuel ← bucketFuel; found ← walkBucket fuel k x x; cont found) Q.
Proof.
  intros [HO Hh HB Hl] Hb EB HQ.
  pose proof (bk_ring _ _ _ HB b Hb) as Hr. pose proof (bk_nodup _ _ _ HB b Hb) as Hnd.
  assert (∀ p, p ∈ Bk b → inb p) as Hin by (intros p (Hp & _)%(bk_mem _ _ _ HB b p Hb); by apply HO).
  pose proof (nodup_bound _ Hnd Hin) as Hlen. rewrite EB in *. apply NoDup_cons in Hnd as [Hx Hnd].
  apply hoare_bind. intros s Hs. eexists _, s, g. split_and!; [done..|].
  apply hoare_bind. eapply hoare_weaken; [apply (walkBucket_path g k x x l); [done|done|done|]|].
  - rewrite zlen_cons in Hlen. pose proof (rep_zlen _ _ Hs). unfold zlen in *. lia.
  - intros r g' [-> ->]. done.
Qed.
(** ** The entries *)

Variable hash : K → Z.
Hypothesis hash_inb : ∀ k, inb (posOf (hash k)).
Hypothesis cap_bound : 0 < cap ≤ size.

Definition entryOf (g : ghost) (p : Z) : entry K V := mkEntry (key (gE g p)) (value (gE g p)) (expireAt (gE g p)).

(** The elements of the ring hold the entries of [c], in order, each in the
    bucket of its key. *)
Record holds (g : ghost) (O : list Z) (c : list (entry K V)) : Prop := {
  h_entries : c = entryOf g <$> O;
  h_bucket : ∀ p, p ∈ O → bp g p = posOf (hash (key (gE g p)));
}.

Lemma entryOf_data g g' p p' : dataOf g' p' = dataOf g p → entryOf g' p' = entryOf g p.
Proof. unfold dataOf, entryOf. intros [= -> -> ->]. done. Qed.

Lemma holds_same g g' O c :
  (∀ q, q ∈ O → dataOf g' q = dataOf g q) → (∀ q, q ∈ O → bp g' q = bp g q) → holds g O c → holds g' O c.
Proof.
  intros Hd Hb [-> H2]. split.
  - apply list_fmap_ext. intros i p Hp%list_elem_of_lookup_2. symmetry. apply entryOf_data. auto.
  - intros p Hp. rewrite Hb, H2 by done. f_equal. f_equal. specialize (Hd p Hp). unfold dataOf in Hd. congruence.
Qed.

(** The relation between the arrays and the abstract cache. *)
Record repr (g : ghost) (O : list Z) (Bk : Z → list Z) (c : list (entry K V)) : Prop := {
  r_inv : inv g O Bk;
  r_holds : holds g O c;
  r_dense : ∀ p, p ∈ O ↔ 0 ≤ p < zlen O;
  r_keys : NoDup (eKey <$> c);
  r_cap : zlen O ≤ cap;
}.

(** Finding a key in its bucket is finding it in the cache. *)
Lemma find_bucket g O Bk c k :
  repr g O Bk c →
  match List.find (hasKey g k) (Bk (posOf (hash k))) with
  | Some p => ∃ O1 O2, O = O1 ++ p :: O2 ∧ key (gE g p) = k ∧ lookup k c = Some (entryOf g p) ∧
                without k c = entryOf g <$> O1 ++ O2
  | None => (∀ p, p ∈ O → key (gE g p) ≠ k) ∧ lookup k c = None
  end.
Proof.
  intros [[HO Hh HB Hl] [Hc Hb] Hd Hk _]. destruct (List.find _ _) as [p|] eqn:Ef.
  - apply find_some in Ef as [Hin%list_elem_of_In Hkey]. unfold hasKey in Hkey. apply bool_decide_eq_true in Hkey.
    apply (bk_mem _ _ _ HB) in Hin as [Hin _]; [|done]. apply list_elem_of_split in Hin as (O1 & O2 & ->).
    exists O1, O2. rewrite Hc, fmap_app, fmap_cons in *.
    destruct (lookup_split k (entryOf g <$> O1) (entryOf g <$> O2) (entryOf g p)) as [E1 E2]; [done|done|].
    rewrite fmap_app. done.
  - assert (∀ p, p ∈ O → key (gE g p) ≠ k) as Hno.
    { intros p Hp E. assert (p ∈ Bk (posOf (hash k))) as Hin%list_elem_of_In.
      { apply (bk_mem _ _ _ HB); [done|]. split; [done|]. rewrite Hb, E by done. done. }
      pose proof (find_none _ _ Ef p Hin) as Hf. unfold hasKey in Hf. by rewrite E, bool_decide_eq_true_2 in Hf. }
    split; [done|]. apply lookup_none. rewrite Hc. intros e (p & -> & Hp)%list_elem_of_fmap. by apply Hno.
Qed.
Lemma keys_sublist (g : ghost) O1 p O2 c :
  NoDup (eKey <$> c) → c = entryOf g <$> O1 ++ p :: O2 → NoDup (eKey <$> (entryOf g <$> O1 ++ O2)).
Proof.
  intros Hnd ->. rewrite !fmap_app, !fmap_cons in *. eapply sublist_NoDup; [exact Hnd|].
  apply sublist_app; [done|]. by apply sublist_cons.
Qed.

Lemma dense_remove (O1 O2 : list Z) p n :
  NoDup (O1 ++ p :: O2) → (∀ q, q ∈ O1 ++ p :: O2 ↔ 0 ≤ q < n) → ∀ q, q ∈ O1 ++ O2 ↔ 0 ≤ q < n ∧ q ≠ p.
Proof.
  intros (? & Hdis & [??]%NoDup_cons)%NoDup_app Hd q. rewrite <- Hd. set_solver.
Qed.

Lemma clear_repr g O Bk c p (Q : unit → ghost → Prop) :
  repr g O Bk c → inb p → p ∉ O → (∀ g', repr g' O Bk c → Q tt g') →
  hoare g (clearKeyAndValue emptyKey emptyValue p) Q.
Proof.
  intros [[HO Hh HB Hl] Hc Hd Hk Hn] Hin Hp HQ. unfold clearKeyAndValue. hstep; [done|]. hstep; [done|].
  apply HQ. split; [split| | |done|done].
  - eapply orderOK_same; [..|exact HO]; clear; fields.
  - exact Hh.
  - eapply bucketsOK_same; [|exact HB]. clear; fields.
  - exact Hl.
  - eapply holds_same; [..|exact Hc]; intros q Hq; assert (q ≠ p) as Hne by (intros ->; done); clear -Hne; fields.
  - exact Hd.
Qed.

Lemma removeAt_repr g pos O1 O2 Bk c (Q : unit → ghost → Prop) :
  repr g (O1 ++ pos :: O2) Bk c →
  (∀ g' O' Bk', repr g' O' Bk' (entryOf g <$> O1 ++ O2) → Q tt g') →
  hoare g (removeAt emptyKey emptyValue pos) Q.
Proof.
  intros [Hinv [Hc Hbk] Hd Hk Hn] HQ. pose proof (inv_order _ _ _ Hinv) as HO.
  assert (inb pos) as Hpos by (apply HO; set_solver).
  pose proof (dense_remove O1 O2 pos _ (ord_nodup _ _ HO) Hd) as Hd'.
  assert (zlen (O1 ++ pos :: O2) = zlen (O1 ++ O2) + 1) as EN by (rewrite !zlen_app, zlen_cons; lia).
  assert (pos ∉ O1 ++ O2) as Hnot by (rewrite Hd'; tauto).
  unfold removeAt. apply hoare_bind. eapply evict_inv; [exact Hinv|]. intros g1 L Hd1 Hb1 Hi1 _.
  pose proof (inv_len _ _ _ Hi1) as Hl1. pose proof (zlen_nonneg (O1 ++ O2)).
  assert (holds g1 (O1 ++ O2) (entryOf g <$> O1 ++ O2)) as Hh1.
  { eapply holds_same; [intros q _; apply Hd1|intros q _; apply Hb1|]. split; [done|]. intros p Hp. apply Hbk. set_solver. }
  pose proof (keys_sublist _ _ _ _ _ Hk Hc) as Hk1. hstep. rewrite Hl1. apply hoare_bind.
  destruct (decide (pos = zlen (O1 ++ O2))) as [E|E].
  - unfold move. rewrite <- E, Z.eqb_refl. hstep. eapply clear_repr; [|done|exact Hnot|eauto].
    split; [exact Hi1|done| |done|lia]. intros q. rewrite Hd'. lia.
  - assert (zlen (O1 ++ O2) ∈ O1 ++ O2) as Hin by (apply Hd'; lia).
    assert (inb (zlen (O1 ++ O2))) as Hinb by (apply HO; set_solver).
    apply list_elem_of_split in Hin as (A & C & EA). set (from := zlen (O1 ++ O2)) in *. rewrite EA in *.
    eapply move_inv; [exact Hi1|done|done|]. intros g2 Bk2 Hd2 Hb2 Hl2 Hi2.
    pose proof (ord_nodup _ _ (inv_order _ _ _ Hi1)) as HndA.
    apply (NoDup_app A (from :: C)) in HndA as (_ & HdisA & [HnC _]%NoDup_cons).
    assert (∀ q, q ∈ A ++ pos :: C ↔ 0 ≤ q < from) as Hd2'.
    { intros q. assert (q ∈ A ++ pos :: C ↔ (q ∈ A ++ from :: C ∧ q ≠ from) ∨ q = pos) as -> by set_solver.
      rewrite Hd'. assert (0 ≤ pos < zlen (O1 ++ pos :: O2)) by (apply Hd; set_solver). lia. }
    assert (holds g2 (A ++ pos :: C) (entryOf g <$> A ++ from :: C)) as Hh2.
    { destruct Hh1 as [E1 E2]. split.
      - rewrite E1, !fmap_app, !fmap_cons. f_equal; [|f_equal].
        + apply list_fmap_ext. intros i q Hq%list_elem_of_lookup_2. symmetry. apply entryOf_data. rewrite Hd2.
          apply fset_ne. set_solver.
        + symmetry. apply entryOf_data. by rewrite Hd2, fset_eq.
        + apply list_fmap_ext. intros i q Hq%list_elem_of_lookup_2. symmetry. apply entryOf_data. rewrite Hd2.
          apply fset_ne. set_solver.
      - intros q Hq. rewrite Hb2. pose proof (Hd2 q) as Hdq. unfold fset in *. case_decide as Eq.
        + unfold dataOf in Hdq. injection Hdq as -> _ _. apply E2. set_solver.
        + unfold dataOf in Hdq. injection Hdq as -> _ _. apply E2. set_solver. }
    eapply clear_repr; [|done|rewrite Hd2'; lia|eauto].
    assert (zlen (A ++ pos :: C) = from) as EF by (unfold from; rewrite EA, !zlen_app, !zlen_cons; done).
    split; [exact Hi2|exact Hh2|by rewrite EF|done|lia].
Qed.
(** An empty bucket is told from a position by its mark. *)
Lemma bucket_mark g O Bk b :
  inv g O Bk → inb b → (gB g b =? emptyBucket) = bool_decide (Bk b = []).
Proof.
  intros [HO _ HB _] Hb. rewrite (bk_head _ _ _ HB b Hb). destruct (Bk b) as [|x l] eqn:E; [done|]. simpl.
  assert (x ∈ O) as Hx by (apply (bk_mem _ _ _ HB b); [done|rewrite E; set_solver]).
  apply HO in Hx. unfold inb in Hx. apply Z.eqb_neq. lia.
Qed.

Lemma touch_repr g pos O1 O2 Bk c (Q : unit → ghost → Prop) :
  repr g (O1 ++ pos :: O2) Bk c →
  (∀ g', sameData g g' → repr g' (pos :: O1 ++ O2) Bk (entryOf g pos :: (entryOf g <$> O1 ++ O2)) → Q tt g') →
  hoare g (touch pos) Q.
Proof.
  intros [Hi [Hc Hb] Hd Hk Hn] HQ. eapply touch_inv; [exact Hi|]. intros g' Hbk Hdt Hi'. apply HQ; [done|].
  assert (pos :: O1 ++ O2 ≡ₚ O1 ++ pos :: O2) as HP by apply Permutation_middle.
  assert (zlen (pos :: O1 ++ O2) = zlen (O1 ++ pos :: O2)) as EN by (rewrite zlen_cons, !zlen_app, zlen_cons; lia).
  split; [done| | | |lia].
  - eapply holds_same; [intros q _; apply Hdt|intros q _; apply Hbk|]. split; [done|].
    intros p Hp. apply Hb. by rewrite <- HP.
  - intros p. by rewrite EN, HP.
  - rewrite Hc in Hk. rewrite <- fmap_cons. by rewrite HP.
Qed.

Lemma get_repr g O Bk c k now :
  repr g O Bk c →
  hoare g (get emptyKey emptyValue (hash k) k now)
    (λ r g', ∃ O' Bk', r = (specGet k now c).1 ∧ repr g' O' Bk' (specGet k now c).2).
Proof.
  intros HR. pose proof (find_bucket _ _ _ _ k HR) as Hf. pose proof (r_inv _ _ _ _ HR) as Hi.
  unfold get, findKey. apply hoare_bind, hoare_bind. apply hashToPos_run; [done|].
  rewrite (bucket_mark _ _ _ _ Hi (hash_inb k)). unfold specGet. case_bool_decide as E0.
  - rewrite E0 in Hf. cbn [List.find] in Hf. destruct Hf as [_ ->]. hstep. hstep. by exists O, Bk.
  - destruct (Bk (posOf (hash k))) as [|x l] eqn:EB; [done|].
    rewrite (bk_head _ _ _ (inv_buckets _ _ _ Hi) _ (hash_inb k)), EB. simpl headOr.
    eapply walkBucket_ring; [exact Hi|exact (hash_inb k)|exact EB|]. rewrite EB.
    destruct (List.find _ _) as [p|].
    + destruct Hf as (O1 & O2 & -> & Hkey & -> & ->).
      assert (inb p) as Hp by (apply (inv_order _ _ _ Hi); set_solver). hstep; [done|].
      change (expired (entryOf g p) now) with (negb (expireAt (gE g p) =? 0) && (expireAt (gE g p) <=? now)).
      destruct (negb (expireAt (gE g p) =? 0) && (expireAt (gE g p) <=? now)).
      * apply hoare_bind. eapply removeAt_repr; [exact HR|]. intros g' O' Bk' HR'. hstep. hstep. by exists O', Bk'.
      * hstep. apply hoare_bind. eapply touch_repr; [exact HR|]. intros g' Hd HR'. hstep; [done|]. hstep.
        exists (p :: O1 ++ O2), Bk. split; [|exact HR']. simpl. specialize (Hd p). unfold dataOf in Hd. congruence.
    + destruct Hf as [_ ->]. hstep. hstep. by exists O, Bk.
Qed.
(** ** Adding an entry *)

Lemma link_buckets g g' O Bk b pos :
  bucketsOK g O Bk → pos ∉ O → inb b → (∀ q, bp g' q = fset (bp g) pos b q) →
  (∀ c, gB g' c = fset (gB g) b pos c) →
  (∀ q, q ≠ pos → q ∉ Bk b → nb g' q = nb g q ∧ pb g' q = pb g q) →
  ring (nb g') (pb g') (pos :: Bk b) → bucketsOK g' (pos :: O) (fset Bk b (pos :: Bk b)).
Proof.
  intros HB Hpos Hb Ebp EB El Hr.
  assert (∀ c q, inb c → q ∈ Bk c → q ∈ O) as HsubO by (intros c q Hc [? _]%(bk_mem _ _ _ HB); done).
  pose proof HB as [B1 B2 B3 B4 B5]. split.
  - intros p Hp. rewrite Ebp. unfold fset. case_decide; [done|]. apply B1. set_solver.
  - intros c Hc. unfold fset. case_decide as E; [subst|by apply B2]. apply NoDup_cons. split; [|by apply B2].
    intros Hx%HsubO; done.
  - intros c p Hc. rewrite Ebp. unfold fset. destruct (decide (p = pos)) as [->|Hp], (decide (c = b)) as [->|Hcb].
    + set_solver.
    + split; [|naive_solver]. by intros Hx%HsubO.
    + rewrite elem_of_cons, (B3 b) by done. set_solver.
    + rewrite B3 by done. set_solver.
  - intros c Hc. unfold fset. case_decide as E; [done|].
    eapply ring_ext; [| |exact (B4 c Hc)]; intros z Hz; apply El;
      solve [intros ->; by apply HsubO in Hz|intros Hzb; destruct E; by eapply (bucket_disjoint g)].
  - intros c Hc. rewrite EB. unfold fset. case_decide as E; [done|]. by apply B5.
Qed.

(** What [freeSlot] promises: [pos] is free, the other elements hold [c']. *)
Record freed (g : ghost) (O : list Z) (Bk : Z → list Z) (pos : Z) (c' : list (entry K V)) : Prop := {
  fr_inv : inv g O Bk;
  fr_holds : holds g O c';
  fr_pos : pos ∉ O;
  fr_inb : inb pos;
  fr_dense : ∀ q, q ∈ pos :: O ↔ 0 ≤ q < zlen (pos :: O);
  fr_cap : zlen (pos :: O) ≤ cap;
  fr_keys : NoDup (eKey <$> c');
}.

Lemma freeSlot_repr g O Bk c (Q : Z * bool → ghost → Prop) :
  repr g O Bk c →
  (zlen c ≠ cap → freed g O Bk (zlen O) c → Q (zlen O, false) g) →
  (∀ g' O1 pos L, zlen c = cap → O = O1 ++ [pos] → (∀ q, bp g' q = bp g q) →
     freed g' O1 (fset Bk (bp g pos) L) pos (take (length c - 1) c) → (L = [] → pb g' pos = pos) →
     Q (pos, true) g') →
  hoare g freeSlot Q.
Proof.
  intros [Hi [Hc Hb] Hd Hk Hn] HQ1 HQ2. pose proof (inv_order _ _ _ Hi) as HO.
  assert (zlen c = zlen O) as Elen by (rewrite Hc; unfold zlen; by rewrite length_fmap).
  unfold freeSlot. hstep. hstep. rewrite (inv_len _ _ _ Hi). pose proof (zlen_nonneg O).
  destruct (Z.eqb_spec (zlen O) cap) as [E|E].
  - assert (O ≠ []) as Hne by (intros ->; unfold zlen in E; simpl in E; lia).
    destruct (exists_last Hne) as (O1 & pos & ->).
    assert (nx g (gHead g) = pos) as Enx.
    { pose proof (inv_head _ _ _ Hi) as Hh. pose proof (ord_ring _ _ HO) as Hr.
      destruct O1 as [|x O1]; simpl in Hh, Hr; rewrite Hh; [by destruct Hr|]. by apply path_snoc in Hr as (_ & _ & ?). }
    assert (inb (gHead g)) as Hih.
    { pose proof (inv_head _ _ _ Hi) as Hh. destruct O1 as [|x O1]; simpl in Hh; rewrite Hh; apply HO; set_solver. }
    hstep. hstep; [done|]. change (next (gE g (gHead g))) with (nx g (gHead g)). rewrite Enx.
    apply hoare_bind. eapply evict_inv; [exact Hi|]. intros g' L Hd' Hb' Hi' HL. hstep. rewrite app_nil_r in Hi'.
    pose proof (dense_remove O1 [] pos _ (ord_nodup _ _ HO) Hd) as Hdr. rewrite app_nil_r in Hdr.
    assert (zlen (pos :: O1) = zlen (O1 ++ [pos])) as EN by (rewrite zlen_cons, zlen_app; done).
    assert (take (length c - 1) c = entryOf g <$> O1) as Et.
    { rewrite Hc, fmap_app, length_app. cbn [length fmap list_fmap].
      rewrite Nat.add_sub, take_app_length'; [done|]. done. }
    apply (HQ2 g' O1 pos L); [lia|done|done| |done]. rewrite Et. split; [done|..|lia|].
    + eapply holds_same; [intros q _; apply Hd'|intros q _; apply Hb'|]. split; [done|]. intros p Hp. apply Hb. set_solver.
    + rewrite Hdr. tauto.
    + apply HO. set_solver.
    + intros q. rewrite EN, <- Hd. set_solver.
    + pose proof (keys_sublist _ O1 pos [] _ Hk Hc) as Hks. by rewrite app_nil_r in Hks.
  - hstep. apply HQ1; [lia|]. split; try done.
    + rewrite Hd. lia.
    + unfold inb. lia.
    + intros q. rewrite elem_of_cons, Hd, zlen_cons. lia.
    + rewrite zlen_cons. lia.
Qed.

Lemma insert_repr g O Bk Bk' pos k v x c' (Q : unit → ghost → Prop) :
  freed g O Bk pos c' → (∀ e, e ∈ c' → eKey e ≠ k) →
  ∀ g', bucketsOK g' (pos :: O) Bk' → bp g' pos = posOf (hash k) → sameOrder g g' →
    (∀ q, q ∈ O → dataOf g' q = dataOf g q ∧ bp g' q = bp g q) →
    (∀ g2, repr g2 (pos :: O) Bk' (mkEntry k v x :: c') → Q tt g2) →
    hoare g' (insert pos k v x) Q.
Proof.
  intros [[HO Hh HB Hl] Hc Hp Hin Hd Hn Hk] Hkey g' HB' Hbp (Hnx & Hpv & Hhd & Hln) Hdata HQ.
  apply (insert_order g' pos k v x O).
  - by eapply orderOK_same; [..|exact HO].
  - unfold headOK in *. destruct O; [done|]. congruence.
  - congruence.
  - done.
  - done.
  - rewrite zlen_cons in Hn. lia.
  - intros g2 Hb2 HO2 Hh2 Hl2 Hd2. apply HQ. split; [split| |done| |done].
    + done.
    + done.
    + by eapply bucketsOK_same.
    + done.
    + assert (holds g2 O c') as [E1 E2].
      { eapply holds_same; [| |exact Hc]; intros q Hq.
        - rewrite Hd2, fset_ne by (intros ->; done). by apply Hdata.
        - destruct Hb2 as (_ & _ & -> & _). by apply Hdata. }
      specialize (Hd2 pos). rewrite fset_eq in Hd2. unfold dataOf in Hd2. injection Hd2 as K1 K2 K3. split.
      * rewrite fmap_cons, E1. unfold entryOf at 2. by rewrite K1, K2, K3.
      * intros p [->|Hp']%elem_of_cons; [|by apply E2]. destruct Hb2 as (_ & _ & -> & _). by rewrite K1.
    + rewrite fmap_cons. apply NoDup_cons. split; [|done]. intros (e & Ee & He)%list_elem_of_fmap. by apply (Hkey e).
Qed.
(** The new element starts its bucket. *)
Lemma first_in_bucket g O Bk pos k v x c' ev (Q : bool → ghost → Prop) :
  freed g O Bk pos c' → (∀ e, e ∈ c' → eKey e ≠ k) → Bk (posOf (hash k)) = [] →
  (∀ g2 Bk2, repr g2 (pos :: O) Bk2 (mkEntry k v x :: c') → Q ev g2) →
  hoare g (setBucket (posOf (hash k)) pos;; modElem pos (setBucketPos (posOf (hash k)));;
           modElem pos (setNextBucket pos);; modElem pos (setPrevBucket pos);; insert pos k v x;; mret ev) Q.
Proof.
  intros Hfr Hkey EB HQ. pose proof (hash_inb k) as Hb. pose proof (fr_inb _ _ _ _ _ Hfr) as Hin.
  set (b := posOf (hash k)) in *. hstep; [done|]. hstep; [done|]. hstep; [done|]. hstep; [done|]. apply hoare_bind.
  eapply (insert_repr g O Bk (fset Bk b (pos :: Bk b)) pos k v x c'); [done|done|..].
  - eapply (link_buckets g); [apply Hfr|apply Hfr|done|clear; fields..| |].
    + intros q Hq _. clear -Hq. fields.
    + rewrite EB. simpl. clear. fields.
  - unfold b. clear. fields.
  - clear. fields.
  - intros q Hq. assert (q ≠ pos) as Hne by (intros ->; by apply (fr_pos _ _ _ _ _ Hfr)). clear -Hne. fields.
  - intros g2 HR. hstep. by eapply HQ.
Qed.

(** The new element joins its bucket before [start], the bucket's first element
    or, when the bucket has just lost its only one, the free slot itself. *)
Lemma join_bucket g O Bk pos start k v x c' ev (Q : bool → ghost → Prop) :
  freed g O Bk pos c' → (∀ e, e ∈ c' → eKey e ≠ k) →
  match Bk (posOf (hash k)) with [] => start = pos ∧ pb g pos = pos | y :: _ => start = y end →
  (∀ g2 Bk2, repr g2 (pos :: O) Bk2 (mkEntry k v x :: c') → Q ev g2) →
  hoare g (setBucket (posOf (hash k)) pos;; modElem pos (setBucketPos (posOf (hash k)));;
           modElem pos (setNextBucket start);;
           e ← elem start; modElem pos (setPrevBucket (prevBucket e));;
           e ← elem start; modElem (prevBucket e) (setNextBucket pos);;
           modElem start (setPrevBucket pos);; insert pos k v x;; mret ev) Q.
Proof.
  intros Hfr Hkey Hst HQ. pose proof (hash_inb k) as Hb. pose proof (fr_inb _ _ _ _ _ Hfr) as Hin.
  pose proof (inv_buckets _ _ _ (fr_inv _ _ _ _ _ Hfr)) as HB.
  set (b := posOf (hash k)) in *.
  assert (∀ q, q ∈ Bk b → inb q ∧ q ≠ pos) as Hmem.
  { intros q [Hq _]%(bk_mem _ _ _ HB); [|done]. split; [by apply Hfr|]. intros ->. by apply (fr_pos _ _ _ _ _ Hfr). }
  assert (inb start ∧ inb (pb g start) ∧ (start = pos → pb g pos = pos) ∧ (start ≠ pos → pb g start ≠ pos)) as (Hs & Hps & Hsp & Hsp').
  { destruct (Bk b) as [|y l] eqn:EB; [destruct Hst as [-> ->]; done|]. subst start.
    destruct (ring_closed (nb g) (pb g) (Bk b) y) as (_ & Hy & _); [by apply HB|rewrite EB; set_solver|].
    rewrite EB in Hy. destruct (Hmem y) as [Hy1 Hy2]; [set_solver|]. by destruct (Hmem _ Hy) as [Hy3 Hy4]. }
  hstep; [done|]. hstep; [done|]. hstep; [done|]. hstep; [done|]. set (g1 := setE _ pos (setNextBucket _ _)).
  assert (prevBucket (gE g1 start) = pb g start) as E1 by (unfold g1; clear; fields). rewrite E1.
  hstep; [done|]. hstep; [done|]. set (g2 := setE g1 pos _).
  assert (prevBucket (gE g2 start) = pb g start) as E2 by (unfold g2, g1; clear; fields). rewrite E2.
  hstep; [done|]. hstep; [done|]. apply hoare_bind. set (g3 := setE _ start _).
  assert (∀ q, bp g3 q = fset (bp g) pos b q) as Ebp by (unfold g3, g2, g1; clear; fields).
  assert (∀ q, nb g3 q = fset (fset (nb g) pos start) (pb g start) pos q) as Enb by (unfold g3, g2, g1; clear; fields).
  assert (∀ q, pb g3 q = fset (fset (pb g) pos (pb g start)) start pos q) as Epb by (unfold g3, g2, g1; clear; fields).
  eapply (insert_repr g O Bk (fset Bk b (pos :: Bk b)) pos k v x c'); [done|done|..].
  - eapply (link_buckets g); [done|apply Hfr|done|done|unfold g3, g2, g1; clear; fields| |].
    + intros q Hq HqB. rewrite Enb, Epb. destruct (Bk b) as [|y l] eqn:EB.
      * destruct Hst as [-> Hpp]. rewrite Hpp, !fset_ne by done. done.
      * subst start. destruct (ring_closed (nb g) (pb g) (Bk b) y) as (_ & Hy & _); [by apply HB|rewrite EB; set_solver|].
        rewrite EB in Hy. assert (q ≠ y ∧ q ≠ pb g y) as [??] by (split; intros ->; set_solver). by rewrite !fset_ne.
    + pose proof (bk_ring _ _ _ HB b Hb) as Hr. pose proof (bk_nodup _ _ _ HB b Hb) as Hnd.
      destruct (Bk b) as [|y l] eqn:EB.
      * destruct Hst as [-> Hpp]. simpl. rewrite Enb, Epb, Hpp, !fset_eq. done.
      * subst start. assert (y ≠ pos) as Hy by (apply Hmem; set_solver).
        specialize (Hsp' Hy). eapply (ring_insert (nb g) (pb g)); [|done|done|..].
        { intros Hp. by apply Hmem in Hp as [_ ?]. }
        -- rewrite Enb, fset_ne, fset_eq by done. done.
        -- by rewrite Enb, fset_eq.
        -- intros z ??. by rewrite Enb, !fset_ne.
        -- by rewrite Epb, fset_ne, fset_eq by done.
        -- by rewrite Epb, fset_eq.
        -- intros z ??. by rewrite Epb, !fset_ne.
  - rewrite Ebp. apply fset_eq.
  - unfold g3, g2, g1. clear. fields.
  - intros q Hq. assert (q ≠ pos) as Hne by (intros ->; by apply (fr_pos _ _ _ _ _ Hfr)). split.
    + unfold g3, g2, g1. clear -Hne. fields.
    + rewrite Ebp. by apply fset_ne.
  - intros g4 HR. hstep. by eapply HQ.
Qed.
Lemma add_repr g O Bk c k v x :
  repr g O Bk c →
  hoare g (addWithLifetime (hash k) k v x)
    (λ r g', ∃ O' Bk', r = (specAdd cap k v x c).1 ∧ repr g' O' Bk' (specAdd cap k v x c).2).
Proof.
  intros HR. pose proof (find_bucket _ _ _ _ k HR) as Hf. pose proof (r_inv _ _ _ _ HR) as Hi.
  pose proof (inv_buckets _ _ _ Hi) as HB. pose proof (hash_inb k) as Hb.
  assert ((∀ p, p ∈ O → key (gE g p) ≠ k) → ∀ n e, e ∈ take n c → eKey e ≠ k) as Hnew.
  { intros Hno n e He. pose proof (r_holds _ _ _ _ HR) as [Ec _]. subst c.
    assert (e ∈ entryOf g <$> O) as (p & -> & Hp)%list_elem_of_fmap.
    { apply elem_of_take in He as (i & Hi' & _). by eapply list_elem_of_lookup_2. }
    by apply Hno. }
  unfold addWithLifetime, specAdd. apply hoare_bind. apply hashToPos_run; [done|].
  rewrite (bucket_mark _ _ _ _ Hi Hb). case_bool_decide as E0.
  - rewrite E0 in Hf. cbn [List.find] in Hf. destruct Hf as [Hno ->]. specialize (Hnew Hno).
    apply hoare_bind. eapply freeSlot_repr; [exact HR|..].
    + intros Ecap Hfr. destruct (Z.eqb_spec (zlen c) cap); [done|].
      eapply first_in_bucket; [exact Hfr| |done|].
      * intros e He. apply (Hnew (length c)). by rewrite take_ge.
      * intros g2 Bk2 HR2. by eexists _, Bk2.
    + intros g1 O1 pos L Ecap -> Hbp Hfr HL. destruct (Z.eqb_spec (zlen c) cap); [|done].
      eapply first_in_bucket; [exact Hfr|by apply Hnew| |].
      * rewrite fset_ne; [done|]. intros E. destruct (bucket_of _ _ _ pos HB) as [_ Hin]; [set_solver|].
        rewrite <- E, E0 in Hin. set_solver.
      * intros g2 Bk2 HR2. by eexists _, Bk2.
  - destruct (Bk (posOf (hash k))) as [|y l] eqn:EB; [done|].
    rewrite (bk_head _ _ _ HB _ Hb), EB. simpl headOr.
    eapply walkBucket_ring; [exact Hi|exact Hb|exact EB|]. rewrite EB.
    destruct (List.find _ _) as [p|].
    + destruct Hf as (O1 & O2 & -> & Hkey & -> & ->).
      assert (inb p) as Hp by (apply (inv_order _ _ _ Hi); set_solver). hstep; [done|]. hstep; [done|].
      apply hoare_bind. set (g1 := setE (setE g _ _) _ _).
      assert (repr g1 (O1 ++ p :: O2) Bk (entryOf g1 <$> O1 ++ p :: O2)) as HR1.
      { destruct HR as [[HO Hh _ Hl] [Ec Hbk] Hd Hk Hn].
        assert (∀ q, key (gE g1 q) = key (gE g q)) as Ekey by (unfold g1; clear; fields). split; [split| |done| |done].
        - eapply orderOK_same; [..|exact HO]; unfold g1; clear; fields.
        - done.
        - eapply bucketsOK_same; [|exact HB]. unfold g1; clear; fields.
        - done.
        - split; [done|]. intros q Hq. rewrite Ekey, <- Hbk by done. unfold g1; clear; fields.
        - subst c. rewrite <- !list_fmap_compose in *. erewrite list_fmap_ext; [exact Hk|]. intros i q _. apply Ekey. }
      eapply touch_repr; [exact HR1|]. intros g2 _ HR2. hstep. exists (p :: O1 ++ O2), Bk. split; [done|].
      assert (entryOf g1 p = mkEntry k v x) as E1.
      { unfold entryOf, g1. rewrite <- Hkey. clear. unfold setE, fset. simpl. rewrite !decide_True by done. done. }
      assert (entryOf g1 <$> O1 ++ O2 = entryOf g <$> O1 ++ O2) as E2.
      { apply list_fmap_ext. intros i q Hq%list_elem_of_lookup_2.
        pose proof (ord_nodup _ _ (inv_order _ _ _ Hi)) as (_ & Hdis & [Hn2 _]%NoDup_cons)%NoDup_app.
        assert (q ≠ p) as Hne by set_solver. apply entryOf_data. unfold g1. clear -Hne. fields. }
      rewrite E1, E2 in HR2. exact HR2.
    + destruct Hf as [Hno ->]. specialize (Hnew Hno). apply hoare_bind. eapply freeSlot_repr; [exact HR|..].
      * intros Ecap Hfr. destruct (Z.eqb_spec (zlen c) cap); [done|]. hstep.
        eapply join_bucket; [exact Hfr| |by rewrite EB|].
        -- intros e He. apply (Hnew (length c)). by rewrite take_ge.
        -- intros g2 Bk2 HR2. by eexists _, Bk2.
      * intros g1 O1 pos L Ecap -> Hbp Hfr HL. destruct (Z.eqb_spec (zlen c) cap); [|done].
        apply hoare_bind. hstep; [done|]. hstep.
        rewrite (bucket_mark _ _ _ _ (fr_inv _ _ _ _ _ Hfr) Hb), (bk_head _ _ _ (inv_buckets _ _ _ (fr_inv _ _ _ _ _ Hfr)) _ Hb).
        eapply join_bucket; [exact Hfr|by apply Hnew| |].
        -- destruct (fset Bk (bp g pos) L (posOf (hash k))) as [|z l'] eqn:EF; simpl; [|done].
           split; [done|]. apply HL. unfold fset in EF. case_decide; congruence.
        -- intros g2 Bk2 HR2. by eexists _, Bk2.
Qed.
End Logic.

(** ** Bucket positions are in range *)

Lemma onesCount_pow2 x : 0 ≤ x < 2 ^ 32 → onesCount x = 1 → ∃ n, 0 ≤ n < 32 ∧ x = 2 ^ n.
Proof.
  intros Hx Hc. unfold onesCount, zlen in Hc.
  destruct (filter (λ i, Z.testbit x i = true) (seqZ 0 32)) as [|n [|m l]] eqn:E; [simpl in Hc; lia| |simpl in Hc; lia].
  assert (∀ i, 0 ≤ i < 32 → Z.testbit x i = true ↔ i = n) as Hbit.
  { intros i Hi. assert (i ∈ filter (λ i, Z.testbit x i = true) (seqZ 0 32) ↔ i = n) as Hf.
    { rewrite E. apply list_elem_of_singleton. }
    rewrite <- Hf, list_elem_of_filter, elem_of_seqZ. split; [intros; split; [done|lia]|tauto]. }
  assert (0 ≤ n < 32) as Hn.
  { assert (n ∈ filter (λ i, Z.testbit x i = true) (seqZ 0 32)) as [_ Hn%elem_of_seqZ]%list_elem_of_filter; [|lia].
    rewrite E. by apply list_elem_of_singleton. }
  exists n. split; [done|]. apply Z.bits_inj'. intros i Hi. rewrite Z.pow2_bits_eqb by lia.
  destruct (decide (i < 32)) as [Hlt|Hge].
  - destruct (Z.eqb_spec n i) as [<-|Hne]; [by apply Hbit|].
    apply not_true_is_false. intros Ht%Hbit; [|lia]. by subst.
  - destruct (Z.eqb_spec n i); [lia|]. rewrite <- (Z.mod_small x (2 ^ 32)) by done. apply Z.mod_pow2_bits_high. lia.
Qed.

Lemma land_mask_range h n : 0 ≤ n → 0 ≤ Z.land h (2 ^ n - 1) < 2 ^ n.
Proof.
  intros Hn. replace (2 ^ n - 1) with (Z.ones n) by (rewrite Z.ones_equiv; lia).
  rewrite Z.land_ones by done. apply Z.mod_pos_bound. lia.
Qed.

Definition maskOf (size : Z) : Z := if onesCount size =? 1 then u32 (size - 1) else 0.

Lemma fastRange_range size h : 0 < size < 2 ^ 32 → 0 ≤ h < 2 ^ 32 → 0 ≤ fastRange h size < size.
Proof.
  intros Hs Hh. unfold fastRange. rewrite Z.shiftr_div_pow2 by lia. unfold u64.
  rewrite (Z.mod_small (h * size)) by nia.
  assert (0 ≤ h * size / 2 ^ 32 < size) as Hq.
  { split; [apply Z.div_pos; nia|]. apply Z.div_lt_upper_bound; nia. }
  rewrite u32_small; lia.
Qed.

Lemma posOf_inb size h : 0 < size < 2 ^ 32 → 0 ≤ h < 2 ^ 32 → inb size (posOf size (maskOf size) h).
Proof.
  intros Hs Hh. unfold posOf, maskOf, inb. destruct (Z.eqb_spec (onesCount size) 1) as [Ec|_].
  - destruct (onesCount_pow2 size) as (n & Hn & ->); [lia|done|].
    rewrite u32_small by lia. destruct (Z.eqb_spec (2 ^ n - 1) 0); [by apply fastRange_range|].
    apply land_mask_range. lia.
  - by apply fastRange_range.
Qed.

(** ** The refinement *)

Section Refinement.
Context {K V : Type} `{EqDecision K}.
Variable hash : K → Z.
Variables (emptyKey : K) (emptyValue : V).

Inductive call :=
  | cAdd (k : K) (v : V) (lifetime now : Z)
  | cGet (k : K) (now : Z).

Inductive answer := aEvicted (b : bool) | aValue (o : option V).

Definition runCall (x : call) (s : LRU K V) : option (answer * LRU K V) :=
  match x with
  | cAdd k v lifetime now => '(b, s') ← AddWithLifetime hash k v lifetime now s; Some (aEvicted b, s')
  | cGet k now => '(r, s') ← Get hash emptyKey emptyValue k now s; Some (aValue r, s')
  end.

Definition specCall (cap : Z) (x : call) (c : list (entry K V)) : answer * list (entry K V) :=
  match x with
  | cAdd k v lifetime now => let '(b, c') := specAdd cap k v (expire lifetime now) c in (aEvicted b, c')
  | cGet k now => let '(r, c') := specGet k now c in (aValue r, c')
  end.

Fixpoint runCalls (xs : list call) (s : LRU K V) : option (list answer * LRU K V) :=
  match xs with
  | [] => Some ([], s)
  | x :: xs' => '(a, s') ← runCall x s; '(l, s'') ← runCalls xs' s'; Some (a :: l, s'')
  end.

Fixpoint specCalls (cap : Z) (xs : list call) (c : list (entry K V)) : list answer * list (entry K V) :=
  match xs with
  | [] => ([], c)
  | x :: xs' =>
      let '(a, c') := specCall cap x c in
      let '(l, c'') := specCalls cap xs' c' in (a :: l, c'')
  end.

(** The hash function returns a [uint32]. *)
Hypothesis hash_u32 : ∀ k, 0 ≤ hash k < 2 ^ 32.

(** The arrays of the cache [s] hold the entries [c]. *)
Definition caches (cap size : Z) (s : LRU K V) (c : list (entry K V)) : Prop :=
  0 < cap ≤ size ∧ size < emptyBucket ∧
  ∃ g O Bk, rep cap size (maskOf size) s g ∧ repr cap size (maskOf size) hash g O Bk c.

Lemma caches_init cap size : 0 < cap ≤ size → size < emptyBucket →
  caches cap size (initLRU emptyKey emptyValue cap size) [].
Proof.
  intros Hcap Hsize. split_and!; [lia..|].
  exists (mkG (λ _, zeroElement emptyKey emptyValue) (λ _, emptyBucket) 0 0), [], (λ _, []).
  assert (∀ A (x : A) p, 0 ≤ p < size → idx (replicate (Z.to_nat size) x) p = Some x) as Hidx.
  { intros A x p Hp. unfold idx. destruct (Z.leb_spec 0 p); [|lia]. apply lookup_replicate. split; [done|lia]. }
  split.
  - split; try done; simpl; intros; try (apply Hidx; done); unfold zlen; rewrite length_replicate; lia.
  - split; [split; [split|done|split|done]|split|..]; try done; try set_solver; try (intros; apply NoDup_nil_2).
    + intros p. unfold zlen. simpl. split; [set_solver|lia].
    + unfold zlen. simpl. lia.
Qed.

Lemma caches_call cap size s c x : caches cap size s c →
  ∃ s', runCall x s = Some ((specCall cap x c).1, s') ∧ caches cap size s' (specCall cap x c).2.
Proof.
  intros (Hcap & Hsize & g & O & Bk & Hs & HR).
  assert (∀ k, inb size (posOf size (maskOf size) (hash k))) as Hinb.
  { intros k. apply posOf_inb; [unfold emptyBucket in *; lia|done]. }
  destruct x as [k v lifetime now|k now]; simpl.
  - destruct (add_repr cap size (maskOf size) ltac:(lia) hash Hinb Hcap g O Bk c k v (expire lifetime now) HR s Hs)
      as (a & s' & g' & E & Hs' & O' & Bk' & -> & HR').
    exists s'. unfold AddWithLifetime. rewrite E. destruct (specAdd _ _ _ _ _) as [b c']. simpl in *. split; [done|].
    split_and!; [lia..|]. by exists g', O', Bk'.
  - destruct (get_repr emptyKey emptyValue cap size (maskOf size) ltac:(lia) hash Hinb Hcap g O Bk c k now HR s Hs)
      as (a & s' & g' & E & Hs' & O' & Bk' & -> & HR').
    exists s'. unfold Get. rewrite E. destruct (specGet _ _ _) as [b c']. simpl in *. split; [done|].
    split_and!; [lia..|]. by exists g', O', Bk'.
Qed.

Lemma caches_calls cap size xs s c : caches cap size s c →
  ∃ s', runCalls xs s = Some ((specCalls cap xs c).1, s') ∧ caches cap size s' (specCalls cap xs c).2.
Proof.
  revert s c. induction xs as [|x xs IH]; intros s c Hc; [by exists s|]. simpl.
  destruct (caches_call _ _ _ _ x Hc) as (s1 & -> & H1). destruct (specCall cap x c) as [a c1]. simpl in *.
  destruct (IH s1 c1 H1) as (s2 & -> & H2). destruct (specCalls cap xs c1) as [l c2]. simpl in *. by exists s2.
Qed.

Lemma NewWithSize_caches capacity size s0 :
  0 ≤ capacity < 2 ^ 32 → 0 ≤ size < 2 ^ 32 → NewWithSize emptyKey emptyValue capacity size = Ok s0 →
  caches capacity size s0 [].
Proof.
  intros Hc Hsz. unfold NewWithSize. destruct (Z.eqb_spec capacity 0); [done|].
  destruct (Z.eqb_spec size emptyBucket); [done|]. destruct (Z.ltb_spec size capacity); [done|]. intros [= <-].
  apply caches_init; [lia|]. unfold emptyBucket in *. lia.
Qed.

End Refinement.
Arguments call : clear implicits.
Arguments answer : clear implicits.

(** C2: the cache implements an ordered list of entries: whatever calls are made,
    each returns what the list returns, and neither an index is out of range
    nor a bucket walk endless. *)
Theorem lru_refines_list {K V} `{EqDecision K} (hash : K → Z) (ek : K) (ev : V) capacity size s0 xs :
  (∀ k, 0 ≤ hash k < 2 ^ 32) → 0 ≤ capacity < 2 ^ 32 → 0 ≤ size < 2 ^ 32 →
  NewWithSize ek ev capacity size = Ok s0 →
  ∃ s', runCalls hash ek ev xs s0 = Some ((specCalls capacity xs []).1, s').
Proof.
  intros Hh Hc Hsz H0%(NewWithSize_caches hash); [|done..].
  destruct (caches_calls hash ek ev Hh capacity size xs _ [] H0) as (s' & E & _). by exists s'.
Qed.

Definition demoHash (k : Z) : Z := u32 k.

(** Two slots, three keys of which two collide, a refresh, an eviction and an
    expiry. *)
Definition demoCalls : list (call Z Z) :=
  [cAdd 1 10 0 5; cAdd 3 30 2000000 5; cGet 1 6; cAdd 4 40 0 7; cGet 3 8; cGet 1 9; cAdd 1 11 1000000 9; cGet 1 12; cGet 4 12].

Lemma lru_refines_list_witness :
  (specCalls 2 demoCalls []).1 =
    [aEvicted false; aEvicted false; aValue (Some 10); aEvicted true; aValue None; aValue (Some 10);
     aEvicted false; aValue None; aValue (Some 40)] ∧
  ∃ s', runCalls demoHash 0 0 demoCalls (initLRU 0 0 2 2) = Some ((specCalls 2 demoCalls []).1, s').
Proof.
  split; [vm_compute; reflexivity|].
  apply (lru_refines_list demoHash 0 0 2 2); [|lia|lia|vm_compute; reflexivity].
  intros k. apply Z.mod_pos_bound. lia.
Defined.
