(* ===== verification/Sharded.v ===== *)
(** * The sharded LRU cache (freelru/shardedlru.go)

    A power of two of independent LRU caches; a key's shard is chosen by the high
    bits of its hash.  The source keeps all shards in two big arrays and gives
    each shard its own slice of them; since the slices do not overlap, a shard is
    modelled by its own arrays.  Every call runs under its shard's lock. *)

From S2P Require Import Prelude Errors Ring LRU LRUSpec.
Local Open Scope Z_scope.

(** ** What the ordered list promises

    The laws that the users of a cache rely on, stated of the abstract cache. *)

Section Laws.
Context {K V : Type} `{EqDecision K}.
Notation call := (call K V).

(** The value and expiry of the last addition of [k]. *)
Fixpoint lastAdd (k : K) (xs : list call) : option (V * Z) :=
  match xs with
  | [] => None
  | x :: xs' =>
      match lastAdd k xs', x with
      | Some r, _ => Some r
      | None, cAdd k' v lifetime now => if bool_decide (k' = k) then Some (v, expire lifetime now) else None
      | None, cGet _ _ => None
      end
  end.

Lemma lastAdd_snoc k xs x :
  lastAdd k (xs ++ [x]) =
  match x with
  | cAdd k' v lifetime now => if bool_decide (k' = k) then Some (v, expire lifetime now) else lastAdd k xs
  | cGet _ _ => lastAdd k xs
  end.
Proof.
  induction xs as [|y xs IH]; simpl; [by destruct x; [case_bool_decide|]|]. rewrite IH.
  destruct x as [k' v lt now|]; [|done]. case_bool_decide; done.
Qed.

(** Every entry is the last one added for its key. *)
Definition upToDate (xs : list call) (c : list (entry K V)) : Prop :=
  ∀ e, e ∈ c → lastAdd (eKey e) xs = Some (eValue e, eExpire e).

Lemma without_elem k (c : list (entry K V)) e : e ∈ without k c ↔ e ∈ c ∧ eKey e ≠ k.
Proof. unfold without. rewrite list_elem_of_filter. tauto. Qed.

Lemma lookup_elem k (c : list (entry K V)) e : lookup k c = Some e → e ∈ c ∧ eKey e = k.
Proof. unfold lookup. intros [H1 H2]%find_some. by apply list_elem_of_In in H1; apply bool_decide_eq_true in H2. Qed.

Lemma lookup_None k (c : list (entry K V)) : lookup k c = None → ∀ e, e ∈ c → eKey e ≠ k.
Proof.
  unfold lookup. intros Hn e He%list_elem_of_In Hk. pose proof (find_none _ _ Hn e He) as Hf. simpl in Hf.
  by rewrite bool_decide_eq_true_2 in Hf.
Qed.

Lemma upToDate_call cap xs c x : upToDate xs c → upToDate (xs ++ [x]) (specCall cap x c).2.
Proof.
  intros Hu. destruct x as [k v lt now|k now]; simpl.
  - unfold specAdd. destruct (lookup k c) as [e0|] eqn:El.
    + intros e [->|[He Hk]%without_elem]%elem_of_cons; rewrite lastAdd_snoc; simpl.
      * by rewrite bool_decide_eq_true_2.
      * rewrite bool_decide_eq_false_2 by done. by apply Hu.
    + pose proof (lookup_None _ _ El) as Hno.
      assert (∀ n, upToDate (xs ++ [cAdd k v lt now]) (mkEntry k v (expire lt now) :: take n c)) as Ht.
      { intros n e [->|(i & He & _)%elem_of_take]%elem_of_cons; rewrite lastAdd_snoc; simpl.
        - by rewrite bool_decide_eq_true_2.
        - apply list_elem_of_lookup_2 in He. specialize (Hno e He).
          rewrite bool_decide_eq_false_2 by done. by apply Hu. }
      destruct (zlen c =? cap); simpl; [apply Ht|]. specialize (Ht (length c)). by rewrite take_ge in Ht.
  - unfold specGet. destruct (lookup k c) as [e0|] eqn:El.
    + destruct (lookup_elem _ _ _ El) as [He0 _]. destruct (expired e0 now); simpl.
      * intros e [He _]%without_elem. rewrite lastAdd_snoc. by apply Hu.
      * intros e [->|[He _]%without_elem]%elem_of_cons; rewrite lastAdd_snoc; by apply Hu.
    + intros e He. rewrite lastAdd_snoc. by apply Hu.
Qed.

(** A hit is the last value added, and it has not expired. *)
Lemma specGet_hit xs c k now v : upToDate xs c → (specGet k now c).1 = Some v →
  ∃ x, lastAdd k xs = Some (v, x) ∧ (x = 0 ∨ now < x).
Proof.
  intros Hu. unfold specGet. destruct (lookup k c) as [e|] eqn:El; [|done].
  destruct (lookup_elem _ _ _ El) as [He <-]. unfold expired.
  destruct (Z.eqb_spec (eExpire e) 0) as [E|E]; simpl.
  - intros [= <-]. exists (eExpire e). split; [by apply Hu|by left].
  - destruct (Z.leb_spec (eExpire e) now); simpl; [done|]. intros [= <-].
    exists (eExpire e). split; [by apply Hu|by right].
Qed.

Definition keyOf (x : call) : K := match x with cAdd k _ _ _ | cGet k _ => k end.

(** [k] is in the cache with value [v] and expiry [x], behind keys of [T] only. *)
Definition recent (k : K) (v : V) (x : Z) (T : list K) (c : list (entry K V)) : Prop :=
  NoDup (eKey <$> c) ∧ ∃ c1 c2, c = c1 ++ mkEntry k v x :: c2 ∧ eKey <$> c1 ⊆ T.

Lemma NoDup_without k (c : list (entry K V)) : NoDup (eKey <$> c) → NoDup (eKey <$> without k c).
Proof.
  intros Hnd. eapply sublist_NoDup; [exact Hnd|]. unfold without.
  induction c as [|e c IH]; [done|]. rewrite filter_cons. simpl in Hnd. apply NoDup_cons in Hnd as [_ Hnd].
  case_decide; simpl; [by apply sublist_skip, IH|by apply sublist_cons, IH].
Qed.

Lemma NoDup_front k v x (c : list (entry K V)) :
  NoDup (eKey <$> c) → (∀ e, e ∈ c → eKey e ≠ k) → NoDup (eKey <$> mkEntry k v x :: c).
Proof.
  intros Hnd Hno. rewrite fmap_cons. apply NoDup_cons. split; [|done].
  intros (e & He & Hin)%list_elem_of_fmap. by apply (Hno e).
Qed.

Lemma specCall_nodup cap x (c : list (entry K V)) : NoDup (eKey <$> c) → NoDup (eKey <$> (specCall cap x c).2).
Proof.
  intros Hnd. destruct x as [k v lt now|k now]; cbn [specCall].
  - unfold specAdd. destruct (lookup k c) as [e0|] eqn:El; cbn [snd].
    + apply NoDup_front; [by apply NoDup_without|]. by intros e [_ He]%without_elem.
    + pose proof (lookup_None _ _ El) as Hno. destruct (zlen c =? cap); cbn [snd]; apply NoDup_front; try done.
      * eapply sublist_NoDup; [exact Hnd|]. apply fmap_sublist, sublist_take.
      * intros e (i & He%list_elem_of_lookup_2 & _)%elem_of_take. by apply Hno.
  - unfold specGet. destruct (lookup k c) as [e0|] eqn:El; [|done].
    destruct (lookup_elem _ _ _ El) as [_ Hk]. destruct (expired e0 now); cbn [snd]; [by apply NoDup_without|].
    destruct e0 as [k0 v0 x0]. simpl in Hk. subst k0. apply NoDup_front; [by apply NoDup_without|].
    by intros e [_ He]%without_elem.
Qed.

Lemma without_split k k' v x (c1 c2 : list (entry K V)) : k' ≠ k →
  without k' (c1 ++ mkEntry k v x :: c2) = without k' c1 ++ mkEntry k v x :: without k' c2.
Proof. intros Hne. unfold without. rewrite filter_app, filter_cons_True by (simpl; done). done. Qed.

(** Using another key leaves [k] in place as long as fewer than [cap] keys are
    in use. *)
Lemma recent_call cap k v x T c y :
  keyOf y ≠ k → Z.of_nat (length (remove_dups (keyOf y :: T))) < cap →
  recent k v x T c → recent k v x (keyOf y :: T) (specCall cap y c).2.
Proof.
  intros Hne Hcap [Hnd (c1 & c2 & -> & Hsub)]. split; [by apply specCall_nodup|].
  assert (∀ k', eKey <$> without k' c1 ⊆ T) as Hw.
  { intros k' z (e & -> & [He _]%without_elem)%list_elem_of_fmap. apply Hsub. by apply list_elem_of_fmap_2. }
  destruct y as [k' v' lt now|k' now]; simpl in Hne.
  - cbn [specCall specAdd]. unfold specAdd. destruct (lookup k' _) as [e0|] eqn:El; cbn [fst snd keyOf].
    + rewrite without_split by done. exists (mkEntry k' v' (expire lt now) :: without k' c1), (without k' c2).
      split; [done|]. rewrite fmap_cons. simpl. specialize (Hw k'). set_solver.
    + pose proof (lookup_None _ _ El) as Hno. destruct (Z.eqb_spec (zlen (c1 ++ mkEntry k v x :: c2)) cap) as [Ec|]; simpl.
      * assert (length (k' :: (eKey <$> c1)) ≤ length (remove_dups (k' :: T)))%nat as Hlen.
        { apply submseteq_length, NoDup_submseteq.
          - apply NoDup_cons. split.
            + intros (e & -> & He)%list_elem_of_fmap. by apply (Hno e); [set_solver|].
            + rewrite fmap_app in Hnd. by apply NoDup_app in Hnd as [? _].
          - intros z Hz. rewrite elem_of_remove_dups. set_solver. }
        cbn [length] in Hlen. rewrite length_fmap in Hlen. cbn [keyOf] in Hcap.
        unfold zlen in Ec. rewrite length_app in *. cbn [length] in *.
        exists (mkEntry k' v' (expire lt now) :: c1), (take (length c2 - 1) c2). split; [|set_solver].
        cbn [app]. f_equal. rewrite take_app_ge by lia. f_equal.
        replace (length c1 + S (length c2) - 1 - length c1)%nat with (S (length c2 - 1)) by lia. done.
      * exists (mkEntry k' v' (expire lt now) :: c1), c2. split; [done|set_solver].
  - cbn [specCall]. unfold specGet. destruct (lookup k' _) as [e0|] eqn:El; cbn [fst snd keyOf]; [|exists c1, c2; split; [done|set_solver]].
    destruct (lookup_elem _ _ _ El) as [_ Hk]. rewrite without_split by done. specialize (Hw k').
    destruct (expired e0 now); simpl.
    + exists (without k' c1), (without k' c2). split; [done|set_solver].
    + exists (e0 :: without k' c1), (without k' c2). split; [done|]. rewrite fmap_cons, Hk. set_solver.
Qed.

Lemma specCalls_app cap xs ys (c : list (entry K V)) :
  specCalls cap (xs ++ ys) c =
  ((specCalls cap xs c).1 ++ (specCalls cap ys (specCalls cap xs c).2).1,
   (specCalls cap ys (specCalls cap xs c).2).2).
Proof.
  revert c. induction xs as [|x xs IH]; intros c; simpl.
  - by destruct (specCalls cap ys c).
  - destruct (specCall cap x c) as [a c']. rewrite IH. by destruct (specCalls cap xs c').
Qed.

Lemma specCalls_nodup cap xs (c : list (entry K V)) : NoDup (eKey <$> c) → NoDup (eKey <$> (specCalls cap xs c).2).
Proof.
  revert c. induction xs as [|x xs IH]; intros c Hc; [done|]. simpl.
  pose proof (specCall_nodup cap x c Hc) as Hx. destruct (specCall cap x c) as [a c']. simpl in *.
  specialize (IH c' Hx). by destruct (specCalls cap xs c').
Qed.

Lemma recent_calls cap k v x xs T c :
  Forall (λ y, keyOf y ≠ k) xs → Z.of_nat (length (remove_dups (reverse (keyOf <$> xs) ++ T))) < cap →
  recent k v x T c → recent k v x (reverse (keyOf <$> xs) ++ T) (specCalls cap xs c).2.
Proof.
  revert T c. induction xs as [|y xs IH]; intros T c Hall Hcap Hr; [done|].
  apply Forall_cons in Hall as [Hy Hall]. rewrite fmap_cons, reverse_cons, <- app_assoc in *. simpl app in *. simpl.
  assert (recent k v x (keyOf y :: T) (specCall cap y c).2) as Hr1.
  { apply recent_call; [done| |done]. eapply Z.le_lt_trans; [|exact Hcap]. apply inj_le.
    apply submseteq_length, NoDup_submseteq; [apply NoDup_remove_dups|]. intros z. rewrite !elem_of_remove_dups. set_solver. }
  destruct (specCall cap y c) as [a c']. simpl in *. specialize (IH (keyOf y :: T) c' Hall Hcap Hr1).
  by destruct (specCalls cap xs c').
Qed.

Lemma recent_add cap k v lt now c : NoDup (eKey <$> c) →
  recent k v (expire lt now) [] (specCall cap (cAdd k v lt now) c).2.
Proof.
  intros Hnd. split; [by apply specCall_nodup|]. cbn [specCall]. unfold specAdd.
  destruct (lookup k c); [|destruct (zlen c =? cap)]; simpl; eexists [], _; by split.
Qed.

Lemma recent_get k v x T c t : recent k v x T c → x = 0 ∨ t < x → (specGet k t c).1 = Some v.
Proof.
  intros [Hnd (c1 & c2 & -> & _)] Hx. unfold specGet.
  destruct (lookup_split k c1 c2 (mkEntry k v x) Hnd eq_refl) as [-> _]. unfold expired. simpl.
  destruct (Z.eqb_spec x 0); [done|]. simpl. destruct (Z.leb_spec x t); [lia|done].
Qed.
End Laws.

(** The cache keeps the keys used last: an entry added is still found after
    any calls on other keys, as long as fewer different keys than the capacity
    were used since and the entry has not expired. *)
Theorem lru_keeps_recent {K V} `{EqDecision K} (hash : K → Z) (ek : K) (ev : V) capacity size s0
    xs k v lifetime now ys t :
  (∀ k, 0 ≤ hash k < 2 ^ 32) → 0 ≤ capacity < 2 ^ 32 → 0 ≤ size < 2 ^ 32 →
  NewWithSize ek ev capacity size = Ok s0 →
  Forall (λ y, keyOf y ≠ k) ys → Z.of_nat (length (remove_dups (keyOf <$> ys))) < capacity →
  expire lifetime now = 0 ∨ t < expire lifetime now →
  ∃ l s', runCalls hash ek ev (xs ++ [cAdd k v lifetime now] ++ ys ++ [cGet k t]) s0 = Some (l ++ [aValue (Some v)], s').
Proof.
  intros Hh Hc Hsz Hnew Hys Hlen Hx. pose proof (NewWithSize_caches hash ek ev Hh _ _ _ Hc Hsz Hnew) as H0.
  destruct (caches_calls hash ek ev Hh _ _ (xs ++ [cAdd k v lifetime now] ++ ys ++ [cGet k t]) _ _ H0) as (s' & -> & _).
  rewrite !specCalls_app. cbn [fst snd].
  set (c0 := (specCalls capacity xs []).2).
  assert (NoDup (eKey <$> c0)) as Hnd by (apply specCalls_nodup, NoDup_nil_2).
  pose proof (recent_add capacity k v lifetime now c0 Hnd) as Hr.
  assert ((specCalls capacity [cAdd k v lifetime now] c0).2 = (specCall capacity (cAdd k v lifetime now) c0).2) as Ead
    by (cbn [specCalls]; by destruct (specCall _ _ _)).
  rewrite <- Ead in Hr. set (c1 := (specCalls capacity [cAdd k v lifetime now] c0).2) in *.
  apply (recent_calls capacity _ _ _ ys) in Hr; [|done|].
  2: { rewrite app_nil_r. eapply Z.le_lt_trans; [|exact Hlen]. apply inj_le, submseteq_length, NoDup_submseteq.
       - apply NoDup_remove_dups.
       - intros z. rewrite !elem_of_remove_dups, elem_of_reverse. done. }
  apply (recent_get _ _ _ _ _ t) in Hr; [|done]. set (c2 := (specCalls capacity ys c1).2) in *.
  cbn [specCalls specCall]. destruct (specGet k t c2) as [r c3]. simpl in Hr. subst r. cbn [fst].
  eexists _, s'. by rewrite !app_assoc.
Qed.

Lemma lru_keeps_recent_witness :
  ∃ l s', runCalls demoHash 0 0 ([cAdd 1 10 0 5] ++ [cAdd 2 20 3000000 5] ++ [cGet 1 6; cAdd 1 11 0 6] ++ [cGet 2 7])
            (initLRU 0 0 2 2) = Some (l ++ [aValue (Some 20)], s').
Proof.
  apply (lru_keeps_recent demoHash 0 0 2 2); [|lia|lia|vm_compute; reflexivity|by_decide|vm_compute; reflexivity|
    right; vm_compute; reflexivity].
  intros k. apply Z.mod_pos_bound. lia.
Defined.

(** ** Sharding *)

(** [bits.Len32]. *)
Definition bitLen (x : Z) : Z := if x =? 0 then 0 else Z.log2 x + 1.

Definition nextPowerOfTwo (val : Z) : Z :=
  if negb (onesCount val =? 1) then u32 (Z.shiftl 1 (bitLen val)) else val.

Record ShardedLRU (K V : Type) := mkSharded {
  lrus : list (LRU K V);
  shardMask : Z;
}.
Arguments mkSharded {K V} _ _.
Arguments lrus {K V} _.
Arguments shardMask {K V} _.

(** [for shards > size/16 { shards /= 16 }]; a [uint32] is zero after eight
    rounds, and the loop stops at zero. *)
Fixpoint reduceShards (fuel : nat) (shards size : Z) : Z :=
  match fuel with
  | O => shards
  | S f => if size / 16 <? shards then reduceShards f (shards / 16) size else shards
  end.

Section Sharded.
Context {K V : Type} `{EqDecision K}.
Variable hash : K → Z.
Variables (emptyKey : K) (emptyValue : V).

Definition NewShardedWithSize (shards capacity size : Z) : res (ShardedLRU K V) :=
  if capacity =? 0 then fail "capacity must be positive"
  else if size <? capacity then
    Err (errorString ("size (" ++ itoa size ++ ") is smaller than capacity (" ++ itoa capacity ++ ")"))
  else
    let size := if size <? 2 ^ 31 then nextPowerOfTwo size else 2 ^ 31 in
    let shards := reduceShards 9 (nextPowerOfTwo shards) size in
    let shards := if shards =? 0 then 1 else shards in
    let size := size / shards in
    let size := if size =? 0 then 1 else size in
    let capacity := u32 (capacity + shards - 1) / shards in
    let capacity := if capacity =? 0 then 1 else capacity in
    Ok (mkSharded (replicate (Z.to_nat shards) (initLRU emptyKey emptyValue capacity size)) (u32 (shards - 1))).

(** [GOMAXPROCS(0)] is a parameter.  The product with 1.25 is exact in a
    float64; converting it is modelled for what fits a [uint32]. *)
Definition NewSharded (gomaxprocs capacity : Z) : res (ShardedLRU K V) :=
  NewShardedWithSize (u32 (gomaxprocs * 16)) capacity (u32 (capacity * 5 / 4)).

Definition shardOf (lru : ShardedLRU K V) (h : Z) : Z := Z.land (Z.shiftr h 16) (shardMask lru).

(** One call, on the shard of its key. *)
Definition onShard {A} (lru : ShardedLRU K V) (h : Z) (m : LRU K V → option (A * LRU K V))
  : option (A * ShardedLRU K V) :=
  s ← idx (lrus lru) (shardOf lru h);
  '(a, s') ← m s;
  Some (a, mkSharded (<[Z.to_nat (shardOf lru h) := s']> (lrus lru)) (shardMask lru)).

Definition ShardedAddWithLifetime (k : K) (v : V) (lifetime now : Z) (lru : ShardedLRU K V)
  : option (bool * ShardedLRU K V) :=
  onShard lru (hash k) (addWithLifetime (hash k) k v (expire lifetime now)).

Definition ShardedGet (k : K) (now : Z) (lru : ShardedLRU K V) : option (option V * ShardedLRU K V) :=
  onShard lru (hash k) (get emptyKey emptyValue (hash k) k now).
End Sharded.

(** *** The number and the size of the shards *)

Lemma nextPowerOfTwo_spec x : 0 ≤ x < 2 ^ 32 →
  (2 ^ 31 < x ∧ nextPowerOfTwo x = 0) ∨ ∃ n, 0 ≤ n ≤ 31 ∧ nextPowerOfTwo x = 2 ^ n ∧ x ≤ 2 ^ n.
Proof.
  intros Hx. unfold nextPowerOfTwo. destruct (Z.eqb_spec (onesCount x) 1) as [E|E]; simpl.
  - right. destruct (onesCount_pow2 x Hx E) as (n & Hn & ->). exists n. split_and!; lia.
  - unfold bitLen. destruct (Z.eqb_spec x 0) as [->|Hx0].
    + right. exists 0. split_and!; [lia..|done|lia].
    + pose proof (Z.log2_spec x ltac:(lia)) as [H1 H2]. pose proof (Z.log2_nonneg x).
      assert (Z.log2 x < 32) by (apply Z.log2_lt_pow2; lia).
      rewrite Z.shiftl_mul_pow2, Z.mul_1_l by lia. destruct (decide (Z.log2 x = 31)) as [El|El].
      * left. rewrite El in *. split; [|done]. assert (x ≠ 2 ^ 31); [|simpl in *; lia].
        intros ->. by apply E.
      * right. exists (Z.log2 x + 1). rewrite u32_small; [split_and!; lia|]. split; [lia|].
        apply Z.pow_lt_mono_r; lia.
Qed.

(** Divided by sixteen often enough: a smaller power of two, or zero. *)
Lemma reduceShards_spec fuel m size : 0 ≤ m < 4 * Z.of_nat fuel → 0 ≤ size →
  let r := reduceShards fuel (2 ^ m) size in
  r = 0 ∨ ∃ n, 0 ≤ n ≤ m ∧ r = 2 ^ n ∧ 2 ^ n ≤ size / 16.
Proof.
  revert m. induction fuel as [|fuel IH]; intros m Hm Hs; [lia|]. cbn [reduceShards].
  destruct (Z.ltb_spec (size / 16) (2 ^ m)) as [Hlt|Hge]; [|right; exists m; split_and!; lia || done].
  destruct (decide (4 ≤ m)) as [Hm4|Hm4].
  - replace (2 ^ m / 16) with (2 ^ (m - 4)).
    + destruct (IH (m - 4) ltac:(lia) Hs) as [?|(n & ? & ? & ?)]; [by left|]. right. exists n. split_and!; lia || done.
    + change 16 with (2 ^ 4). rewrite <- Z.pow_sub_r by lia. done.
  - assert (2 ^ m / 16 = 0) as ->.
    { apply Z.div_small. split; [lia|]. change 16 with (2 ^ 4). apply Z.pow_lt_mono_r; lia. }
    left. clear. destruct fuel as [|f]; [done|]. cbn [reduceShards].
    assert (∀ f, reduceShards f 0 size = 0) as H0; [|destruct (_ <? _); [apply H0|done]].
    clear. intros f. induction f as [|f IH]; [done|]. cbn [reduceShards]. destruct (_ <? _); done.
Qed.

Section ShardedSpec.
Context {K V : Type} `{EqDecision K}.
Variable hash : K → Z.
Variables (emptyKey : K) (emptyValue : V).
Hypothesis hash_u32 : ∀ k, 0 ≤ hash k < 2 ^ 32.

Lemma NewShardedWithSize_shape shards capacity size lru :
  0 ≤ shards < 2 ^ 32 → 0 ≤ capacity → 0 ≤ size < 2 ^ 31 →
  NewShardedWithSize emptyKey emptyValue shards capacity size = Ok lru →
  ∃ n cap' size', 0 ≤ n ≤ 31 ∧ shardMask lru = 2 ^ n - 1 ∧ 0 < cap' ≤ size' ∧ size' < emptyBucket ∧
    lrus lru = replicate (Z.to_nat (2 ^ n)) (initLRU emptyKey emptyValue cap' size') ∧
    capacity ≤ 2 ^ n * cap' < capacity + 2 ^ n.
Proof.
  intros Hsh Hc Hs. unfold NewShardedWithSize. destruct (Z.eqb_spec capacity 0) as [|Hc0]; [done|].
  destruct (Z.ltb_spec size capacity) as [|Hsc]; [done|]. destruct (Z.ltb_spec size (2 ^ 31)) as [_|]; [|lia].
  destruct (nextPowerOfTwo_spec size) as [[? _]|(a & Ha & -> & Hsa)]; [lia|lia|].
  set (r := reduceShards 9 _ _). cbv zeta.
  assert (∃ n, 0 ≤ n ≤ 31 ∧ (if r =? 0 then 1 else r) = 2 ^ n ∧ (n = 0 ∨ 2 ^ n ≤ 2 ^ a / 16)) as (n & Hn & -> & Hna).
  { assert (r = 0 ∨ ∃ n, 0 ≤ n ≤ 31 ∧ r = 2 ^ n ∧ 2 ^ n ≤ 2 ^ a / 16) as [->|(n & Hn & -> & Hle)].
    - unfold r. destruct (nextPowerOfTwo_spec shards Hsh) as [[_ ->]|(m & Hm & -> & _)].
      + left. change 0 with (2 ^ 0 / 16) at 1. cbn [reduceShards]. destruct (Z.ltb_spec (2 ^ a / 16) (2 ^ 0 / 16)) as [H0|]; [|done].
        exfalso. change (2 ^ 0 / 16) with 0 in H0. assert (0 ≤ 2 ^ a / 16) by (apply Z.div_pos; lia). lia.
      + destruct (reduceShards_spec 9 m (2 ^ a)) as [?|(n & ? & ? & ?)]; [lia|lia|by left|]. right. exists n. split_and!; lia || done.
    - exists 0. split_and!; [lia|lia|done|by left].
    - exists n. destruct (Z.eqb_spec (2 ^ n) 0); [lia|]. split_and!; [lia|lia|done|by right]. }
  assert (n ≤ a ∧ 2 ^ n ≤ 2 ^ 27) as [Hle H27].
  { destruct Hna as [->|Hna]; [lia|]. assert (2 ^ n * 16 ≤ 2 ^ a) as H16 by (Z.div_mod_to_equations; lia).
    change 16 with (2 ^ 4) in H16. rewrite <- Z.pow_add_r in H16 by lia. apply Z.pow_le_mono_r_iff in H16; [|lia..].
    split; [lia|]. apply Z.pow_le_mono_r; lia. }
  assert (2 ^ a / 2 ^ n = 2 ^ (a - n)) as -> by (rewrite <- Z.pow_sub_r; lia || done).
  destruct (Z.eqb_spec (2 ^ (a - n)) 0); [lia|]. rewrite u32_small by lia.
  assert (2 ^ a = 2 ^ (a - n) * 2 ^ n) as Ea by (rewrite <- Z.pow_add_r by lia; f_equal; lia).
  set (S := 2 ^ (a - n)) in *. set (N := 2 ^ n) in *. assert (0 < N) by (unfold N; lia).
  assert (capacity ≤ N * ((capacity + N - 1) / N) < capacity + N) as Hq by (Z.div_mod_to_equations; nia).
  destruct (Z.eqb_spec ((capacity + N - 1) / N) 0) as [E0|_]; [rewrite E0 in Hq; lia|].
  intros [= <-]. exists n, ((capacity + N - 1) / N), S. cbn [shardMask lrus].
  assert (S ≤ 2 ^ 31) by (unfold S; apply Z.pow_le_mono_r; lia). fold N.
  split_and!; [lia|lia|rewrite u32_small; lia|nia| |unfold emptyBucket; lia|done|lia|lia].
  apply Z.lt_succ_r, (Z.mul_lt_mono_pos_l N); nia.
Qed.

Definition runShardedCall (x : call K V) (lru : ShardedLRU K V) : option (answer V * ShardedLRU K V) :=
  match x with
  | cAdd k v lifetime now => '(b, l) ← ShardedAddWithLifetime hash k v lifetime now lru; Some (aEvicted b, l)
  | cGet k now => '(r, l) ← ShardedGet hash emptyKey emptyValue k now lru; Some (aValue r, l)
  end.

Fixpoint runShardedCalls (xs : list (call K V)) (lru : ShardedLRU K V) : option (list (answer V) * ShardedLRU K V) :=
  match xs with
  | [] => Some ([], lru)
  | x :: xs' => '(a, l) ← runShardedCall x lru; '(r, l') ← runShardedCalls xs' l; Some (a :: r, l')
  end.

(** The shards hold the lists [cs]: every entry is in the shard of its key, and
    is the last one added for it in the history [xs]. *)
Record shardsOK (cap size n : Z) (xs : list (call K V)) (lru : ShardedLRU K V) (cs : list (list (entry K V))) : Prop := {
  so_mask : 0 ≤ n ∧ shardMask lru = 2 ^ n - 1;
  so_len : Z.of_nat (length cs) = 2 ^ n;
  so_caches : Forall2 (caches hash cap size) (lrus lru) cs;
  so_home : ∀ i c e, cs !! i = Some c → e ∈ c → shardOf lru (hash (eKey e)) = Z.of_nat i;
  so_fresh : ∀ c, c ∈ cs → upToDate xs c;
}.

Lemma runShardedCall_shard x lru :
  runShardedCall x lru =
  ('(a, s') ← (s ← idx (lrus lru) (shardOf lru (hash (keyOf x))); runCall hash emptyKey emptyValue x s);
   Some (a, mkSharded (<[Z.to_nat (shardOf lru (hash (keyOf x))) := s']> (lrus lru)) (shardMask lru))).
Proof.
  destruct x as [k v lt now|k now]; cbn [runShardedCall runCall keyOf];
    unfold ShardedAddWithLifetime, ShardedGet, onShard, AddWithLifetime, Get;
    destruct (idx _ _) as [s|]; cbn [mbind option_bind]; try done.
  - by destruct (addWithLifetime _ _ _ _ s) as [[? ?]|].
  - by destruct (get _ _ _ _ _ s) as [[? ?]|].
Qed.

Lemma specCall_keys cap (x : call K V) (c : list (entry K V)) e : e ∈ (specCall cap x c).2 → eKey e = keyOf x ∨ ∃ e', e' ∈ c ∧ eKey e' = eKey e.
Proof.
  destruct x as [k v lt now|k now]; cbn [specCall keyOf]; [unfold specAdd|unfold specGet];
    destruct (lookup k c) as [e0|] eqn:El; try (destruct (lookup_elem _ _ _ El) as [He0 Hk0]).
  - intros [->|[? _]%without_elem]%elem_of_cons; eauto.
  - destruct (zlen c =? cap); cbn [snd].
    + intros [->|(i & He%list_elem_of_lookup_2 & _)%elem_of_take]%elem_of_cons; eauto.
    + intros [->|?]%elem_of_cons; eauto.
  - destruct (expired e0 now); cbn [snd].
    + intros [? _]%without_elem. eauto.
    + intros [->|[? _]%without_elem]%elem_of_cons; eauto.
  - cbn [snd]. eauto.
Qed.

Lemma caches_nodup cap size (s : LRU K V) (c : list (entry K V)) : caches hash cap size s c → NoDup (eKey <$> c).
Proof. intros (_ & _ & g & O & Bk & _ & HR). apply HR. Qed.

(** One call, seen from its shard. *)
Lemma shard_call cap size n xs lru cs x : shardsOK cap size n xs lru cs →
  ∃ c s s', let i := Z.to_nat (shardOf lru (hash (keyOf x))) in
    cs !! i = Some c ∧ lrus lru !! i = Some s ∧ caches hash cap size s c ∧
    runShardedCall x lru = Some ((specCall cap x c).1, mkSharded (<[i := s']> (lrus lru)) (shardMask lru)) ∧
    caches hash cap size s' (specCall cap x c).2.
Proof.
  intros [[Hn Hm] Hl Hcs Hh Hf]. set (i := shardOf lru (hash (keyOf x))).
  assert (0 ≤ i < 2 ^ n) as Hi by (unfold i, shardOf; rewrite Hm; by apply land_mask_range).
  destruct (lookup_lt_is_Some_2 cs (Z.to_nat i)) as [c Hc]; [lia|].
  destruct (Forall2_lookup_r _ _ _ _ _ Hcs Hc) as (s & Hs & Hsc).
  destruct (caches_call hash emptyKey emptyValue hash_u32 cap size s c x Hsc) as (s' & E & Hs').
  exists c, s, s'. cbv zeta. split_and!; try done. rewrite runShardedCall_shard. fold i.
  assert (idx (lrus lru) i = Some s) as -> by (unfold idx; destruct (Z.leb_spec 0 i); [done|lia]).
  cbn [mbind option_bind]. by rewrite E.
Qed.

Lemma shardsOK_call cap size n xs lru cs x : shardsOK cap size n xs lru cs →
  ∃ a lru' cs', runShardedCall x lru = Some (a, lru') ∧ shardsOK cap size n (xs ++ [x]) lru' cs' ∧
    ∀ k now v, x = cGet k now → a = aValue (Some v) → ∃ y, lastAdd k xs = Some (v, y) ∧ (y = 0 ∨ now < y).
Proof.
  intros Hok. destruct (shard_call _ _ _ _ _ _ x Hok) as (c & s & s' & Hc & Hs & Hsc & E & Hs').
  destruct Hok as [[Hn Hm] Hl Hcs Hh Hf]. set (i := shardOf lru (hash (keyOf x))) in *.
  assert (0 ≤ i < 2 ^ n) as Hi by (unfold i, shardOf; rewrite Hm; by apply land_mask_range).
  exists (specCall cap x c).1, (mkSharded (<[Z.to_nat i := s']> (lrus lru)) (shardMask lru)),
    (<[Z.to_nat i := (specCall cap x c).2]> cs). split_and!.
  - exact E.
  - pose proof (upToDate_call cap xs c x (Hf c (list_elem_of_lookup_2 _ _ _ Hc))) as Hu. split; cbn [lrus shardMask].
    + done.
    + by rewrite length_insert.
    + by apply Forall2_insert.
    + intros j c' e. change (shardOf (mkSharded _ _) (hash (eKey e))) with (shardOf lru (hash (eKey e))).
      rewrite list_lookup_insert_Some. intros [(<- & <- & _)|[_ Hj]] He; [|exact (Hh j c' e Hj He)].
      destruct (specCall_keys _ _ _ _ He) as [->|(e' & He' & <-)]; [fold i; lia|]. exact (Hh _ _ _ Hc He').
    + intros c' (j & Hj)%list_elem_of_lookup. apply list_lookup_insert_Some in Hj as [(<- & <- & _)|[Hne Hj]]; [done|].
      intros e He. rewrite lastAdd_snoc. assert (eKey e ≠ keyOf x) as Hk.
      { intros Hk. pose proof (Hh j c' e Hj He) as Hhome. rewrite Hk in Hhome. fold i in Hhome. lia. }
      destruct x as [k v lt now|]; [|by apply (Hf c'); [eapply list_elem_of_lookup_2|]].
      simpl in Hk. rewrite bool_decide_eq_false_2 by done. by apply (Hf c'); [eapply list_elem_of_lookup_2|].
  - intros k now v -> Ha. cbn [specCall] in Ha. apply (specGet_hit xs c k now v).
    + apply Hf. by eapply list_elem_of_lookup_2.
    + destruct (specGet k now c) as [r c']. cbn [fst] in *. by injection Ha.
Qed.

Lemma shardsOK_calls cap size n ys xs lru cs : shardsOK cap size n xs lru cs →
  ∃ l lru', runShardedCalls ys lru = Some (l, lru') ∧
    ∀ i k now v, ys !! i = Some (cGet k now) → l !! i = Some (aValue (Some v)) →
      ∃ y, lastAdd k (xs ++ take i ys) = Some (v, y) ∧ (y = 0 ∨ now < y).
Proof.
  revert xs lru cs. induction ys as [|x ys IH]; intros xs lru cs Hok; [by exists [], lru|].
  destruct (shardsOK_call _ _ _ _ _ _ x Hok) as (a & lru1 & cs1 & E & Hok1 & Hget).
  destruct (IH _ _ _ Hok1) as (l & lru2 & E2 & Hl). exists (a :: l), lru2. cbn [runShardedCalls]. rewrite E. simpl.
  rewrite E2. split; [done|]. intros [|i] k now v Hy Ha; simpl in Hy, Ha.
  - injection Hy as ->. injection Ha as ->. rewrite app_nil_r. by apply Hget.
  - specialize (Hl i k now v Hy Ha). by rewrite <- app_assoc in Hl.
Qed.

(** What was just added is found until it expires. *)
Lemma sharded_add_get cap size n xs lru cs k v lt now t : shardsOK cap size n xs lru cs →
  expire lt now = 0 ∨ t < expire lt now →
  ∃ b lru1 lru2, ShardedAddWithLifetime hash k v lt now lru = Some (b, lru1) ∧
    ShardedGet hash emptyKey emptyValue k t lru1 = Some (Some v, lru2).
Proof.
  intros Hok Hx. destruct (shard_call _ _ _ _ _ _ (cAdd k v lt now) Hok) as (c & s & s' & Hc & Hs & Hcc & E & Hs').
  cbn [keyOf] in *. set (i := Z.to_nat (shardOf lru (hash k))) in *.
  set (lru1 := mkSharded (<[i := s']> (lrus lru)) (shardMask lru)) in *.
  pose proof (recent_add cap k v lt now c (caches_nodup _ _ _ _ Hcc)) as Hrec.
  destruct (caches_call hash emptyKey emptyValue hash_u32 cap size s' _ (cGet k t) Hs') as (s2 & E2 & _).
  cbn [runShardedCall] in E. destruct (ShardedAddWithLifetime hash k v lt now lru) as [[b l1]|] eqn:Ea; [|done].
  cbn [mbind option_bind] in E. injection E as _ ->. exists b, lru1.
  apply (recent_get _ _ _ _ _ t) in Hrec; [|done].
  set (c1 := (specCall cap (cAdd k v lt now) c).2) in *.
  assert (specCall cap (cGet k t) c1 = (aValue (Some v), (specGet k t c1).2)) as Eg.
  { cbn [specCall]. destruct (specGet k t c1). cbn [fst] in Hrec. by subst. }
  exists (mkSharded (<[i := s2]> (lrus lru1)) (shardMask lru1)). split; [done|].
  assert (runShardedCall (cGet k t) lru1 = Some (aValue (Some v), mkSharded (<[i := s2]> (lrus lru1)) (shardMask lru1))) as Hrun.
  { rewrite runShardedCall_shard. cbn [keyOf]. change (shardOf lru1 (hash k)) with (shardOf lru (hash k)). fold i.
    assert (idx (lrus lru1) (shardOf lru (hash k)) = Some s') as ->.
    { destruct Hok as [[Hn Hm] _ _ _ _]. pose proof (land_mask_range (Z.shiftr (hash k) 16) n Hn) as Hi.
      rewrite <- Hm in Hi. fold (shardOf lru (hash k)) in Hi. unfold idx. destruct (Z.leb_spec 0 (shardOf lru (hash k))); [|lia].
      fold i. cbn [lrus lru1]. apply list_lookup_insert_eq. by eapply lookup_lt_Some. }
    cbn [mbind option_bind]. rewrite E2, Eg. done. }
  cbn [runShardedCall] in Hrun. destruct (ShardedGet hash emptyKey emptyValue k t lru1) as [[r l2]|]; [|done].
  cbn [mbind option_bind] in Hrun. by injection Hrun as -> ->.
Qed.

Lemma NewShardedWithSize_ok shards capacity size lru :
  0 ≤ shards < 2 ^ 32 → 0 ≤ capacity → 0 ≤ size < 2 ^ 31 →
  NewShardedWithSize emptyKey emptyValue shards capacity size = Ok lru →
  ∃ cap' size' n cs, shardsOK cap' size' n [] lru cs.
Proof.
  intros Hsh Hc Hs Hnew.
  destruct (NewShardedWithSize_shape _ _ _ _ Hsh Hc Hs Hnew) as (n & cap' & size' & Hn & Hm & Hcap & Hsz & Hl & _).
  exists cap', size', n, (replicate (Z.to_nat (2 ^ n)) []). split.
  - split; [lia|done].
  - rewrite length_replicate. lia.
  - rewrite Hl. apply Forall2_replicate. by apply caches_init.
  - intros i c e [-> _]%lookup_replicate He. set_solver.
  - intros c [-> _]%elem_of_replicate. intros e He. set_solver.
Qed.

(** *** What the users of a cache rely on

    [cacheInv P] holds of a cache that never panics and whose every entry
    satisfies [P], when only such entries are added. *)
Definition cacheInv (P : K → V → Prop) (lru : ShardedLRU K V) : Prop :=
  ∃ cap size n xs cs, shardsOK cap size n xs lru cs ∧ ∀ k v x, lastAdd k xs = Some (v, x) → P k v.

Lemma cacheInv_new P gomaxprocs capacity lru :
  0 ≤ capacity < 2 ^ 30 → NewSharded emptyKey emptyValue gomaxprocs capacity = Ok lru → cacheInv P lru.
Proof.
  intros Hc Hnew. unfold NewSharded in Hnew.
  assert (0 ≤ capacity * 5 / 4 < 2 ^ 31) as Hs by (split; [apply Z.div_pos; lia|apply Z.div_lt_upper_bound; lia]).
  rewrite (u32_small (capacity * 5 / 4)) in Hnew by lia.
  apply NewShardedWithSize_ok in Hnew as (c & z & n & cs & Hok); [|apply Z.mod_pos_bound; lia|lia|lia].
  by exists c, z, n, [], cs.
Qed.

Lemma cacheInv_get P lru k now : cacheInv P lru →
  ∃ r lru', ShardedGet hash emptyKey emptyValue k now lru = Some (r, lru') ∧ cacheInv P lru' ∧
    ∀ v, r = Some v → P k v.
Proof.
  intros (cap & size & n & xs & cs & Hok & HP).
  destruct (shardsOK_call _ _ _ _ _ _ (cGet k now) Hok) as (a & lru' & cs' & E & Hok' & Hhit).
  cbn [runShardedCall] in E.
  destruct (ShardedGet hash emptyKey emptyValue k now lru) as [[r l]|]; [|done]. cbn in E. injection E as <- <-.
  exists r, l. split_and!; [done| |].
  - exists cap, size, n, (xs ++ [cGet k now]), cs'. split; [done|]. intros k' v x. rewrite lastAdd_snoc. apply HP.
  - intros v ->. destruct (Hhit k now v eq_refl eq_refl) as (y & Hy & _). by eapply HP.
Qed.

Lemma cacheInv_add (P : K → V → Prop) lru k v lifetime now : cacheInv P lru → P k v →
  ∃ b lru', ShardedAddWithLifetime hash k v lifetime now lru = Some (b, lru') ∧ cacheInv P lru'.
Proof.
  intros (cap & size & n & xs & cs & Hok & HP) Hv.
  destruct (shardsOK_call _ _ _ _ _ _ (cAdd k v lifetime now) Hok) as (a & lru' & cs' & E & Hok' & _).
  cbn [runShardedCall] in E.
  destruct (ShardedAddWithLifetime hash k v lifetime now lru) as [[b l]|]; [|done]. cbn in E. injection E as <- <-.
  exists b, l. split; [done|]. exists cap, size, n, (xs ++ [cAdd k v lifetime now]), cs'. split; [done|].
  intros k' v' x. rewrite lastAdd_snoc. case_bool_decide as Hk; [|apply HP]. by intros [= <- <-]; subst.
Qed.

(** Adding and looking up at once, in one statement with the invariant. *)
Lemma cacheInv_add_get (P : K → V → Prop) lru k v lifetime now t : cacheInv P lru → P k v →
  expire lifetime now = 0 ∨ t < expire lifetime now →
  ∃ b lru1 lru2, ShardedAddWithLifetime hash k v lifetime now lru = Some (b, lru1) ∧
    cacheInv P lru1 ∧ ShardedGet hash emptyKey emptyValue k t lru1 = Some (Some v, lru2).
Proof.
  intros Hinv Hv Hx. destruct (cacheInv_add P lru k v lifetime now Hinv Hv) as (b & lru1 & E1 & Hinv1).
  destruct Hinv as (cap & size & n & xs & cs & Hok & _).
  destruct (sharded_add_get _ _ _ _ _ _ k v lifetime now t Hok Hx) as (b' & lru1' & lru2 & E1' & E2).
  rewrite E1 in E1'. injection E1' as <- <-. by exists b, lru1, lru2.
Qed.
End ShardedSpec.

(** A sharded cache of any size below [2^31] never panics, and a hit is
    always the value added last for that very key, not expired at the time of
    the call. *)
Theorem sharded_hit_is_last_added {K V} `{EqDecision K} (hash : K → Z) (ek : K) (ev : V) shards capacity size lru xs :
  (∀ k, 0 ≤ hash k < 2 ^ 32) → 0 ≤ shards < 2 ^ 32 → 0 ≤ capacity → 0 ≤ size < 2 ^ 31 →
  NewShardedWithSize ek ev shards capacity size = Ok lru →
  ∃ l lru', runShardedCalls hash ek ev xs lru = Some (l, lru') ∧
    ∀ i k now v, xs !! i = Some (cGet k now) → l !! i = Some (aValue (Some v)) →
      ∃ y, lastAdd k (take i xs) = Some (v, y) ∧ (y = 0 ∨ now < y).
Proof.
  intros Hh Hsh Hc Hs Hnew.
  destruct (NewShardedWithSize_ok hash ek ev Hh _ _ _ _ Hsh Hc Hs Hnew) as (cap' & size' & n & cs & Hok).
  exact (shardsOK_calls hash ek ev Hh _ _ _ xs [] _ _ Hok).
Qed.

Lemma sharded_hit_is_last_added_witness :
  ∃ lru, NewShardedWithSize 0 0 4 60 75 = Ok lru ∧ length (lrus lru) = 4%nat ∧
  ∃ l lru', runShardedCalls demoHash 0 0 demoCalls lru = Some (l, lru') ∧
    ∀ i k now v, demoCalls !! i = Some (cGet k now) → l !! i = Some (aValue (Some v)) →
      ∃ y, lastAdd k (take i demoCalls) = Some (v, y) ∧ (y = 0 ∨ now < y).
Proof.
  eexists. split; [vm_compute; reflexivity|]. split; [reflexivity|].
  apply (sharded_hit_is_last_added demoHash 0 0 4 60 75); [|lia|lia|lia|vm_compute; reflexivity].
  intros k. apply Z.mod_pos_bound. lia.
Defined.

(** The shards are sized soundly: their number is a power of two, each can
    hold at least one entry and never more than its arrays have slots, and
    together they hold the requested capacity, rounded up by less than one
    entry per shard. *)
Theorem sharded_capacity {K V} (ek : K) (ev : V) shards capacity size lru :
  0 ≤ shards < 2 ^ 32 → 0 ≤ capacity → 0 ≤ size < 2 ^ 31 →
  NewShardedWithSize ek ev shards capacity size = Ok lru →
  ∃ n cap' size', 0 ≤ n ≤ 31 ∧ shardMask lru = 2 ^ n - 1 ∧ 0 < cap' ≤ size' ∧
    lrus lru = replicate (Z.to_nat (2 ^ n)) (initLRU ek ev cap' size') ∧
    capacity ≤ 2 ^ n * cap' < capacity + 2 ^ n.
Proof.
  intros Hsh Hc Hs Hnew. destruct (NewShardedWithSize_shape _ _ _ _ _ _ Hsh Hc Hs Hnew) as (n & c & z & H).
  exists n, c, z. naive_solver.
Qed.

Lemma sharded_capacity_witness :
  ∃ lru, NewShardedWithSize 0 0 64 1000 1250 = Ok lru ∧
  ∃ n cap' size', 0 ≤ n ≤ 31 ∧ shardMask lru = 2 ^ n - 1 ∧ 0 < cap' ≤ size' ∧
    lrus lru = replicate (Z.to_nat (2 ^ n)) (initLRU 0 0 cap' size') ∧ 1000 ≤ 2 ^ n * cap' < 1000 + 2 ^ n.
Proof.
  eexists. split; [vm_compute; reflexivity|].
  apply (sharded_capacity 0 0 64 1000 1250); [lia|lia|lia|vm_compute; reflexivity].
Defined.
