(* ===== verification/Desync.v ===== *)
(** * Fake packets with a short TTL (core/desync.go, core/desync_linux.go)

    In mode [ttl-d] the first part of the ClientHello is sent twice under one
    sequence number: a forged copy whose TTL expires before the server, then,
    as the system's own retransmission from the same memory page, the real
    bytes.  The TTL is probed by a binary search over connection attempts and
    lowered by configured rules.  The probe's network is a parameter: what each
    attempt to connect answers. *)

From Stdlib Require Import Sorted.
From S2P Require Import Prelude Errors Netip Conn Ring LRU LRUSpec Sharded ClientHello Fragment Policy.
From stdpp Require Import sorting.
Local Open Scope Z_scope.

(** ** The rules for the fake TTL *)

Record ttlRule := mkRule { threshold : Z; typ : Z; rval : Z }.

#[global] Instance ttlRule_eq_dec : EqDecision ttlRule.
Proof. solve_decision. Defined.

(** The number a run of digits stands for, in [int] arithmetic. *)
Definition digitsInt (s : bytes) : Z := foldl (λ a c, i64 (a * 10 + (c - 48))) 0 s.

Fixpoint digitRun (b : bytes) : bytes * bytes :=
  match b with
  | [] => ([], [])
  | c :: b' => if is_digit c then let '(d, r) := digitRun b' in (c :: d, r) else ([], b)
  end.

(** One rule and the text after it. *)
Definition parseOneRule (b : bytes) : res (ttlRule * bytes) :=
  let '(num, rest) := digitRun b in
  if bool_decide (num = []) then fail "invalid rule: missing left number"
  else
    match rest with
    | [] => fail "invalid rule: missing operator"
    | op :: rest =>
        if negb (op =? 45) && negb (op =? 61) then fail "invalid operator"
        else
          let '(val, rest) := digitRun rest in
          if bool_decide (val = []) then fail "invalid rule: missing right number"
          else
            Ok (mkRule (digitsInt num) op (digitsInt val),
                match rest with 59 :: rest' => rest' | _ => rest end)
    end.

(** Every rule takes at least three bytes, so the length is fuel enough. *)
Fixpoint parseRulesLoop (fuel : nat) (b : bytes) : res (list ttlRule) :=
  match b, fuel with
  | [], _ => Ok []
  | _, O => Panic
  | _, S f => '(r, rest) ← parseOneRule b; rs ← parseRulesLoop f rest; Ok (r :: rs)
  end.

Definition above (x y : ttlRule) : Prop := threshold y ≤ threshold x.

#[global] Instance above_dec x y : Decision (above x y).
Proof. unfold above. apply _. Defined.

(** [sort.Slice] by descending threshold; the order of equal thresholds is not
    specified (see [calcRules_any_order]). *)
Definition sortRules (rules : list ttlRule) : list ttlRule := merge_sort above rules.

Definition parseTTLRules (conf : gostring) : res (list ttlRule) :=
  rules ← parseRulesLoop (length conf) conf;
  Ok (sortRules rules).

Fixpoint calcRules (rules : list ttlRule) (ttl : Z) : res Z :=
  match rules with
  | [] => fail "no matching ttl rule"
  | r :: rules' =>
      if threshold r <=? ttl then
        if typ r =? 45 then Ok (i64 (ttl - rval r)) else Ok (rval r)
      else calcRules rules' ttl
  end.

Definition buildCalcTTL (conf : gostring) : res (Z → res Z) :=
  if bool_decide (conf = []) then Ok (λ ttl, Ok (ttl - 1))
  else
    rules ← with_str "parse ttl rules" (parseTTLRules conf);
    Ok (calcRules rules).

(** ** Probing *)

Inductive outcome := DialOk | DialTimeout | DialError (e : error).

(** What [dialer.Dial] answers, given the TTL and how many attempts were made
    before. *)
Definition network := Z → nat → outcome.

(** Up to [k] attempts at one TTL: whether one connected, and the counter. *)
Fixpoint tryDial (k : nat) (net : network) (ttl : Z) (n : nat) : res bool * nat :=
  match k with
  | O => (Ok false, n)
  | S k' =>
      match net ttl n with
      | DialOk => (Ok true, S n)
      | DialTimeout => tryDial k' net ttl (S n)
      | DialError e => (Err (opError ("dial with ttl " ++ itoa ttl) e), S n)
      end
  end.

Fixpoint probeLoop (fuel : nat) (net : network) (attempts low high found : Z) (n : nat) : option (res Z * nat) :=
  match fuel with
  | O => None
  | S f =>
      if low <=? high then
        let mid := (low + high) / 2 in
        match tryDial (Z.to_nat attempts) net mid n with
        | (Ok true, n') => probeLoop f net attempts low (mid - 1) mid n'
        | (Ok false, n') => probeLoop f net attempts (mid + 1) high found n'
        | (Err e, n') => Some (Err e, n')
        | (Panic, n') => Some (Panic, n')
        end
      else Some (Ok found, n)
  end.

(** Every round shortens the interval. *)
Definition probeFuel (maxTTL : Z) : nat := S (Z.to_nat maxTTL).

Record TTLProbingConfig := mkProbing {
  FakeTTLRules : gostring;
  SingleFlight : bool;
  DisableCache : bool;
  CacheCapacity : Z;
}.

Definition ttlCacheT := option (ShardedLRU gostring Z).

(** The package's probing state; [calcTTL] is nil before it is configured. *)
Record probing := mkProbingState {
  calcTTL : option (Z → res Z);
  ttlCache : ttlCacheT;
  ttlGroup : bool;
}.

Section Probing.
(** xxhash, and the number of processors. *)
Variable hash : gostring → Z.
Variable gomaxprocs : Z.

Definition setTTLProbing (c : TTLProbingConfig) (st : probing) : res probing :=
  calc ← buildCalcTTL (FakeTTLRules c);
  cache ← (if negb (DisableCache c) then
             let capacity := if CacheCapacity c =? 0 then 1024 else CacheCapacity c in
             lru ← with_str "init TTL cache" (NewSharded [] 0 gomaxprocs capacity);
             Ok (Some lru)
           else Ok None);
  Ok (mkProbingState (Some calc) cache (SingleFlight c)).

(** The cache after a successful probe. *)
Definition storeTTL (cache : ttlCacheT) (ip : gostring) (found cacheTTL now : Z) : res ttlCacheT :=
  match cache with
  | Some lru =>
      if negb (found =? -1) && negb (cacheTTL =? 0) && negb (cacheTTL =? unsetInt) then
        '(_, lru') ← checked (ShardedAddWithLifetime hash ip found cacheTTL now lru);
        Ok (Some lru')
      else Ok cache
  | None => Ok cache
  end.

Definition probeMinimumReachableTTL (net : network) (ip : gostring) (maxTTL attempts cacheTTL now : Z)
    (n : nat) (cache : ttlCacheT) : res Z * nat * ttlCacheT :=
  match probeLoop (probeFuel maxTTL) net attempts 1 maxTTL (-1) n with
  | None => (Panic, n, cache)
  | Some (Ok found, n') =>
      match storeTTL cache ip found cacheTTL now with
      | Ok cache' => (Ok found, n', cache')
      | Err e => (Err e, n', cache)
      | Panic => (Panic, n', cache)
      end
  | Some (r, n') => (r, n', cache)
  end.

(** [group.Do] runs the probe, or waits for another caller's probe of the same
    address; either way the result is a probe's. *)
Definition getMinimumReachableTTL (net : network) (addr : gostring) (maxTTL attempts cacheTTL now : Z)
    (n : nat) (cache : ttlCacheT) : res (Z * bool) * nat * ttlCacheT :=
  match SplitHostPort addr with
  | Err e => (Err e, n, cache)
  | Panic => (Panic, n, cache)
  | Ok (ip, _) =>
      let probe cache :=
        let '(r, n', cache') := probeMinimumReachableTTL net ip maxTTL attempts cacheTTL now n cache in
        (match r with Ok ttl => Ok (ttl, false) | Err e => Err e | Panic => Panic end, n', cache') in
      match cache with
      | None => probe cache
      | Some lru =>
          match ShardedGet hash [] 0 ip now lru with
          | None => (Panic, n, cache)
          | Some (Some ttl, lru') => (Ok (ttl, true), n, Some lru')
          | Some (None, lru') => probe (Some lru')
          end
      end
  end.

Definition getFakeTTL (net : network) (p : Policy) (addr : gostring) (now : Z) (n : nat) (st : probing)
  : res Z * nat * probing :=
  if negb (pFakeTTL p =? 0) && negb (pFakeTTL p =? unsetInt) then (Ok (pFakeTTL p), n, st)
  else
    let '(r, n', cache') :=
      getMinimumReachableTTL net addr (pMaxTTL p) (pAttempts p) (pTTLCacheTTL p) now n (ttlCache st) in
    let st' := mkProbingState (calcTTL st) cache' (ttlGroup st) in
    (match r with
     | Err e => Err (opError "get minimum reachable ttl" e)
     | Panic => Panic
     | Ok (ttl, _) =>
         if ttl =? unsetInt then fail "reachable ttl not found"
         else
           match calcTTL st with
           | None => fail "ttl probing not configured"
           | Some calc => with_str "calculate fake ttl" (calc ttl)
           end
     end, n', st').

End Probing.

(** ** Sending *)

(** Keep the result of a step for later. *)
Definition attemptM {A} (m : netM A) : netM (res A) := λ c, let '(r, c') := m c in (Ok r, c').

(** [copy] into the mapped page: the pipe holds the page, not a copy of it. *)
Definition overwritePage (b : bytes) : netM unit := λ c, (Ok tt, append_log c (EvPage b, None)).

(** The splice runs in a goroutine of its own, a loop of calls that the system
    answers: some bytes were moved, the call was interrupted, the socket is full
    (the goroutine waits until it can be written and calls again), the call
    failed, or the wait failed (the connection is closed or past its deadline). *)
Inductive spliceCall :=
| Moved (n : Z)
| Interrupted
| WouldBlock
| SpliceFailed (e : error)
| WaitFailed (e : error).

(** When its calls happen, with their answers: before the page is overwritten,
    before the TTL is reset, and after.  A loop that has not ended by then moves
    the rest. *)
Record splicing := mkSplicing {
  beforePage : list spliceCall;
  beforeTTL : list spliceCall;
  afterTTL : list spliceCall;
}.

Definition EINTR : error := sysError 4.
Definition EAGAIN : error := sysError 11.

(** The variables of the goroutine: [remaining], [spliceErr], [rawWriteErr], and
    whether it has ended. *)
Record spliceState := mkSplice {
  remaining : Z;
  spliceErr : option error;
  rawWriteErr : option error;
  spliceOver : bool;
}.

Definition spliceStart (n : Z) : spliceState := mkSplice n None None (n <=? 0).

Definition logCall (n : Z) (e : option error) : netM unit := λ c, (Ok tt, append_log c (EvSplice n, e)).

(** One round of the loop. *)
Definition spliceRound (call : spliceCall) (g : spliceState) : netM spliceState :=
  if spliceOver g then mret g else
  match call with
  | Moved n =>
      let k := Z.min (remaining g) (Z.max 0 n) in
      logCall k None;; mret (mkSplice (remaining g - k) None None (remaining g - k <=? 0))
  | Interrupted => logCall 0 (Some EINTR);; mret (mkSplice (remaining g) (Some EINTR) None false)
  | WouldBlock => logCall 0 (Some EAGAIN);; mret (mkSplice (remaining g) (Some EAGAIN) None false)
  | SpliceFailed e => logCall 0 (Some e);; mret (mkSplice (remaining g) (Some e) None true)
  | WaitFailed e => mret (mkSplice (remaining g) (spliceErr g) (Some e) true)
  end.

Fixpoint spliceLoop (calls : list spliceCall) (g : spliceState) : netM spliceState :=
  match calls with
  | [] => mret g
  | call :: calls' => g' ← spliceRound call g; spliceLoop calls' g'
  end.

(** [sendWithNoise] on Linux.  [sch] is the interleaving of the goroutine with
    the sleep, the overwriting of the page and the reset of the TTL; its errors
    are looked at in the end.  (When the reset fails the function returns at once
    and what the goroutine does afterwards is left out.) *)
Definition sendWithNoise (sch : splicing) (fakeData realData : bytes) (fakeTTL defaultTTL fakeSleep : Z) : netM unit :=
  with_strM "raw control" (perform EvControl);;
  with_strM "create pipe" (perform EvPipe);;
  with_strM "mmap" (perform (EvMmap (zlen fakeData)));;
  with_strM "set fake ttl" (perform (EvSetTTL fakeTTL));;
  with_strM "vmsplice" (perform (EvVmsplice fakeData));;
  g ← spliceLoop (beforePage sch) (spliceStart (zlen fakeData));
  sleep fakeSleep;;
  overwritePage realData;;
  g ← spliceLoop (beforeTTL sch) g;
  with_strM "set default ttl" (perform (EvSetTTL defaultTTL));;
  g ← spliceLoop (afterTTL sch ++ [Moved (zlen fakeData)]) g;
  match rawWriteErr g with
  | Some e => lift (Err (opError "raw write" e))
  | None => match spliceErr g with Some e => lift (Err (opError "splice" e)) | None => mret tt end
  end.

Definition minInterval : Z := 100 * millisecond.

(** [copy(dst, src)] into a zeroed buffer of [n] bytes. *)
Definition zeroPadded (n : Z) (src : bytes) : bytes :=
  take (Z.to_nat n) src ++ replicate (Z.to_nat n - length src) 0.

(** [defaultTTL] is what the socket option reads; a failed read returns the nil
    error of the control call, so the caller sees success. *)
Definition desyncSend (sch : splicing) (defaultTTL : Z) (record : bytes) (sniStart sniLen fakeTTL fakeSleep : Z)
  : netM unit :=
  getRawConn;;
  with_strM "raw control" (perform EvControl);;
  r ← attemptM (perform EvGetTTL);
  match r with
  | Err _ => mret tt
  | _ =>
      cut ← checkedM (findLastDotOrMidPos record sniStart sniLen);
      head ← checkedM (slice record 0 sniStart);
      real ← checkedM (slice record 0 cut);
      with_strM "send data with noise"
        (sendWithNoise sch (zeroPadded cut head) real fakeTTL defaultTTL (Z.max minInterval fakeSleep));;
      rest ← checkedM (slice record cut (zlen record));
      with_strM "send remaining data" (write rest)
  end.

(** ** The rules pick the greatest threshold not above the TTL *)

Definition applyRule (r : ttlRule) (ttl : Z) : Z := if typ r =? 45 then i64 (ttl - rval r) else rval r.

(** The rule the documentation promises: the best of those that apply. *)
Definition bestRule (rules : list ttlRule) (ttl : Z) (r : ttlRule) : Prop :=
  r ∈ rules ∧ threshold r ≤ ttl ∧ ∀ r', r' ∈ rules → threshold r' ≤ ttl → threshold r' ≤ threshold r.

Lemma calcRules_best rules ttl : StronglySorted above rules →
  match calcRules rules ttl with
  | Ok t => ∃ r, bestRule rules ttl r ∧ t = applyRule r ttl
  | Err _ => ∀ r, r ∈ rules → ttl < threshold r
  | Panic => False
  end.
Proof.
  induction 1 as [|r rules Hs IH Hall]; simpl; [set_solver|].
  destruct (Z.leb_spec (threshold r) ttl) as [Hle|Hlt].
  - assert (bestRule (r :: rules) ttl r) as Hb.
    { split_and!; [set_solver|done|]. intros r' [->|Hr']%elem_of_cons Ht; [done|].
      rewrite Forall_forall in Hall. exact (Hall r' Hr'). }
    destruct (typ r =? 45) eqn:Et; exists r; (split; [done|]); unfold applyRule; by rewrite Et.
  - destruct (calcRules rules ttl) as [t|e|].
    + destruct IH as (r' & (Hin & Ht & Hb) & ->). exists r'. split; [|done]. split_and!; [set_solver|done|].
      intros r'' [->|Hr'']%elem_of_cons Ht'; [lia|auto].
    + intros r' [->|Hr']%elem_of_cons; [done|auto].
    + done.
Qed.

#[global] Instance above_total : Total above.
Proof. intros x y. unfold above. lia. Qed.

#[global] Instance above_trans : Transitive above.
Proof. intros x y z. unfold above. lia. Qed.

Lemma sortRules_sorted rules : StronglySorted above (sortRules rules).
Proof. apply Sorted_StronglySorted; [apply _|]. apply Sorted_merge_sort, _. Qed.

Lemma sortRules_elem rules r : r ∈ sortRules rules ↔ r ∈ rules.
Proof. unfold sortRules. by rewrite merge_sort_Permutation. Qed.

(** However the sort orders equal thresholds, the function is the same when the
    thresholds differ. *)
Lemma calcRules_any_order rules rules' ttl :
  rules' ≡ₚ rules → StronglySorted above rules' → NoDup (threshold <$> rules) →
  match calcRules rules' ttl, calcRules (sortRules rules) ttl with
  | Ok t, Ok t' => t = t'
  | Err _, Err _ => True
  | _, _ => False
  end.
Proof.
  intros HP Hs Hnd. pose proof (calcRules_best rules' ttl Hs) as H1.
  pose proof (calcRules_best _ ttl (sortRules_sorted rules)) as H2.
  assert (∀ r, r ∈ rules' ↔ r ∈ rules) as E by (intros r; by rewrite HP).
  destruct (calcRules rules' ttl) as [t|e|], (calcRules (sortRules rules) ttl) as [t'|e'|]; try done.
  - destruct H1 as (r & (I1 & T1 & B1) & ->), H2 as (r' & (I2 & T2 & B2) & ->). rewrite sortRules_elem in I2.
    assert (r = r') as <-; [|done]. apply E in I1.
    assert (threshold r = threshold r') as Ht.
    { apply Z.le_antisymm; [apply B2; [by apply sortRules_elem|done]|apply B1; [by rewrite E|done]]. }
    apply list_elem_of_lookup in I1 as [i Hi], I2 as [j Hj].
    assert (i = j) as ->; [|congruence].
    eapply (NoDup_lookup (threshold <$> rules) i j (threshold r)); [done|..]; rewrite list_lookup_fmap.
    + by rewrite Hi.
    + by rewrite Hj, Ht.
  - destruct H1 as (r & (I1 & T1 & _) & _). specialize (H2 r). rewrite sortRules_elem, <- E in H2. specialize (H2 I1). lia.
  - destruct H2 as (r & (I1 & T1 & _) & _). rewrite sortRules_elem, <- E in I1. specialize (H1 r I1). lia.
Qed.

(** The documented syntax: [threshold op value], separated by semicolons. *)
Definition printRule (r : ttlRule) : gostring := itoa (threshold r) ++ [typ r] ++ itoa (rval r).
Definition printRules (rules : list ttlRule) : gostring := join_with ";" (printRule <$> rules).

Definition ruleOK (r : ttlRule) : Prop :=
  0 ≤ threshold r < 2 ^ 63 ∧ 0 ≤ rval r < 2 ^ 63 ∧ (typ r = 45 ∨ typ r = 61).

Lemma digitsInt_value ds : forallb is_digit ds = true → digits_value ds < 2 ^ 63 → digitsInt ds = digits_value ds.
Proof.
  induction ds as [|c ds IH] using rev_ind; [done|]. rewrite forallb_app, digits_value_snoc. intros [Hd Hc]%andb_prop Hv.
  simpl in Hc. unfold is_digit in Hc. bool_to_prop. pose proof (digits_value_nonneg ds Hd).
  unfold digitsInt in *. rewrite foldl_app. simpl. rewrite IH by (done || lia). unfold i64.
  rewrite Z.mod_small; lia.
Qed.

Lemma digitRun_app ds rest : forallb is_digit ds = true →
  match rest with [] => True | c :: _ => is_digit c = false end → digitRun (ds ++ rest) = (ds, rest).
Proof.
  induction ds as [|c ds IH]; simpl.
  - intros _. destruct rest as [|c rest]; [done|]. simpl. by intros ->.
  - intros [-> Hd]%andb_prop Hr. by rewrite IH.
Qed.

Lemma digitsInt_itoa n : 0 ≤ n < 2 ^ 63 → digitsInt (itoa n) = n.
Proof. intros Hn. destruct (itoa_digits n) as (Hd & Hv & _); [lia|]. rewrite digitsInt_value; lia || done. Qed.

Lemma parseOneRule_print r rest : ruleOK r →
  match rest with [] => True | c :: _ => is_digit c = false end →
  parseOneRule (printRule r ++ rest) = Ok (r, match rest with 59 :: rest' => rest' | _ => rest end).
Proof.
  intros (Ht & Hv & Hty) Hrest. unfold parseOneRule, printRule.
  destruct (itoa_digits (threshold r)) as (D1 & _ & N1); [lia|]. destruct (itoa_digits (rval r)) as (D2 & _ & N2); [lia|].
  rewrite <- !app_assoc. rewrite digitRun_app; [|done|by destruct Hty as [->| ->]].
  rewrite bool_decide_eq_false_2 by done. cbn [app]. cbv iota.
  assert (negb (typ r =? 45) && negb (typ r =? 61) = false) as -> by (by destruct Hty as [->| ->]).
  rewrite digitRun_app by done. rewrite bool_decide_eq_false_2 by done.
  rewrite !digitsInt_itoa by done. by destruct r.
Qed.

Lemma printRule_ne r : ruleOK r → (0 < length (printRule r))%nat.
Proof. intros _. unfold printRule. rewrite !length_app. simpl. lia. Qed.

Lemma parseRules_print rules fuel : Forall ruleOK rules → (length (printRules rules) ≤ fuel)%nat →
  parseRulesLoop fuel (printRules rules) = Ok rules.
Proof.
  revert fuel. induction rules as [|r rules IH]; intros fuel Hok Hf; [by destruct fuel|].
  apply Forall_cons in Hok as [Hr Hok]. pose proof (printRule_ne r Hr) as Hne.
  assert (printRules (r :: rules) = printRule r ++ match rules with [] => [] | _ => 59 :: printRules rules end) as E.
  { unfold printRules. simpl. destruct rules; simpl; [by rewrite app_nil_r|done]. }
  rewrite E in *. rewrite length_app in Hf.
  destruct fuel as [|fuel]; [lia|]. cbn [parseRulesLoop].
  destruct (printRule r ++ _) as [|c l] eqn:Ec; [apply (f_equal length) in Ec; rewrite length_app in Ec; simpl in Ec; lia|].
  rewrite <- Ec, parseOneRule_print; [|done|by destruct rules]. cbn [mbind res_bind].
  destruct rules as [|r' rules']; [by destruct fuel|]. rewrite IH; [done|done|]. simpl in Hf. lia.
Qed.

(** A configured list of rules lowers the TTL by the rule with the greatest
    threshold that the TTL reaches (subtracting its value, or replacing the TTL
    by it), and fails exactly when the TTL is below every threshold. *)
Theorem fake_ttl_rules_best rules :
  rules ≠ [] → Forall ruleOK rules →
  ∃ calc, buildCalcTTL (printRules rules) = Ok calc ∧
    ∀ ttl, match calc ttl with
           | Ok t => ∃ r, bestRule rules ttl r ∧ t = applyRule r ttl
           | Err _ => ∀ r, r ∈ rules → ttl < threshold r
           | Panic => False
           end.
Proof.
  intros Hne Hok. unfold buildCalcTTL, parseTTLRules. rewrite bool_decide_eq_false_2.
  - rewrite parseRules_print by done. simpl. eexists. split; [done|]. intros ttl.
    pose proof (calcRules_best _ ttl (sortRules_sorted rules)) as Hb. unfold bestRule in *.
    destruct (calcRules (sortRules rules) ttl) as [t|e|]; [|intros r Hr; apply Hb; by apply sortRules_elem|done].
    destruct Hb as (r & (H1 & H2 & H3) & ->). exists r. split; [|done]. rewrite sortRules_elem in H1. split_and!; [done..|].
    intros r' Hr'. apply H3. by apply sortRules_elem.
  - destruct rules as [|r rules]; [done|]. apply Forall_cons in Hok as [Hr _]. intros E.
    apply (f_equal length) in E. unfold printRules in E. pose proof (printRule_ne r Hr).
    destruct rules; simpl in E; rewrite ?length_app in E; lia.
Qed.

Definition demoRules : list ttlRule := [mkRule 3 45 1; mkRule 13 61 8; mkRule 8 45 2].

Lemma fake_ttl_rules_best_witness :
  printRules demoRules = lit "3-1;13=8;8-2" ∧
  ∃ calc, buildCalcTTL (printRules demoRules) = Ok calc ∧
    ∀ ttl, match calc ttl with
           | Ok t => ∃ r, bestRule demoRules ttl r ∧ t = applyRule r ttl
           | Err _ => ∀ r, r ∈ demoRules → ttl < threshold r
           | Panic => False
           end.
Proof.
  split; [vm_compute; reflexivity|]. apply fake_ttl_rules_best; [done|].
  repeat constructor; unfold ruleOK; simpl; lia.
Defined.

(** ** The probe finds the distance *)

(** The server is [m] hops away: a packet with a smaller TTL never arrives, and
    of any [attempts] attempts in a row with a sufficient one, one connects
    while the others at most time out. *)
Definition distance (m attempts : Z) (net : network) : Prop :=
  (∀ ttl n, ttl < m → net ttl n = DialTimeout) ∧
  (∀ ttl n, m ≤ ttl → net ttl n = DialOk ∨ net ttl n = DialTimeout) ∧
  (∀ ttl n, m ≤ ttl → ∃ j, (n ≤ j)%nat ∧ Z.of_nat j < Z.of_nat n + attempts ∧ net ttl j = DialOk).

Lemma tryDial_far net ttl k n : (∀ n, net ttl n = DialTimeout) → tryDial k net ttl n = (Ok false, (n + k)%nat).
Proof.
  intros Ht. revert n. induction k as [|k IH]; intros n; simpl; [by rewrite Nat.add_0_r|].
  rewrite Ht, IH. f_equal. lia.
Qed.

Lemma tryDial_near net ttl k n : (∀ n, net ttl n = DialOk ∨ net ttl n = DialTimeout) →
  (∃ j, (n ≤ j < n + k)%nat ∧ net ttl j = DialOk) → ∃ n', tryDial k net ttl n = (Ok true, n') ∧ (n' ≤ n + k)%nat.
Proof.
  intros Ht. revert n. induction k as [|k IH]; intros n (j & Hj & Hok); simpl; [lia|].
  destruct (Ht n) as [E|E]; rewrite E; [exists (S n); split; [done|lia]|].
  destruct (IH (S n)) as (n' & -> & Hn').
  - exists j. split; [|done]. assert (j ≠ n) by (intros ->; congruence). lia.
  - exists n'. split; [done|lia].
Qed.

(** How many rounds an interval of [len] values takes. *)
Definition rounds (len : Z) : Z := if len <=? 0 then 0 else Z.log2 len + 1.

Lemma rounds_half len len' : 0 < len → len' ≤ len / 2 → rounds len' + 1 ≤ rounds len.
Proof.
  intros H0 H1. unfold rounds. destruct (Z.leb_spec len 0); [lia|].
  pose proof (Z.log2_nonneg len). destruct (Z.leb_spec len' 0); [lia|].
  pose proof (Z.log2_le_mono _ _ H1) as Hm. pose proof (Z.div_mod len 2 ltac:(lia)).
  pose proof (Z.mod_pos_bound len 2 ltac:(lia)).
  assert (1 ≤ Z.log2 len) by (apply Z.log2_le_pow2; lia).
  rewrite <- Z.div2_div, Z.div2_spec, Z.log2_shiftr in Hm by lia. lia.
Qed.

Lemma probeLoop_spec m attempts net maxTTL fuel low high found n :
  distance m attempts net → 1 ≤ low → low ≤ m → high ≤ maxTTL → (high - low + 1 < Z.of_nat fuel) →
  0 < Z.of_nat fuel → 0 ≤ attempts →
  (found = -1 ∧ high = maxTTL ∨ found = high + 1 ∧ m ≤ found ≤ maxTTL) →
  ∃ n', probeLoop fuel net attempts low high found n = Some (Ok (if m <=? maxTTL then m else -1), n') ∧
    Z.of_nat n' ≤ Z.of_nat n + attempts * rounds (high - low + 1).
Proof.
  intros (Hfar & Hnear & Hcon). revert low high found n.
  induction fuel as [|fuel IH]; intros low high found n Hlow Hlm Hmax Hf Hf0 Ha Hfound; [lia|]. cbn [probeLoop].
  destruct (Z.leb_spec low high) as [Hle|Hgt].
  - set (mid := (low + high) / 2). assert (low ≤ mid ≤ high) as Hmid by (unfold mid; Z.div_mod_to_equations; lia).
    destruct (decide (m ≤ mid)) as [Hm|Hm].
    + destruct (tryDial_near net mid (Z.to_nat attempts) n) as (n1 & -> & Hn1).
      { intros j. by apply Hnear. }
      { destruct (Hcon mid n Hm) as (j & ? & ? & ?). exists j. split; [lia|done]. }
      destruct (IH low (mid - 1) mid n1) as (n' & -> & Hn'); [lia..|right; lia|].
      exists n'. split; [done|].
      assert (rounds (mid - 1 - low + 1) + 1 ≤ rounds (high - low + 1)) as Hr
        by (apply rounds_half; [lia|unfold mid; Z.div_mod_to_equations; lia]). nia.
    + rewrite tryDial_far by (intros; apply Hfar; lia).
      destruct (IH (mid + 1) high found (n + Z.to_nat attempts)%nat) as (n' & -> & Hn'); [lia..|done|].
      exists n'. split; [done|].
      assert (rounds (high - (mid + 1) + 1) + 1 ≤ rounds (high - low + 1)) as Hr
        by (apply rounds_half; [lia|unfold mid; Z.div_mod_to_equations; lia]). nia.
  - exists n. split.
    + do 3 f_equal. destruct (Z.leb_spec m maxTTL); lia.
    + unfold rounds. destruct (Z.leb_spec (high - low + 1) 0); lia.
Qed.

(** The probe finds the server's distance, or reports none within the limit,
    and needs no more rounds than a binary search over the allowed TTLs. *)
Theorem probe_finds_distance m attempts net maxTTL n :
  distance m attempts net → 1 ≤ m → 1 ≤ maxTTL → 0 ≤ attempts →
  ∃ n', probeLoop (probeFuel maxTTL) net attempts 1 maxTTL (-1) n =
          Some (Ok (if m <=? maxTTL then m else -1), n') ∧
    Z.of_nat n' ≤ Z.of_nat n + attempts * (Z.log2 maxTTL + 1).
Proof.
  intros Hd Hm Hmax Ha.
  destruct (probeLoop_spec m attempts net maxTTL (probeFuel maxTTL) 1 maxTTL (-1) n) as (n' & E & Hn');
    [done|lia|lia|lia|unfold probeFuel; lia|unfold probeFuel; lia|done|by left|].
  exists n'. split; [done|]. unfold rounds in Hn'. destruct (Z.leb_spec (maxTTL - 1 + 1) 0); [lia|].
  replace (maxTTL - 1 + 1) with maxTTL in Hn' by lia. done.
Qed.

(** Seven hops, and every second attempt is lost. *)
Definition demoNet : network := λ ttl n, if (ttl <? 7) || Nat.odd n then DialTimeout else DialOk.

Lemma demoNet_distance : distance 7 2 demoNet.
Proof.
  unfold distance, demoNet. split_and!; intros ttl n Ht.
  - destruct (Z.ltb_spec ttl 7); [done|lia].
  - destruct (Z.ltb_spec ttl 7); [lia|]. simpl. destruct (Nat.odd n); auto.
  - destruct (Z.ltb_spec ttl 7); [lia|]. simpl. destruct (Nat.odd n) eqn:E.
    + exists (S n). split_and!; [lia|lia|]. rewrite Nat.odd_succ, <- Nat.negb_odd, E. done.
    + exists n. rewrite E. split_and!; [lia|lia|done].
Qed.

Lemma probe_finds_distance_witness :
  probeLoop (probeFuel 30) demoNet 2 1 30 (-1) 0 = Some (Ok 7, 9%nat) ∧
  ∃ n', probeLoop (probeFuel 30) demoNet 2 1 30 (-1) 0 = Some (Ok (if 7 <=? 30 then 7 else -1), n') ∧
    Z.of_nat n' ≤ Z.of_nat 0 + 2 * (Z.log2 30 + 1).
Proof.
  split; [vm_compute; reflexivity|]. apply probe_finds_distance; [apply demoNet_distance|lia|lia|lia].
Defined.

Section FakeTTL.
Variable hash : gostring → Z.
Hypothesis hash_u32 : ∀ k, 0 ≤ hash k < 2 ^ 32.
Variable gomaxprocs : Z.

Lemma setTTLProbing_cache conf st0 st : setTTLProbing gomaxprocs conf st0 = Ok st →
  DisableCache conf = false → 0 ≤ CacheCapacity conf < 2 ^ 30 →
  ∃ calc lru cap size n cs, calcTTL st = Some calc ∧ buildCalcTTL (FakeTTLRules conf) = Ok calc ∧
    ttlCache st = Some lru ∧ shardsOK hash cap size n [] lru cs.
Proof.
  unfold setTTLProbing. destruct (buildCalcTTL _) as [calc|e|]; [|done..]. cbn [mbind res_bind]. intros Hst Hd Hc.
  rewrite Hd in Hst. cbn [negb] in Hst. set (capacity := if CacheCapacity conf =? 0 then 1024 else CacheCapacity conf) in *.
  assert (0 ≤ capacity < 2 ^ 30) as Hcap by (unfold capacity; case_bool; lia).
  destruct (NewSharded [] 0 gomaxprocs capacity) as [lru|e|] eqn:El; [|done..]. cbn in Hst. injection Hst as <-.
  destruct (NewShardedWithSize_ok hash [] 0 hash_u32 (u32 (gomaxprocs * 16)) capacity (u32 (capacity * 5 / 4)) lru)
    as (cap & size & n & cs & Hok).
  - apply Z.mod_pos_bound. lia.
  - lia.
  - rewrite u32_small by (Z.div_mod_to_equations; lia). Z.div_mod_to_equations; lia.
  - exact El.
  - by exists calc, lru, cap, size, n, cs.
Qed.

(** A lookup in a cache with no history misses. *)
Lemma fresh_miss cap size n lru cs k t : shardsOK hash cap size n [] lru cs →
  ∃ lru' cs' xs, ShardedGet hash [] 0 k t lru = Some (None, lru') ∧ shardsOK hash cap size n xs lru' cs'.
Proof.
  intros Hok. destruct (shardsOK_call hash [] 0 hash_u32 _ _ _ _ _ _ (cGet k t) Hok) as (a & lru' & cs' & E & Hok' & Hhit).
  cbn [runShardedCall] in E. destruct (ShardedGet hash [] 0 k t lru) as [[[v|] l]|]; [|..|done]; cbn in E; injection E as <- <-.
  - destruct (Hhit k t v eq_refl eq_refl) as (y & Hy & _). done.
  - by eexists _, _, _.
Qed.

(** The fake TTL of a server is the configured rules' value for its distance;
    it takes one probe, and while the cache entry lives a further call returns
    the same value without connecting anywhere. *)
Theorem fake_ttl_probed_once conf st0 st p addr ip port net m now t n :
  setTTLProbing gomaxprocs conf st0 = Ok st → DisableCache conf = false → 0 ≤ CacheCapacity conf < 2 ^ 30 →
  (pFakeTTL p = 0 ∨ pFakeTTL p = unsetInt) → 0 ≤ pAttempts p → 0 < pTTLCacheTTL p →
  SplitHostPort addr = Ok (ip, port) → distance m (pAttempts p) net → 1 ≤ m ≤ pMaxTTL p →
  t < expire (pTTLCacheTTL p) now →
  ∃ calc n1 st1 st2, buildCalcTTL (FakeTTLRules conf) = Ok calc ∧
    getFakeTTL hash net p addr now n st = (with_str "calculate fake ttl" (calc m), n1, st1) ∧
    Z.of_nat n1 ≤ Z.of_nat n + pAttempts p * (Z.log2 (pMaxTTL p) + 1) ∧
    getFakeTTL hash net p addr t n1 st1 = (with_str "calculate fake ttl" (calc m), n1, st2).
Proof.
  intros Hst Hd Hc Hp Ha Httl Haddr Hdist Hm Ht.
  destruct (setTTLProbing_cache _ _ _ Hst Hd Hc) as (calc & lru & cap & size & k & cs & Ecalc & Eb & Ecache & Hok).
  destruct (fresh_miss _ _ _ _ _ ip now Hok) as (lru1 & cs1 & xs1 & E1 & Hok1).
  destruct (sharded_add_get hash [] 0 hash_u32 _ _ _ _ _ _ ip m (pTTLCacheTTL p) now t Hok1 (or_intror Ht))
    as (b & lru2 & lru3 & E2 & E3).
  destruct (probeLoop_spec m (pAttempts p) net (pMaxTTL p) (probeFuel (pMaxTTL p)) 1 (pMaxTTL p) (-1) n) as (n1 & Ep & Hn1);
    [done|lia|lia|lia|unfold probeFuel; lia|unfold probeFuel; lia|done|by left|].
  destruct (Z.leb_spec m (pMaxTTL p)); [|lia].
  assert (negb (pFakeTTL p =? 0) && negb (pFakeTTL p =? unsetInt) = false) as Epol by (by destruct Hp as [->| ->]).
  exists calc, n1, (mkProbingState (calcTTL st) (Some lru2) (ttlGroup st)), (mkProbingState (calcTTL st) (Some lru3) (ttlGroup st)).
  split; [done|]. split; [|split].
  - unfold getFakeTTL, getMinimumReachableTTL, probeMinimumReachableTTL, storeTTL. rewrite Epol, Haddr, Ecache, E1, Ep.
    destruct (Z.eqb_spec m (-1)); [lia|]. destruct (Z.eqb_spec (pTTLCacheTTL p) 0); [lia|].
    destruct (Z.eqb_spec (pTTLCacheTTL p) unsetInt) as [E|]; [unfold unsetInt in E; lia|]. cbn [negb andb].
    rewrite E2. cbn. destruct (Z.eqb_spec m unsetInt) as [E|]; [unfold unsetInt in E; lia|]. by rewrite Ecalc.
  - unfold rounds in Hn1. destruct (Z.leb_spec (pMaxTTL p - 1 + 1) 0); [lia|].
    replace (pMaxTTL p - 1 + 1) with (pMaxTTL p) in Hn1 by lia. done.
  - unfold getFakeTTL, getMinimumReachableTTL. rewrite Epol, Haddr. cbn [ttlCache calcTTL ttlGroup]. rewrite E3.
    destruct (Z.eqb_spec m unsetInt) as [E|]; [unfold unsetInt in E; lia|]. by rewrite Ecalc.
Qed.
End FakeTTL.

Definition demoKeyHash (s : gostring) : Z := u32 (zlen s * 65537).

Definition demoProbing : TTLProbingConfig := mkProbing "3-1;13=8;8-2" true false 64.

Definition demoTTLPolicy : Policy :=
  mkPolicy BoolUnset SniffOverrideUnset DNSModeUnset 0 0 [] [] [] 0 0 BoolUnset ModeTTLD
    0 0 BoolUnset BoolUnset BoolUnset None 0 (-1) 0 30 2 0 5000000.

Lemma fake_ttl_probed_once_witness :
  ∃ st, setTTLProbing 1 demoProbing (mkProbingState None None false) = Ok st ∧
  ∃ calc n1 st1 st2, buildCalcTTL (FakeTTLRules demoProbing) = Ok calc ∧
    getFakeTTL demoKeyHash demoNet demoTTLPolicy "1.2.3.4:443" 1000 0 st = (with_str "calculate fake ttl" (calc 7), n1, st1) ∧
    Z.of_nat n1 ≤ Z.of_nat 0 + 2 * (Z.log2 30 + 1) ∧
    getFakeTTL demoKeyHash demoNet demoTTLPolicy "1.2.3.4:443" 1004 n1 st1 = (with_str "calculate fake ttl" (calc 7), n1, st2).
Proof.
  assert (match setTTLProbing 1 demoProbing (mkProbingState None None false) with Ok _ => true | _ => false end = true) as Hok
    by (vm_compute; reflexivity).
  destruct (setTTLProbing 1 demoProbing (mkProbingState None None false)) as [st|e|] eqn:E; [|discriminate Hok..].
  exists st. split; [reflexivity|].
  apply (fake_ttl_probed_once demoKeyHash) with (gomaxprocs := 1) (st0 := mkProbingState None None false)
    (ip := lit "1.2.3.4") (port := lit "443"); try done.
  - intros k. apply Z.mod_pos_bound. lia.
  - by right.
  - apply demoNet_distance.
Defined.

(** ** What travels, and what arrives

    Spliced pages are not copied: a transmission carries what the page holds at
    that moment.  [flight] lists the first transmissions with their TTLs. *)

Definition overlay (b page : bytes) : bytes := take (length page) b ++ drop (length b) page.

(** [off] is how much of the page has been spliced. *)
Fixpoint flight (ttl : Z) (page : bytes) (off : nat) (evs : list event) : list (Z * bytes) :=
  match evs with
  | [] => []
  | EvWrite b :: evs' => (ttl, b) :: flight ttl page off evs'
  | EvSplice n :: evs' => (ttl, take (Z.to_nat n) (drop off page)) :: flight ttl page (off + Z.to_nat n) evs'
  | EvSetTTL t :: evs' => flight t page off evs'
  | EvVmsplice b :: evs' => flight ttl b 0 evs'
  | EvPage b :: evs' => flight ttl (overlay b page) off evs'
  | _ :: evs' => flight ttl page off evs'
  end.

Fixpoint pageAfter (page : bytes) (evs : list event) : bytes :=
  match evs with
  | [] => page
  | EvVmsplice b :: evs' => pageAfter b evs'
  | EvPage b :: evs' => pageAfter (overlay b page) evs'
  | _ :: evs' => pageAfter page evs'
  end.

Fixpoint ttlAfter (ttl : Z) (evs : list event) : Z :=
  match evs with
  | [] => ttl
  | EvSetTTL t :: evs' => ttlAfter t evs'
  | _ :: evs' => ttlAfter ttl evs'
  end.

(** What the server reads.  [reaches] says whether a packet with a TTL gets as far
    as the server: one that does is read as it was sent; one that does not is
    lost and retransmitted by the system, from what its page holds in the end,
    under the last TTL of the socket, and if that does not reach either the
    stream stops there.  (Losses other than by the TTL are repaired by the same
    retransmissions and left out.) *)
Section Network.
Context (reaches : Z → bool).

Fixpoint stream (ttl : Z) (page : bytes) (off : nat) (evs : list event) : bytes :=
  match evs with
  | [] => []
  | EvWrite b :: evs' =>
      if reaches ttl || reaches (ttlAfter ttl evs') then b ++ stream ttl page off evs' else []
  | EvSplice n :: evs' =>
      let part (pg : bytes) := take (Z.to_nat n) (drop off pg) ++ stream ttl page (off + Z.to_nat n) evs' in
      if reaches ttl then part page
      else if reaches (ttlAfter ttl evs') then part (pageAfter page evs')
      else []
  | EvSetTTL t :: evs' => stream t page off evs'
  | EvVmsplice b :: evs' => stream ttl b 0 evs'
  | EvPage b :: evs' => stream ttl (overlay b page) off evs'
  | _ :: evs' => stream ttl page off evs'
  end.

End Network.

(** A computation with a known log. *)
Notation logs m a l := (emits m a (λ evs, evs = l)).

Lemma logs_bind {A B} (m : netM A) (k : A → netM B) a b l1 l2 :
  logs m a l1 → logs (k a) b l2 → logs (m ≫= k) b (l1 ++ l2).
Proof. intros H1 H2. eapply emits_bind; [exact H1|exact H2|]. by intros e1 e2 -> ->. Qed.

Lemma logs_ret {A} (a : A) : logs (mret a) a [].
Proof. intros c Hc. exists c, []. by rewrite app_nil_r. Qed.

Lemma logs_checked {A} (o : option A) a : o = Some a → logs (checkedM o) a [].
Proof. intros ->. apply logs_ret. Qed.

Lemma logs_step op ev : logs (with_strM op (perform ev)) tt [ev].
Proof. apply emits_with_str, emits_perform. done. Qed.

Lemma logs_attempt {A} (m : netM A) a l : logs m a l → logs (attemptM m) (Ok a) l.
Proof.
  intros Hm c Hc. destruct (Hm c Hc) as (c' & evs & E & H). exists c', evs. unfold attemptM. by rewrite E.
Qed.

Lemma logs_append ev : logs (λ c, (Ok tt, append_log c (ev, None))) tt [ev].
Proof.
  intros c [Ho Hp]. eexists _, [ev]. split; [done|]. split; [by split|]. split; [|done].
  unfold sent, append_log. simpl. by rewrite fmap_app.
Qed.

(** *** The calls of the splice loop *)

Definition callOK (call : spliceCall) : Prop :=
  match call with SpliceFailed _ | WaitFailed _ => False | _ => True end.

(** No call of the goroutine fails for good. *)
Definition calm (sch : splicing) : Prop :=
  Forall callOK (beforePage sch) ∧ Forall callOK (beforeTTL sch) ∧ Forall callOK (afterTTL sch).

(** The amounts a run of the loop moves, and what is left afterwards. *)
Fixpoint amounts (calls : list spliceCall) (left : Z) : list Z :=
  match calls with
  | [] => []
  | call :: calls' =>
      if left <=? 0 then []
      else match call with
           | Moved n => let k := Z.min left (Z.max 0 n) in k :: amounts calls' (left - k)
           | _ => 0 :: amounts calls' left
           end
  end.

Definition total (ks : list Z) : Z := foldr Z.add 0 ks.

Lemma amounts_total calls left : 0 ≤ left → Forall (λ k, 0 ≤ k) (amounts calls left) ∧ 0 ≤ total (amounts calls left) ≤ left.
Proof.
  revert left. induction calls as [|call calls IH]; intros left Hl; cbn [amounts]; [simpl; split; [constructor|lia]|].
  destruct (Z.leb_spec left 0); [simpl; split; [constructor|lia]|].
  destruct call; cbn [total foldr]; unfold total in IH.
  1: destruct (IH (left - Z.min left (Z.max 0 n)) ltac:(lia)) as [H1 H2].
  2-5: destruct (IH left Hl) as [H1 H2].
  all: split; [constructor; [lia|done]|lia].
Qed.

(** A state of the goroutine that no failure has ended. *)
Definition going (left : Z) (g : spliceState) : Prop :=
  0 ≤ left ∧ remaining g = left ∧ rawWriteErr g = None ∧ spliceOver g = (left <=? 0) ∧ (left = 0 → spliceErr g = None).

Lemma spliceLoop_logs calls g left : Forall callOK calls → going left g →
  ∃ g', logs (spliceLoop calls g) g' (EvSplice <$> amounts calls left) ∧ going (left - total (amounts calls left)) g'.
Proof.
  intros Hc. revert g left. induction Hc as [|call calls Hcall _ IH]; intros g left Hg.
  { exists g. split; [apply logs_ret|]. cbn. by rewrite Z.sub_0_r. }
  pose proof Hg as (H0 & Hr & Hraw & Hov & Herr). cbn [spliceLoop amounts].
  destruct (Z.leb_spec left 0) as [Hz|Hz].
  - destruct (IH g left Hg) as (g' & Hl & Hg'). assert (amounts calls left = []) as E.
    { destruct calls; [done|]. cbn [amounts]. by destruct (Z.leb_spec left 0); [|lia]. }
    rewrite E in Hl, Hg'. exists g'. split; [|done]. eapply (logs_bind _ _ g _ [] []); [|exact Hl].
    unfold spliceRound. rewrite Hov. apply logs_ret.
  - assert (∀ k e g1 left1, spliceRound call g = (logCall k e;; mret g1) → going left1 g1 → left1 = left - k →
      ∃ g', logs (g' ← spliceRound call g; spliceLoop calls g') g' (EvSplice <$> k :: amounts calls left1) ∧
        going (left - total (k :: amounts calls left1)) g') as Hstep.
    { intros k e g1 left1 Er Hg1 ->. destruct (IH g1 _ Hg1) as (g' & Hl & Hg'). exists g'. split.
      - rewrite Er. eapply (logs_bind _ _ g1 _ [_]); [|exact Hl]. eapply (logs_bind _ _ tt _ [_] []); [|apply logs_ret].
        intros c [Ho Hp]. eexists _, [EvSplice k]. split; [done|]. split; [by split|]. split; [|done].
        unfold sent, append_log. simpl. by rewrite fmap_app.
      - cbn [total foldr]. unfold total in Hg'.
        replace (left - (k + _)) with (left - k - foldr Z.add 0 (amounts calls (left - k))) by lia. done. }
    unfold spliceRound in Hstep |- *. rewrite Hov in Hstep |- *.
    assert (∀ e, going left (mkSplice (remaining g) e None false)) as Hsame.
    { intros e. unfold going. cbn. destruct (Z.leb_spec left 0); [lia|]. split_and!; [lia|done|done|done|lia]. }
    destruct call as [n| | |e|e]; [| | |done|done].
    + rewrite Hr in Hstep |- *. eapply Hstep; [reflexivity| |reflexivity]. unfold going. cbn. split_and!; [lia|done..].
    + eapply Hstep; [reflexivity|apply Hsame|lia].
    + eapply Hstep; [reflexivity|apply Hsame|lia].
Qed.

(** The last call moves what is left. *)
Lemma amounts_final calls left n : 0 ≤ left ≤ n → total (amounts (calls ++ [Moved n]) left) = left.
Proof.
  revert left. induction calls as [|call calls IH]; intros left Hl; cbn [app amounts].
  - destruct (Z.leb_spec left 0); cbn; lia.
  - destruct (Z.leb_spec left 0); [cbn; lia|]. destruct call; cbn [total foldr]; unfold total in IH; rewrite IH; lia.
Qed.

(** The splices of the three phases. *)
Definition phases (sch : splicing) (n : Z) : list Z * list Z * list Z :=
  let k1 := amounts (beforePage sch) n in
  let k2 := amounts (beforeTTL sch) (n - total k1) in
  (k1, k2, amounts (afterTTL sch ++ [Moved n]) (n - total k1 - total k2)).

Definition noiseLog (sch : splicing) (fake real : bytes) (fakeTTL defaultTTL fakeSleep : Z) : list event :=
  let '(k1, k2, k3) := phases sch (zlen fake) in
  [EvControl; EvPipe; EvMmap (zlen fake); EvSetTTL fakeTTL; EvVmsplice fake] ++
  (EvSplice <$> k1) ++ [EvSleep fakeSleep; EvPage real] ++ (EvSplice <$> k2) ++ [EvSetTTL defaultTTL] ++ (EvSplice <$> k3).

Lemma sendWithNoise_logs sch fake real fakeTTL defaultTTL fakeSleep : calm sch →
  logs (sendWithNoise sch fake real fakeTTL defaultTTL fakeSleep) tt (noiseLog sch fake real fakeTTL defaultTTL fakeSleep).
Proof.
  intros (C1 & C2 & C3). unfold sendWithNoise, noiseLog, phases. cbn [app]. pose proof (zlen_nonneg fake) as Hn.
  set (n := zlen fake) in *. do 5 (eapply (logs_bind _ _ _ _ [_]); [apply logs_step|]).
  destruct (spliceLoop_logs (beforePage sch) (spliceStart n) n C1) as (g1 & L1 & G1).
  { by split_and!. }
  set (k1 := amounts (beforePage sch) n) in *.
  eapply logs_bind; [exact L1|]. cbv beta.
  eapply (logs_bind _ _ tt _ [_]); [apply logs_append|]. eapply (logs_bind _ _ tt _ [_]); [apply logs_append|].
  destruct (spliceLoop_logs (beforeTTL sch) g1 _ C2 G1) as (g2 & L2 & G2).
  set (k2 := amounts (beforeTTL sch) (n - total k1)) in *.
  eapply logs_bind; [exact L2|]. cbv beta. eapply (logs_bind _ _ tt _ [_]); [apply logs_step|].
  destruct (spliceLoop_logs (afterTTL sch ++ [Moved n]) g2 _ ltac:(apply Forall_app; split; [done|by repeat constructor]) G2) as (g3 & L3 & G3).
  destruct (amounts_total (beforePage sch) n Hn) as [_ T1]. fold k1 in T1.
  destruct (amounts_total (beforeTTL sch) (n - total k1) ltac:(lia)) as [_ T2]. fold k2 in T2.
  rewrite amounts_final, Z.sub_diag in G3 by lia.
  rewrite <- (app_nil_r (EvSplice <$> amounts (afterTTL sch ++ _) _)). eapply logs_bind; [exact L3|]. cbv beta.
  destruct G3 as (_ & _ & -> & _ & ->); [apply logs_ret|lia].
Qed.

Definition desyncLog (sch : splicing) (defaultTTL : Z) (record : bytes) (sniStart cut fakeTTL fakeSleep : Z) : list event :=
  [EvRawConn; EvControl; EvGetTTL] ++
  noiseLog sch (zeroPadded cut (take (Z.to_nat sniStart) record)) (take (Z.to_nat cut) record) fakeTTL defaultTTL
    (Z.max minInterval fakeSleep) ++ [EvWrite (drop (Z.to_nat cut) record)].

Lemma zeroPadded_zlen n src : 0 ≤ n → zlen src ≤ n → zlen (zeroPadded n src) = n.
Proof.
  intros Hn Hs. unfold zeroPadded, zlen in *. rewrite length_app, length_take, length_replicate. lia.
Qed.

Lemma desyncSend_logs sch defaultTTL record sniStart sniLen cut fakeTTL fakeSleep :
  calm sch → 0 ≤ sniStart ≤ zlen record → findLastDotOrMidPos record sniStart sniLen = Some cut → 0 ≤ cut ≤ zlen record →
  logs (desyncSend sch defaultTTL record sniStart sniLen fakeTTL fakeSleep) tt
    (desyncLog sch defaultTTL record sniStart cut fakeTTL fakeSleep).
Proof.
  intros Hcalm Hs Ecut Hc. unfold desyncSend, desyncLog. cbn [app].
  eapply (logs_bind _ _ tt _ [_]); [apply logs_step|]. eapply (logs_bind _ _ tt _ [_]); [apply logs_step|].
  eapply (logs_bind _ _ (Ok tt) _ [_]); [apply logs_attempt, emits_perform; done|]. cbv iota beta.
  eapply (logs_bind _ _ cut _ []); [by apply logs_checked|].
  eapply (logs_bind _ _ _ _ []); [apply logs_checked, slice_0; lia|].
  eapply (logs_bind _ _ _ _ []); [apply logs_checked, slice_0; lia|].
  eapply (logs_bind _ _ tt _ (noiseLog _ _ _ _ _ _)); [by apply emits_with_str, sendWithNoise_logs|].
  eapply (logs_bind _ _ _ _ []); [apply logs_checked, slice_end; lia|]. apply logs_step.
Qed.

(** *** What the splices amount to *)

Lemma pageAfter_splices ks page evs : pageAfter page ((EvSplice <$> ks) ++ evs) = pageAfter page evs.
Proof. induction ks; done. Qed.

Lemma ttlAfter_splices ks ttl evs : ttlAfter ttl ((EvSplice <$> ks) ++ evs) = ttlAfter ttl evs.
Proof. induction ks; done. Qed.

Lemma take_take_total (page : bytes) off (k j : Z) : 0 ≤ k → 0 ≤ j →
  take (Z.to_nat k) (drop off page) ++ take (Z.to_nat j) (drop (off + Z.to_nat k) page) = take (Z.to_nat (k + j)) (drop off page).
Proof. intros Hk Hj. rewrite Z2Nat.inj_add, <- drop_drop by done. apply take_take_drop. Qed.

Lemma total_nonneg ks : Forall (λ k, 0 ≤ k) ks → 0 ≤ total ks.
Proof. induction 1; cbn [total foldr]; [done|]. unfold total in *. lia. Qed.

Lemma stream_splices reaches ttl page off ks evs :
  Forall (λ k, 0 ≤ k) ks → reaches (ttlAfter ttl evs) = true →
  stream reaches ttl page off ((EvSplice <$> ks) ++ evs) =
  take (Z.to_nat (total ks)) (drop off (if reaches ttl then page else pageAfter page evs)) ++
  stream reaches ttl page (off + Z.to_nat (total ks)) evs.
Proof.
  intros Hks Hr. revert off. induction Hks as [|k ks Hk Hks IH]; intros off.
  { cbn [fmap list_fmap app total foldr]. change (Z.to_nat 0) with 0%nat. by rewrite Nat.add_0_r. }
  cbn [fmap list_fmap app stream]. rewrite ttlAfter_splices, pageAfter_splices, Hr, IH. cbn [total foldr].
  pose proof (total_nonneg ks Hks) as H0. unfold total in *.
  replace (off + Z.to_nat (k + _))%nat with (off + Z.to_nat k + Z.to_nat (foldr Z.add 0%Z ks))%nat by lia.
  destruct (reaches ttl); rewrite <- take_take_total, <- app_assoc by done; done.
Qed.

Lemma flight_splices ttl page off ks evs : Forall (λ k, 0 ≤ k) ks →
  ∃ parts, flight ttl page off ((EvSplice <$> ks) ++ evs) = (pair ttl <$> parts) ++ flight ttl page (off + Z.to_nat (total ks)) evs ∧
    concat parts = take (Z.to_nat (total ks)) (drop off page).
Proof.
  intros Hks. revert off. induction Hks as [|k ks Hk Hks IH]; intros off.
  { exists []. cbn [fmap list_fmap app total foldr]. change (Z.to_nat 0) with 0%nat. by rewrite Nat.add_0_r. }
  destruct (IH (off + Z.to_nat k)%nat) as (parts & E & Hp). pose proof (total_nonneg ks Hks).
  exists (take (Z.to_nat k) (drop off page) :: parts). cbn [fmap list_fmap app flight concat total foldr]. rewrite E, Hp. split.
  - do 3 f_equal. unfold total in *. lia.
  - by apply take_take_total.
Qed.

(** The goroutine has moved [n] bytes before the page is overwritten. *)
Definition onTime (sch : splicing) (n : Z) : Prop := total (amounts (beforePage sch) n) = n.

(** The forged data: the record up to the name, and zeros. *)
Lemma forged_eq record sniStart cut : 0 ≤ sniStart ≤ cut → cut ≤ zlen record →
  zeroPadded cut (take (Z.to_nat sniStart) record) = take (Z.to_nat sniStart) record ++ replicate (Z.to_nat (cut - sniStart)) 0.
Proof.
  intros Hs Hc. unfold zeroPadded, zlen in *. rewrite (take_ge (take _ _)) by (rewrite length_take; lia).
  do 2 f_equal. rewrite length_take. lia.
Qed.

Lemma forged_zlen record sniStart cut : 0 ≤ sniStart ≤ cut → cut ≤ zlen record →
  zlen (zeroPadded cut (take (Z.to_nat sniStart) record)) = cut.
Proof. intros Hs Hc. apply zeroPadded_zlen; [lia|]. unfold zlen in *. rewrite length_take. lia. Qed.

Lemma overlay_same (a b : bytes) : length a = length b → overlay a b = a.
Proof. intros E. unfold overlay. rewrite drop_ge, app_nil_r, take_ge by lia. done. Qed.

(** What the server reads: what was spliced before the page was overwritten is
    read forged if the fake TTL reaches it. *)
Lemma desyncLog_stream reaches sch defaultTTL record sniStart cut fakeTTL fakeSleep :
  0 ≤ sniStart ≤ cut → cut ≤ zlen record → reaches defaultTTL = true →
  let t1 := Z.to_nat (total (amounts (beforePage sch) cut)) in
  stream reaches defaultTTL [] 0 (desyncLog sch defaultTTL record sniStart cut fakeTTL fakeSleep) =
  (if reaches fakeTTL
   then take t1 (zeroPadded cut (take (Z.to_nat sniStart) record)) ++ drop t1 (take (Z.to_nat cut) record)
   else take (Z.to_nat cut) record) ++ drop (Z.to_nat cut) record.
Proof.
  intros Hs Hc Hnear t1. unfold desyncLog, noiseLog, phases. rewrite forged_zlen by done.
  set (fake := zeroPadded cut _). set (real := take (Z.to_nat cut) record).
  assert (length real = Z.to_nat cut) as Lr by (unfold real, zlen in *; rewrite length_take; lia).
  assert (overlay real fake = real) as Hov.
  { apply overlay_same. pose proof (forged_zlen record sniStart cut Hs Hc) as Hf. fold fake in Hf. unfold zlen in *. lia. }
  destruct (amounts_total (beforePage sch) cut ltac:(lia)) as [P1 T1]. set (k1 := amounts (beforePage sch) cut) in *.
  destruct (amounts_total (beforeTTL sch) (cut - total k1) ltac:(lia)) as [P2 T2]. set (k2 := amounts (beforeTTL sch) _) in *.
  destruct (amounts_total (afterTTL sch ++ [Moved cut]) (cut - total k1 - total k2) ltac:(lia)) as [P3 _].
  pose proof (amounts_final (afterTTL sch) (cut - total k1 - total k2) cut ltac:(lia)) as T3. set (k3 := amounts (afterTTL sch ++ _) _) in *.
  rewrite <- !app_assoc. cbn [app stream].
  assert (∀ evs, reaches (ttlAfter fakeTTL ((EvSplice <$> k2) ++ EvSetTTL defaultTTL :: (EvSplice <$> k3) ++ [EvWrite evs])) = true) as R2.
  { intros evs. rewrite ttlAfter_splices. cbn [ttlAfter]. by rewrite ttlAfter_splices. }
  rewrite stream_splices by (done || apply R2). cbn [app stream pageAfter]. rewrite pageAfter_splices.
  cbn [app pageAfter]. rewrite pageAfter_splices. cbn [pageAfter]. rewrite Hov.
  rewrite stream_splices by (done || (cbn [ttlAfter]; by rewrite ttlAfter_splices)).
  cbn [app stream pageAfter]. rewrite pageAfter_splices. cbn [pageAfter].
  rewrite stream_splices by done. cbn [stream]. rewrite Hnear. cbn [orb]. rewrite app_nil_r.
  assert ((if reaches fakeTTL then real else real) = real) as -> by (by destruct (reaches fakeTTL)).
  rewrite drop_0. rewrite Nat.add_0_l. fold t1.
  assert (take (Z.to_nat (total k2)) (drop t1 real) ++ take (Z.to_nat (total k3)) (drop (t1 + Z.to_nat (total k2)) real) = drop t1 real) as Hrest.
  { unfold t1. rewrite take_take_total by lia. rewrite take_ge; [done|]. rewrite length_drop. lia. }
  rewrite (app_assoc (take (Z.to_nat (total k2)) _)), Hrest, app_assoc. f_equal.
  destruct (reaches fakeTTL); [done|apply take_drop].
Qed.

(** The first transmissions, when the splice is done in time. *)
Lemma desyncLog_flight sch defaultTTL record sniStart cut fakeTTL fakeSleep :
  0 ≤ sniStart ≤ cut → cut ≤ zlen record → onTime sch cut →
  ∃ parts, flight defaultTTL [] 0 (desyncLog sch defaultTTL record sniStart cut fakeTTL fakeSleep) =
      (pair fakeTTL <$> parts) ++ [(defaultTTL, drop (Z.to_nat cut) record)] ∧
    concat parts = take (Z.to_nat sniStart) record ++ replicate (Z.to_nat (cut - sniStart)) 0.
Proof.
  intros Hs Hc Ht. unfold desyncLog, noiseLog, phases, onTime in *. rewrite forged_zlen by done. rewrite Ht, Z.sub_diag.
  destruct (amounts_total (beforePage sch) cut ltac:(lia)) as [P1 _].
  assert (∀ calls, amounts calls 0 = []) as E0 by (by intros []). rewrite !E0.
  set (fake := zeroPadded cut _). cbn [app flight fmap list_fmap]. rewrite <- app_assoc.
  destruct (flight_splices fakeTTL fake 0 (amounts (beforePage sch) cut)
    ([EvSleep (Z.max minInterval fakeSleep); EvPage (take (Z.to_nat cut) record); EvSetTTL defaultTTL] ++
     [EvWrite (drop (Z.to_nat cut) record)]) P1) as (parts & E & Hp).
  exists parts. split; [exact E|]. rewrite Hp, Ht, drop_0. unfold fake. rewrite take_ge.
  - by apply forged_eq.
  - pose proof (forged_zlen record sniStart cut Hs Hc) as Hf. unfold zlen in Hf. lia.
Qed.

(** C19: a ClientHello sent with a fake packet, when no call fails (calls of the
    splice loop may be partial, interrupted or refused for a while, in any
    interleaving), the fake TTL does not reach the server and the socket's own
    does: the server reads exactly the record; and when the splice is done before
    the page is overwritten, the first transmissions are forged packets under the
    fake TTL, together the record up to the server name and then nothing but
    zeros, followed by the rest of the record, which begins inside the name, under
    the socket's own TTL. *)
Theorem desyncSend_hides_name reaches sch defaultTTL record sniStart sniLen fakeTTL fakeSleep c :
  0 ≤ sniStart → 0 < sniLen → sniStart + sniLen ≤ zlen record → quiet c → calm sch →
  reaches fakeTTL = false → reaches defaultTTL = true →
  ∃ c' evs cut, desyncSend sch defaultTTL record sniStart sniLen fakeTTL fakeSleep c = (Ok tt, c') ∧
    sent c' = sent c ++ evs ∧ sniStart ≤ cut < sniStart + sniLen ∧
    stream reaches defaultTTL [] 0 evs = record ∧
    (onTime sch cut → ∃ parts,
      flight defaultTTL [] 0 evs = (pair fakeTTL <$> parts) ++ [(defaultTTL, drop (Z.to_nat cut) record)] ∧
      concat parts = take (Z.to_nat sniStart) record ++ replicate (Z.to_nat (cut - sniStart)) 0).
Proof.
  intros Hs Hl Hle Hq Hcalm Hfar Hnear.
  destruct (cut_range record sniStart sniLen) as (cut & Ecut & Hcut); [lia..|].
  destruct (desyncSend_logs sch defaultTTL record sniStart sniLen cut fakeTTL fakeSleep Hcalm ltac:(lia) Ecut ltac:(lia) c Hq)
    as (c' & evs & E & _ & Hsent & ->).
  eexists c', _, cut. split_and!; [exact E|exact Hsent|lia|lia|..].
  - rewrite desyncLog_stream by (lia || done). by rewrite Hfar, take_drop.
  - intros Ht. by apply desyncLog_flight; [lia|lia|].
Qed.

(** Should the fake TTL reach the server after all, it reads the zeros. *)
Theorem reaching_fake_corrupts reaches sch defaultTTL record sniStart sniLen cut fakeTTL fakeSleep c :
  0 ≤ sniStart ≤ cut → findLastDotOrMidPos record sniStart sniLen = Some cut → cut ≤ zlen record → quiet c → calm sch →
  onTime sch cut → reaches fakeTTL = true → reaches defaultTTL = true →
  ∃ c' evs, desyncSend sch defaultTTL record sniStart sniLen fakeTTL fakeSleep c = (Ok tt, c') ∧ sent c' = sent c ++ evs ∧
    stream reaches defaultTTL [] 0 evs =
      take (Z.to_nat sniStart) record ++ replicate (Z.to_nat (cut - sniStart)) 0 ++ drop (Z.to_nat cut) record.
Proof.
  intros Hs Ecut Hcut Hq Hcalm Ht Hfake Hnear.
  destruct (desyncSend_logs sch defaultTTL record sniStart sniLen cut fakeTTL fakeSleep Hcalm ltac:(lia) Ecut ltac:(lia) c Hq)
    as (c' & evs & E & _ & Hsent & ->).
  eexists c', _. split_and!; [exact E|exact Hsent|]. rewrite desyncLog_stream by (lia || done). rewrite Hfake, Ht.
  rewrite (drop_ge (take _ _)) by (rewrite length_take; lia). rewrite app_nil_r, forged_eq by lia.
  rewrite take_ge; [by rewrite <- app_assoc|]. unfold zlen in *. rewrite length_app, length_take, length_replicate. lia.
Qed.

(** The splice done in one call at once; in several calls, one of them interrupted,
    the last after the reset of the TTL. *)
Definition spliceAtOnce : splicing := mkSplicing [Moved 65536] [] [].
Definition splicePieces : splicing := mkSplicing [Moved 3; Interrupted; WouldBlock] [Moved 2] [].

Lemma desyncSend_hides_name_witness :
  (∃ c' evs cut, desyncSend spliceAtOnce 64 (lit "HELLO a.example.com!") 6 13 7 0 freshConn = (Ok tt, c') ∧
    sent c' = sent freshConn ++ evs ∧ 6 ≤ cut < 6 + 13 ∧
    stream (λ ttl, 12 <=? ttl) 64 [] 0 evs = lit "HELLO a.example.com!" ∧
    (onTime spliceAtOnce cut → ∃ parts,
      flight 64 [] 0 evs = (pair 7 <$> parts) ++ [(64, drop (Z.to_nat cut) (lit "HELLO a.example.com!"))] ∧
      concat parts = take (Z.to_nat 6) (lit "HELLO a.example.com!") ++ replicate (Z.to_nat (cut - 6)) 0)) ∧
  onTime spliceAtOnce 15 ∧
  (∃ c' evs cut, desyncSend splicePieces 64 (lit "HELLO a.example.com!") 6 13 7 0 freshConn = (Ok tt, c') ∧
    sent c' = sent freshConn ++ evs ∧ 6 ≤ cut < 6 + 13 ∧
    stream (λ ttl, 12 <=? ttl) 64 [] 0 evs = lit "HELLO a.example.com!").
Proof.
  assert (quiet freshConn) as Hq by (split; [reflexivity|]; intros k; by exists 0). split_and!.
  - apply (desyncSend_hides_name (λ ttl, 12 <=? ttl) spliceAtOnce 64 (lit "HELLO a.example.com!") 6 13 7 0 freshConn);
      [lia|lia|vm_compute; discriminate|exact Hq|by repeat constructor|reflexivity..].
  - reflexivity.
  - destruct (desyncSend_hides_name (λ ttl, 12 <=? ttl) splicePieces 64 (lit "HELLO a.example.com!") 6 13 7 0 freshConn)
      as (c' & evs & cut & H1 & H2 & H3 & H4 & _);
      [lia|lia|vm_compute; discriminate|exact Hq|by repeat constructor|reflexivity|reflexivity|]. by exists c', evs, cut.
Defined.

Lemma reaching_fake_corrupts_witness :
  ∃ c' evs, desyncSend spliceAtOnce 64 (lit "HELLO a.example.com!") 6 13 7 0 freshConn = (Ok tt, c') ∧ sent c' = sent freshConn ++ evs ∧
    stream (λ ttl, 5 <=? ttl) 64 [] 0 evs = lit "HELLO " ++ replicate 9 0 ++ lit ".com!".
Proof.
  apply (reaching_fake_corrupts (λ ttl, 5 <=? ttl) spliceAtOnce 64 (lit "HELLO a.example.com!") 6 13 15 7 0 freshConn);
    [lia|reflexivity|vm_compute; discriminate| |by repeat constructor|reflexivity..].
  split; [reflexivity|]. intros k. by exists 0.
Defined.

(** When the socket's TTL cannot be read, [desyncSend] reports success and
    sends nothing: the error it wraps is the nil one of the control call. *)
Theorem desyncSend_silent_failure sch defaultTTL record sniStart sniLen fakeTTL fakeSleep c e :
  oracle c (length (log c)) = None → oracle c (S (length (log c))) = None → oracle c (S (S (length (log c)))) = Some e →
  ∃ c', desyncSend sch defaultTTL record sniStart sniLen fakeTTL fakeSleep c = (Ok tt, c') ∧
    sent c' = sent c ++ [EvRawConn; EvControl; EvGetTTL].
Proof.
  intros H0 H1 H2. unfold desyncSend, getRawConn, with_strM, attemptM, perform, mbind, netM_bind, append_log, mret, netM_ret.
  cbn [oracle log polls pollIdx]. rewrite H0. cbn [oracle log polls pollIdx]. rewrite length_app. cbn [length].
  rewrite Nat.add_1_r, H1. cbn [oracle log polls pollIdx]. rewrite !length_app. cbn [length].
  rewrite !Nat.add_1_r, H2. eexists. split; [done|]. unfold sent. cbn [log]. rewrite !fmap_app, <- !app_assoc. done.
Qed.

Lemma desyncSend_silent_failure_witness :
  ∃ c', desyncSend spliceAtOnce 64 (lit "hello") 1 3 7 0 (mkConn [] (λ k, if (k =? 2)%nat then Some (sysError 22) else None) (λ _, (Ok 0, 0)) 0)
          = (Ok tt, c') ∧
    sent c' = sent (mkConn [] (λ k, if (k =? 2)%nat then Some (sysError 22) else None) (λ _, (Ok 0, 0)) 0) ++ [EvRawConn; EvControl; EvGetTTL].
Proof. apply (desyncSend_silent_failure spliceAtOnce 64 (lit "hello") 1 3 7 0 _ (sysError 22)); reflexivity. Defined.
