(* ===== verification/Tunnel.v ===== *)
(** * Tunnels (core/tunnel.go, and [policyConn] of core/policy.go)

    [handleTunnel] looks at the first bytes a client sends, [handleTLS] applies
    the policy to a ClientHello, [handleHTTP] to a request.  The connections a
    handler opens are numbered in order and kept with the log of what was done
    on them; what a call outside this file answers (the dialer, the probe of the
    fake TTL, [net/http]'s parser) is an argument.  Log output is left out. *)

From S2P Require Import Prelude Errors Netip AddrTrie Conn ClientHello Fragment Policy FakeIP Routing Ring LRU LRUSpec Sharded Desync.
Local Open Scope Z_scope.

(** ** policyConn *)

(** [policyConn.Write]: the number of bytes reported, and the [handled] flag
    afterwards.  [fakeTTL] is the answer of [getFakeTTL] for the remote address,
    [sch] and [sockTTL] are the choices of the system in [desyncSend]. *)
Definition policyConnWrite (sch : splicing) (sockTTL : Z) (fakeTTL : res Z) (policy : option Policy)
    (handled : bool) (b : bytes) : netM (Z * bool) :=
  let whole := write b;; mret (zlen b, true) in
  if handled then whole else
  h ← checkedM (parseClientHello b);
  match helloErr h with
  | Some e => lift (Err e)
  | None =>
      match policy with
      | None => whole
      | Some p =>
          if IsTrue (pTLS13Only p) && negb (hasKeyShare h) then failM "not a TLS 1.3 ClientHello"
          else if sniStart h =? -1 then whole
          else
            match pMode p with
            | ModeDirect | ModeRaw => whole
            | ModeTTLD =>
                ttl ← with_strM "get fake ttl" (lift fakeTTL);
                with_strM "ttl desync"
                  (desyncSend sch sockTTL b (sniStart h) (sniLen h) ttl (pFakeSleep p));;
                mret (zlen b, true)
            | ModeTLSRF =>
                with_strM "tls fragment"
                  (sendRecords b (sniStart h) (sniLen h) (pNumRecords p) (pNumSegments p) (pMinorVer p)
                     (IsTrue (pOOB p)) (IsTrue (pOOBEx p)) (IsTrue (pWaitForAck p)) (pSendInterval p));;
                mret (zlen b, true)
            | _ => mret (zlen b, true)
            end
      end
  end.

(** ** The state of a handler *)

Inductive cliEvent :=
| CliAlert (b : bytes)
| CliResponse (status : Z) (location : option gostring).

Record world := mkWorld {
  wCli : list cliEvent;
  wConns : list (gostring * conn);
  wClosed : list nat;
}.

Definition tM (A : Type) : Type := world → res A * world.

#[global] Instance tM_ret : MRet tM := λ A a w, (Ok a, w).
#[global] Instance tM_bind : MBind tM := λ A B k m w,
  match m w with
  | (Ok a, w') => k a w'
  | (Err e, w') => (Err e, w')
  | (Panic, w') => (Panic, w')
  end.

Definition liftT {A} (r : res A) : tM A := λ w, (r, w).

Definition tellClient (ev : cliEvent) : tM unit := λ w,
  (Ok tt, mkWorld (wCli w ++ [ev]) (wConns w) (wClosed w)).

Definition closeConn (i : nat) : tM unit := λ w, (Ok tt, mkWorld (wCli w) (wConns w) (wClosed w ++ [i])).

(** Run a sending computation on connection [i]; its error is returned. *)
Definition onConn (i : nat) (m : netM unit) : tM (option error) := λ w,
  match wConns w !! i with
  | None => (Panic, w)
  | Some (addr, c) =>
      let '(r, c') := m c in
      let w' := mkWorld (wCli w) (<[i := (addr, c')]> (wConns w)) (wClosed w) in
      match r with
      | Ok _ => (Ok None, w')
      | Err e => (Ok (Some e), w')
      | Panic => (Panic, w')
      end
  end.

Section Handlers.
Context `{GoUnicode}.
Context (t : Tables).
Context (getFromIPPool : gostring → res gostring).
Context (dnsResolve : gostring → DNSMode → Z → res (gostring * bool)).
(** [dial.DialTCPTimeout], [getFakeTTL] and the system's choices. *)
Context (dialTCP : gostring → Z → res conn).
Context (fakeTTL : Policy → gostring → res Z).
Context (sch : splicing) (sockTTL : Z).

(** A new connection, or [None] when dialling fails. *)
Definition openConn (target : gostring) (timeout : Z) : tM (option nat) := λ w,
  match dialTCP target timeout with
  | Ok c => (Ok (Some (length (wConns w))), mkWorld (wCli w) (wConns w ++ [(target, c)]) (wClosed w))
  | Err _ => (Ok None, w)
  | Panic => (Panic, w)
  end.

Definition sendTLSAlert (prtVer : bytes) (desc level : Z) : tM unit :=
  r ← liftT (checked (tlsAlertRecord prtVer desc level));
  tellClient (CliAlert r).

(** What [handleTLS] goes on with: a policy, the target and its connection. *)
Inductive tlsRoute :=
| RouteStop
| RouteTo (p : Policy) (target : gostring) (dst : option nat).

(** A server name other than the host that was asked for. *)
Definition sniffOverride (p : Policy) (prtVer sniStr target originPort : gostring) (dst : option nat) : tM tlsRoute :=
  match pSniffOverrideMode p with
  | SniffOverrideRouteOnly =>
      match Domain.Find (domainMatcher t) sniStr with
      | Some sniPolicy =>
          if bool_decide (pMode sniPolicy = ModeBlock) then mret RouteStop
          else if bool_decide (pMode sniPolicy = ModeTLSAlert) then
            sendTLSAlert prtVer tlsAlertAccessDenied tlsAlertLevelFatal;; mret RouteStop
          else mret (RouteTo (mergePolicies [sniPolicy; p]) target dst)
      | None => mret (RouteTo p target dst)
      end
  | SniffOverrideAlways | SniffOverridePolicyExists =>
      match genPolicy t getFromIPPool dnsResolve sniStr false
              (bool_decide (pSniffOverrideMode p = SniffOverridePolicyExists)) with
      | GenFailed | GenNotFound => mret (RouteTo p target dst)
      | GenBlocked => mret RouteStop
      | GenOK newDst sniPolicy =>
          if bool_decide (pMode sniPolicy = ModeTLSAlert) then
            sendTLSAlert prtVer tlsAlertAccessDenied tlsAlertLevelFatal;; mret RouteStop
          else
            let originPort := if negb (pPort sniPolicy =? 0) && negb (pPort sniPolicy =? unsetInt)
                              then itoa (pPort sniPolicy) else originPort in
            let newTarget := JoinHostPort newDst originPort in
            newConn ← openConn newTarget (pConnectTimeout sniPolicy);
            match newConn with
            | Some i =>
                match dst with Some j => closeConn j | None => mret tt end;;
                mret (RouteTo sniPolicy newTarget (Some i))
            | None => mret (RouteTo p target dst)
            end
      end
  | _ => mret (RouteTo p target dst)
  end.

(** The first byte tells an IPv6 target; an empty one panics. *)
Definition isIPv6Target (target : gostring) : option bool := (λ c, c =? 91) <$> idx target 0.

(** Send the ClientHello; the result says whether the tunnel goes on. *)
Definition sendHello (mode : Mode) (p : Policy) (target : gostring) (record : bytes) (h : helloInfo) (i : nat) : tM bool :=
  match mode with
  | ModeDirect | ModeRaw => e ← onConn i (write record); mret (bool_decide (e = None))
  | ModeTLSRF =>
      e ← onConn i (sendRecords record (sniStart h) (sniLen h) (pNumRecords p) (pNumSegments p) (pMinorVer p)
                      (IsTrue (pOOB p)) (IsTrue (pOOBEx p)) (IsTrue (pWaitForAck p)) (pSendInterval p));
      mret (bool_decide (e = None))
  | ModeTTLD =>
      _ ← liftT (checked (isIPv6Target target));
      match fakeTTL p target with
      | Ok ttl =>
          e ← onConn i (desyncSend sch sockTTL record (sniStart h) (sniLen h) ttl (pFakeSleep p));
          mret (bool_decide (e = None))
      | Err _ => mret false
      | Panic => liftT Panic
      end
  | _ => mret true
  end.

(** [handleTLS] on the record it has read: the connection to go on with, or
    [None] for the results [nil, false]. *)
Definition handleTLS (record : bytes) (p : Policy) (originHost target originPort : gostring) (dst : option nat)
  : tM (option nat) :=
  h ← liftT (checked (parseClientHello record));
  match helloErr h with
  | Some _ => mret None
  | None =>
      if bool_decide (pMode p = ModeTLSAlert) then
        sendTLSAlert (prtVer h) tlsAlertAccessDenied tlsAlertLevelFatal;; mret None
      else if IsTrue (pTLS13Only p) && negb (hasKeyShare h) then
        sendTLSAlert (prtVer h) tlsAlertProtocolVersion tlsAlertLevelFatal;; mret None
      else
        '(mode, route) ←
          (if sniStart h <=? 0 then mret (ModeDirect, RouteTo p target dst)
           else if hasECH h then mret (ModeDirect, RouteTo p target dst)
           else
             sniStr ← liftT (checked (slice record (sniStart h) (sniStart h + sniLen h)));
             if bool_decide (originHost = sniStr) then mret (ModeUnset, RouteTo p target dst)
             else r ← sniffOverride p (prtVer h) sniStr target originPort dst; mret (ModeUnset, r));
        match route with
        | RouteStop => mret None
        | RouteTo p target dst =>
            dst ← match dst with
                  | Some i => mret (Some i)
                  | None => openConn target (pConnectTimeout p)
                  end;
            match dst with
            | None => mret None
            | Some i =>
                ok ← sendHello (if bool_decide (mode = ModeUnset) then pMode p else mode) p target record h i;
                mret (if ok : bool then Some i else None)
            end
        end
  end.

(** *** HTTP *)

(** What the code uses of an [http.Request]; [reqText] is what [Write] sends. *)
Record httpRequest := mkHTTPRequest {
  reqHost : gostring;
  reqURLHost : gostring;
  reqURI : gostring;
  reqText : bytes;
}.

Definition requestHost (req : httpRequest) (originHost : gostring) : gostring :=
  if bool_decide (reqHost req = []) then
    if bool_decide (reqURLHost req = []) then originHost else reqURLHost req
  else reqHost req.

Definition handleHTTP (req : httpRequest) (p : Policy) (originHost target : gostring) (dst : option nat)
  : tM (option nat) :=
  let host := requestHost req originHost in
  if negb (pHttpStatus p =? 0) && negb (pHttpStatus p =? unsetInt) then
    tellClient (CliResponse (pHttpStatus p)
      (if (pHttpStatus p =? 301) || (pHttpStatus p =? 302)
       then Some ("https://" ++ host ++ reqURI req) else None));;
    mret None
  else
    dst ← match dst with
          | Some i => mret (Some i)
          | None => openConn target (pConnectTimeout p)
          end;
    match dst with
    | None => tellClient (CliResponse 502 None);; mret None
    | Some i =>
        e ← onConn i (write (reqText req));
        mret (if bool_decide (e = None) then Some i else None)
    end.

(** *** The tunnel *)

(** How a tunnel ends: closed at once (the client, and the upstream connection
    the handler still knows), or forwarding on a connection. *)
Inductive tunnelEnd :=
| TunnelClosed
| TunnelForward (dst : nat) (rest : bytes).

Definition closeTunnel (dst : option nat) : tM tunnelEnd :=
  match dst with Some i => closeConn i | None => mret tt end;; mret TunnelClosed.

Definition httpMethods : list gostring :=
  lit <$> ["GET "; "POST "; "HEAD "; "PUT "; "DELETE "; "OPTIONS "; "TRACE "; "PATCH "]%string.

(** The protocol step: the connection and the input left, or [None] when the
    handler returns [nil, false].  [readRequest] is [http.ReadRequest]: the
    request or its error, and how many bytes it took from the reader. *)
Definition firstPacket (readRequest : bytes → res httpRequest * nat) (p : Policy) (input : bytes)
    (originHost target originPort : gostring) (dst : option nat) : tM (option (option nat * bytes)) :=
  b0 ← liftT (checked (idx input 0));
  b1 ← liftT (checked (idx input 1));
  if b0 =? tlsRecordTypeHandshake then
    if b1 =? tlsMajorVersion then
      len ← liftT (checked (u16at input 3));
      let payloadLen := 5 + len in
      if zlen input <? payloadLen then mret None
      else
        r ← handleTLS (take (Z.to_nat payloadLen) input) p originHost target originPort dst;
        mret ((λ i, (Some i, drop (Z.to_nat payloadLen) input)) <$> r)
    else mret (Some (dst, input))
  else
    isHTTP ← liftT (checked (bytesHasPrefix (take 10 input) httpMethods));
    if isHTTP : bool then
      match readRequest input with
      | (Ok req, n) =>
          r ← handleHTTP req p originHost target dst;
          mret ((λ i, (Some i, drop n input)) <$> r)
      | (Err _, n) => mret (Some (dst, drop n input))
      | (Panic, _) => liftT Panic
      end
    else mret (Some (dst, input)).

(** [handleTunnel], up to the start of the two copying goroutines.  [input] is
    everything the client sends; [buffered] is how much of the rest the buffered
    reader already holds when it is drained. *)
Definition handleTunnel (readRequest : bytes → res httpRequest * nat) (buffered : nat) (p : Policy) (input : bytes)
    (originHost target originPort : gostring) (dst : option nat) : tM tunnelEnd :=
  if bool_decide (pMode p = ModeRaw) then
    dst' ← match dst with
           | Some i => mret (Some i)
           | None => openConn target (pConnectTimeout p)
           end;
    match dst' with
    | None => closeTunnel None
    | Some i => mret (TunnelForward i input)
    end
  else if (length input <? 10)%nat then closeTunnel dst
  else
    r ← firstPacket readRequest p input originHost target originPort dst;
    match r with
    | None => closeTunnel None
    | Some (dst, rest) =>
        dst' ← match dst with
               | Some i => mret (Some i)
               | None => openConn target (pConnectTimeout p)
               end;
        match dst' with
        | None => closeTunnel None
        | Some i =>
            if (0 <? buffered)%nat then
              e ← onConn i (write (take buffered rest));
              if bool_decide (e = None) then mret (TunnelForward i (drop buffered rest)) else closeTunnel (Some i)
            else mret (TunnelForward i rest)
        end
    end.
End Handlers.

(** *** Forwarding

    Two goroutines copy in the two directions.  One that ends well half-closes
    its destination and, if it is the second one to get there, closes both
    connections; one that fails closes both at once. *)

Inductive dir := Up | Down.

Inductive copyEnd := CopyError | CloseWriteError | CopyDone.

Record forwarding := mkFwd {
  fwDone : bool;
  fwClosed : bool;
  fwUp : option copyEnd;
  fwDown : option copyEnd;
}.

Definition fwStart : forwarding := mkFwd false false None None.

Definition ended (s : forwarding) (d : dir) : option copyEnd := match d with Up => fwUp s | Down => fwDown s end.

Definition setEnd (s : forwarding) (d : dir) (r : copyEnd) : forwarding :=
  match d with
  | Up => mkFwd (fwDone s) (fwClosed s) (Some r) (fwDown s)
  | Down => mkFwd (fwDone s) (fwClosed s) (fwUp s) (Some r)
  end.

(** The end of one goroutine. *)
Definition finishCopy (s : forwarding) (d : dir) (r : copyEnd) : forwarding :=
  let s' := setEnd s d r in
  match r with
  | CopyError | CloseWriteError => mkFwd (fwDone s') true (fwUp s') (fwDown s')
  | CopyDone => mkFwd true (fwClosed s' || fwDone s') (fwUp s') (fwDown s')
  end.

Inductive fwStep : forwarding → forwarding → Prop :=
| fw_finish s d r : ended s d = None → fwStep s (finishCopy s d r).

(** ** Theorems *)

(** A step that returns is followed by the rest. *)
Lemma bindT {A B} (m : tM A) (k : A → tM B) w a w' : m w = (Ok a, w') → (m ≫= k) w = k a w'.
Proof. intros E. unfold mbind, tM_bind. by rewrite E. Qed.

Section Facts.
Context `{GoUnicode}.
Context (t : Tables).
Context (getFromIPPool : gostring → res gostring).
Context (dnsResolve : gostring → DNSMode → Z → res (gostring * bool)).
Context (dialTCP : gostring → Z → res conn).
Context (fakeTTL : Policy → gostring → res Z).
Context (sch : splicing) (sockTTL : Z).

Notation handleTLS := (handleTLS t getFromIPPool dnsResolve dialTCP fakeTTL sch sockTTL).
Notation handleTunnel := (handleTunnel t getFromIPPool dnsResolve dialTCP fakeTTL sch sockTTL).
Notation firstPacket := (firstPacket t getFromIPPool dnsResolve dialTCP fakeTTL sch sockTTL).

(** Connection [i] goes to [target], is quiet, and its peer has read [b]. *)
Definition received (w : world) (i : nat) (target : gostring) (b : bytes) : Prop :=
  ∃ c, wConns w !! i = Some (target, c) ∧ quiet c ∧ inband (sent c) = b ∧ has_oob (sent c) = false.

Lemma onConn_write w i target b d : received w i target b →
  ∃ w', onConn i (write d) w = (Ok None, w') ∧ received w' i target (b ++ d) ∧ length (wConns w') = length (wConns w).
Proof.
  intros (c & Hc & Hq & Hb & Ho). destruct (emits_write d c Hq) as (c' & evs & E & Hq' & Hs & Hp).
  unfold onConn. rewrite Hc, E. eexists. split; [done|]. split; [|simpl; apply length_insert].
  exists c'. simpl. rewrite list_lookup_insert_eq by (by eapply lookup_lt_Some). split_and!; [done|done|..].
  - rewrite Hs. destruct (Hp []) as [E1 E2]. cbn in E1, E2. rewrite !app_nil_r in E1, E2.
    rewrite inband_app_plain by done. by rewrite Hb, E1, app_nil_r.
  - rewrite Hs, has_oob_app, Ho. destruct (Hp []) as [_ E2]. cbn in E2. by rewrite app_nil_r in E2.
Qed.

Lemma openConn_quiet w target timeout c : dialTCP target timeout = Ok c → quiet c → sent c = [] →
  ∃ w', openConn dialTCP target timeout w = (Ok (Some (length (wConns w))), w') ∧
    received w' (length (wConns w)) target [].
Proof.
  intros Hd Hq Hs. unfold openConn. rewrite Hd. eexists. split; [done|]. exists c. simpl.
  rewrite lookup_app_r, Nat.sub_diag by lia. rewrite Hs. done.
Qed.

(** A policy that leaves the traffic alone. *)
Definition passive (p : Policy) : Prop :=
  pMode p = ModeDirect ∧ IsTrue (pTLS13Only p) = false ∧
  (pSniffOverrideMode p = SniffOverrideUnset ∨ pSniffOverrideMode p = SniffOverrideOff).

(** The connection the handler is given, or the one it gets by dialling. *)
Definition upstream (w : world) (p : Policy) (target : gostring) (dst : option nat) (c : conn) : Prop :=
  quiet c ∧ sent c = [] ∧
  match dst with
  | None => dialTCP target (pConnectTimeout p) = Ok c
  | Some j => wConns w !! j = Some (target, c)
  end.

Lemma upstream_ready w p target dst c : upstream w p target dst c →
  ∃ i w1, match dst with Some i => mret (Some i) | None => openConn dialTCP target (pConnectTimeout p) end w = (Ok (Some i), w1) ∧
    received w1 i target [].
Proof.
  intros (Hq & Hs & Hd). destruct dst as [j|].
  - exists j, w. split; [done|]. exists c. by rewrite Hs.
  - destruct (openConn_quiet w target (pConnectTimeout p) c Hd Hq Hs) as (w1 & E & Hr). by eexists _, w1.
Qed.

Lemma handleTLS_passive record p originHost target originPort dst w c :
  wf_bytes record → 5 ≤ zlen record → passive p → upstream w p target dst c →
  ∃ h, parseClientHello record = Some h ∧
    ∃ r w', handleTLS record p originHost target originPort dst w = (Ok r, w') ∧
      if bool_decide (helloErr h = None) then ∃ i, r = Some i ∧ received w' i target record else r = None.
Proof.
  intros Hwf Hl (Hm & H13 & Hov) Hup. unfold Tunnel.handleTLS.
  destruct (parseClientHello_sound record Hwf Hl) as (h & -> & Hin & _). exists h. split; [done|].
  rewrite (bindT _ _ w h w) by done. destruct (helloErr h) as [e|]; [by eexists _, _|].
  rewrite (bool_decide_eq_true_2 (None = None)) by done. rewrite Hm, H13. cbn [andb]. rewrite bool_decide_eq_false_2 by done.
  destruct (upstream_ready w p target dst c Hup) as (i & w1 & E1 & H1).
  destruct (onConn_write w1 _ target [] record H1) as (w2 & E2 & H2 & _).
  assert (∀ mode, mode = ModeDirect ∨ mode = ModeUnset →
    (dst ← match dst with Some i => mret (Some i) | None => openConn dialTCP target (pConnectTimeout p) end;
     match dst with
     | None => mret None
     | Some i => ok ← sendHello fakeTTL sch sockTTL (if bool_decide (mode = ModeUnset) then pMode p else mode) p target record h i;
                 mret (if ok : bool then Some i else None)
     end) w = (Ok (Some i), w2)) as Hrun.
  { intros mode Hmode. rewrite (bindT _ _ _ _ _ E1).
    assert ((if bool_decide (mode = ModeUnset) then pMode p else mode) = ModeDirect) as -> by (rewrite Hm; by destruct Hmode as [->| ->]).
    cbn [sendHello]. rewrite (bindT _ _ w1 true w2); [done|]. by rewrite (bindT _ _ _ _ _ E2). }
  exists (Some i), w2. split; [|by exists i]. destruct (Z.leb_spec (sniStart h) 0); [|destruct (hasECH h)].
  - rewrite (bindT _ _ w (ModeDirect, RouteTo p target dst) w) by done. cbv beta iota. by rewrite Hrun by (by left).
  - rewrite (bindT _ _ w (ModeDirect, RouteTo p target dst) w) by done. cbv beta iota. by rewrite Hrun by (by left).
  - destruct (slice record (sniStart h) (sniStart h + sniLen h)) as [sni|] eqn:Es.
    + rewrite (bindT _ _ w (ModeUnset, RouteTo p target dst) w); [cbv beta iota; by rewrite Hrun by (by right)|].
      rewrite (bindT _ _ w sni w) by done. case_bool_decide; [done|].
      unfold sniffOverride. by destruct Hov as [->| ->].
    + apply slice_None in Es. unfold nameInside, tlsRecordHeaderLen in Hin. lia.
Qed.

(** Whether the input opens like an HTTP request; a ClientHello does not. *)
Definition looksHTTP (input : bytes) : bool :=
  negb (bool_decide (idx input 0 = Some tlsRecordTypeHandshake)) &&
  bool_decide (bytesHasPrefix (take 10 input) httpMethods = Some true).

(** What goes on to the destination of what the client sends: everything, but
    for a request of HTTP, which is parsed and written anew ([net/http] decides
    how), and what a failed attempt to parse one has taken from the reader. *)
Definition relayed (readRequest : bytes → res httpRequest * nat) (input : bytes) : bytes :=
  if looksHTTP input then
    match readRequest input with
    | (Ok req, n) => reqText req ++ drop n input
    | (_, n) => drop n input
    end
  else input.

(** The inputs a policy that leaves traffic alone still turns away: less than ten
    bytes, a TLS record that is not complete or no ClientHello, and a request of
    HTTP when the policy answers those itself. *)
Definition turnedAway (readRequest : bytes → res httpRequest * nat) (p : Policy) (input : bytes) : bool :=
  (length input <? 10)%nat ||
  (if bool_decide (idx input 0 = Some tlsRecordTypeHandshake) then
     bool_decide (idx input 1 = Some tlsMajorVersion) &&
     match u16at input 3 with
     | Some len => (zlen input <? 5 + len) ||
         match parseClientHello (take (Z.to_nat (5 + len)) input) with
         | Some h => negb (bool_decide (helloErr h = None))
         | None => true
         end
     | None => true
     end
   else looksHTTP input &&
     match readRequest input with
     | (Ok _, _) => negb (pHttpStatus p =? 0) && negb (pHttpStatus p =? unsetInt)
     | _ => false
     end).

Lemma bytesHasPrefix_total b prefixes :
  Forall (λ q, zlen q ≤ zlen b) prefixes → is_Some (bytesHasPrefix b prefixes).
Proof.
  induction 1 as [|q l Hq _ IH]; [by eexists|]. cbn [bytesHasPrefix]. pose proof (zlen_nonneg q).
  rewrite slice_0 by lia. cbn [mbind option_bind]. case_bool_decide; [by eexists|done].
Qed.

Lemma httpMethods_total input : (10 ≤ length input)%nat → ∃ b, bytesHasPrefix (take 10 input) httpMethods = Some b.
Proof.
  intros Hl. apply bytesHasPrefix_total. assert (zlen (take 10 input) = 10) as -> by (unfold zlen; rewrite length_take; lia).
  by_decide.
Qed.

Lemma handleHTTP_passive req p originHost target dst w c :
  upstream w p target dst c →
  ∃ r w', handleHTTP dialTCP req p originHost target dst w = (Ok r, w') ∧
    if negb (pHttpStatus p =? 0) && negb (pHttpStatus p =? unsetInt) then r = None
    else ∃ i, r = Some i ∧ received w' i target (reqText req).
Proof.
  intros Hup. unfold handleHTTP. destruct (negb (pHttpStatus p =? 0) && negb (pHttpStatus p =? unsetInt)); [by eexists _, _|].
  destruct (upstream_ready w p target dst c Hup) as (i & w1 & E1 & H1).
  destruct (onConn_write w1 _ target [] (reqText req) H1) as (w2 & E2 & H2 & _).
  exists (Some i), w2. split; [|by exists i]. rewrite (bindT _ _ _ _ _ E1). cbv beta iota. by rewrite (bindT _ _ _ _ _ E2).
Qed.

(** The protocol step: it stops, or leaves a connection whose peer has read all
    that is relayed but the rest. *)
Lemma firstPacket_passive readRequest p input originHost target originPort dst w c :
  wf_bytes input → (10 ≤ length input)%nat → passive p → upstream w p target dst c → fst (readRequest input) ≠ Panic →
  ∃ r w', firstPacket readRequest p input originHost target originPort dst w = (Ok r, w') ∧
    if turnedAway readRequest p input then r = None
    else ∃ d rest, r = Some (d, rest) ∧
      ((∃ i b, d = Some i ∧ received w' i target b ∧ b ++ rest = relayed readRequest input) ∨
       (d = dst ∧ w' = w ∧ rest = relayed readRequest input)).
Proof.
  intros Hwf Hl Hp Hup Hrd. unfold Tunnel.firstPacket, turnedAway, relayed.
  assert (10 ≤ zlen input) as Hz by (unfold zlen; lia).
  destruct (Nat.ltb_spec (length input) 10); [lia|]. cbn [orb].
  destruct (idx_is_Some input 0 ltac:(lia)) as [b0 E0]. destruct (idx_is_Some input 1 ltac:(lia)) as [b1 E1].
  unfold looksHTTP. rewrite E0, E1. rewrite (bindT _ _ w b0 w) by done. rewrite (bindT _ _ w b1 w) by done.
  destruct (Z.eqb_spec b0 tlsRecordTypeHandshake) as [->|N0].
  - rewrite bool_decide_eq_true_2 by done. cbn [negb andb].
    destruct (Z.eqb_spec b1 tlsMajorVersion) as [->|N1].
    + rewrite bool_decide_eq_true_2 by done. cbn [andb].
      destruct (u16at_Some input 3 ltac:(lia) ltac:(lia)) as [len El]. rewrite El. apply u16at_nonneg in El; [|done].
      rewrite (bindT _ _ w len w) by done. destruct (Z.ltb_spec (zlen input) (5 + len)); [by eexists _, _|]. cbn [orb].
      destruct (handleTLS_passive (take (Z.to_nat (5 + len)) input) p originHost target originPort dst w c)
        as (h & -> & r & w' & E & Hr); [by apply Forall_take|unfold zlen in *; rewrite length_take; lia|done..|].
      rewrite (bindT _ _ _ _ _ E). eexists _, w'. split; [done|]. case_bool_decide; cbn [negb]; [|by subst].
      destruct Hr as (i & -> & Hr). eexists _, _. split; [done|]. left. eexists _, _. split_and!; [done|exact Hr|apply take_drop].
    + rewrite bool_decide_eq_false_2 by congruence. cbn [andb]. eexists _, w. split; [done|]. eexists _, _. split; [done|]. by right.
  - rewrite bool_decide_eq_false_2 by congruence. cbn [negb andb].
    destruct (httpMethods_total input Hl) as [b Eb]. rewrite Eb. rewrite (bindT _ _ w b w) by done.
    destruct b; [rewrite bool_decide_eq_true_2 by done|rewrite bool_decide_eq_false_2 by done]; cbn [andb].
    + destruct (readRequest input) as [[req|e|] n]; [| |done].
      * destruct (handleHTTP_passive req p originHost target dst w c Hup) as (r & w' & E & Hr).
        rewrite (bindT _ _ _ _ _ E). eexists _, w'. split; [done|].
        destruct (negb _ && negb _); [by subst|]. destruct Hr as (i & -> & Hr). eexists _, _. split; [done|].
        left. by eexists _, _.
      * eexists _, w. split; [done|]. eexists _, _. split; [done|]. by right.
    + eexists _, w. split; [done|]. eexists _, _. split; [done|]. by right.
Qed.

(** C20: a policy that leaves traffic alone (mode direct, no override by the
    server name, not restricted to TLS 1.3) does, on a connection given or to be
    dialled whose calls do not fail: the handler returns; it turns away exactly
    the inputs of [turnedAway]; for any other, what the destination has read
    followed by what is still to be copied is exactly what the client sends,
    a request of HTTP being replaced by what [net/http] writes for it
    ([relayed]). *)
Theorem tunnel_transparent readRequest buffered p input originHost target originPort dst w c :
  wf_bytes input → passive p → upstream w p target dst c → fst (readRequest input) ≠ Panic →
  ∃ e w', handleTunnel readRequest buffered p input originHost target originPort dst w = (Ok e, w') ∧
    if turnedAway readRequest p input then e = TunnelClosed
    else ∃ i rest b, e = TunnelForward i rest ∧ received w' i target b ∧ b ++ rest = relayed readRequest input.
Proof.
  intros Hwf Hp Hup Hrd. pose proof Hp as (Hm & _ & _). unfold Tunnel.handleTunnel.
  rewrite Hm, bool_decide_eq_false_2 by done. destruct (Nat.ltb_spec (length input) 10) as [Hs|Hl].
  { assert (turnedAway readRequest p input = true) as -> by (unfold turnedAway; by destruct (Nat.ltb_spec (length input) 10); [|lia]).
    unfold closeTunnel. destruct dst; by eexists _, _. }
  destruct (firstPacket_passive readRequest p input originHost target originPort dst w c Hwf Hl Hp Hup Hrd) as (r & w1 & E & Hr).
  rewrite (bindT _ _ _ _ _ E). destruct (turnedAway readRequest p input); [subst; by eexists _, _|].
  destruct Hr as (d & rest1 & -> & Hr).
  assert (∃ w2 k b, match d with Some i => mret (Some i) | None => openConn dialTCP target (pConnectTimeout p) end w1 = (Ok (Some k), w2)
      ∧ received w2 k target b ∧ b ++ rest1 = relayed readRequest input) as (w2 & k & b & E2 & Hr2 & Hb).
  { destruct Hr as [(k & b & -> & Hk & Hb)|(-> & -> & ->)]; [by exists w1, k, b|].
    destruct (upstream_ready w p target dst c Hup) as (k & w2 & E2 & H2). by exists w2, k, []. }
  rewrite (bindT _ _ _ _ _ E2). cbv beta iota. destruct (0 <? buffered)%nat.
  - destruct (onConn_write w2 k target b (take buffered rest1) Hr2) as (w3 & E3 & Hr3 & _).
    rewrite (bindT _ _ _ _ _ E3). rewrite bool_decide_eq_true_2 by done. eexists _, w3. split; [done|].
    eexists _, _, _. split_and!; [done|exact Hr3|]. by rewrite <- app_assoc, take_drop.
  - eexists _, w2. split; [done|]. by eexists _, _, _.
Qed.

(** A server name whose rule blocks it is not contacted: when sniffing may
    override the policy and the ClientHello names a host with a [block] rule,
    the handler stops, and no connection is opened or written to. *)
Theorem blocked_name_not_contacted record h sni dp p originHost target originPort dst w :
  parseClientHello record = Some h → helloErr h = None → 0 < sniStart h → hasECH h = false →
  slice record (sniStart h) (sniStart h + sniLen h) = Some sni → originHost ≠ sni →
  Domain.Find (domainMatcher t) sni = Some dp → pMode dp = ModeBlock → isIPText sni = false →
  (pSniffOverrideMode p = SniffOverrideRouteOnly ∨ pSniffOverrideMode p = SniffOverrideAlways ∨
   pSniffOverrideMode p = SniffOverridePolicyExists) →
  length (prtVer h) = 2%nat →
  ∃ w', handleTLS record p originHost target originPort dst w = (Ok None, w') ∧ wConns w' = wConns w.
Proof.
  intros Hparse He Hst Hech Hsni Hne Hfind Hblock Hip Hov Hver. unfold Tunnel.handleTLS. rewrite Hparse.
  rewrite (bindT _ _ w h w) by done. rewrite He.
  assert (∀ desc level, ∃ w', (sendTLSAlert (prtVer h) desc level;; mret None) w = (Ok (None : option nat), w') ∧ wConns w' = wConns w) as Halert.
  { intros desc level. destruct (prtVer h) as [|v0 [|v1 [|? ?]]]; try done. by eexists. }
  case_bool_decide; [apply Halert|]. destruct (IsTrue (pTLS13Only p) && negb (hasKeyShare h)); [apply Halert|].
  destruct (Z.leb_spec (sniStart h) 0); [lia|]. rewrite Hech, Hsni.
  rewrite (bindT _ _ w (ModeUnset, RouteStop) w); [by exists w|].
  rewrite (bindT _ _ w sni w) by done. rewrite bool_decide_eq_false_2 by done.
  rewrite (bindT _ _ w RouteStop w); [done|]. unfold sniffOverride, genPolicy, genPolicyDomain. rewrite Hip, Hfind. cbn [orb].
  destruct Hov as [-> |[-> | ->]]; cbn [fmap option_fmap option_map]; rewrite ?Hblock;
    rewrite !bool_decide_eq_true_2 by done; done.
Qed.

(** A ClientHello handled under a policy whose mode is not set (the default
    policy, used unmerged) is lost: the handler reports success, but nothing is
    written to the connection. *)
Theorem unset_mode_loses_hello record h p originHost target originPort i w :
  parseClientHello record = Some h → helloErr h = None → 0 < sniStart h → hasECH h = false →
  slice record (sniStart h) (sniStart h + sniLen h) = Some originHost → IsTrue (pTLS13Only p) = false →
  pMode p = ModeUnset →
  handleTLS record p originHost target originPort (Some i) w = (Ok (Some i), w).
Proof.
  intros Hparse He Hst Hech Hsni H13 Hm. unfold Tunnel.handleTLS. rewrite Hparse.
  rewrite (bindT _ _ w h w) by done. rewrite He, Hm, H13. cbn [andb]. rewrite bool_decide_eq_false_2 by done.
  destruct (Z.leb_spec (sniStart h) 0); [lia|]. rewrite Hech, Hsni.
  rewrite (bindT _ _ w (ModeUnset, RouteTo p target (Some i)) w); [|rewrite (bindT _ _ w originHost w) by done; by rewrite bool_decide_eq_true_2].
  cbv beta iota. rewrite (bindT _ _ w (Some i) w) by done. rewrite Hm. done.
Qed.

(** When a TLS tunnel is refused, the upstream connection that was already
    open is not closed: the handler overwrites its only reference to it. *)
Theorem refused_tunnel_leaks readRequest buffered p input originHost target originPort i w w' :
  pMode p = ModeTLSAlert → (10 ≤ length input)%nat → idx input 0 = Some tlsRecordTypeHandshake → idx input 1 = Some tlsMajorVersion →
  handleTunnel readRequest buffered p input originHost target originPort (Some i) w = (Ok TunnelClosed, w') →
  wClosed w' = wClosed w.
Proof.
  intros Hm Hl H0 H1. unfold Tunnel.handleTunnel. rewrite Hm, bool_decide_eq_false_2 by done.
  destruct (Nat.ltb_spec (length input) 10); [lia|]. unfold mbind at 1, tM_bind at 1, Tunnel.firstPacket.
  rewrite H0, H1. rewrite (bindT _ _ w 22 w) by done. rewrite (bindT _ _ w 3 w) by done. cbn [Z.eqb tlsRecordTypeHandshake tlsMajorVersion Pos.eqb].
  destruct (u16at input 3) as [len|]; [|done]. rewrite (bindT _ _ w len w) by done.
  destruct (zlen input <? 5 + len); [by intros [= <-]|].
  assert (∀ rec, match handleTLS rec p originHost target originPort (Some i) w with
                 | (Ok r, w1) => r = None ∧ wClosed w1 = wClosed w | _ => True end) as Ht.
  { intros rec. unfold Tunnel.handleTLS. destruct (parseClientHello rec) as [h|]; [|done]. rewrite (bindT _ _ w h w) by done.
    destruct (helloErr h); [done|]. rewrite Hm, bool_decide_eq_true_2 by done. unfold sendTLSAlert.
    destruct (tlsAlertRecord _ _ _) as [a|]; [|done]. done. }
  specialize (Ht (take (Z.to_nat (5 + len)) input)). destruct (handleTLS _ _ _ _ _ _ _) as [[r|e|] w1] eqn:E.
  - rewrite (bindT _ _ _ _ _ E). destruct Ht as [-> <-]. by intros [= <-].
  - unfold mbind at 1, tM_bind at 1. by rewrite E.
  - unfold mbind at 1, tM_bind at 1. by rewrite E.
Qed.
End Facts.

(** ** Forwarding ends *)

Definition endedWell (s : forwarding) (d : dir) : Prop := ended s d = Some CopyDone.
Definition endedBadly (s : forwarding) (d : dir) : Prop := ended s d = Some CopyError ∨ ended s d = Some CloseWriteError.

Definition fwInv (s : forwarding) : Prop :=
  (fwDone s = true ↔ endedWell s Up ∨ endedWell s Down) ∧
  (fwClosed s = true ↔ endedBadly s Up ∨ endedBadly s Down ∨ (endedWell s Up ∧ endedWell s Down)).

Lemma fwStep_inv s s' : fwStep s s' → fwInv s → fwInv s'.
Proof.
  intros [s0 d r Hd] [I1 I2]. destruct s0 as [dn cl up down]. unfold fwInv, endedWell, endedBadly in *.
  destruct d, r; simpl in *; subst; rewrite ?orb_true_iff; naive_solver.
Qed.

(** In every interleaving of the two copying goroutines the connections are
    closed exactly when a direction has failed or both have ended: never while
    one is still copying after the other ended well, and always in the end. *)
Theorem forwarding_closes s :
  rtc fwStep fwStart s →
  (fwClosed s = true ↔ endedBadly s Up ∨ endedBadly s Down ∨ (endedWell s Up ∧ endedWell s Down)).
Proof.
  intros Hr. enough (fwInv s) as [_ ?] by done.
  remember fwStart as s0 eqn:E. assert (fwInv s0) as H0 by (subst; unfold fwInv, endedWell, endedBadly; simpl; naive_solver).
  clear E. induction Hr as [|x y z Hxy _ IH]; [done|]. by eapply IH, fwStep_inv.
Qed.

Lemma forwarding_closes_witness :
  let s := finishCopy (finishCopy fwStart Down CopyDone) Up CopyDone in
  fwClosed (finishCopy fwStart Down CopyDone) = false ∧
  (fwClosed s = true ↔ endedBadly s Up ∨ endedBadly s Down ∨ (endedWell s Up ∧ endedWell s Down)).
Proof.
  split; [reflexivity|]. apply forwarding_closes.
  eapply rtc_l; [apply (fw_finish _ Down CopyDone); reflexivity|].
  eapply rtc_l; [apply (fw_finish _ Up CopyDone); reflexivity|]. apply rtc_refl.
Defined.

(** ** Witnesses *)

Definition demoPolicy (mode : Mode) (sniff : SniffOverrideMode) : Policy :=
  mkPolicy BoolUnset sniff DNSModePreferIPv4 (-1) (5 * second) unsetString unsetString [] (-1) (-1) BoolUnset mode
    4 2 BoolUnset BoolUnset BoolUnset None 0 (-1) 0 0 0 (-1) (-1).

Definition demoTables : Tables :=
  loadTables (demoPolicy ModeTLSRF SniffOverrideOff) [] [(lit "example.com", demoPolicy ModeBlock SniffOverrideUnset)] [] [] [].

Definition demoDial : gostring → Z → res conn := λ _ _, Ok freshConn.
Definition noTTL : Policy → gostring → res Z := λ _ _, fail "ttl probing not configured".
Definition noHTTP : bytes → res httpRequest * nat := λ _, (fail "malformed", 0%nat).
Definition demoWorld : world := mkWorld [] [] [].

Lemma freshConn_quiet : quiet freshConn.
Proof. split; [reflexivity|]. intros k. by exists 0. Qed.

Definition demoInput : bytes := encodeHello demoHello ++ lit "more".

(** A parser of requests that takes a fixed request of 18 bytes and writes it
    back with a header. *)
Definition demoHTTP : bytes → res httpRequest * nat := λ _,
  (Ok (mkHTTPRequest "a" "" "/" (lit "GET / HTTP/1.1 Host: a")), 18%nat).

Lemma tunnel_transparent_witness :
  (∃ e w', handleTunnel demoTables noPools demoDNS demoDial noTTL spliceAtOnce 64 noHTTP 2 (demoPolicy ModeDirect SniffOverrideOff)
             demoInput "example.com" "93.184.216.34:443" "443" None demoWorld = (Ok e, w') ∧
     ∃ i rest b, e = TunnelForward i rest ∧ received w' i "93.184.216.34:443" b ∧ b ++ rest = demoInput) ∧
  (∃ e w', handleTunnel demoTables noPools demoDNS demoDial noTTL spliceAtOnce 64 demoHTTP 1 (demoPolicy ModeDirect SniffOverrideOff)
             (lit "GET / HTTP/1.1....body") "a" "1.2.3.4:80" "80" (Some 0%nat) (mkWorld [] [(lit "1.2.3.4:80", freshConn)] []) = (Ok e, w') ∧
     ∃ i rest b, e = TunnelForward i rest ∧ received w' i "1.2.3.4:80" b ∧ b ++ rest = lit "GET / HTTP/1.1 Host: abody").
Proof.
  split.
  - apply (tunnel_transparent demoTables noPools demoDNS demoDial noTTL spliceAtOnce 64 noHTTP 2
      (demoPolicy ModeDirect SniffOverrideOff) demoInput "example.com" "93.184.216.34:443" "443" None demoWorld freshConn).
    + by_decide.
    + split_and!; [reflexivity|reflexivity|by right].
    + split_and!; [apply freshConn_quiet..|reflexivity|reflexivity].
    + discriminate.
  - apply (tunnel_transparent demoTables noPools demoDNS demoDial noTTL spliceAtOnce 64 demoHTTP 1
      (demoPolicy ModeDirect SniffOverrideOff) (lit "GET / HTTP/1.1....body") "a" "1.2.3.4:80" "80" (Some 0%nat)
      (mkWorld [] [(lit "1.2.3.4:80", freshConn)] []) freshConn).
    + by_decide.
    + split_and!; [reflexivity|reflexivity|by right].
    + split_and!; [apply freshConn_quiet..|reflexivity|reflexivity].
    + discriminate.
Defined.

Lemma blocked_name_not_contacted_witness :
  ∃ w', handleTLS demoTables noPools demoDNS demoDial noTTL spliceAtOnce 64 (encodeHello demoHello)
          (demoPolicy ModeTLSRF SniffOverrideRouteOnly) "1.2.3.4" "1.2.3.4:443" "443" None demoWorld = (Ok None, w') ∧
    wConns w' = [].
Proof.
  edestruct (parseClientHello (encodeHello demoHello)) as [h|] eqn:Eh; [|vm_compute in Eh; discriminate Eh].
  apply (blocked_name_not_contacted demoTables noPools demoDNS demoDial noTTL spliceAtOnce 64 (encodeHello demoHello) h
    (lit "example.com") (demoPolicy ModeBlock SniffOverrideUnset));
    try exact Eh; vm_compute in Eh; injection Eh as <-; try (vm_compute; reflexivity); try discriminate.
  by left.
Defined.

Lemma unset_mode_loses_hello_witness :
  handleTLS demoTables noPools demoDNS demoDial noTTL spliceAtOnce 64 (encodeHello demoHello)
    (demoPolicy ModeUnset SniffOverrideOff) "example.com" "1.2.3.4:443" "443" (Some 0%nat) demoWorld = (Ok (Some 0%nat), demoWorld).
Proof.
  edestruct (parseClientHello (encodeHello demoHello)) as [h|] eqn:Eh; [|vm_compute in Eh; discriminate Eh].
  apply (unset_mode_loses_hello demoTables noPools demoDNS demoDial noTTL spliceAtOnce 64 (encodeHello demoHello) h);
    try exact Eh; vm_compute in Eh; injection Eh as <-; vm_compute; reflexivity.
Defined.

Lemma refused_tunnel_leaks_witness :
  ∃ w', handleTunnel demoTables noPools demoDNS demoDial noTTL spliceAtOnce 64 noHTTP 0 (demoPolicy ModeTLSAlert SniffOverrideOff)
          demoInput "example.com" "1.2.3.4:443" "443" (Some 0%nat) (mkWorld [] [(lit "1.2.3.4:443", freshConn)] []) =
        (Ok TunnelClosed, w') ∧ wClosed w' = [].
Proof.
  eexists. match goal with |- _ = (_, ?w) ∧ _ =>
    assert (handleTunnel demoTables noPools demoDNS demoDial noTTL spliceAtOnce 64 noHTTP 0 (demoPolicy ModeTLSAlert SniffOverrideOff)
      demoInput "example.com" "1.2.3.4:443" "443" (Some 0%nat) (mkWorld [] [(lit "1.2.3.4:443", freshConn)] []) = (Ok TunnelClosed, w)) as E
      by (vm_compute; reflexivity)
  end.
  split; [exact E|].
  apply (refused_tunnel_leaks demoTables noPools demoDNS demoDial noTTL spliceAtOnce 64 noHTTP 0
    (demoPolicy ModeTLSAlert SniffOverrideOff) demoInput "example.com" "1.2.3.4:443" "443" 0
    (mkWorld [] [(lit "1.2.3.4:443", freshConn)] [])); [reflexivity|vm_compute; lia|reflexivity|reflexivity|exact E].
Defined.
