(* ===== verification/Float64.v ===== *)
(** * IEEE 754 double precision

    Go's [float64] as the program uses it (core/ippool.go): the arithmetic of the
    Standard Library's [SpecFloat] at 53 bits, comparison by value, and the
    conversion to an integer.  A conversion whose result Go leaves open (a NaN,
    an infinity, a value outside [int64]) is [None].  The operations of one
    expression are rounded one by one; Go lets a compiler fuse a multiplication
    and an addition, which the theorems do not depend on: they use only that a
    result is not a NaN. *)

From Stdlib Require Import SpecFloat.
From S2P Require Import Prelude.
Local Open Scope Z_scope.

Abbreviation float64 := spec_float.

Definition fadd : float64 → float64 → float64 := SFadd 53 1024.
Definition fsub : float64 → float64 → float64 := SFsub 53 1024.
Definition fmul : float64 → float64 → float64 := SFmul 53 1024.
Definition fdiv : float64 → float64 → float64 := SFdiv 53 1024.

(** [float64(x)] of an integer. *)
Definition of_int (z : Z) : float64 := binary_normalize 53 1024 z 0 false.

(** The value of a finite number in units of the smallest subnormal, 2^-1074. *)
Definition units (x : float64) : Z :=
  match x with
  | S754_finite s m e => cond_Zopp s (Z.shiftl (Z.pos m) (e + 1074))
  | _ => 0
  end.

(** [x < y]: false when either is a NaN. *)
Definition fltb (x y : float64) : bool :=
  match x, y with
  | S754_nan, _ | _, S754_nan => false
  | S754_infinity s, S754_infinity s' => s && negb s'
  | S754_infinity s, _ => s
  | _, S754_infinity s' => negb s'
  | _, _ => units x <? units y
  end.

Definition feqb (x y : float64) : bool :=
  match x, y with
  | S754_nan, _ | _, S754_nan => false
  | S754_infinity s, S754_infinity s' => eqb s s'
  | S754_infinity _, _ | _, S754_infinity _ => false
  | _, _ => units x =? units y
  end.

(** [int(x)]: the fraction is dropped. *)
Definition to_int (x : float64) : option Z :=
  match x with
  | S754_zero _ => Some 0
  | S754_finite _ _ _ =>
      let n := Z.quot (units x) (2 ^ 1074) in
      if (- 2 ^ 63 <=? n) && (n <? 2 ^ 63) then Some n else None
  | _ => None
  end.

Definition is_nan (x : float64) : bool := match x with S754_nan => true | _ => false end.

(** ** Which operations cannot give a NaN *)

Lemma shr_1_nonneg r : 0 ≤ shr_m r → 0 ≤ shr_m (shr_1 r).
Proof. destruct r as [[|[p|p|]|p] ? ?]; simpl; lia. Qed.

Lemma iter_shr_1_nonneg p r : 0 ≤ shr_m r → 0 ≤ shr_m (@SpecFloat.iter_pos shr_record shr_1 p r).
Proof. revert r. induction p; intros r Hr; simpl; auto using shr_1_nonneg. Qed.

Lemma shr_fexp_nonneg m e l : 0 ≤ m → 0 ≤ shr_m (shr_fexp 53 1024 m e l).1.
Proof.
  intros Hm. unfold shr_fexp, shr.
  assert (0 ≤ shr_m (shr_record_of_loc m l)) by (destruct l as [|[]]; done).
  destruct (_ - e); simpl; auto using iter_shr_1_nonneg.
Qed.

Lemma round_nonneg m l : 0 ≤ m → 0 ≤ round_nearest_even m l.
Proof. unfold round_nearest_even. destruct l as [|[]]; try destruct (Z.even m); lia. Qed.

Lemma round_aux_not_nan s m e l : 0 ≤ m → is_nan (binary_round_aux 53 1024 s m e l) = false.
Proof.
  intros Hm. unfold binary_round_aux.
  pose proof (shr_fexp_nonneg m e l Hm) as H1. destruct (shr_fexp _ _ m e l) as [r1 e1]. simpl in H1.
  pose proof (shr_fexp_nonneg _ e1 loc_Exact (round_nonneg _ (loc_of_shr_record r1) H1)) as H2.
  destruct (shr_fexp _ _ _ e1 _) as [r2 e2]. simpl in H2.
  destruct (shr_m r2); [done| |lia]. by destruct (e2 <=? _).
Qed.

Lemma normalize_not_nan m e s : is_nan (binary_normalize 53 1024 m e s) = false.
Proof.
  unfold binary_normalize, binary_round. destruct m as [|p|p]; [done| |];
    destruct (shl_align _ _ _); apply round_aux_not_nan; lia.
Qed.

Lemma fadd_not_nan x y :
  is_nan x = false → is_nan y = false →
  match x, y with S754_infinity s, S754_infinity s' => s = s' | _, _ => True end →
  is_nan (fadd x y) = false.
Proof.
  unfold fadd, SFadd. destruct x as [[]|[]| |], y as [[]|[]| |]; try done;
    intros; apply normalize_not_nan.
Qed.

Lemma fmul_not_nan x y :
  is_nan x = false → is_nan y = false → feqb y (S754_zero false) = false →
  match y with S754_infinity _ => False | _ => True end →
  is_nan (fmul x y) = false.
Proof.
  unfold fmul, SFmul. destruct x as [[]|[]| |], y as [[]|[]| |]; try done;
    intros; apply round_aux_not_nan; lia.
Qed.

Lemma fdiv_not_nan x y :
  match x with S754_finite _ _ _ => True | _ => False end →
  is_nan y = false → is_nan (fdiv x y) = false.
Proof.
  unfold fdiv, SFdiv. destruct x as [| | |s m e], y as [| | |s' m' e']; try done. intros _ _.
  destruct (SFdiv_core_binary _ _ _ _ _ _) as [[q e2] l] eqn:E. apply round_aux_not_nan.
  unfold SFdiv_core_binary in E. set (z := match _ with Z0 => _ | _ => _ end) in E.
  assert (0 ≤ z) as Hz.
  { subst z. destruct (_ - _ - _); [done| |done]. rewrite Z.shiftl_nonneg. lia. }
  pose proof (Z_div_mod z (Z.pos m') ltac:(lia)) as Hd.
  destruct (Z.div_eucl z (Z.pos m')) as [q' r]. injection E as -> _ _. nia.
Qed.

(** A number between two integers converts to one between them. *)
Lemma to_int_between x (lo hi : Z) :
  0 < lo → hi < 2 ^ 63 → match x with S754_finite _ _ _ => True | _ => False end →
  lo * 2 ^ 1074 ≤ units x ≤ hi * 2 ^ 1074 →
  ∃ n, to_int x = Some n ∧ lo ≤ n ≤ hi.
Proof.
  intros Hlo Hhi Hfin [H1 H2].
  assert (0 < 2 ^ 1074) as Hp by (apply Z.pow_pos_nonneg; lia).
  destruct x as [| | |s m e]; try done. unfold to_int.
  set (u := units _) in *. set (q := 2 ^ 1074) in *.
  assert (0 ≤ u) by nia.
  assert (lo ≤ u ÷ q ≤ hi) as Hb.
  { rewrite Z.quot_div_nonneg by lia. split.
    - apply Z.div_le_lower_bound; lia.
    - apply Z.div_le_upper_bound; lia. }
  exists (u ÷ q). split; [|done].
  assert (- 2 ^ 63 ≤ 0) by (vm_compute; discriminate).
  destruct (Z.leb_spec (- 2 ^ 63) (u ÷ q)); [|lia].
  destruct (Z.ltb_spec (u ÷ q) (2 ^ 63)); [done|lia].
Qed.

(** ** Bounds

    [fbound k x] says that [x] is finite and at most [2^k] in size. *)

Definition fbound (k : Z) (x : float64) : Prop :=
  match x with
  | S754_zero _ => True
  | S754_finite _ m e => -1074 ≤ e ≤ 971 ∧ Z.pos m * 2 ^ (e + 1074) ≤ 2 ^ (k + 1074)
  | _ => False
  end.

Lemma digits2_pos_log2 p : Z.pos (digits2_pos p) = Z.log2 (Z.pos p) + 1.
Proof.
  induction p as [p IH|p IH|]; [| |done]; cbn [digits2_pos]; rewrite Pos2Z.inj_succ, IH.
  - rewrite Pos2Z.inj_xI, Z.log2_succ_double by lia. lia.
  - rewrite Pos2Z.inj_xO, Z.log2_double by lia. lia.
Qed.

Lemma Zdigits2_bound m k : 0 ≤ m → 0 ≤ k → m < 2 ^ k → Zdigits2 m ≤ k.
Proof.
  intros Hm Hk Hlt. destruct m as [|p|p]; [done| |lia]. simpl. rewrite digits2_pos_log2.
  apply Z.log2_lt_pow2 in Hlt; lia.
Qed.

Lemma Zdigits2_lt m : 0 ≤ m → 0 ≤ Zdigits2 m ∧ m < 2 ^ Zdigits2 m.
Proof.
  intros Hm. destruct m as [|p|p]; [by simpl; lia| |lia]. simpl. rewrite digits2_pos_log2.
  pose proof (Z.log2_nonneg (Z.pos p)). pose proof (Z.log2_spec (Z.pos p)). lia.
Qed.

Lemma shr_1_div r : 0 ≤ shr_m r → shr_m (shr_1 r) = shr_m r / 2.
Proof. rewrite <- Z.div2_div. destruct r as [[|[p|p|]|p] ? ?]; simpl; lia. Qed.

Lemma iter_shr_1_div p r :
  0 ≤ shr_m r → shr_m (@SpecFloat.iter_pos shr_record shr_1 p r) = shr_m r / 2 ^ Z.pos p.
Proof.
  revert r. induction p as [p IH|p IH|]; intros r Hr; cbn [SpecFloat.iter_pos].
  - rewrite !IH, shr_1_div by eauto using iter_shr_1_nonneg, shr_1_nonneg.
    rewrite !Z.div_div by lia. f_equal. 
    replace (Z.pos p~1) with (1 + Z.pos p + Z.pos p) by lia. rewrite !Z.pow_add_r by lia. lia.
  - rewrite !IH by eauto using iter_shr_1_nonneg. rewrite Z.div_div by lia. f_equal.
    replace (Z.pos p~0) with (Z.pos p + Z.pos p) by lia.
    by rewrite Z.pow_add_r by lia.
  - by apply shr_1_div.
Qed.

(** One normalisation step shifts right by the excess digits. *)
Lemma shr_fexp_spec m e l :
  0 ≤ m →
  let n := Z.max 0 (fexp 53 1024 (Zdigits2 m + e) - e) in
  shr_m (shr_fexp 53 1024 m e l).1 = m / 2 ^ n ∧ (shr_fexp 53 1024 m e l).2 = e + n.
Proof.
  intros Hm n. subst n. unfold shr_fexp, shr.
  assert (shr_m (shr_record_of_loc m l) = m) as E by (destruct l as [|[]]; done).
  destruct (_ - e) as [|p|p] eqn:En; cbn [fst snd].
  - by rewrite E, Z.max_id, Z.pow_0_r, Z.div_1_r, Z.add_0_r.
  - rewrite iter_shr_1_div, E by lia. by rewrite Z.max_r by lia.
  - by rewrite E, Z.max_l, Z.pow_0_r, Z.div_1_r, Z.add_0_r by lia.
Qed.

Lemma round_le m l : round_nearest_even m l ≤ m + 1.
Proof. unfold round_nearest_even. destruct l as [|[]]; try destruct (Z.even m); lia. Qed.

Lemma div_pow2_lt m a n : 0 ≤ m → 0 ≤ n ≤ a → m < 2 ^ a → m / 2 ^ n < 2 ^ (a - n).
Proof.
  intros Hm Hn Hlt. apply Z.div_lt_upper_bound; [apply Z.pow_pos_nonneg; lia|].
  rewrite <- Z.pow_add_r by lia. by replace (n + (a - n)) with a by lia.
Qed.

(** A value below a power of two rounds to at most that power. *)
Lemma round_aux_bound s m e l k :
  0 ≤ m → e ≤ k → -1000 ≤ k ≤ 1000 → m < 2 ^ (k - e) → e ≤ 971 →
  fbound k (binary_round_aux 53 1024 s m e l).
Proof.
  intros Hm Hek Hk Hlt He. unfold binary_round_aux.
  destruct (shr_fexp_spec m e l Hm) as [E1 E1']. pose proof (shr_fexp_nonneg m e l Hm) as Hr1.
  destruct (shr_fexp 53 1024 m e l) as [r1 e1]. cbn [fst snd] in E1, E1', Hr1.
  pose proof (Zdigits2_bound m (k - e) Hm ltac:(lia) Hlt) as Hd. destruct (Zdigits2_lt m Hm) as [Hd0 _].
  set (n1 := Z.max 0 _) in *.
  assert (fexp 53 1024 (Zdigits2 m + e) = Z.max (Zdigits2 m + e - 53) (-1074)) as Ef by done.
  assert (n1 ≤ k - e) as Hn1 by lia. assert (0 ≤ n1) by lia.
  assert (-1074 ≤ e1 ≤ 971 ∧ e1 ≤ k) as He1 by lia.
  assert (shr_m r1 < 2 ^ (k - e1)) as Hr1lt.
  { rewrite E1, E1'. replace (k - (e + n1)) with (k - e - n1) by lia. apply div_pow2_lt; lia. }
  set (m1 := round_nearest_even _ _). assert (0 ≤ m1) as Hm1 by (by apply round_nonneg).
  assert (m1 ≤ 2 ^ (k - e1)) as Hm1le.
  { pose proof (round_le (shr_m r1) (loc_of_shr_record r1)). subst m1. lia. }
  destruct (shr_fexp_spec m1 e1 loc_Exact Hm1) as [E2 E2'].
  destruct (shr_fexp 53 1024 m1 e1 loc_Exact) as [r2 e2]. cbn [fst snd] in E2, E2'.
  assert (Zdigits2 m1 ≤ k - e1 + 1) as Hd1.
  { apply Zdigits2_bound; [lia..|]. rewrite Z.pow_add_r by lia.
    assert (0 < 2 ^ (k - e1)) by (apply Z.pow_pos_nonneg; lia). lia. }
  set (n2 := Z.max 0 (fexp 53 1024 (Zdigits2 m1 + e1) - e1)) in *.
  assert (fexp 53 1024 (Zdigits2 m1 + e1) = Z.max (Zdigits2 m1 + e1 - 53) (-1074)) as Ef2 by done.
  assert (-1074 ≤ e2 ≤ 971) as He2 by lia.
  destruct (shr_m r2) as [|p|p] eqn:Em; [done| |].
  - destruct (Z.leb_spec e2 (1024 - 53)); [|lia]. split; [lia|].
    rewrite E2, E2'. replace (e1 + n2 + 1074) with (n2 + (e1 + 1074)) by lia.
    rewrite Z.pow_add_r, Z.mul_assoc by lia.
    assert (0 < 2 ^ n2) by (apply Z.pow_pos_nonneg; lia).
    assert (m1 / 2 ^ n2 * 2 ^ n2 ≤ m1) by (rewrite Z.mul_comm; by apply Z.mul_div_le).
    replace (k + 1074) with (k - e1 + (e1 + 1074)) by lia. rewrite (Z.pow_add_r 2 (k - e1)) by lia.
    apply Z.mul_le_mono_nonneg_r; [apply Z.pow_nonneg; lia|lia].
  - assert (0 ≤ m1 / 2 ^ n2) by (apply Z.div_pos; [done|apply Z.pow_pos_nonneg; lia]). lia.
Qed.

Lemma fbound_not_nan k x : fbound k x → is_nan x = false.
Proof. by destruct x. Qed.

Lemma fbound_mono k k' x : k ≤ k' → fbound k x → fbound k' x.
Proof.
  intros Hk. destruct x as [| | |s m e]; simpl; try done. intros [He Hb]. split; [done|].
  destruct (Z.le_gt_cases 0 (k + 1074)).
  - etrans; [exact Hb|]. apply Z.pow_le_mono_r; lia.
  - rewrite (Z.pow_neg_r 2 (k + 1074)) in Hb by lia.
    assert (0 < 2 ^ (e + 1074)) by (apply Z.pow_pos_nonneg; lia). nia.
Qed.

Lemma iter_xO p d : Z.pos (Pos.iter xO p d) = Z.pos p * 2 ^ Z.pos d.
Proof.
  induction d as [|d IH] using Pos.peano_ind; [simpl; lia|].
  rewrite Pos.iter_succ, Pos2Z.inj_succ, Z.pow_succ_r by lia. rewrite Pos2Z.inj_xO, IH. lia.
Qed.

Lemma shl_align_down p e e' :
  e' ≤ e → Z.pos (shl_align p e e').1 = Z.pos p * 2 ^ (e - e') ∧ (shl_align p e e').2 = e'.
Proof.
  intros Hle. unfold shl_align. destruct (e' - e) as [|d|d] eqn:E; cbn [fst snd]; [|lia|].
  - replace (e - e') with 0 by lia. lia.
  - rewrite iter_xO. replace (e - e') with (Z.pos d) by lia. done.
Qed.

Lemma shl_align_up p e e' : e ≤ e' → shl_align p e e' = (p, e).
Proof. intros Hle. unfold shl_align. destruct (e' - e) eqn:E; [done..|lia]. Qed.

Lemma normalize_bound m e z k :
  -1074 ≤ e ≤ 971 → e ≤ k → -1000 ≤ k ≤ 1000 → Z.abs m < 2 ^ (k - e) →
  fbound k (binary_normalize 53 1024 m e z).
Proof.
  intros He Hek Hk Hm. unfold binary_normalize, binary_round.
  assert (∀ s p, Z.pos p < 2 ^ (k - e) → fbound k (let '(mz, ez) :=
    shl_align p e (fexp 53 1024 (Z.pos (digits2_pos p) + e)) in
    binary_round_aux 53 1024 s (Z.pos mz) ez loc_Exact)) as H.
  { intros s p Hp. set (e' := fexp _ _ _).
    assert (-1074 ≤ e' ∧ e' ≤ k) as He'.
    { unfold e', fexp, emin. pose proof (Zdigits2_bound (Z.pos p) (k - e) ltac:(lia) ltac:(lia) Hp).
      simpl in *. lia. }
    destruct (Z.le_gt_cases e' e) as [Hle|Hgt].
    - pose proof (shl_align_down p e e' Hle) as [E1 E2].
      destruct (shl_align p e e') as [mz ez]. cbn [fst snd] in *. subst ez.
      apply round_aux_bound; try lia. rewrite E1.
      replace (k - e') with (k - e + (e - e')) by lia. rewrite Z.pow_add_r by lia.
      apply Z.mul_lt_mono_pos_r; [apply Z.pow_pos_nonneg; lia|done].
    - rewrite shl_align_up by lia. apply round_aux_bound; lia. }
  destruct m as [|p|p]; [done|apply H; lia..].
Qed.

(** In units of a common exponent. *)
Lemma fbound_aligned k s m e ez :
  -1074 ≤ ez ≤ e → ez ≤ k → -1000 ≤ k → fbound k (S754_finite s m e) →
  Z.pos (shl_align m e ez).1 ≤ 2 ^ (k - ez).
Proof.
  intros Hez Hk Hk' [He Hb]. destruct (shl_align_down m e ez ltac:(lia)) as [-> _].
  apply (Z.mul_le_mono_pos_r _ _ (2 ^ (ez + 1074))); [apply Z.pow_pos_nonneg; lia|].
  rewrite <- Z.mul_assoc, <- !Z.pow_add_r by lia.
  replace (e - ez + (ez + 1074)) with (e + 1074) by lia.
  by replace (k - ez + (ez + 1074)) with (k + 1074) by lia.
Qed.

Lemma fbound_exp k s m e : -1000 ≤ k → fbound k (S754_finite s m e) → e ≤ k.
Proof.
  intros Hk [He Hb]. destruct (Z.le_gt_cases e k) as [|Hgt]; [done|].
  assert (2 ^ (k + 1074) < 2 ^ (e + 1074)) by (apply Z.pow_lt_mono_r; lia). nia.
Qed.

Lemma add_normalize_bound k a b s1 m1 e1 s2 m2 e2 :
  -1000 ≤ k ≤ 998 → fbound k (S754_finite s1 m1 e1) → fbound k (S754_finite s2 m2 e2) →
  Z.abs a = Z.pos (shl_align m1 e1 (Z.min e1 e2)).1 → Z.abs b = Z.pos (shl_align m2 e2 (Z.min e1 e2)).1 →
  fbound (k + 2) (binary_normalize 53 1024 (a + b) (Z.min e1 e2) false).
Proof.
  intros Hk H1 H2 Ea Eb. pose proof (fbound_exp k _ _ _ ltac:(lia) H1).
  pose proof (fbound_exp k _ _ _ ltac:(lia) H2).
  destruct H1 as [He1 Hb1], H2 as [He2 Hb2].
  set (ez := Z.min e1 e2) in *.
  assert (Z.pos (shl_align m1 e1 ez).1 ≤ 2 ^ (k - ez)) by (apply (fbound_aligned _ s1); [lia..|done]).
  assert (Z.pos (shl_align m2 e2 ez).1 ≤ 2 ^ (k - ez)) by (apply (fbound_aligned _ s2); [lia..|done]).
  apply normalize_bound; try lia.
  replace (k + 2 - ez) with (2 + (k - ez)) by lia. rewrite Z.pow_add_r by lia. lia.
Qed.

Lemma cond_Zopp_abs s p : Z.abs (cond_Zopp s (Z.pos p)) = Z.pos p.
Proof. destruct s; simpl; lia. Qed.

Lemma fadd_bound k x y :
  -1000 ≤ k ≤ 998 → fbound k x → fbound k y → fbound (k + 2) (fadd x y).
Proof.
  intros Hk Hx Hy. unfold fadd, SFadd.
  destruct x as [[]| | |s1 m1 e1], y as [[]| | |s2 m2 e2]; try done;
    try (eapply (fbound_mono k); [lia|done]).
  eapply add_normalize_bound; [done|exact Hx|exact Hy|apply cond_Zopp_abs..].
Qed.

Lemma fsub_bound k x y :
  -1000 ≤ k ≤ 998 → fbound k x → fbound k y → fbound (k + 2) (fsub x y).
Proof.
  intros Hk Hx Hy. unfold fsub, SFsub.
  destruct x as [[]| | |s1 m1 e1], y as [[]| | |s2 m2 e2]; try done;
    try (eapply (fbound_mono k); [lia|done]).
  rewrite <- Z.add_opp_r.
  eapply add_normalize_bound; [done|exact Hx|exact Hy|apply cond_Zopp_abs|].
  rewrite Z.abs_opp. apply cond_Zopp_abs.
Qed.

(** Dividing by a number that is at least one in size. *)
Lemma fdiv_bound k x s m e :
  0 ≤ k ≤ 900 → fbound k x → e ≤ 0 → 2 ^ (- e) ≤ Z.pos m → fbound (k + 1) (fdiv x (S754_finite s m e)).
Proof.
  intros Hk Hx He Hm. unfold fdiv, SFdiv. destruct x as [s1| | |s1 m1 e1]; try done.
  pose proof (fbound_exp k _ _ _ ltac:(lia) Hx) as He1k. destruct Hx as [He1 Hb].
  destruct (SFdiv_core_binary _ _ _ _ _ _) as [[q e2] l] eqn:E. unfold SFdiv_core_binary in E.
  set (e' := Z.min _ (e1 - e)) in E. assert (e' ≤ e1 - e) as He' by lia.
  set (z := match _ with Z0 => _ | _ => _ end) in E.
  assert (z = Z.pos m1 * 2 ^ (e1 - e - e')) as Hz.
  { subst z. destruct (e1 - e - e') eqn:Es; [rewrite Z.pow_0_r; lia| |lia].
    by rewrite Z.shiftl_mul_pow2 by lia. }
  pose proof (Z_div_mod z (Z.pos m) ltac:(lia)) as Hd.
  destruct (Z.div_eucl z (Z.pos m)) as [q' r]. injection E as <- <- <-. destruct Hd as [Hq Hr].
  assert (Z.pos m1 ≤ 2 ^ (k - e1)) as Hm1.
  { apply (Z.mul_le_mono_pos_r _ _ (2 ^ (e1 + 1074))); [apply Z.pow_pos_nonneg; lia|].
    rewrite <- Z.pow_add_r by lia. by replace (k - e1 + (e1 + 1074)) with (k + 1074) by lia. }
  assert (e' ≤ k) as He'k.
  { pose proof (Zdigits2_bound (Z.pos m1) (k - e1 + 1) ltac:(lia) ltac:(lia)) as Hd1.
    rewrite Z.pow_add_r in Hd1 by lia. specialize (Hd1 ltac:(lia)).
    destruct (Zdigits2_lt (Z.pos m) ltac:(lia)) as [_ Hd2].
    assert (- e < Zdigits2 (Z.pos m)) by (apply (Z.pow_lt_mono_r_iff 2); simpl in *; lia).
    unfold e', fexp, emin. lia. }
  assert (0 ≤ q') as Hq0 by nia.
  assert (q' * 2 ^ (- e) ≤ 2 ^ (k - e') * 2 ^ (- e)) as Hle.
  { rewrite <- Z.pow_add_r by lia. replace (k - e' + - e) with (k - e1 + (e1 - e - e')) by lia.
    rewrite Z.pow_add_r by lia. assert (0 < 2 ^ (e1 - e - e')) by (apply Z.pow_pos_nonneg; lia).
    assert (q' * 2 ^ (- e) ≤ q' * Z.pos m) by (apply Z.mul_le_mono_nonneg_l; lia).
    assert (Z.pos m1 * 2 ^ (e1 - e - e') ≤ 2 ^ (k - e1) * 2 ^ (e1 - e - e'))
      by (apply Z.mul_le_mono_nonneg_r; lia).
    lia. }
  apply Z.mul_le_mono_pos_r in Hle; [|apply Z.pow_pos_nonneg; lia].
  apply round_aux_bound; try lia.
  replace (k + 1 - e') with (1 + (k - e')) by lia. rewrite Z.pow_add_r by lia.
  assert (0 < 2 ^ (k - e')) by (apply Z.pow_pos_nonneg; lia). lia.
Qed.

Lemma of_int_bound k z : 0 ≤ k ≤ 1000 → Z.abs z < 2 ^ k → fbound k (of_int z).
Proof. intros Hk Hz. apply normalize_bound; try lia. by rewrite Z.sub_0_r. Qed.
