(* ===== verification/IPPool.v ===== *)
(** * IP pools (core/ippool.go)

    A pool is a list of addresses of which the best few are kept with a weight
    each.  [scan] dials every address several times and refreshes the choice;
    [Get] hands the best addresses out in turn, each in proportion to its weight.
    What the dials of a scan answer, and in which order the workers report, are
    arguments.  [int] has 64 bits.  Log output is left out. *)

From Stdlib Require Import SpecFloat Sorted.
From S2P Require Import Prelude Errors Netip AddrTrie Pattern Policy Float64.
From stdpp Require Import sorting.
Local Open Scope Z_scope.

Definition defaultTimeout : Z := 1000000000.
Definition defaultUpdateInterval : Z := 30 * 60 * 1000000000.
Definition defaultMaxConcurrency : Z := 100.
Definition defaultTopIPCount : Z := 3.
Definition defaultAttempts : Z := 4.
Definition maxIPPoolSize : Z := 1000.
Definition weightScaleFactor : float64 := of_int 10000.
Definition minWeight : float64 := of_int 1.
Definition maxWeight : float64 := of_int 10000.

(** ** The pool *)

(** [stopCh] is [None] before [Init], then whether it is closed. *)
Record IPPool := mkPool {
  waitScanOnStartUp : bool;
  ips : list gostring;
  fallbackIP : gostring;
  port : Z;
  topIPCount : Z;
  attempts : Z;
  timeout : Z;
  updateInterval : Z;
  bestIndexes : list Z;
  bestWeights : list Z;
  totalWeight : Z;
  curValidIPs : Z;
  semSize : Z;
  counter : Z;
  stopCh : option bool;
  stopOnce : bool;
}.

(** ** Reading the configuration *)

(** The fields of the JSON object; a missing one has Go's zero value. *)
Record rawPool := mkRawPool {
  jWaitScanOnStartUp : bool;
  jFallbackIP : gostring;
  jIPs : list gostring;
  jPort : Z;
  jTopIPCount : Z;
  jMaxConcurrency : Z;
  jTimeout : gostring;
  jUpdateInterval : gostring;
  jAttempts : Z;
}.

(** The addresses of a prefix from [addr] on.  Every round adds an address and
    the pool is full after [maxIPPoolSize] of them, so one round more of fuel is
    enough. *)
Fixpoint expandCIDR (fuel : nat) (s : gostring) (prefix : Prefix) (addr : Addr) (acc : list gostring)
    : res (list gostring) :=
  match fuel with
  | O => Panic
  | S fuel =>
      if Contains prefix addr then
        if maxIPPoolSize <=? zlen acc
        then Err (errorString ("CIDR " ++ s ++ " exceeds max pool size (" ++ itoa maxIPPoolSize ++ ")"))
        else
          let acc := acc ++ [AddrString addr] in
          let next := Next addr in
          if negb (IsValid next) || negb (Contains prefix next) then Ok acc
          else expandCIDR fuel s prefix next acc
      else Ok acc
  end.

(** The addresses a name resolves to. *)
Fixpoint addLookup (s : gostring) (addrs : list bytes) (acc : list gostring) : res (list gostring) :=
  match addrs with
  | [] => Ok acc
  | ip :: addrs =>
      match AddrFromSlice ip with
      | Some addr =>
          if IsValid addr then
            if maxIPPoolSize <=? zlen acc
            then Err (errorString ("DNS resolution for " ++ s ++ " exceeds max pool size"))
            else addLookup s addrs (acc ++ [AddrString addr])
          else addLookup s addrs acc
      | None => addLookup s addrs acc
      end
  end.

Section Parse.
(** [net.LookupIP], which asks the system's resolver. *)
Context (lookupIP : gostring → res (list bytes)).
Context `{GoTime}.

(** One expanded entry of the list. *)
Definition addEntry (s : gostring) (acc : list gostring) : res (list gostring) :=
  if maxIPPoolSize <=? zlen acc
  then Err (errorString ("IP pool exceeds maximum size (" ++ itoa maxIPPoolSize ++ ") during parsing"))
  else
    if match ParseAddr s with Some addr => IsValid addr | None => false end then Ok (acc ++ [s]) else
    match ParsePrefix s with
    | Some prefix => expandCIDR (S (Z.to_nat maxIPPoolSize)) s prefix (PAddr prefix) acc
    | None =>
        match lookupIP s with
        | Err e => Err (wrapError ("DNS lookup failed for " ++ s ++ ": ") e)
        | Panic => Panic
        | Ok addrs => addLookup s addrs acc
        end
    end.

Fixpoint addEntries (l : list gostring) (acc : list gostring) : res (list gostring) :=
  match l with
  | [] => Ok acc
  | s :: l => acc ← addEntry s acc; addEntries l acc
  end.

Definition parseIPList (sources : list gostring) : res (list gostring) :=
  addEntries (sources ≫= expandPattern) [].

(** A duration that must be positive when given. *)
Definition positiveDuration (name : String.string) (dflt : Z) (s : gostring) : res Z :=
  if bool_decide (s = []) then Ok dflt else
  match ParseDuration s with
  | Ok d => if d <=? 0 then Err (errorString ("invalid " ++ name ++ ": " ++ s)) else Ok d
  | Err _ => Err (errorString ("invalid " ++ name ++ ": " ++ s))
  | Panic => Panic
  end.

(** [IPPool.UnmarshalJSON] after the JSON decoding. *)
Definition unmarshalPool (tmp : rawPool) : res IPPool :=
  ips ← parseIPList (jIPs tmp);
  if bool_decide (ips = []) then fail "no valid IPs after parsing"
  else if maxIPPoolSize <? zlen ips
  then Err (errorString ("IP pool exceeds maximum size (" ++ itoa maxIPPoolSize ++ "): " ++ itoa (zlen ips)))
  else if zlen ips <? jTopIPCount tmp
  then Err (errorString ("IP count (" ++ itoa (zlen ips) ++ ") less than top_ip_count (" ++
                         itoa (jTopIPCount tmp) ++ ")"))
  else if (jPort tmp <=? 0) || (65535 <? jPort tmp)
  then Err (errorString ("invalid port: " ++ itoa (jPort tmp)))
  else
    concurrency ← (if jMaxConcurrency tmp =? 0 then Ok defaultMaxConcurrency
                   else if jMaxConcurrency tmp <? 1
                   then Err (errorString ("invalid max_concurrency: " ++ itoa (jMaxConcurrency tmp)))
                   else Ok (jMaxConcurrency tmp));
    topCount ← (if jTopIPCount tmp =? 0 then Ok defaultTopIPCount
                else if (jTopIPCount tmp <=? 0) || (255 <? jTopIPCount tmp) || (zlen ips <? jTopIPCount tmp)
                then Err (errorString ("invalid top_ip_count: " ++ itoa (jTopIPCount tmp)))
                else Ok (jTopIPCount tmp));
    attempts ← (if jAttempts tmp =? 0 then Ok defaultAttempts
                else if (jAttempts tmp <=? 0) || (255 <? jAttempts tmp)
                then Err (errorString ("invalid attempts: " ++ itoa (jAttempts tmp)))
                else Ok (jAttempts tmp));
    timeout ← positiveDuration "timeout" defaultTimeout (jTimeout tmp);
    updateInterval ← positiveDuration "update_interval" defaultUpdateInterval (jUpdateInterval tmp);
    Ok (mkPool (jWaitScanOnStartUp tmp) ips (jFallbackIP tmp) (u16 (jPort tmp)) (u8 topCount) (u8 attempts)
          timeout updateInterval (replicate (Z.to_nat topCount) 0) (replicate (Z.to_nat topCount) 0)
          0 0 concurrency 0 None false).
End Parse.

(** ** Scanning *)

Record ipResult := mkResult { ipIndex : Z; latency : Z; loss : float64 }.

Definition maxInt64 : Z := 2 ^ 63 - 1.

(** The rounds of [testIP]: the outcome of a dial is the time it took, or
    [None] when it failed. *)
Definition tally (outcomes : list (option Z)) : Z * Z :=
  foldl (λ '(successCount, totalLatency) o,
    match o with
    | None => (successCount, totalLatency)
    | Some t => (successCount + 1, i64 (totalLatency + t))
    end) (0, 0) outcomes.

Definition lossRate (attempts successCount : Z) : float64 :=
  fsub (of_int 1) (fdiv (of_int successCount) (of_int attempts)).

Definition testIP (p : IPPool) (outcomes : list (option Z)) : Z * float64 :=
  let '(successCount, totalLatency) := tally outcomes in
  let rate := lossRate (attempts p) successCount in
  if successCount =? 0 then (maxInt64, rate) else (Z.quot totalLatency successCount, rate).

(** The order of the results: less loss, then less latency. *)
Definition resultLess (a b : ipResult) : bool :=
  if negb (feqb (loss a) (loss b)) then fltb (loss a) (loss b) else latency a <? latency b.

(** [sort.SliceStable] *)
Fixpoint insertStable {A} (less : A → A → bool) (x : A) (l : list A) : list A :=
  match l with
  | [] => [x]
  | y :: l' => if less y x then y :: insertStable less x l' else x :: l
  end.

Definition sortStable {A} (less : A → A → bool) (l : list A) : list A := foldr (insertStable less) [] l.

(** The weight of an address: inverse to its latency in milliseconds, more loss
    counting as more latency, between [minWeight] and [maxWeight]. *)
Definition weightVal (res : ipResult) : float64 :=
  let latencyMs := fdiv (of_int (latency res)) (of_int 1000000) in
  fdiv weightScaleFactor
    (fadd (fmul latencyMs (fadd (of_int 1) (loss res))) (fdiv (of_int 1) (of_int 100000))).

Definition weightOf (res : ipResult) : option Z :=
  let w := weightVal res in
  to_int (if fltb w minWeight then minWeight else if fltb maxWeight w then maxWeight else w).

(** An assignment [l[i] = x]: out of range panics. *)
Definition setIdx {A} (l : list A) (i : Z) (x : A) : option (list A) :=
  if (0 <=? i) && (i <? zlen l) then Some (<[Z.to_nat i := x]> l) else None.

(** The first loop of [updateBest] from position [i] on. *)
Fixpoint fillBest (top i : Z) (results : list ipResult) (idxs ws : list Z) (total : Z)
    : option (list Z * list Z * Z * Z) :=
  match results with
  | [] => Some (idxs, ws, total, i)
  | res :: results =>
      if i <? top then
        idxs ← setIdx idxs i (ipIndex res);
        weight ← weightOf res;
        ws ← setIdx ws i weight;
        fillBest top (i + 1) results idxs ws (total + weight)
      else Some (idxs, ws, total, i)
  end.

(** The second loop: the positions from [i] on, [n] of them, get weight zero. *)
Fixpoint clearWeights (n : nat) (i : Z) (ws : list Z) : option (list Z) :=
  match n with
  | O => Some ws
  | S n => ws ← setIdx ws i 0; clearWeights n (i + 1) ws
  end.

Definition setBest (p : IPPool) (idxs ws : list Z) (total valid : Z) : IPPool :=
  mkPool (waitScanOnStartUp p) (ips p) (fallbackIP p) (port p) (topIPCount p) (attempts p) (timeout p)
    (updateInterval p) idxs ws total valid (semSize p) (counter p) (stopCh p) (stopOnce p).

Definition updateBest (p : IPPool) (results : list ipResult) : option IPPool :=
  if bool_decide (results = []) then Some p else
  let results := sortStable resultLess results in
  '(idxs, ws, total, validCount) ← fillBest (topIPCount p) 0 results (bestIndexes p) (bestWeights p) 0;
  ws ← clearWeights (Z.to_nat (topIPCount p - validCount)) validCount ws;
  best ← slice idxs 0 validCount;
  _ ← mapM (idx (ips p)) best;
  Some (setBest p idxs ws total (u32 validCount)).

(** [scan]: every address is tested by a worker; [arrival] is the order in which
    the workers report, [outcomes i] what the dials of address [i] answer. *)
Definition scan (p : IPPool) (outcomes : Z → list (option Z)) (arrival : list Z) : option IPPool :=
  let results := (λ i, let '(lat, rate) := testIP p (outcomes i) in mkResult i lat rate) <$> arrival in
  updateBest p (filter (λ r, fltb (loss r) (of_int 1) = true) results).

Definition setStop (p : IPPool) (ch : option bool) (once : bool) : IPPool :=
  mkPool (waitScanOnStartUp p) (ips p) (fallbackIP p) (port p) (topIPCount p) (attempts p) (timeout p)
    (updateInterval p) (bestIndexes p) (bestWeights p) (totalWeight p) (curValidIPs p) (semSize p)
    (counter p) ch once.

(** [Init] up to the first scan. *)
Definition Init (p : IPPool) : IPPool := setStop p (Some false) (stopOnce p).

Definition Stop (p : IPPool) : IPPool :=
  if stopOnce p then p
  else match stopCh p with
       | None => setStop p None true
       | Some _ => setStop p (Some true) true
       end.

(** ** Choosing *)

(** What [Get] copies under the read lock. *)
Record snapshot := mkSnapshot { sIndexes : list Z; sWeights : list Z; sTotal : Z }.

Definition takeSnapshot (p : IPPool) : option snapshot :=
  indexes ← slice (bestIndexes p) 0 (curValidIPs p);
  weights ← slice (bestWeights p) 0 (curValidIPs p);
  Some (mkSnapshot indexes weights (totalWeight p)).

Definition setCounter (p : IPPool) (c : Z) : IPPool :=
  mkPool (waitScanOnStartUp p) (ips p) (fallbackIP p) (port p) (topIPCount p) (attempts p) (timeout p)
    (updateInterval p) (bestIndexes p) (bestWeights p) (totalWeight p) (curValidIPs p) (semSize p) c
    (stopCh p) (stopOnce p).

(** The loop of [Get] over the copied weights. *)
Fixpoint pickLoop (p : IPPool) (weights indexes : list Z) (acc target : Z) : option gostring :=
  match weights, indexes with
  | w :: weights, i :: indexes =>
      let acc := acc + w in
      if target <? acc then idx (ips p) i else pickLoop p weights indexes acc target
  | _, _ => Some (fallbackIP p)
  end.

(** The rest of [Get] after the lock is released; a division by zero panics. *)
Definition pick (p : IPPool) (s : snapshot) : option (gostring * IPPool) :=
  let p := setCounter p (u32 (counter p + 1)) in
  let current := u32 (counter p - 1) in
  if sTotal s =? 0 then None else
  let target := Z.rem current (sTotal s) in
  r ← pickLoop p (sWeights s) (sIndexes s) 0 target;
  Some (r, p).

Definition Get (p : IPPool) : option (gostring * IPPool) :=
  if curValidIPs p =? 0 then Some (fallbackIP p, p)
  else s ← takeSnapshot p; pick p s.

(** The pools of the configuration by tag. *)
Abbreviation Pools := (gmap gostring IPPool).

(** The pool's counter moves even when the answer is refused. *)
Definition getFromIPPool (ipPools : Pools) (tag : gostring) : res gostring * Pools :=
  if bool_decide (ipPools = ∅) then (fail "no ip pools", ipPools) else
  match ipPools !! tag with
  | None => (Err (errorString ("ip pool " ++ tag ++ " does not exist")), ipPools)
  | Some ipPool =>
      match Get ipPool with
      | None => (Panic, ipPools)
      | Some (ip, ipPool) =>
          (if bool_decide (ip = []) then Err (errorString ("cannot get ip from " ++ tag)) else Ok ip,
           <[tag := ipPool]> ipPools)
      end
  end.

Definition StopIPPools (ipPools : Pools) : Pools := Stop <$> ipPools.


(** ** Weights *)

Lemma of_int_small a :
  1 ≤ a ≤ 255 → ∃ m e, of_int a = S754_finite false m e ∧ e ≤ 0 ∧ 2 ^ (- e) ≤ Z.pos m.
Proof.
  intros Ha.
  assert (∀ b, 0 ≤ b < 256 → (b <? 1) || match of_int b with
    | S754_finite false m e => (e <=? 0) && (2 ^ (- e) <=? Z.pos m) | _ => false end = true) as H.
  { apply (range_decide (λ b, (b <? 1) || match of_int b with
      | S754_finite false m e => (e <=? 0) && (2 ^ (- e) <=? Z.pos m) | _ => false end = true) 256).
    vm_compute. reflexivity. }
  specialize (H a ltac:(lia)). destruct (Z.ltb_spec a 1); [lia|]. simpl in H.
  destruct (of_int a) as [| | |[] m e]; try done. bool_to_prop. eauto.
Qed.

Lemma lossRate_bound a s : 1 ≤ a ≤ 255 → 0 ≤ s ≤ 255 → fbound 11 (lossRate a s).
Proof.
  intros Ha Hs. unfold lossRate. apply (fsub_bound 9); [lia| |].
  - apply of_int_bound; lia.
  - destruct (of_int_small a Ha) as (m & e & -> & He & Hm).
    apply (fdiv_bound 8); [lia| |done..]. apply of_int_bound; lia.
Qed.

(** An address none of whose dials succeeded has loss 1. *)
Lemma lossRate_zero a : 1 ≤ a ≤ 255 → fltb (lossRate a 0) (of_int 1) = false.
Proof. intros Ha. unfold lossRate. destruct (of_int_small a Ha) as (m & e & -> & _). by destruct e. Qed.

Lemma weightVal_not_nan r :
  fbound 11 (loss r) → Z.abs (latency r) < 2 ^ 64 → is_nan (weightVal r) = false.
Proof.
  intros Hl Hlat. unfold weightVal. apply fdiv_not_nan; [done|].
  assert (fbound 65 (fdiv (of_int (latency r)) (of_int 1000000))) as H1.
  { apply (fdiv_bound 64); [lia|by apply of_int_bound|done..]. }
  assert (fbound 13 (fadd (of_int 1) (loss r))) as H2 by (apply (fadd_bound 11); [lia|done|done]).
  apply fadd_not_nan; [|done|by destruct (fmul _ _)].
  destruct (fdiv (of_int _) _) as [| | |s1 m1 e1], (fadd (of_int 1) _) as [| | |s2 m2 e2]; try done.
  apply round_aux_not_nan. lia.
Qed.

Lemma weightOf_range r :
  fbound 11 (loss r) → Z.abs (latency r) < 2 ^ 64 → ∃ w, weightOf r = Some w ∧ 1 ≤ w ≤ 10000.
Proof.
  intros Hl Hlat. pose proof (weightVal_not_nan r Hl Hlat) as Hn. unfold weightOf.
  generalize dependent (weightVal r). intros w Hn. cbv zeta.
  assert (to_int minWeight = Some 1 ∧ to_int maxWeight = Some 10000) as [Emin Emax] by (by vm_compute).
  assert (units minWeight = 1 * 2 ^ 1074 ∧ units maxWeight = 10000 * 2 ^ 1074) as [Umin Umax] by by_decide.
  destruct (fltb w minWeight) eqn:E1; [rewrite Emin; eauto with lia|].
  destruct (fltb maxWeight w) eqn:E2; [rewrite Emax; eauto with lia|].
  destruct w as [z|[]| |s m e];
    [exfalso; clear - E1 E2 Hn; revert E1 E2 Hn; vm_compute; congruence..|].
  apply to_int_between; [lia|lia|exact I|].
  assert (fltb (S754_finite s m e) minWeight = (units (S754_finite s m e) <? units minWeight)) as F1 by done.
  assert (fltb maxWeight (S754_finite s m e) = (units maxWeight <? units (S754_finite s m e))) as F2 by done.
  rewrite F1 in E1. rewrite F2 in E2. apply Z.ltb_ge in E1, E2. rewrite Umin in E1. rewrite Umax in E2. split; assumption.
Qed.

(** ** The order of the results *)

Section Sorting.
Context {A : Type} (less : A → A → bool) (key : A → Z * Z) (P : A → Prop).

Definition keyLt (x y : Z * Z) : Prop := x.1 < y.1 ∨ x.1 = y.1 ∧ x.2 < y.2.

Hypothesis less_key : ∀ x y, P x → P y → less x y = true ↔ keyLt (key x) (key y).

Lemma insertStable_perm x l : insertStable less x l ≡ₚ x :: l.
Proof.
  induction l as [|y l IH]; simpl; [done|]. destruct (less y x); [|done].
  rewrite IH. apply Permutation_swap.
Qed.

Lemma sortStable_perm l : sortStable less l ≡ₚ l.
Proof. induction l as [|x l IH]; simpl; [done|]. by rewrite insertStable_perm, IH. Qed.

(** No element is less than one before it. *)
Abbreviation ordered := (StronglySorted (λ x y, ¬ keyLt (key y) (key x))).

Lemma insertStable_ordered x l : P x → Forall P l → ordered l → ordered (insertStable less x l).
Proof.
  intros Hx. induction l as [|y l IH]; intros HP HS; simpl; [repeat constructor|].
  inversion HP as [|? ? Hy Hl]; subst. inversion HS as [|? ? HSl Hall]; subst.
  destruct (less y x) eqn:E.
  - apply less_key in E; [|done..]. constructor; [by apply IH|].
    rewrite Forall_forall in Hall |- *. intros z Hz. rewrite insertStable_perm in Hz.
    apply elem_of_cons in Hz as [->|Hz]; [unfold keyLt in *; lia|auto].
  - assert (¬ keyLt (key y) (key x)) as Hn.
    { intros Hk. apply less_key in Hk; [congruence|done..]. }
    constructor; [done|]. constructor; [done|].
    rewrite Forall_forall in Hall |- *. intros z Hz. specialize (Hall z Hz). unfold keyLt in *. lia.
Qed.

Lemma sortStable_ordered l : Forall P l → ordered (sortStable less l).
Proof.
  induction 1 as [|x l Hx Hl IH]; simpl; [constructor|].
  apply insertStable_ordered; [done| |done]. by rewrite sortStable_perm.
Qed.

End Sorting.

(** The results a scan can produce. *)
Definition resultOK (n : Z) (r : ipResult) : Prop :=
  0 ≤ ipIndex r < n ∧ fbound 11 (loss r) ∧ Z.abs (latency r) < 2 ^ 64.

Definition resultKey (r : ipResult) : Z * Z := (units (loss r), latency r).

Lemma resultLess_key n x y :
  resultOK n x → resultOK n y → resultLess x y = true ↔ keyLt (resultKey x) (resultKey y).
Proof.
  intros (_ & Hx & _) (_ & Hy & _). unfold resultLess, keyLt, resultKey. cbn [fst snd].
  assert (feqb (loss x) (loss y) = (units (loss x) =? units (loss y))) as ->
    by (by destruct (loss x), (loss y)).
  assert (fltb (loss x) (loss y) = (units (loss x) <? units (loss y))) as ->
    by (by destruct (loss x), (loss y)).
  destruct (Z.eqb_spec (units (loss x)) (units (loss y))); simpl; rewrite Z.ltb_lt; lia.
Qed.

(** ** Refreshing the choice *)

Definition sumZ (l : list Z) : Z := foldr Z.add 0 l.

Lemma sumZ_app l k : sumZ (l ++ k) = sumZ l + sumZ k.
Proof. induction l; simpl; [done|lia]. Qed.

Lemma setIdx_Some {A} (l : list A) i x :
  0 ≤ i < zlen l → setIdx l i x = Some (<[Z.to_nat i := x]> l).
Proof.
  intros Hi. unfold setIdx. destruct (Z.leb_spec 0 i), (Z.ltb_spec i (zlen l)); done || lia.
Qed.

Lemma take_insert_next {A} (l : list A) (i : nat) x :
  (i < length l)%nat → take (S i) (<[i := x]> l) = take i l ++ [x].
Proof.
  intros Hi. rewrite (take_S_r _ _ x); [|by apply list_lookup_insert_eq]. by rewrite take_insert_ge.
Qed.

Lemma fillBest_spec n top results i idxs ws total :
  Forall (resultOK n) results → 0 ≤ i ≤ top → zlen idxs = top → zlen ws = top →
  ∃ idxs' ws' W,
    let k := Z.to_nat (Z.min (top - i) (zlen results)) in
    fillBest top i results idxs ws total = Some (idxs', ws', total + sumZ W, i + Z.of_nat k) ∧
    zlen idxs' = top ∧ zlen ws' = top ∧ length W = k ∧ Forall (λ w, 1 ≤ w ≤ 10000) W ∧
    take (Z.to_nat i + k) idxs' = take (Z.to_nat i) idxs ++ (ipIndex <$> take k results) ∧
    take (Z.to_nat i + k) ws' = take (Z.to_nat i) ws ++ W.
Proof.
  intros HR. revert i idxs ws total. induction HR as [|r results Hr HR IH]; intros i idxs ws total Hi HI HW.
  - exists idxs, ws, []. change (zlen (@nil ipResult)) with 0. rewrite Z.min_r by lia. simpl.
    rewrite !Z.add_0_r, Nat.add_0_r, !app_nil_r. done.
  - cbn [fillBest]. destruct (Z.ltb_spec i top) as [Hlt|Hge].
    + destruct (weightOf_range r ltac:(apply Hr) ltac:(apply Hr)) as (w & Ew & Hw).
      rewrite setIdx_Some by lia. cbn [mbind option_bind]. rewrite Ew. cbn [mbind option_bind].
      rewrite setIdx_Some by lia. cbn [mbind option_bind].
      destruct (IH (i + 1) (<[Z.to_nat i := ipIndex r]> idxs) (<[Z.to_nat i := w]> ws) (total + w))
        as (idxs' & ws' & W & E & H1 & H2 & H3 & H4 & H5 & H6);
        [lia|by unfold zlen in *; rewrite length_insert..|].
      exists idxs', ws', (w :: W). cbv zeta in *. rewrite zlen_cons.
      pose proof (zlen_nonneg results).
      replace (Z.to_nat (Z.min (top - i) (zlen results + 1)))
        with (S (Z.to_nat (Z.min (top - (i + 1)) (zlen results)))) by lia.
      set (k := Z.to_nat (Z.min (top - (i + 1)) (zlen results))) in *.
      rewrite E. cbn [sumZ foldr]. split_and!; try done.
      * f_equal. f_equal; [f_equal; unfold sumZ; lia|lia].
      * simpl. by rewrite H3.
      * by constructor.
      * replace (Z.to_nat i + S k)%nat with (Z.to_nat (i + 1) + k)%nat by lia. rewrite H5.
        replace (Z.to_nat (i + 1)) with (S (Z.to_nat i)) by lia.
        rewrite take_insert_next by (unfold zlen in *; lia). cbn [take fmap list_fmap].
        by rewrite <- app_assoc.
      * replace (Z.to_nat i + S k)%nat with (Z.to_nat (i + 1) + k)%nat by lia. rewrite H6.
        replace (Z.to_nat (i + 1)) with (S (Z.to_nat i)) by lia.
        rewrite take_insert_next by (unfold zlen in *; lia). by rewrite <- app_assoc.
    + exists idxs, ws, []. rewrite Z.min_l by (pose proof (zlen_nonneg (r :: results)); lia).
      replace (Z.to_nat (top - i)) with O by lia. simpl.
      rewrite !Z.add_0_r, Nat.add_0_r, !app_nil_r. done.
Qed.

Lemma clearWeights_spec n i ws :
  0 ≤ i → i + Z.of_nat n ≤ zlen ws →
  ∃ ws', clearWeights n i ws = Some ws' ∧ zlen ws' = zlen ws ∧ take (Z.to_nat i) ws' = take (Z.to_nat i) ws.
Proof.
  revert i ws. induction n as [|n IH]; intros i ws Hi Hle; cbn [clearWeights]; [eauto|].
  rewrite setIdx_Some by lia. cbn [mbind option_bind].
  destruct (IH (i + 1) (<[Z.to_nat i := 0]> ws)) as (ws' & E & Hl & Ht);
    [lia|unfold zlen in *; rewrite length_insert; lia|].
  exists ws'. split; [done|]. split; [unfold zlen in *; rewrite Hl; by rewrite length_insert|].
  replace (Z.to_nat (i + 1)) with (S (Z.to_nat i)) in Ht by lia.
  apply (f_equal (take (Z.to_nat i))) in Ht. rewrite !take_take, !Nat.min_l in Ht by lia.
  by rewrite Ht, take_insert_ge by lia.
Qed.

(** The invariant of a pool. *)
Record poolOK (p : IPPool) : Prop := mkPoolOK {
  ok_top : 1 ≤ topIPCount p ≤ 255;
  ok_attempts : 1 ≤ attempts p ≤ 255;
  ok_indexes : zlen (bestIndexes p) = topIPCount p;
  ok_weights : zlen (bestWeights p) = topIPCount p;
  ok_valid : 0 ≤ curValidIPs p ≤ topIPCount p;
  ok_counter : 0 ≤ counter p < 2 ^ 32;
  ok_total : totalWeight p = sumZ (take (Z.to_nat (curValidIPs p)) (bestWeights p));
  ok_pos : Forall (λ w, 1 ≤ w ≤ 10000) (take (Z.to_nat (curValidIPs p)) (bestWeights p));
  ok_range : Forall (λ i, 0 ≤ i < zlen (ips p)) (take (Z.to_nat (curValidIPs p)) (bestIndexes p));
}.

(** The addresses a pool hands out, best first. *)
Definition chosen (p : IPPool) : list Z := take (Z.to_nat (curValidIPs p)) (bestIndexes p).

Lemma mapM_idx {A} (l : list A) (is_ : list Z) :
  Forall (λ i, 0 ≤ i < zlen l) is_ → is_Some (mapM (idx l) is_).
Proof.
  intros H. apply mapM_is_Some. eapply Forall_impl; [exact H|]. intros i Hi. by apply idx_is_Some.
Qed.

Lemma updateBest_spec p results :
  poolOK p → Forall (resultOK (zlen (ips p))) results → results ≠ [] →
  ∃ p', updateBest p results = Some p' ∧ poolOK p' ∧
    ips p' = ips p ∧ fallbackIP p' = fallbackIP p ∧ counter p' = counter p ∧
    curValidIPs p' = Z.min (topIPCount p) (zlen results) ∧
    chosen p' = ipIndex <$> take (Z.to_nat (curValidIPs p')) (sortStable resultLess results).
Proof.
  intros Hp HR Hne. unfold updateBest. rewrite bool_decide_eq_false_2 by done. cbv zeta.
  set (sorted := sortStable resultLess results).
  assert (sorted ≡ₚ results) as Hperm by apply sortStable_perm.
  assert (Forall (resultOK (zlen (ips p))) sorted) as HS by (by rewrite Hperm).
  assert (zlen sorted = zlen results) as Hlen by (unfold zlen; by rewrite Hperm).
  assert (0 < zlen results) as Hpos by (destruct results; [done|unfold zlen; simpl; lia]).
  destruct (fillBest_spec _ (topIPCount p) sorted 0 (bestIndexes p) (bestWeights p) 0 HS)
    as (idxs & ws & W & E & H1 & H2 & H3 & H4 & H5 & H6);
    [pose proof (ok_top p Hp); lia|apply Hp..|].
  cbv zeta in *. rewrite Z.sub_0_r, Hlen, ?Z.add_0_l, ?Nat.add_0_l in *.
  pose proof (ok_top p Hp) as Htop. pose proof (ok_attempts p Hp). pose proof (ok_counter p Hp).
  set (k := Z.to_nat (Z.min (topIPCount p) (zlen results))) in *.
  rewrite E. cbn [mbind option_bind].
  destruct (clearWeights_spec (Z.to_nat (topIPCount p - Z.of_nat k)) (Z.of_nat k) ws)
    as (ws' & Ec & Hc1 & Hc2); [lia..|].
  rewrite Ec. cbn [mbind option_bind].
  assert (slice idxs 0 (Z.of_nat k) = Some (take k idxs)) as ->.
  { unfold slice. destruct (Z.leb_spec 0 0), (Z.leb_spec 0 (Z.of_nat k)), (Z.leb_spec (Z.of_nat k) (zlen idxs));
      try lia. simpl. f_equal. f_equal. lia. }
  cbn [mbind option_bind]. simpl in H5, H6.
  assert (Forall (λ i, 0 ≤ i < zlen (ips p)) (take k idxs)) as Hidx.
  { rewrite H5. apply Forall_fmap, Forall_take. eapply Forall_impl; [exact HS|]. by intros r [? _]. }
  destruct (mapM_idx (ips p) _ Hidx) as [? ->]. cbn [mbind option_bind].
  assert (u32 (Z.of_nat k) = Z.of_nat k) as -> by (unfold u32; apply Z.mod_small; lia).
  assert (Z.to_nat (Z.of_nat k) = k) as Ek by lia. rewrite Ek in Hc2.
  eexists. split; [reflexivity|]. unfold setBest, chosen. cbn. rewrite Ek.
  split_and!; try done; [|lia].
  constructor; cbn; rewrite ?Ek; try done; try lia.
  - by rewrite Hc2, H6.
  - by rewrite Hc2, H6.
Qed.

(** ** Scans *)

Lemma tally_bounds outcomes :
  let '(s, t) := tally outcomes in
  0 ≤ s ≤ zlen outcomes ∧ - 2 ^ 63 ≤ t < 2 ^ 63 ∧ (Forall (λ o, o = None) outcomes → s = 0).
Proof.
  unfold tally. induction outcomes as [|o outcomes IH] using rev_ind.
  { change (zlen (@nil (option Z))) with 0. simpl foldl. split_and!; lia || done. }
  rewrite foldl_app, zlen_app. change (zlen [o]) with 1. simpl. destruct (foldl _ _ outcomes) as [s t].
  destruct IH as (IH1 & IH2 & IH3). destruct o as [x|].
  - split; [lia|]. split.
    + unfold i64. pose proof (Z.mod_pos_bound (t + x + 2 ^ 63) (2 ^ 64) ltac:(lia)).
      simpl Z.pow in *. lia.
    + intros H. apply Forall_app in H as [_ H]. inversion H; done.
  - split; [lia|]. split; [lia|]. intros H. apply Forall_app in H as [H _]. auto.
Qed.

(** The result the worker of address [i] reports. *)
Definition resultOf (p : IPPool) (outcomes : Z → list (option Z)) (i : Z) : ipResult :=
  let '(lat, rate) := testIP p (outcomes i) in mkResult i lat rate.

Lemma resultOf_ok p outcomes i :
  poolOK p → zlen (outcomes i) = attempts p → 0 ≤ i < zlen (ips p) →
  resultOK (zlen (ips p)) (resultOf p outcomes i) ∧
  (Forall (λ o, o = None) (outcomes i) → fltb (loss (resultOf p outcomes i)) (of_int 1) = false).
Proof.
  intros Hp Hlen Hi. pose proof (ok_attempts p Hp) as Ha. unfold resultOf, testIP.
  pose proof (tally_bounds (outcomes i)) as Ht. destruct (tally (outcomes i)) as [s t].
  destruct Ht as (Hs & Hb & Hz). rewrite Hlen in Hs. pose proof (lossRate_bound (attempts p) s Ha ltac:(lia)) as Hl.
  assert (∀ lat, Z.abs lat < 2 ^ 64 → resultOK (zlen (ips p)) (mkResult i lat (lossRate (attempts p) s)))
    as Hok by (intros lat Hlat; split_and!; cbn; lia || done).
  destruct (Z.eqb_spec s 0) as [->|Hne].
  - split; [apply Hok; unfold maxInt64; lia|]. intros _. by apply lossRate_zero.
  - split; [|intros H; by specialize (Hz H)]. apply Hok.
    assert (Z.abs (t ÷ s) ≤ Z.abs t); [|lia].
    rewrite <- Z.quot_abs by lia.
    rewrite Z.quot_div_nonneg by lia. apply Z.div_le_upper_bound; nia.
Qed.

Lemma scan_results p outcomes arrival :
  scan p outcomes arrival =
  updateBest p (filter (λ r, fltb (loss r) (of_int 1) = true) (resultOf p outcomes <$> arrival)).
Proof. done. Qed.

Lemma scan_all_ok p outcomes arrival :
  poolOK p → (∀ i, zlen (outcomes i) = attempts p) → arrival ≡ₚ seqZ 0 (zlen (ips p)) →
  Forall (resultOK (zlen (ips p))) (resultOf p outcomes <$> arrival).
Proof.
  intros Hp Hlen Harr. apply Forall_fmap, Forall_forall. intros i Hi.
  rewrite Harr, elem_of_seqZ in Hi. simpl. apply resultOf_ok; [done..|lia].
Qed.

Lemma Forall_filter {A} (Q P : A → Prop) `{!∀ x, Decision (P x)} l : Forall Q l → Forall Q (filter P l).
Proof. rewrite !Forall_forall. intros HQ x [_ Hx]%list_elem_of_filter. auto. Qed.

Lemma scan_spec p outcomes arrival :
  poolOK p → (∀ i, zlen (outcomes i) = attempts p) → arrival ≡ₚ seqZ 0 (zlen (ips p)) →
  ∃ p', scan p outcomes arrival = Some p' ∧ poolOK p' ∧ ips p' = ips p ∧ fallbackIP p' = fallbackIP p ∧
    counter p' = counter p ∧ attempts p' = attempts p.
Proof.
  intros Hp Hlen Harr. rewrite scan_results.
  pose proof (Forall_filter _ (λ r, fltb (loss r) (of_int 1) = true) _ (scan_all_ok p _ _ Hp Hlen Harr)) as HR.
  set (rs := filter _ _) in *. destruct (decide (rs = [])) as [E|Hne].
  - rewrite E. unfold updateBest. rewrite bool_decide_eq_true_2 by done. eauto 10.
  - destruct (updateBest_spec p rs Hp HR Hne) as (p' & E & Hok & Hi & Hf & Hc & _).
    exists p'. split_and!; try done.
    clear -E. unfold updateBest in E. destruct (bool_decide _); [by simplify_eq|]. cbv zeta in E.
    destruct (fillBest _ _ _ _ _ _) as [[[[idxs ws] tot] v]|]; [|done]. cbn [mbind option_bind] in E.
    destruct (clearWeights _ _ _); [|done]. cbn [mbind option_bind] in E.
    destruct (slice _ _ _); [|done]. cbn [mbind option_bind] in E.
    destruct (mapM _ _); [|done]. by injection E as <-.
Qed.

Lemma StronglySorted_take_drop {A} (R : A → A → Prop) n l x y :
  StronglySorted R l → x ∈ take n l → y ∈ drop n l → R x y.
Proof.
  revert n. induction l as [|z l IH]; intros n HS Hx Hy; [by destruct n; apply not_elem_of_nil in Hy|].
  inversion HS as [|? ? HS' Hall]; subst. destruct n as [|n]; [by apply not_elem_of_nil in Hx|].
  simpl in *. apply elem_of_cons in Hx as [->|Hx]; [|eauto].
  rewrite Forall_forall in Hall. apply Hall. rewrite <- (take_drop n l). by apply elem_of_app; right.
Qed.

Lemma filter_fmap {A B} (f : A → B) (P : B → Prop) `{!∀ x, Decision (P x)} (l : list A) :
  filter P (f <$> l) = f <$> filter (λ x, P (f x)) l.
Proof.
  induction l as [|x l IH]; [done|]. rewrite fmap_cons, !filter_cons, IH. by destruct (decide (P (f x))).
Qed.

Lemma elem_of_split_at {A} (n : nat) (l : list A) x : x ∈ l → x ∈ take n l ∨ x ∈ drop n l.
Proof. rewrite <- (take_drop n l) at 1. apply elem_of_app. Qed.

Lemma take_subset {A} (n : nat) (l : list A) : take n l ⊆ l.
Proof. intros x Hx. rewrite <- (take_drop n l). by apply elem_of_app; left. Qed.

(** A scan keeps the best addresses.  Whatever the dials answer and in
    whatever order the workers report, [scan] does not panic; when no address
    answered the choice stays; otherwise the chosen addresses are different
    ones that answered, as many as allowed, and no address left out has less
    loss, or the same loss and less latency, than a chosen one.  An address
    that never answered is not chosen. *)
Theorem scan_selects_best (p : IPPool) (outcomes : Z → list (option Z)) (arrival : list Z) :
  poolOK p → (∀ i, zlen (outcomes i) = attempts p) → arrival ≡ₚ seqZ 0 (zlen (ips p)) →
  let answered := filter (λ i, fltb (loss (resultOf p outcomes i)) (of_int 1) = true) arrival in
  ∃ p', scan p outcomes arrival = Some p' ∧
    if decide (answered = []) then p' = p
    else NoDup (chosen p') ∧ zlen (chosen p') = Z.min (topIPCount p) (zlen answered) ∧
      chosen p' ⊆ answered ∧
      (∀ i j, i ∈ chosen p' → j ∈ answered → j ∉ chosen p' →
        resultLess (resultOf p outcomes j) (resultOf p outcomes i) = false) ∧
      (∀ i, Forall (λ o, o = None) (outcomes i) → i ∉ chosen p').
Proof.
  intros Hp Hlen Harr answered. rewrite scan_results.
  pose proof (scan_all_ok p _ _ Hp Hlen Harr) as Hall.
  assert (filter (λ r, fltb (loss r) (of_int 1) = true) (resultOf p outcomes <$> arrival)
          = resultOf p outcomes <$> answered) as -> by apply filter_fmap.
  assert (∀ i, ipIndex (resultOf p outcomes i) = i) as Hidx.
  { intros i. unfold resultOf. by destruct (testIP _ _). }
  assert (∀ i, i ∈ answered → resultOK (zlen (ips p)) (resultOf p outcomes i)) as Hok.
  { intros i [_ Hi]%list_elem_of_filter. rewrite Forall_fmap, Forall_forall in Hall. by apply Hall. }
  destruct (decide (answered = [])) as [E|Hne].
  { rewrite E. exists p. done. }
  destruct (updateBest_spec p (resultOf p outcomes <$> answered)) as (p' & E & Hok' & _ & _ & _ & Hv & Hch).
  { done. } { apply Forall_fmap, Forall_forall. exact Hok. } { by destruct answered. }
  exists p'. split; [done|]. set (sorted := sortStable _ _) in *.
  set (k := Z.to_nat (curValidIPs p')) in *.
  assert (ipIndex <$> sorted ≡ₚ answered) as Hperm.
  { unfold sorted. rewrite sortStable_perm, <- list_fmap_compose.
    rewrite (list_fmap_ext _ id) by (intros; simpl; apply Hidx). by rewrite list_fmap_id. }
  assert (NoDup answered) as HND.
  { apply NoDup_filter. rewrite Harr. apply NoDup_seqZ. }
  assert (∀ r, r ∈ sorted → r = resultOf p outcomes (ipIndex r) ∧ ipIndex r ∈ answered) as Hsorted.
  { intros r Hr. unfold sorted in Hr. rewrite sortStable_perm in Hr.
    apply list_elem_of_fmap in Hr as (i & -> & Hi). by rewrite Hidx. }
  assert (chosen p' ⊆ answered) as Hsub.
  { intros i Hi. rewrite Hch in Hi. apply list_elem_of_fmap in Hi as (r & -> & Hr).
    apply Hsorted. by eapply take_subset. }
  split_and!; [| |done| |].
  - rewrite Hch, fmap_take. eapply sublist_NoDup; [|apply sublist_take]. by rewrite Hperm.
  - rewrite Hch. unfold zlen. rewrite length_fmap, length_take.
    replace (length sorted) with (length answered) by (rewrite <- Hperm; by rewrite length_fmap).
    unfold k. rewrite Hv. unfold zlen. rewrite length_fmap. pose proof (ok_top p Hp). lia.
  - intros i j Hi Hj Hnj. rewrite Hch in Hi, Hnj.
    apply list_elem_of_fmap in Hi as (r & -> & Hr).
    rewrite <- Hperm in Hj. apply list_elem_of_fmap in Hj as (r' & -> & Hr').
    destruct (elem_of_split_at k _ _ Hr') as [Ht|Hd].
    { destruct Hnj. by apply list_elem_of_fmap_2. }
    destruct (Hsorted r) as [Er Ha]; [by eapply take_subset|]. destruct (Hsorted r') as [Er' Ha']; [done|].
    rewrite <- Er, <- Er'. apply not_true_is_false. rewrite (resultLess_key (zlen (ips p))).
    + refine (StronglySorted_take_drop (λ x y, ¬ keyLt (resultKey y) (resultKey x)) k sorted r r' _ Hr Hd).
      apply (sortStable_ordered _ _ (resultOK (zlen (ips p)))); [by intros; eapply resultLess_key|].
      apply Forall_fmap, Forall_forall. exact Hok.
    + rewrite Er'. by apply Hok.
    + rewrite Er. by apply Hok.
  - intros i HNone Hi. apply Hsub, list_elem_of_filter in Hi as [Ht Hi].
    rewrite Harr, elem_of_seqZ in Hi.
    destruct (resultOf_ok p outcomes i Hp (Hlen i) ltac:(lia)) as [_ Hf]. by rewrite Hf in Ht.
Qed.

Definition demoPool : IPPool :=
  mkPool false [lit "192.0.2.1"; lit "192.0.2.2"; lit "192.0.2.3"] [] 443 2 2 defaultTimeout
    defaultUpdateInterval [0; 0] [0; 0] 0 0 100 0 None false.

(** Dials that take 20 ms, 10 ms with one lost, and fail. *)
Definition demoOutcomes (i : Z) : list (option Z) :=
  if i =? 0 then [Some 20000000; Some 20000000]
  else if i =? 1 then [Some 10000000; None] else [None; None].

Lemma demoPool_ok : poolOK demoPool.
Proof. constructor; cbn; try lia; repeat constructor. Qed.

Example demo_scan :
  (λ p, (chosen p, bestWeights p)) <$> scan demoPool demoOutcomes [2; 1; 0] = Some ([0; 1], [499; 666]).
Proof. vm_compute. reflexivity. Qed.

Lemma scan_selects_best_witness :
  ∃ p', scan demoPool demoOutcomes [2; 1; 0] = Some p' ∧ NoDup (chosen p') ∧ chosen p' = [0; 1].
Proof.
  destruct (scan_selects_best demoPool demoOutcomes [2; 1; 0] demoPool_ok) as (p' & E & H).
  - intros i. unfold demoOutcomes. by destruct (i =? 0), (i =? 1).
  - apply (bool_decide_unpack _). vm_compute. exact I.
  - exists p'. split; [exact E|].
    assert (chosen p' = [0; 1]) as Ec.
    { vm_compute in E. injection E as <-. reflexivity. }
    split; [|exact Ec]. destruct (decide _) as [En|_].
    + exfalso. vm_compute in En. discriminate En.
    + exact (proj1 H).
Defined.

(** ** Fair choice *)

(** Each address [weight] times, in order. *)
Definition shares (p : IPPool) (weights indexes : list Z) : list gostring :=
  mjoin (zip_with (λ w i, replicate (Z.to_nat w) (default [] (idx (ips p) i))) weights indexes).

Lemma idx_default {A} (d : A) l i : 0 ≤ i < zlen l → idx l i = Some (default d (idx l i)).
Proof. intros Hi. destruct (idx_is_Some l i Hi) as [x ->]. done. Qed.

Lemma shares_length p weights indexes :
  Forall (λ w, 1 ≤ w ≤ 10000) weights → length weights = length indexes →
  zlen (shares p weights indexes) = sumZ weights.
Proof.
  unfold shares. intros HW. revert indexes. induction HW as [|w weights Hw HW IH]; intros [|i indexes] Hl;
    try done. simpl in *. rewrite zlen_app, IH by lia. unfold zlen. rewrite length_replicate. lia.
Qed.

(** The loop returns the address at the target's place in the shares. *)
Lemma pickLoop_shares p weights indexes acc target :
  Forall (λ w, 1 ≤ w ≤ 10000) weights → Forall (λ i, 0 ≤ i < zlen (ips p)) indexes →
  length weights = length indexes → acc ≤ target < acc + sumZ weights →
  pickLoop p weights indexes acc target = shares p weights indexes !! Z.to_nat (target - acc).
Proof.
  intros HW. revert indexes acc. induction HW as [|w weights Hw HW IH]; intros [|i indexes] acc HI Hl Ht;
    try done; [simpl in Ht; lia|].
  inversion HI as [|? ? Hi HI']; subst. cbn [pickLoop sumZ foldr] in *. fold (sumZ weights) in Ht.
  unfold shares. cbn [zip_with mjoin list_join]. fold (shares p weights indexes).
  destruct (Z.ltb_spec target (acc + w)).
  - rewrite lookup_app_l by (rewrite length_replicate; lia). rewrite lookup_replicate_2 by lia.
    by apply idx_default.
  - rewrite lookup_app_r by (rewrite length_replicate; lia). rewrite length_replicate.
    rewrite IH; [|done|simpl in Hl; lia|lia]. unfold shares. f_equal. lia.
Qed.

(** [n] calls of [Get] in a row. *)
Fixpoint runGets (n : nat) (p : IPPool) : option (list gostring * IPPool) :=
  match n with
  | O => Some ([], p)
  | S n =>
      '(a, p) ← Get p;
      '(l, p) ← runGets n p;
      Some (a :: l, p)
  end.

Lemma slice_take {A} (l : list A) n : 0 ≤ n ≤ zlen l → slice l 0 n = Some (take (Z.to_nat n) l).
Proof.
  intros Hn. unfold slice. destruct (Z.leb_spec 0 0), (Z.leb_spec 0 n), (Z.leb_spec n (zlen l)); try lia.
  simpl. by rewrite Z.sub_0_r.
Qed.

(** The snapshots that [Get] works on. *)
Record snapshotOK (n : Z) (s : snapshot) : Prop := mkSnapshotOK {
  snap_length : length (sWeights s) = length (sIndexes s);
  snap_pos : Forall (λ w, 1 ≤ w ≤ 10000) (sWeights s);
  snap_range : Forall (λ i, 0 ≤ i < n) (sIndexes s);
  snap_total : sTotal s = sumZ (sWeights s);
  snap_total_pos : 0 < sTotal s;
}.

Lemma sumZ_pos l : Forall (λ w, 1 ≤ w ≤ 10000) l → l ≠ [] → 0 < sumZ l.
Proof.
  intros H. induction H as [|w l Hw Hl IH]; [done|]. intros _. simpl.
  destruct l; [simpl; lia|]. specialize (IH ltac:(done)). lia.
Qed.

Lemma takeSnapshot_ok p :
  poolOK p → curValidIPs p ≠ 0 →
  takeSnapshot p = Some (mkSnapshot (chosen p) (take (Z.to_nat (curValidIPs p)) (bestWeights p)) (totalWeight p)) ∧
  snapshotOK (zlen (ips p))
    (mkSnapshot (chosen p) (take (Z.to_nat (curValidIPs p)) (bestWeights p)) (totalWeight p)).
Proof.
  intros [Htop Hatt HI HW Hv Hc Ht Hp Hr] Hne. unfold takeSnapshot, chosen.
  rewrite !slice_take by lia. split; [done|]. unfold zlen in *. constructor; cbn; try done.
  - rewrite !length_take. lia.
  - rewrite Ht. apply sumZ_pos; [done|]. intros E. apply (f_equal length) in E.
    rewrite length_take in E. simpl in E. lia.
Qed.

Lemma pick_ok p s :
  snapshotOK (zlen (ips p)) s → 0 ≤ counter p < 2 ^ 32 →
  ∃ a, pick p s = Some (a, setCounter p (u32 (counter p + 1))) ∧
    shares p (sWeights s) (sIndexes s) !! Z.to_nat (counter p mod sTotal s) = Some a.
Proof.
  intros [Hl Hp Hr Ht Hpos] Hc. unfold pick. cbn [counter setCounter].
  assert (u32 (u32 (counter p + 1) - 1) = counter p) as ->.
  { unfold u32. rewrite Zminus_mod_idemp_l, Z.add_simpl_r. by apply Z.mod_small. }
  destruct (Z.eqb_spec (sTotal s) 0); [lia|]. rewrite Z.rem_mod_nonneg by lia.
  pose proof (Z.mod_pos_bound (counter p) (sTotal s) Hpos) as Hm.
  rewrite pickLoop_shares by (done || lia). rewrite Z.sub_0_r.
  change (shares (setCounter p _)) with (shares p).
  pose proof (shares_length p _ _ Hp Hl) as Hlen.
  destruct (lookup_lt_is_Some_2 (shares p (sWeights s) (sIndexes s)) (Z.to_nat (counter p mod sTotal s)))
    as [a Ea]; [unfold zlen in Hlen; lia|].
  rewrite Ea. cbn [mbind option_bind]. eauto.
Qed.

Lemma setCounter_ok p c : poolOK p → 0 ≤ c < 2 ^ 32 → poolOK (setCounter p c).
Proof. intros [] Hc. by constructor. Qed.

Lemma u32_range z : 0 ≤ u32 z < 2 ^ 32.
Proof. unfold u32. apply Z.mod_pos_bound. lia. Qed.

Lemma runGets_spec n p :
  poolOK p → curValidIPs p ≠ 0 → counter p + Z.of_nat n ≤ 2 ^ 32 →
  let all := shares p (take (Z.to_nat (curValidIPs p)) (bestWeights p)) (chosen p) in
  ∃ p', runGets n p = Some
    ((λ j, default [] (all !! Z.to_nat (j mod totalWeight p))) <$> seqZ (counter p) (Z.of_nat n), p').
Proof.
  revert p. induction n as [|n IH]; intros p Hp Hne Hc all; [by exists p|].
  pose proof (ok_counter p Hp). destruct (takeSnapshot_ok p Hp Hne) as [Es Hs].
  destruct (pick_ok p _ Hs ltac:(lia)) as (a & Ea & Hl). cbn [sWeights sIndexes sTotal] in Hl.
  cbn [runGets]. unfold Get. destruct (Z.eqb_spec (curValidIPs p) 0); [done|].
  rewrite Es. cbn [mbind option_bind]. rewrite Ea.
  rewrite seqZ_cons by lia. cbn [fmap list_fmap]. change (all !! Z.to_nat (counter p mod totalWeight p) = Some a) in Hl. rewrite Hl. cbn [default].
  destruct n as [|n].
  { cbn. eauto. }
  destruct (IH (setCounter p (u32 (counter p + 1)))) as [p' E'].
  - apply setCounter_ok; [done|apply u32_range].
  - done.
  - cbn [counter setCounter]. unfold u32. rewrite Z.mod_small by lia. lia.
  - exists p'. cbn [mbind option_bind]. rewrite E'. cbn [mbind option_bind]. f_equal. f_equal. f_equal.
    replace (u32 (counter p + 1)) with (Z.succ (counter p)) by (unfold u32; rewrite Z.mod_small; lia).
    replace (Z.pred (Z.of_nat (S (S n)))) with (Z.of_nat (S n)) by lia. done.
Qed.

(** Consecutive numbers run through the residues. *)
Lemma seqZ_residues c t : 0 < t → (λ j, j mod t) <$> seqZ c t ≡ₚ seqZ 0 t.
Proof.
  intros Ht. assert (NoDup ((λ j, j mod t) <$> seqZ c t)) as HN.
  { apply NoDup_fmap_2_strong; [|apply NoDup_seqZ]. intros x y Hx Hy E.
    rewrite elem_of_seqZ in Hx, Hy. pose proof (Z_div_mod_eq_full x t). pose proof (Z_div_mod_eq_full y t).
    assert (x / t = y / t) by nia. congruence. }
  apply submseteq_length_Permutation.
  - apply NoDup_submseteq; [done|]. intros z (j & -> & _)%list_elem_of_fmap.
    rewrite elem_of_seqZ. pose proof (Z.mod_pos_bound j t Ht). lia.
  - rewrite length_fmap, !length_seqZ. lia.
Qed.

Lemma list_all_lookups {A} (d : A) (l : list A) :
  (λ j, default d (l !! Z.to_nat j)) <$> seqZ 0 (zlen l) = l.
Proof.
  apply list_eq. intros i. rewrite list_lookup_fmap. destruct (l !! i) as [x|] eqn:E.
  - pose proof (lookup_lt_Some _ _ _ E). rewrite lookup_seqZ_lt by (unfold zlen; lia).
    simpl. replace (Z.to_nat (0 + Z.of_nat i)) with i by lia. by rewrite E.
  - apply lookup_ge_None in E. rewrite lookup_seqZ_ge by (unfold zlen; lia). done.
Qed.

(** The choice is fair.  When the pool has addresses, [totalWeight]
    consecutive calls of [Get] (before the counter wraps around) return, up to
    order, each chosen address as often as its weight says, never the
    fallback. *)
Theorem get_fair (p : IPPool) :
  poolOK p → curValidIPs p ≠ 0 → counter p + totalWeight p ≤ 2 ^ 32 →
  ∃ answers p', runGets (Z.to_nat (totalWeight p)) p = Some (answers, p') ∧
    answers ≡ₚ shares p (take (Z.to_nat (curValidIPs p)) (bestWeights p)) (chosen p).
Proof.
  intros Hp Hne Hc. destruct (takeSnapshot_ok p Hp Hne) as [_ [Hl Hpos Hr Ht Htp]]. cbn in *.
  destruct (runGets_spec (Z.to_nat (totalWeight p)) p Hp Hne ltac:(lia)) as [p' E].
  eexists _, p'. split; [exact E|]. rewrite Z2Nat.id by lia.
  set (all := shares _ _ _).
  assert (zlen all = totalWeight p) as Hlen by (rewrite Ht; by apply shares_length).
  trans ((λ j, default [] (all !! Z.to_nat j)) <$> seqZ 0 (zlen all)); [|by rewrite list_all_lookups].
  rewrite Hlen.
  rewrite <- (seqZ_residues (counter p) (totalWeight p)) by lia. by rewrite <- list_fmap_compose.
Qed.

Definition fairPool : IPPool :=
  mkPool false [lit "192.0.2.1"; lit "192.0.2.2"; lit "192.0.2.3"] [] 443 2 2 defaultTimeout
    defaultUpdateInterval [2; 0] [3; 1] 4 2 100 41 None false.

Lemma get_fair_witness :
  ∃ answers p', runGets 4 fairPool = Some (answers, p') ∧
    answers ≡ₚ [lit "192.0.2.3"; lit "192.0.2.3"; lit "192.0.2.3"; lit "192.0.2.1"].
Proof.
  destruct (get_fair fairPool) as (answers & p' & E & H).
  - constructor; cbn; repeat first [lia | constructor].
  - cbn. lia.
  - cbn. lia.
  - exists answers, p'. split; [exact E|exact H].
Defined.

(** ** Well-formed pools from the configuration *)

Definition isAddressText (s : gostring) : Prop := ∃ a, ParseAddr s = Some a.

Lemma AddrString_text a : addr_wf a → has_zone a = false → isAddressText (AddrString a).
Proof. intros. exists a. by apply ParseAddr_AddrString. Qed.

Lemma Next_wf a : addr_wf a → IsValid (Next a) = true → addr_wf (Next a).
Proof.
  destruct a as [|v|v z]; simpl; try done.
  - destruct (Z.eqb_spec v (2 ^ 32 - 1)); simpl; [done|]. lia.
  - destruct (Z.eqb_spec v (2 ^ 128 - 1)); simpl; [done|]. lia.
Qed.

Lemma Contains_no_zone p a : Contains p a = true → has_zone a = false.
Proof. unfold Contains. rewrite !andb_true_iff. intros [[[H _] _] _]. by apply negb_true_iff in H. Qed.

Lemma expandCIDR_spec fuel s prefix addr acc :
  addr_wf addr → Forall isAddressText acc → zlen acc ≤ maxIPPoolSize →
  maxIPPoolSize < zlen acc + Z.of_nat fuel →
  expandCIDR fuel s prefix addr acc ≠ Panic ∧
  ∀ ips, expandCIDR fuel s prefix addr acc = Ok ips → Forall isAddressText ips ∧ zlen ips ≤ maxIPPoolSize.
Proof.
  revert addr acc. induction fuel as [|fuel IH]; intros addr acc Hwf Hacc Hle Hf; [lia|].
  cbn [expandCIDR]. destruct (Contains prefix addr) eqn:EC; [|split; [done|by intros ? [= <-]]].
  destruct (Z.leb_spec maxIPPoolSize (zlen acc)); [done|]. cbv zeta.
  assert (Forall isAddressText (acc ++ [AddrString addr])) as Hacc'.
  { apply Forall_app. split; [done|]. constructor; [|done]. apply AddrString_text; [done|].
    by eapply Contains_no_zone. }
  assert (zlen (acc ++ [AddrString addr]) = zlen acc + 1) as Hlen by (by rewrite zlen_app).
  destruct (IsValid (Next addr)) eqn:EV, (Contains prefix (Next addr)); simpl;
    try (split; [done|]; intros ? [= <-]; split; [done|lia]).
  apply IH; [by apply Next_wf|done|lia|lia].
Qed.

Section ParseFacts.
Context (lookupIP : gostring → res (list bytes)).
Context `{GoTime}.

(** The resolver answers with addresses and does not panic. *)
Definition lookupSane : Prop :=
  ∀ s, lookupIP s ≠ Panic ∧ ∀ l, lookupIP s = Ok l → Forall wf_bytes l.

Hypothesis Hlookup : lookupSane.

Lemma AddrFromSlice_wf b a : wf_bytes b → AddrFromSlice b = Some a → addr_wf a ∧ has_zone a = false.
Proof.
  intros Hb. unfold AddrFromSlice. pose proof (be_value_range b Hb) as Hr.
  destruct (Z.eqb_spec (zlen b) 4) as [E|_]; [intros [= <-]; rewrite E in Hr; done|].
  destruct (Z.eqb_spec (zlen b) 16) as [E|_]; [intros [= <-]; rewrite E in Hr; done|done].
Qed.

Lemma addLookup_spec s addrs acc :
  Forall wf_bytes addrs → Forall isAddressText acc → zlen acc ≤ maxIPPoolSize →
  addLookup s addrs acc ≠ Panic ∧
  ∀ ips, addLookup s addrs acc = Ok ips → Forall isAddressText ips ∧ zlen ips ≤ maxIPPoolSize.
Proof.
  intros HA. revert acc. induction HA as [|ip addrs Hip HA IH]; intros acc Hacc Hle; cbn [addLookup].
  { split; [done|by intros ? [= <-]]. }
  destruct (AddrFromSlice ip) as [addr|] eqn:E; [|by apply IH].
  destruct (AddrFromSlice_wf _ _ Hip E) as [Hwf Hz].
  destruct (IsValid addr); [|by apply IH].
  destruct (Z.leb_spec maxIPPoolSize (zlen acc)); [done|].
  apply IH; [|rewrite zlen_app; change (zlen [_]) with 1; lia].
  apply Forall_app. split; [done|]. constructor; [|done]. by apply AddrString_text.
Qed.

Lemma addEntry_spec s acc :
  Forall isAddressText acc → zlen acc ≤ maxIPPoolSize →
  addEntry lookupIP s acc ≠ Panic ∧
  ∀ ips, addEntry lookupIP s acc = Ok ips → Forall isAddressText ips ∧ zlen ips ≤ maxIPPoolSize.
Proof.
  intros Hacc Hle. unfold addEntry. destruct (Z.leb_spec maxIPPoolSize (zlen acc)); [done|].
  destruct (match ParseAddr s with Some addr => IsValid addr | None => false end) eqn:EP.
  - split; [done|]. intros ? [= <-]. split.
    + apply Forall_app. split; [done|]. constructor; [|done].
      destruct (ParseAddr s) as [a|] eqn:E; [by exists a|done].
    + rewrite zlen_app. change (zlen [s]) with 1. lia.
  - destruct (ParsePrefix s) as [prefix|] eqn:E.
    + apply expandCIDR_spec; try done; [by eapply ParsePrefix_wf|].
      pose proof (zlen_nonneg acc). unfold maxIPPoolSize in *. lia.
    + destruct (Hlookup s) as [Hnp Hok]. destruct (lookupIP s) as [l|e|]; [|done|done].
      apply addLookup_spec; try done. by apply Hok.
Qed.

Lemma addEntries_spec l acc :
  Forall isAddressText acc → zlen acc ≤ maxIPPoolSize →
  addEntries lookupIP l acc ≠ Panic ∧
  ∀ ips, addEntries lookupIP l acc = Ok ips → Forall isAddressText ips ∧ zlen ips ≤ maxIPPoolSize.
Proof.
  revert acc. induction l as [|s l IH]; intros acc Hacc Hle; cbn [addEntries].
  { split; [done|by intros ? [= <-]]. }
  destruct (addEntry_spec s acc Hacc Hle) as [Hnp Hok].
  destruct (addEntry lookupIP s acc) as [acc'|e|]; [|done|done]. cbn [mbind res_bind].
  destruct (Hok acc' eq_refl) as [H1 H2]. by apply IH.
Qed.

Lemma unmarshalPool_ok raw p :
  unmarshalPool lookupIP raw = Ok p →
  poolOK p ∧ curValidIPs p = 0 ∧ fallbackIP p = jFallbackIP raw ∧ Forall isAddressText (ips p) ∧ ips p ≠ [] ∧
  zlen (ips p) ≤ maxIPPoolSize ∧ 1 ≤ port p ≤ 65535 ∧ 0 < timeout p ∧ 0 < updateInterval p ∧ 0 < semSize p.
Proof.
  unfold unmarshalPool. intros E. apply bind_Ok in E as (l & El & E).
  destruct (addEntries_spec (jIPs raw ≫= expandPattern) [] ltac:(done) ltac:(done)) as [_ Hl].
  specialize (Hl l El) as [Htext Hmax].
  case_bool_decide as Hne; [done|].
  destruct (Z.ltb_spec maxIPPoolSize (zlen l)); [done|].
  destruct (Z.ltb_spec (zlen l) (jTopIPCount raw)); [done|].
  destruct ((jPort raw <=? 0) || (65535 <? jPort raw)) eqn:Eport; [done|]. bool_to_prop.
  apply bind_Ok in E as (conc & Econc & E). apply bind_Ok in E as (top & Etop & E).
  apply bind_Ok in E as (att & Eatt & E). apply bind_Ok in E as (tmo & Etmo & E).
  apply bind_Ok in E as (upd & Eupd & E). injection E as <-.
  assert (0 < conc).
  { repeat case_bool; simplify_eq; unfold defaultMaxConcurrency in *;
      destruct (jMaxConcurrency raw =? 0); try destruct (Z.ltb_spec (jMaxConcurrency raw) 1);
      simplify_eq; lia. }
  assert (1 ≤ top ≤ 255).
  { destruct (Z.eqb_spec (jTopIPCount raw) 0); [by injection Etop as <-|].
    destruct (_ || _) eqn:Eb in Etop; [done|]. injection Etop as <-. bool_to_prop. lia. }
  assert (1 ≤ att ≤ 255).
  { destruct (Z.eqb_spec (jAttempts raw) 0); [by injection Eatt as <-|].
    destruct (_ || _) eqn:Eb in Eatt; [done|]. injection Eatt as <-. bool_to_prop. lia. }
  assert (∀ name d s x, positiveDuration name d s = Ok x → 0 < d → 0 < x) as Hdur.
  { intros name d s x. unfold positiveDuration. case_bool_decide; [by intros [= <-]|].
    destruct (ParseDuration s) as [y|e|]; [|done|done]. destruct (Z.leb_spec y 0); [done|]. by intros [= <-]. }
  apply Hdur in Etmo; [|done]. apply Hdur in Eupd; [|done].
  assert (∀ z, 1 ≤ z ≤ 255 → u8 z = z) as Hu8 by (intros; unfold u8; apply Z.mod_small; lia).
  assert (u16 (jPort raw) = jPort raw) as Hu16 by (unfold u16; apply Z.mod_small; lia).
  split_and!; try done; cbn; try (rewrite Hu16; lia).
  constructor; cbn; rewrite ?Hu8 by lia; try lia; try done; unfold zlen; rewrite ?length_replicate; lia.
Qed.
End ParseFacts.

(** ** Concurrent use

    The goroutine started by [Init] scans once and then at every tick until the
    pool is stopped; any number of connections call [Get] meanwhile.  A scan only
    reads fields that never change until [updateBest] takes the lock, so it is
    one step; a call of [Get] is two: the copy under the read lock, and the
    choice.  Every answer is logged with the number of valid addresses the call
    saw. *)

Inductive phase := Starting | Monitoring | Ended.

Record system := mkSystem {
  pool : IPPool;
  monitor : phase;
  pending : list snapshot;
  answers : list (Z * gostring);
  crashed : bool;
}.

Definition start (p : IPPool) : system := mkSystem (Init p) Starting [] [] false.

Definition onPool {A} (s : system) (r : option A) (k : A → system) : system :=
  match r with
  | Some a => k a
  | None => mkSystem (pool s) (monitor s) (pending s) (answers s) true
  end.

Inductive poolStep : system → system → Prop :=
| step_scan s outcomes arrival :
    (monitor s = Starting ∨ monitor s = Monitoring) →
    (∀ i, zlen (outcomes i) = attempts (pool s)) → arrival ≡ₚ seqZ 0 (zlen (ips (pool s))) →
    poolStep s (onPool s (scan (pool s) outcomes arrival)
                  (λ p, mkSystem p Monitoring (pending s) (answers s) (crashed s)))
| step_stop s :
    poolStep s (mkSystem (Stop (pool s)) (monitor s) (pending s) (answers s) (crashed s))
| step_end s :
    monitor s = Monitoring → stopCh (pool s) = Some true →
    poolStep s (mkSystem (pool s) Ended (pending s) (answers s) (crashed s))
| step_get_fallback s :
    curValidIPs (pool s) = 0 →
    poolStep s (mkSystem (pool s) (monitor s) (pending s) ((0, fallbackIP (pool s)) :: answers s) (crashed s))
| step_get_copy s :
    curValidIPs (pool s) ≠ 0 →
    poolStep s (onPool s (takeSnapshot (pool s))
                  (λ c, mkSystem (pool s) (monitor s) (c :: pending s) (answers s) (crashed s)))
| step_get_pick s l c r :
    pending s = l ++ c :: r →
    poolStep s (onPool s (pick (pool s) c)
                  (λ '(a, p), mkSystem p (monitor s) (l ++ r) ((zlen (sIndexes c), a) :: answers s) (crashed s))).

(** The invariant of the running system, for a pool with addresses [l] and
    fallback [f]. *)
Record systemOK (l : list gostring) (f : gostring) (s : system) : Prop := mkSystemOK {
  sys_pool : poolOK (pool s);
  sys_ips : ips (pool s) = l;
  sys_fallback : fallbackIP (pool s) = f;
  sys_pending : Forall (snapshotOK (zlen l)) (pending s);
  sys_answers : Forall (λ '(n, a), if n =? 0 then a = f else a ∈ l) (answers s);
  sys_crashed : crashed s = false;
}.

Lemma shares_elem p weights indexes a :
  Forall (λ i, 0 ≤ i < zlen (ips p)) indexes → a ∈ shares p weights indexes → a ∈ ips p ∧ indexes ≠ [].
Proof.
  intros HI. unfold shares. revert indexes HI.
  induction weights as [|w weights IH]; intros [|i indexes] HI Ha; try by apply not_elem_of_nil in Ha.
  inversion HI as [|? ? Hi HI']; subst. cbn in Ha. split; [|done].
  apply elem_of_app in Ha as [Ha|Ha]; [|by eapply IH].
  apply elem_of_replicate in Ha as [-> _]. destruct (idx_is_Some _ _ Hi) as [x Ex]. rewrite Ex. cbn.
  unfold idx in Ex. destruct (0 <=? i); [|done]. by eapply list_elem_of_lookup_2.
Qed.

Lemma Stop_ok p : poolOK p → poolOK (Stop p) ∧ ips (Stop p) = ips p ∧ fallbackIP (Stop p) = fallbackIP p.
Proof.
  intros Hp. unfold Stop. destruct (stopOnce p); [done|]. destruct (stopCh p); (split_and!; [|done..]);
    destruct Hp; by constructor.
Qed.

Lemma poolStep_ok l f s s' : systemOK l f s → poolStep s s' → systemOK l f s'.
Proof.
  intros [Hp Hi Hf Hpend Hans Hc] Hstep. destruct Hstep.
  - destruct (scan_spec (pool s) outcomes arrival) as (p' & -> & Hp' & Hi' & Hf' & _); [done..|].
    simpl. constructor; cbn; congruence || done.
  - destruct (Stop_ok _ Hp) as (? & ? & ?). constructor; cbn; congruence || done.
  - by constructor.
  - constructor; cbn; try done. by constructor.
  - destruct (takeSnapshot_ok (pool s)) as [-> Hs]; [done..|]. simpl. rewrite Hi in Hs.
    constructor; cbn; try done. by constructor.
  - rewrite H in Hpend. apply Forall_app in Hpend as [Hl Hcr]. apply Forall_cons in Hcr as [Hcok Hr].
    pose proof (ok_counter _ Hp). rewrite <- Hi in Hcok.
    destruct (pick_ok (pool s) c Hcok) as (a & -> & Ha); [lia|]. simpl.
    constructor; cbn; try done.
    + apply setCounter_ok; [done|apply u32_range].
    + by apply Forall_app.
    + constructor; [|done]. apply list_elem_of_lookup_2 in Ha.
      apply shares_elem in Ha as [Ha Hne]; [|by apply Hcok].
      destruct (Z.eqb_spec (zlen (sIndexes c)) 0) as [E|_]; [|congruence].
      destruct (sIndexes c) as [|i is_]; [done|]. rewrite zlen_cons in E. pose proof (zlen_nonneg is_). lia.
Qed.

(** C21: pools are safe under every interleaving.  A pool that decodes from the
    configuration never panics, whatever scans, calls of [Get] and [Stop] run in
    whatever order; a call of [Get] that saw no valid address returns the
    configured fallback, and every other one an address of the pool, whose text
    is a valid address. *)
Theorem pool_safe `{GoTime} (lookupIP : gostring → res (list bytes)) (raw : rawPool) (p : IPPool) (s : system) :
  lookupSane lookupIP → unmarshalPool lookupIP raw = Ok p → rtc poolStep (start p) s →
  crashed s = false ∧
  ∀ n a, (n, a) ∈ answers s → if n =? 0 then a = jFallbackIP raw else a ∈ ips p ∧ isAddressText a.
Proof.
  intros Hsane Hp Hsteps. destruct (unmarshalPool_ok _ Hsane _ _ Hp) as (Hok & Hv & Hf & Htext & _).
  assert (systemOK (ips p) (jFallbackIP raw) (start p)) as H0.
  { constructor; cbn; try done. destruct Hok; by constructor. }
  assert (systemOK (ips p) (jFallbackIP raw) s) as [_ _ _ _ Hans Hc].
  { revert H0. induction Hsteps as [|s1 s2 s3 H12 _ IH]; intros; [done|]. eauto using poolStep_ok. }
  split; [done|]. intros n a Ha. rewrite Forall_forall in Hans. specialize (Hans _ Ha). cbn in Hans.
  destruct (n =? 0); [done|]. split; [done|]. rewrite Forall_forall in Htext. auto.
Qed.

Definition demoRawPool : rawPool :=
  mkRawPool false (lit "198.51.100.1") [lit "192.0.2.(1|2)"; lit "10.0.0.0/30"] 443 2 0 [] [] 2.

Definition noLookup (s : gostring) : res (list bytes) := fail "no such host".

Lemma pool_safe_witness :
  ∃ p s, @unmarshalPool noLookup goTimeNone demoRawPool = Ok p ∧ zlen (ips p) = 6 ∧
    rtc poolStep (start p) s ∧ answers s = [(0, lit "198.51.100.1")] ∧ crashed s = false.
Proof.
  assert (lookupSane noLookup) as Hsane by (intros s; split; done).
  eexists. eexists. split; [vm_compute; reflexivity|]. split; [reflexivity|].
  match goal with |- rtc _ (start ?p) _ ∧ _ =>
    assert (rtc poolStep (start p) (mkSystem (Init p) Starting [] [(0, lit "198.51.100.1")] false)) as Hr
      by (eapply rtc_once, (step_get_fallback (start p)); reflexivity);
    split; [exact Hr|]; split; [reflexivity|];
    exact (proj1 (@pool_safe goTimeNone noLookup demoRawPool p _ Hsane
      ltac:(vm_compute; reflexivity) Hr))
  end.
Defined.
