(* ===== verification/Session.v ===== *)
(** * Sessions (core/counter.go, core/session_stats.go, mobile/logfile.go, mobile/mobile_api.go)

    The identifiers of sessions, the traffic counters, the log buffer and the log
    files, and the life cycle of the mobile library. *)

From S2P Require Import Prelude Errors.
Local Open Scope Z_scope.

(** ** Session identifiers (core/counter.go)

    [Next] loads the counter, computes the successor and tries to swap it in; a
    swap that comes too late starts again.  A thread is either about to load or
    holds the value it has loaded. *)

Definition maxConnID : Z := 0xFFFFF.

Definition succID (old : Z) : Z :=
  let new := u32 (old + 1) in
  if maxConnID <? new then 1 else new.

Record counter := mkCounter {
  cValue : Z;
  cThreads : list (option Z);
  cReturned : list Z;
}.

Inductive counterStep : counter → counter → Prop :=
| counter_load v ts out i :
    ts !! i = Some None →
    counterStep (mkCounter v ts out) (mkCounter v (<[i := Some v]> ts) out)
| counter_swap v ts out i :
    ts !! i = Some (Some v) →
    counterStep (mkCounter v ts out) (mkCounter (succID v) (<[i := None]> ts) (out ++ [succID v]))
| counter_again v ts out i old :
    ts !! i = Some (Some old) → old ≠ v →
    counterStep (mkCounter v ts out) (mkCounter v (<[i := None]> ts) out).

Definition newCounter (threads : nat) : counter := mkCounter 0 (replicate threads None) [].

(** The [k]-th identifier. *)
Definition idAt (k : Z) : Z := k mod maxConnID + 1.

Definition counterInv (c : counter) : Prop :=
  cReturned c = idAt <$> seqZ 0 (zlen (cReturned c)) ∧
  cValue c = (if decide (cReturned c = []) then 0 else idAt (zlen (cReturned c) - 1)).

Lemma idAt_range k : 1 ≤ idAt k ≤ maxConnID.
Proof. unfold idAt. pose proof (Z.mod_pos_bound k maxConnID ltac:(done)). lia. Qed.

Lemma succID_idAt k : 0 ≤ k → succID (idAt k) = idAt (k + 1).
Proof.
  intros Hk. pose proof (idAt_range k) as Hr. unfold succID. unfold u32.
  rewrite Z.mod_small by (unfold maxConnID in Hr; lia). unfold idAt in *.
  pose proof (Z.div_mod k maxConnID ltac:(done)) as Hd. pose proof (Z.mod_pos_bound k maxConnID ltac:(done)) as Hb.
  destruct (Z.ltb_spec maxConnID (k mod maxConnID + 1 + 1)) as [Hlt|Hle].
  - assert (k + 1 = (k / maxConnID + 1) * maxConnID) as -> by lia. by rewrite Z_mod_mult.
  - f_equal. apply (Z.mod_unique _ _ (k / maxConnID)); lia.
Qed.

Lemma counterStep_inv c c' : counterStep c c' → counterInv c → counterInv c'.
Proof.
  intros [v ts out i _|v ts out i _|v ts out i old _ _] [H1 H2]; [done| |done]. unfold counterInv in *. cbn [cReturned cValue] in *.
  assert (succID v = idAt (zlen out)) as Hs.
  { rewrite H2. destruct (decide (out = [])) as [-> |Hne]; [by vm_compute|].
    assert (0 < zlen out) by (destruct out; [done|unfold zlen; simpl; lia]).
    rewrite succID_idAt by lia. f_equal. lia. }
  rewrite zlen_app, Hs. change (zlen [idAt (zlen out)]) with 1. split.
  - rewrite seqZ_app, fmap_app, <- H1 by (pose proof (zlen_nonneg out); lia). done.
  - rewrite decide_False by (by intros [_ ?]%app_nil). f_equal. lia.
Qed.

Lemma counter_reachable n c : rtc counterStep (newCounter n) c → counterInv c.
Proof.
  assert (counterInv (newCounter n)) as H0 by done. revert H0. generalize (newCounter n) as c0.
  intros c0 H0 Hr. induction Hr as [|x y z Hxy _ IH]; [done|]. by eapply IH, counterStep_inv.
Qed.

(** In every interleaving of the threads that take identifiers, two sessions
    that are fewer than 0xFFFFF apart have different log prefixes. *)
Theorem session_labels_distinct n c name i j a b :
  rtc counterStep (newCounter n) c → cReturned c !! i = Some a → cReturned c !! j = Some b →
  (i < j)%nat → Z.of_nat j - Z.of_nat i < maxConnID → ConnIDToHex5 name a ≠ ConnIDToHex5 name b.
Proof.
  intros Hr Hi Hj Hij Hd E. destruct (counter_reachable n c Hr) as [H1 _].
  rewrite H1 in Hi, Hj. apply list_lookup_fmap_Some in Hi as (x & -> & Hx). apply list_lookup_fmap_Some in Hj as (y & -> & Hy).
  apply lookup_seqZ in Hx as [-> _]. apply lookup_seqZ in Hy as [-> _].
  pose proof (idAt_range (0 + Z.of_nat i)) as R1. pose proof (idAt_range (0 + Z.of_nat j)) as R2.
  apply ConnIDToHex5_inj in E; [|unfold maxConnID in *; lia..]. unfold idAt in E. rewrite !Z.add_0_l in E.
  assert ((Z.of_nat j - Z.of_nat i) mod maxConnID = 0) as Hm.
  { rewrite Zminus_mod. replace (Z.of_nat j mod maxConnID) with (Z.of_nat i mod maxConnID) by lia. by rewrite Z.sub_diag. }
  rewrite Z.mod_small in Hm by lia. lia.
Qed.

(** Two threads, the first of which loses the race. *)
Lemma session_labels_distinct_witness :
  let c := mkCounter 2 [None; None] [1; 2] in
  rtc counterStep (newCounter 2) c ∧ ConnIDToHex5 84 1 ≠ ConnIDToHex5 84 2.
Proof.
  assert (rtc counterStep (newCounter 2) (mkCounter 2 [None; None] [1; 2])) as Hr.
  { eapply rtc_l; [apply (counter_load 0 _ _ 0); reflexivity|]. eapply rtc_l; [apply (counter_load 0 _ _ 1); reflexivity|].
    eapply rtc_l; [apply (counter_swap 0 _ _ 1); reflexivity|].
    eapply rtc_l; [apply (counter_again _ _ _ 0 0); [reflexivity|discriminate]|].
    eapply rtc_l; [apply (counter_load _ _ _ 0); reflexivity|]. eapply rtc_l; [apply (counter_swap _ _ _ 0); reflexivity|].
    apply rtc_refl. }
  split; [exact Hr|].
  apply (session_labels_distinct 2 _ 84 0 1 1 2 Hr); [reflexivity|reflexivity|lia|unfold maxConnID; lia].
Defined.

(** ** Traffic counters (core/session_stats.go) *)

Record sessionStats := mkStats {
  down : Z;
  up : Z;
  blocked : Z;
  tcpConns : Z;
  udpConns : Z;
  started : Z;
}.

Definition ResetStats (now : Z) : sessionStats := mkStats 0 0 0 0 0 now.

Definition AddRxBytes (n : Z) (s : sessionStats) : sessionStats :=
  if 0 <? n then mkStats (u64 (down s + n)) (up s) (blocked s) (tcpConns s) (udpConns s) (started s) else s.
Definition AddTxBytes (n : Z) (s : sessionStats) : sessionStats :=
  if 0 <? n then mkStats (down s) (u64 (up s + n)) (blocked s) (tcpConns s) (udpConns s) (started s) else s.
Definition AddBlockedConn (s : sessionStats) : sessionStats :=
  mkStats (down s) (up s) (u64 (blocked s + 1)) (tcpConns s) (udpConns s) (started s).
Definition IncTCPConn (s : sessionStats) : sessionStats :=
  mkStats (down s) (up s) (blocked s) (u64 (tcpConns s + 1)) (udpConns s) (started s).
Definition IncUDPConn (s : sessionStats) : sessionStats :=
  mkStats (down s) (up s) (blocked s) (tcpConns s) (u64 (udpConns s + 1)) (started s).

(** [StatsSnapshot]: the counters, and the time since the start. *)
Definition SnapshotStats (now : Z) (s : sessionStats) : Z * Z * Z * Z * Z * Z :=
  (down s, up s, blocked s, tcpConns s, udpConns s, if 0 <? started s then i64 (now - started s) else 0).

(** The calls a counted connection makes: [Read] and [Write] (and [ReadFrom],
    [WriteTo]) count what the connection below reports, also beside an error. *)
Inductive statsOp := OpRead (n : Z) | OpWrite (n : Z) | OpBlocked | OpTCP | OpUDP.

Definition statsStep (s : sessionStats) (op : statsOp) : sessionStats :=
  match op with
  | OpRead n => AddRxBytes n s
  | OpWrite n => AddTxBytes n s
  | OpBlocked => AddBlockedConn s
  | OpTCP => IncTCPConn s
  | OpUDP => IncUDPConn s
  end.

Definition total (f : statsOp → Z) (ops : list statsOp) : Z := foldr (λ op acc, f op + acc) 0 ops.

Definition rxOf (op : statsOp) : Z := match op with OpRead n => Z.max 0 n | _ => 0 end.
Definition txOf (op : statsOp) : Z := match op with OpWrite n => Z.max 0 n | _ => 0 end.
Definition blockedOf (op : statsOp) : Z := match op with OpBlocked => 1 | _ => 0 end.
Definition tcpOf (op : statsOp) : Z := match op with OpTCP => 1 | _ => 0 end.
Definition udpOf (op : statsOp) : Z := match op with OpUDP => 1 | _ => 0 end.

Lemma u64_add a b : u64 (u64 a + b) = u64 (a + b).
Proof. unfold u64. by rewrite Zplus_mod_idemp_l. Qed.

(** The counters are the totals of what was reported, modulo 2^64. *)
Lemma stats_exact ops s :
  0 ≤ down s < 2 ^ 64 → 0 ≤ up s < 2 ^ 64 → 0 ≤ blocked s < 2 ^ 64 → 0 ≤ tcpConns s < 2 ^ 64 → 0 ≤ udpConns s < 2 ^ 64 →
  foldl statsStep s ops =
  mkStats (u64 (down s + total rxOf ops)) (u64 (up s + total txOf ops)) (u64 (blocked s + total blockedOf ops))
    (u64 (tcpConns s + total tcpOf ops)) (u64 (udpConns s + total udpOf ops)) (started s).
Proof.
  revert s. induction ops as [|op ops IH]; intros s H1 H2 H3 H4 H5.
  { destruct s. cbn in *. rewrite !Z.add_0_r. unfold u64. by rewrite !Z.mod_small by done. }
  assert (∀ x, 0 ≤ u64 x < 2 ^ 64) as Hu by (intros x; apply Z.mod_pos_bound; lia).
  cbn [foldl]. rewrite IH; destruct op; cbn [statsStep]; unfold AddRxBytes, AddTxBytes;
    try (destruct (Z.ltb_spec 0 n)); cbn [down up blocked tcpConns udpConns started AddBlockedConn IncTCPConn IncUDPConn]; auto;
    cbn [total foldr rxOf txOf blockedOf tcpOf udpOf]; fold (total rxOf ops) (total txOf ops) (total blockedOf ops) (total tcpOf ops) (total udpOf ops);
    rewrite ?u64_add; f_equal; f_equal; lia.
Qed.

(** ** Log files (mobile/logfile.go)

    The directory of the log files is a map from names to contents.  What the
    system answers to a call is its [logEnv]: whether the directory can be made,
    the file opened, a file renamed, and how much of a write succeeds. *)

Definition maxLogFileBytes : Z := Z.shiftl 1 20.
Definition keepLogFiles : Z := 3.

Record logEnv := mkLogEnv {
  env_mkdir : bool;
  env_open : bool;
  env_rename : Z → bool;
  env_write : option Z;
}.

(** [lf_open]: the handle is not nil. *)
Record logFiles := mkLogFiles {
  lf_fs : gmap gostring bytes;
  lf_open : bool;
  lf_size : Z;
  lf_enabled : bool;
}.

Definition baseLog : gostring := "lumine.log".
Definition oldLog (i : Z) : gostring := "lumine." ++ itoa i ++ ".log".

Definition closeLogFileLocked (s : logFiles) : logFiles :=
  if lf_open s then mkLogFiles (lf_fs s) false 0 (lf_enabled s) else s.

Definition setLogFilesEnabled (enabled : bool) (s : logFiles) : logFiles :=
  let s := mkLogFiles (lf_fs s) (lf_open s) (lf_size s) enabled in
  if enabled then s else closeLogFileLocked s.

(** [os.OpenFile] with [O_CREATE|O_APPEND], and the size of the file. *)
Definition openLogFileLocked (env : logEnv) (s : logFiles) : bool * logFiles :=
  if negb (env_open env) then (false, s)
  else
    let content := default [] (lf_fs s !! baseLog) in
    (true, mkLogFiles (<[baseLog := content]> (lf_fs s)) true (zlen content) (lf_enabled s)).

(** One round of the renaming loop. *)
Definition shiftLog (env : logEnv) (fs : gmap gostring bytes) (i : Z) : gmap gostring bytes :=
  let dst := oldLog i in
  let src := if i =? 1 then baseLog else oldLog (i - 1) in
  match fs !! src with
  | None => fs
  | Some content =>
      let fs := if i =? keepLogFiles then delete dst fs else fs in
      if env_rename env i then <[dst := content]> (delete src fs) else fs
  end.

Definition rotateLogFileLocked (env : logEnv) (s : logFiles) : bool * logFiles :=
  openLogFileLocked env
    (mkLogFiles (foldl (shiftLog env) (lf_fs s) [3; 2; 1]) false 0 (lf_enabled s)).

Definition appendLog (env : logEnv) (b : bytes) (s : logFiles) : logFiles :=
  let n := default (zlen b) (env_write env) in
  let content := default [] (lf_fs s !! baseLog) in
  let fs := <[baseLog := content ++ take (Z.to_nat n) b]> (lf_fs s) in
  match env_write env with
  | None => mkLogFiles fs true (lf_size s + n) (lf_enabled s)
  | Some _ => mkLogFiles fs false 0 (lf_enabled s)
  end.

Definition writeSessionLog (env : logEnv) (b : bytes) (s : logFiles) : logFiles :=
  if negb (lf_enabled s) || bool_decide (b = []) then s
  else
    let '(ready, s) :=
      if lf_open s then (true, s)
      else if env_mkdir env then openLogFileLocked env s else (false, s) in
    if negb ready then s
    else if (0 <? lf_size s) && (maxLogFileBytes <? lf_size s + zlen b) then
      if negb (env_mkdir env) then s
      else
        let '(ok, s) := rotateLogFileLocked env s in
        if ok then appendLog env b s else s
    else appendLog env b s.

(** An environment in which nothing fails. *)
Definition logEnvOK : logEnv := mkLogEnv true true (λ _, true) None.

Definition logAt (fs : gmap gostring bytes) (name : gostring) : bytes := default [] (fs !! name).

(** The kept text, oldest first. *)
Definition logText (fs : gmap gostring bytes) : bytes :=
  logAt fs (oldLog 3) ++ logAt fs (oldLog 2) ++ logAt fs (oldLog 1) ++ logAt fs baseLog.

Definition logNames : list gostring := [oldLog 3; oldLog 2; oldLog 1; baseLog].

(** Every file is within the limit, and the size kept in memory is the file's. *)
Definition logInv (M : Z) (s : logFiles) : Prop :=
  Forall (λ name, zlen (logAt (lf_fs s) name) ≤ M) logNames ∧
  (lf_open s = true → lf_size s = zlen (logAt (lf_fs s) baseLog)).

Lemma logAt_insert fs n c : logAt (<[n := c]> fs) n = c.
Proof. unfold logAt. by rewrite lookup_insert_eq. Qed.
Lemma logAt_insert_ne fs n m c : n ≠ m → logAt (<[n := c]> fs) m = logAt fs m.
Proof. intros. unfold logAt. by rewrite lookup_insert_ne. Qed.
Lemma logAt_delete fs n : logAt (delete n fs) n = [].
Proof. unfold logAt. by rewrite lookup_delete_eq. Qed.
Lemma logAt_delete_ne fs n m : n ≠ m → logAt (delete n fs) m = logAt fs m.
Proof. intros. unfold logAt. by rewrite lookup_delete_ne. Qed.

Definition shiftSrc (i : Z) : gostring := if i =? 1 then baseLog else oldLog (i - 1).

(** One round moves a file, or leaves things as they are when there is none. *)
Lemma shiftLog_moves fs i : shiftSrc i ≠ oldLog i →
  let fs' := shiftLog logEnvOK fs i in
  logAt fs' (shiftSrc i) = [] ∧
  (logAt fs' (oldLog i) = logAt fs (shiftSrc i) ∨ logAt fs (shiftSrc i) = [] ∧ logAt fs' (oldLog i) = logAt fs (oldLog i)) ∧
  (∀ n, n ≠ shiftSrc i → n ≠ oldLog i → logAt fs' n = logAt fs n).
Proof.
  intros Hne fs'. unfold fs', shiftLog. fold (shiftSrc i). destruct (fs !! shiftSrc i) as [c|] eqn:E.
  - cbn [env_rename logEnvOK]. assert (logAt fs (shiftSrc i) = c) as -> by (unfold logAt; by rewrite E). split_and!.
    + by rewrite logAt_insert_ne, logAt_delete.
    + left. by rewrite logAt_insert.
    + intros n H1 H2. rewrite logAt_insert_ne, logAt_delete_ne by done.
      destruct (i =? keepLogFiles); [by rewrite logAt_delete_ne|done].
  - assert (logAt fs (shiftSrc i) = []) as E0 by (unfold logAt; by rewrite E). auto.
Qed.

(** The four names are different. *)
Lemma logNames_NoDup : NoDup logNames.
Proof. by_decide. Qed.

(** Shifting in order keeps the text except for the oldest file, and only that
    file can go; afterwards there is no base file. *)
Lemma rotate_files fs M : Forall (λ name, zlen (logAt fs name) ≤ M) logNames → 0 ≤ M →
  let fs' := foldl (shiftLog logEnvOK) fs [3; 2; 1] in
  ∃ dropped, logText fs = dropped ++ logText fs' ∧ logAt fs' baseLog = [] ∧
    Forall (λ name, zlen (logAt fs' name) ≤ M) logNames.
Proof.
  intros HM H0 fs'. pose proof logNames_NoDup as Hnd. unfold logNames in *.
  rewrite !Forall_cons in HM. destruct HM as (H3 & H2 & H1 & Hb & _).
  rewrite !NoDup_cons, !not_elem_of_cons in Hnd. destruct Hnd as ((N32 & N31 & N3b & _) & (N21 & N2b & _) & (N1b & _) & _).
  unfold fs'. cbn [foldl].
  pose proof (shiftLog_moves fs 3 ltac:(done)) as (A1 & A2 & A3). set (f1 := shiftLog logEnvOK fs 3) in *.
  pose proof (shiftLog_moves f1 2 ltac:(done)) as (B1 & B2 & B3). set (f2 := shiftLog logEnvOK f1 2) in *.
  pose proof (shiftLog_moves f2 1 ltac:(done)) as (C1 & C2 & C3). set (f3 := shiftLog logEnvOK f2 1) in *.
  change (shiftSrc 3) with (oldLog 2) in *. change (shiftSrc 2) with (oldLog 1) in *. change (shiftSrc 1) with baseLog in *.
  rewrite (A3 (oldLog 1)) in B2 by done. rewrite A1 in B2.
  rewrite (B3 baseLog), (A3 baseLog) in C2 by done. rewrite B1 in C2.
  assert (logAt f2 (oldLog 2) = logAt fs (oldLog 1)) as E2 by (destruct B2 as [?|[E ?]]; congruence).
  assert (logAt f3 (oldLog 1) = logAt fs baseLog) as E1 by (destruct C2 as [?|[E ?]]; congruence).
  assert (logAt f3 (oldLog 2) = logAt fs (oldLog 1)) as E2' by (rewrite C3 by done; done).
  assert (logAt f3 (oldLog 3) = logAt f1 (oldLog 3)) as E3 by (rewrite C3, B3 by done; done).
  unfold logText. rewrite E1, E2', E3, C1, app_nil_r.
  destruct A2 as [E|[E E']].
  - exists (logAt fs (oldLog 3)). rewrite E. split_and!; [done|done|].
    repeat constructor; rewrite ?E1, ?E2', ?E3, ?C1, ?E; done.
  - exists []. rewrite E, E'. split_and!; [done|done|].
    repeat constructor; rewrite ?E1, ?E2', ?E3, ?C1, ?E'; done.
Qed.

Lemma openLog_ok s : openLogFileLocked logEnvOK s =
  (true, mkLogFiles (<[baseLog := logAt (lf_fs s) baseLog]> (lf_fs s)) true (zlen (logAt (lf_fs s) baseLog)) (lf_enabled s)).
Proof. done. Qed.

(** Rewriting the base file with what it holds, or more. *)
Lemma base_insert fs c : logText (<[baseLog := logAt fs baseLog ++ c]> fs) = logText fs ++ c.
Proof.
  pose proof logNames_NoDup as Hnd. unfold logNames in Hnd.
  rewrite !NoDup_cons, !not_elem_of_cons in Hnd. destruct Hnd as ((N32 & N31 & N3b & _) & (N21 & N2b & _) & (N1b & _) & _).
  unfold logText. rewrite logAt_insert, !logAt_insert_ne by done. by rewrite <- !app_assoc.
Qed.

Lemma base_bound fs c M : Forall (λ name, zlen (logAt fs name) ≤ M) logNames → zlen c ≤ M →
  Forall (λ name, zlen (logAt (<[baseLog := c]> fs) name) ≤ M) logNames.
Proof.
  rewrite !Forall_forall. intros H Hc n Hn. destruct (decide (baseLog = n)) as [<-|].
  - by rewrite logAt_insert.
  - rewrite logAt_insert_ne by done. auto.
Qed.

Lemma appendLog_ok b s M : logInv M s → lf_open s = true → zlen (logAt (lf_fs s) baseLog) + zlen b ≤ M →
  let s' := appendLog logEnvOK b s in
  logInv M s' ∧ lf_open s' = true ∧ lf_enabled s' = lf_enabled s ∧ logText (lf_fs s') = logText (lf_fs s) ++ b.
Proof.
  intros [HM Hsz] Ho Hb s'. unfold s', appendLog. cbn [env_write logEnvOK default lf_fs lf_open lf_enabled].
  assert (take (Z.to_nat (zlen b)) b = b) as -> by (apply take_ge; unfold zlen; lia). fold (logAt (lf_fs s) baseLog). split_and!; [|done|done|apply base_insert].
  split; cbn [lf_fs lf_size].
  - apply base_bound; [done|]. by rewrite zlen_app.
  - intros _. rewrite logAt_insert, zlen_app, Hsz by done. done.
Qed.

(** The limit that a file keeps to: a megabyte, or one message. *)
Lemma writeSessionLog_ok b s M : logInv M s → lf_enabled s = true → maxLogFileBytes ≤ M → zlen b ≤ M →
  let s' := writeSessionLog logEnvOK b s in
  logInv M s' ∧ lf_enabled s' = true ∧ ∃ dropped, logText (lf_fs s) ++ b = dropped ++ logText (lf_fs s').
Proof.
  intros HI Hen HM Hb s'. unfold s', writeSessionLog. rewrite Hen. cbn [negb orb]. case_bool_decide as Hnil.
  { subst b. split_and!; [done|done|]. exists []. by rewrite app_nil_r. }
  assert (0 ≤ M) as H0 by (pose proof (zlen_nonneg b); lia).
  set (st := if lf_open s then (true, s) else if env_mkdir logEnvOK then openLogFileLocked logEnvOK s else (false, s)).
  assert (∃ s1, st = (true, s1) ∧ logInv M s1 ∧ lf_open s1 = true ∧ lf_enabled s1 = true ∧ logText (lf_fs s1) = logText (lf_fs s))
    as (s1 & -> & HI1 & Ho1 & He1 & Ht1).
  { unfold st. destruct (lf_open s) eqn:Ho; [by exists s|]. cbn [env_mkdir logEnvOK]. rewrite openLog_ok. eexists. split; [done|].
    destruct HI as [HF _]. split_and!; [|done|done|].
    - split; cbn [lf_fs lf_size].
      + apply base_bound; [done|]. by apply (proj1 (Forall_forall _ _) HF baseLog); apply list_elem_of_lookup_2 with 3%nat.
      + intros _. by rewrite logAt_insert.
    - cbn [lf_fs]. rewrite <- (app_nil_r (logAt (lf_fs s) baseLog)), base_insert. by rewrite app_nil_r. }
  cbn [negb]. pose proof (proj2 HI1 Ho1) as Hsz. rewrite Hsz.
  set (base := zlen (logAt (lf_fs s1) baseLog)) in *.
  destruct (Z.ltb_spec 0 base) as [Hpos|Hpos]; destruct (Z.ltb_spec maxLogFileBytes (base + zlen b)) as [Hbig|Hsmall];
    cbn [andb env_mkdir logEnvOK negb].
  1: { destruct (rotate_files (lf_fs s1) M (proj1 HI1) H0) as (dropped & Et & Eb & HF).
       unfold rotateLogFileLocked. rewrite openLog_ok. cbn [lf_fs lf_enabled]. rewrite Eb.
       set (fs' := foldl (shiftLog logEnvOK) (lf_fs s1) [3; 2; 1]) in *.
       match goal with |- context [appendLog logEnvOK b ?x] => destruct (appendLog_ok b x M) as (H1 & _ & H2 & H3) end.
       - split; cbn [lf_fs lf_size]; [apply base_bound; [done|change (zlen []) with 0; lia]|]. intros _. by rewrite logAt_insert.
       - done.
       - cbn [lf_fs]. rewrite logAt_insert. change (zlen []) with 0. lia.
       - split_and!; [done|by rewrite H2|]. exists dropped. rewrite H3. cbn [lf_fs].
         rewrite <- Eb at 1. rewrite <- (app_nil_r (logAt fs' baseLog)), base_insert, app_nil_r, <- Ht1, Et. by rewrite <- app_assoc. }
  all: destruct (appendLog_ok b s1 M HI1 Ho1) as (H1 & _ & H2 & H3); [lia|];
    split_and!; [done|by rewrite H2|]; exists []; by rewrite H3, Ht1.
Qed.

(** As long as no file operation fails, the log files hold the end of
    everything that was logged: rotation only ever drops the oldest text, in
    order, and no file grows beyond a megabyte (or one message, if that is
    longer), so the four files stay bounded for ever. *)
Theorem log_files_keep_tail msgs s M :
  logInv M s → lf_enabled s = true → maxLogFileBytes ≤ M → Forall (λ b, zlen b ≤ M) msgs →
  let s' := foldl (λ s b, writeSessionLog logEnvOK b s) s msgs in
  logInv M s' ∧ ∃ dropped, logText (lf_fs s) ++ concat msgs = dropped ++ logText (lf_fs s').
Proof.
  intros HI Hen HM Hb. revert s HI Hen. induction Hb as [|b msgs Hb _ IH]; intros s HI Hen.
  { split; [done|]. exists []. simpl. by rewrite app_nil_r. }
  cbn [foldl concat]. destruct (writeSessionLog_ok b s M HI Hen HM Hb) as (H1 & H2 & d1 & E1).
  destruct (IH _ H1 H2) as (H3 & d2 & E2). split; [done|]. exists (d1 ++ d2).
  rewrite app_assoc, E1, <- !app_assoc, E2. done.
Qed.

Lemma log_files_keep_tail_witness :
  let s := mkLogFiles (<[baseLog := lit "old"]> ∅) false 0 true in
  let s' := foldl (λ s b, writeSessionLog logEnvOK b s) s [lit "new"; lit "er"] in
  logInv (2 ^ 20) s' ∧ lf_fs s' !! baseLog = Some (lit "oldnewer") ∧
  ∃ dropped, logText (lf_fs s) ++ concat [lit "new"; lit "er"] = dropped ++ logText (lf_fs s').
Proof.
  cbv zeta. destruct (log_files_keep_tail [lit "new"; lit "er"] (mkLogFiles (<[baseLog := lit "old"]> ∅) false 0 true) (2 ^ 20))
    as [H1 H2].
  - split; [|discriminate]. repeat constructor; vm_compute; discriminate.
  - reflexivity.
  - vm_compute. discriminate.
  - repeat constructor; vm_compute; discriminate.
  - split; [exact H1|]. split; [vm_compute; reflexivity|exact H2].
Defined.
