(* ===== verification/Stream.v ===== *)
(** * Byte streams as protocol code sees them

    An [io.ReadWriter] whose peer sends [input] and then closes; the writes are
    kept in order.  [wfail k] is the error of the [k]-th write, if it fails.
    Protocol code is a computation of type [ioM]. *)

From S2P Require Import Prelude Errors.
Local Open Scope Z_scope.

Record stream := mkStream {
  input : bytes;
  output : list bytes;
  wfail : nat → option error;
}.

Definition ioM (A : Type) : Type := stream → res A * stream.

#[global] Instance ioM_ret : MRet ioM := λ A a s, (Ok a, s).
#[global] Instance ioM_bind : MBind ioM := λ A B k m s,
  match m s with
  | (Ok a, s') => k a s'
  | (Err e, s') => (Err e, s')
  | (Panic, s') => (Panic, s')
  end.

Definition liftIO {A} (r : res A) : ioM A := λ s, (r, s).

Definition failIO {A} (msg : String.string) : ioM A := liftIO (fail msg).

Definition errEOF : error := errorString "EOF".
Definition errUnexpectedEOF : error := errorString "unexpected EOF".

(** [err == io.EOF] *)
Definition isEOF (e : error) : bool :=
  match e with
  | errorString t => bool_decide (t = lit "EOF")
  | _ => false
  end.

(** [io.ReadFull] of [n] bytes. *)
Definition readFull (n : Z) : ioM bytes := λ s,
  if n <=? zlen (input s)
  then (Ok (take (Z.to_nat n) (input s)), mkStream (drop (Z.to_nat n) (input s)) (output s) (wfail s))
  else (Err (if bool_decide (input s = []) then errEOF else errUnexpectedEOF),
        mkStream [] (output s) (wfail s)).

(** [Write] *)
Definition send (b : bytes) : ioM unit := λ s,
  match wfail s (length (output s)) with
  | Some e => (Err e, s)
  | None => (Ok tt, mkStream (input s) (output s ++ [b]) (wfail s))
  end.

(** A stream on which every write succeeds. *)
Definition quietStream (inp : bytes) (out : list bytes) : stream := mkStream inp out (λ _, None).

Lemma readFull_app n b rest out f :
  zlen b = n → readFull n (mkStream (b ++ rest) out f) = (Ok b, mkStream rest out f).
Proof.
  intros <-. unfold readFull. cbn [input output wfail]. rewrite zlen_app. pose proof (zlen_nonneg rest).
  destruct (Z.leb_spec (zlen b) (zlen b + zlen rest)); [|lia].
  unfold zlen. rewrite Nat2Z.id, take_app_length, drop_app_length. done.
Qed.

Lemma send_quiet b inp out : send b (quietStream inp out) = (Ok tt, quietStream inp (out ++ [b])).
Proof. done. Qed.

Lemma ioM_bind_Ok {A B} (m : ioM A) (k : A → ioM B) s a s' :
  m s = (Ok a, s') → (m ≫= k) s = k a s'.
Proof. intros E. unfold mbind, ioM_bind. by rewrite E. Qed.

(** Run the next operation of a computation. *)
Ltac io_step :=
  first
    [ erewrite ioM_bind_Ok; [|first [eapply readFull_app | apply send_quiet | reflexivity]]
    | rewrite send_quiet ].
