(* ===== verification/DialBind.v ===== *)
(** * The outbound dialers and their local address (enimul/internal/dial)

    Which local address outgoing connections are bound to: decoding of the
    option, the choice of an interface, detection by dialling, and the monitor
    that refreshes the choice.  The system's interfaces, what is typed on
    standard input and the local address of a trial connection are arguments. *)

From S2P Require Import Prelude Errors Netip Pattern Stream Policy IPPool.
Local Open Scope Z_scope.

(** ** Options (option.go) *)

Inductive Method := MethodOff | MethodSelectInterface | MethodDialDetect | MethodCustom.

Definition methodOf (s : gostring) : res Method :=
  if bool_decide (s = lit "off") then Ok MethodOff
  else if bool_decide (s = lit "select_interface") then Ok MethodSelectInterface
  else if bool_decide (s = lit "dial_detect") then Ok MethodDialDetect
  else if bool_decide (s = lit "custom") then Ok MethodCustom
  else Err (errorString ("invalid method: " ++ s)).

Record BindingOption := mkBinding {
  boMethod : Method;
  ManualSelect : bool;
  Zone : gostring;
  PreferredPrefix : option Prefix;
  UpdateInterval : Z;
  DialTCP : bool;
  DialIPv4Target : gostring;
  DialIPv6Target : gostring;
  DialTimeout : Z;
  CustomIPv4 : option bytes;
  CustomIPv6 : option bytes;
  CustomZone : gostring;
}.

Definition noBinding : BindingOption := mkBinding MethodOff false [] None 0 false [] [] 0 None None [].

(** The members of the JSON object; a method that is absent is off. *)
Record bindingJSON := mkBindingJSON {
  jEnableForAndroid : bool;
  jMethod : option gostring;
  jManualSelect : bool;
  jZone : gostring;
  jPreferredPrefix : gostring;
  jUpdateInterval : gostring;
  jDialTCP : bool;
  jDialIPv4Target : gostring;
  jDialIPv6Target : gostring;
  jDialTimeout : gostring;
  jCustomIPv4 : gostring;
  jCustomIPv6 : gostring;
  jCustomZone : gostring;
}.

Section Options.
Context `{GoTime}.

Definition parseOptional (what text : gostring) (old : Z) : res Z :=
  if bool_decide (text = []) then Ok old else
  match ParseDuration text with
  | Ok d => Ok d
  | Err e => Err (wrapError ("parse " ++ what ++ " " ++ text ++ ": ") e)
  | Panic => Panic
  end.

(** [UnmarshalJSON] stores into the option [o]; the fields its method does not use
    stay. *)
Definition bindingOf (isAndroid : bool) (o : BindingOption) (tmp : bindingJSON) : res BindingOption :=
  decoded ← match jMethod tmp with None => Ok MethodOff | Some s => methodOf s end;
  let method := if negb isAndroid || jEnableForAndroid tmp then decoded else boMethod o in
  match method with
  | MethodOff => Ok (mkBinding MethodOff (ManualSelect o) (Zone o) (PreferredPrefix o) (UpdateInterval o) (DialTCP o)
                       (DialIPv4Target o) (DialIPv6Target o) (DialTimeout o) (CustomIPv4 o) (CustomIPv6 o) (CustomZone o))
  | MethodSelectInterface =>
      interval ← parseOptional "update_interval" (jUpdateInterval tmp) (UpdateInterval o);
      let o' prefix := mkBinding MethodSelectInterface (jManualSelect tmp) (jZone tmp) prefix interval (DialTCP o)
                         (DialIPv4Target o) (DialIPv6Target o) (DialTimeout o) (CustomIPv4 o) (CustomIPv6 o) (CustomZone o) in
      if bool_decide (jZone tmp = []) && negb (jManualSelect tmp) then
        match ParsePrefix (jPreferredPrefix tmp) with
        | Some p => Ok (o' (Some p))
        | None => Err (wrapError ("parse preferred_prefix " ++ jPreferredPrefix tmp ++ ": ")
                         (errorString ("netip.ParsePrefix(" ++ jPreferredPrefix tmp ++ "): no '/'")))
        end
      else Ok (o' (PreferredPrefix o))
  | MethodDialDetect =>
      interval ← parseOptional "update_interval" (jUpdateInterval tmp) (UpdateInterval o);
      timeout ← parseOptional "dial_timeout" (jDialTimeout tmp) (DialTimeout o);
      Ok (mkBinding MethodDialDetect (ManualSelect o) (Zone o) (PreferredPrefix o) interval (jDialTCP tmp)
            (jDialIPv4Target tmp) (jDialIPv6Target tmp) timeout (CustomIPv4 o) (CustomIPv6 o) (CustomZone o))
  | MethodCustom =>
      let v4 := ParseIP (jCustomIPv4 tmp) in
      let v6 := ParseIP (jCustomIPv6 tmp) in
      if bool_decide (v4 = None) && bool_decide (v6 = None)
      then fail "no custom IPv4 or IPv6 address specified"
      else Ok (mkBinding MethodCustom (ManualSelect o) (Zone o) (PreferredPrefix o) (UpdateInterval o) (DialTCP o)
                 (DialIPv4Target o) (DialIPv6Target o) (DialTimeout o) v4 v6 (jCustomZone tmp))
  end.

Definition UnmarshalBinding (isAndroid : bool) (o : BindingOption) (tmp : bindingJSON) : res BindingOption :=
  with_str "outbound_binding" (bindingOf isAndroid o tmp).
End Options.

(** ** Interfaces (interface.go) *)

Record networkInterface := mkInterface {
  ifIndex : Z;
  ifName : gostring;
  gateway : gostring;
  ipv4 : option bytes;
  ipv6 : option bytes;
}.

(** An interface of the system; an address that is not an IP network is [None]. *)
Record osInterface := mkOS {
  osIndex : Z;
  osName : gostring;
  osUp : bool;
  osLoopback : bool;
  osAddrs : res (list (option bytes));
}.

Definition errNoInterface : error := errorString "no interface detected".

(** [getGatewayForInterface] of every platform. *)
Definition getGatewayForInterface (index : Z) : gostring := [].

(** [net.IP.IsLinkLocalUnicast] and [IsPrivate]. *)
Definition at_ (ip : bytes) (i : nat) : Z := default 0 (ip !! i).

Definition IsLinkLocalUnicast (ip : bytes) : bool :=
  match To4 ip with
  | Some v => (at_ v 0 =? 169) && (at_ v 1 =? 254)
  | None => (zlen ip =? 16) && (at_ ip 0 =? 0xfe) && (Z.land (at_ ip 1) 0xc0 =? 0x80)
  end.

Definition IsPrivate (ip : bytes) : bool :=
  match To4 ip with
  | Some v => (at_ v 0 =? 10) || ((at_ v 0 =? 172) && (Z.land (at_ v 1) 0xf0 =? 16)) ||
              ((at_ v 0 =? 192) && (at_ v 1 =? 168))
  | None => (zlen ip =? 16) && (Z.land (at_ ip 0) 0xfe =? 0xfc)
  end.

(** The first address of each family that is not link-local. *)
Definition pickStep (acc : option bytes * option bytes) (addr : option bytes) : option bytes * option bytes :=
  match acc, addr with
  | (Some _, Some _), _ | _, None => acc
  | (v4, v6), Some ip =>
      if IsLinkLocalUnicast ip then acc else
      let isIPv4 := bool_decide (To4 ip ≠ None) in
      if bool_decide (v4 = None) && isIPv4 then (Some ip, v6)
      else if bool_decide (v6 = None) && negb isIPv4 && (zlen ip =? 16) then (v4, Some ip)
      else acc
  end.

Definition filterInterface (i : osInterface) : option networkInterface :=
  if negb (osUp i) || osLoopback i then None else
  match osAddrs i with
  | Ok addrs =>
      match foldl pickStep (None, None) addrs with
      | (None, None) => None
      | (v4, v6) => Some (mkInterface (osIndex i) (osName i) (getGatewayForInterface (osIndex i)) v4 v6)
      end
  | _ => None
  end.

Definition getFilteredInterfaces (ifs : res (list osInterface)) : res (list networkInterface) :=
  match ifs with
  | Ok l => match omap filterInterface l with [] => Err errNoInterface | l => Ok l end
  | Err e => Err (opError "list network interfaces" e)
  | Panic => Panic
  end.

Definition find (ifaces : list networkInterface) (name : gostring) : option networkInterface :=
  List.find (λ i, bool_decide (ifName i = name)) ifaces.

Definition autoSelect (ifaces : list networkInterface) (preferred : option Prefix) : option networkInterface :=
  let byPrefix :=
    match preferred with
    | Some p => List.find (λ i, match ipv4 i with
                                | Some ip => match AddrFromSlice ip with
                                             | Some a => Contains p (Unmap a)
                                             | None => false
                                             end
                                | None => false
                                end) ifaces
    | None => None
    end in
  let hasGateway i := negb (bool_decide (gateway i = [])) in
  let private i := match ipv4 i with Some ip => IsPrivate ip | None => false end in
  match byPrefix with
  | Some i => Some i
  | None =>
      match List.find (λ i, hasGateway i && private i) ifaces with
      | Some i => Some i
      | None => List.find (λ i, hasGateway i && bool_decide (ipv4 i ≠ None)) ifaces
      end
  end.

(** [manualSelect]: the numbers typed, each of them or the error of reading it;
    the interface, and what is left of the input. *)
Fixpoint manualSelect (ifaces : list networkInterface) (stdin : list (res Z)) : res networkInterface * list (res Z) :=
  match stdin with
  | [] => (Err (opError "read interface index from stdin" (errorString "EOF")), [])
  | Err e :: rest => (Err (opError "read interface index from stdin" e), rest)
  | Panic :: rest => (Panic, rest)
  | Ok i :: rest =>
      if i <? 0 then manualSelect ifaces rest else
      match ifaces !! Z.to_nat i with
      | Some iface => (Ok iface, rest)
      | None => manualSelect ifaces rest
      end
  end.

(** ** The dialers (dial.go, dialdetect.go) *)

(** A local address: the IP and the zone; [None] for a dialer without one. *)
Abbreviation dialer := (option (bytes * gostring)).

(** What the monitor runs. *)
Inductive monitorFn :=
| MonSelect (zone : gostring) (prefix : option Prefix) (optionZone : gostring)
| MonDetect (network target4 target6 : gostring) (timeout : Z).

(** The package's variables: the dialers, nil before the first call, and the
    monitor that is running. *)
Record dialState := mkDial {
  globalIPv4Dialer : option dialer;
  globalIPv6Dialer : option dialer;
  monitorRunning : option monitorFn;
}.

Inductive laddr := LTCP (ip : bytes) (zone : gostring) | LUDP (ip : bytes) (zone : gostring) | LOther.

Section Dial.
(** The trial connection: network, target and timeout. *)
Context (trial : gostring → gostring → Z → res laddr).
Context (interfaces : res (list osInterface)).

Definition detectByDial (network target : gostring) (timeout : Z) : res (bytes * gostring) :=
  let timeout := if timeout <=? 0 then 5 * 10 ^ 9 else timeout in
  match trial network target timeout with
  | Ok (LTCP ip zone) | Ok (LUDP ip zone) => Ok (ip, zone)
  | Ok LOther => fail "unexpected network"
  | Err e => Err (opError "dial detect" e)
  | Panic => Panic
  end.

(** No target, no detection. *)
Definition detectOptional (network target : gostring) (timeout : Z) : res dialer :=
  if bool_decide (target = []) then Ok None else r ← detectByDial network target timeout; Ok (Some r).

Definition errNoInterfaceWithGateway : error := errorString "no interface with gateway detected".

(** Local addresses: IPv4, IPv6 and the zone. *)
Abbreviation addrs := (option bytes * option bytes * gostring)%type.

(** The monitor's function. *)
Definition runMonitor (fn : monitorFn) : res addrs :=
  match fn with
  | MonSelect zone prefix optionZone =>
      ifs ← getFilteredInterfaces interfaces;
      match (if bool_decide (zone = []) then autoSelect ifs prefix else find ifs zone) with
      | Some i => Ok (ipv4 i, ipv6 i, ifName i)
      | None => if bool_decide (zone = []) then Err errNoInterfaceWithGateway
                else Err (errorString ("interface not found: " ++ optionZone))
      end
  | MonDetect network t4 t6 timeout =>
      match detectOptional network t4 timeout, detectOptional network t6 timeout with
      | Panic, _ | _, Panic => Panic
      | Ok r4, Ok r6 => Ok (option_map fst r4, option_map fst r6, default [] (option_map snd r6))
      | r4, r6 =>
          let err r := match r with Err e => Some e | _ => None end in
          match Join [err r4; err r6] with Some e => Err e | None => Panic end
      end
  end.

(** A tick of [laddrMonitor] that got an answer. *)
Definition storeMonitored (a : addrs) (st : dialState) : dialState :=
  let '(v4, v6, zone) := a in
  mkDial (match v4 with Some ip => Some (Some (ip, [])) | None => globalIPv4Dialer st end)
    (match v6 with Some ip => Some (Some (ip, zone)) | None => globalIPv6Dialer st end) (monitorRunning st).

(** The interface and the zone.  The result of the manual choice is assigned to a
    variable of an inner block, so the outer one stays nil. *)
Definition selectInterface (o : BindingOption) (ifs : list networkInterface) (stdin : list (res Z)) :
    res (option networkInterface * gostring) :=
  if negb (bool_decide (Zone o = [])) then
    match find ifs (Zone o) with
    | Some i => Ok (Some i, Zone o)
    | None => Err (errorString ("interface not found: " ++ Zone o))
    end
  else if ManualSelect o then
    i ← (manualSelect ifs stdin).1; Ok (None, ifName i)
  else
    match autoSelect ifs (PreferredPrefix o) with
    | Some i => Ok (Some i, [])
    | None => i ← (manualSelect ifs stdin).1; Ok (Some i, ifName i)
    end.

(** The switch of [SetLocalAddr]: the addresses and the monitor. *)
Definition chooseAddrs (o : BindingOption) (stdin : list (res Z)) : res (addrs * option monitorFn) :=
  match boMethod o with
  | MethodOff => Ok ((None, None, []), None)
  | MethodSelectInterface =>
      ifs ← getFilteredInterfaces interfaces;
      '(selected, zone) ← selectInterface o ifs stdin;
      i ← checked selected;
      Ok ((ipv4 i, ipv6 i, zone),
          if 0 <? UpdateInterval o then Some (MonSelect zone (PreferredPrefix o) (Zone o)) else None)
  | MethodDialDetect =>
      let network : gostring := if DialTCP o then "tcp" else "udp" in
      r4 ← detectOptional network (DialIPv4Target o) (DialTimeout o);
      r6 ← detectOptional network (DialIPv6Target o) (DialTimeout o);
      Ok ((option_map fst r4, option_map fst r6, default [] (option_map snd r6)),
          if 0 <? UpdateInterval o
          then Some (MonDetect network (DialIPv4Target o) (DialIPv6Target o) (DialTimeout o)) else None)
  | MethodCustom => Ok ((CustomIPv4 o, CustomIPv6 o, CustomZone o), None)
  end.

(** [SetLocalAddr]: nothing changes before all choices are made. *)
Definition SetLocalAddr (o : BindingOption) (stdin : list (res Z)) : stM dialState unit :=
  '(v4, v6, zone, mon) ← liftS (chooseAddrs o stdin);
  modifyS (λ _, mkDial (Some ((λ ip, (ip, [])) <$> v4)) (Some ((λ ip, (ip, zone)) <$> v6)) mon).

(** [NewDialer]: a nil pointer is followed before the first [SetLocalAddr]. *)
Definition NewDialer (isIPv6 : bool) (st : dialState) : res dialer :=
  checked (if isIPv6 then globalIPv6Dialer st else globalIPv4Dialer st).

(** [DialContext]: the dialer the address is dialled with. *)
Definition dialerFor (address : gostring) (st : dialState) : res dialer :=
  c ← checked (head address);
  checked (if c =? 91 then globalIPv6Dialer st else globalIPv4Dialer st).
(** [DialTimeout] and [DialTCPTimeout]: a context whose timeout is not positive is
    expired from the start, and net.Dialer then fails without dialling. *)
Definition deadlineExceeded : error := errorString "context deadline exceeded".

Definition dialWithin {C} (netDial : dialer → gostring → gostring → Z → res C) (network address : gostring) (timeout : Z)
    (st : dialState) : res C :=
  d ← dialerFor address st;
  if timeout <=? 0 then Err deadlineExceeded else netDial d network address timeout.

Definition DialTCPTimeout {C} (netDial : dialer → gostring → gostring → Z → res C) (address : gostring) (timeout : Z)
    (st : dialState) : res C :=
  dialWithin netDial "tcp" address timeout st.
End Dial.

(** ** What a call does *)

Section Facts.
Context (trial : gostring → gostring → Z → res laddr) (interfaces : res (list osInterface)).

Abbreviation setLocalAddr := (SetLocalAddr trial interfaces).

(** A call that fails, or panics, leaves the dialers and the monitor as they
    were; after one that succeeds both dialers are there, so every address that
    is not empty can be dialled, and each is bound as the option says. *)
Theorem set_local_addr_all_or_nothing o stdin st :
  match setLocalAddr o stdin st with
  | (Ok _, st') =>
      (∀ address, address ≠ [] → dialerFor address st' ≠ Panic) ∧
      ∃ v4 v6 zone, chooseAddrs trial interfaces o stdin = Ok (v4, v6, zone, monitorRunning st') ∧
        NewDialer false st' = Ok ((λ ip, (ip, [])) <$> v4) ∧ NewDialer true st' = Ok ((λ ip, (ip, zone)) <$> v6)
  | (_, st') => st' = st
  end.
Proof.
  unfold SetLocalAddr, mbind, stM_bind, liftS, modifyS.
  destruct (chooseAddrs trial interfaces o stdin) as [[[[v4 v6] zone] mon]|e|]; [|done..]. split.
  - intros [|c address] Hne; [done|]. unfold dialerFor. cbn. by destruct (c =? 91).
  - by exists v4, v6, zone.
Qed.

(** The manual choice never takes effect: once an interface was chosen the call
    panics. *)
Theorem manual_select_panics o stdin ifs i rest st :
  boMethod o = MethodSelectInterface → Zone o = [] → ManualSelect o = true →
  getFilteredInterfaces interfaces = Ok ifs → manualSelect ifs stdin = (Ok i, rest) →
  setLocalAddr o stdin st = (Panic, st).
Proof.
  intros Hm Hz Hs Hi Hc. unfold SetLocalAddr, mbind, stM_bind, liftS, chooseAddrs. rewrite Hm, Hi. cbn [mbind res_bind].
  unfold selectInterface. rewrite Hz, Hs, Hc. done.
Qed.

(** No interface has a gateway, so without an interface in the preferred prefix
    the automatic choice always fails. *)
Theorem auto_select_prefix_only ifs preferred i :
  getFilteredInterfaces interfaces = Ok ifs → autoSelect ifs preferred = Some i →
  ∃ p ip a, preferred = Some p ∧ ipv4 i = Some ip ∧ AddrFromSlice ip = Some a ∧ Contains p (Unmap a) = true ∧ i ∈ ifs.
Proof.
  intros Hifs Ha. assert (∀ j, j ∈ ifs → gateway j = []) as Hg.
  { unfold getFilteredInterfaces in Hifs. destruct interfaces as [l|e|]; [|done..].
    destruct (omap filterInterface l) as [|j0 js] eqn:E; [done|]. injection Hifs as <-. rewrite <- E.
    intros j Hj. apply list_elem_of_omap in Hj as (os & _ & Ho). unfold filterInterface in Ho.
    destruct (_ || _); [done|]. destruct (osAddrs os) as [ad|?|]; [|done..].
    destruct (foldl pickStep (None, None) ad) as [[?|] [?|]]; [..|done]; by injection Ho as <-. }
  assert (∀ f, List.find (λ j, negb (bool_decide (gateway j = [])) && f j) ifs = None) as Hnone.
  { intros f. destruct (List.find _ ifs) as [j|] eqn:E; [|done]. apply List.find_some in E as [Hin Hj].
    apply list_elem_of_In in Hin. by rewrite (Hg j Hin) in Hj. }
  unfold autoSelect in Ha. rewrite !Hnone in Ha. destruct preferred as [p|]; [|done].
  destruct (List.find _ ifs) as [j|] eqn:E; [|done]. injection Ha as ->. apply List.find_some in E as [Hin Hj].
  apply list_elem_of_In in Hin. destruct (ipv4 i) as [ip|]; [|done]. destruct (AddrFromSlice ip) as [a|] eqn:Ea; [|done].
  by exists p, ip, a.
Qed.
End Facts.

(** ** The monitor beside the calls

    A monitor goroutine waits, or has asked for addresses and is about to store
    them; its channel is closed by the next call of [SetLocalAddr].  When a tick
    and the closed channel are both there, either may be taken. *)

Inductive monitorThread := MonWaiting (fn : monitorFn) | MonHolding (fn : monitorFn) (a : option bytes * option bytes * gostring) | MonGone.

Record monitorWorld := mkMonitorWorld { mwDial : dialState; mwThreads : list (monitorThread * bool) }.

Section MonitorSteps.
Context (trial : gostring → gostring → Z → res laddr) (interfaces : res (list osInterface)).

Inductive monitorStep : monitorWorld → monitorWorld → Prop :=
| monitor_asks st ts i fn stopped a :
    ts !! i = Some (MonWaiting fn, stopped) → runMonitor trial interfaces fn = Ok a →
    monitorStep (mkMonitorWorld st ts) (mkMonitorWorld st (<[i := (MonHolding fn a, stopped)]> ts))
| monitor_stores st ts i fn stopped a :
    ts !! i = Some (MonHolding fn a, stopped) →
    monitorStep (mkMonitorWorld st ts) (mkMonitorWorld (storeMonitored a st) (<[i := (MonWaiting fn, stopped)]> ts))
| monitor_leaves st ts i fn :
    ts !! i = Some (MonWaiting fn, true) →
    monitorStep (mkMonitorWorld st ts) (mkMonitorWorld st (<[i := (MonGone, true)]> ts))
| local_addr_set st ts o stdin st' :
    SetLocalAddr trial interfaces o stdin st = (Ok tt, st') →
    monitorStep (mkMonitorWorld st ts)
      (mkMonitorWorld st' (((λ t, (t.1, true)) <$> ts) ++
         match monitorRunning st' with Some fn => [(MonWaiting fn, false)] | None => [] end)).

(** Every monitor but the last one started has been told to stop, and the last
    one runs exactly when the state says so. *)
Definition monitorsOK (w : monitorWorld) : Prop :=
  match monitorRunning (mwDial w) with
  | Some fn => ∃ ts t, mwThreads w = ts ++ [(t, false)] ∧ Forall (λ t, t.2 = true) ts ∧
      (t = MonWaiting fn ∨ ∃ a, t = MonHolding fn a)
  | None => Forall (λ t, t.2 = true) (mwThreads w)
  end.

Lemma set_stopped ts i (t : monitorThread) : Forall (λ t : monitorThread * bool, t.2 = true) ts →
  Forall (λ t : monitorThread * bool, t.2 = true) (<[i := (t, true)]> ts).
Proof. intros H. by apply Forall_insert. Qed.

(** A thread that changes without its flag: the shape of the list stays. *)
Lemma monitors_change st ts i t t' stopped : monitorsOK (mkMonitorWorld st ts) → ts !! i = Some (t, stopped) →
  (stopped = false → (∃ fn, t = MonWaiting fn ∧ ∃ a, t' = MonHolding fn a) ∨ (∃ fn a, t = MonHolding fn a ∧ t' = MonWaiting fn)) →
  monitorsOK (mkMonitorWorld st (<[i := (t', stopped)]> ts)).
Proof.
  unfold monitorsOK. cbn. destruct (monitorRunning st) as [fn|].
  - intros (ts' & t0 & -> & Hts & Ht0) Hi Hchg. destruct (decide (i < length ts')%nat) as [Hlt|Hge].
    + rewrite lookup_app_l in Hi by done. assert (stopped = true) as ->.
      { rewrite Forall_lookup in Hts. exact (Hts _ _ Hi). }
      rewrite insert_app_l by done. exists (<[i := (t', true)]> ts'), t0. auto using set_stopped.
    + rewrite lookup_app_r in Hi by lia. destruct (i - length ts')%nat as [|k] eqn:Ek; [|done].
      injection Hi as <- <-. replace i with (length ts' + 0)%nat by lia. rewrite insert_app_r. exists ts', t'. cbn.
      split_and!; [done..|]. destruct (Hchg eq_refl) as [(fn' & -> & a & ->)|(fn' & a & -> & ->)]; naive_solver.
  - intros Hts Hi _. assert (stopped = true) as ->.
    { rewrite Forall_lookup in Hts. exact (Hts _ _ Hi). }
    by apply set_stopped.
Qed.

Lemma monitors_ok_step w w' : monitorsOK w → monitorStep w w' → monitorsOK w'.
Proof.
  intros Hw Hs. revert Hw. destruct Hs; intros Hw.
  - eapply monitors_change; [exact Hw|eassumption|]. intros _. left. naive_solver.
  - assert (monitorRunning (storeMonitored a st) = monitorRunning st) as E by (by destruct a as [[? ?] ?]).
    assert (monitorsOK (mkMonitorWorld st (<[i:=(MonWaiting fn, stopped)]> ts))) as Hok.
    { eapply monitors_change; [exact Hw|eassumption|]. intros _. right. naive_solver. }
    unfold monitorsOK in *. cbn in *. by rewrite E.
  - by eapply monitors_change; [exact Hw|eassumption|].
  - unfold monitorsOK. cbn. assert (Forall (λ t : monitorThread * bool, t.2 = true) ((λ t, (t.1, true)) <$> ts)) as Hall.
    { apply Forall_fmap, Forall_true. done. }
    destruct (monitorRunning st') as [fn|].
    + exists ((λ t, (t.1, true)) <$> ts), (MonWaiting fn). eauto.
    + by rewrite app_nil_r.
Qed.

(** At most one monitor runs that was not told to stop. *)
Theorem one_monitor w w' : monitorsOK w → rtc monitorStep w w' → monitorsOK w'.
Proof. intros Hw Hs. induction Hs; eauto using monitors_ok_step. Qed.

(** But one that was told to stop while it held addresses stores them after the
    call has returned: the binding that was switched off is there again. *)
Theorem stale_monitor_rebinds st fn ip v6 zone :
  ∃ w1 w2, let holding := (MonHolding fn (Some ip, v6, zone), false) in
    monitorStep (mkMonitorWorld st [holding]) w1 ∧ NewDialer false (mwDial w1) = Ok None ∧
    monitorStep w1 w2 ∧ NewDialer false (mwDial w2) = Ok (Some (ip, [])) ∧ monitorRunning (mwDial w2) = None.
Proof.
  eexists _, _. split_and!.
  - eapply (local_addr_set _ _ noBinding []). reflexivity.
  - reflexivity.
  - eapply (monitor_stores _ _ 0). reflexivity.
  - reflexivity.
  - reflexivity.
Qed.
End MonitorSteps.

Example binding_examples :
  let os := Ok [mkOS 1 "lo" true true (Ok [Some [127; 0; 0; 1]]);
                mkOS 2 "wlan0" true false (Ok [Some [169; 254; 0; 1]; Some [192; 168; 1; 7]; Some (0xfe :: 0x80 :: replicate 14 0)])] in
  let wlan := mkInterface 2 "wlan0" [] (Some [192; 168; 1; 7]) None in
  getFilteredInterfaces os = Ok [wlan] ∧
  autoSelect [wlan] (ParsePrefix "192.168.0.0/16") = Some wlan ∧ autoSelect [wlan] (ParsePrefix "10.0.0.0/8") = None ∧
  manualSelect [wlan] [Ok 3; Ok (-1); Ok 0] = (Ok wlan, []) ∧
  (SetLocalAddr (λ _ _ _, Err (sysError 1)) os (mkBinding MethodSelectInterface true [] None 0 false [] [] 0 None None []) [Ok 0]
    (mkDial None None None)).1 = Panic ∧
  dialerFor [] (mkDial (Some None) (Some None) None) = Panic.
Proof. vm_compute. split_and!; reflexivity. Qed.
