(* ===== verification/Dialer.v ===== *)
(** * Outgoing sockets of the packet engine (tun2socks/dialer)

    Which options a socket gets before it is used, on every platform: the device
    or interface it is bound to and the mark of its packets.  The system is a
    parameter: whether a call fails, and the interfaces there are.  The calls made
    on a socket are kept in order. *)

From S2P Require Import Prelude Errors Netip Stream Policy IPPool DialBind.
Local Open Scope Z_scope.

Record Options := mkOptions {
  InterfaceName : gostring;
  InterfaceIndex : Z;
  RoutingMark : Z;
}.

(** The options of the default dialer are atomics: a name and two [int32]. *)
Record Dialer := mkDialer {
  dInterfaceName : gostring;
  dInterfaceIndex : Z;
  dRoutingMark : Z;
}.

Definition DefaultDialer : Dialer := mkDialer [] 0 0.

Definition optionsOf (d : Dialer) : Options := mkOptions (dInterfaceName d) (dInterfaceIndex d) (dRoutingMark d).

Inductive sockopt :=
| BindToDevice (name : gostring)
| SO_MARK (v : Z)
| SO_USER_COOKIE (v : Z)
| SO_RTABLE (v : Z)
| IP_BOUND_IF (v : Z)
| IPV6_BOUND_IF (v : Z)
| IP_UNICAST_IF (v : Z)
| IPV6_UNICAST_IF (v : Z).

Inductive platform := Linux | Darwin | FreeBSD | OpenBSD | Windows | OtherOS.

Definition isTCPSocket (network : gostring) : bool :=
  bool_decide (network = lit "tcp") || bool_decide (network = lit "tcp4") || bool_decide (network = lit "tcp6").
Definition isUDPSocket (network : gostring) : bool :=
  bool_decide (network = lit "udp") || bool_decide (network = lit "udp4") || bool_decide (network = lit "udp6").

Definition isV4 (network : gostring) : bool := bool_decide (network = lit "tcp4") || bool_decide (network = lit "udp4").
Definition isV6 (network : gostring) : bool := bool_decide (network = lit "tcp6") || bool_decide (network = lit "udp6").

(** [net.IP.IsGlobalUnicast]: private addresses are among them. *)
Definition IPIsMulticast (ip : bytes) : bool :=
  match To4 ip with
  | Some v => Z.land (at_ v 0) 0xf0 =? 0xe0
  | None => (zlen ip =? 16) && (at_ ip 0 =? 0xff)
  end.
Definition IPIsUnspecified (ip : bytes) : bool :=
  match To4 ip with Some v => bool_decide (v = replicate 4 0) | None => bool_decide (ip = replicate 16 0) end.
Definition IsGlobalUnicast (ip : bytes) : bool :=
  ((zlen ip =? 4) || (zlen ip =? 16)) && negb (bool_decide (To4 ip = Some (replicate 4 255))) && negb (IPIsUnspecified ip) &&
  negb (IsLoopback ip) && negb (IPIsMulticast ip) && negb (IsLinkLocalUnicast ip).

(** The host of an address; of one that does not split it is empty. *)
Definition hostOf (address : gostring) : gostring := match SplitHostPort address with Ok (h, _) => h | _ => [] end.

(** [bindSocketToInterface4] on Windows: the index in network byte order, read back
    as a number of the (little-endian) machine. *)
Definition networkOrder (index : Z) : Z := be_value (rev (be_bytes 4 (u32 index))).

Section Sockopt.
Context (fails : sockopt → option error).
Context (InterfaceByName : gostring → option Z) (InterfaceByIndex : Z → option gostring).

(** The calls of a socket, the error kept in [innerErr], and the options. *)
Record sockState := mkSock { calls : list sockopt; innerErr : option error; opts : Options }.

Definition setopt (op : sockopt) (s : sockState) : sockState := mkSock (calls s ++ [op]) (fails op) (opts s).

(** Go on unless the last call failed. *)
Definition andThen (f : sockState → sockState) (s : sockState) : sockState :=
  match innerErr s with None => f s | Some _ => s end.

Definition mark (op : Z → sockopt) (s : sockState) : sockState :=
  if RoutingMark (opts s) =? 0 then s else setopt (op (RoutingMark (opts s))) s.

(** The name of an index, or the index of a name, stored in the options. *)
Definition resolveName (s : sockState) : sockState :=
  let o := opts s in
  if bool_decide (InterfaceName o = []) && negb (InterfaceIndex o =? 0) then
    match InterfaceByIndex (InterfaceIndex o) with
    | Some n => mkSock (calls s) (innerErr s) (mkOptions n (InterfaceIndex o) (RoutingMark o))
    | None => s
    end
  else s.
Definition resolveIndex (s : sockState) : sockState :=
  let o := opts s in
  if (InterfaceIndex o =? 0) && negb (bool_decide (InterfaceName o = [])) then
    match InterfaceByName (InterfaceName o) with
    | Some i => mkSock (calls s) (innerErr s) (mkOptions (InterfaceName o) i (RoutingMark o))
    | None => s
    end
  else s.

(** The function given to [Control], behind the test of the address, on each
    platform. *)
Definition setLinux (s : sockState) : sockState :=
  let s := resolveName s in
  let s := if bool_decide (InterfaceName (opts s) = []) then s else setopt (BindToDevice (InterfaceName (opts s))) s in
  andThen (mark SO_MARK) s.

Definition setDarwin (network : gostring) (s : sockState) : sockState :=
  let s := resolveIndex s in
  let i := InterfaceIndex (opts s) in
  if i =? 0 then s
  else if isV4 network then setopt (IP_BOUND_IF i) s
  else if isV6 network then setopt (IPV6_BOUND_IF i) s
  else s.

Definition setFreeBSD (s : sockState) : sockState := mark SO_USER_COOKIE s.

Definition setOpenBSD (s : sockState) : sockState := mark SO_RTABLE s.

Definition bindSocketToInterface4 (i : Z) : sockState → sockState := setopt (IP_UNICAST_IF (networkOrder i)).
Definition bindSocketToInterface6 (i : Z) : sockState → sockState := setopt (IPV6_UNICAST_IF i).

Definition setWindows (network : gostring) (ip : option bytes) (s : sockState) : sockState :=
  let s := resolveIndex s in
  let i := u32 (InterfaceIndex (opts s)) in
  if InterfaceIndex (opts s) =? 0 then s
  else if isV4 network then bindSocketToInterface4 i s
  else if isV6 network then
    let s := bindSocketToInterface6 i s in
    if bool_decide (network = lit "udp6") && bool_decide (ip = None) then bindSocketToInterface4 i s else s
  else s.

Definition setPlatform (p : platform) (network : gostring) (ip : option bytes) (s : sockState) : sockState :=
  match p with
  | Linux => setLinux s
  | Darwin => setDarwin network s
  | FreeBSD => setFreeBSD s
  | OpenBSD => setOpenBSD s
  | Windows => setWindows network ip s
  | OtherOS => s
  end.

(** [setSocketOptions]; [ctl] is the error of [Control] itself, which then does not
    run its function. *)
Definition setSocketOptions (p : platform) (ctl : option error) (network address : gostring) (o : option Options)
    : option error * list sockopt :=
  match p, o with
  | OtherOS, _ | _, None => (None, [])
  | _, Some o =>
      if negb (isTCPSocket network) && negb (isUDPSocket network) then (None, []) else
      match ctl with
      | Some e => (Some e, [])
      | None =>
          let ip := ParseIP (hostOf address) in
          if match ip with Some ip => negb (IsGlobalUnicast ip) | None => false end then (None, []) else
          let s := setPlatform p network ip (mkSock [] None o) in
          (innerErr s, calls s)
      end
  end.

(** One socket of [DialContext] or [ListenPacket]: the options are read off the
    dialer once per call; net.Dialer opens no connection on a socket whose
    [Control] fails.  [network] and [address] are those net.Dialer hands to
    [Control] for this socket, after it has resolved the name and chosen the
    family (tcp4 and 127.0.0.1:80 for a dial of tcp and localhost:80), not those
    the caller dials. *)
Definition dialSocket {C} (connect : list sockopt → res C) (p : platform) (ctl : option error) (network address : gostring)
    (d : Dialer) : res C :=
  match setSocketOptions p ctl network address (Some (optionsOf d)) with
  | (Some e, _) => Err e
  | (None, ops) => connect ops
  end.

(** ** What the options do *)

(** Loopback, link-local, multicast and unspecified destinations are left alone on
    every platform. *)
Lemma local_untouched p network address o ip :
  ParseIP (hostOf address) = Some ip → IsGlobalUnicast ip = false →
  (setSocketOptions p None network address o).2 = [] ∧ (setSocketOptions p None network address o).1 = None.
Proof.
  intros Hip Hg. unfold setSocketOptions. destruct p, o as [o|]; try done; destruct (_ && _); try done; rewrite Hip, Hg; done.
Qed.

(** A socket for the outside world on Linux. *)
Definition outside (network address : gostring) : Prop :=
  (isTCPSocket network = true ∨ isUDPSocket network = true) ∧
  match ParseIP (hostOf address) with Some ip => IsGlobalUnicast ip = true | None => True end.

(** The device the options name, directly or by its index. *)
Definition deviceOf (o : Options) : gostring :=
  if bool_decide (InterfaceName o = []) && negb (InterfaceIndex o =? 0)
  then default [] (InterfaceByIndex (InterfaceIndex o)) else InterfaceName o.

(** C30: on Linux, a connection that is opened has the options in force: its socket
    is bound to the device the dialer names and carries its mark, in this order,
    and no call failed; when one fails, nothing is opened and its error is the
    answer.  The network and the address are the resolved ones, as [Control] gets
    them. *)
Theorem linux_options_in_force {C} (connect : list sockopt → res C) network address d :
  outside network address →
  let wanted := (if bool_decide (deviceOf (optionsOf d) = []) then [] else [BindToDevice (deviceOf (optionsOf d))]) ++
                (if dRoutingMark d =? 0 then [] else [SO_MARK (dRoutingMark d)]) in
  match omap fails wanted with
  | [] => dialSocket connect Linux None network address d = connect wanted
  | e :: _ => dialSocket connect Linux None network address d = Err e
  end.
Proof.
  intros [Hn Ha]. unfold dialSocket, setSocketOptions.
  assert (negb (isTCPSocket network) && negb (isUDPSocket network) = false) as ->.
  { destruct Hn as [-> | ->]; [done|]. by rewrite andb_false_r. }
  assert (match ParseIP (hostOf address) with Some ip => negb (IsGlobalUnicast ip) | None => false end = false) as ->.
  { destruct (ParseIP (hostOf address)) as [ip|]; [by rewrite Ha|done]. }
  cbv zeta. unfold setPlatform, setLinux, deviceOf, resolveName, optionsOf. cbn [opts InterfaceName InterfaceIndex RoutingMark calls innerErr].
  assert (∀ s : sockState, innerErr s = None → RoutingMark (opts s) = dRoutingMark d →
    andThen (mark SO_MARK) s = (if dRoutingMark d =? 0 then s else setopt (SO_MARK (dRoutingMark d)) s)) as Hmark.
  { intros s Hs Hr. unfold andThen, mark. by rewrite Hs, Hr. }
  set (cond := bool_decide (dInterfaceName d = []) && negb (dInterfaceIndex d =? 0)). set (dev := if cond then default [] _ else _).
  set (s0 := if cond then _ else _).
  assert (InterfaceName (opts s0) = dev ∧ RoutingMark (opts s0) = dRoutingMark d ∧ innerErr s0 = None ∧ calls s0 = []) as (H1 & H2 & H3 & H4).
  { subst s0 dev. destruct cond eqn:Ec; [|done]. destruct (InterfaceByIndex _); [done|]. subst cond. bool_to_prop. done. }
  clearbody s0 dev. rewrite H1. case_bool_decide as Hd.
  - rewrite Hmark by done. destruct (dRoutingMark d =? 0); cbn; [by rewrite H3, H4|]. rewrite H4. by destruct (fails (SO_MARK _)).
  - destruct (fails (BindToDevice dev)) as [e|] eqn:Ef.
    + assert (andThen (mark SO_MARK) (setopt (BindToDevice dev) s0) = setopt (BindToDevice dev) s0) as ->
        by (unfold andThen, setopt; cbn; by rewrite Ef).
      cbn. by rewrite Ef.
    + rewrite Hmark by (cbn; done). destruct (dRoutingMark d =? 0); cbn; rewrite Ef, H4; [done|]. by destruct (fails (SO_MARK _)).
Qed.

(** Everywhere but on Windows a failed call is an error of the whole. *)
Lemma no_error_hidden p ctl network address o op :
  p ≠ Windows → op ∈ (setSocketOptions p ctl network address o).2 → is_Some (fails op) →
  is_Some (setSocketOptions p ctl network address o).1.
Proof.
  intros Hp Hop [e He]. unfold setSocketOptions in *.
  destruct p, o as [o|]; try done; cbn [fst snd] in *; try set_solver;
    destruct (negb (isTCPSocket network) && negb (isUDPSocket network)); try (cbn in Hop; set_solver);
    destruct ctl; try (cbn in Hop; set_solver); cbv zeta in *;
    destruct (match ParseIP (hostOf address) with Some ip => negb (IsGlobalUnicast ip) | None => false end); try (cbn in Hop; set_solver);
    revert Hop; cbn [setPlatform]; unfold setLinux, setDarwin, setFreeBSD, setOpenBSD, andThen, mark, setopt, resolveName, resolveIndex;
    repeat case_match; cbn in *; rewrite ?elem_of_app, ?list_elem_of_singleton, ?elem_of_nil; intros Hop; destruct_or?; subst; try done; try set_solver; eauto;
    try congruence; naive_solver.
Qed.

(** On Windows the second call for [udp6] overwrites the error of the first: the
    socket is used although it is not bound for IPv6. *)
Lemma windows_hides_error i :
  i ≠ 0 → fails (IPV6_UNICAST_IF (u32 i)) ≠ None → fails (IP_UNICAST_IF (networkOrder (u32 i))) = None →
  setSocketOptions Windows None "udp6" "[::]:0" (Some (mkOptions [] i 0)) = (None, []) ∧
  setSocketOptions Windows None "udp6" ":0" (Some (mkOptions [] i 0)) =
    (None, [IPV6_UNICAST_IF (u32 i); IP_UNICAST_IF (networkOrder (u32 i))]).
Proof.
  intros Hi H6 H4. split; [reflexivity|]. unfold setSocketOptions.
  change (ParseIP (hostOf ":0")) with (@None bytes). change (negb (isTCPSocket "udp6") && negb (isUDPSocket "udp6")) with false.
  cbv zeta beta iota. unfold setPlatform, setWindows, bindSocketToInterface4, bindSocketToInterface6, resolveIndex. change (isV4 "udp6") with false. change (isV6 "udp6") with true.
  cbn [opts InterfaceIndex InterfaceName]. rewrite (proj2 (Z.eqb_neq i 0)), !bool_decide_eq_true_2 by done.
  cbn -[networkOrder u32]. rewrite (proj2 (Z.eqb_neq i 0)) by done. cbn -[networkOrder u32]. by rewrite H4.
Qed.

(** On Linux an index that names no interface is ignored, and the socket is used
    unbound. *)
Lemma unknown_index_ignored i network address : outside network address →
  i ≠ 0 → InterfaceByIndex i = None → setSocketOptions Linux None network address (Some (mkOptions [] i 0)) = (None, []).
Proof.
  intros [Hn Ha] Hi Hno. unfold setSocketOptions.
  assert (negb (isTCPSocket network) && negb (isUDPSocket network) = false) as ->.
  { destruct Hn as [-> | ->]; [done|]. by rewrite andb_false_r. }
  cbv zeta. destruct (ParseIP (hostOf address)) as [ip|]; [rewrite Ha|]; cbn;
    unfold setLinux, resolveName; cbn; rewrite (proj2 (Z.eqb_neq i 0)) by done; cbn; rewrite Hno; done.
Qed.
End Sockopt.

(** The bytes the system sees are the index in network byte order. *)
Lemma networkOrder_bytes index : 0 ≤ index < 2 ^ 32 → rev (be_bytes 4 (networkOrder index)) = be_bytes 4 index.
Proof.
  intros Hi. unfold networkOrder, u32. rewrite Z.mod_small by done. set (l := rev (be_bytes 4 index)).
  assert (length l = 4%nat) as Hl by (unfold l; by rewrite length_rev, be_bytes_length).
  rewrite <- Hl at 1. rewrite be_bytes_value; [apply rev_involutive|]. apply Forall_rev, be_bytes_wf.
Qed.

(** A link-local address with a zone is not recognised as one. *)
Example zone_not_skipped :
  hostOf "[fe80::1%wlan0]:53" = lit "fe80::1%wlan0" ∧ ParseIP "fe80::1%wlan0" = None ∧
  (∃ ip, ParseIP "fe80::1" = Some ip ∧ IsGlobalUnicast ip = false).
Proof. split_and!; [by vm_compute..|]. eexists. split; vm_compute; reflexivity. Qed.

Lemma linux_options_in_force_witness :
  dialSocket (C := nat) (λ _, None) (λ _, None) (λ i, if i =? 3 then Some (lit "wlan0") else None) (λ l, Ok (length l)) Linux None "tcp4" "93.184.216.34:443"
    (mkDialer [] 3 7) = Ok 2%nat.
Proof.
  refine (linux_options_in_force (λ _, None) (λ _, None) (λ i, if i =? 3 then Some (lit "wlan0") else None) (λ l, Ok (length l)) "tcp4" "93.184.216.34:443"
    (mkDialer [] 3 7) _).
  split; [left; reflexivity|vm_compute; reflexivity].
Defined.
