(* ===== verification/TunBridge.v ===== *)
(** * The bridge between the tunnel interface and a connection (core/tun_bridge.go)

    A [tunPolicyConn] sits on a connection to the destination.  It keeps back
    what the application writes until it has seen the first bytes, or the whole
    first TLS record; then it applies the dial plan's policy and hands the
    connection over.  How the application cuts its bytes into writes is up to
    the network stack, so the theorems speak of every way of cutting. *)

From S2P Require Import Prelude Errors Stream Netip AddrTrie Conn ClientHello Fragment Policy FakeIP Routing Ring LRU LRUSpec Sharded Desync Tunnel.
Local Open Scope Z_scope.

(** ** State *)

(** [tc_shut]: the connection below has been closed. *)
Record tunPolicyConn := mkTun {
  tc_conn : conn;
  tc_shut : bool;
  tc_handled : bool;
  tc_closed : bool;
  tc_pending : bytes;
}.

Definition WrapTCPConn (c : conn) : tunPolicyConn := mkTun c false false false [].

Definition withConn (s : tunPolicyConn) (c : conn) : tunPolicyConn :=
  mkTun c (tc_shut s) (tc_handled s) (tc_closed s) (tc_pending s).
Definition setHandled (s : tunPolicyConn) : tunPolicyConn :=
  mkTun (tc_conn s) (tc_shut s) true (tc_closed s) (tc_pending s).
Definition setClosed (b : bool) (s : tunPolicyConn) : tunPolicyConn :=
  mkTun (tc_conn s) (tc_shut s) (tc_handled s) b (tc_pending s).
Definition dropPending (s : tunPolicyConn) : tunPolicyConn :=
  mkTun (tc_conn s) (tc_shut s) (tc_handled s) (tc_closed s) [].
Definition shutConn (s : tunPolicyConn) : tunPolicyConn :=
  mkTun (tc_conn s) true (tc_handled s) (tc_closed s) (tc_pending s).

(** A computation of the bridge. *)
Abbreviation bM := (stM tunPolicyConn).

(** Send on the connection below. *)
Definition below {A} (m : netM A) : bM A := λ s, let '(r, c) := m (tc_conn s) in (r, withConn s c).

Section Bridge.
Context (t : Tables).
(** [getFakeTTL] and the choices of the system in [desyncSend]. *)
Context (fakeTTL : Policy → gostring → res Z) (sch : splicing) (sockTTL : Z).
Context (plan : DialPlan).

Definition flushPendingLocked : bM unit := λ s,
  if bool_decide (tc_pending s = []) then modifyS setHandled s
  else (below (write (tc_pending s));; modifyS setHandled;; modifyS dropPending) s.

(** [sendTLSAlert] on the connection below: a failed write is only logged. *)
Definition alertBelow (prtVer : bytes) (desc : Z) : bM unit :=
  r ← liftS (checked (tlsAlertRecord prtVer desc tlsAlertLevelFatal));
  _ ← attemptS (below (write r)); mret tt.

(** The three ways a ClientHello is refused all close the connection and return [io.EOF]. *)
Definition refuse {A} (alert : option (bytes * Z)) : bM A :=
  modifyS (setClosed true);;
  match alert with Some (v, desc) => alertBelow v desc | None => mret tt end;;
  modifyS shutConn;;
  liftS (Err errEOF).

(** The rule for the server name: [None] to go on, or the alert to refuse with. *)
Definition sniVerdict (prtVer : bytes) (sni : gostring) : option (option (bytes * Z)) :=
  if bool_decide (sni = []) then None else
  match Domain.Find (domainMatcher t) sni with
  | None => None
  | Some domainPolicy =>
      match pMode (mergePolicies [domainPolicy; defaultPolicy t]) with
      | ModeBlock => Some None
      | ModeTLSAlert => Some (Some (prtVer, tlsAlertAccessDenied))
      | _ => None
      end
  end.

Definition forwardHello (mode : Mode) (record : bytes) (h : helloInfo) : bM unit :=
  let p := dp_policy plan in
  match mode with
  | ModeDirect => below (write record)
  | ModeTLSRF =>
      below (sendRecords record (sniStart h) (sniLen h) (pNumRecords p) (pNumSegments p) (pMinorVer p)
               (IsTrue (pOOB p)) (IsTrue (pOOBEx p)) (IsTrue (pWaitForAck p)) (pSendInterval p))
  | ModeTTLD =>
      ttl ← (if (pFakeTTL p =? 0) || (pFakeTTL p =? unsetInt) then liftS (fakeTTL p (dp_targetHost plan))
             else mret (pFakeTTL p));
      below (desyncSend sch sockTTL record (sniStart h) (sniLen h) ttl (pFakeSleep p))
  | _ => below (write record)
  end.

Definition handleTLSLocked (record : bytes) : bM unit :=
  h ← liftS (checked (parseClientHello record));
  match helloErr h with
  | Some _ => flushPendingLocked
  | None =>
      let p := dp_policy plan in
      if bool_decide (pMode p = ModeTLSAlert) then refuse (Some (prtVer h, tlsAlertAccessDenied))
      else if IsTrue (pTLS13Only p) && negb (hasKeyShare h) then refuse (Some (prtVer h, tlsAlertProtocolVersion))
      else if (sniStart h <=? 0) || (sniLen h <=? 0) then forwardHello ModeDirect record h
      else if hasECH h then forwardHello ModeDirect record h
      else
        sni ← liftS (checked (slice record (sniStart h) (sniStart h + sniLen h)));
        match sniVerdict (prtVer h) sni with
        | Some alert => refuse alert
        | None => forwardHello (pMode p) record h
        end
  end.

(** The first record of the pending bytes: [None] when they are no TLS record,
    [Some None] when it is not complete yet. *)
Definition firstRecord (pending : bytes) : option (option (bytes * bytes)) :=
  match idx pending 0, idx pending 1, u16at pending 3 with
  | Some b0, Some b1, Some len =>
      if (b0 =? 22) && (b1 =? 3) then
        Some (if zlen pending <? 5 + len then None
              else Some (take (Z.to_nat (5 + len)) pending, drop (Z.to_nat (5 + len)) pending))
      else None
  | _, _, _ => None
  end.

Definition flushAndClose : bM bool :=
  e ← attemptS flushPendingLocked; modifyS (setClosed (isErr e));; mret true.

Definition tryHandlePendingLocked : bM bool := λ s,
  let pending := tc_pending s in
  if bool_decide (pending = []) then (Ok false, s)
  else if dp_blocked plan || bool_decide (pMode (dp_policy plan) = ModeBlock) then
    (modifyS (setClosed true);; modifyS shutConn;; mret true) s
  else if bool_decide (pMode (dp_policy plan) = ModeRaw) then flushAndClose s
  else if zlen pending <? 5 then (Ok false, s)
  else
    match firstRecord pending with
    | Some None => (Ok false, s)
    | Some (Some (record, tail)) =>
        (err ← attemptS (handleTLSLocked record);
         if isErr err then modifyS (setClosed true);; mret true
         else
           modifyS setHandled;; modifyS dropPending;;
           (if bool_decide (tail = []) then mret tt
            else err ← attemptS (below (write tail)); if isErr err then modifyS (setClosed true) else mret tt);;
           mret true) s
    | None => (modifyS setHandled;; flushAndClose) s
    end.

Definition tunWrite (b : bytes) : bM Z := λ s,
  if tc_closed s then (Err errEOF, s)
  else if tc_handled s then (below (write b);; mret (zlen b)) s
  else
    (tryHandlePendingLocked;; mret (zlen b))
      (mkTun (tc_conn s) (tc_shut s) (tc_handled s) (tc_closed s) (tc_pending s ++ b)).

(** The application's writes, in order; it goes on after an error. *)
Fixpoint writes (bs : list bytes) (s : tunPolicyConn) : list (res Z) * tunPolicyConn :=
  match bs with
  | [] => ([], s)
  | b :: bs' =>
      let '(r, s1) := tunWrite b s in
      let '(rs, s2) := writes bs' s1 in (r :: rs, s2)
  end.
End Bridge.

Definition DefaultDialTimeout (p : Policy) : Z :=
  if 0 <? pConnectTimeout p then pConnectTimeout p else 10 * second.

(** ** Cutting a byte stream into writes *)

(** The write that completes [rec], whatever the cut. *)
Lemma crossing (rec tail : bytes) (bs : list bytes) (acc : bytes) :
  (length acc < length rec)%nat → acc ++ concat bs = rec ++ tail →
  ∃ bs1 b bs2 tail1, bs = bs1 ++ b :: bs2 ∧
    (∃ rest, rest ≠ [] ∧ acc ++ concat bs1 ++ rest = rec) ∧
    acc ++ concat bs1 ++ b = rec ++ tail1 ∧ tail1 ++ concat bs2 = tail.
Proof.
  revert acc. induction bs as [|b bs IH]; intros acc Hl E.
  { simpl in E. rewrite app_nil_r in E. apply (f_equal length) in E. rewrite length_app in E. lia. }
  cbn [concat] in E. destruct (decide (length (acc ++ b) < length rec)%nat) as [Hs|Hs].
  - destruct (IH (acc ++ b) Hs ltac:(by rewrite <- app_assoc)) as (bs1 & b' & bs2 & tail1 & -> & (rest & Hr & Hrest) & Hc & Ht).
    exists (b :: bs1), b', bs2, tail1. cbn [concat]. rewrite <- !app_assoc in Hrest, Hc |- *.
    split_and!; [done| |done|done]. exists rest. by rewrite <- (app_assoc b).
  - rewrite app_assoc in E. exists [], b, bs, (drop (length rec) (acc ++ b)). cbn [concat app]. split_and!; [done|..].
    + exists (drop (length acc) rec). split.
      * intros Hd%(f_equal length). rewrite length_drop in Hd. simpl in Hd. lia.
      * assert (take (length acc) rec = acc) as Ht.
        { rewrite <- (take_app_le rec tail) by lia. by rewrite <- E, <- app_assoc, take_app_length. }
        rewrite <- Ht at 1. apply take_drop.
    + rewrite <- (take_drop (length rec) (acc ++ b)) at 1. f_equal.
      rewrite <- (take_app_le (acc ++ b) (concat bs)) by lia. by rewrite E, take_app_length.
    + rewrite <- (drop_app_le (acc ++ b) (concat bs)) by lia. by rewrite E, drop_app_length.
Qed.

(** A complete TLS record. *)
Definition tlsRecord (rec : bytes) : Prop := 5 ≤ zlen rec ∧ firstRecord rec = Some (Some (rec, [])).

Lemma firstRecord_cons a0 a1 a2 a3 a4 l :
  firstRecord (a0 :: a1 :: a2 :: a3 :: a4 :: l) =
  if (a0 =? 22) && (a1 =? 3) then
    Some (if zlen (a0 :: a1 :: a2 :: a3 :: a4 :: l) <? 5 + be16 a3 a4 then None
          else Some (take (Z.to_nat (5 + be16 a3 a4)) (a0 :: a1 :: a2 :: a3 :: a4 :: l),
                     drop (Z.to_nat (5 + be16 a3 a4)) (a0 :: a1 :: a2 :: a3 :: a4 :: l)))
  else None.
Proof.
  unfold firstRecord. assert (u16at (a0 :: a1 :: a2 :: a3 :: a4 :: l) 3 = Some (be16 a3 a4)) as ->; [|done].
  unfold u16at. rewrite (slice_app [a0; a1; a2] [a3; a4] l); done.
Qed.

Lemma five_bytes (l : bytes) : 5 ≤ zlen l → ∃ a0 a1 a2 a3 a4 l', l = a0 :: a1 :: a2 :: a3 :: a4 :: l'.
Proof. destruct l as [|a0 [|a1 [|a2 [|a3 [|a4 l]]]]]; intros Hl; unfold zlen in Hl; simpl in Hl; try lia. by repeat eexists. Qed.

(** The length in a complete record's header. *)
Lemma tlsRecord_shape rec : tlsRecord rec →
  ∃ a2 a3 a4 l, rec = 22 :: 3 :: a2 :: a3 :: a4 :: l ∧ Z.to_nat (5 + be16 a3 a4) = length rec ∧ 5 + be16 a3 a4 = zlen rec.
Proof.
  intros [Hl Hr]. destruct (five_bytes rec Hl) as (a0 & a1 & a2 & a3 & a4 & l & ->). rewrite firstRecord_cons in Hr.
  set (w := a0 :: a1 :: a2 :: a3 :: a4 :: l) in *.
  destruct (Z.eqb_spec a0 22) as [->|]; [|done]. destruct (Z.eqb_spec a1 3) as [->|]; [|done]. cbn [andb] in Hr.
  destruct (Z.ltb_spec (zlen w) (5 + be16 a3 a4)); [done|]. injection Hr as Ht _.
  exists a2, a3, a4, l. split; [done|]. apply (f_equal length) in Ht. rewrite length_take in Ht.
  unfold zlen in *. assert (5 ≤ length w)%nat by lia. lia.
Qed.

Lemma firstRecord_app rec tail : tlsRecord rec → firstRecord (rec ++ tail) = Some (Some (rec, tail)).
Proof.
  intros Hr. destruct (tlsRecord_shape rec Hr) as (a2 & a3 & a4 & l & -> & Hn & Hz).
  cbn [app]. rewrite firstRecord_cons. cbn [andb Z.eqb Pos.eqb].
  change (22 :: 3 :: a2 :: a3 :: a4 :: l ++ tail) with ((22 :: 3 :: a2 :: a3 :: a4 :: l) ++ tail).
  set (w := 22 :: 3 :: a2 :: a3 :: a4 :: l) in *. rewrite zlen_app, <- Hz, Hn, take_app_length, drop_app_length.
  destruct (Z.ltb_spec (5 + be16 a3 a4 + zlen tail) (5 + be16 a3 a4)) as [Hlt|]; [|done].
  pose proof (zlen_nonneg tail). lia.
Qed.

Lemma firstRecord_short rec acc rest : tlsRecord rec → acc ++ rest = rec → rest ≠ [] → 5 ≤ zlen acc → firstRecord acc = Some None.
Proof.
  intros Hr E Hrest Hl. destruct (tlsRecord_shape rec Hr) as (a2 & a3 & a4 & l & Hrec & _ & Hz).
  destruct (five_bytes acc Hl) as (b0 & b1 & b2 & b3 & b4 & acc' & ->). rewrite firstRecord_cons.
  rewrite Hrec in E. cbn [app] in E. injection E as -> -> -> -> -> E. cbn [andb Z.eqb Pos.eqb].
  destruct (Z.ltb_spec (zlen (22 :: 3 :: a2 :: a3 :: a4 :: acc')) (5 + be16 a3 a4)) as [|Hge]; [done|].
  assert (0 < zlen rest) by (destruct rest; [done|unfold zlen; simpl; lia]).
  rewrite Hz, Hrec, <- E in Hge. unfold zlen in *. simpl in Hge. rewrite length_app in Hge. lia.
Qed.

(** ** The bridge on a quiet connection *)

Lemma below_emits {A} (m : netM A) a K s : emits m a K → quiet (tc_conn s) →
  ∃ c evs, below m s = (Ok a, withConn s c) ∧ quiet c ∧ sent c = sent (tc_conn s) ++ evs ∧ K evs.
Proof.
  intros Hm Hq. destruct (Hm _ Hq) as (c & evs & E & Hc & Hs & HK). exists c, evs. unfold below. by rewrite E.
Qed.

(** Handed over: everything written goes straight through, and the peer has read [b]. *)
Definition passing (b : bytes) (s : tunPolicyConn) : Prop :=
  tc_closed s = false ∧ tc_handled s = true ∧ tc_shut s = false ∧ tc_pending s = [] ∧
  quiet (tc_conn s) ∧ inband (sent (tc_conn s)) = b.

Lemma below_write d b s : quiet (tc_conn s) → inband (sent (tc_conn s)) = b →
  ∃ c, below (write d) s = (Ok tt, withConn s c) ∧ quiet c ∧ inband (sent c) = b ++ d.
Proof.
  intros Hq Hb. destruct (below_emits _ _ _ s (emits_write d) Hq) as (c & evs & E & Hc & Hs & Hp).
  exists c. split_and!; [done|done|]. destruct (Hp []) as [I O]. rewrite !app_nil_r in I, O. simpl in O, I.
  rewrite Hs, inband_app_plain, Hb, I by done. by rewrite ?app_nil_r.
Qed.

Section BridgeFacts.
Context (t : Tables) (fakeTTL : Policy → gostring → res Z) (sch : splicing) (sockTTL : Z) (plan : DialPlan).

Notation writes := (writes t fakeTTL sch sockTTL plan).
Notation tunWrite := (tunWrite t fakeTTL sch sockTTL plan).
Notation handleTLSLocked := (handleTLSLocked t fakeTTL sch sockTTL plan).
Notation tryHandlePendingLocked := (tryHandlePendingLocked t fakeTTL sch sockTTL plan).

Lemma writes_app bs1 bs2 s rs1 s1 rs2 s2 :
  writes bs1 s = (rs1, s1) → writes bs2 s1 = (rs2, s2) → writes (bs1 ++ bs2) s = (rs1 ++ rs2, s2).
Proof.
  revert s rs1. induction bs1 as [|b bs1 IH]; intros s rs1 H1 H2; cbn [TunBridge.writes app] in *.
  - injection H1 as <- <-. done.
  - destruct (tunWrite b s) as [r s']. destruct (writes bs1 s') as [rs s''] eqn:E. injection H1 as <- <-.
    by rewrite (IH s' rs E H2).
Qed.

Lemma writes_passing bs b s : passing b s →
  ∃ s', writes bs s = ((λ b, Ok (zlen b)) <$> bs, s') ∧ passing (b ++ concat bs) s'.
Proof.
  revert b s. induction bs as [|d bs IH]; intros b s Hp.
  { exists s. simpl. by rewrite app_nil_r. }
  pose proof Hp as (Hc & Hh & Hs & Hpe & Hq & Hb). cbn [TunBridge.writes concat fmap list_fmap].
  unfold TunBridge.tunWrite. rewrite Hc, Hh. destruct (below_write d b s Hq Hb) as (c & E & Hq' & Hb').
  rewrite (bindS _ _ _ _ _ E). cbn [mret stM_ret]. unfold mret, stM_ret.
  destruct (IH (b ++ d) (withConn s c)) as (s' & -> & Hp'); [by split_and!|].
  exists s'. rewrite app_assoc. done.
Qed.

(** A plan that lets the bridge look at the first record. *)
Definition inspects : Prop :=
  dp_blocked plan = false ∧ pMode (dp_policy plan) ≠ ModeBlock ∧ pMode (dp_policy plan) ≠ ModeRaw.

Lemma tryHandle_inspects s : inspects → tc_pending s ≠ [] → 5 ≤ zlen (tc_pending s) → 
  tryHandlePendingLocked s = 
    match firstRecord (tc_pending s) with
    | Some None => (Ok false, s)
    | Some (Some (record, tail)) =>
        (err ← attemptS (handleTLSLocked record);
         if isErr err then modifyS (setClosed true);; mret true
         else
           modifyS setHandled;; modifyS dropPending;;
           (if bool_decide (tail = []) then mret tt
            else err ← attemptS (below (write tail)); if isErr err then modifyS (setClosed true) else mret tt);;
           mret true) s
    | None => (modifyS setHandled;; flushAndClose) s
    end.
Proof.
  intros (Hb & Hm1 & Hm2) Hne Hl. unfold TunBridge.tryHandlePendingLocked. rewrite Hb.
  rewrite !bool_decide_eq_false_2 by done. cbn [orb]. by destruct (Z.ltb_spec (zlen (tc_pending s)) 5); [lia|].
Qed.

(** While the first record is incomplete the bytes are kept back. *)
Lemma tunWrite_waiting rec c acc b rest : inspects → tlsRecord rec → acc ++ b ++ rest = rec → rest ≠ [] →
  tunWrite b (mkTun c false false false acc) = (Ok (zlen b), mkTun c false false false (acc ++ b)).
Proof.
  intros Hi Hr E Hne. unfold TunBridge.tunWrite. cbn [tc_closed tc_handled tc_conn tc_shut tc_pending].
  rewrite (bindS _ _ _ false (mkTun c false false false (acc ++ b))); [done|]. destruct (decide (acc ++ b = [])) as [->|Hnil]; [done|].
  destruct (Z.ltb_spec (zlen (acc ++ b)) 5) as [Hl|Hl].
  - destruct Hi as (Hb & Hm1 & Hm2). unfold TunBridge.tryHandlePendingLocked. cbn [tc_pending]. rewrite Hb.
    rewrite !bool_decide_eq_false_2 by done. cbn [orb]. by destruct (Z.ltb_spec (zlen (acc ++ b)) 5); [|lia].
  - rewrite tryHandle_inspects by done. cbn [tc_pending].
    rewrite (firstRecord_short rec (acc ++ b) rest) by (done || by rewrite <- app_assoc). done.
Qed.

Lemma writes_waiting rec c bs acc rest : inspects → tlsRecord rec → acc ++ concat bs ++ rest = rec → rest ≠ [] →
  writes bs (mkTun c false false false acc) = ((λ b, Ok (zlen b)) <$> bs, mkTun c false false false (acc ++ concat bs)).
Proof.
  intros Hi Hr. revert acc. induction bs as [|b bs IH]; intros acc E Hne.
  { simpl. by rewrite app_nil_r. }
  cbn [TunBridge.writes concat fmap list_fmap] in *. rewrite <- app_assoc in E.
  rewrite (tunWrite_waiting rec _ _ _ (concat bs ++ rest)); [|done|done|done|by intros [_ ?]%app_nil].
  rewrite IH; [|by rewrite <- !app_assoc|done]. by rewrite app_assoc.
Qed.

(** What the bridge does to the first record does not depend on how the stream
    is cut: [handleTLSLocked] is called once, with the record, when it is
    complete; the writes before it only wait. *)
Lemma writes_record rec tail bs c : inspects → tlsRecord rec → concat bs = rec ++ tail →
  ∃ bs1 b bs2 tail1, bs = bs1 ++ b :: bs2 ∧ tail1 ++ concat bs2 = tail ∧
    (zlen (concat bs1) < zlen rec ∧ concat bs1 ++ b = rec ++ tail1) ∧
    writes bs1 (WrapTCPConn c) = ((λ b, Ok (zlen b)) <$> bs1, mkTun c false false false (concat bs1)) ∧
    tunWrite b (mkTun c false false false (concat bs1)) =
      (tryHandlePendingLocked;; mret (zlen b)) (mkTun c false false false (rec ++ tail1)) ∧
    tryHandlePendingLocked (mkTun c false false false (rec ++ tail1)) =
      (err ← attemptS (handleTLSLocked rec);
       if isErr err then modifyS (setClosed true);; mret true
       else
         modifyS setHandled;; modifyS dropPending;;
         (if bool_decide (tail1 = []) then mret tt
          else err ← attemptS (below (write tail1)); if isErr err then modifyS (setClosed true) else mret tt);;
         mret true) (mkTun c false false false (rec ++ tail1)).
Proof.
  intros Hi Hr E. destruct (crossing rec tail bs []) as (bs1 & b & bs2 & tail1 & -> & (rest & Hne & Hrest) & Hc & Ht).
  { destruct Hr as [Hl _]. unfold zlen in Hl. simpl. lia. }
  { done. }
  cbn [app] in *. exists bs1, b, bs2, tail1. split_and!; [done|done| |done|..].
  - rewrite <- Hrest, zlen_app. destruct rest; [done|]. rewrite zlen_cons. pose proof (zlen_nonneg rest). lia.
  - exact (writes_waiting rec c bs1 [] rest Hi Hr Hrest Hne).
  - unfold TunBridge.tunWrite. cbn [tc_closed tc_handled tc_conn tc_shut tc_pending]. by rewrite Hc.
  - destruct Hr as [Hl Hf]. pose proof (zlen_nonneg tail1).
    rewrite tryHandle_inspects; cbn [tc_pending]; [|done|intros [-> _]%app_nil; unfold zlen in Hl; simpl in Hl; lia|rewrite zlen_app; lia].
    by rewrite firstRecord_app by done.
Qed.

(** The server name counts: it is there, and not hidden by ECH. *)
Definition sniVisible (h : helloInfo) : bool := (0 <? sniStart h) && (0 <? sniLen h) && negb (hasECH h).

(** Neither the policy nor the rule for the server name refuses the hello. *)
Definition accepted (rec : bytes) (h : helloInfo) : Prop :=
  parseClientHello rec = Some h ∧ helloErr h = None ∧ pMode (dp_policy plan) ≠ ModeTLSAlert ∧
  IsTrue (pTLS13Only (dp_policy plan)) && negb (hasKeyShare h) = false ∧
  (sniVisible h = true → ∀ sni, slice rec (sniStart h) (sniStart h + sniLen h) = Some sni → sniVerdict t (prtVer h) sni = None).

Definition helloMode (h : helloInfo) : Mode := if sniVisible h then pMode (dp_policy plan) else ModeDirect.

Lemma handleTLS_accepted rec h s : wf_bytes rec → 5 ≤ zlen rec → accepted rec h →
  handleTLSLocked rec s = forwardHello fakeTTL sch sockTTL plan (helloMode h) rec h s ∧
  (sniVisible h = true → 5 < sniStart h ∧ 0 < sniLen h ∧ sniStart h + sniLen h ≤ zlen rec ∧ 35 ≤ zlen rec).
Proof.
  intros Hwf Hl (Hp & He & Hm & H13 & Hv). pose proof (parseClientHello_sound rec Hwf Hl) as (h' & E & Hin & Hlen).
  rewrite Hp in E. injection E as <-. destruct (Hlen He) as [_ H44].
  unfold TunBridge.handleTLSLocked. rewrite Hp. rewrite (bindS _ _ s h s) by done. rewrite He, H13.
  rewrite bool_decide_eq_false_2 by done. unfold helloMode, sniVisible in *.
  destruct (Z.ltb_spec 0 (sniStart h)), (Z.leb_spec (sniStart h) 0); try lia; cbn [andb orb]; [|done].
  destruct (Z.ltb_spec 0 (sniLen h)), (Z.leb_spec (sniLen h) 0); try lia; cbn [andb]; [|done].
  destruct (hasECH h); cbn [negb andb] in *; [done|]. unfold nameInside, tlsRecordHeaderLen in Hin.
  destruct Hin as [[? ?]|(H5 & _ & Hend)]; [lia|]. split; [|intros _; lia].
  destruct (slice rec (sniStart h) (sniStart h + sniLen h)) as [sni|] eqn:Es; [|apply slice_None in Es; lia].
  rewrite (bindS _ _ s sni s) by done. by rewrite (Hv eq_refl sni eq_refl).
Qed.

(** The form in which a hello goes out, [parts] being its pieces when the
    fragmenting mode cuts it. *)
Definition helloOut (rec : bytes) (h : helloInfo) (parts : list bytes) : bytes :=
  let p := dp_policy plan in
  if bool_decide (helloMode h = ModeTLSRF) then
    if pNumRecords p <=? 1 then patchMinor rec (pMinorVer p)
    else concat (makeRecord (take 3 (patchMinor rec (pMinorVer p))) <$> parts)
  else rec.

(** The fragmenting options that keep the whole hello: at most one urgent mode,
    not several records sent one by one without one, and counts for which the
    runtime can make the slices. *)
Definition soundFragments (p : Policy) : Prop :=
  IsTrue (pOOB p) && IsTrue (pOOBEx p) = false ∧ pNumRecords p ≤ 2 ^ 43 ∧ pNumSegments p ≤ 2 ^ 43 ∧
  (pNumRecords p ≤ 1 ∨ 0 ≤ pNumSegments p ∨ IsTrue (pOOB p) || IsTrue (pOOBEx p) = true).

Lemma tlsRecord_zlen rec : wf_bytes rec → tlsRecord rec → zlen rec ≤ 5 + 65535.
Proof.
  intros Hwf Hr. destruct (tlsRecord_shape rec Hr) as (a2 & a3 & a4 & l & -> & _ & <-).
  do 3 (apply Forall_cons in Hwf as [_ Hwf]). apply Forall_cons in Hwf as [H3 Hwf]. apply Forall_cons in Hwf as [H4 _].
  unfold is_byte in *. rewrite be16_add by lia. lia.
Qed.

Lemma forwardHello_delivers rec h s :
  wf_bytes rec → tlsRecord rec → accepted rec h → pMode (dp_policy plan) ≠ ModeTTLD →
  soundFragments (dp_policy plan) → quiet (tc_conn s) →
  ∃ c evs parts, concat parts = drop 5 rec ∧ handleTLSLocked rec s = (Ok tt, withConn s c) ∧ quiet c ∧
    sent c = sent (tc_conn s) ++ evs ∧ delivers (helloOut rec h parts) evs.
Proof.
  intros Hwf Hr Ha Httl (Hx & Hnr & Hns & Hseg) Hq. pose proof (tlsRecord_zlen rec Hwf Hr) as Hmax. destruct Hr as [Hl _]. destruct (handleTLS_accepted rec h s Hwf Hl Ha) as [-> Hvis].
  assert (∀ parts, concat parts = drop 5 rec → ∃ c evs parts, concat parts = drop 5 rec ∧ below (write rec) s = (Ok tt, withConn s c) ∧ quiet c ∧
    sent c = sent (tc_conn s) ++ evs ∧ delivers rec evs) as Hwrite.
  { intros parts Hparts. destruct (below_emits _ _ _ s (emits_write rec) Hq) as (c & evs & E & Hc & Hs & Hp).
    exists c, evs, parts. split_and!; [done..|]. by apply plain_delivers. }
  specialize (Hwrite [drop 5 rec] ltac:(simpl; by rewrite app_nil_r)).
  unfold helloOut. destruct (decide (helloMode h = ModeTLSRF)) as [Hm|Hm].
  - rewrite Hm, bool_decide_eq_true_2 by done. unfold helloMode in Hm. destruct (sniVisible h) eqn:Ev; [|done].
    destruct (Hvis eq_refl) as (? & ? & ? & ?). cbn [forwardHello]. set (p := dp_policy plan) in *.
    destruct (sendRecords_parts rec (sniStart h) (sniLen h) (pNumRecords p) (pNumSegments p) (pMinorVer p)
      (IsTrue (pOOB p)) (IsTrue (pOOBEx p)) (IsTrue (pWaitForAck p)) (pSendInterval p)) as (parts & Hparts & Hem); [done..|apply allocates_small; lia|done|].
    destruct (below_emits _ _ _ s Hem Hq) as (c & evs & E & Hc & Hs & Hd).
    exists c, evs, parts. by split_and!.
  - rewrite bool_decide_eq_false_2 by done. unfold forwardHello. destruct (helloMode h) eqn:Em; try exact Hwrite; try done.
    unfold helloMode in Em. destruct (sniVisible h); done.
Qed.

(** What happens when the first record is handled and the tail goes through. *)
Lemma tryHandle_passing rec tail1 out c c1 s1 (b : Z) :
  tryHandlePendingLocked (mkTun c false false false (rec ++ tail1)) =
    (err ← attemptS (handleTLSLocked rec);
     if isErr err then modifyS (setClosed true);; mret true
     else
       modifyS setHandled;; modifyS dropPending;;
       (if bool_decide (tail1 = []) then mret tt
        else err ← attemptS (below (write tail1)); if isErr err then modifyS (setClosed true) else mret tt);;
       mret true) (mkTun c false false false (rec ++ tail1)) →
  handleTLSLocked rec (mkTun c false false false (rec ++ tail1)) = (Ok tt, s1) →
  s1 = mkTun c1 false false false (rec ++ tail1) → quiet c1 → inband (sent c1) = out →
  ∃ s2, (tryHandlePendingLocked;; mret b) (mkTun c false false false (rec ++ tail1)) = (Ok b, s2) ∧ passing (out ++ tail1) s2.
Proof.
  intros Htry Hh -> Hq Hout.
  enough (∃ s2, tryHandlePendingLocked (mkTun c false false false (rec ++ tail1)) = (Ok true, s2) ∧ passing (out ++ tail1) s2)
    as (s2 & E & Hp) by (exists s2; by rewrite (bindS _ _ _ _ _ E)).
  rewrite Htry. set (s0 := mkTun c false false false (rec ++ tail1)) in *. set (s1 := mkTun c1 false false false (rec ++ tail1)) in *.
  rewrite (bindS _ _ s0 (Ok tt) s1) by (unfold attemptS; by rewrite Hh). cbn [isErr].
  rewrite (bindS _ _ s1 tt (setHandled s1)) by done. rewrite (bindS _ _ _ tt (dropPending (setHandled s1))) by done.
  set (s2 := dropPending (setHandled s1)).
  case_bool_decide as Hn.
  - rewrite (bindS _ _ s2 tt s2) by done. exists s2. split; [done|]. rewrite Hn, app_nil_r. by split_and!.
  - destruct (below_write tail1 out s2) as (c2 & E & Hq2 & Hb2); [done|done|].
    assert (attemptS (below (write tail1)) s2 = (Ok (Ok tt), withConn s2 c2)) as Et by (unfold attemptS; by rewrite E).
    rewrite (bindS _ _ s2 tt (withConn s2 c2)) by (by rewrite (bindS _ _ _ _ _ Et)).
    exists (withConn s2 c2). split; [done|]. by split_and!.
Qed.

(** C5: under a plan that inspects (neither blocked nor of mode raw) and does not
    use the TTL mode, when the bytes an application writes begin with a TLS
    record that is a ClientHello which neither the policy nor the rule for its
    server name refuses, and no call of the connection fails: however the bytes
    are cut into writes, the bridge accepts all of them, and the destination
    receives the record in the form the policy asks for (for the fragmenting mode
    as [sendRecords] cuts it, under options that keep the hello,
    [soundFragments]; otherwise untouched) followed by every later byte, in order,
    with nothing kept back. *)
Theorem bridge_delivers rec tail bs h c :
  inspects → wf_bytes rec → tlsRecord rec → accepted rec h → pMode (dp_policy plan) ≠ ModeTTLD →
  soundFragments (dp_policy plan) → quiet c → sent c = [] → concat bs = rec ++ tail →
  ∃ s parts, writes bs (WrapTCPConn c) = ((λ b, Ok (zlen b)) <$> bs, s) ∧ concat parts = drop 5 rec ∧
    passing (helloOut rec h parts ++ tail) s.
Proof.
  intros Hi Hwf Hr Ha Httl Hfrag Hq Hs0 E. pose proof Hr as [Hl _].
  destruct (writes_record rec tail bs c Hi Hr E) as (bs1 & b & bs2 & tail1 & -> & <- & Hcross & E1 & Ew & Htry).
  destruct (forwardHello_delivers rec h (mkTun c false false false (rec ++ tail1)) Hwf Hr Ha Httl Hfrag Hq)
    as (c1 & evs & parts & Hparts & Eh & Hq1 & Hs1 & Hd).
  cbn [tc_conn] in Hs1. rewrite Hs0 in Hs1. cbn [app] in Hs1.
  destruct (tryHandle_passing rec tail1 (helloOut rec h parts) c c1 _ (zlen b) Htry Eh eq_refl Hq1) as (s2 & E2 & Hp2).
  { rewrite Hs1. exact Hd. }
  destruct (writes_passing bs2 _ _ Hp2) as (s3 & E3 & Hp3).
  exists s3, parts. rewrite <- app_assoc in Hp3. split_and!; [|done|done].
  rewrite fmap_app. cbn [fmap list_fmap]. eapply writes_app; [exact E1|].
  cbn [TunBridge.writes]. by rewrite Ew, E2, E3.
Qed.

(** A connection that is closed stays as it is. *)
Lemma writes_closed bs s : tc_closed s = true → writes bs s = ((λ _, Err errEOF) <$> bs, s).
Proof.
  intros Hc. induction bs as [|b bs IH]; [done|]. cbn [TunBridge.writes fmap list_fmap].
  unfold TunBridge.tunWrite. by rewrite Hc, IH.
Qed.

(** C27: under a plan that inspects (neither blocked itself nor of mode raw),
    when the bytes an application writes begin with a ClientHello that parses,
    shows its server name (no encrypted hello) and is not already refused by the
    policy (mode tls-alert, or no key share where TLS 1.3 is demanded), and the
    rule for the name is [block]: whatever the cut and whatever calls would fail,
    not one byte is written to the destination and its connection is shut; the
    writes up to the one that completes the record are accepted, every later one
    is refused with [io.EOF]. *)
Theorem bridge_blocks_name rec tail bs h sni dp c :
  inspects → wf_bytes rec → tlsRecord rec → parseClientHello rec = Some h → helloErr h = None → sniVisible h = true →
  pMode (dp_policy plan) ≠ ModeTLSAlert → IsTrue (pTLS13Only (dp_policy plan)) && negb (hasKeyShare h) = false →
  slice rec (sniStart h) (sniStart h + sniLen h) = Some sni → Domain.Find (domainMatcher t) sni = Some dp → pMode dp = ModeBlock →
  concat bs = rec ++ tail →
  ∃ bs1 b bs2 s, bs = bs1 ++ b :: bs2 ∧ zlen (concat bs1) < zlen rec ≤ zlen (concat bs1 ++ b) ∧
    writes bs (WrapTCPConn c) = (((λ b, Ok (zlen b)) <$> bs1 ++ [b]) ++ ((λ _, Err errEOF) <$> bs2), s) ∧
    tc_conn s = c ∧ tc_shut s = true ∧ tc_closed s = true.
Proof.
  intros Hi Hwf Hr Hp He Hvis Hm H13 Hsni Hfind Hblock E.
  destruct (writes_record rec tail bs c Hi Hr E) as (bs1 & b & bs2 & tail1 & -> & <- & Hcross & E1 & Ew & Htry).
  set (s0 := mkTun c false false false (rec ++ tail1)) in *.
  assert (handleTLSLocked rec s0 = (Err errEOF, mkTun c true false true (rec ++ tail1))) as Eh.
  { unfold TunBridge.handleTLSLocked. rewrite Hp. rewrite (bindS _ _ s0 h s0) by done. rewrite He, H13.
    rewrite bool_decide_eq_false_2 by done. unfold sniVisible in Hvis. apply andb_prop in Hvis as [Hvis Hech].
    apply andb_prop in Hvis as [Hst Hln]. apply Z.ltb_lt in Hst, Hln. apply negb_true_iff in Hech.
    destruct (Z.leb_spec (sniStart h) 0), (Z.leb_spec (sniLen h) 0); try lia. cbn [orb]. rewrite Hech, Hsni.
    rewrite (bindS _ _ s0 sni s0) by done. unfold sniVerdict. rewrite Hfind, bool_decide_eq_false_2.
    - rewrite merge_mode_head by (by rewrite Hblock). by rewrite Hblock.
    - intros ->. apply slice_length in Hsni. unfold zlen in Hsni. simpl in Hsni. lia. }
  assert (tunWrite b (mkTun c false false false (concat bs1)) = (Ok (zlen b), mkTun c true false true (rec ++ tail1))) as E2.
  { rewrite Ew. rewrite (bindS _ _ s0 true (mkTun c true false true (rec ++ tail1))); [done|]. rewrite Htry.
    rewrite (bindS _ _ s0 (Err errEOF) (mkTun c true false true (rec ++ tail1))) by (unfold attemptS; by rewrite Eh). done. }
  destruct Hcross as [Hlt Hcross]. eexists bs1, b, bs2, (mkTun c true false true (rec ++ tail1)). split_and!; [done|done| | |done..].
  - rewrite Hcross, zlen_app. pose proof (zlen_nonneg tail1). lia.
  - rewrite fmap_app, <- app_assoc. eapply writes_app; [exact E1|]. cbn [TunBridge.writes].
    by rewrite E2, writes_closed by done.
Qed.
End BridgeFacts.

(** A first record that does not parse although its length fits: the whole buffer
    is flushed, and then the bytes after the record are sent a second time. *)
Lemma bridge_repeats_tail t fakeTTL sch sockTTL plan rec tail h e c :
  inspects plan → tlsRecord rec → parseClientHello rec = Some h → helloErr h = Some e → tail ≠ [] → quiet c → sent c = [] →
  ∃ s, writes t fakeTTL sch sockTTL plan [rec ++ tail] (WrapTCPConn c) = ([Ok (zlen (rec ++ tail))], s) ∧
    passing (rec ++ tail ++ tail) s.
Proof.
  intros Hi Hr Hp He Hne Hq Hs.
  destruct (writes_record t fakeTTL sch sockTTL plan rec tail [rec ++ tail] c Hi Hr ltac:(by simpl; rewrite app_nil_r))
    as (bs1 & b & bs2 & tail1 & Ebs & Etl & _ & E1 & Ew & Htry).
  destruct bs1 as [|? [|]]; [|by simplify_eq..]. injection Ebs as <- <-. cbn [concat app] in *. rewrite app_nil_r in Etl. subst tail1.
  set (s0 := mkTun c false false false (rec ++ tail)) in *.
  destruct (below_write (rec ++ tail) [] s0 Hq) as (c1 & E & Hq1 & Hb1); [by cbn [tc_conn s0]; rewrite Hs|].
  set (s1 := mkTun c1 false true false []).
  assert (handleTLSLocked t fakeTTL sch sockTTL plan rec s0 = (Ok tt, s1)) as Eh.
  { unfold handleTLSLocked. rewrite Hp. rewrite (bindS _ _ s0 h s0) by done. rewrite He. unfold flushPendingLocked.
    rewrite bool_decide_eq_false_2 by (cbn [tc_pending s0]; by intros [_ ?]%app_nil).
    by rewrite (bindS _ _ _ _ _ E). }
  destruct (below_write tail (rec ++ tail) (dropPending (setHandled s1))) as (c2 & E2 & Hq2 & Hb2); [done|exact Hb1|].
  exists (withConn (dropPending (setHandled s1)) c2). split.
  - cbn [writes]. change (WrapTCPConn c) with (mkTun c false false false []). rewrite Ew. erewrite bindS; [reflexivity|]. rewrite Htry.
    rewrite (bindS _ _ s0 (Ok tt) s1) by (unfold attemptS; by rewrite Eh). cbn [isErr].
    rewrite (bindS _ _ s1 tt (setHandled s1)) by done. rewrite (bindS _ _ _ tt (dropPending (setHandled s1))) by done.
    rewrite bool_decide_eq_false_2 by done.
    assert (attemptS (below (write tail)) (dropPending (setHandled s1)) = (Ok (Ok tt), withConn (dropPending (setHandled s1)) c2)) as Et
      by (unfold attemptS; by rewrite E2).
    by rewrite (bindS _ _ _ tt (withConn (dropPending (setHandled s1)) c2)) by (by rewrite (bindS _ _ _ _ _ Et)).
  - split_and!; try done. cbn [tc_conn withConn]. rewrite Hb2. by rewrite <- app_assoc.
Qed.

(** ** Witnesses *)

Definition demoPlan (mode : Mode) : DialPlan :=
  mkPlan "mobile" "198.18.0.1" 443 "example.com" true false "93.184.216.34" 443 (demoPolicy mode SniffOverrideUnset) false.

Definition plainTables : Tables := loadTables (demoPolicy ModeTLSRF SniffOverrideOff) [] [] [] [] [].

Definition demoWrites : list bytes :=
  [take 3 (encodeHello demoHello); []; drop 3 (encodeHello demoHello) ++ lit "mo"; lit "re"].

Lemma demoRecord_tls : tlsRecord (encodeHello demoHello).
Proof. split; [vm_compute; discriminate|vm_compute; reflexivity]. Qed.

Lemma demoHello_wf : wf_bytes (encodeHello demoHello).
Proof. by_decide. Qed.

Lemma bridge_delivers_witness :
  ∃ s parts h, writes plainTables noTTL spliceAtOnce 64 (demoPlan ModeTLSRF) demoWrites (WrapTCPConn freshConn)
      = ((λ b, Ok (zlen b)) <$> demoWrites, s) ∧
    concat parts = drop 5 (encodeHello demoHello) ∧
    passing (helloOut (demoPlan ModeTLSRF) (encodeHello demoHello) h parts ++ lit "more") s ∧
    helloMode (demoPlan ModeTLSRF) h = ModeTLSRF.
Proof.
  destruct (parseClientHello (encodeHello demoHello)) as [h|] eqn:Eh; [|vm_compute in Eh; discriminate Eh].
  pose proof Eh as Eh'. vm_compute in Eh'. injection Eh' as Ehh.
  destruct (bridge_delivers plainTables noTTL spliceAtOnce 64 (demoPlan ModeTLSRF) (encodeHello demoHello) (lit "more") demoWrites h freshConn)
    as (s & parts & E & Hp & Hs).
  - split_and!; [reflexivity|discriminate|discriminate].
  - apply demoHello_wf.
  - apply demoRecord_tls.
  - split_and!; [exact Eh|by rewrite <- Ehh|discriminate|by rewrite <- Ehh|].
    intros _ sni Hsni. rewrite <- Ehh in Hsni. vm_compute in Hsni. injection Hsni as <-. vm_compute. reflexivity.
  - discriminate.
  - split_and!; [reflexivity|vm_compute; discriminate..|]. right. left. vm_compute. discriminate.
  - apply freshConn_quiet.
  - reflexivity.
  - vm_compute. reflexivity.
  - exists s, parts, h. split_and!; [exact E|exact Hp|exact Hs|by rewrite <- Ehh].
Defined.

Lemma bridge_blocks_name_witness :
  ∃ bs1 b bs2 s, demoWrites = bs1 ++ b :: bs2 ∧ zlen (concat bs1) < 85 ≤ zlen (concat bs1 ++ b) ∧
    writes demoTables noTTL spliceAtOnce 64 (demoPlan ModeTLSRF) demoWrites (WrapTCPConn freshConn) =
      (((λ b, Ok (zlen b)) <$> bs1 ++ [b]) ++ ((λ _, Err errEOF) <$> bs2), s) ∧
    tc_conn s = freshConn ∧ tc_shut s = true ∧ tc_closed s = true.
Proof.
  destruct (parseClientHello (encodeHello demoHello)) as [h|] eqn:Eh; [|vm_compute in Eh; discriminate Eh].
  pose proof Eh as Eh'. vm_compute in Eh'. injection Eh' as Ehh.
  apply (bridge_blocks_name demoTables noTTL spliceAtOnce 64 (demoPlan ModeTLSRF) (encodeHello demoHello) (lit "more") demoWrites h
    (lit "example.com") (demoPolicy ModeBlock SniffOverrideUnset)).
  - split_and!; [reflexivity|discriminate|discriminate].
  - apply demoHello_wf.
  - apply demoRecord_tls.
  - exact Eh.
  - by rewrite <- Ehh.
  - by rewrite <- Ehh.
  - discriminate.
  - by rewrite <- Ehh.
  - rewrite <- Ehh. vm_compute. reflexivity.
  - vm_compute. reflexivity.
  - reflexivity.
  - vm_compute. reflexivity.
Defined.
