(* ===== verification/NetConn.v ===== *)
(** * Connections whose bytes arrive in segments

    A [net.Conn] as the transports of tun2socks see it: what the peer sends
    arrives in segments cut at arbitrary places, one [Read] returns bytes of one
    segment, and after the last segment every [Read] fails with [ncEnd].  Writes
    are kept in order; [ncFail k] is the error of the [k]-th write, if it fails.

    A layer over a connection is a reader too.  [Reads] is the interface such a
    layer promises: with [delivers r rem] for "the reader [r] still has [rem] to
    give", each call returns the next bytes or, when there are none, the end.
    What follows from it for a whole sequence of calls is proved once. *)

From S2P Require Import Prelude Errors Stream.
Local Open Scope Z_scope.

Record netConn := mkNet {
  ncSegs : list bytes;
  ncEnd : error;
  ncOut : list bytes;
  ncFail : nat → option error;
}.

Definition setSegs (c : netConn) (segs : list bytes) : netConn := mkNet segs (ncEnd c) (ncOut c) (ncFail c).

(** [Read] into a slice of [len] bytes: the bytes read and the error. *)
Definition netRead (len : Z) (c : netConn) : bytes * option error * netConn :=
  if len <=? 0 then ([], None, c) else
  match ncSegs c with
  | [] => ([], Some (ncEnd c), c)
  | seg :: segs =>
      if zlen seg <=? len then (seg, None, setSegs c segs)
      else (take (Z.to_nat len) seg, None, setSegs c (drop (Z.to_nat len) seg :: segs))
  end.

(** [io.ReadFull]: reads until [len] bytes are there.  Every round but the last
    uses up a segment, so their number is fuel enough. *)
Fixpoint readFullLoop (fuel : nat) (len : Z) (acc : bytes) (c : netConn) : bytes * option error * netConn :=
  if len <=? 0 then (acc, None, c) else
  match fuel with
  | O => (acc, Some (if bool_decide (acc = []) then ncEnd c
                     else if isEOF (ncEnd c) then errUnexpectedEOF else ncEnd c), c)
  | S fuel =>
      let '(b, e, c) := netRead len c in
      match e with
      | Some e => (acc, Some (if bool_decide (acc = []) then e
                              else if isEOF e then errUnexpectedEOF else e), c)
      | None => readFullLoop fuel (len - zlen b) (acc ++ b) c
      end
  end.

Definition netReadFull (len : Z) (c : netConn) : bytes * option error * netConn :=
  readFullLoop (length (ncSegs c)) len [] c.

(** [Write]: the error; the connection takes all bytes or none. *)
Definition netWrite (b : bytes) (c : netConn) : option error * netConn :=
  match ncFail c (length (ncOut c)) with
  | Some e => (Some e, c)
  | None => (None, mkNet (ncSegs c) (ncEnd c) (ncOut c ++ [b]) (ncFail c))
  end.

(** A connection that will deliver [data], and on which writes succeed. *)
Definition segsOK (segs : list bytes) : Prop := Forall (λ s, s ≠ []) segs.

Definition willRead (c : netConn) (data : bytes) : Prop :=
  segsOK (ncSegs c) ∧ concat (ncSegs c) = data ∧ ncEnd c = errEOF.

Definition quietWrites (c : netConn) : Prop := ∀ k, ncFail c k = None.

Lemma netWrite_quiet b c : quietWrites c →
  netWrite b c = (None, mkNet (ncSegs c) (ncEnd c) (ncOut c ++ [b]) (ncFail c)).
Proof. intros Hq. unfold netWrite. by rewrite Hq. Qed.

Lemma zlen_pos {A} (l : list A) : l ≠ [] → 1 ≤ zlen l.
Proof. destruct l; [done|]. rewrite zlen_cons. pose proof (zlen_nonneg l). lia. Qed.

Lemma zlen_take_drop {A} (l : list A) n : 0 ≤ n ≤ zlen l →
  zlen (take (Z.to_nat n) l) = n ∧ zlen (drop (Z.to_nat n) l) = zlen l - n.
Proof. intros Hn. unfold zlen in *. rewrite length_take, length_drop. lia. Qed.

(** One [Read] gives a non-empty piece of what is to come, and takes nothing
    else. *)
Lemma netRead_some len c data : 1 ≤ len → willRead c data → data ≠ [] →
  ∃ b rest c', netRead len c = (b, None, c') ∧ b ≠ [] ∧ zlen b ≤ len ∧ data = b ++ rest ∧ willRead c' rest ∧
    ncOut c' = ncOut c ∧ ncFail c' = ncFail c ∧
    (length (ncSegs c') < length (ncSegs c) ∨ zlen b = len)%nat ∧ (length (ncSegs c') ≤ length (ncSegs c))%nat.
Proof.
  intros Hl (Hs & Hc & He) Hne. unfold netRead. destruct (Z.leb_spec len 0); [lia|].
  destruct (ncSegs c) as [|seg segs] eqn:E; [by subst|]. apply Forall_cons in Hs as [Hseg Hs].
  destruct (Z.leb_spec (zlen seg) len).
  - exists seg, (concat segs), (setSegs c segs). cbn. split_and!; try done; try lia.
  - destruct (zlen_take_drop seg len ltac:(pose proof (zlen_nonneg seg); lia)) as [Ht Hd].
    exists (take (Z.to_nat len) seg), (drop (Z.to_nat len) seg ++ concat segs).
    eexists. split; [reflexivity|]. cbn. split_and!; try done; try lia.
    + intros E0. rewrite E0 in Ht. unfold zlen in Ht. cbn in Ht. lia.
    + rewrite app_assoc, take_drop. by rewrite <- Hc.
    + split; [|done]. constructor; [|done]. intros E0. rewrite E0 in Hd. unfold zlen in Hd at 1. cbn in Hd. lia.
Qed.

Lemma netRead_end len c : 1 ≤ len → willRead c [] → netRead len c = ([], Some errEOF, c).
Proof.
  intros Hl (Hs & Hc & He). unfold netRead. destruct (Z.leb_spec len 0); [lia|].
  destruct (ncSegs c) as [|seg segs]; [by rewrite He|]. apply Forall_cons in Hs as [Hseg _].
  cbn in Hc. apply app_nil in Hc as [-> _]. done.
Qed.

Lemma readFullLoop_app fuel c b rest acc : (length (ncSegs c) ≤ fuel)%nat → willRead c (b ++ rest) →
  ∃ c', readFullLoop fuel (zlen b) acc c = (acc ++ b, None, c') ∧ willRead c' rest ∧
    ncOut c' = ncOut c ∧ ncFail c' = ncFail c.
Proof.
  revert c b acc. induction fuel as [|fuel IH]; intros c b acc Hf Hw.
  - destruct (ncSegs c) eqn:E; [|cbn in Hf; lia]. pose proof Hw as (_ & Hc & _). rewrite E in Hc. cbn in Hc.
    symmetry in Hc. apply app_nil in Hc as [-> ->]. exists c. by rewrite app_nil_r.
  - cbn [readFullLoop]. destruct (Z.leb_spec (zlen b) 0) as [H0|H0].
    { destruct b as [|x b]; [|rewrite zlen_cons in H0; pose proof (zlen_nonneg b); lia].
      exists c. by rewrite app_nil_r. }
    destruct (netRead_some (zlen b) c (b ++ rest) ltac:(lia) Hw) as (p & r & c' & -> & Hp & Hl & Hd & Hw' & Ho & Hq & Hs & Hs').
    { destruct b; [done|]. done. }
    assert (∃ b', b = p ++ b' ∧ r = b' ++ rest) as (b' & -> & ->).
    { apply app_eq_inv in Hd as [(k & -> & ->)|(k & -> & ->)]; [by exists k|].
      rewrite zlen_app in Hl. destruct k as [|x k]; [exists []; by rewrite !app_nil_r|].
      rewrite zlen_cons in Hl. pose proof (zlen_nonneg k). lia. }
    rewrite zlen_app in *. replace (zlen p + zlen b' - zlen p) with (zlen b') by lia.
    destruct b' as [|x b'].
    + exists c'. unfold zlen at 1. cbn. rewrite app_nil_r. split_and!; try done.
      destruct fuel; cbn; by rewrite ?app_nil_r.
    + destruct (IH c' (x :: b') (acc ++ p)) as (c'' & -> & Hw'' & Ho' & Hq').
      * destruct Hs as [Hs|Hs]; [lia|]. rewrite zlen_cons in Hs. pose proof (zlen_nonneg b'). lia.
      * done.
      * exists c''. rewrite <- app_assoc. split_and!; congruence.
Qed.

(** [io.ReadFull] gets exactly the next bytes, however they arrive. *)
Lemma netReadFull_app n c b rest : zlen b = n → willRead c (b ++ rest) →
  ∃ c', netReadFull n c = (b, None, c') ∧ willRead c' rest ∧ ncOut c' = ncOut c ∧ ncFail c' = ncFail c.
Proof. intros <- Hw. by apply (readFullLoop_app _ c b rest []). Qed.

(** ** Readers *)

Section Readers.
Context {A R : Type}.

(** A reader: the argument says how much is asked for. *)
Class Reads (argOK : A → Prop) (read : A → R → bytes * option error * R) (delivers : R → bytes → Prop) : Prop :=
  reads_step a r rem :
    argOK a → delivers r rem →
    (rem = [] ∧ ∃ r', read a r = ([], Some errEOF, r')) ∨
    ∃ o rem' r', read a r = (o, None, r') ∧ o ≠ [] ∧ rem = o ++ rem' ∧ delivers r' rem'.

Context (read : A → R → bytes * option error * R).

(** A sequence of reads, up to the first error. *)
Fixpoint drain (args : list A) (r : R) : list bytes * option error * R :=
  match args with
  | [] => ([], None, r)
  | a :: args =>
      match read a r with
      | (o, None, r) => let '(os, e, r) := drain args r in (o :: os, e, r)
      | (_, Some e, r) => ([], Some e, r)
      end
  end.

(** The pieces are non-empty and join to a prefix of the data; the end is seen
    exactly when all of it was received. *)
Definition received (n : nat) (data : bytes) (os : list bytes) (e : option error) : Prop :=
  Forall (λ o, o ≠ []) os ∧
  match e with
  | None => length os = n ∧ concat os `prefix_of` data
  | Some e => e = errEOF ∧ concat os = data
  end.

Context (argOK : A → Prop) (delivers : R → bytes → Prop) `{!Reads argOK read delivers}.

Lemma drain_delivers args r rem : Forall argOK args → delivers r rem →
  ∃ os e r', drain args r = (os, e, r') ∧ received (length args) rem os e.
Proof.
  intros HA. revert r rem. induction HA as [|a args Ha HA IH]; intros r rem Hd; cbn [drain].
  { eexists _, _, _. split; [reflexivity|]. split; [done|]. split; [done|]. apply prefix_nil. }
  destruct (reads_step a r rem Ha Hd) as [(-> & r' & ->)|(o & rem' & r' & -> & Ho & -> & Hd')].
  { eexists _, _, _. split; [reflexivity|]. done. }
  destruct (IH r' rem' Hd') as (os & e & r'' & -> & Hos & He). eexists _, _, _. split; [reflexivity|].
  split; [by constructor|]. destruct e as [e|].
  - destruct He as [-> <-]. done.
  - destruct He as [Hn Hp]. split; [by cbn; rewrite Hn|]. by apply prefix_app.
Qed.
End Readers.

#[global] Instance netRead_Reads : Reads (λ len, 1 ≤ len) netRead willRead.
Proof.
  intros len c data Hl Hw. destruct (decide (data = [])) as [->|Hne].
  - left. split; [done|]. exists c. by apply netRead_end.
  - right. destruct (netRead_some len c data Hl Hw Hne) as (b & rest & c' & E & Hb & _ & -> & Hw' & _). by exists b, rest, c'.
Qed.

(** ** Packets

    A packet connection over addresses of type [A]: the datagrams that will
    arrive, each with its sender, and the ones sent.  A read fills a slice of the
    caller, of which it changes the beginning only, so it takes the old contents
    and returns the new ones. *)

Record packetRead (A : Type) := mkPacketRead {
  prCount : Z;
  prFrom : option A;
  prErr : option error;
  prBuf : bytes;
}.
Arguments mkPacketRead {A}.
Arguments prCount {A}.
Arguments prFrom {A}.
Arguments prErr {A}.
Arguments prBuf {A}.

(** A layer over packets: [None] is a panic. *)
Class PacketConn (A R : Type) := {
  ReadFrom : bytes → R → option (packetRead A) * R;
  WriteTo : bytes → A → R → option (Z * option error) * R;
}.

(** [copy(b, p)] *)
Definition copyInto (b p : bytes) : bytes := take (length b) p ++ drop (length p) b.

Record pktConn (A : Type) := mkPkt {
  pcIn : list (bytes * A);
  pcEnd : error;
  pcOut : list (bytes * A);
  pcFail : nat → option error;
}.
Arguments mkPkt {A}.
Arguments pcIn {A}.
Arguments pcEnd {A}.
Arguments pcOut {A}.
Arguments pcFail {A}.

(** A datagram that is longer than the slice is cut. *)
Definition pktReadFrom {A} (b : bytes) (c : pktConn A) : option (packetRead A) * pktConn A :=
  match pcIn c with
  | [] => (Some (mkPacketRead 0 None (Some (pcEnd c)) b), c)
  | (d, from) :: rest =>
      (Some (mkPacketRead (Z.min (zlen d) (zlen b)) (Some from) None (copyInto b d)),
       mkPkt rest (pcEnd c) (pcOut c) (pcFail c))
  end.

Definition pktWriteTo {A} (p : bytes) (to : A) (c : pktConn A) : option (Z * option error) * pktConn A :=
  match pcFail c (length (pcOut c)) with
  | Some e => (Some (0, Some e), c)
  | None => (Some (zlen p, None), mkPkt (pcIn c) (pcEnd c) (pcOut c ++ [(p, to)]) (pcFail c))
  end.

#[global] Instance pktConn_ops {A} : PacketConn A (pktConn A) := {| ReadFrom := pktReadFrom; WriteTo := pktWriteTo |}.

(** What a layer promises its caller: when [next len r p from r'] says that a
    slice of [len] bytes is enough for the next packet [p], then [ReadFrom]
    returns it, whatever the slice held. *)
Class PacketReads {A R} {PC : PacketConn A R} (next : Z → R → bytes → A → R → Prop) : Prop :=
  packet_step b r p from r' :
    next (zlen b) r p from r' →
    ∃ b', ReadFrom b r = (Some (mkPacketRead (zlen p) (Some from) None b'), r') ∧
      zlen b' = zlen b ∧ take (length p) b' = p.

Definition pktNext {A} (len : Z) (c : pktConn A) (p : bytes) (from : A) (c' : pktConn A) : Prop :=
  zlen p ≤ len ∧ ∃ rest, pcIn c = (p, from) :: rest ∧ c' = mkPkt rest (pcEnd c) (pcOut c) (pcFail c).

Lemma copyInto_fits b p : zlen p ≤ zlen b → copyInto b p = p ++ drop (length p) b.
Proof. intros Hl. unfold copyInto. rewrite take_ge by (unfold zlen in Hl; lia). done. Qed.

Lemma copyInto_length b p : zlen (copyInto b p) = zlen b.
Proof. unfold copyInto, zlen. rewrite length_app, length_take, length_drop. lia. Qed.

Lemma copyInto_take b p : zlen p ≤ zlen b → take (length p) (copyInto b p) = p.
Proof. intros Hl. rewrite copyInto_fits by done. by rewrite take_app_length. Qed.

#[global] Instance pktConn_reads {A} : PacketReads (A := A) pktNext.
Proof.
  intros b c p from c' (Hl & rest & E & ->). exists (copyInto b p). cbn. unfold pktReadFrom. rewrite E.
  rewrite Z.min_l by done. split_and!; [done|apply copyInto_length|by apply copyInto_take].
Qed.
