(* ===== verification/Buffers.v ===== *)
(** * Pooled buffers (tun2socks/buffer, tun2socks/internal/pool)

    The allocator behind the relays: which pool a size is served from, what comes
    back into which pool, and who holds a buffer while others take and return
    theirs.  A buffer is its identity and its capacity; [sync.Pool] may hand out
    any of its buffers or a new one, and may drop buffers at any time. *)

From S2P Require Import Prelude Errors Pattern.
Local Open Scope Z_scope.

Definition MaxSegmentSize : Z := 2 ^ 16 - 1.
Definition RelayBufferSize : Z := 20 * 2 ^ 10.

(** [bits.Len32] *)
Definition Len32 (x : Z) : Z := if x =? 0 then 0 else Z.log2 x + 1.

(** [msb]: the conversions wrap, so that of 0 is 65535. *)
Definition msb (size : Z) : Z := (Len32 (u32 size) - 1) mod 2 ^ 16.

(** The pool [Get] takes from; [None] for nil. *)
Definition poolFor (size : Z) : option Z :=
  if (size <=? 0) || (65536 <? size) then None
  else let b := msb size in Some (if size =? 2 ^ b then b else b + 1).

(** The pool [Put] gives to; [None] for its error. *)
Definition poolOf (capacity : Z) : option Z :=
  let b := msb capacity in
  if (capacity =? 0) || (65536 <? capacity) || negb (capacity =? 2 ^ b) then None else Some b.

Record buffer := mkBuffer { bufID : nat; bufCap : Z }.

#[global] Instance buffer_eq_dec : EqDecision buffer.
Proof. solve_decision. Defined.

(** The pools, the buffers in somebody's hands with their capacities, and the
    number of the next one. *)
Record allocator := mkAllocator { pools : list (list buffer); held : gmap nat Z; nextID : nat }.

Definition New : allocator := mkAllocator (replicate 17 []) ∅ 0.

(** [alloc.buffers[i].Get()]: one of the pool, or a new one. *)
Definition takeFrom (i : Z) (choice : option nat) (a : allocator) : res (buffer * allocator) :=
  p ← checked (idx (pools a) i);
  match choice ≫= (λ k, (λ b, (k, b)) <$> p !! k) with
  | Some (k, b) => Ok (b, mkAllocator (<[Z.to_nat i := delete k p]> (pools a)) (held a) (nextID a))
  | None => Ok (mkBuffer (nextID a) (2 ^ i), mkAllocator (pools a) (held a) (S (nextID a)))
  end.

(** [Get]: the buffer and the length of the slice of it that is returned; slicing
    beyond the capacity panics. *)
Definition Get (size : Z) (choice : option nat) (a : allocator) : res (option (buffer * Z) * allocator) :=
  match poolFor size with
  | None => Ok (None, a)
  | Some i =>
      '(b, a) ← takeFrom i choice a;
      if size <=? bufCap b
      then Ok (Some (b, size), mkAllocator (pools a) (<[bufID b := bufCap b]> (held a)) (nextID a)) else Panic
  end.

(** [Put] *)
Definition Put (b : buffer) (a : allocator) : res allocator :=
  match poolOf (bufCap b) with
  | None => fail "allocator Put() incorrect buffer size"
  | Some i =>
      p ← checked (idx (pools a) i);
      Ok (mkAllocator (<[Z.to_nat i := b :: p]> (pools a)) (delete (bufID b) (held a)) (nextID a))
  end.

(** The collector empties a pool. *)
Definition collect (i : nat) (a : allocator) : allocator := mkAllocator (<[i := []]> (pools a)) (held a) (nextID a).

(** ** Sizes *)

Lemma msb_spec size : 0 < size ≤ 65536 → 0 ≤ msb size < 17 ∧ 2 ^ msb size ≤ size < 2 ^ (msb size + 1).
Proof.
  intros Hs. pose proof (Z.log2_spec size ltac:(lia)) as Hl.
  assert (0 ≤ Z.log2 size < 17) as Hb.
  { split; [apply Z.log2_nonneg|]. apply Z.log2_lt_pow2; [lia|]. change (2 ^ 17) with 131072. lia. }
  assert (msb size = Z.log2 size) as ->; [|rewrite <- Z.add_1_r in Hl; lia].
  unfold msb, Len32, u32. rewrite (Z.mod_small size) by (change (2 ^ 32) with 4294967296; lia).
  destruct (Z.eqb_spec size 0); [lia|]. rewrite Z.add_simpl_r. apply Z.mod_small. change (2 ^ 16) with 65536. lia.
Qed.

(** A size is served from the smallest pool it fits in. *)
Lemma poolFor_fits size : 0 < size ≤ 65536 → ∃ i, poolFor size = Some i ∧ 0 ≤ i < 17 ∧ size ≤ 2 ^ i < 2 * size.
Proof.
  intros Hs. destruct (msb_spec size Hs) as [Hb Hp]. unfold poolFor.
  destruct (Z.leb_spec size 0); [lia|]. destruct (Z.ltb_spec 65536 size); [lia|]. cbn [orb].
  eexists. split; [reflexivity|]. destruct (Z.eqb_spec size (2 ^ msb size)) as [E|Hne]; [lia|].
  rewrite Z.pow_add_r in * by lia. change (2 ^ 1) with 2 in *. split; [|lia].
  destruct (decide (msb size = 16)) as [E|]; [|lia]. rewrite E in *. change (2 ^ 16) with 65536 in *. lia.
Qed.

(** A buffer of a pool goes back where it came from. *)
Lemma poolOf_pow i : 0 ≤ i < 17 → poolOf (2 ^ i) = Some i.
Proof. revert i. apply (range_decide (λ i, poolOf (2 ^ i) = Some i) 17). vm_compute. reflexivity. Qed.

(** ** Who holds what *)

Definition ids (a : allocator) : list nat := bufID <$> mjoin (pools a).

Record allocInv (a : allocator) : Prop := mkAllocInv {
  ai_pools : length (pools a) = 17%nat;
  ai_caps i p b : pools a !! i = Some p → b ∈ p → bufCap b = 2 ^ Z.of_nat i;
  ai_nodup : NoDup (ids a);
  ai_idle x : x ∈ ids a → held a !! x = None ∧ (x < nextID a)%nat;
  ai_held x c : held a !! x = Some c → (x < nextID a)%nat ∧ ∃ i, 0 ≤ i < 17 ∧ c = 2 ^ i;
}.

Lemma New_inv : allocInv New.
Proof.
  split; unfold New, ids; cbn [pools held nextID]; try done.
  - intros i p b Hp. apply lookup_replicate in Hp as [-> _]. set_solver.
  - constructor.
  - cbn. set_solver.
Qed.

(** Replacing one pool leaves the buffers of the others. *)
Lemma join_insert (l : list (list buffer)) i p : l !! i = Some p →
  ∃ rest, mjoin l ≡ₚ p ++ rest ∧ ∀ q, mjoin (<[i := q]> l) ≡ₚ q ++ rest.
Proof.
  intros Hp. exists (mjoin (take i l) ++ mjoin (drop (S i) l)). split.
  - rewrite <- (take_drop_middle l i p Hp) at 1. rewrite join_app. cbn. rewrite !app_assoc. apply Permutation_app; [apply Permutation_app_comm|done].
  - intros q. rewrite insert_take_drop by (by eapply lookup_lt_Some). rewrite join_app. cbn.
    rewrite !app_assoc. apply Permutation_app; [apply Permutation_app_comm|done].
Qed.

(** A pool that is replaced by another with some of the same buffers, or one more
    that nobody else has. *)
Lemma replace_pool a i p q h n : allocInv a → pools a !! i = Some p →
  (∀ b, b ∈ q → bufCap b = 2 ^ Z.of_nat i) → NoDup (bufID <$> q) →
  (∀ b, b ∈ q → b ∈ p ∨ bufID b ∉ ids a) →
  (∀ b, b ∈ q → h !! bufID b = None ∧ (bufID b < n)%nat) →
  (∀ x, x ∈ ids a → x ∉ bufID <$> p → h !! x = None ∧ (x < n)%nat) →
  (∀ x c, h !! x = Some c → (x < n)%nat ∧ ∃ i, 0 ≤ i < 17 ∧ c = 2 ^ i) →
  allocInv (mkAllocator (<[i := q]> (pools a)) h n).
Proof.
  intros [H1 H2 H3 H4 H5] Hp Hcap Hnd Hsub Hq Hrest Hh.
  destruct (join_insert (pools a) i p Hp) as (rest & Ep & Eq). unfold ids in *. rewrite Ep, fmap_app in H3.
  apply NoDup_app in H3 as (Hn1 & Hn2 & Hn3).
  split; cbn [pools held nextID]; unfold ids; cbn [pools].
  - by rewrite length_insert.
  - intros j p' b Hj Hb. destruct (decide (i = j)) as [<-|Hne].
    + rewrite list_lookup_insert_eq in Hj by (by eapply lookup_lt_Some). injection Hj as <-. auto.
    + rewrite list_lookup_insert_ne in Hj by done. eauto.
  - rewrite Eq, fmap_app. apply NoDup_app. split_and!; [done| |done].
    intros x (b & -> & Hb)%list_elem_of_fmap Hx. destruct (Hsub b Hb) as [Hbp|Hbn].
    + apply (Hn2 (bufID b)); [|done]. apply list_elem_of_fmap. by exists b.
    + apply Hbn. rewrite Ep, fmap_app. set_solver.
  - intros x. rewrite Eq, fmap_app, elem_of_app. intros [(b & -> & Hb)%list_elem_of_fmap|Hx]; [auto|].
    apply Hrest; [rewrite Ep, fmap_app; set_solver|]. intros Hxp. by apply (Hn2 x).
  - done.
Qed.

Lemma pool_exists a i : allocInv a → 0 ≤ i < 17 → ∃ p, idx (pools a) i = Some p ∧ pools a !! Z.to_nat i = Some p.
Proof.
  intros Ha Hi. destruct (lookup_lt_is_Some_2 (pools a) (Z.to_nat i)) as [p Hp]; [rewrite (ai_pools a Ha); lia|].
  exists p. split; [|done]. unfold idx. destruct (Z.leb_spec 0 i); [done|lia].
Qed.

Lemma pool_ids a i p : allocInv a → pools a !! i = Some p → NoDup (bufID <$> p) ∧ ∀ b, b ∈ p → bufID b ∈ ids a.
Proof.
  intros Ha Hp. destruct (join_insert (pools a) i p Hp) as (rest & Ej & _). pose proof (ai_nodup a Ha) as Hn.
  unfold ids in *. rewrite Ej, fmap_app in Hn. split; [by apply NoDup_app in Hn as [? _]|].
  intros b Hb. rewrite Ej, fmap_app, elem_of_app. left. apply list_elem_of_fmap. by exists b.
Qed.

(** [Get] of a size that a pool serves returns a buffer that nobody holds, at
    least as large, and less than twice as large. *)
Lemma Get_spec size choice a : allocInv a → 0 < size ≤ 65536 → ∃ b a',
  Get size choice a = Ok (Some (b, size), a') ∧ size ≤ bufCap b < 2 * size ∧ held a !! bufID b = None ∧
  held a' = <[bufID b := bufCap b]> (held a) ∧ allocInv a'.
Proof.
  intros Ha Hs. destruct (poolFor_fits size Hs) as (i & Ei & Hi & Hfit). pose proof Ha as [H1 H2 H3 H4 H5].
  destruct (pool_exists a i Ha Hi) as (p & Ep & Hp). unfold Get, takeFrom. rewrite Ei, Ep. cbn [checked mbind res_bind].
  assert (∀ b, b ∈ p → bufCap b = 2 ^ i) as Hcap by (intros b Hb; by rewrite (H2 _ _ _ Hp Hb), Z2Nat.id by lia).
  destruct (pool_ids a _ p Ha Hp) as [Hnd Hids].
  destruct (choice ≫= _) as [[k b]|] eqn:Ec; cbn [mbind res_bind].
  - apply bind_Some in Ec as (k' & -> & Ec). apply fmap_Some in Ec as (b' & Hb & [= -> ->]).
    assert (b' ∈ p) as Hin by (by eapply list_elem_of_lookup_2).
    pose proof (Hids b' Hin) as Hid.
    rewrite (Hcap b' Hin) in *. destruct (Z.leb_spec size (2 ^ i)); [|lia].
    eexists _, _. split; [reflexivity|]. cbn [held pools nextID]. rewrite (Hcap b' Hin).
    split_and!; [lia..|by apply H4|done|].
    pose proof (delete_Permutation p k' b' Hb) as Ed. rewrite Ed in Hnd. cbn in Hnd. apply NoDup_cons in Hnd as [Hni Hnd].
    assert (∀ b, b ∈ delete k' p → b ∈ p) as Hsub by (intros b Hb'; rewrite Ed; by right).
    assert (∀ b, b ∈ delete k' p → bufID b ≠ bufID b') as Hother.
    { intros b Hb' E. apply Hni. rewrite <- E. apply list_elem_of_fmap. by exists b. }
    apply (replace_pool a _ p); [done|done| |done| | | |].
    + intros b Hb'. rewrite Z2Nat.id by lia. auto.
    + auto.
    + intros b Hb'. rewrite lookup_insert_ne by (apply not_eq_sym; auto). auto.
    + intros x Hx Hn. rewrite lookup_insert_ne by (intros <-; apply Hn; set_solver). auto.
    + intros x c. rewrite lookup_insert_Some. intros [[<- <-]|[? Hx]]; [|eauto]. split; [by apply H4|by exists i].
  - cbn [bufCap bufID pools held nextID]. destruct (Z.leb_spec size (2 ^ i)); [|lia]. eexists _, _. split; [reflexivity|]. cbn.
    assert (held a !! nextID a = None) as Hn.
    { destruct (held a !! nextID a) eqn:E; [|done]. apply H5 in E as [? _]. lia. }
    split_and!; [lia..|done|done|]. split; cbn [pools held nextID]; unfold ids in *; cbn [pools].
    + done.
    + done.
    + done.
    + intros x Hx. apply H4 in Hx as [? ?]. rewrite lookup_insert_ne by lia. split; [done|lia].
    + intros x c. rewrite lookup_insert_Some. intros [[<- <-]|[? Hx]]; [split; [lia|by exists i]|].
      apply H5 in Hx as [? ?]. split; [lia|done].
Qed.

Lemma Put_spec b a : allocInv a → held a !! bufID b = Some (bufCap b) →
  ∃ a', Put b a = Ok a' ∧ held a' = delete (bufID b) (held a) ∧ allocInv a'.
Proof.
  intros Ha Hb. pose proof Ha as [H1 H2 H3 H4 H5]. destruct (H5 _ _ Hb) as (Hlt & i & Hi & Ec).
  destruct (pool_exists a i Ha Hi) as (p & Ep & Hp). unfold Put. rewrite Ec, poolOf_pow, Ep by done. cbn [checked mbind res_bind].
  eexists. split; [reflexivity|]. split; [done|].
  assert (bufID b ∉ ids a) as Hno by (intros Hin; apply H4 in Hin as [? _]; congruence).
  destruct (pool_ids a _ p Ha Hp) as [Hnd Hids].
  apply (replace_pool a _ p); [done|done| | | | | |].
  - intros b' [->|Hb']%elem_of_cons; [by rewrite Z2Nat.id by lia|eauto].
  - cbn. apply NoDup_cons. split; [|done]. intros (b' & E & Hb')%list_elem_of_fmap. apply Hno. rewrite E. auto.
  - intros b' [->|Hb']%elem_of_cons; auto.
  - intros b' [->|Hb']%elem_of_cons; [by rewrite lookup_delete_eq|]. apply Hids, H4 in Hb' as [Hh ?].
    rewrite lookup_delete_None. auto.
  - intros x Hx _. apply H4 in Hx as [Hh ?]. rewrite lookup_delete_None. auto.
  - intros x c. rewrite lookup_delete_Some. intros [_ Hx]. eauto.
Qed.

Lemma collect_inv i a : allocInv a → allocInv (collect i a).
Proof.
  intros Ha. pose proof Ha as [H1 H2 H3 H4 H5]. unfold collect.
  destruct (pools a !! i) as [p|] eqn:Hp.
  - apply (replace_pool a i p); try done; try (intros b Hb; by apply elem_of_nil in Hb); [constructor|auto].
  - rewrite list_insert_ge by (by apply lookup_ge_None). by destruct a.
Qed.

(** ** Any use of the allocator *)

Inductive allocOp := OpGet (size : Z) (choice : option nat) | OpPut (b : buffer) | OpCollect (i : nat).

Definition runOp (op : allocOp) (a : allocator) : res allocator :=
  match op with
  | OpGet size choice => '(_, a) ← Get size choice a; Ok a
  | OpPut b => Put b a
  | OpCollect i => Ok (collect i a)
  end.

(** Users give back what they hold, as they got it. *)
Definition allowed (op : allocOp) (a : allocator) : Prop :=
  match op with OpPut b => held a !! bufID b = Some (bufCap b) | _ => True end.

Inductive allocRun : allocator → Prop :=
| run_new : allocRun New
| run_op op a a' : allocRun a → allowed op a → runOp op a = Ok a' → allocRun a'.

Lemma allocRun_inv a : allocRun a → allocInv a.
Proof.
  induction 1 as [|op a a' _ Ha Hop E]; [apply New_inv|]. destruct op as [size choice|b|i]; cbn in E.
  - destruct (decide (0 < size ≤ 65536)) as [Hs|Hs].
    + destruct (Get_spec size choice a Ha Hs) as (b & a1 & E1 & _ & _ & _ & Ha1). rewrite E1 in E. by injection E as <-.
    + unfold Get, poolFor in E. assert ((size <=? 0) || (65536 <? size) = true) as Eg by lia. rewrite Eg in E. by injection E as <-.
  - destruct (Put_spec b a Ha Hop) as (a1 & E1 & _ & Ha1). rewrite E1 in E. by injection E as <-.
  - injection E as <-. by apply collect_inv.
Qed.

(** C36: a pooled buffer has one holder.  However users take buffers, give them back
    and the collector empties pools, taking a buffer of 1 to 65536 bytes never
    panics and gives one of at least that size and less than twice it, which
    nobody else holds; and a buffer that is held is always accepted back. *)
Theorem buffers_exclusive a : allocRun a →
  (∀ size choice, 0 < size ≤ 65536 → ∃ b a', Get size choice a = Ok (Some (b, size), a') ∧
     size ≤ bufCap b < 2 * size ∧ held a !! bufID b = None ∧ held a' = <[bufID b := bufCap b]> (held a)) ∧
  (∀ b, held a !! bufID b = Some (bufCap b) → ∃ a', Put b a = Ok a' ∧ held a' = delete (bufID b) (held a)).
Proof.
  intros Ha%allocRun_inv. split.
  - intros size choice Hs. destruct (Get_spec size choice a Ha Hs) as (b & a' & H1 & H2 & H3 & H4 & _). eauto 10.
  - intros b Hb. destruct (Put_spec b a Ha Hb) as (a' & H1 & H2 & _). eauto.
Qed.

(** Two relay buffers: the second is the first given back, cut to another size. *)
Definition demoOp (op : allocOp) (a : allocator) : allocator := match runOp op a with Ok a => a | _ => a end.
Definition demo1 : allocator := demoOp (OpGet RelayBufferSize None) New.
Definition demo2 : allocator := demoOp (OpPut (mkBuffer 0 32768)) demo1.

Lemma buffers_exclusive_witness : held demo1 = {[0%nat := 32768]} ∧
  ∃ a3, Get 17000 (Some 0%nat) demo2 = Ok (Some (mkBuffer 0 32768, 17000), a3) ∧ held a3 = {[0%nat := 32768]}.
Proof.
  split; [vm_compute; reflexivity|]. destruct (buffers_exclusive demo2) as [H _].
  - apply (run_op (OpPut (mkBuffer 0 32768)) demo1); [|vm_compute; reflexivity|vm_compute; reflexivity].
    apply (run_op (OpGet RelayBufferSize None) New); [apply run_new|exact I|vm_compute; reflexivity].
  - destruct (H 17000 (Some 0%nat)) as (b & a3 & E & _ & _ & Eh); [lia|]. exists a3. revert Eh. rewrite E.
    assert (b = mkBuffer 0 32768) as -> by (vm_compute in E; by injection E).
    split; [done|]. rewrite Eh. vm_compute. reflexivity.
Defined.

Example allocator_bounds :
  poolFor 0 = None ∧ poolFor 65536 = Some 16 ∧ poolFor 65537 = None ∧ poolFor 1 = Some 0 ∧ poolFor 3 = Some 2 ∧
  msb 0 = 65535 ∧ poolOf 0 = None ∧ poolOf 48 = None ∧ poolOf 65536 = Some 16 ∧ poolFor MaxSegmentSize = Some 16.
Proof. vm_compute. split_and!; reflexivity. Qed.
