(* ===== verification/TunLog.v ===== *)
(** * The log of tun2socks (tun2socks/log)

    Levels and the choice of a logger for one, the global logger, and the sink
    through which the network stack logs.  The loggers themselves are zap's: here
    a logger is what zap documents of it, the levels it lets through. *)

From S2P Require Import Prelude Errors.
Local Open Scope Z_scope.

(** ** Levels (level.go) *)

Definition DebugLevel : Z := -1.
Definition InfoLevel : Z := 0.
Definition WarnLevel : Z := 1.
Definition ErrorLevel : Z := 2.
Definition DPanicLevel : Z := 3.
Definition PanicLevel : Z := 4.
Definition FatalLevel : Z := 5.
Definition InvalidLevel : Z := 6.
Definition SilentLevel : Z := InvalidLevel + 1.

Section Log.
(** [zapcore.ParseLevel]: a level it returns is one of zap's. *)
Context (zapParseLevel : gostring → res Z).

Definition ParseLevel (text : gostring) : res Z :=
  if bool_decide (text = lit "silent") || bool_decide (text = lit "SILENT") then Ok SilentLevel else zapParseLevel text.

(** ** Loggers (log.go) *)

Inductive zapLogger := Nop | Development | Production (lvl : Z).

(** The levels a logger lets through. *)
Definition enabled (l : zapLogger) (lvl : Z) : bool :=
  match l with Nop => false | Development => DebugLevel <=? lvl | Production min => min <=? lvl end.

Definition NewLeveled (l : Z) : res zapLogger :=
  if l =? SilentLevel then Ok Nop
  else if l =? DebugLevel then Ok Development
  else if (InfoLevel <=? l) && (l <=? FatalLevel) then Ok (Production l)
  else Err (errorString ("invalid level: Level(" ++ itoa l ++ ")")).

(** [_globalS] and the logger of the emitter, which are set together. *)
Record logState := mkLogState { lsGlobal : zapLogger; lsEmitter : zapLogger }.

Definition SetLogger (l : zapLogger) : logState := mkLogState l l.

(** The package starts with zap's production logger. *)
Definition initLog : logState := SetLogger (Production InfoLevel).

(** [logf]; [Fatalf] ends the process whether the line is written or not. *)
Definition logf (s : logState) (lvl : Z) (line : gostring) : list (Z * gostring) :=
  if enabled (lsGlobal s) lvl then [(lvl, line)] else [].

Definition Debugf (s : logState) := logf s DebugLevel.
Definition Infof (s : logState) := logf s InfoLevel.
Definition Warnf (s : logState) := logf s WarnLevel.
Definition Errorf (s : logState) := logf s ErrorLevel.
Definition Fatalf (s : logState) := logf s FatalLevel.

(** ** The sink of the network stack (emitter.go) *)

(** gVisor's levels: warnings are 0, then information and debugging. *)
Inductive glogLevel := glogWarning | glogInfo | glogDebug.
Definition glogValue (l : glogLevel) : Z := match l with glogWarning => 0 | glogInfo => 1 | glogDebug => 2 end.

Definition emitLogf (s : logState) (level : Z) (text : gostring) : list (Z * gostring) :=
  if enabled (lsEmitter s) (1 - level) then [(1 - level, "[STACK] " ++ text)] else [].

(** [Emit]; [caller] is the file and line the message comes from. *)
Definition Emit (s : logState) (caller : option (gostring * Z)) (level : Z) (text : gostring) : list (Z * gostring) :=
  match caller with
  | Some (file, line) =>
      if (line =? 457) && has_suffix file "gonet/gonet.go" then [] else emitLogf s level text
  | None => emitLogf s level text
  end.

(** ** The level of the configuration is in force *)

(** What the engine does with the text of a level ([general] in engine.go):
    [Must] panics on an error. *)
Definition setLevel (text : gostring) : res logState :=
  lvl ← ParseLevel text;
  match NewLeveled lvl with Ok l => Ok (SetLogger l) | _ => Panic end.

(** A level zap can parse never makes [Must] panic. *)
Theorem parsed_level_accepted text :
  (∀ t lvl, zapParseLevel t = Ok lvl → DebugLevel ≤ lvl ≤ FatalLevel) → (∀ t, zapParseLevel t ≠ Panic) →
  setLevel text ≠ Panic.
Proof.
  intros Hz Hp. unfold setLevel, ParseLevel.
  destruct (bool_decide (text = lit "silent") || bool_decide (text = lit "SILENT")); [done|].
  destruct (zapParseLevel text) as [lvl|e|] eqn:E; [|done|by destruct (Hp text)]. cbn. unfold NewLeveled. apply Hz in E.
  unfold DebugLevel, InfoLevel, FatalLevel, SilentLevel, InvalidLevel in *. destruct (Z.eqb_spec lvl (6 + 1)); [done|].
  destruct (Z.eqb_spec lvl (-1)); [done|]. destruct (Z.leb_spec 0 lvl); [|lia]. destruct (Z.leb_spec lvl 5); [done|lia].
Qed.

(** After it, the stack's messages and the program's own obey one threshold: the
    stack's warnings, information and debug messages count as such. *)
Theorem stack_logs_at_its_level text s level msg :
  setLevel text = Ok s →
  Emit s None (glogValue level) msg =
  (let lvl := match level with glogWarning => WarnLevel | glogInfo => InfoLevel | glogDebug => DebugLevel end in
   logf s lvl ("[STACK] " ++ msg)).
Proof.
  unfold setLevel. intros (lvl & _ & E)%bind_Ok. destruct (NewLeveled lvl) as [l|e|]; [|done..]. injection E as <-.
  by destruct level.
Qed.

(** A silent log writes nothing. *)
Lemma silent_writes_nothing s text lvl msg : text = lit "silent" → setLevel text = Ok s →
  logf s lvl msg = [] ∧ ∀ caller level, Emit s caller level msg = [].
Proof.
  intros -> E. injection E as <-. split; [done|]. intros [[file line]|] level; [|done]. cbn. by destruct (_ && _).
Qed.
End Log.
