(* ===== verification/Json.v ===== *)
(** * encoding/json: values, their syntax, and decoding into Go values

    What the configuration, the REST interface and the statistics use of the
    standard library's package: the grammar of its scanner, the decoding of
    string literals, the choice of a struct field by its key, and the two entry
    points ([Unmarshal] wants the whole input, a [Decoder] takes the first value
    and leaves the rest).  Errors of the package are one opaque value. *)

From S2P Require Import Prelude Errors Netip Pattern.
Local Open Scope Z_scope.

(** ** Values

    A number is kept as its text: what it means depends on the Go type it is
    decoded into.  Members keep their order and their duplicates. *)
Inductive json :=
| JNull
| JBool (b : bool)
| JNum (text : gostring)
| JStr (s : gostring)
| JArr (elems : list json)
| JObj (members : list (gostring * json)).

Section JsonInd.
Context (P : json → Prop).
Context (Hnull : P JNull) (Hbool : ∀ b, P (JBool b)) (Hnum : ∀ t, P (JNum t)) (Hstr : ∀ s, P (JStr s)).
Context (Harr : ∀ l, Forall P l → P (JArr l)) (Hobj : ∀ ms, Forall (λ m, P m.2) ms → P (JObj ms)).

(** Induction that reaches the values inside arrays and objects. *)
Fixpoint json_nested_ind (v : json) : P v :=
  match v with
  | JNull => Hnull
  | JBool b => Hbool b
  | JNum t => Hnum t
  | JStr s => Hstr s
  | JArr l => Harr l ((fix all l : Forall P l :=
      match l with [] => Forall_nil_2 _ | x :: l => Forall_cons_2 _ _ _ (json_nested_ind x) (all l) end) l)
  | JObj ms => Hobj ms ((fix all ms : Forall (λ m, P m.2) ms :=
      match ms with [] => Forall_nil_2 _ | m :: ms => Forall_cons_2 _ _ _ (json_nested_ind m.2) (all ms) end) ms)
  end.
End JsonInd.

(** ** The scanner *)

Definition isSpace (c : Z) : bool := (c =? 32) || (c =? 9) || (c =? 13) || (c =? 10).

Fixpoint skipSpace (s : bytes) : bytes :=
  match s with
  | c :: s' => if isSpace c then skipSpace s' else s
  | [] => []
  end.

Definition isHex (c : Z) : bool := match hex_value c with Some _ => true | None => false end.

(** The characters that may follow a backslash, [u] apart. *)
Definition simpleEscape (e : Z) : bool := (e =? 34) || existsb (Z.eqb e) (lit "\/bfnrt").

(** A string literal after its opening quote: the text up to the closing quote. *)
Fixpoint scanString (s : bytes) : option (bytes * bytes) :=
  match s with
  | [] => None
  | c :: s1 =>
      if c =? 34 then Some ([], s1)
      else if c =? 92 then
        match s1 with
        | [] => None
        | e :: s2 =>
            if simpleEscape e then prod_map (app [c; e]) id <$> scanString s2
            else if e =? 117 then
              match s2 with
              | h1 :: h2 :: h3 :: h4 :: s3 =>
                  if isHex h1 && isHex h2 && isHex h3 && isHex h4
                  then prod_map (app [c; e; h1; h2; h3; h4]) id <$> scanString s3 else None
              | _ => None
              end
            else None
        end
      else if c <? 32 then None
      else prod_map (cons c) id <$> scanString s1
  end.

Fixpoint scanDigits (s : bytes) : bytes * bytes :=
  match s with
  | c :: s' => if is_digit c then prod_map (cons c) id (scanDigits s') else ([], s)
  | [] => ([], [])
  end.

(** At least one digit. *)
Definition scanDigits1 (s : bytes) : option (bytes * bytes) :=
  let '(ds, s') := scanDigits s in if bool_decide (ds = []) then None else Some (ds, s').

(** The three parts of a number; a part that has begun must be complete. *)
Definition scanInt (s : bytes) : option (bytes * bytes) :=
  match s with
  | c :: s' => if c =? 48 then Some ([48], s') else scanDigits1 s
  | [] => None
  end.

Definition scanFrac (s : bytes) : option (bytes * bytes) :=
  match s with
  | c :: s' => if c =? 46 then prod_map (cons c) id <$> scanDigits1 s' else Some ([], s)
  | [] => Some ([], [])
  end.

Definition scanExp (s : bytes) : option (bytes * bytes) :=
  match s with
  | c :: s' =>
      if (c =? 101) || (c =? 69) then
        match s' with
        | d :: s'' => if (d =? 43) || (d =? 45) then prod_map (app [c; d]) id <$> scanDigits1 s''
                      else prod_map (cons c) id <$> scanDigits1 s'
        | [] => None
        end
      else Some ([], s)
  | [] => Some ([], [])
  end.

Definition scanNumber (s : bytes) : option (bytes * bytes) :=
  let '(sign, s) := match s with c :: s' => if c =? 45 then ([45], s') else ([], s) | [] => ([], s) end in
  '(int, s) ← scanInt s;
  '(frac, s) ← scanFrac s;
  '(exp, s) ← scanExp s;
  Some (sign ++ int ++ frac ++ exp, s).

(** ** String literals ([unquote]) *)

(** Four hexadecimal digits behind a backslash and a [u]. *)
Definition hex4 (s : bytes) : option Z :=
  match s with
  | h1 :: h2 :: h3 :: h4 :: _ =>
      d1 ← hex_value h1; d2 ← hex_value h2; d3 ← hex_value h3; d4 ← hex_value h4;
      Some (((d1 * 16 + d2) * 16 + d3) * 16 + d4)
  | _ => None
  end.

Definition getu4 (s : bytes) : option Z :=
  match s with
  | b :: u :: s' => if (b =? 92) && (u =? 117) then hex4 s' else None
  | _ => None
  end.

(** [utf8.AppendRune] of a code point that is not a surrogate. *)
Definition encodeRune (r : Z) : bytes :=
  if r <? 128 then [r]
  else if r <? 2048 then [192 + r / 64; 128 + r mod 64]
  else if r <? 65536 then [224 + r / 4096; 128 + r / 64 mod 64; 128 + r mod 64]
  else [240 + r / 262144; 128 + r / 4096 mod 64; 128 + r / 64 mod 64; 128 + r mod 64].

Definition replacementChar : bytes := [239; 191; 189].

Definition isSurrogate (r : Z) : bool := (55296 <=? r) && (r <? 57344).

(** [utf16.DecodeRune]: [None] for what is not a pair. *)
Definition decodePair (r1 : Z) (next : option Z) : option Z :=
  r2 ← next;
  if (55296 <=? r1) && (r1 <? 56320) && (56320 <=? r2) && (r2 <? 57344)
  then Some ((r1 - 55296) * 1024 + (r2 - 56320) + 65536) else None.

Definition escaped (e : Z) : Z :=
  if e =? 98 then 8 else if e =? 102 then 12 else if e =? 110 then 10 else if e =? 114 then 13
  else if e =? 116 then 9 else e.

(** The text of a literal the scanner accepted; each round takes at least one
    byte. *)
Fixpoint unquoteLoop (fuel : nat) (s : bytes) : gostring :=
  match fuel, s with
  | S f, c :: s1 =>
      if c =? 92 then
        match getu4 s with
        | Some rr =>
            let rest := drop 6 s in
            if isSurrogate rr then
              match decodePair rr (getu4 rest) with
              | Some dec => encodeRune dec ++ unquoteLoop f (drop 6 rest)
              | None => replacementChar ++ unquoteLoop f rest
              end
            else encodeRune rr ++ unquoteLoop f rest
        | None =>
            match s1 with
            | e :: s2 => escaped e :: unquoteLoop f s2
            | [] => []
            end
        end
      else if c <? 128 then c :: unquoteLoop f s1
      else let w := rune_width s in
           (if (w =? 1)%nat then replacementChar else take w s) ++ unquoteLoop f (drop w s)
  | _, _ => []
  end.

Definition unquote (s : bytes) : gostring := unquoteLoop (length s) s.

(** ** Values from text *)

Definition maxNestingDepth : Z := 10000.

Definition literal (s word : bytes) (v : json) : option (json * bytes) :=
  if has_prefix s word then Some (v, drop (length word) s) else None.

(** A value, the elements of an array and the members of an object; [depth] more
    levels may be opened.  Every call takes at least a byte. *)
Fixpoint scanValue (fuel : nat) (depth : Z) (s : bytes) : option (json * bytes) :=
  match fuel with
  | O => None
  | S f =>
      match skipSpace s with
      | [] => None
      | c :: s1 =>
          if c =? 123 then
            if depth <=? 0 then None else
            match skipSpace s1 with
            | d :: s2 => if d =? 125 then Some (JObj [], s2)
                         else prod_map JObj id <$> scanMembers f (depth - 1) s1
            | [] => None
            end
          else if c =? 91 then
            if depth <=? 0 then None else
            match skipSpace s1 with
            | d :: s2 => if d =? 93 then Some (JArr [], s2)
                         else prod_map JArr id <$> scanElems f (depth - 1) s1
            | [] => None
            end
          else if c =? 34 then prod_map (JStr ∘ unquote) id <$> scanString s1
          else if c =? 116 then literal (c :: s1) "true" (JBool true)
          else if c =? 102 then literal (c :: s1) "false" (JBool false)
          else if c =? 110 then literal (c :: s1) "null" JNull
          else if (c =? 45) || is_digit c then prod_map JNum id <$> scanNumber (c :: s1)
          else None
      end
  end
with scanElems (fuel : nat) (depth : Z) (s : bytes) : option (list json * bytes) :=
  match fuel with
  | O => None
  | S f =>
      '(v, s) ← scanValue f depth s;
      match skipSpace s with
      | c :: s1 => if c =? 44 then prod_map (cons v) id <$> scanElems f depth s1
                   else if c =? 93 then Some ([v], s1) else None
      | [] => None
      end
  end
with scanMembers (fuel : nat) (depth : Z) (s : bytes) : option (list (gostring * json) * bytes) :=
  match fuel with
  | O => None
  | S f =>
      match skipSpace s with
      | c :: s1 =>
          if c =? 34 then
            '(key, s) ← scanString s1;
            match skipSpace s with
            | c2 :: s2 =>
                if c2 =? 58 then
                  '(v, s) ← scanValue f depth s2;
                  match skipSpace s with
                  | c3 :: s3 => if c3 =? 44 then prod_map (cons (unquote key, v)) id <$> scanMembers f depth s3
                                else if c3 =? 125 then Some ([(unquote key, v)], s3) else None
                  | [] => None
                  end
                else None
            | [] => None
            end
          else None
      | [] => None
      end
  end.

(** [Decoder.Decode]: the first value; what follows is not looked at. *)
Definition decodeFirst (s : bytes) : option json := fst <$> scanValue (2 * length s) maxNestingDepth s.

(** [Unmarshal]: one value and nothing else. *)
Definition parseJSON (s : bytes) : option json :=
  '(v, rest) ← scanValue (2 * length s) maxNestingDepth s;
  if bool_decide (skipSpace rest = []) then Some v else None.

(** A JSON text written with apostrophes for its quotes. *)
Definition jtext (s : String.string) : bytes := (λ c, if c =? 39 then 34 else c) <$> lit s.

Example json_examples :
  parseJSON (jtext "{ 'a' : [1, -2.5e3, true], 'A' : '\u00e9\ud83d\ude00\n' } ")
    = Some (JObj [(lit "a", JArr [JNum "1"; JNum "-2.5e3"; JBool true]);
                  (lit "A", JStr [195; 169; 240; 159; 152; 128; 10])])
  ∧ parseJSON "{} x" = None ∧ decodeFirst "{} x" = Some (JObj [])
  ∧ parseJSON "[1,]" = None ∧ parseJSON "01" = None ∧ parseJSON (jtext "{'a':}") = None
  ∧ decodeFirst "nullx" = Some JNull ∧ parseJSON (jtext "'\ud800'") = Some (JStr replacementChar).
Proof. split_and!; vm_compute; reflexivity. Qed.

(** ** The fuel is enough

    A scan that succeeds takes at least a byte, so twice the length of the input
    bounds the nesting of the calls: with more fuel the answer is the same. *)

Lemma skipSpace_length s : (length (skipSpace s) ≤ length s)%nat.
Proof. induction s as [|c s IH]; cbn; [done|]. destruct (isSpace c); cbn in *; lia. Qed.

Lemma scanString_length s raw rest : scanString s = Some (raw, rest) → (length rest < length s)%nat.
Proof.
  remember (length s) as n eqn:Hn. assert (length s ≤ n)%nat as Hle by lia. rewrite Hn. clear Hn.
  revert s raw rest Hle. induction n as [|n IH]; intros [|c s] raw rest Hle; cbn [length scanString] in *; [done|lia|done|].
  assert (∀ (f : bytes → bytes) s', (length s' ≤ n)%nat → prod_map f (@id bytes) <$> scanString s' = Some (raw, rest) →
    (length rest < length s')%nat) as Hrec.
  { intros f s' Hs' E. destruct (scanString s') as [[raw' rest']|] eqn:E'; [|done]. injection E as _ <-. by eapply IH. }
  repeat case_match; try done; intros E; (apply Hrec in E || injection E as _ <-); cbn [length] in *; lia.
Qed.

Lemma scanDigits_length s : (length (scanDigits s).2 ≤ length s)%nat.
Proof. induction s as [|c s IH]; cbn; [done|]. destruct (is_digit c), (scanDigits s); cbn in *; lia. Qed.

Lemma scanDigits1_length s ds rest : scanDigits1 s = Some (ds, rest) → (length rest < length s)%nat.
Proof.
  unfold scanDigits1. destruct s as [|c s]; [done|]. cbn. destruct (is_digit c); [|done].
  pose proof (scanDigits_length s). destruct (scanDigits s). cbn in *. intros [= _ <-]. cbn. lia.
Qed.

Lemma scanNumber_length s t rest : scanNumber s = Some (t, rest) → (length rest < length s)%nat.
Proof.
  unfold scanNumber. intros E.
  assert (∃ sign s', match s with c :: s' => if c =? 45 then ([45], s') else ([], s) | [] => ([], s) end = (sign, s')
    ∧ (length s' ≤ length s)%nat) as (sign & s' & Es & Hs).
  { destruct s as [|c s]; [by exists [], []|]. destruct (c =? 45); [exists [45], s|exists [], (c :: s)]; split; cbn; done || lia. }
  rewrite Es in E. cbn in E. apply bind_Some in E as ([int s1] & E1 & E). apply bind_Some in E as ([frac s2] & E2 & E).
  apply bind_Some in E as ([exp s3] & E3 & E). injection E as _ <-.
  assert (length s1 < length s')%nat.
  { unfold scanInt in E1. destruct s' as [|c s']; [done|]. destruct (c =? 48); [injection E1 as _ <-; cbn; lia|].
    by apply scanDigits1_length in E1. }
  assert (length s2 ≤ length s1)%nat.
  { unfold scanFrac in E2. destruct s1 as [|c s1]; [by injection E2 as _ <-|].
    destruct (c =? 46); [|by injection E2 as _ <-]. apply fmap_Some in E2 as ([? ?] & E2 & [= _ ->]).
    apply scanDigits1_length in E2. cbn. lia. }
  assert (length s3 ≤ length s2)%nat; [|lia].
  unfold scanExp in E3. destruct s2 as [|c s2]; [by injection E3 as _ <-|].
  destruct ((c =? 101) || (c =? 69)); [|by injection E3 as _ <-]. destruct s2 as [|d s2]; [done|].
  destruct ((d =? 43) || (d =? 45)); apply fmap_Some in E3 as ([? ?] & E3 & [= _ ->]); apply scanDigits1_length in E3; cbn in *; lia.
Qed.

Lemma literal_length s word v w rest : word ≠ [] → literal s word v = Some (w, rest) → (length rest < length s)%nat.
Proof.
  unfold literal, has_prefix. intros Hw. case_bool_decide as Hp; [|done]. intros [= _ <-]. rewrite length_drop.
  apply prefix_length in Hp. destruct word; [done|]. cbn in *. lia.
Qed.

(** One round of each scanner. *)
Lemma scanValue_S f d s :
  scanValue (S f) d s =
  match skipSpace s with
  | [] => None
  | c :: s1 =>
      if c =? 123 then
        if d <=? 0 then None else
        match skipSpace s1 with
        | e :: s2 => if e =? 125 then Some (JObj [], s2) else prod_map JObj id <$> scanMembers f (d - 1) s1
        | [] => None
        end
      else if c =? 91 then
        if d <=? 0 then None else
        match skipSpace s1 with
        | e :: s2 => if e =? 93 then Some (JArr [], s2) else prod_map JArr id <$> scanElems f (d - 1) s1
        | [] => None
        end
      else if c =? 34 then prod_map (JStr ∘ unquote) id <$> scanString s1
      else if c =? 116 then literal (c :: s1) "true" (JBool true)
      else if c =? 102 then literal (c :: s1) "false" (JBool false)
      else if c =? 110 then literal (c :: s1) "null" JNull
      else if (c =? 45) || is_digit c then prod_map JNum id <$> scanNumber (c :: s1)
      else None
  end.
Proof. reflexivity. Qed.

Lemma scanElems_S f d s :
  scanElems (S f) d s =
  ('(v, s) ← scanValue f d s;
   match skipSpace s with
   | c :: s1 => if c =? 44 then prod_map (cons v) id <$> scanElems f d s1
                else if c =? 93 then Some ([v], s1) else None
   | [] => None
   end).
Proof. reflexivity. Qed.

Lemma scanMembers_S f d s :
  scanMembers (S f) d s =
  match skipSpace s with
  | c :: s1 =>
      if c =? 34 then
        '(key, s) ← scanString s1;
        match skipSpace s with
        | c2 :: s2 =>
            if c2 =? 58 then
              '(v, s) ← scanValue f d s2;
              match skipSpace s with
              | c3 :: s3 => if c3 =? 44 then prod_map (cons (unquote key, v)) id <$> scanMembers f d s3
                            else if c3 =? 125 then Some ([(unquote key, v)], s3) else None
              | [] => None
              end
            else None
        | [] => None
        end
      else None
  | [] => None
  end.
Proof. reflexivity. Qed.

Lemma scanned_shorter fuel :
  (∀ d s v rest, scanValue fuel d s = Some (v, rest) → (length rest < length s)%nat) ∧
  (∀ d s l rest, scanElems fuel d s = Some (l, rest) → (length rest < length s)%nat) ∧
  (∀ d s ms rest, scanMembers fuel d s = Some (ms, rest) → (length rest < length s)%nat).
Proof.
  induction fuel as [|f (IHv & IHe & IHm)]; [done|]. split_and!; intros d s v rest.
  - rewrite scanValue_S. pose proof (skipSpace_length s) as Hs. destruct (skipSpace s) as [|c s1]; [done|]. cbn [length] in Hs.
    pose proof (skipSpace_length s1) as Hs1.
    repeat case_match; try done; intros E; cbn [length] in *;
      try (apply literal_length in E; [cbn [length] in E; lia|done]);
      try (injection E as _ <-; lia);
      apply fmap_Some in E as ([x r] & E & [= _ ->]);
      (apply IHm in E || apply IHe in E || apply scanString_length in E || apply scanNumber_length in E);
      cbn [length] in *; lia.
  - rewrite scanElems_S. intros E. apply bind_Some in E as ([x s1] & E1 & E). apply IHv in E1.
    pose proof (skipSpace_length s1) as Hs. destruct (skipSpace s1) as [|c s2]; [done|]. cbn [length] in Hs.
    repeat case_match; try done; [apply fmap_Some in E as ([x' r] & E & [= _ ->]); apply IHe in E; lia|].
    injection E as _ <-. lia.
  - rewrite scanMembers_S. pose proof (skipSpace_length s) as Hs. destruct (skipSpace s) as [|c s1]; [done|]. cbn [length] in Hs.
    destruct (c =? 34); [|done]. intros E. apply bind_Some in E as ([key s2] & E1 & E). apply scanString_length in E1.
    pose proof (skipSpace_length s2) as Hs2. destruct (skipSpace s2) as [|c2 s3]; [done|]. cbn [length] in Hs2.
    destruct (c2 =? 58); [|done]. apply bind_Some in E as ([x s4] & E2 & E). apply IHv in E2.
    pose proof (skipSpace_length s4) as Hs4. destruct (skipSpace s4) as [|c3 s5]; [done|]. cbn [length] in Hs4.
    repeat case_match; try done; [apply fmap_Some in E as ([x' r] & E & [= _ ->]); apply IHm in E; lia|].
    injection E as _ <-. lia.
Qed.

Lemma scan_more_fuel fuel :
  (∀ d s, (2 * length s ≤ fuel)%nat → scanValue (S fuel) d s = scanValue fuel d s) ∧
  (∀ d s, (2 * length s + 1 ≤ fuel)%nat → scanElems (S fuel) d s = scanElems fuel d s) ∧
  (∀ d s, (2 * length s + 1 ≤ fuel)%nat → scanMembers (S fuel) d s = scanMembers fuel d s).
Proof.
  induction fuel as [|f (IHv & IHe & IHm)].
  { split_and!; intros d [|c s] Hs; cbn in Hs; try lia. done. }
  split_and!; intros d s Hs.
  - rewrite (scanValue_S (S f)), (scanValue_S f).
    pose proof (skipSpace_length s) as Hsp. destruct (skipSpace s) as [|c s1]; [done|]. cbn [length] in Hsp.
    by rewrite IHe, IHm by lia.
  - rewrite (scanElems_S (S f)), (scanElems_S f), IHv by lia. destruct (scanValue f d s) as [[x s1]|] eqn:E; [cbn [mbind option_bind]|done].
    apply scanned_shorter in E. pose proof (skipSpace_length s1) as Hsp. destruct (skipSpace s1) as [|c s2]; [done|].
    cbn [length] in Hsp. by rewrite IHe by lia.
  - rewrite (scanMembers_S (S f)), (scanMembers_S f). pose proof (skipSpace_length s) as Hsp. destruct (skipSpace s) as [|c s1]; [done|]. cbn [length] in Hsp.
    destruct (c =? 34); [|done]. destruct (scanString s1) as [[key s2]|] eqn:E; [cbn [mbind option_bind]|done]. apply scanString_length in E.
    pose proof (skipSpace_length s2) as Hs2. destruct (skipSpace s2) as [|c2 s3]; [done|]. cbn [length] in Hs2.
    destruct (c2 =? 58); [|done]. rewrite IHv by lia. destruct (scanValue f d s3) as [[x s4]|] eqn:E2; [cbn [mbind option_bind]|done].
    apply scanned_shorter in E2. pose proof (skipSpace_length s4) as Hs4. destruct (skipSpace s4) as [|c3 s5]; [done|].
    cbn [length] in Hs4. by rewrite IHm by lia.
Qed.

(** More fuel than [parseJSON] and [decodeFirst] use does not change the answer. *)
Lemma scan_fuel_enough fuel d s : (2 * length s ≤ fuel)%nat → scanValue fuel d s = scanValue (2 * length s) d s.
Proof.
  intros Hle. replace fuel with ((fuel - 2 * length s) + 2 * length s)%nat by lia.
  induction (fuel - 2 * length s)%nat as [|k IH]; [done|]. rewrite <- IH. apply scan_more_fuel. lia.
Qed.

(** ** Writing values, and reading them back

    A compact writer, the reference for what a text means: quotes, backslashes and
    control characters are escaped, all else is copied. *)

Definition quoteByte (c : Z) : bytes :=
  if (c =? 34) || (c =? 92) then [92; c]
  else if c <? 32 then lit "\u00" ++ [hexDigit (c / 16); hexDigit (c mod 16)]
  else [c].

Definition quoteBody (s : gostring) : bytes := s ≫= quoteByte.
Definition quote (s : gostring) : bytes := 34 :: quoteBody s ++ [34].

Fixpoint encode (v : json) : bytes :=
  match v with
  | JNull => "null"
  | JBool b => if b then "true" else "false"
  | JNum t => t
  | JStr s => quote s
  | JArr l => lit "[" ++ join_with "," (List.map encode l) ++ lit "]"
  | JObj ms => lit "{" ++ join_with "," (List.map (λ m, quote m.1 ++ lit ":" ++ encode m.2) ms) ++ lit "}"
  end.

(** Valid UTF-8: every byte of value 128 or more belongs to a character. *)
Fixpoint validUTF8 (fuel : nat) (s : gostring) : bool :=
  match fuel, s with
  | _, [] => true
  | S f, c :: s' => if c <? 128 then (0 <=? c) && validUTF8 f s'
                    else (1 <? rune_width s)%nat && validUTF8 f (drop (rune_width s) s)
  | O, _ => false
  end.

Definition utf8 (s : gostring) : Prop := validUTF8 (length s) s = true.

Fixpoint wfJson (v : json) : Prop :=
  match v with
  | JNum t => scanNumber t = Some (t, [])
  | JStr s => utf8 s
  | JArr l => foldr and True (List.map wfJson l)
  | JObj ms => foldr and True (List.map (λ m, utf8 m.1 ∧ wfJson m.2) ms)
  | _ => True
  end.

Fixpoint depthOf (v : json) : Z :=
  match v with
  | JArr l => 1 + foldr Z.max 0 (List.map depthOf l)
  | JObj ms => 1 + foldr Z.max 0 (List.map (λ m, depthOf m.2) ms)
  | _ => 0
  end.

(** The widths of the characters beyond ASCII, and their bytes. *)
Lemma rune_width_long s : (1 < rune_width s)%nat →
  ∃ r t, s = r ++ t ∧ length r = rune_width s ∧ Forall (λ c, 128 ≤ c < 256) r ∧
    ∀ t', rune_width (r ++ t') = rune_width s.
Proof.
  unfold rune_width. destruct s as [|b0 [|b1 rest]]; [lia..|].
  destruct (between 194 223 b0 && is_cont b1) eqn:E2.
  - intros _. exists [b0; b1], rest. unfold between, is_cont in E2. bool_to_prop. split_and!; [done|done|repeat constructor; lia|].
    intros t'. cbn. unfold between, is_cont. by repeat (rewrite ?(proj2 (Z.leb_le _ _)) by lia).
  - cbv zeta. set (second := if b0 =? 224 then _ else _). destruct rest as [|b2 rest]; [lia|].
    destruct (between 224 239 b0 && second && is_cont b2) eqn:E3.
    + intros _. exists [b0; b1; b2], rest. split_and!; [done|done| |].
      * bool_to_prop. unfold between, is_cont in *. subst second. repeat case_match; unfold between, is_cont in *; bool_to_prop; repeat constructor; lia.
      * intros t'. cbn. rewrite E2. fold second. by rewrite E3.
    + destruct rest as [|b3 rest]; [lia|]. destruct (between 240 244 b0 && second && is_cont b2 && is_cont b3) eqn:E4; [|lia].
      intros _. exists [b0; b1; b2; b3], rest. split_and!; [done|done| |].
      * bool_to_prop. unfold between, is_cont in *. subst second. repeat case_match; unfold between, is_cont in *; bool_to_prop; repeat constructor; lia.
      * intros t'. cbn. rewrite E2. fold second. by rewrite E3, E4.
Qed.

Lemma quoteByte_plain c : 128 ≤ c → quoteByte c = [c].
Proof.
  intros Hc. unfold quoteByte. destruct (Z.eqb_spec c 34); [lia|]. destruct (Z.eqb_spec c 92); [lia|].
  destruct (Z.ltb_spec c 32); [lia|done].
Qed.

Lemma quoteBody_app s t : quoteBody (s ++ t) = quoteBody s ++ quoteBody t.
Proof. apply bind_app. Qed.

Lemma quoteBody_plain r : Forall (λ c, 128 ≤ c < 256) r → quoteBody r = r.
Proof.
  induction 1 as [|c r Hc _ IH]; [done|]. unfold quoteBody in *. rewrite bind_cons, IH, quoteByte_plain by lia. done.
Qed.

(** One ASCII character, through the writer and back. *)
Lemma quoteByte_ascii c f t : 0 ≤ c < 128 →
  unquoteLoop (S f) (quoteByte c ++ t) = c :: unquoteLoop f t ∧
  scanString (quoteByte c ++ t) = prod_map (app (quoteByte c)) id <$> scanString t.
Proof.
  intros Hc. unfold quoteByte. destruct (Z.eqb_spec c 34) as [->|H34]; [done|]. destruct (Z.eqb_spec c 92) as [->|H92]; [done|].
  cbn [orb]. destruct (Z.ltb_spec c 32).
  - assert (c ∈ seqZ 0 32) as Hin by (apply elem_of_seqZ; lia). clear -Hin. revert c Hin.
    apply Forall_forall. repeat constructor.
  - cbn. destruct (Z.eqb_spec c 92); [lia|]. destruct (Z.eqb_spec c 34); [lia|]. destruct (Z.ltb_spec c 128); [|lia].
    destruct (Z.ltb_spec c 32); [lia|]. done.
Qed.

Lemma scan_quoteBody s rest : Forall (λ c, 0 ≤ c) s → scanString (quoteBody s ++ 34 :: rest) = Some (quoteBody s, rest).
Proof.
  induction 1 as [|c s Hc _ IH]; [done|]. unfold quoteBody in *. rewrite bind_cons, <- app_assoc.
  destruct (Z.ltb_spec c 128).
  - rewrite (proj2 (quoteByte_ascii c O _ ltac:(lia))), IH. done.
  - rewrite quoteByte_plain by done. cbn. destruct (Z.eqb_spec c 34); [lia|]. destruct (Z.eqb_spec c 92); [lia|].
    destruct (Z.ltb_spec c 32); [lia|]. by rewrite IH.
Qed.

Lemma unquote_quoteBody s : utf8 s → unquote (quoteBody s) = s ∧ Forall (λ c, 0 ≤ c) s.
Proof.
  unfold utf8, unquote. intros Hs.
  assert (∀ n f s, validUTF8 n s = true → (length (quoteBody s) ≤ f)%nat →
    unquoteLoop f (quoteBody s) = s ∧ Forall (λ c, 0 ≤ c) s) as H; [|by apply (H (length s))].
  clear s Hs. induction n as [|n IH]; intros f [|c s] Hs Hf; [by destruct f|done|by destruct f|]. cbn [validUTF8] in Hs.
  destruct (Z.ltb_spec c 128).
  - bool_to_prop. change (quoteBody (c :: s)) with (quoteByte c ++ quoteBody s) in *. rewrite length_app in Hf.
    assert (1 ≤ length (quoteByte c))%nat by (unfold quoteByte; repeat case_match; cbn; lia).
    destruct f as [|f]; [lia|]. rewrite (proj1 (quoteByte_ascii c f _ ltac:(lia))).
    destruct (IH f s) as [-> ?]; [done|lia|]. by repeat constructor.
  - apply andb_prop in Hs as [Hlong%Nat.ltb_lt Hs]. destruct (rune_width_long (c :: s) Hlong) as (r & t & E & Hr & Hb & Hw).
    rewrite <- Hr in Hlong, Hs. setoid_rewrite <- Hr in Hw. rewrite E, drop_app_length in Hs. rewrite E in Hf |- *.
    rewrite quoteBody_app, quoteBody_plain in Hf |- * by done.
    rewrite length_app in Hf. destruct f as [|f]; [lia|]. destruct r as [|c' r]; [cbn in Hlong; lia|]. injection E as <- ->.
    cbn [unquoteLoop app]. destruct (Z.eqb_spec c 92); [lia|]. destruct (Z.ltb_spec c 128); [lia|].
    change (c :: r ++ quoteBody t) with ((c :: r) ++ quoteBody t). rewrite Hw.
    rewrite (proj2 (Nat.eqb_neq _ 1)) by lia. rewrite take_app_length, drop_app_length.
    destruct (IH f t) as [-> ?]; [done|cbn in *; lia|]. split; [done|]. apply (Forall_app _ (c :: r)). split; [|done].
    eapply Forall_impl; [exact Hb|]. cbn. lia.
Qed.

(** What may follow a number. *)
Definition numEnd (r : bytes) : Prop :=
  match r with [] => True | c :: _ => is_digit c = false ∧ c ≠ 46 ∧ c ≠ 101 ∧ c ≠ 69 end.

Lemma scanDigits_app s r ds s' : numEnd r → scanDigits s = (ds, s') → scanDigits (s ++ r) = (ds, s' ++ r).
Proof.
  intros Hr. revert ds s'. induction s as [|c s IH]; intros ds s' E.
  - injection E as <- <-. destruct r as [|c r]; [done|]. cbn. by rewrite (proj1 Hr).
  - cbn in *. destruct (is_digit c); [|by injection E as <- <-]. destruct (scanDigits s) as [ds1 s1].
    cbn in E. injection E as <- <-. by rewrite (IH _ _ eq_refl).
Qed.

Lemma scanDigits1_app s r ds s' : numEnd r → scanDigits1 s = Some (ds, s') → scanDigits1 (s ++ r) = Some (ds, s' ++ r).
Proof.
  intros Hr. unfold scanDigits1. destruct (scanDigits s) as [ds1 s1] eqn:E. rewrite (scanDigits_app _ _ _ _ Hr E).
  case_bool_decide; [done|]. by intros [= <- <-].
Qed.

Lemma scanNumber_app t r : scanNumber t = Some (t, []) → numEnd r → scanNumber (t ++ r) = Some (t, r).
Proof.
  intros E Hr. enough (∀ s x s', scanNumber s = Some (x, s') → scanNumber (s ++ r) = Some (x, s' ++ r)) as H by by apply (H _ _ _ E).
  clear t E. intros s x s' E. unfold scanNumber in *.
  assert (∀ s int s', scanInt s = Some (int, s') → scanInt (s ++ r) = Some (int, s' ++ r)) as Hint.
  { intros [|c s0] int s0' E0; [done|]. cbn [scanInt app] in *. destruct (c =? 48); [by injection E0 as <- <-|].
    change (c :: s0 ++ r) with ((c :: s0) ++ r). by apply scanDigits1_app. }
  assert (∀ s y s', scanFrac s = Some (y, s') → scanFrac (s ++ r) = Some (y, s' ++ r)) as Hfrac.
  { intros [|c s0] y s0' E0.
    - injection E0 as <- <-. destruct r as [|c r']; [done|]. cbn. destruct (Z.eqb_spec c 46); [naive_solver|done].
    - cbn [scanFrac app] in *. destruct (c =? 46); [|by injection E0 as <- <-].
      apply fmap_Some in E0 as ([ds s1] & E0 & [= -> ->]). by rewrite (scanDigits1_app _ _ _ _ Hr E0). }
  assert (∀ s y s', scanExp s = Some (y, s') → scanExp (s ++ r) = Some (y, s' ++ r)) as Hexp.
  { intros [|c s0] y s0' E0.
    - injection E0 as <- <-. destruct r as [|c r']; [done|]. cbn.
      destruct (Z.eqb_spec c 101); [naive_solver|]. destruct (Z.eqb_spec c 69); [naive_solver|done].
    - cbn [scanExp app] in *. destruct ((c =? 101) || (c =? 69)); [|by injection E0 as <- <-].
      destruct s0 as [|d s0]; [done|]. cbn [app] in *.
      destruct ((d =? 43) || (d =? 45)); apply fmap_Some in E0 as ([ds s1] & E0 & [= -> ->]);
        [|change (d :: s0 ++ r) with ((d :: s0) ++ r)]; by rewrite (scanDigits1_app _ _ _ _ Hr E0). }
  destruct s as [|c s]; [done|]. cbn [app]. destruct (c =? 45); cbv beta iota in E |- *.
  all: apply bind_Some in E as ([int s1] & E1 & E); apply Hint in E1; cbn [app] in E1; rewrite E1; clear E1; cbn [mbind option_bind].
  all: apply bind_Some in E as ([fr s2] & E2 & E); rewrite (Hfrac _ _ _ E2); clear E2; cbn [mbind option_bind].
  all: apply bind_Some in E as ([ex s3] & E3 & E); rewrite (Hexp _ _ _ E3); clear E3; cbn [mbind option_bind].
  all: by injection E as <- <-.
Qed.

(** ** The round trip *)

Lemma skipSpace_id c s : isSpace c = false → skipSpace (c :: s) = c :: s.
Proof. intros H. cbn. by rewrite H. Qed.

(** The writer's text begins with a byte that is not white space and tells the
    kind of the value. *)
Lemma number_head t : scanNumber t = Some (t, []) → ∃ c t', t = c :: t' ∧ ((c =? 45) || is_digit c) = true.
Proof.
  destruct t as [|c t']; [done|]. intros E. exists c, t'. split; [done|]. unfold scanNumber in E.
  destruct (Z.eqb_spec c 45) as [->|Hc]; [done|]. cbv beta iota in E. apply bind_Some in E as ([int s1] & E & _).
  cbn [scanInt] in E. destruct (Z.eqb_spec c 48) as [->|]; [done|]. unfold scanDigits1 in E. cbn [scanDigits] in E.
  cbn [orb]. by destruct (is_digit c).
Qed.

Lemma number_head_cases c : ((c =? 45) || is_digit c) = true →
  isSpace c = false ∧ (c =? 123) = false ∧ (c =? 91) = false ∧ (c =? 34) = false ∧ (c =? 116) = false ∧
  (c =? 102) = false ∧ (c =? 110) = false ∧ (c =? 125) = false ∧ (c =? 93) = false.
Proof.
  intros H. assert (c = 45 ∨ 48 ≤ c ≤ 57) as Hc by (unfold is_digit in H; bool_to_prop; destruct H; bool_to_prop; lia).
  unfold isSpace. split_and!; repeat match goal with |- context [?a =? ?b] => destruct (Z.eqb_spec a b); [lia|] end; done.
Qed.

(** The first byte of a value is neither white space nor a closing bracket. *)
Lemma encode_head v : wfJson v → ∃ c t, encode v = c :: t ∧ isSpace c = false ∧ (c =? 125) = false ∧ (c =? 93) = false.
Proof.
  destruct v as [|b|t|s|l|ms]; cbn [encode]; intros H; try by eexists _, _.
  - by destruct b; eexists _, _.
  - apply number_head in H as (c & t' & -> & Hc). apply number_head_cases in Hc as (? & _ & _ & _ & _ & _ & _ & ? & ?). eauto 6.
Qed.

Lemma foldr_and_Forall {A} (P : A → Prop) l : foldr and True (List.map P l) ↔ Forall P l.
Proof.
  induction l as [|x l IH]; cbn; [by split; [constructor|]|]. rewrite IH. split; [intros []; by constructor|by inversion 1].
Qed.

Lemma foldr_max_Forall {A} (g : A → Z) l d : foldr Z.max 0 (List.map g l) ≤ d → Forall (λ x, g x ≤ d) l.
Proof. induction l as [|x l IH]; cbn; intros H; constructor; [lia|]. apply IH. lia. Qed.

(** The scanner reads [v] back, whatever follows that cannot be part of it. *)
Definition readsBack (v : json) : Prop := ∀ f d rest,
  depthOf v ≤ d → numEnd rest → (2 * length (encode v ++ rest) ≤ f)%nat →
  scanValue f d (encode v ++ rest) = Some (v, rest).

Lemma elems_read_back l : ∀ f d rest, l ≠ [] → Forall readsBack l → Forall (λ v, depthOf v ≤ d) l →
  (2 * length (join_with "," (List.map encode l) ++ (93 :: rest)%Z) + 1 ≤ f)%nat →
  scanElems f d (join_with "," (List.map encode l) ++ 93 :: rest) = Some (l, rest).
Proof.
  induction l as [|v l IH]; intros f d rest Hne Hl Hd Hf; [done|]. apply Forall_cons in Hl as [Hv Hl]. apply Forall_cons in Hd as [Hdv Hd].
  destruct f as [|f]; [lia|]. rewrite scanElems_S. destruct l as [|w l].
  - cbn [List.map join_with] in *. rewrite Hv by (done || lia). done.
  - change (join_with "," (List.map encode (v :: w :: l))) with (encode v ++ lit "," ++ join_with "," (List.map encode (w :: l))) in *.
    rewrite <- !app_assoc in *. rewrite Hv; [|done|done|lia]. cbn [mbind option_bind].
    change (lit "," ++ ?x) with (44 :: x). rewrite skipSpace_id by done. cbn [Z.eqb Pos.eqb].
    rewrite IH; [done|done|done|done|]. rewrite !length_app in *. change (length (lit ",")) with 1%nat in Hf. lia.
Qed.

Abbreviation encodeMember := (λ m : gostring * json, quote m.1 ++ lit ":" ++ encode m.2).

Lemma members_read_back ms : ∀ f d rest, ms ≠ [] → Forall (λ m, utf8 m.1) ms → Forall (λ m, readsBack m.2) ms →
  Forall (λ m, depthOf m.2 ≤ d) ms →
  (2 * length (join_with "," (List.map encodeMember ms) ++ (125 :: rest)%Z) + 1 ≤ f)%nat →
  scanMembers f d (join_with "," (List.map encodeMember ms) ++ 125 :: rest) = Some (ms, rest).
Proof.
  induction ms as [|[k v] ms IH]; intros f d rest Hne Hk Hl Hd Hf; [done|].
  apply Forall_cons in Hl as [Hv Hl]. apply Forall_cons in Hd as [Hdv Hd]. apply Forall_cons in Hk as [Hkv Hk].
  cbn [fst snd] in *. destruct (unquote_quoteBody k Hkv) as [Hun Hpos].
  destruct f as [|f]; [lia|]. rewrite scanMembers_S. destruct ms as [|m ms].
  - cbn [List.map join_with fst snd] in *. unfold quote in *. rewrite <- !app_assoc in *. cbn [app] in *. rewrite <- !app_assoc in *.
    rewrite skipSpace_id by done. cbn [Z.eqb Pos.eqb app]. rewrite scan_quoteBody by done. cbn [mbind option_bind].
    change (lit ":" ++ ?x) with (58 :: x). rewrite skipSpace_id by done. cbn [Z.eqb Pos.eqb].
    rewrite Hv; [|done|done|cbn [length] in Hf; rewrite length_app in Hf; cbn [length app] in Hf; rewrite ?length_app in *; cbn [length] in *; lia].
    cbn [mbind option_bind]. rewrite skipSpace_id by done. cbn. by rewrite Hun.
  - change (join_with "," (List.map encodeMember ((k, v) :: m :: ms))) with
      ((quote k ++ lit ":" ++ encode v) ++ lit "," ++ join_with "," (List.map encodeMember (m :: ms))) in *.
    unfold quote in *. rewrite <- !app_assoc in *. cbn [app] in *. rewrite <- !app_assoc in *.
    rewrite skipSpace_id by done. cbn [Z.eqb Pos.eqb app]. rewrite scan_quoteBody by done. cbn [mbind option_bind].
    change (lit ":" ++ ?x) with (58 :: x). rewrite skipSpace_id by done. cbn [Z.eqb Pos.eqb].
    cbn [length] in Hf. rewrite length_app in Hf. cbn [length app] in Hf.
    rewrite Hv; [|done|done|rewrite ?length_app in *; cbn [length] in *; lia]. cbn [mbind option_bind].
    change (lit "," ++ ?x) with (44 :: x). rewrite skipSpace_id by done. cbn [Z.eqb Pos.eqb].
    rewrite IH; [|done..|rewrite ?length_app in *; cbn [length] in *; lia]. cbn. by rewrite Hun.
Qed.

Lemma scan_encode v : wfJson v → readsBack v.
Proof.
  induction v as [|b|t|s|l Hl|ms Hms] using json_nested_ind; intros Hwf f d rest Hd Hrest Hf;
    (destruct f as [|f]; [cbn in Hf; try (destruct b; cbn in Hf); try (apply number_head in Hwf as (c & t' & -> & _); cbn in Hf); lia|]);
    rewrite scanValue_S.
  - reflexivity.
  - by destruct b.
  - cbn [encode]. apply number_head in Hwf as Hc. destruct Hc as (c & t' & -> & Hc).
    apply number_head_cases in Hc as Hcs. destruct Hcs as (Hsp & H1 & H2 & H3 & H4 & H5 & H6 & _).
    cbn [app]. rewrite skipSpace_id, H1, H2, H3, H4, H5, H6, Hc by done.
    change (c :: t' ++ rest) with ((c :: t') ++ rest). by rewrite (scanNumber_app _ _ Hwf Hrest).
  - cbn [encode]. destruct (unquote_quoteBody s Hwf) as [Hun Hpos]. unfold quote. cbn [app]. rewrite <- app_assoc.
    rewrite skipSpace_id by done. cbn [Z.eqb Pos.eqb app]. rewrite scan_quoteBody by done. unfold fmap, option_fmap, option_map, prod_map, compose. cbn [fst snd]. by rewrite Hun.
  - cbn [wfJson depthOf encode] in *. apply foldr_and_Forall in Hwf. rewrite <- !app_assoc in *. change (lit "[" ++ ?x) with (91 :: x) in *.
    rewrite skipSpace_id by done. cbn [Z.eqb Pos.eqb].
    assert (1 ≤ d) by (clear -Hd; enough (0 ≤ foldr Z.max 0 (List.map depthOf l)) by lia; induction l; cbn in *; lia).
    rewrite (proj2 (Z.leb_gt d 0)) by lia. destruct l as [|v l]; [done|].
    assert (∃ c t, join_with "," (List.map encode (v :: l)) ++ lit "]" ++ rest = c :: t ∧ isSpace c = false ∧ (c =? 93) = false) as (c & t & E & Hc & Hc').
    { apply Forall_cons in Hwf as [Hv _]. destruct (encode_head v Hv) as (c & t & E & ? & _ & ?).
      destruct l; cbn [List.map join_with]; rewrite E; eexists _, _; split_and!; [done..]. }
    rewrite E at 1. rewrite skipSpace_id, Hc' by done. change (lit "]" ++ rest) with (93 :: rest) in *.
    rewrite elems_read_back; [done|done| |apply foldr_max_Forall; lia|cbn [length] in Hf; lia].
    apply Forall_forall. intros x Hx. rewrite Forall_forall in Hl, Hwf. auto.
  - cbn [wfJson depthOf encode] in *. apply foldr_and_Forall in Hwf. rewrite <- !app_assoc in *. change (lit "{" ++ ?x) with (123 :: x) in *.
    rewrite skipSpace_id by done. cbn [Z.eqb Pos.eqb].
    assert (1 ≤ d) by (clear -Hd; enough (0 ≤ foldr Z.max 0 (List.map (λ m, depthOf m.2) ms)) by lia; induction ms; cbn in *; lia).
    rewrite (proj2 (Z.leb_gt d 0)) by lia. destruct ms as [|m ms]; [done|].
    assert (∃ t, join_with "," (List.map encodeMember (m :: ms)) ++ lit "}" ++ rest = 34 :: t) as (t & E).
    { destruct ms; cbn [List.map join_with]; by eexists. }
    rewrite E at 1. rewrite skipSpace_id by done. cbn [Z.eqb Pos.eqb]. change (lit "}" ++ rest) with (125 :: rest) in *.
    rewrite members_read_back; [done|done|by eapply Forall_impl; [exact Hwf|]; intros ? []| |apply foldr_max_Forall; lia|cbn [length] in Hf; lia].
    apply Forall_forall. intros x Hx. rewrite Forall_forall in Hms, Hwf. apply Hms; [done|]. by apply Hwf.
Qed.

(** Every value is read back from its text, by [Unmarshal] and, with anything
    behind it that is not part of a number, by a [Decoder]. *)
Lemma parse_encode v : wfJson v → depthOf v ≤ maxNestingDepth → parseJSON (encode v) = Some v.
Proof.
  intros Hwf Hd. unfold parseJSON. pose proof (scan_encode v Hwf (2 * length (encode v))%nat maxNestingDepth [] Hd I) as H.
  rewrite app_nil_r in H. by rewrite H.
Qed.

Lemma decodeFirst_encode v rest : wfJson v → depthOf v ≤ maxNestingDepth → numEnd rest →
  decodeFirst (encode v ++ rest) = Some v.
Proof. intros Hwf Hd Hr. unfold decodeFirst. by rewrite scan_encode. Qed.

(** ** Decoding into Go values

    A value that does not fit the Go type is noted and decoding goes on; the error
    is returned at the end.  An [UnmarshalJSON] method that fails ends the
    decoding.  So checking a value gives [Ok true] (it fits), [Ok false] (noted) or
    an error; what it stores is a function of the old contents and the value.
    [null] leaves a plain variable as it is and makes a pointer nil. *)

(** Whether [foldName] of the key is that of a name in ASCII: letters compare in
    upper case; beyond ASCII only two characters fold into it, U+017F to S and
    U+212A to K. *)
Definition upper_byte (c : Z) : Z := if (97 <=? c) && (c <=? 122) then c - 32 else c.

Fixpoint foldsTo (key name : gostring) {struct name} : bool :=
  match name with
  | [] => bool_decide (key = [])
  | n :: name' =>
      match key with
      | [] => false
      | c :: key1 =>
          if c <? 128 then (upper_byte c =? upper_byte n) && foldsTo key1 name'
          else match key1 with
               | d :: key2 =>
                   if (c =? 197) && (d =? 191) then (upper_byte n =? 83) && foldsTo key2 name'
                   else match key2 with
                        | e :: key3 =>
                            if (c =? 226) && (d =? 132) && (e =? 170) then (upper_byte n =? 75) && foldsTo key3 name' else false
                        | [] => false
                        end
               | [] => false
               end
      end
  end.

(** [strconv.ParseInt] in base ten, on the text of a number. *)
Definition parse_int (bits : Z) (t : gostring) : option Z :=
  let '(neg, ds) := match t with c :: t' => if c =? 45 then (true, t') else (false, t) | [] => (false, t) end in
  if bool_decide (ds = []) || negb (forallb is_digit ds) then None else
  let x := if neg : bool then - digits_value ds else digits_value ds in
  if (- 2 ^ (bits - 1) <=? x) && (x <? 2 ^ (bits - 1)) then Some x else None.

Definition checker := json → res bool.

Definition checkString : checker := λ v, Ok (match v with JStr _ | JNull => true | _ => false end).
Definition checkBool : checker := λ v, Ok (match v with JBool _ | JNull => true | _ => false end).
Definition checkNum (parse : gostring → option Z) : checker := λ v,
  Ok (match v with JNum t => bool_decide (is_Some (parse t)) | JNull => true | _ => false end).
Definition checkStrings : checker := λ v,
  Ok (match v with
      | JArr l => forallb (λ x, match x with JStr _ | JNull => true | _ => false end) l
      | JNull => true
      | _ => false
      end).

(** A value whose type has an [UnmarshalJSON] method. *)
Definition checkMethod {A} (unmarshal : json → res A) : checker := λ v, unmarshal v;; Ok true.

(** Go on after a value that was noted. *)
Fixpoint checkAll {A} (check : A → res bool) (l : list A) : res bool :=
  match l with
  | [] => Ok true
  | x :: l => b ← check x; b' ← checkAll check l; Ok (b && b')
  end.

Definition checkMember (fields : list (String.string * checker)) (m : gostring * json) : res bool :=
  match List.find (λ f, foldsTo m.1 (lit f.1)) fields with
  | Some f => f.2 m.2
  | None => Ok true
  end.

Definition checkStruct (fields : list (String.string * checker)) : checker := λ v,
  match v with
  | JObj ms => checkAll (checkMember fields) ms
  | JNull => Ok true
  | _ => Ok false
  end.

(** The elements of a map, each decoded into a fresh value. *)
Definition checkMap (check : checker) : checker := λ v,
  match v with
  | JObj ms => checkAll (λ m, check m.2) ms
  | JNull => Ok true
  | _ => Ok false
  end.

(** What is stored. *)
Definition membersOf (v : json) : list (gostring * json) := match v with JObj ms => ms | _ => [] end.

(** A field after all members with its name, from its old contents. *)
Definition field {A} (name : String.string) (store : A → json → A) (old : A) (v : json) : A :=
  foldl store old (snd <$> filter (λ m, foldsTo m.1 (lit name) = true) (membersOf v)).

Definition storeString (old : gostring) (v : json) : gostring := match v with JStr s => s | _ => old end.
Definition storeBool (old : bool) (v : json) : bool := match v with JBool b => b | _ => old end.
Definition storeNum (parse : gostring → option Z) (old : Z) (v : json) : Z :=
  match v with JNum t => default old (parse t) | _ => old end.
Definition storeOptString (old : option gostring) (v : json) : option gostring :=
  match v with JStr s => Some s | JNull => None | _ => old end.
Definition storeOptNum (parse : gostring → option Z) (old : option Z) (v : json) : option Z :=
  match v with JNum t => match parse t with Some x => Some x | None => old end | JNull => None | _ => old end.

(** A slice: elements are decoded over the old ones, [null] keeps an element. *)
Fixpoint storeElems (old : list gostring) (l : list json) : list gostring :=
  match l with
  | [] => []
  | x :: l => storeString (default [] (head old)) x :: storeElems (tail old) l
  end.
Definition storeStrings (old : list gostring) (v : json) : list gostring :=
  match v with JArr l => storeElems old l | JNull => [] | _ => old end.

(** A map as its entries, each key once. *)
Fixpoint mapInsert {A} (k : gostring) (x : A) (m : list (gostring * A)) : list (gostring * A) :=
  match m with
  | [] => [(k, x)]
  | (k', x') :: m' => if bool_decide (k = k') then (k, x) :: m' else (k', x') :: mapInsert k x m'
  end.
Definition storeMap {A} (value : json → A) (old : list (gostring * A)) (v : json) : list (gostring * A) :=
  match v with
  | JObj ms => foldl (λ m '(k, x), mapInsert k (value x) m) old ms
  | JNull => []
  | _ => old
  end.

Section Unmarshalling.
(** The error of the package for text that is not JSON or does not fit. *)
Context (jsonError : error).

(** The end of [Unmarshal] into a value that [check] and [store] describe. *)
Definition finish {A} (check : res bool) (x : A) : res A :=
  b ← check; if b : bool then Ok x else Err jsonError.

(** [json.Unmarshal] into a string variable: [null] leaves it empty. *)
Definition unmarshalString (v : json) : res gostring := finish (checkString v) (storeString [] v).

Definition Unmarshal {A} (unmarshal : json → res A) (data : bytes) : res A :=
  match parseJSON data with Some v => unmarshal v | None => Err jsonError end.
Definition Decode {A} (unmarshal : json → res A) (data : bytes) : res A :=
  match decodeFirst data with Some v => unmarshal v | None => Err jsonError end.
End Unmarshalling.

Lemma checkAll_true {A} (check : A → res bool) l :
  checkAll check l = Ok true ↔ Forall (λ x, check x = Ok true) l.
Proof.
  induction l as [|x l IH]; cbn; [by split; [constructor|]|]. rewrite Forall_cons, <- IH.
  destruct (check x) as [[]|e|], (checkAll check l) as [[]|e'|]; cbn; split; intros; try done; naive_solver.
Qed.

(** Whole input or first value: what [Unmarshal] accepts, a [Decoder] decodes to
    the same value. *)
Lemma parse_decodeFirst s v : parseJSON s = Some v → decodeFirst s = Some v.
Proof.
  unfold parseJSON, decodeFirst. destruct (scanValue _ _ s) as [[x rest]|]; [|done]. cbn.
  case_bool_decide; [|done]. by intros [= ->].
Qed.

(** ** Numbers the writer prints *)

Lemma scanDigits_all ds : forallb is_digit ds = true → scanDigits ds = (ds, []).
Proof.
  induction ds as [|c ds IH]; [done|]. cbn [forallb scanDigits]. intros [Hc Hds]%andb_prop. by rewrite Hc, IH.
Qed.

Lemma scanInt_itoa n : 0 ≤ n → scanInt (itoa n) = Some (itoa n, []).
Proof.
  intros Hn. destruct (decide (n = 0)) as [->|]; [done|]. destruct (itoa_digits n Hn) as (Hd & _ & Hne).
  destruct (itoa_head n) as (c & t & E & Hc); [lia|]. unfold scanInt. rewrite E in *.
  destruct (Z.eqb_spec c 48); [lia|]. unfold scanDigits1. by rewrite scanDigits_all, bool_decide_eq_false_2.
Qed.

Lemma itoa_not_minus n : 0 ≤ n → ∃ c t, itoa n = c :: t ∧ (c =? 45) = false.
Proof.
  intros Hn. destruct (decide (n = 0)) as [->|]; [by eexists _, _|]. destruct (itoa_head n) as (c & t & -> & Hc); [lia|].
  eexists _, _. split; [done|]. apply Z.eqb_neq. lia.
Qed.

Lemma scanNumber_itoa n : scanNumber (itoa n) = Some (itoa n, []).
Proof.
  unfold scanNumber. destruct (Z_le_dec 0 n) as [Hn|Hn].
  - destruct (itoa_not_minus n Hn) as (c & t & E & Hc). pose proof (scanInt_itoa n Hn) as Hi. rewrite E in *. rewrite Hc.
    rewrite Hi. cbn. by rewrite app_nil_r.
  - rewrite <- (Z.opp_involutive n), itoa_neg by lia. cbn [Z.eqb Pos.eqb]. rewrite scanInt_itoa by lia. cbn. by rewrite app_nil_r.
Qed.

Lemma parse_int_itoa bits n : - 2 ^ (bits - 1) ≤ n < 2 ^ (bits - 1) → parse_int bits (itoa n) = Some n.
Proof.
  intros Hr. unfold parse_int. destruct (Z_le_dec 0 n) as [Hn|Hn].
  - destruct (itoa_not_minus n Hn) as (c & t & E & Hc). destruct (itoa_digits n Hn) as (Hd & Hv & Hne).
    rewrite E in *. rewrite Hc, bool_decide_eq_false_2, Hd, Hv by done. cbn [orb negb].
    by rewrite (proj2 (Z.leb_le _ _)), (proj2 (Z.ltb_lt _ _)) by lia.
  - rewrite <- (Z.opp_involutive n), itoa_neg by lia. cbn [Z.eqb Pos.eqb].
    destruct (itoa_digits (- n)) as (Hd & Hv & Hne); [lia|]. rewrite bool_decide_eq_false_2, Hd, Hv by done. cbn [orb negb].
    by rewrite (proj2 (Z.leb_le _ _)), (proj2 (Z.ltb_lt _ _)) by lia.
Qed.

(** What a decoder stores in a field is within the range of its type. *)
Lemma parse_uint_range bits t x : parse_uint bits t = Some x → 0 ≤ x < 2 ^ bits.
Proof.
  intros E. split; [by eapply parse_uint_nonneg|]. unfold parse_uint in E. destruct (_ || _); [done|].
  destruct (Z.ltb_spec (digits_value t) (2 ^ bits)); [|done]. by injection E as <-.
Qed.

Lemma parse_int_range bits t x : parse_int bits t = Some x → - 2 ^ (bits - 1) ≤ x < 2 ^ (bits - 1).
Proof.
  unfold parse_int. destruct (match t with [] => _ | _ => _ end) as [neg ds]. destruct (_ || _); [done|].
  cbv zeta. set (y := if neg then _ else _). destruct (Z.leb_spec (- 2 ^ (bits - 1)) y); [|done].
  destruct (Z.ltb_spec y (2 ^ (bits - 1))); [|done]. by intros [= <-].
Qed.

(** An invariant of what is stored holds of the field. *)
Lemma field_inv {A} (P : A → Prop) name store old v :
  P old → (∀ a m, m ∈ membersOf v → foldsTo m.1 (lit name) = true → P a → P (store a m.2)) → P (field name store old v).
Proof.
  intros Hold Hst. unfold field. revert old Hold.
  assert (∀ m, m ∈ filter (λ m, foldsTo m.1 (lit name) = true) (membersOf v) → m ∈ membersOf v ∧ foldsTo m.1 (lit name) = true) as Hm.
  { intros m [? ?]%list_elem_of_filter. done. }
  induction (filter _ _) as [|m l IH]; intros old Hold; [done|]. cbn. apply IH; [set_solver|].
  destruct (Hm m) as [? ?]; [set_solver|]. by apply Hst.
Qed.

(** A key folds to one name only. *)
Lemma foldsTo_upper key n n' : foldsTo key n = true → foldsTo key n' = true → upper_byte <$> n = upper_byte <$> n'.
Proof.
  revert key n'. induction n as [|c n IH]; intros key [|c' n'] H1 H2; [done| | |].
  - cbn in H1. apply bool_decide_eq_true in H1 as ->. done.
  - cbn in H2. apply bool_decide_eq_true in H2 as ->. done.
  - cbn in H1, H2. repeat case_match; try done; bool_to_prop;
      (rewrite !fmap_cons; f_equal; [congruence|by eapply IH]).
Qed.

(** The field a key selects, among fields whose names differ in more than case. *)
Lemma checkMember_field fields name c m :
  NoDup ((λ f : String.string * checker, upper_byte <$> lit f.1) <$> fields) → (name, c) ∈ fields →
  foldsTo m.1 (lit name) = true → checkMember fields m = c m.2.
Proof.
  unfold checkMember. induction fields as [|f fields IH]; intros Hnd Hin Hm; [set_solver|].
  rewrite fmap_cons in Hnd. apply NoDup_cons in Hnd as [Hni Hnd]. cbn [List.find].
  destruct (foldsTo m.1 (lit f.1)) eqn:E.
  - apply elem_of_cons in Hin as [<-|Hin]; [done|]. exfalso. apply Hni. rewrite (foldsTo_upper _ _ _ E Hm).
    apply (list_elem_of_fmap_2 (λ f : String.string * checker, upper_byte <$> lit f.1)) in Hin. done.
  - apply elem_of_cons in Hin as [<-|Hin]; [cbn [fst] in E; congruence|]. by apply IH.
Qed.

(** ** Objects with each field at most once *)

Definition fieldsJSON (l : list (String.string * option json)) : json :=
  JObj (omap (λ e, (λ x, (lit e.1, x)) <$> e.2) l).

(** Names that [foldsTo] tells apart. *)
Definition namesApart (names : list String.string) : bool :=
  forallb (λ n, forallb (λ m, Bool.eqb (foldsTo (lit m) (lit n)) (String.eqb m n)) names) names.

Lemma field_fieldsJSON {A} name (store : A → json → A) old l :
  namesApart l.*1 = true → NoDup l.*1 → name ∈ l.*1 →
  field name store old (fieldsJSON l) =
  match List.find (λ e, String.eqb e.1 name) l with Some (_, Some x) => store old x | _ => old end.
Proof.
  intros Hap Hnd Hin. assert (∀ m, m ∈ l.*1 → foldsTo (lit m) (lit name) = String.eqb m name) as Hm.
  { intros m Hm. unfold namesApart in Hap. rewrite forallb_forall in Hap. specialize (Hap name). rewrite <- list_elem_of_In in Hap.
    specialize (Hap Hin). rewrite forallb_forall in Hap. specialize (Hap m). rewrite <- list_elem_of_In in Hap.
    apply Bool.eqb_prop. by apply Hap. }
  clear Hap Hin. unfold field, fieldsJSON. cbn [membersOf].
  assert (∀ l, (∀ m, m ∈ l.*1 → m ≠ name) → (∀ m, m ∈ l.*1 → foldsTo (lit m) (lit name) = String.eqb m name) →
    filter (λ m : gostring * json, foldsTo m.1 (lit name) = true) (omap (λ e, (λ x, (lit e.1, x)) <$> e.2) l) = []) as Hnone.
  { clear. induction l as [|[m o] l IH]; intros Hne Hm; [done|]. cbn [fst snd omap list_omap].
    destruct o as [x|]; cbn [fmap option_fmap option_map]; [|apply IH; set_solver].
    rewrite filter_cons, decide_False; [apply IH; set_solver|]. cbn. rewrite Hm by (cbn; set_solver).
    intros E. apply String.eqb_eq in E. by apply (Hne m); [cbn; set_solver|]. }
  induction l as [|[m o] l IH]; [done|]. cbn [List.find fst snd omap list_omap fmap list_fmap] in *.
  apply NoDup_cons in Hnd as [Hni Hnd]. pose proof (Hm m ltac:(set_solver)) as Em.
  destruct (String.eqb_spec m name) as [->|Hne].
  - destruct o as [x|]; cbn [fmap option_fmap option_map].
    + rewrite filter_cons, decide_True by done. rewrite Hnone; [done|set_solver|set_solver].
    + rewrite Hnone; [done|set_solver|set_solver].
  - destruct o as [x|]; cbn [fmap option_fmap option_map].
    + rewrite filter_cons, decide_False; [by apply IH; [|set_solver]|]. cbn. by rewrite Em.
    + by apply IH; [|set_solver].
Qed.
