(* ===== verification/StatsJson.v ===== *)
(** * Statistics as JSON (core/session_stats.go, tun2socks/restapi/netstats.go)

    The text of a snapshot for the application, which [encoding/json] writes, and
    the encoder of the REST interface, which writes the counters of the network
    stack by hand, by reflection over their struct.  Both are compared with the
    reader of the configuration. *)

From S2P Require Import Prelude Errors Netip Pattern Session Json.
Local Open Scope Z_scope.

(** ** The session's counters *)

Definition snapshotJSON (s : Z * Z * Z * Z * Z * Z) : json :=
  let '(down, up, blocked, tcp, udp, uptime) := s in
  JObj [(lit "down", JNum (itoa down)); (lit "up", JNum (itoa up)); (lit "blocked", JNum (itoa blocked));
        (lit "tcp_conns", JNum (itoa tcp)); (lit "udp_conns", JNum (itoa udp)); (lit "uptime_ms", JNum (itoa uptime))].

(** [StatsSnapshot.JSON]; marshalling integers does not fail. *)
Definition StatsJSON (s : Z * Z * Z * Z * Z * Z) : gostring := encode (snapshotJSON s).

(** [GetStats] of the mobile library. *)
Definition GetStats (now : Z) (s : sessionStats) : gostring := StatsJSON (SnapshotStats now s).

(** ** The counters of the stack

    A field of the struct is a counter, a map of counters (its keys, each with the
    counter [Get] finds), or a struct again. *)
Inductive statValue :=
| StatCounter (v : Z)
| StatCounterMap (entries : list (Z * option Z))
| StatStruct (fields : list (gostring * statValue)).

(** The loop over the keys: the comma goes by the position of the key. *)
Fixpoint encodeKeys (l : list (Z * option Z)) : bytes :=
  match l with
  | [] => []
  | (k, o) :: l' =>
      match o with
      | Some v => [34] ++ itoa k ++ [34] ++ ":" ++ itoa v ++ (if bool_decide (l' = []) then [] else lit ",")
      | None => []
      end ++ encodeKeys l'
  end.

Section Loop.
Context (encodeField : statValue → bytes).
Fixpoint encodeFields (fs : list (gostring * statValue)) : bytes :=
  match fs with
  | [] => []
  | (name, v) :: fs' =>
      [34] ++ name ++ [34] ++ ":" ++ encodeField v ++ (if bool_decide (length fs' = 0%nat) then [] else lit ",") ++ encodeFields fs'
  end.
End Loop.

Fixpoint encodeToJSON (v : statValue) : bytes :=
  match v with
  | StatCounter x => itoa x
  | StatCounterMap l => lit "{" ++ encodeKeys l ++ lit "}"
  | StatStruct fs => lit "{" ++ encodeFields encodeToJSON fs ++ lit "}"
  end.

(** What the text stands for. *)
Fixpoint statJSON (v : statValue) : json :=
  match v with
  | StatCounter x => JNum (itoa x)
  | StatCounterMap l => JObj (omap (λ e, (λ v, (itoa e.1, JNum (itoa v))) <$> e.2) l)
  | StatStruct fs => JObj (List.map (λ f, (f.1, statJSON f.2)) fs)
  end.

(** Names of Go fields, and maps whose keys are all there. *)
Definition plainName (s : gostring) : Prop := Forall (λ c, 32 ≤ c < 128 ∧ c ≠ 34 ∧ c ≠ 92) s.

Fixpoint statOK (v : statValue) : Prop :=
  match v with
  | StatCounter _ => True
  | StatCounterMap l => Forall (λ e, 0 ≤ e.1 ∧ is_Some e.2) l
  | StatStruct fs => foldr and True (List.map (λ f, plainName f.1 ∧ statOK f.2) fs)
  end.

Section StatInd.
Context (P : statValue → Prop).
Context (Hc : ∀ x, P (StatCounter x)) (Hm : ∀ l, P (StatCounterMap l)).
Context (Hs : ∀ fs, Forall (λ f, P f.2) fs → P (StatStruct fs)).
Fixpoint stat_nested_ind (v : statValue) : P v :=
  match v with
  | StatCounter x => Hc x
  | StatCounterMap l => Hm l
  | StatStruct fs => Hs fs ((fix all fs : Forall (λ f, P f.2) fs :=
      match fs with [] => Forall_nil_2 _ | f :: fs => Forall_cons_2 _ _ _ (stat_nested_ind f.2) (all fs) end) fs)
  end.
End StatInd.

Lemma quote_plain s : plainName s → quote s = [34] ++ s ++ [34].
Proof.
  intros Hs. unfold quote. cbn [app]. do 2 f_equal. unfold quoteBody. induction Hs as [|c s (H1 & H2 & H3) _ IH]; [done|].
  rewrite bind_cons, IH. unfold quoteByte. destruct (Z.eqb_spec c 34); [done|]. destruct (Z.eqb_spec c 92); [done|].
  destruct (Z.ltb_spec c 32); [lia|done].
Qed.

Lemma plain_utf8 s : plainName s → utf8 s.
Proof.
  intros Hs. unfold utf8. induction Hs as [|c s (H1 & H2 & H3) _ IH]; [done|]. cbn [length validUTF8].
  rewrite (proj2 (Z.ltb_lt c 128)), (proj2 (Z.leb_le 0 c)) by lia. done.
Qed.

Lemma itoa_plainName n : 0 ≤ n → plainName (itoa n).
Proof.
  intros Hn. destruct (itoa_digits n Hn) as (Hd & _ & _). apply Forall_forall. intros c Hc.
  rewrite forallb_forall in Hd. apply list_elem_of_In, Hd in Hc. unfold is_digit in Hc. bool_to_prop. lia.
Qed.

(** The hand-written encoder writes what the reference writer writes. *)
Lemma encodeToJSON_encode v : statOK v → encodeToJSON v = encode (statJSON v).
Proof.
  induction v as [x|l|fs IH] using stat_nested_ind; intros Hok; [done|..].
  - cbn [encodeToJSON statJSON encode statOK] in *. do 2 f_equal. induction Hok as [|[k o] l [Hk [v Hv]] Hl IHl]; [done|].
    cbn in Hk, Hv. subst o.
    cbn [encodeKeys omap list_omap fst snd fmap option_fmap option_map]. rewrite IHl. cbn [List.map]. rewrite quote_plain by by apply itoa_plainName.
    destruct l as [|[k' o'] l]; [cbn; by rewrite ?app_nil_r, <- ?app_assoc|]. rewrite bool_decide_eq_false_2 by done.
    apply Forall_cons in Hl as [[_ [v' Hv']] _]. cbn in Hv'. subst o'. cbn [omap list_omap fst snd fmap option_fmap option_map List.map join_with encode].
    by rewrite <- !app_assoc.
  - cbn [encodeToJSON statJSON encode statOK] in *. apply foldr_and_Forall in Hok. do 2 f_equal.
    induction fs as [|[name v] fs IHfs]; [done|]. apply Forall_cons in IH as [Hv IH]. apply Forall_cons in Hok as [[Hn Hok] Hoks].
    cbn [fst snd] in *. cbn [encodeFields List.map fst snd]. rewrite (IHfs IH Hoks), (Hv Hok), quote_plain by done.
    destruct fs as [|f fs]; [cbn; by rewrite ?app_nil_r, <- ?app_assoc|]. cbn [length bool_decide List.map join_with].
    rewrite bool_decide_eq_false_2 by done. by rewrite <- !app_assoc.
Qed.

Lemma statJSON_wf v : statOK v → wfJson (statJSON v).
Proof.
  induction v as [x|l|fs IH] using stat_nested_ind; intros Hok; cbn [statJSON wfJson statOK] in *; [apply scanNumber_itoa|..].
  - apply foldr_and_Forall, Forall_forall. intros m ([k o] & Hin & Em)%list_elem_of_omap. destruct o as [v|]; [|done]. injection Em as <-.
    rewrite Forall_forall in Hok. apply Hok in Hin as [Hk _]. split; [by apply plain_utf8, itoa_plainName|apply scanNumber_itoa].
  - apply foldr_and_Forall in Hok. apply foldr_and_Forall, Forall_forall. intros m Hm. apply list_elem_of_In, in_map_iff in Hm as (f & <- & Hf).
    apply list_elem_of_In in Hf. rewrite Forall_forall in IH, Hok. destruct (Hok f Hf) as [Hn Hv]. cbn. split; [by apply plain_utf8|by apply IH].
Qed.

(** What the REST interface sends is JSON and says what the counters say: the
    text, written by hand, is read back as the struct of counters, provided that
    the keys of the maps are there when they are read. *)
Theorem netstats_roundtrip v :
  statOK v → depthOf (statJSON v) ≤ maxNestingDepth → parseJSON (encodeToJSON v) = Some (statJSON v).
Proof. intros Hok Hd. rewrite encodeToJSON_encode by done. by apply parse_encode; [apply statJSON_wf|]. Qed.

Lemma netstats_roundtrip_witness :
  let v := StatStruct [(lit "IP", StatStruct [(lit "PacketsReceived", StatCounter 7)]);
                       (lit "ICMP", StatCounterMap [(3, Some 1); (11, Some 2)])] in
  encodeToJSON v = jtext "{'IP':{'PacketsReceived':7},'ICMP':{'3':1,'11':2}}" ∧ parseJSON (encodeToJSON v) = Some (statJSON v).
Proof.
  intros v. split; [vm_compute; reflexivity|]. apply (netstats_roundtrip v); [|vm_compute; discriminate].
  cbn. unfold plainName. repeat split; try (apply (bool_decide_eq_true_1 _); vm_compute; reflexivity).
Defined.

(** The comma goes by the position: when the last key is gone by the time it is
    read, the text is not JSON. *)
Lemma netstats_missing_key : parseJSON (encodeToJSON (StatCounterMap [(1, Some 5); (2, None)])) = None.
Proof. by vm_compute. Qed.

(** The snapshot of the session is read back by the application. *)
Theorem stats_readable now s : parseJSON (GetStats now s) = Some (snapshotJSON (SnapshotStats now s)).
Proof.
  unfold GetStats, StatsJSON. destruct (SnapshotStats now s) as [[[[[a b] c] d] e] f]. apply parse_encode; [|by vm_compute].
  cbn [snapshotJSON wfJson List.map foldr fst snd]. split_and!; try exact I; try apply scanNumber_itoa; by vm_compute.
Qed.
