(* ===== verification/Socks5.v ===== *)
(** * The SOCKS5 client (tun2socks/transport/socks5/socks5.go)

    Addresses on the wire, the client's handshake, and UDP datagrams.  A nil
    [Addr] is [None]. *)

From S2P Require Import Prelude Errors Netip AddrTrie Pattern Stream.
Local Open Scope Z_scope.

Definition MethodNoAuth : Z := 0.
Definition MethodUserPass : Z := 2.
Definition Version : Z := 5.
Definition CmdConnect : Z := 1.
Definition CmdBind : Z := 2.
Definition CmdUDPAssociate : Z := 3.

Definition CommandString (c : Z) : gostring :=
  if c =? CmdConnect then "CONNECT"
  else if c =? CmdBind then "BIND"
  else if c =? CmdUDPAssociate then "UDP ASSOCIATE"
  else "UNDEFINED".

Definition AtypIPv4 : Z := 1.
Definition AtypDomainName : Z := 3.
Definition AtypIPv6 : Z := 4.

Definition ReplyString (r : Z) : gostring :=
  if r =? 0 then "succeeded"
  else if r =? 1 then "general SOCKS server failure"
  else if r =? 2 then "connection not allowed by ruleset"
  else if r =? 3 then "network unreachable"
  else if r =? 4 then "host unreachable"
  else if r =? 5 then "connection refused"
  else if r =? 6 then "TTL expired"
  else if r =? 7 then "command not supported"
  else if r =? 8 then "address type not supported"
  else "unassigned <0x" ++ [hexDigit (Z.shiftr r 4); hexDigit (Z.land r 15)] ++ ">".

Definition MaxAddrLen : Z := 1 + 1 + 255 + 2.
Definition MaxAuthLen : Z := 255.
Definition IPv4len : Z := 4.
Definition IPv6len : Z := 16.

(** ** Addresses *)

(** The byte at a position that the code has checked. *)
Definition byteAt (a : bytes) (i : Z) : Z := default 0 (idx a i).

Definition Valid (a : bytes) : bool :=
  if zlen a <? 1 + 1 + 2 then false
  else if byteAt a 0 =? AtypDomainName then negb (zlen a <? 1 + 1 + byteAt a 1 + 2)
  else if byteAt a 0 =? AtypIPv4 then negb (zlen a <? 1 + IPv4len + 2)
  else if byteAt a 0 =? AtypIPv6 then negb (zlen a <? 1 + IPv6len + 2)
  else true.

(** [binary.BigEndian.Uint16(a[i:])] *)
Definition uint16At (a : bytes) (i : Z) : Z := be16 (byteAt a i) (byteAt a (i + 1)).

Definition sub (a : bytes) (i j : Z) : bytes := default [] (slice a i j).

Definition AddrText (a : bytes) : gostring :=
  if negb (Valid a) then [] else
  let '(host, port) :=
    if byteAt a 0 =? AtypDomainName then
      let hostLen := byteAt a 1 in (sub a 2 (2 + hostLen), itoa (uint16At a (2 + hostLen)))
    else if byteAt a 0 =? AtypIPv4 then
      (IPString (sub a 1 (1 + IPv4len)), itoa (uint16At a (1 + IPv4len)))
    else if byteAt a 0 =? AtypIPv6 then
      (IPString (sub a 1 (1 + IPv6len)), itoa (uint16At a (1 + IPv6len)))
    else ([], []) in
  JoinHostPort host port.

(** [Addr.UDPAddr]: the address bytes (empty for nil) and the port. *)
Definition UDPAddr (a : bytes) : option (bytes * Z) :=
  if negb (Valid a) then None
  else if byteAt a 0 =? AtypDomainName then None
  else if byteAt a 0 =? AtypIPv4 then Some (sub a 1 (1 + IPv4len), uint16At a (1 + IPv4len))
  else if byteAt a 0 =? AtypIPv6 then Some (sub a 1 (1 + IPv6len), uint16At a (1 + IPv6len))
  else Some ([], 0).

(** [ReadAddr] with a buffer of [MaxAddrLen] bytes. *)
Definition ReadAddr (bufLen : Z) : ioM bytes :=
  if bufLen <? MaxAddrLen then failIO "short buffer" else
  t ← readFull 1;
  if byteAt t 0 =? AtypDomainName then
    l ← readFull 1;
    let domainLength := byteAt l 0 in
    r ← readFull (domainLength + 2);
    mret (t ++ l ++ r)
  else if byteAt t 0 =? AtypIPv4 then
    r ← readFull (IPv4len + 2); mret (t ++ r)
  else if byteAt t 0 =? AtypIPv6 then
    r ← readFull (IPv6len + 2); mret (t ++ r)
  else failIO "invalid address type".

Definition SplitAddr (b : bytes) : option bytes :=
  if zlen b <? 1 then None else
  addrLen ← (if byteAt b 0 =? AtypDomainName then
               if zlen b <? 2 then None else Some (1 + 1 + byteAt b 1 + 2)
             else if byteAt b 0 =? AtypIPv4 then Some (1 + IPv4len + 2)
             else if byteAt b 0 =? AtypIPv6 then Some (1 + IPv6len + 2)
             else None);
  if zlen b <? addrLen then None else slice b 0 addrLen.

Definition SerializeAddr (domainName : gostring) (dstIP : Addr) (dstPort : Z) : bytes :=
  let port := put_be16 dstPort in
  if negb (bool_decide (domainName = [])) then
    [AtypDomainName; u8 (zlen domainName)] ++ domainName ++ port
  else if Is4 dstIP then [AtypIPv4] ++ AsSlice dstIP ++ port
  else [AtypIPv6] ++ AsSlice dstIP ++ port.

Definition ParseAddrString (s : gostring) : option bytes :=
  match SplitHostPort s with
  | Ok (host, port) =>
      dstPort ← parse_uint 16 port;
      match ParseAddr host with
      | Some ip => if IsValid ip then Some (SerializeAddr [] ip dstPort)
                   else Some (SerializeAddr host AddrInvalid dstPort)
      | None => Some (SerializeAddr host AddrInvalid dstPort)
      end
  | _ => None
  end.

(** A [net.Addr]: one that knows its address and port, or one with only a text. *)
Inductive netAddr :=
| WithAddrPort (a : Addr) (port : Z)
| WithText (s : gostring).

Definition ParseNetAddr (addr : netAddr) : option bytes :=
  match addr with
  | WithAddrPort a port => Some (SerializeAddr [] a port)
  | WithText s => ParseAddrString s
  end.

(** ** Datagrams *)

(** [DecodeUDPPacket]: the address, the payload and the error. *)
Definition DecodeUDPPacket (packet : bytes) : option bytes * bytes * option error :=
  if zlen packet <? 5 then (None, [], New "insufficient length of packet")
  else if negb (bool_decide (sub packet 0 2 = [0; 0])) then (None, [], New "reserved fields should be zero")
  else if negb (byteAt packet 2 =? 0) then (None, [], New "discarding fragmented payload")
  else
    match SplitAddr (drop 3 packet) with
    | None => (None, drop 3 packet, New "socks5 UDP addr is nil")
    | Some addr => (Some addr, drop (3 + length addr) packet, None)
    end.

Definition EncodeUDPPacket (addr : option bytes) (payload : bytes) : res bytes :=
  match addr with
  | None => fail "address is invalid"
  | Some addr => Ok ([0; 0; 0] ++ addr ++ payload)
  end.

(** ** The handshake *)

Record User := mkUser { Username : gostring; Password : gostring }.

(** The username/password negotiation. *)
Definition authenticate (user : option User) : ioM unit :=
  match user with
  | None => failIO "auth required"
  | Some u =>
      let uLen := zlen (Username u) in
      let pLen := zlen (Password u) in
      if (uLen =? 0) || (pLen =? 0) then failIO "auth username/password empty"
      else if (MaxAuthLen <? uLen) || (MaxAuthLen <? pLen) then failIO "auth username/password too long"
      else
        send ([1; u8 uLen] ++ Username u ++ [u8 pLen] ++ Password u);;
        r ← readFull 2;
        if negb (byteAt r 1 =? 0) then failIO "rejected username/password" else mret tt
  end.

Definition ClientHandshake (addr : bytes) (command : Z) (user : option User) : ioM bytes :=
  let method := match user with Some _ => MethodUserPass | None => MethodNoAuth end in
  send [Version; 1; method];;
  r ← readFull 2;
  if negb (byteAt r 0 =? Version) then failIO "socks version mismatched" else
  (if byteAt r 1 =? MethodUserPass then authenticate user
   else if negb (byteAt r 1 =? MethodNoAuth) then failIO "unsupported method"
   else mret tt);;
  send ([Version; command; 0] ++ addr);;
  r ← readFull 3;
  if negb (byteAt r 1 =? 0)
  then liftIO (Err (errorString (CommandString command ++ ": " ++ ReplyString (byteAt r 1))))
  else ReadAddr MaxAddrLen.

(** ** Host and port texts *)

Lemma not_bracket {A} (c : Z) (x y : A) : c ≠ 91 → match c with 91 => x | _ => y end = y.
Proof. intros Hc. destruct c as [|p|p]; try done. do 7 (destruct p as [p|p|]; try done). Qed.

Lemma contains_byte_false s c : c ∉ s → contains_byte s c = false.
Proof. intros. by apply bool_decide_eq_false_2. Qed.

Lemma drop_app_S {A} (l : list A) x r : drop (S (length l)) (l ++ x :: r) = r.
Proof. rewrite drop_app_ge by lia. by replace (S (length l) - length l)%nat with 1%nat by lia. Qed.

Lemma last_index_byte_app host port : 58 ∉ port → last_index_byte (host ++ 58 :: port) 58 = Some (length host).
Proof.
  intros Hp. apply last_index_byte_Some. rewrite drop_app_S, take_app_length.
  split_and!; [done..|]. rewrite length_app. simpl. lia.
Qed.

Lemma SplitHostPort_Join host port :
  91 ∉ host → 93 ∉ host → 58 ∉ port → 91 ∉ port → 93 ∉ port →
  SplitHostPort (JoinHostPort host port) = Ok (host, port).
Proof.
  intros H1 H2 H3 H4 H5. unfold JoinHostPort. destruct (contains_byte host 58) eqn:Ec.
  - change (lit "[" ++ host ++ lit "]:" ++ port) with ((91 :: host) ++ [93] ++ 58 :: port).
    rewrite app_assoc. set (w := (91 :: host) ++ [93]).
    assert (length w = S (S (length host))) as Hw by (unfold w; rewrite length_app; simpl; lia).
    assert (w ++ 58 :: port = 91 :: host ++ 93 :: 58 :: port) as E.
    { unfold w. rewrite <- app_assoc. done. }
    assert (index_byte (w ++ 58 :: port) 93 = Some (S (length host))) as Ei.
    { rewrite E. change (91 :: host ++ 93 :: 58 :: port) with ((91 :: host) ++ 93 :: 58 :: port).
      apply index_byte_app. rewrite not_elem_of_cons. done. }
    unfold SplitHostPort. rewrite last_index_byte_app, drop_app_S, Hw by done. cbv zeta.
    rewrite Ei. rewrite E at 1. rewrite length_app, Hw. cbn [length].
    destruct (Nat.eqb_spec (S (S (length host))) (S (S (length host)) + S (length port))); [lia|].
    destruct (Nat.eqb_spec (S (S (length host))) (S (S (length host)))); [|done].
    rewrite E. cbn [drop]. rewrite (contains_byte_false (drop 0 _)).
    + rewrite drop_app_S.
      rewrite contains_byte_false by (rewrite not_elem_of_cons; done).
      replace (S (length host) - 1)%nat with (length host) by lia. by rewrite drop_0, take_app_length.
    + rewrite drop_0, not_elem_of_app, !not_elem_of_cons. done.
  - change (host ++ lit ":" ++ port) with (host ++ 58 :: port).
    assert (58 ∉ host) as H0 by exact (bool_decide_eq_false_1 _ Ec).
    unfold SplitHostPort. rewrite last_index_byte_app, drop_app_S, take_app_length by done. cbv zeta.
    assert (contains_byte (host ++ 58 :: port) 91 = false ∧ contains_byte (host ++ 58 :: port) 93 = false)
      as [E1 E2].
    { split; apply contains_byte_false; rewrite not_elem_of_app, not_elem_of_cons; done. }
    destruct host as [|c host].
    + cbn in *. by rewrite E1, E2.
    + rewrite <- app_comm_cons in *. rewrite not_bracket by (intros ->; apply H1; by left).
      rewrite drop_0, Ec, E1, E2. done.
Qed.

Lemma byteAt_app l r k : 0 ≤ k → byteAt (l ++ r) (zlen l + k) = byteAt r k.
Proof.
  intros Hk. unfold byteAt, idx. pose proof (zlen_nonneg l).
  destruct (Z.leb_spec 0 (zlen l + k)), (Z.leb_spec 0 k); try lia.
  rewrite lookup_app_r by (unfold zlen; lia). do 2 f_equal. unfold zlen. lia.
Qed.

Lemma uint16At_app l r : uint16At (l ++ r) (zlen l) = uint16At r 0.
Proof.
  unfold uint16At. rewrite <- (Z.add_0_r (zlen l)) at 1. by rewrite !byteAt_app by lia.
Qed.

Lemma uint16At_put x rest : 0 ≤ x < 65536 → uint16At (put_be16 x ++ rest) 0 = x.
Proof. intros Hx. unfold uint16At. cbn. by apply be16_put. Qed.

Lemma sub_app l m r : sub (l ++ m ++ r) (zlen l) (zlen l + zlen m) = m.
Proof.
  unfold sub, slice. pose proof (zlen_nonneg l). pose proof (zlen_nonneg m). pose proof (zlen_nonneg r).
  rewrite !zlen_app.
  destruct (Z.leb_spec 0 (zlen l)), (Z.leb_spec (zlen l) (zlen l + zlen m)),
    (Z.leb_spec (zlen l + zlen m) (zlen l + (zlen m + zlen r))); try lia.
  cbn. unfold zlen. rewrite Nat2Z.id, drop_app_length.
  replace (Z.to_nat _) with (length m) by lia. by rewrite take_app_length.
Qed.

Lemma slice_app_full (l r : bytes) n : zlen l = n → slice (l ++ r) 0 n = Some l.
Proof.
  intros <-. unfold slice. rewrite zlen_app. pose proof (zlen_nonneg l). pose proof (zlen_nonneg r).
  destruct (Z.leb_spec 0 0), (Z.leb_spec 0 (zlen l)), (Z.leb_spec (zlen l) (zlen l + zlen r)); try lia.
  cbn [andb]. f_equal. change (drop (Z.to_nat 0) (l ++ r)) with (l ++ r).
  replace (Z.to_nat (zlen l - 0)) with (length l) by (unfold zlen; lia). by rewrite take_app_length.
Qed.

(** A destination that the wire format can carry. *)
Definition destOK (domain : gostring) (ip : Addr) (port : Z) : Prop :=
  0 ≤ port < 65536 ∧ (domain ≠ [] ∧ zlen domain ≤ 255 ∨ domain = [] ∧ addr_wf ip).

(** The host text of a destination. *)
Definition destHost (domain : gostring) (ip : Addr) : gostring :=
  if bool_decide (domain = []) then IPString (AsSlice ip) else domain.

(** The three forms on the wire. *)
Lemma SerializeAddr_cases domain ip port :
  destOK domain ip port →
  (domain ≠ [] ∧ 1 ≤ zlen domain ≤ 255 ∧
    SerializeAddr domain ip port = [AtypDomainName; zlen domain] ++ domain ++ put_be16 port) ∨
  (∃ v, domain = [] ∧ ip = Addr4 v ∧ 0 ≤ v < 2 ^ 32 ∧
    SerializeAddr domain ip port = [AtypIPv4] ++ be_bytes 4 v ++ put_be16 port) ∨
  (∃ v z, domain = [] ∧ ip = Addr6 v z ∧ 0 ≤ v < 2 ^ 128 ∧
    SerializeAddr domain ip port = [AtypIPv6] ++ be_bytes 16 v ++ put_be16 port).
Proof.
  intros [Hp [[Hd Hl]|[-> Hwf]]]; unfold SerializeAddr.
  - left. rewrite (bool_decide_eq_false_2 (domain = [])) by done.
    assert (1 ≤ zlen domain) by (destruct domain; [done|rewrite zlen_cons; pose proof (zlen_nonneg domain); lia]).
    split_and!; [done..|]. cbn [negb]. unfold u8. by rewrite Z.mod_small by lia.
  - right. destruct ip as [|v|v z]; [done|left|right]; eauto 10.
Qed.

Lemma zlen_be_bytes n v : zlen (be_bytes n v) = Z.of_nat n.
Proof. unfold zlen. by rewrite be_bytes_length. Qed.

Lemma SplitAddr_Serialize domain ip port rest :
  destOK domain ip port →
  SplitAddr (SerializeAddr domain ip port ++ rest) = Some (SerializeAddr domain ip port).
Proof.
  intros Hd. unfold SplitAddr. pose proof (zlen_nonneg rest) as Hr.
  assert (∀ (a r : bytes) n, zlen a = n → (if zlen (a ++ r) <? n then None else slice (a ++ r) 0 n) = Some a) as Hs.
  { intros a r n Hn. rewrite zlen_app, Hn. pose proof (zlen_nonneg r).
    destruct (Z.ltb_spec (n + zlen r) n); [lia|]. by apply slice_app_full. }
  destruct (SerializeAddr_cases _ _ _ Hd) as [(_ & Hl & E)|[(v & _ & _ & _ & E)|(v & z & _ & _ & _ & E)]];
    pose proof (f_equal zlen E) as El; rewrite !zlen_app in El; rewrite zlen_app.
  - change (zlen [AtypDomainName; zlen domain]) with 2 in El. change (zlen (put_be16 port)) with 2 in El.
    destruct (Z.ltb_spec (zlen (SerializeAddr domain ip port) + zlen rest) 1); [lia|].
    replace (byteAt (_ ++ rest) 0) with AtypDomainName by (by rewrite E).
    replace (byteAt (_ ++ rest) 1) with (zlen domain) by (by rewrite E).
    cbn [Z.eqb Pos.eqb AtypDomainName].
    destruct (Z.ltb_spec (zlen (SerializeAddr domain ip port) + zlen rest) 2); [lia|].
    cbn [mbind option_bind]. rewrite <- zlen_app. apply Hs. lia.
  - rewrite zlen_be_bytes in El. change (zlen (put_be16 port)) with 2 in El. change (zlen [AtypIPv4]) with 1 in El.
    destruct (Z.ltb_spec (zlen (SerializeAddr domain ip port) + zlen rest) 1); [lia|].
    replace (byteAt (_ ++ rest) 0) with AtypIPv4 by (by rewrite E).
    cbn [Z.eqb Pos.eqb AtypDomainName AtypIPv4 mbind option_bind]. rewrite <- zlen_app. apply Hs.
    unfold IPv4len. lia.
  - rewrite zlen_be_bytes in El. change (zlen (put_be16 port)) with 2 in El. change (zlen [AtypIPv6]) with 1 in El.
    destruct (Z.ltb_spec (zlen (SerializeAddr domain ip port) + zlen rest) 1); [lia|].
    replace (byteAt (_ ++ rest) 0) with AtypIPv6 by (by rewrite E).
    cbn [Z.eqb Pos.eqb AtypDomainName AtypIPv4 AtypIPv6 mbind option_bind]. rewrite <- zlen_app. apply Hs.
    unfold IPv6len. lia.
Qed.

Lemma ReadAddr_Serialize domain ip port rest out f :
  destOK domain ip port →
  ReadAddr MaxAddrLen (mkStream (SerializeAddr domain ip port ++ rest) out f) =
    (Ok (SerializeAddr domain ip port), mkStream rest out f).
Proof.
  intros Hd. unfold ReadAddr. change (MaxAddrLen <? MaxAddrLen) with false. cbv iota.
  assert (∀ b n, zlen b = n → zlen (b ++ put_be16 port) = n + 2) as Hl2 by (intros b n <-; by rewrite zlen_app).
  destruct (SerializeAddr_cases _ _ _ Hd) as [(_ & Hl & ->)|[(v & _ & _ & _ & ->)|(v & z & _ & _ & _ & ->)]].
  - change (([AtypDomainName; zlen domain] ++ domain ++ put_be16 port) ++ rest)
      with ([AtypDomainName] ++ [zlen domain] ++ ((domain ++ put_be16 port) ++ rest)).
    io_step; [|done].
    change (byteAt [AtypDomainName] 0 =? AtypDomainName) with true. cbv iota.
    io_step; [|done]. change (byteAt [zlen domain] 0) with (zlen domain). cbv zeta.
    io_step; [|by apply Hl2]. done.
  - change (([AtypIPv4] ++ be_bytes 4 v ++ put_be16 port) ++ rest)
      with ([AtypIPv4] ++ ((be_bytes 4 v ++ put_be16 port) ++ rest)).
    io_step; [|done]. change (byteAt [AtypIPv4] 0) with AtypIPv4. cbn [Z.eqb Pos.eqb AtypDomainName AtypIPv4].
    io_step; [|apply Hl2, zlen_be_bytes]. done.
  - change (([AtypIPv6] ++ be_bytes 16 v ++ put_be16 port) ++ rest)
      with ([AtypIPv6] ++ ((be_bytes 16 v ++ put_be16 port) ++ rest)).
    io_step; [|done]. change (byteAt [AtypIPv6] 0) with AtypIPv6.
    cbn [Z.eqb Pos.eqb AtypDomainName AtypIPv4 AtypIPv6].
    io_step; [|apply Hl2, zlen_be_bytes]. done.
Qed.

Lemma itoa_port port : 0 ≤ port < 65536 → parse_uint 16 (itoa port) = Some port ∧ Forall (λ c, 48 ≤ c ≤ 57) (itoa port).
Proof.
  intros Hp. destruct (itoa_digits port ltac:(lia)) as (Hd & Hv & Hne). unfold parse_uint.
  rewrite bool_decide_eq_false_2, Hd, Hv by done. cbn [negb orb].
  destruct (Z.ltb_spec port (2 ^ 16)); [|lia]. split; [done|].
  rewrite forallb_forall in Hd. apply Forall_forall. intros c Hc%list_elem_of_In. specialize (Hd c Hc).
  unfold is_digit in Hd. bool_to_prop. lia.
Qed.

Lemma AddrText_Serialize domain ip port :
  destOK domain ip port →
  Valid (SerializeAddr domain ip port) = true ∧
  AddrText (SerializeAddr domain ip port) = JoinHostPort (destHost domain ip) (itoa port).
Proof.
  intros Hd. pose proof (proj1 Hd) as Hp.
  assert (Valid (SerializeAddr domain ip port) = true) as HV.
  { unfold Valid.
    destruct (SerializeAddr_cases _ _ _ Hd) as [(_ & Hl & ->)|[(v & _ & _ & _ & ->)|(v & z & _ & _ & _ & ->)]];
      rewrite !zlen_app, ?zlen_be_bytes; [|done..].
    change (zlen [AtypDomainName; zlen domain]) with 2. change (zlen (put_be16 port)) with 2.
    destruct (Z.ltb_spec (2 + (zlen domain + 2)) (1 + 1 + 2)); [lia|].
    change (byteAt _ 0) with AtypDomainName. change (byteAt _ 1) with (zlen domain).
    cbn [Z.eqb Pos.eqb AtypDomainName]. rewrite negb_true_iff. apply Z.ltb_ge. lia. }
  split; [done|]. unfold AddrText. rewrite HV. cbn [negb]. unfold destHost.
  assert (∀ l m, uint16At (l ++ m ++ put_be16 port) (zlen l + zlen m) = port) as Hu.
  { intros l m. rewrite app_assoc, <- zlen_app, uint16At_app. rewrite <- (app_nil_r (put_be16 port)).
    by apply uint16At_put. }
  destruct (SerializeAddr_cases _ _ _ Hd) as
    [(Hne & Hl & ->)|[(v & -> & -> & _ & ->)|(v & z & -> & -> & _ & ->)]].
  - change (byteAt _ 0) with AtypDomainName. change (byteAt _ 1) with (zlen domain).
    cbn [Z.eqb Pos.eqb AtypDomainName]. cbv zeta.
    pose proof (sub_app [AtypDomainName; zlen domain] domain (put_be16 port)) as Es.
    pose proof (Hu [AtypDomainName; zlen domain] domain) as Ep.
    change (zlen [AtypDomainName; zlen domain]) with 2 in Es, Ep. rewrite Es, Ep.
    by rewrite bool_decide_eq_false_2.
  - change (byteAt _ 0) with AtypIPv4. cbn [Z.eqb Pos.eqb AtypDomainName AtypIPv4].
    pose proof (sub_app [AtypIPv4] (be_bytes 4 v) (put_be16 port)) as Es.
    pose proof (Hu [AtypIPv4] (be_bytes 4 v)) as Ep. rewrite zlen_be_bytes in Es, Ep.
    change (zlen [AtypIPv4]) with 1 in Es, Ep. change (Z.of_nat 4) with 4 in Es, Ep. unfold IPv4len. by rewrite Es, Ep.
  - change (byteAt _ 0) with AtypIPv6. cbn [Z.eqb Pos.eqb AtypDomainName AtypIPv4 AtypIPv6].
    pose proof (sub_app [AtypIPv6] (be_bytes 16 v) (put_be16 port)) as Es.
    pose proof (Hu [AtypIPv6] (be_bytes 16 v)) as Ep. rewrite zlen_be_bytes in Es, Ep.
    change (zlen [AtypIPv6]) with 1 in Es, Ep. change (Z.of_nat 16) with 16 in Es, Ep. unfold IPv6len. by rewrite Es, Ep.
Qed.

(** The text of an address from its bytes. *)
Lemma IPString_AsSlice ip :
  addr_wf ip → has_zone ip = false → Is4In6 ip = false → IPString (AsSlice ip) = AddrString ip.
Proof.
  intros Hwf Hz H46. destruct ip as [|v|v z]; [done| |]; unfold addr_wf in Hwf; unfold AsSlice, IPString, To4.
  - rewrite zlen_be_bytes. change (Z.of_nat 4 =? 4) with true. cbv iota. unfold AddrFrom4.
    by rewrite be_value_bytes_small.
  - rewrite zlen_be_bytes. change (Z.of_nat 16 =? 4) with false. change (Z.of_nat 16 =? 16) with true. cbn [andb].
    rewrite bool_decide_eq_false_2.
    + unfold AddrFrom16. rewrite be_value_bytes_small by done. f_equal.
      unfold has_zone in Hz. apply negb_false_iff, bool_decide_eq_true in Hz as ->. done.
    + intros E. pose proof (take_drop 12 (be_bytes 16 v)) as Et. rewrite E in Et.
      apply (f_equal be_value) in Et. rewrite be_value_app, be_value_bytes_small in Et by done.
      assert (wf_bytes (drop 12 (be_bytes 16 v))) as Hb by (apply Forall_drop, be_bytes_wf).
      apply be_value_range in Hb.
      assert (zlen (drop 12 (be_bytes 16 v)) = 4) as El by (unfold zlen; by rewrite length_drop, be_bytes_length).
      rewrite El in *. change (be_value (replicate 10 0 ++ [255; 255])) with 65535 in Et.
      unfold Is4In6 in H46. apply Z.eqb_neq in H46. apply H46.
      rewrite Z.shiftr_div_pow2 by lia. symmetry. apply (Z.div_unique _ _ _ (be_value (drop 12 (be_bytes 16 v)))); lia.
Qed.

Lemma plain_not_bracket (s : gostring) :
  Forall (λ c, is_hex c = true ∨ c = 58 ∨ c = 46) s → 91 ∉ s ∧ 93 ∉ s.
Proof.
  rewrite Forall_forall. intros Hs. split; intros H%Hs; destruct H as [H|[H|H]]; done.
Qed.

Lemma AddrString_no_bracket ip :
  has_zone ip = false → Is4In6 ip = false → 91 ∉ AddrString ip ∧ 93 ∉ AddrString ip.
Proof.
  intros Hz H46. assert (∀ s, forallb hex_colon s = true → Forall (λ c, is_hex c = true ∨ c = 58 ∨ c = 46) s) as Hhc.
  { intros s Hs. rewrite forallb_forall in Hs. apply Forall_forall. intros c Hc%list_elem_of_In.
    specialize (Hs c Hc). apply orb_prop in Hs as [Hs|Hs%Z.eqb_eq]; auto. }
  destruct ip as [|v|v z]; [by vm_compute; split; set_solver| |]; apply plain_not_bracket.
  - cbn [AddrString]. destruct (string4_octets v) as (a&b&c&d&_&Hwf&->).
    unfold wf_bytes, is_byte in Hwf. rewrite !Forall_cons in Hwf. destruct Hwf as (Ha&Hb&Hc&Hd&_).
    assert (∀ x, 0 ≤ x < 256 → Forall (λ c, is_hex c = true ∨ c = 58 ∨ c = 46) (itoa x)) as Hi.
    { intros x Hx. apply Hhc, forallb_hex_colon, itoa_octet_hex, Hx. }
    assert (∀ l, Forall (λ c, is_hex c = true ∨ c = 58 ∨ c = 46) l →
      Forall (λ c, is_hex c = true ∨ c = 58 ∨ c = 46) (46 :: l)) as Hdot by (intros; constructor; auto).
    repeat first [apply Forall_app; split | apply Hdot | by apply Hi].
  - unfold has_zone in Hz. apply negb_false_iff, bool_decide_eq_true in Hz as ->.
    unfold AddrString. rewrite H46. unfold string6. rewrite (bool_decide_eq_true_2 (([] : gostring) = [])) by done.
    rewrite app_nil_r. pose proof (be_groups_range 8 v) as Hr. cbv zeta.
    destruct (longest_zero_run (be_groups 8 v)) as [[x y]|].
    + apply Forall_app. split; [by apply Hhc, groups_text_hex_colon, Forall_take|].
      apply Forall_app. split; [repeat constructor; by right; left|].
      by apply Hhc, groups_text_hex_colon, Forall_drop.
    + by apply Hhc, groups_text_hex_colon.
Qed.

(** C29: addresses survive the wire.  Whatever follows it, a serialized
    destination is cut off and read back whole, from a datagram or from a
    stream; its text is the host and the port; and for an address that has a
    text of its own (neither mapped nor zoned) parsing that text gives the same
    bytes again. *)
Theorem socks_address_roundtrip (domain : gostring) (ip : Addr) (port : Z) (rest : bytes) (out : list bytes) f :
  destOK domain ip port →
  let a := SerializeAddr domain ip port in
  ReadAddr MaxAddrLen (mkStream (a ++ rest) out f) = (Ok a, mkStream rest out f) ∧
  SplitAddr (a ++ rest) = Some a ∧
  (∃ packet, EncodeUDPPacket (Some a) rest = Ok packet ∧ DecodeUDPPacket packet = (Some a, rest, None)) ∧
  AddrText a = JoinHostPort (destHost domain ip) (itoa port) ∧
  (domain = [] → has_zone ip = false → Is4In6 ip = false → ParseAddrString (AddrText a) = Some a).
Proof.
  intros Hd a. pose proof (proj1 Hd) as Hp.
  split; [by apply ReadAddr_Serialize|]. split; [by apply SplitAddr_Serialize|].
  destruct (AddrText_Serialize _ _ _ Hd) as [HV HT]. fold a in HV, HT.
  assert (4 ≤ zlen a) as Ha.
  { clear -HV. unfold Valid in HV. destruct (Z.ltb_spec (zlen a) (1 + 1 + 2)); [done|lia]. }
  split_and!; [|done|].
  - eexists. split; [reflexivity|]. unfold DecodeUDPPacket.
    rewrite !zlen_app. change (zlen [0; 0; 0]) with 3. pose proof (zlen_nonneg rest).
    destruct (Z.ltb_spec (3 + (zlen a + zlen rest)) 5); [lia|].
    change (sub ([0; 0; 0] ++ a ++ rest) 0 2) with (sub ([0; 0] ++ [0] ++ a ++ rest) (zlen (@nil Z)) 2).
    pose proof (sub_app [] [0; 0] ([0] ++ a ++ rest)) as Es. cbn [app zlen length] in Es.
    change (zlen (@nil Z) + zlen [0; 0]) with 2 in Es. cbn [app]. rewrite Es.
    rewrite bool_decide_eq_true_2 by done. change (byteAt _ 2) with 0. cbn [negb Z.eqb drop].
    rewrite drop_0. unfold a at 1. rewrite SplitAddr_Serialize by done. fold a.
    change (drop (3 + length a) _) with (drop (length a) (a ++ rest)). by rewrite drop_app_length.
  - intros -> Hz H46. rewrite HT. unfold destHost. rewrite bool_decide_eq_true_2 by done.
    assert (addr_wf ip) as Hwf by (by destruct Hd as [_ [[? _]|[_ ?]]]).
    assert (IPString (AsSlice ip) = AddrString ip) as ->.
    { by apply IPString_AsSlice. }
    unfold ParseAddrString. destruct (itoa_port port Hp) as [Eport Hdig].
    assert (∀ c, c < 48 ∨ 57 < c → c ∉ itoa port) as Hno.
    { intros c Hc Hin. rewrite Forall_forall in Hdig. specialize (Hdig _ Hin). lia. }
    rewrite SplitHostPort_Join; [|by apply AddrString_no_bracket|by apply AddrString_no_bracket|apply Hno; lia..].
    rewrite Eport. cbn [mbind option_bind]. rewrite ParseAddr_AddrString by done.
    by destruct ip.
Qed.

Lemma socks_address_roundtrip_witness :
  destOK (lit "example.org") AddrInvalid 443 ∧ destOK [] (Addr4 3221225985) 53 ∧
  SplitAddr (SerializeAddr (lit "example.org") AddrInvalid 443 ++ [1; 2]) =
    Some (SerializeAddr (lit "example.org") AddrInvalid 443) ∧
  ParseAddrString "192.0.2.1:53" = Some (SerializeAddr [] (Addr4 3221225985) 53).
Proof.
  assert (destOK (lit "example.org") AddrInvalid 443) as H1.
  { split; [lia|]. left. split; [done|]. vm_compute. discriminate. }
  assert (destOK [] (Addr4 3221225985) 53) as H2.
  { split; [lia|]. right. split; [done|]. cbn. lia. }
  split; [exact H1|]. split; [exact H2|].
  destruct (socks_address_roundtrip _ _ _ [1; 2] [] (λ _, None) H1) as (_ & E1 & _).
  destruct (socks_address_roundtrip _ _ _ [] [] (λ _, None) H2) as (_ & _ & _ & Et & Ep).
  split; [exact E1|]. exact (Ep eq_refl eq_refl eq_refl).
Defined.
