(* ===== verification/Socks4.v ===== *)
(** * The SOCKS4 and SOCKS4A client (tun2socks/transport/socks4/socks4.go)

    The handshake over a byte stream: the request of the client and what it
    makes of the reply.  A server's reading of the request is the reference it is
    compared with. *)

From S2P Require Import Prelude Errors Netip AddrTrie Pattern Stream Socks5.
Local Open Scope Z_scope.

Module SOCKS4.

Definition Version : Z := 4.
Definition CmdConnect : Z := 1.
Definition CmdBind : Z := 2.

Definition RequestGranted : Z := 90.
Definition RequestRejected : Z := 91.
Definition RequestIdentdFailed : Z := 92.
Definition RequestIdentdMismatched : Z := 93.

Definition errVersionMismatched : error := errorString "version code mismatched".
Definition errIPv6NotSupported : error := errorString "IPv6 not supported".
Definition errCmdNotSupported : error := errorString "command not supported".
Definition ErrRequestRejected : error := errorString "request rejected or failed".
Definition ErrRequestIdentdFailed : error :=
  errorString "request rejected because SOCKS server cannot connect to identd on the client".
Definition ErrRequestIdentdMismatched : error :=
  errorString "request rejected because the client program and identd report different user-ids".
Definition ErrRequestUnknownCode : error := errorString "request failed with unknown code".

Definition IsUnspecified (ip : Addr) : bool := bool_decide (ip = Addr4 0) || bool_decide (ip = Addr6 0 []).

Definition isReservedIP (ip : Addr) : bool := negb (IsUnspecified ip) && Contains (mkPrefix (Addr4 0) 24) ip.

Definition splitHostPort (addr : gostring) : res (gostring * Z) :=
  '(host, portStr) ← SplitHostPort addr;
  match parse_uint 16 portStr with
  | Some port => Ok (host, port)
  | None => Err (errorString ("parsing " ++ portStr ++ ": invalid syntax"))
  end.

(** The address the request carries: a placeholder for a host name. *)
Definition requestIP (host : gostring) : res Addr :=
  let ip := default AddrInvalid (ParseAddr host) in
  if negb (IsValid ip) then Ok (Addr4 1)
  else if Is4In6 ip then Ok (AddrFrom4 (As4 ip))
  else if Is4 ip then Ok ip
  else Err errIPv6NotSupported.

Definition requestBytes (command port : Z) (ip : Addr) (userID host : gostring) : bytes :=
  [Version; command] ++ put_be16 port ++ AsSlice ip ++ userID ++ [0] ++
  (if isReservedIP ip then host ++ [0] else []).

(** What the second byte of the reply means. *)
Definition replyError (code : Z) : option error :=
  if code =? RequestGranted then None
  else if code =? RequestRejected then Some ErrRequestRejected
  else if code =? RequestIdentdFailed then Some ErrRequestIdentdFailed
  else if code =? RequestIdentdMismatched then Some ErrRequestIdentdMismatched
  else Some ErrRequestUnknownCode.

Definition ClientHandshake (addr : gostring) (command : Z) (userID : gostring) : ioM unit :=
  if command =? CmdBind then liftIO (Err errCmdNotSupported) else
  '(host, port) ← liftIO (splitHostPort addr);
  ip ← liftIO (requestIP host);
  send (requestBytes command port ip userID host);;
  resp ← readFull 8;
  if negb (byteAt resp 0 =? 0) then liftIO (Err errVersionMismatched)
  else match replyError (byteAt resp 1) with
       | None => mret tt
       | Some e => liftIO (Err e)
       end.

(** ** A server's reading of a request *)

(** A field that ends with a zero byte. *)
Fixpoint zeroField (s : bytes) : option (bytes * bytes) :=
  match s with
  | [] => None
  | c :: s' => if c =? 0 then Some ([], s') else '(f, rest) ← zeroField s'; Some (c :: f, rest)
  end.

Record serverRequest := mkServerRequest {
  srCommand : Z;
  srPort : Z;
  srIP : Z;
  srUser : gostring;
  (** the host of SOCKS4A, for an address 0.0.0.x with x not zero *)
  srHost : option gostring;
}.

Definition serverRead (b : bytes) : option (serverRequest * bytes) :=
  match b with
  | 4 :: cmd :: p1 :: p0 :: a :: b :: c :: d :: rest =>
      '(user, rest) ← zeroField rest;
      let ip := be_value [a; b; c; d] in
      if (0 <? ip) && (ip <? 256) then
        '(host, rest) ← zeroField rest; Some (mkServerRequest cmd (be16 p1 p0) ip user (Some host), rest)
      else Some (mkServerRequest cmd (be16 p1 p0) ip user None, rest)
  | _ => None
  end.

Lemma zeroField_app f rest : 0 ∉ f → zeroField (f ++ 0 :: rest) = Some (f, rest).
Proof.
  induction f as [|c f IH]; intros Hf; [done|]. cbn. apply not_elem_of_cons in Hf as [Hc Hf].
  destruct (Z.eqb_spec c 0); [by subst|]. by rewrite IH.
Qed.

Lemma reserved_range v : 0 ≤ v < 2 ^ 32 → isReservedIP (Addr4 v) = (0 <? v) && (v <? 256).
Proof.
  intros Hv. unfold isReservedIP, IsUnspecified, Contains. cbn [PAddr PBits BitLen addr_value has_zone negb andb].
  rewrite (bool_decide_eq_false_2 (Addr4 v = Addr6 0 [])) by done. rewrite orb_false_r.
  change (0 <? 32) with true. change (32 =? 32) with true. cbn [andb]. rewrite Z.lxor_0_r, Z.shiftr_div_pow2 by lia.
  change (2 ^ (32 - 24)) with 256. case_bool_decide as E.
  - injection E as ->. done.
  - assert (v ≠ 0) as Hne by congruence. cbn [negb andb]. destruct (Z.ltb_spec 0 v); [|lia]. cbn [andb].
    destruct (Z.ltb_spec v 256); [rewrite Z.div_small by lia; done|].
    apply Z.eqb_neq. assert (256 / 256 ≤ v / 256) by (apply Z.div_le_mono; lia). change (256 / 256) with 1 in *. lia.
Qed.

Lemma requestIP_v4 host ip : requestIP host = Ok ip → ∃ v, ip = Addr4 v ∧ 0 ≤ v < 2 ^ 32.
Proof.
  unfold requestIP. destruct (ParseAddr host) as [a|] eqn:E; cbn [default IsValid negb]; [|intros [= <-]; exists 1; split; [done|lia]].
  apply ParseAddr_wf in E. destruct a as [|v|v z]; cbn [IsValid negb id].
  - intros [= <-]. exists 1. split; [done|lia].
  - intros [= <-]. by exists v.
  - destruct (Is4In6 (Addr6 v z)); [|done]. intros [= <-]. eexists. split; [reflexivity|].
    pose proof (be_value_range (As4 (Addr6 v z))) as Hr. unfold As4 in *. specialize (Hr (be_bytes_wf _ _)).
    unfold zlen in Hr. rewrite be_bytes_length in Hr. exact Hr.
Qed.

(** The outcome of a handshake whose reply is [resp]. *)
Definition outcome (resp : bytes) : res unit :=
  if negb (byteAt resp 0 =? 0) then Err errVersionMismatched
  else match replyError (byteAt resp 1) with None => Ok tt | Some e => Err e end.

Lemma ClientHandshake_sends host port userID ip resp rest :
  0 ≤ port < 65536 → 91 ∉ host → 93 ∉ host → requestIP host = Ok ip → zlen resp = 8 →
  ClientHandshake (JoinHostPort host (itoa port)) CmdConnect userID (quietStream (resp ++ rest) []) =
    (outcome resp, quietStream rest [requestBytes CmdConnect port ip userID host]).
Proof.
  intros Hp H1 H2 Hip Hr. destruct (itoa_port port Hp) as [Eport Hdig].
  assert (∀ c, c < 48 ∨ 57 < c → c ∉ itoa port) as Hno.
  { intros c Hc Hin. rewrite Forall_forall in Hdig. specialize (Hdig _ Hin). lia. }
  unfold ClientHandshake. change (CmdConnect =? CmdBind) with false. cbv iota.
  assert (splitHostPort (JoinHostPort host (itoa port)) = Ok (host, port)) as Es.
  { unfold splitHostPort. rewrite SplitHostPort_Join by (done || apply Hno; lia). cbn. by rewrite Eport. }
  rewrite Es. erewrite ioM_bind_Ok; [|reflexivity]. cbv beta iota. rewrite Hip. erewrite ioM_bind_Ok; [|reflexivity].
  erewrite ioM_bind_Ok; [|apply send_quiet]. cbn [app]. unfold quietStream.
  erewrite ioM_bind_Ok; [|by apply readFull_app]. unfold outcome.
  destruct (negb _); [done|]. by destruct (replyError _).
Qed.

(** The request reaches a server as it was meant: whatever follows it, the
    server reads the command, the port, the user and the destination, which is
    the address of the host, or the host itself when it is not an address; and
    the outcome of the handshake is what the eight bytes of the reply say. *)
Theorem socks4_handshake_agrees host port userID ip resp rest data :
  0 ≤ port < 65536 → 91 ∉ host → 93 ∉ host → 0 ∉ host → 0 ∉ userID → requestIP host = Ok ip → zlen resp = 8 →
  ∃ req, ClientHandshake (JoinHostPort host (itoa port)) CmdConnect userID (quietStream (resp ++ rest) []) =
      (outcome resp, quietStream rest [req]) ∧
    serverRead (req ++ data) =
      Some (mkServerRequest CmdConnect port (addr_value ip) userID (if isReservedIP ip then Some host else None), data) ∧
    (ParseAddr host = None → isReservedIP ip = true).
Proof.
  intros Hp H1 H2 H3 H4 Hip Hr. eexists. split; [by apply ClientHandshake_sends|]. split.
  - destruct (requestIP_v4 host ip Hip) as (v & -> & Hv). unfold requestBytes. rewrite reserved_range by done.
    change (AsSlice (Addr4 v)) with (be_bytes 4 v). pose proof (be_value_bytes_small 4 v Hv) as Hbe.
    pose proof (be_bytes_length 4 v) as Hlen. destruct (be_bytes 4 v) as [|a [|b [|c [|d [|]]]]]; try done.
    unfold serverRead, put_be16. cbn [app]. rewrite <- !app_assoc. cbn [app]. rewrite zeroField_app by done.
    cbn [mbind option_bind]. rewrite Hbe, be16_put by done. cbn [addr_value].
    destruct ((0 <? v) && (v <? 256)); [|done]. rewrite <- !app_assoc. cbn [app]. by rewrite zeroField_app.
  - intros Hn. unfold requestIP in Hip. rewrite Hn in Hip. by injection Hip as <-.
Qed.

Lemma socks4_handshake_agrees_witness :
  ∃ req, ClientHandshake "example.org:443" CmdConnect "me" (quietStream ([0; 90; 0; 0; 0; 0; 0; 0] ++ lit "hi") []) =
      (Ok tt, quietStream "hi" [req]) ∧
    serverRead (req ++ []) = Some (mkServerRequest 1 443 1 "me" (Some (lit "example.org")), []).
Proof.
  destruct (socks4_handshake_agrees "example.org" 443 "me" (Addr4 1) [0; 90; 0; 0; 0; 0; 0; 0] "hi" [])
    as (req & E & Es & _).
  - lia.
  - by_decide.
  - by_decide.
  - by_decide.
  - by_decide.
  - reflexivity.
  - reflexivity.
  - exists req. split; [exact E|exact Es].
Defined.

(** Zero bytes in a host or a user name are not refused: the server reads a
    shorter field, and takes the rest for data of the connection. *)
Example socks4_zero_byte :
  serverRead (requestBytes CmdConnect 80 (Addr4 1) "me" (lit "a.example" ++ [0] ++ lit "GET /")) =
    Some (mkServerRequest 1 80 1 "me" (Some (lit "a.example")), lit "GET /" ++ [0]) ∧
  requestIP "::1" = Err errIPv6NotSupported ∧ requestIP "::ffff:1.2.3.4" = Ok (Addr4 0x01020304).
Proof. vm_compute. split_and!; reflexivity. Qed.
End SOCKS4.
