(* ===== verification/Socks5Server.v ===== *)
(** * The SOCKS5 front end (core/socks5.go)

    [socks5Handler] serves one client: it reads the request, asks [genPolicy]
    for a target and a policy, dials unless the policy replies first, and hands
    the connection to [handleTunnel].  Dialling is a parameter.  Log output is
    left out. *)

From S2P Require Import Prelude Errors Netip AddrTrie Pattern FakeIP Policy Routing Conn Stream Socks5 Session.
Local Open Scope Z_scope.

Definition noAuthReply : bytes := [5; 0].
Definition socks5ReplySuccess : bytes := [5; 0; 0; 1; 0; 0; 0; 0; 0; 0].
Definition socks5ReplyServerFailure : bytes := [5; 1; 0; 1; 0; 0; 0; 0; 0; 0].
Definition socks5ReplyConnNotAllowed : bytes := [5; 2; 0; 1; 0; 0; 0; 0; 0; 0].
Definition socks5ReplyCmdNotSupported : bytes := [5; 7; 0; 1; 0; 0; 0; 0; 0; 0].
Definition socks5ReplyAtypNotSupported : bytes := [5; 8; 0; 1; 0; 0; 0; 0; 0; 0].

(** The connection id of the next accepted client ([SOCKS5Accept]). *)
Definition nextConnID (connID : Z) : Z :=
  let connID := u32 (connID + 1) in
  if maxConnID <? connID then 1 else connID.

(** The address a front end listens on: the flag, else the configuration; an
    empty address and ["none"] start nothing. *)
Definition listenAddress (addr serverAddr : gostring) : option gostring :=
  let listenAddr := if bool_decide (addr = []) then serverAddr else addr in
  if bool_decide (listenAddr = []) then None
  else if bool_decide (listenAddr = lit "none") then None
  else Some listenAddr.

(** What [Accept] returns: a client, or an error, with whether [stop] is closed
    by then and whether the error is temporary. *)
Inductive acceptEvent :=
| Accepted
| AcceptFailed (stopped temporary : bool).

Inductive acceptEnd := AcceptStopped | AcceptFatal | Accepting.

(** The loop of [SOCKS5Accept] on a listener whose [Accept] calls return
    [events]: the ids of the handlers it starts, and how it ended, if it did. *)
Fixpoint acceptLoop (connID : Z) (events : list acceptEvent) : list Z * acceptEnd :=
  match events with
  | [] => ([], Accepting)
  | Accepted :: events' =>
      let connID := nextConnID connID in
      let '(ids, e) := acceptLoop connID events' in (connID :: ids, e)
  | AcceptFailed stopped temporary :: events' =>
      if stopped : bool then ([], AcceptStopped)
      else if temporary : bool then acceptLoop connID events'
      else ([], AcceptFatal)
  end.

Definition SOCKS5Accept (addr serverAddr : gostring) (listen : gostring → res unit) (events : list acceptEvent)
    : option (list Z * acceptEnd) :=
  match listenAddress addr serverAddr with
  | None => None
  | Some listenAddr =>
      match listen listenAddr with
      | Ok _ => Some (acceptLoop 0 events)
      | _ => None
      end
  end.

(** How a handler ends: with the client closed ([dstClosed] when an upstream
    connection was closed as well), or in the tunnel. *)
Inductive handlerEnd :=
| HClosed (dstClosed : bool)
| HTunnel (policy : Policy) (dstConn : option conn) (oldTarget target originHost originPort : gostring).

(** A failed write is logged. *)
Definition sendReply (reply : bytes) : ioM bool := λ s,
  match send reply s with
  | (Ok _, s') => (Ok true, s')
  | (Err _, s') => (Ok false, s')
  | (Panic, s') => (Panic, s')
  end.

Definition refuse (reply : bytes) : ioM handlerEnd := _ ← sendReply reply; mret (HClosed false).

Section Handler.
Context `{GoUnicode}.
Context (t : Tables).
Context (getFromIPPool : gostring → res gostring).
Context (dnsResolve : gostring → DNSMode → Z → res (gostring * bool)).
(** [dial.DialTCPTimeout] *)
Context (dialTCP : gostring → Z → res conn).

(** The handler from the policy on. *)
Definition connectTarget (originHost dstHost : gostring) (policy : Policy) : ioM handlerEnd :=
  portBytes ← readFull 2;
  let dstPort := be16 (byteAt portBytes 0) (byteAt portBytes 1) in
  let originPort := itoa dstPort in
  let oldTarget := JoinHostPort originHost originPort in
  let dstPort := if negb (pPort policy =? 0) && negb (pPort policy =? unsetInt) then u16 (pPort policy)
                 else dstPort in
  let target := JoinHostPort dstHost (itoa dstPort) in
  let finish dstConn :=
    ok ← sendReply socks5ReplySuccess;
    if ok : bool then mret (HTunnel policy dstConn oldTarget target originHost originPort)
    else mret (HClosed (bool_decide (is_Some dstConn))) in
  if negb (IsTrue (pReplyFirst policy)) then
    match dialTCP target (pConnectTimeout policy) with
    | Ok c => finish (Some c)
    | Err _ => refuse socks5ReplyServerFailure
    | Panic => liftIO Panic
    end
  else finish None.

Definition routeRequest (originHost : gostring) (isIP : bool) : ioM handlerEnd :=
  match genPolicy t getFromIPPool dnsResolve originHost isIP false with
  | GenFailed => refuse socks5ReplyServerFailure
  | GenBlocked => refuse socks5ReplyConnNotAllowed
  | GenOK dstHost policy => connectTarget originHost dstHost policy
  | GenNotFound => _ ← readFull 2; liftIO Panic
  end.

(** The handler as the code runs it; an error it only logs is [Err], and closes
    the client. *)
Definition serveClient : ioM handlerEnd :=
  header ← readFull 2;
  if negb (byteAt header 0 =? 5) then mret (HClosed false) else
  methods ← readFull (byteAt header 1);
  if negb (bool_decide (0 ∈ methods)) then mret (HClosed false) else
  send noAuthReply;;
  header ← readFull 4;
  if negb (byteAt header 0 =? 5) then mret (HClosed false)
  else if negb (byteAt header 1 =? 1) then refuse socks5ReplyCmdNotSupported
  else if byteAt header 3 =? 1 then
    ipBytes ← readFull 4; routeRequest (IPString ipBytes) true
  else if byteAt header 3 =? 4 then
    ipBytes ← readFull 16; routeRequest (IPString ipBytes) true
  else if byteAt header 3 =? 3 then
    lenByte ← readFull 1;
    if 253 <? byteAt lenByte 0 then mret (HClosed false) else
    domainBytes ← readFull (byteAt lenByte 0); routeRequest domainBytes false
  else refuse socks5ReplyAtypNotSupported.

Definition socks5Handler (s : stream) : option handlerEnd * stream :=
  match serveClient s with
  | (Ok e, s') => (Some e, s')
  | (Err _, s') => (Some (HClosed false), s')
  | (Panic, s') => (None, s')
  end.
End Handler.

(** ** Client and server agree *)

Section Agree.
Context `{GoUnicode}.
Context (t : Tables).
Context (getFromIPPool : gostring → res gostring).
Context (dnsResolve : gostring → DNSMode → Z → res (gostring * bool)).
Context (dialTCP : gostring → Z → res conn).

Abbreviation route := (genPolicy t getFromIPPool dnsResolve).
Abbreviation serve := (socks5Handler t getFromIPPool dnsResolve dialTCP).

(** The port the server dials. *)
Definition dialPort (policy : Policy) (port : Z) : Z :=
  if negb (pPort policy =? 0) && negb (pPort policy =? unsetInt) then u16 (pPort policy) else port.

(** What a handler does once the request is read: the upstream connection, or
    [None] when it could not be made. *)
Definition upstream (policy : Policy) (target : gostring) : option (option conn) :=
  if IsTrue (pReplyFirst policy) then Some None
  else match dialTCP target (pConnectTimeout policy) with
       | Ok c => Some (Some c)
       | _ => None
       end.

(** The end of a handler for a well-formed request, with the reply it sends and
    the input it leaves. *)
Definition expectedEnd (host : gostring) (isIP : bool) (port : Z) (data : bytes) : handlerEnd * bytes * bytes :=
  match route host isIP false with
  | GenFailed | GenNotFound => (HClosed false, socks5ReplyServerFailure, put_be16 port ++ data)
  | GenBlocked => (HClosed false, socks5ReplyConnNotAllowed, put_be16 port ++ data)
  | GenOK dstHost policy =>
      let target := JoinHostPort dstHost (itoa (dialPort policy port)) in
      match upstream policy target with
      | Some dst =>
          (HTunnel policy dst (JoinHostPort host (itoa port)) target host (itoa port), socks5ReplySuccess, data)
      | None => (HClosed false, socks5ReplyServerFailure, data)
      end
  end.

Lemma genPolicy_found host isIP : route host isIP false ≠ GenNotFound.
Proof.
  unfold genPolicy. destruct (isIP || isIPText host).
  - unfold genPolicyIP. destruct (ipRedirect _ _ _) as [[]| |]; try done. by case_bool_decide.
  - unfold genPolicyDomain. case_bool_decide; [done|]. cbv zeta.
    destruct (selectHost _ _ _) as [[selected noRedirect] resolveOrigin]. rewrite andb_false_r.
    destruct (if resolveOrigin then _ else _) as [ip| |]; try done.
    destruct (if bool_decide (ip = []) then _ else _) as [dst| |]; try done.
    unfold finishDomain. destruct noRedirect; [done|].
    destruct (ipRedirect _ _ dst) as [[d [q|]]| |]; try done. by case_bool_decide.
Qed.

Hypothesis dial_no_panic : ∀ target timeout, dialTCP target timeout ≠ Panic.

Lemma sendReply_quiet reply inp out :
  sendReply reply (quietStream inp out) = (Ok true, quietStream inp (out ++ [reply])).
Proof. done. Qed.

Lemma routeRequest_spec host isIP port data out :
  0 ≤ port < 65536 →
  let '(e, reply, rest) := expectedEnd host isIP port data in
  routeRequest t getFromIPPool dnsResolve dialTCP host isIP (quietStream (put_be16 port ++ data) out) =
    (Ok e, quietStream rest (out ++ [reply])).
Proof.
  intros Hp. unfold expectedEnd, routeRequest. pose proof (genPolicy_found host isIP) as Hf.
  destruct (route host isIP false) as [dstHost policy| | |]; [|done..].
  unfold connectTarget, quietStream. erewrite ioM_bind_Ok; [|by apply readFull_app]. cbv zeta.
  change (be16 (byteAt (put_be16 port) 0) (byteAt (put_be16 port) 1)) with
    (be16 (u8 (Z.shiftr port 8)) (u8 port)). rewrite be16_put by lia.
  fold (dialPort policy port). unfold upstream. destruct (IsTrue (pReplyFirst policy)); cbn [negb].
  - by erewrite ioM_bind_Ok; [|apply sendReply_quiet].
  - pose proof (dial_no_panic (JoinHostPort dstHost (itoa (dialPort policy port))) (pConnectTimeout policy)) as Hd.
    destruct (dialTCP _ _) as [c|e|]; [|done|done]. by erewrite ioM_bind_Ok; [|apply sendReply_quiet].
Qed.

(** The server reads the client's greeting and request up to the port. *)
Lemma serveClient_request domain ip port data :
  destOK domain ip port → zlen domain ≤ 253 →
  serveClient t getFromIPPool dnsResolve dialTCP
    (quietStream ([Version; 1; MethodNoAuth] ++ ([Version; CmdConnect; 0] ++ SerializeAddr domain ip port) ++ data) []) =
  routeRequest t getFromIPPool dnsResolve dialTCP (destHost domain ip) (bool_decide (domain = []))
    (quietStream (put_be16 port ++ data) [noAuthReply]).
Proof.
  intros Hd Hlen. set (request := SerializeAddr domain ip port).
  unfold serveClient, quietStream.
  change ([Version; 1; MethodNoAuth] ++ ([Version; CmdConnect; 0] ++ request) ++ data)
    with ([5; 1] ++ [0] ++ [5; 1; 0] ++ (request ++ data)).
  erewrite ioM_bind_Ok; [|by apply readFull_app]. change (byteAt [5; 1] 0) with 5. cbn [Z.eqb Pos.eqb negb].
  erewrite ioM_bind_Ok; [|by apply readFull_app]. rewrite bool_decide_eq_true_2 by set_solver. cbn [negb].
  erewrite ioM_bind_Ok; [|apply send_quiet].
  unfold request. destruct (SerializeAddr_cases _ _ _ Hd) as
    [(Hne & Hl & ->)|[(v & -> & -> & _ & ->)|(v & z & -> & -> & _ & ->)]].
  + change ([5; 1; 0] ++ ([AtypDomainName; zlen domain] ++ domain ++ put_be16 port) ++ data)
      with ([5; 1; 0; 3] ++ [zlen domain] ++ (domain ++ put_be16 port) ++ data).
    erewrite ioM_bind_Ok; [|by apply readFull_app].
    change (byteAt [5; 1; 0; 3] 0) with 5. change (byteAt [5; 1; 0; 3] 1) with 1.
    change (byteAt [5; 1; 0; 3] 3) with 3. cbn [Z.eqb Pos.eqb negb].
    erewrite ioM_bind_Ok; [|by apply readFull_app]. change (byteAt [zlen domain] 0) with (zlen domain).
    destruct (Z.ltb_spec 253 (zlen domain)); [lia|]. rewrite <- app_assoc.
    erewrite ioM_bind_Ok; [|by apply readFull_app]. unfold destHost.
    by rewrite bool_decide_eq_false_2.
  + change ([5; 1; 0] ++ ([AtypIPv4] ++ be_bytes 4 v ++ put_be16 port) ++ data)
      with ([5; 1; 0; 1] ++ (be_bytes 4 v ++ put_be16 port) ++ data).
    erewrite ioM_bind_Ok; [|by apply readFull_app].
    change (byteAt [5; 1; 0; 1] 0) with 5. change (byteAt [5; 1; 0; 1] 1) with 1.
    change (byteAt [5; 1; 0; 1] 3) with 1. cbn [Z.eqb Pos.eqb negb]. rewrite <- app_assoc.
    by erewrite ioM_bind_Ok; [|by apply readFull_app].
  + change ([5; 1; 0] ++ ([AtypIPv6] ++ be_bytes 16 v ++ put_be16 port) ++ data)
      with ([5; 1; 0; 4] ++ (be_bytes 16 v ++ put_be16 port) ++ data).
    erewrite ioM_bind_Ok; [|by apply readFull_app].
    change (byteAt [5; 1; 0; 4] 0) with 5. change (byteAt [5; 1; 0; 4] 1) with 1.
    change (byteAt [5; 1; 0; 4] 3) with 4. cbn [Z.eqb Pos.eqb negb]. rewrite <- app_assoc.
    by erewrite ioM_bind_Ok; [|by apply readFull_app].
Qed.

(** The client completes the handshake on the server's two replies. *)
Lemma ClientHandshake_success request back :
  ClientHandshake request CmdConnect None (quietStream (noAuthReply ++ socks5ReplySuccess ++ back) []) =
    (Ok (SerializeAddr [] (Addr4 0) 0),
     quietStream back [[Version; 1; MethodNoAuth]; [Version; CmdConnect; 0] ++ request]).
Proof.
  unfold ClientHandshake. io_step. unfold quietStream at 1.
  erewrite ioM_bind_Ok; [|by apply readFull_app].
  change (byteAt noAuthReply 0 =? Version) with true. cbn [negb].
  change (byteAt noAuthReply 1 =? MethodUserPass) with false.
  change (byteAt noAuthReply 1 =? MethodNoAuth) with true. cbn [negb]. cbv iota.
  erewrite ioM_bind_Ok; [|reflexivity]. erewrite ioM_bind_Ok; [|apply send_quiet].
  change (socks5ReplySuccess ++ back) with ([5; 0; 0] ++ SerializeAddr [] (Addr4 0) 0 ++ back).
  unfold quietStream at 1. erewrite ioM_bind_Ok; [|by apply readFull_app].
  change (byteAt [5; 0; 0] 1 =? 0) with true. cbn [negb].
  apply ReadAddr_Serialize. split; [lia|]. right. split; [done|]. cbn. lia.
Qed.

(** C37: client and server speak the same protocol.  For every destination of at
    most 253 bytes, the greeting and the request that [ClientHandshake] writes
    are what [socks5Handler] reads: it routes exactly that host and port, sends
    one reply that says what came of it, and leaves the data that follows to
    the tunnel; and the bytes the handler sends for a success complete the
    client's handshake, leaving the data that follows to the caller. *)
Theorem socks5_handshake_agrees (domain : gostring) (ip : Addr) (port : Z) (data back : bytes) :
  destOK domain ip port → zlen domain ≤ 253 →
  let request := SerializeAddr domain ip port in
  ∃ greeting req,
    (let '(e, reply, rest) := expectedEnd (destHost domain ip) (bool_decide (domain = [])) port data in
     serve (quietStream (greeting ++ req ++ data) []) = (Some e, quietStream rest [noAuthReply; reply])) ∧
    ClientHandshake request CmdConnect None (quietStream (noAuthReply ++ socks5ReplySuccess ++ back) []) =
      (Ok (SerializeAddr [] (Addr4 0) 0), quietStream back [greeting; req]).
Proof.
  intros Hd Hlen request. pose proof (proj1 Hd) as Hp.
  exists [Version; 1; MethodNoAuth], ([Version; CmdConnect; 0] ++ request).
  split; [|apply ClientHandshake_success].
  pose proof (routeRequest_spec (destHost domain ip) (bool_decide (domain = [])) port data [noAuthReply] Hp) as Hr.
  destruct (expectedEnd _ _ _ _) as [[e reply] rest]. unfold socks5Handler.
  unfold request. by rewrite serveClient_request, Hr.
Qed.
End Agree.

Lemma socks5_handshake_agrees_witness :
  ∃ greeting req e,
    socks5Handler (emptyTables unsetPolicy) noPools demoDNS (λ _ _, Ok freshConn)
      (quietStream (greeting ++ req ++ lit "hello") []) =
      (Some e, quietStream (lit "hello") [noAuthReply; socks5ReplySuccess]) ∧
    ClientHandshake (SerializeAddr (lit "example.org") AddrInvalid 443) CmdConnect None
      (quietStream (noAuthReply ++ socks5ReplySuccess ++ lit "back") []) =
      (Ok (SerializeAddr [] (Addr4 0) 0), quietStream (lit "back") [greeting; req]).
Proof.
  destruct (socks5_handshake_agrees (emptyTables unsetPolicy) noPools demoDNS (λ _ _, Ok freshConn)
    ltac:(done) (lit "example.org") AddrInvalid 443 (lit "hello") (lit "back")) as (g & r & Hs & Hc).
  - split; [lia|]. left. split; [discriminate|]. vm_compute. discriminate.
  - vm_compute. discriminate.
  - exists g, r. destruct (expectedEnd _ _ _ _ _ _ _ _) as [[e reply] rest] eqn:E.
    exists e. split; [|exact Hc]. rewrite Hs.
    assert ((reply, rest) = (socks5ReplySuccess, lit "hello")) as [= -> ->]; [|reflexivity].
    apply (f_equal (λ x : handlerEnd * bytes * bytes, (x.1.2, x.2))) in E. cbn [fst snd] in E.
    rewrite <- E. vm_compute. reflexivity.
Defined.

(** ** The accept loop *)

(** Clients and passing errors, in any order. *)
Definition servable (e : acceptEvent) : bool :=
  match e with Accepted | AcceptFailed false true => true | _ => false end.

Definition countAccepted (events : list acceptEvent) : nat :=
  length (List.filter (λ e, match e with Accepted => true | _ => false end) events).

(** The id given to the client before the [k]-th. *)
Definition prevID (k : Z) : Z := if k =? 0 then 0 else idAt (k - 1).

Lemma nextConnID_idAt k : 0 ≤ k → nextConnID (prevID k) = idAt k.
Proof.
  intros Hk. unfold prevID. destruct (Z.eqb_spec k 0) as [->|Hne]; [done|].
  change (nextConnID (idAt (k - 1))) with (succID (idAt (k - 1))). rewrite succID_idAt by lia. f_equal. lia.
Qed.

Lemma acceptLoop_ids events k : 0 ≤ k → forallb servable events = true →
  acceptLoop (prevID k) events = (idAt <$> seqZ k (Z.of_nat (countAccepted events)), Accepting).
Proof.
  revert k. induction events as [|e events IH]; intros k Hk Hs; [done|].
  cbn in Hs. apply andb_true_iff in Hs as [He Hs]. destruct e as [|[] []]; try done; cbn [acceptLoop].
  - rewrite nextConnID_idAt by done.
    assert (idAt k = prevID (k + 1)) as Hn.
    { unfold prevID. destruct (Z.eqb_spec (k + 1) 0); [lia|]. f_equal. lia. }
    rewrite Hn at 1. rewrite IH by (done || lia). unfold countAccepted. cbn [List.filter length].
    rewrite Nat2Z.inj_succ. rewrite (seqZ_cons k) by lia. cbn [fmap list_fmap]. rewrite Z.pred_succ.
    by replace (Z.succ k) with (k + 1) by lia.
  - by apply IH.
Qed.

(** No passing error loses a client or ends the loop, and the clients are
    numbered in the order they come, from 1 to [maxConnID] and round again. *)
Theorem accept_numbers_clients addr serverAddr listen events a :
  listenAddress addr serverAddr = Some a → listen a = Ok tt → forallb servable events = true →
  SOCKS5Accept addr serverAddr listen events =
    Some (idAt <$> seqZ 0 (Z.of_nat (countAccepted events)), Accepting).
Proof.
  intros Ha Hl Hs. unfold SOCKS5Accept. rewrite Ha, Hl. f_equal. by apply (acceptLoop_ids events 0).
Qed.

Lemma accept_numbers_clients_witness :
  SOCKS5Accept [] "127.0.0.1:1080" (λ _, Ok tt) [Accepted; AcceptFailed false true; Accepted; Accepted] =
    Some ([1; 2; 3], Accepting).
Proof.
  rewrite (accept_numbers_clients [] "127.0.0.1:1080" (λ _, Ok tt) _ "127.0.0.1:1080") by reflexivity.
  reflexivity.
Defined.
