(* ===== verification/HttpFront.v ===== *)
(** * The HTTP front end (core/http.go)

    [httpHandler] serves one request of the HTTP proxy: a CONNECT request takes
    the connection over and enters the tunnel, any other request with an absolute
    URI is sent on with its target replaced.  What the handlers use of [net/http]
    is modelled: the response writer with its header map and status, and how the
    server finishes a response.  Dialling, taking over the connection and the
    transport are parameters.  Log output is left out. *)

From S2P Require Import Prelude Errors Netip AddrTrie Pattern FakeIP Policy Routing Conn Stream Socks5 Session Socks5Server.
Local Open Scope Z_scope.

(** ** net/http *)

(** A header: the values of each canonical name. *)
Notation header := (gmap gostring (list gostring)).

Definition headerGet (h : header) (k : gostring) : gostring :=
  match h !! k with Some (v :: _) => v | _ => [] end.

Definition headerSet (h : header) (k v : gostring) : header := <[k := [v]]> h.

Record request := mkRequest {
  rqMethod : gostring;
  rqHost : gostring;
  rqScheme : gostring;
  rqURLHost : gostring;
  (** [URL.RequestURI()] *)
  rqURI : gostring;
  rqHeader : header;
  rqBody : bytes;
}.

(** A response writer and the connection below it. *)
Record exchange := mkExchange {
  exHeader : header;
  (** informational responses already sent *)
  exInfo : list Z;
  exStatus : option Z;
  (** what the handler writes; the server leaves it out where a response has no
      body *)
  exBody : bytes;
  (** the client's connection once it is taken over *)
  exConn : stream;
}.

Abbreviation exM := (stM exchange).

Definition setHeader (f : header → header) : exM unit :=
  modifyS (λ x, mkExchange (f (exHeader x)) (exInfo x) (exStatus x) (exBody x) (exConn x)).

(** [WriteHeader]: only the first final status counts; a code that does not have
    three digits panics, and one below 200 other than 101 is informational. *)
Definition WriteHeader (code : Z) : exM unit := λ x,
  match exStatus x with
  | Some _ => (Ok tt, x)
  | None =>
      if (code <? 100) || (999 <? code) then (Panic, x)
      else if (code <=? 199) && negb (code =? 101)
      then (Ok tt, mkExchange (exHeader x) (exInfo x ++ [code]) (exStatus x) (exBody x) (exConn x))
      else (Ok tt, mkExchange (exHeader x) (exInfo x) (Some code) (exBody x) (exConn x))
  end.

(** [Write]: a status not yet written becomes 200. *)
Definition WriteBody (b : bytes) : exM unit := λ x,
  (Ok tt, mkExchange (exHeader x) (exInfo x) (Some (default 200 (exStatus x))) (exBody x ++ b) (exConn x)).

(** [http.Error] *)
Definition httpError (text : gostring) (code : Z) : exM unit :=
  setHeader (λ h, headerSet (headerSet (delete (lit "Content-Length") h)
    "Content-Type" "text/plain; charset=utf-8") "X-Content-Type-Options" "nosniff");;
  WriteHeader code;;
  WriteBody (text ++ [10]).

(** What the handlers do with the connection they have taken over. *)
Definition onClient {A} (m : ioM A) : exM A := λ x,
  let '(r, c) := m (exConn x) in
  (r, mkExchange (exHeader x) (exInfo x) (exStatus x) (exBody x) c).

(** The answer of [w.(http.Hijacker)] and [Hijack]. *)
Inductive hijackResult := NotHijacker | HijackFails (e : error) | Hijacked.

(** What the transport returns: a response whose body may break off. *)
Record upstreamResponse := mkUpstream {
  usStatus : Z;
  usHeader : header;
  usBody : bytes;
  usBodyErr : option error;
}.

(** ** The handlers *)

Definition status500 : gostring := "500 Internal Server Error".
Definition status403 : gostring := "403 Forbidden".
Definition status502 : gostring := "502 Bad Gateway".

Definition reply200 : bytes := "HTTP/1.1 200 Connection Established" ++ [13; 10; 13; 10].
Definition reply502 : bytes := "HTTP/1.1 502 Bad Gateway" ++ [13; 10; 13; 10].

(** A handler returns, leaving the rest to the server, or has taken the
    connection over. *)
Inductive httpEnd :=
| Returned
| TakenOver (e : handlerEnd).

Section Handlers.
Context (t : Tables).
Context (getFromIPPool : gostring → res gostring).
Context (dnsResolve : gostring → DNSMode → Z → res (gostring * bool)).
(** [dial.DialTCPTimeout] *)
Context (dialTCP : gostring → Z → res conn).
Context (hijack : hijackResult).
(** [RoundTrip] of a transport with the given dial timeout, if one is set. *)
Context (roundTrip : option Z → request → res upstreamResponse).

Definition refuseHTTP (text : gostring) (code : Z) : exM httpEnd := httpError text code;; mret Returned.

(** A port the policy sets replaces the request's. *)
Definition policyPort (policy : Policy) (port : gostring) : gostring :=
  if negb (pPort policy =? 0) && negb (pPort policy =? unsetInt) then itoa (pPort policy) else port.

(** [handleConnect] once the connection is taken over. *)
Definition serveConnect (policy : Policy) (oldDest dest originHost originPort : gostring) : exM httpEnd :=
  let established dstConn :=
    ok ← onClient (sendReply reply200);
    if ok : bool then mret (TakenOver (HTunnel policy dstConn oldDest dest originHost originPort))
    else mret (TakenOver (HClosed (bool_decide (is_Some dstConn)))) in
  if negb (IsTrue (pReplyFirst policy)) then
    match dialTCP dest (pConnectTimeout policy) with
    | Ok c => established (Some c)
    | Err _ => _ ← onClient (sendReply reply502); mret (TakenOver (HClosed false))
    | Panic => liftS Panic
    end
  else established None.

Definition handleConnect (req : request) : exM httpEnd :=
  let oldDest := rqHost req in
  if bool_decide (oldDest = []) then refuseHTTP [] 400 else
  match SplitHostPort oldDest with
  | Err _ => mret Returned
  | Panic => liftS Panic
  | Ok (originHost, originPort) =>
      match genPolicy t getFromIPPool dnsResolve originHost false false with
      | GenFailed => refuseHTTP status500 500
      | GenBlocked => refuseHTTP status403 403
      | GenNotFound => liftS Panic
      | GenOK dstHost policy =>
          if bool_decide (pMode policy = ModeBlock) then refuseHTTP status403 403 else
          let dest := JoinHostPort dstHost (policyPort policy originPort) in
          match hijack with
          | NotHijacker | HijackFails _ => refuseHTTP status500 500
          | Hijacked => serveConnect policy oldDest dest originHost originPort
          end
      end
  end.

(** The host and port a forwarded request asks for. *)
Definition requestTarget (host scheme : gostring) : gostring * gostring :=
  match SplitHostPort host with
  | Ok hp => hp
  | _ => (host, if bool_decide (scheme = lit "https") then lit "443" else lit "80")
  end.

(** The request that is sent on. *)
Definition outRequest (req : request) (targetAddr : gostring) : request :=
  let h := delete (lit "Proxy-Connection") (delete (lit "Proxy-Authorization") (rqHeader req)) in
  mkRequest (rqMethod req) targetAddr
    (if bool_decide (rqScheme req = []) then lit "http" else rqScheme req)
    targetAddr (rqURI req)
    (if bool_decide (headerGet h "Connection" = []) then headerSet h "Connection" "close" else h)
    (rqBody req).

Definition forwardHTTPRequest (req : request) : exM httpEnd :=
  let host := if bool_decide (rqHost req = []) then rqURLHost req else rqHost req in
  if bool_decide (host = []) then refuseHTTP "400 Bad Request" 400 else
  let '(originHost, port) := requestTarget host (rqScheme req) in
  match genPolicy t getFromIPPool dnsResolve originHost false false with
  | GenFailed => refuseHTTP status500 500
  | GenBlocked => refuseHTTP status403 403
  | GenNotFound => liftS Panic
  | GenOK dstHost p =>
      if negb (pHttpStatus p =? 0) && negb (pHttpStatus p =? unsetInt) then
        (if (pHttpStatus p =? 301) || (pHttpStatus p =? 302) then
           let scheme := if bool_decide (rqScheme req = []) then lit "https" else rqScheme req in
           setHeader (λ h, headerSet h "Location" (scheme ++ "://" ++ host ++ rqURI req))
         else mret tt);;
        WriteHeader (pHttpStatus p);;
        mret Returned
      else
        let targetAddr := JoinHostPort dstHost (policyPort p port) in
        let dialTimeout := if 0 <? pConnectTimeout p then Some (pConnectTimeout p) else None in
        match roundTrip dialTimeout (outRequest req targetAddr) with
        | Err _ => refuseHTTP status502 502
        | Panic => liftS Panic
        | Ok resp =>
            setHeader (λ h, usHeader resp ∪ h);;
            WriteHeader (usStatus resp);;
            (if bool_decide (usBody resp = []) then mret tt else WriteBody (usBody resp));;
            mret Returned
        end
  end.

Definition httpHandler (req : request) : exM httpEnd :=
  if bool_decide (rqMethod req = lit "CONNECT") then handleConnect req
  else if bool_decide (rqScheme req = []) then refuseHTTP status403 403
  else forwardHTTPRequest req.
End Handlers.

(** How the server ends an exchange: the status a client sees ([None] when the
    connection is closed without one), or the connection is the handler's. *)
Inductive served :=
| Answered (status : Z) (h : header) (body : bytes)
| Dropped
| Handed (e : handlerEnd) (sent : list bytes).

Definition serveRequest (m : exM httpEnd) (c : stream) : served :=
  match m (mkExchange ∅ [] None [] c) with
  | (Ok Returned, x) => Answered (default 200 (exStatus x)) (exHeader x) (exBody x)
  | (Ok (TakenOver e), x) => Handed e (output (exConn x))
  | (_, _) => Dropped
  end.

Definition HTTPAccept (addr serverAddr : gostring) (listen : gostring → res unit) : bool :=
  match listenAddress addr serverAddr with
  | None => false
  | Some listenAddr => match listen listenAddr with Ok _ => true | _ => false end
  end.

(** How [HTTPAccept] ends: [Serve] returns [ErrServerClosed] once [stop] has made
    the goroutine call [Shutdown], which gives requests under way two seconds. *)
Inductive serveResult := ServeClosed | ServeErr (e : error).
Inductive serverEnd := HTTPNotStarted | HTTPServeFailed (e : error) | HTTPStopped.

Definition shutdownLimit : Z := 2 * 1000000000.

Definition HTTPAcceptEnd (addr serverAddr : gostring) (listen : gostring → res unit) (serve : serveResult) : serverEnd :=
  if HTTPAccept addr serverAddr listen then match serve with ServeClosed => HTTPStopped | ServeErr e => HTTPServeFailed e end
  else HTTPNotStarted.

(** ** What a client sees *)

Section Served.
Context (t : Tables).
Context (getFromIPPool : gostring → res gostring).
Context (dnsResolve : gostring → DNSMode → Z → res (gostring * bool)).
Context (dialTCP : gostring → Z → res conn).
Context (hijack : hijackResult).
Context (roundTrip : option Z → request → res upstreamResponse).

Abbreviation route host := (genPolicy t getFromIPPool dnsResolve host false false).
Abbreviation handle := (httpHandler t getFromIPPool dnsResolve dialTCP hijack roundTrip).

Definition errorHeader : header :=
  headerSet (headerSet ∅ "Content-Type" "text/plain; charset=utf-8") "X-Content-Type-Options" "nosniff".

Definition errorAnswer (text : gostring) (code : Z) : served := Answered code errorHeader (text ++ [10]).

Lemma WriteHeader_final code h i b c : 200 ≤ code ≤ 999 →
  WriteHeader code (mkExchange h i None b c) = (Ok tt, mkExchange h i (Some code) b c).
Proof.
  intros Hc. unfold WriteHeader. cbn [exStatus]. destruct (Z.ltb_spec code 100); [lia|].
  destruct (Z.ltb_spec 999 code); [lia|]. by destruct (Z.leb_spec code 199); [lia|].
Qed.

Lemma refuse_answers text code c : 200 ≤ code ≤ 999 → serveRequest (refuseHTTP text code) c = errorAnswer text code.
Proof.
  intros Hc. unfold serveRequest, refuseHTTP.
  assert (httpError text code (mkExchange ∅ [] None [] c) =
    (Ok tt, mkExchange errorHeader [] (Some code) (text ++ [10]) c)) as E.
  { unfold httpError. erewrite bindS; [|reflexivity]. erewrite bindS; [|by apply WriteHeader_final]. reflexivity. }
  erewrite bindS; [|exact E]. reflexivity.
Qed.

(** The host a request is routed by; [None] when it is refused before. *)
Definition requestedHost (req : request) : option gostring :=
  if bool_decide (rqMethod req = lit "CONNECT") then
    if bool_decide (rqHost req = []) then None
    else match SplitHostPort (rqHost req) with Ok (h, _) => Some h | _ => None end
  else if bool_decide (rqScheme req = []) then None
  else
    let host := if bool_decide (rqHost req = []) then rqURLHost req else rqHost req in
    if bool_decide (host = []) then None else Some (requestTarget host (rqScheme req)).1.

Lemma handle_refused req host text code c :
  requestedHost req = Some host → 200 ≤ code ≤ 999 →
  (route host = GenBlocked ∧ text = status403 ∧ code = 403) ∨ (route host = GenFailed ∧ text = status500 ∧ code = 500) →
  serveRequest (handle req) c = errorAnswer text code.
Proof.
  intros Hr Hc Hg. rewrite <- (refuse_answers text code c Hc). unfold requestedHost in Hr. unfold httpHandler.
  case_bool_decide.
  - unfold handleConnect. case_bool_decide; [done|]. destruct (SplitHostPort _) as [[h p]|e|]; [|done|done].
    injection Hr as ->. by destruct Hg as [(-> & -> & ->)|(-> & -> & ->)].
  - case_bool_decide; [done|]. unfold forwardHTTPRequest.
    set (h := if bool_decide (rqHost req = []) then _ else _) in *. cbv zeta in *. case_bool_decide; [done|].
    destruct (requestTarget h (rqScheme req)) as [h' p]. injection Hr as ->.
    by destruct Hg as [(-> & -> & ->)|(-> & -> & ->)].
Qed.

Lemma route_blocked host dp :
  isIPText host = false → Domain.Find (domainMatcher t) host = Some dp → pMode dp = ModeBlock → route host = GenBlocked.
Proof.
  intros Hip Hf Hb. unfold genPolicy. rewrite Hip. cbn [orb]. unfold genPolicyDomain. rewrite Hf. cbv zeta.
  by rewrite bool_decide_eq_true_2 by (cbn; by rewrite Hb).
Qed.

(** A host whose rule is [block] is refused with the same answer whether the
    client asks for a tunnel or for a forwarded request, and whatever dialling,
    resolving or the transport would do. *)
Theorem http_block_rule_refused req host dp c :
  requestedHost req = Some host → isIPText host = false →
  Domain.Find (domainMatcher t) host = Some dp → pMode dp = ModeBlock →
  serveRequest (handle req) c = errorAnswer status403 403.
Proof. intros Hr Hip Hf Hb. eapply handle_refused; [done|lia|]. left. by erewrite route_blocked. Qed.

(** ** Forwarding *)

Definition noStatus (p : Policy) : Prop := pHttpStatus p = 0 ∨ pHttpStatus p = unsetInt.

Lemma noStatus_test p : noStatus p → negb (pHttpStatus p =? 0) && negb (pHttpStatus p =? unsetInt) = false.
Proof. by intros [-> | ->]. Qed.

(** A request that is sent on keeps its method, path, body and every header but
    three: the proxy's own two are gone, and [Connection] is never empty. *)
Lemma outRequest_keeps req a :
  let out := outRequest req a in
  rqMethod out = rqMethod req ∧ rqURI out = rqURI req ∧ rqBody out = rqBody req ∧
  rqHeader out !! lit "Proxy-Authorization" = None ∧ rqHeader out !! lit "Proxy-Connection" = None ∧
  headerGet (rqHeader out) "Connection" ≠ [] ∧
  ∀ k, k ≠ lit "Proxy-Authorization" → k ≠ lit "Proxy-Connection" → k ≠ lit "Connection" →
       rqHeader out !! k = rqHeader req !! k.
Proof.
  cbv zeta. split; [done|]. split; [done|]. split; [done|].
  unfold outRequest. cbn [rqHeader]. set (h := delete _ (delete _ (rqHeader req))).
  assert (h !! lit "Proxy-Authorization" = None ∧ h !! lit "Proxy-Connection" = None) as [H1 H2].
  { unfold h. split; [rewrite lookup_delete_ne by done|]; by rewrite lookup_delete_eq. }
  assert (∀ k, k ≠ lit "Proxy-Authorization" → k ≠ lit "Proxy-Connection" → h !! k = rqHeader req !! k) as Hk.
  { intros k ? ?. unfold h. by rewrite !lookup_delete_ne by done. }
  case_bool_decide as Hc; [|split_and!; auto].
  unfold headerSet, headerGet. rewrite !lookup_insert_ne by done. rewrite lookup_insert_eq.
  split_and!; [done..|]. intros k ? ? ?. rewrite lookup_insert_ne by done. auto.
Qed.

(** A plain request is answered with what the destination answered, status,
    header and body, after being sent, rewritten, to the target the policy
    chooses for its host. *)
Theorem http_forward_relays req host originHost port dst p resp c :
  rqMethod req ≠ lit "CONNECT" → rqScheme req ≠ [] →
  host = (if bool_decide (rqHost req = []) then rqURLHost req else rqHost req) → host ≠ [] →
  requestTarget host (rqScheme req) = (originHost, port) →
  route originHost = GenOK dst p → noStatus p →
  roundTrip (if 0 <? pConnectTimeout p then Some (pConnectTimeout p) else None)
    (outRequest req (JoinHostPort dst (policyPort p port))) = Ok resp →
  200 ≤ usStatus resp ≤ 999 →
  serveRequest (handle req) c = Answered (usStatus resp) (usHeader resp) (usBody resp).
Proof.
  intros Hm Hs Hh Hne Ht Hg Hp Hr Hst. unfold httpHandler. rewrite !bool_decide_eq_false_2 by done.
  unfold forwardHTTPRequest. rewrite <- Hh. cbv zeta. rewrite bool_decide_eq_false_2 by done. rewrite Ht, Hg.
  rewrite noStatus_test, Hr by done. unfold serveRequest.
  erewrite bindS; [|reflexivity]. erewrite bindS; [|by apply WriteHeader_final]. cbn [exHeader].
  rewrite (right_id_L ∅ (∪)). destruct (bool_decide_reflect (usBody resp = [])) as [Hb|]; [|done]. by rewrite Hb.
Qed.
End Served.

(** ** The two front ends agree *)

Section FrontEnds.
Context (t : Tables).
Context (getFromIPPool : gostring → res gostring).
Context (dnsResolve : gostring → DNSMode → Z → res (gostring * bool)).
Context (dialTCP : gostring → Z → res conn).
Context (roundTrip : option Z → request → res upstreamResponse).

Abbreviation route host := (genPolicy t getFromIPPool dnsResolve host false false).

Definition connectRequest (host : gostring) (port : Z) (h : header) : request :=
  mkRequest "CONNECT" (JoinHostPort host (itoa port)) [] (JoinHostPort host (itoa port)) [] h [].

(** The bytes of a SOCKS5 client without authentication, for a domain or, when
    that is empty, an address. *)
Definition socksRequest (domain : gostring) (ip : Addr) (port : Z) : bytes :=
  [Version; 1; MethodNoAuth] ++ [Version; CmdConnect; 0] ++ SerializeAddr domain ip port.

Definition portOK (p : Policy) : Prop := pPort p = 0 ∨ pPort p = unsetInt ∨ 0 < pPort p < 65536.

Lemma policyPort_dialPort p port : portOK p → policyPort p (itoa port) = itoa (dialPort p port).
Proof.
  unfold policyPort, dialPort. intros [->|[->|Hp]]; [done..|].
  destruct (_ && _); [|done]. unfold u16. by rewrite Z.mod_small by lia.
Qed.

Lemma itoa_plain port : 0 ≤ port → 58 ∉ itoa port ∧ 91 ∉ itoa port ∧ 93 ∉ itoa port.
Proof.
  intros Hp. destruct (itoa_digits port Hp) as (Hd & _). rewrite forallb_forall in Hd.
  split_and!; intros Hin; apply list_elem_of_In in Hin; by specialize (Hd _ Hin).
Qed.

(** The text of an address is read as an address, so a CONNECT for it is routed as
    the address it is. *)
Lemma address_is_ip ip : addr_wf ip → isIPText (IPString (AsSlice ip)) = true.
Proof.
  intros Hwf. assert (∀ a, addr_wf a → has_zone a = false → isIPText (AddrString a) = true) as Hok.
  { intros a Ha Hz. unfold isIPText, ParseIP. by rewrite ParseAddr_AddrString, Hz. }
  unfold IPString, To4. destruct ip as [|v|v z]; [done|..]; cbn [AsSlice]; cbn [addr_wf] in Hwf; unfold zlen; rewrite be_bytes_length.
  - apply Hok; [|done]. change (Z.of_nat 4 =? 4) with true. cbn [AddrFrom4 addr_wf]. by rewrite be_value_bytes_small.
  - change (Z.of_nat 16 =? 4) with false. change (Z.of_nat 16 =? 16) with true. cbn [andb].
    destruct (bool_decide _); (apply Hok; [|done]); cbn [AddrFrom4 AddrFrom16 addr_wf].
    + assert (wf_bytes (drop 12 (be_bytes 16 v))) as Hw by (apply Forall_drop, be_bytes_wf).
      pose proof (be_value_range _ Hw) as Hr. unfold zlen in Hr. rewrite length_drop, be_bytes_length in Hr. exact Hr.
    + by rewrite be_value_bytes_small.
Qed.

Lemma route_form domain ip port : destOK domain ip port →
  genPolicy t getFromIPPool dnsResolve (destHost domain ip) (bool_decide (domain = [])) false = route (destHost domain ip).
Proof.
  intros [_ [[Hd _]|[-> Hwf]]]; [by rewrite bool_decide_eq_false_2|].
  unfold genPolicy, destHost. rewrite !bool_decide_eq_true_2 by done. by rewrite address_is_ip.
Qed.

(** What CONNECT does once the policy is known. *)
Lemma connect_served host port dst p h inp :
  host ≠ [] → 91 ∉ host → 93 ∉ host → 0 ≤ port → route host = GenOK dst p → portOK p →
  (∀ target timeout, dialTCP target timeout ≠ Panic) →
  serveRequest (httpHandler t getFromIPPool dnsResolve dialTCP Hijacked roundTrip (connectRequest host port h)) (quietStream inp []) =
  if bool_decide (pMode p = ModeBlock) then errorAnswer status403 403
  else
    let target := JoinHostPort dst (itoa (dialPort p port)) in
    match upstream dialTCP p target with
    | Some up => Handed (HTunnel p up (JoinHostPort host (itoa port)) target host (itoa port)) [reply200]
    | None => Handed (HClosed false) [reply502]
    end.
Proof.
  intros Hne Hb1 Hb2 Hp Hg Hport Hd. destruct (itoa_plain port Hp) as (Hi1 & Hi2 & Hi3).
  assert (JoinHostPort host (itoa port) ≠ []) as Hj.
  { unfold JoinHostPort. destruct (contains_byte host 58); [done|]. by destruct host. }
  unfold httpHandler. rewrite bool_decide_eq_true_2 by done. unfold handleConnect.
  cbn [connectRequest rqHost]. rewrite bool_decide_eq_false_2 by done. rewrite SplitHostPort_Join, Hg by done.
  case_bool_decide; [by apply refuse_answers|]. unfold serveConnect, upstream. rewrite policyPort_dialPort by done.
  destruct (IsTrue (pReplyFirst p)); cbn [negb]; [reflexivity|].
  specialize (Hd (JoinHostPort dst (itoa (dialPort p port))) (pConnectTimeout p)).
  by destruct (dialTCP _ _) as [up|e|].
Qed.

(** C39: what the SOCKS5 server and the HTTP server's CONNECT do with the same
    destination, a domain or an address, for every outcome of [genPolicy].  When
    routing fails or a rule blocks, both refuse, each in its protocol.  When there
    is a target, both dial the same one under the same policy, report a failed
    dial, or enter the tunnel with the same arguments after the success reply of
    their protocol; what follows the SOCKS5 request is left to the tunnel.  They
    differ in one case: a policy that comes out of [genPolicy] with the mode
    [block] (a blocking default policy) is refused by CONNECT with 403, while
    the SOCKS5 server dials and enters the tunnel.  Assumed: a host of at most 253
    bytes without brackets, a policy's port within its range, a dialler that does
    not panic, client connections whose writes succeed, and a response writer
    that can be taken over. *)
Theorem front_ends_agree domain ip port h data inp :
  let host := destHost domain ip in
  let socks := socks5Handler t getFromIPPool dnsResolve dialTCP (quietStream (socksRequest domain ip port ++ data) []) in
  let http := serveRequest (httpHandler t getFromIPPool dnsResolve dialTCP Hijacked roundTrip (connectRequest host port h))
                (quietStream inp []) in
  destOK domain ip port → zlen domain ≤ 253 → 91 ∉ host → 93 ∉ host →
  (∀ dst p, route host = GenOK dst p → portOK p) → (∀ target timeout, dialTCP target timeout ≠ Panic) →
  let ends e reply rest := socks = (Some e, quietStream rest [noAuthReply; reply]) in
  match route host with
  | GenFailed => ends (HClosed false) socks5ReplyServerFailure (put_be16 port ++ data) ∧ http = errorAnswer status500 500
  | GenBlocked => ends (HClosed false) socks5ReplyConnNotAllowed (put_be16 port ++ data) ∧ http = errorAnswer status403 403
  | GenNotFound => False
  | GenOK dst p =>
      let target := JoinHostPort dst (itoa (dialPort p port)) in
      let '(e, socksReply, httpReply) :=
        match upstream dialTCP p target with
        | Some up => (HTunnel p up (JoinHostPort host (itoa port)) target host (itoa port), socks5ReplySuccess, reply200)
        | None => (HClosed false, socks5ReplyServerFailure, reply502)
        end in
      ends e socksReply data ∧
      http = if bool_decide (pMode p = ModeBlock) then errorAnswer status403 403 else Handed e [httpReply]
  end.
Proof.
  intros host socks http Hok Hlen Hb1 Hb2 Hport Hd ends.
  assert (socks = let '(e, reply, rest) := expectedEnd t getFromIPPool dnsResolve dialTCP host (bool_decide (domain = [])) port data in
    (Some e, quietStream rest [noAuthReply; reply])) as Hs.
  { unfold socks, socks5Handler.
    replace (socksRequest domain ip port ++ data) with
      ([Version; 1; MethodNoAuth] ++ ([Version; CmdConnect; 0] ++ SerializeAddr domain ip port) ++ data)
      by (unfold socksRequest; by rewrite !app_assoc).
    rewrite serveClient_request by done. pose proof (routeRequest_spec t getFromIPPool dnsResolve dialTCP Hd host
      (bool_decide (domain = [])) port data [noAuthReply] (proj1 Hok)) as Hr. fold host.
    destruct (expectedEnd _ _ _ _ _ _ _ _) as [[e reply] rest]. by rewrite Hr. }
  assert (host ≠ []) as Hne.
  { unfold host, destHost. case_bool_decide as Hdom; [|done]. intros E. destruct Hok as [_ [[? _]|[_ Hwf]]]; [done|].
    pose proof (address_is_ip ip Hwf) as Hip. rewrite E in Hip. vm_compute in Hip. done. }
  assert (requestedHost (connectRequest host port h) = Some host) as Hreq.
  { destruct (itoa_plain port ltac:(destruct Hok; lia)) as (Hi1 & Hi2 & Hi3). unfold requestedHost. cbn [connectRequest rqMethod rqHost].
    rewrite bool_decide_eq_true_2 by done. rewrite bool_decide_eq_false_2.
    - by rewrite SplitHostPort_Join.
    - unfold JoinHostPort. destruct (contains_byte host 58); [done|]. by destruct host. }
  unfold expectedEnd in Hs. pose proof (route_form domain ip port Hok) as Hrf. fold host in Hrf. rewrite Hrf in Hs.
  pose proof (genPolicy_found t getFromIPPool dnsResolve host false) as Hnf.
  destruct (route host) as [dst p| | |] eqn:Hg; [| | |done].
  - pose proof (connect_served host port dst p h inp Hne Hb1 Hb2 ltac:(destruct Hok; lia) Hg (Hport _ _ eq_refl) Hd) as Hh.
    cbv zeta in Hh, Hs |- *. fold http in Hh. destruct (upstream dialTCP p _); split; try exact Hs; exact Hh.
  - split; [exact Hs|]. eapply handle_refused; [exact Hreq|lia|]. right. by rewrite Hg.
  - split; [exact Hs|]. eapply handle_refused; [exact Hreq|lia|]. left. by rewrite Hg.
Qed.
End FrontEnds.

(** ** Where the front end falls short *)

Section Shortcomings.
Context (t : Tables).
Context (getFromIPPool : gostring → res gostring).
Context (dnsResolve : gostring → DNSMode → Z → res (gostring * bool)).
Context (dialTCP : gostring → Z → res conn).
Context (hijack : hijackResult).
Context (roundTrip : option Z → request → res upstreamResponse).

Abbreviation route host := (genPolicy t getFromIPPool dnsResolve host false false).
Abbreviation handle := (httpHandler t getFromIPPool dnsResolve dialTCP hijack roundTrip).

(** A CONNECT request whose target has no port is not refused: the handler
    returns without an answer, and the server makes that a success. *)
Theorem connect_without_port_succeeds req c :
  rqMethod req = lit "CONNECT" → rqHost req ≠ [] → 58 ∉ rqHost req →
  serveRequest (handle req) c = Answered 200 ∅ [].
Proof.
  intros Hm Hne Hc. unfold httpHandler. rewrite Hm, bool_decide_eq_true_2 by done. unfold handleConnect.
  rewrite bool_decide_eq_false_2 by done. unfold SplitHostPort.
  apply last_index_byte_None in Hc. by rewrite Hc.
Qed.

(** The parts of a plain request that reach the policy's status. *)
Definition plainRequest (req : request) (originHost port : gostring) : Prop :=
  rqMethod req ≠ lit "CONNECT" ∧ rqScheme req ≠ [] ∧ rqHost req = rqURLHost req ∧ rqHost req ≠ [] ∧
  requestTarget (rqHost req) (rqScheme req) = (originHost, port).

Lemma handle_plain req originHost port dst p c :
  plainRequest req originHost port → route originHost = GenOK dst p →
  serveRequest (handle req) c = serveRequest (forwardHTTPRequest t getFromIPPool dnsResolve roundTrip req) c.
Proof. intros (Hm & Hs & _) _. unfold httpHandler. by rewrite !bool_decide_eq_false_2. Qed.

Ltac plain_status Hreq Hg :=
  let Hne := fresh in let Ht := fresh in
  rewrite (handle_plain _ _ _ _ _ _ Hreq Hg); destruct Hreq as (_ & ? & ? & Hne & Ht);
  unfold forwardHTTPRequest; rewrite (bool_decide_eq_false_2 (rqHost _ = [])) by done; cbv zeta;
  rewrite (bool_decide_eq_false_2 (rqHost _ = [])) by done; rewrite Ht, Hg.

(** A redirect leads a client to the address it asked for. *)
Theorem redirect_to_itself req originHost port dst p c :
  plainRequest req originHost port → route originHost = GenOK dst p →
  pHttpStatus p = 301 ∨ pHttpStatus p = 302 →
  serveRequest (handle req) c =
    Answered (pHttpStatus p) (headerSet ∅ "Location" (rqScheme req ++ "://" ++ rqURLHost req ++ rqURI req)) [].
Proof.
  intros Hreq Hg Hst. plain_status Hreq Hg. rewrite (bool_decide_eq_false_2 (rqScheme req = [])) by done.
  destruct Hst as [-> | ->]; cbn [Z.eqb Pos.eqb orb negb andb unsetInt]; unfold serveRequest;
    (erewrite bindS; [|reflexivity]); (erewrite bindS; [|by apply WriteHeader_final]); cbn; congruence.
Qed.

(** A status the configuration accepts but that is not one of HTTP ends the
    handler in a panic: the client gets no answer. *)
Theorem bad_status_drops_client req originHost port dst p c :
  plainRequest req originHost port → route originHost = GenOK dst p →
  0 < pHttpStatus p < 100 ∨ 999 < pHttpStatus p →
  serveRequest (handle req) c = Dropped.
Proof.
  intros Hreq Hg Hst. plain_status Hreq Hg.
  destruct (Z.eqb_spec (pHttpStatus p) 0); [lia|].
  destruct (Z.eqb_spec (pHttpStatus p) unsetInt); [unfold unsetInt in *; lia|].
  destruct (Z.eqb_spec (pHttpStatus p) 301); [lia|]. destruct (Z.eqb_spec (pHttpStatus p) 302); [lia|].
  cbn [orb negb andb]. unfold serveRequest. erewrite bindS; [|reflexivity].
  unfold mbind, stM_bind, WriteHeader. cbn [exStatus].
  destruct (Z.ltb_spec (pHttpStatus p) 100); [done|]. destruct (Z.ltb_spec 999 (pHttpStatus p)); [done|lia].
Qed.

(** The name of the site is not sent on: requests for two names that share an
    address and a policy become the same request. *)
Theorem virtual_hosts_confused r1 r2 host1 host2 port dst p c :
  plainRequest r1 host1 port → plainRequest r2 host2 port →
  rqMethod r1 = rqMethod r2 → rqScheme r1 = rqScheme r2 → rqURI r1 = rqURI r2 →
  rqHeader r1 = rqHeader r2 → rqBody r1 = rqBody r2 →
  route host1 = GenOK dst p → route host2 = GenOK dst p → noStatus p →
  serveRequest (handle r1) c = serveRequest (handle r2) c.
Proof.
  intros H1 H2 Em Es Eu Eh Eb Hg1 Hg2 Hp. plain_status H1 Hg1. plain_status H2 Hg2.
  rewrite !noStatus_test by done. unfold outRequest. by rewrite Em, Es, Eu, Eh, Eb.
Qed.
End Shortcomings.

(** *** On concrete requests *)

Definition demoGet (host : gostring) : request := mkRequest "GET" host "http" host "/index" ∅ [].

Definition demoResponse : upstreamResponse := mkUpstream 200 ∅ "hello" None.

Definition demoServe (dflt : Policy) (req : request) : served :=
  serveRequest (httpHandler (emptyTables dflt) noPools demoDNS (λ _ _, Ok freshConn) Hijacked (λ _ _, Ok demoResponse) req)
    (quietStream [] []).

Definition blockAll : Policy := setModes unsetPolicy ModeBlock DNSModeUnset.

(** Under a default policy [block] a host without a rule gets no tunnel, but
    plain requests are sent on. *)
Example default_block_forwards :
  demoServe blockAll (connectRequest "example.org" 443 ∅) = errorAnswer status403 403 ∧
  demoServe blockAll (demoGet "example.org") = Answered 200 ∅ "hello".
Proof. vm_compute. split; reflexivity. Qed.

(** An IPv6 address without a port keeps its brackets and is routed as a name. *)
Example ipv6_literal_is_a_name :
  requestTarget "[2001:db8::1]" "http" = (lit "[2001:db8::1]", lit "80") ∧
  isIPText "[2001:db8::1]" = false ∧ isIPText "2001:db8::1" = true ∧
  serveRequest (httpHandler (emptyTables unsetPolicy) noPools
    (λ d _ _, if bool_decide (d = lit "[2001:db8::1]") then fail "no such domain" else Ok (lit "1.2.3.4", false))
    (λ _ _, Ok freshConn) Hijacked (λ _ _, Ok demoResponse) (demoGet "[2001:db8::1]")) (quietStream [] []) =
    errorAnswer status500 500.
Proof. vm_compute. split_and!; reflexivity. Qed.

(** Under a blocking default policy the two front ends part. *)
Lemma front_ends_agree_witness :
  socks5Handler (emptyTables blockAll) noPools demoDNS (λ _ _, Ok freshConn)
    (quietStream (socksRequest "example.org" AddrInvalid 443 ++ lit "data") []) =
    (Some (HTunnel blockAll (Some freshConn) "example.org:443" "93.184.216.34:443" "example.org" "443"),
     quietStream "data" [noAuthReply; socks5ReplySuccess]) ∧
  demoServe blockAll (connectRequest "example.org" 443 ∅) = errorAnswer status403 403.
Proof.
  pose proof (front_ends_agree (emptyTables blockAll) noPools demoDNS (λ _ _, Ok freshConn) (λ _ _, Ok demoResponse)
    "example.org" AddrInvalid 443 ∅ "data" []) as H.
  cbv zeta in H.
  assert (genPolicy (emptyTables blockAll) noPools demoDNS (destHost "example.org" AddrInvalid) false false =
    GenOK "93.184.216.34" blockAll) as E by (vm_compute; reflexivity).
  rewrite E in H. apply H.
  - split; [lia|]. left. split; [discriminate|]. vm_compute. discriminate.
  - vm_compute. discriminate.
  - by_decide.
  - by_decide.
  - intros dst p [= _ <-]. right. left. reflexivity.
  - discriminate.
Defined.

(** The address form of a request, routed alike, enters the tunnel from both. *)
Example front_ends_address :
  socks5Handler (emptyTables unsetPolicy) noPools demoDNS (λ _ _, Ok freshConn)
    (quietStream (socksRequest [] (Addr4 0x01020304) 443) []) =
    (Some (HTunnel unsetPolicy (Some freshConn) "1.2.3.4:443" "1.2.3.4:443" "1.2.3.4" "443"),
     quietStream [] [noAuthReply; socks5ReplySuccess]) ∧
  demoServe unsetPolicy (connectRequest "1.2.3.4" 443 ∅) =
    Handed (HTunnel unsetPolicy (Some freshConn) "1.2.3.4:443" "1.2.3.4:443" "1.2.3.4" "443") [reply200].
Proof. vm_compute. split; reflexivity. Qed.

Definition statusPolicy (status : Z) : Policy :=
  mkPolicy BoolUnset SniffOverrideUnset DNSModeUnset 0 0 [] [] [] 0 status BoolUnset ModeRaw
    0 0 BoolUnset BoolUnset BoolUnset None 0 0 0 0 0 0 0.

(** The cases of the theorems above: no port, a redirect, a status out of range,
    and an informational one, which ends as 200. *)
Example shortcomings :
  demoServe unsetPolicy (mkRequest "CONNECT" "example.org" [] "example.org" [] ∅ []) = Answered 200 ∅ [] ∧
  demoServe (statusPolicy 301) (demoGet "example.org") =
    Answered 301 (headerSet ∅ "Location" "http://example.org/index") [] ∧
  demoServe (statusPolicy 1000) (demoGet "example.org") = Dropped ∧
  demoServe (statusPolicy 103) (demoGet "example.org") = Answered 200 ∅ [] ∧
  demoServe unsetPolicy (demoGet "one.example") = demoServe unsetPolicy (demoGet "two.example").
Proof. vm_compute. split_and!; reflexivity. Qed.
