(* ===== verification/ShadowAEAD.v ===== *)
(** * Shadowsocks AEAD streams and packets (tun2socks/transport/shadowsocks/shadowaead)

    A stream is cut into chunks; each chunk is a sealed length followed by a
    sealed payload, every seal under the next nonce.  The cipher is a parameter,
    Go's [cipher.AEAD] interface, with the documented behaviour of a cipher as
    laws.  Additional data is always nil.  A buffer that the pool hands out holds
    [bufSize] bytes, so a cipher whose overhead is at most 512 fits. *)

From S2P Require Import Prelude Errors Stream.
Local Open Scope Z_scope.

(** [cipher.AEAD]. *)
Class AEAD := {
  NonceSize : nat;
  Overhead : Z;
  Seal : bytes → bytes → bytes;
  Open : bytes → bytes → res bytes;
}.

Class AEADLaws (A : AEAD) : Prop := {
  nonce_size : (1 ≤ NonceSize ≤ 32)%nat;
  overhead_range : 0 ≤ Overhead ≤ 512;
  seal_length nonce p : zlen (Seal nonce p) = zlen p + Overhead;
  open_seal nonce p : Open nonce (Seal nonce p) = Ok p;
}.

Definition payloadSizeMask : Z := 0x3FFF.
Definition bufSize : Z := 17 * 1024.

Definition ErrZeroChunk : error := errorString "zero chunk".

(** [increment]: little-endian, wrapping around. *)
Fixpoint increment (b : bytes) : bytes :=
  match b with
  | [] => []
  | x :: b => let x := u8 (x + 1) in if x =? 0 then x :: increment b else x :: b
  end.

Definition zeroNonce : bytes := replicate 32 0.

Section Stream.
Context `{AEAD}.

(** [nonce := w.nonce[:w.NonceSize()]] shares the array, so incrementing it
    changes the first bytes of the stored nonce. *)
Definition nonceOf (n : bytes) : bytes := take NonceSize n.
Definition bump (n : bytes) : bytes := increment (take NonceSize n) ++ drop NonceSize n.

(** ** Writer *)

Record Writer := mkWriter { wNonce : bytes; wStream : stream }.

Definition NewWriter (s : stream) : Writer := mkWriter zeroNonce s.

(** [w.Writer.Write(buf)] with the writer's own state. *)
Definition emit (w : Writer) (nonce : bytes) (buf : bytes) : option error * Writer :=
  match send buf (wStream w) with
  | (Ok _, s) => (None, mkWriter nonce s)
  | (Err e, s) => (Some e, mkWriter nonce s)
  | (Panic, s) => (None, mkWriter nonce s)
  end.

(** One chunk: the sealed length and the sealed payload, and the nonce after. *)
Definition sealChunk (nonce p : bytes) : bytes * bytes :=
  let head := Seal (nonceOf nonce) [u8 (Z.shiftr (zlen p) 8); u8 (zlen p)] in
  let nonce := bump nonce in
  (head ++ Seal (nonceOf nonce) p, bump nonce).

(** The loop of [Write]: [n] bytes are written, [p] remains.  Every round takes
    at least one byte, so the length of [p] is enough fuel. *)
Fixpoint writeLoop (fuel : nat) (n : Z) (p : bytes) (w : Writer) : Z * option error * Writer :=
  match fuel with
  | O => (n, None, w)
  | S fuel =>
      if bool_decide (p = []) then (n, None, w) else
      let nr := Z.min payloadSizeMask (zlen p) in
      let '(buf, nonce) := sealChunk (wNonce w) (take (Z.to_nat nr) p) in
      match emit w nonce buf with
      | (None, w) => writeLoop fuel (n + nr) (drop (Z.to_nat nr) p) w
      | (Some e, w) => (n + nr, Some e, w)
      end
  end.

Definition Write (p : bytes) (w : Writer) : Z * option error * Writer :=
  if bool_decide (p = []) then
    let '(e, w) := emit w (bump (wNonce w)) (Seal (nonceOf (wNonce w)) [0; 0]) in (0, e, w)
  else writeLoop (length p) 0 p w.

(** [ReadFrom]: what the reads of [r] return, each with at most
    [payloadSizeMask] bytes; the loop ends with the first error, [io.EOF] being
    no error of the copy. *)
Fixpoint ReadFrom (reads : list (bytes * option error)) (n : Z) (w : Writer) : Z * option error * Writer :=
  match reads with
  | [] => (n, None, w)
  | (b, er) :: reads =>
      let n := n + zlen b in
      let '(buf, nonce) := sealChunk (wNonce w) b in
      match emit w nonce buf with
      | (Some ew, w) => (n, Some ew, w)
      | (None, w) =>
          match er with
          | None => ReadFrom reads n w
          | Some e => (n, if isEOF e then None else Some e, w)
          end
      end
  end.

(** ** Reader *)

(** [rBuf] is [r.buf[r.off:]], or [None] when [r.buf] is nil. *)
Record Reader := mkReader { rNonce : bytes; rBuf : option bytes; rStream : stream }.

Definition NewReader (s : stream) : Reader := mkReader zeroNonce None s.

(** [r.Reader] read in full. *)
Definition readUnder (n : Z) (r : Reader) : res bytes * Reader :=
  let '(x, s) := readFull n (rStream r) in (x, mkReader (rNonce r) (rBuf r) s).

Definition bumpReader (r : Reader) : Reader := mkReader (bump (rNonce r)) (rBuf r) (rStream r).

(** [Reader.read]: the payload of the next chunk. *)
Definition read (r : Reader) : res bytes * Reader :=
  match readUnder (2 + Overhead) r with
  | (Ok p, r) =>
      let opened := Open (nonceOf (rNonce r)) p in
      let r := bumpReader r in
      match opened with
      | Ok h =>
          let size := Z.land (be16 (default 0 (h !! 0%nat)) (default 0 (h !! 1%nat))) payloadSizeMask in
          if size =? 0 then (Err ErrZeroChunk, r) else
          match readUnder (size + Overhead) r with
          | (Ok p, r) =>
              let opened := Open (nonceOf (rNonce r)) p in
              (opened, bumpReader r)
          | (e, r) => (e, r)
          end
      | e => (e, r)
      end
  | (e, r) => (e, r)
  end.

Definition setBuf (r : Reader) (b : option bytes) : Reader := mkReader (rNonce r) b (rStream r).

(** Hand out at most [len] bytes of the buffer. *)
Definition takeBuf (len : Z) (b : bytes) (r : Reader) : res bytes * Reader :=
  let out := take (Z.to_nat len) b in
  let rest := drop (Z.to_nat len) b in
  (Ok out, setBuf r (if bool_decide (rest = []) then None else Some rest)).

(** [Reader.Read] into a slice of [len] bytes. *)
Definition Read (len : Z) (r : Reader) : res bytes * Reader :=
  match rBuf r with
  | Some b => takeBuf len b r
  | None =>
      if payloadSizeMask + Overhead <=? len then read r else
      match read r with
      | (Ok b, r) => takeBuf len b r
      | (e, r) => (e, r)
      end
  end.

(** [WriteTo]: the buffer is written to [w] and the next chunk read, until an
    error; [io.EOF] is no error of the copy.  Every chunk consumes input, so the
    length of the input is enough fuel. *)
Fixpoint WriteToLoop (fuel : nat) (n : Z) (r : Reader) (w : stream) : Z * option error * Reader * stream :=
  let next n w r :=
    match fuel with
    | O => (n, None, r, w)
    | S fuel =>
        match read r with
        | (Ok b, r) => WriteToLoop fuel n (setBuf r (Some b)) w
        | (Err e, r) => (n, if isEOF e then None else Some e, r, w)
        | (Panic, r) => (n, None, r, w)
        end
    end in
  match rBuf r with
  | Some ((_ :: _) as b) =>
      match send b w with
      | (Ok _, w) => next (n + zlen b) w (setBuf r (Some []))
      | (Err e, w) => (n, Some e, r, w)
      | (Panic, w) => (n, None, r, w)
      end
  | _ => next n w (setBuf r (Some []))
  end.

Definition WriteTo (r : Reader) (w : stream) : Z * option error * Reader * stream :=
  WriteToLoop (S (length (input (rStream r)))) 0 r w.
End Stream.

(** ** Nonces

    After [k] increments a nonce of [n] bytes is [k] in little endian. *)

Fixpoint le_bytes (n : nat) (k : Z) : bytes :=
  match n with
  | O => []
  | S n => k mod 256 :: le_bytes n (k / 256)
  end.

Lemma le_bytes_length n k : length (le_bytes n k) = n.
Proof. revert k. induction n; intros k; simpl; [done|]. by rewrite IHn. Qed.

Lemma increment_le n k : 0 ≤ k → increment (le_bytes n k) = le_bytes n (k + 1).
Proof.
  revert k. induction n as [|n IH]; intros k Hk; [done|]. cbn [le_bytes increment].
  unfold u8. change (2 ^ 8) with 256. rewrite Zplus_mod_idemp_l.
  pose proof (Z_div_mod_eq_full k 256) as E. pose proof (Z.mod_pos_bound k 256 ltac:(lia)) as Hr.
  destruct (Z.eqb_spec ((k + 1) mod 256) 0) as [E0|Hne]; f_equal.
  - rewrite IH by (apply Z.div_pos; lia). f_equal.
    apply (Z.div_unique _ _ _ 0); [lia|].
    assert (k mod 256 = 255); [|lia].
    destruct (decide (k mod 256 = 255)) as [|Hn]; [done|]. exfalso.
    assert (k mod 256 + 1 = (k + 1) mod 256) by (apply (Z.mod_unique _ _ (k / 256)); lia). lia.
  - f_equal. apply (Z.div_unique _ _ _ (k mod 256 + 1)); [|lia].
    assert (k mod 256 ≠ 255); [|lia]. intros Hc. apply Hne.
    symmetry. apply (Z.mod_unique _ _ (k / 256 + 1)); lia.
Qed.

Lemma le_bytes_inj n j k :
  0 ≤ j < 256 ^ Z.of_nat n → 0 ≤ k < 256 ^ Z.of_nat n → le_bytes n j = le_bytes n k → j = k.
Proof.
  revert j k. induction n as [|n IH]; intros j k Hj Hk E; [simpl in *; lia|].
  rewrite Nat2Z.inj_succ, Z.pow_succ_r in Hj, Hk by lia. injection E as E1 E2.
  apply IH in E2; [|split; [apply Z.div_pos; lia|apply Z.div_lt_upper_bound; lia]..].
  pose proof (Z_div_mod_eq_full j 256). pose proof (Z_div_mod_eq_full k 256). lia.
Qed.

Lemma le_bytes_zero n : le_bytes n 0 = replicate n 0.
Proof. induction n; simpl; [done|]. by rewrite Zdiv_0_l, IHn. Qed.

(** ** What a writer sends *)

Lemma take_min {A} (l : list A) n : take (Z.to_nat (Z.min n (zlen l))) l = take (Z.to_nat n) l.
Proof.
  destruct (Z.le_gt_cases n (zlen l)); [by rewrite Z.min_l|]. rewrite Z.min_r by lia.
  rewrite !take_ge by (unfold zlen in *; lia). done.
Qed.

Lemma drop_min {A} (l : list A) n : drop (Z.to_nat (Z.min n (zlen l))) l = drop (Z.to_nat n) l.
Proof.
  destruct (Z.le_gt_cases n (zlen l)); [by rewrite Z.min_l|]. rewrite Z.min_r by lia.
  rewrite !drop_ge by (unfold zlen in *; lia). done.
Qed.

Section Facts.
Context `{Laws : AEADLaws}.

(** The nonce after [k] increments. *)
Definition nonceAt (k : Z) : bytes := le_bytes NonceSize k.
Definition storedAt (k : Z) : bytes := nonceAt k ++ replicate (32 - NonceSize) 0.

Lemma storedAt_zero : storedAt 0 = zeroNonce.
Proof.
  unfold storedAt, nonceAt, zeroNonce. rewrite le_bytes_zero, <- replicate_add. f_equal.
  pose proof nonce_size. lia.
Qed.

Lemma nonceOf_stored k : nonceOf (storedAt k) = nonceAt k.
Proof.
  unfold nonceOf, storedAt. rewrite take_app_le by (unfold nonceAt; rewrite le_bytes_length; lia).
  apply take_ge. unfold nonceAt. rewrite le_bytes_length. lia.
Qed.

Lemma bump_stored k : 0 ≤ k → bump (storedAt k) = storedAt (k + 1).
Proof.
  intros Hk. unfold bump. fold (nonceOf (storedAt k)). rewrite nonceOf_stored. unfold storedAt at 2.
  unfold nonceAt at 1. rewrite increment_le by done. unfold storedAt. f_equal.
  rewrite drop_app_ge by (unfold nonceAt; rewrite le_bytes_length; lia).
  unfold nonceAt. rewrite le_bytes_length, Nat.sub_diag. done.
Qed.

(** The sealed chunk with number [j]: nonces [2j] and [2j + 1]. *)
Definition chunkAt (j : Z) (p : bytes) : bytes :=
  Seal (nonceAt (2 * j)) (put_be16 (zlen p)) ++ Seal (nonceAt (2 * j + 1)) p.

Lemma sealChunk_at j p : 0 ≤ j → sealChunk (storedAt (2 * j)) p = (chunkAt j p, storedAt (2 * (j + 1))).
Proof.
  intros Hj. unfold sealChunk. rewrite bump_stored, !nonceOf_stored, bump_stored by lia.
  unfold chunkAt. f_equal. f_equal. lia.
Qed.

(** The payloads of the chunks a write is cut into. *)
Fixpoint pieces (fuel : nat) (p : bytes) : list bytes :=
  match fuel with
  | O => []
  | S fuel =>
      if bool_decide (p = []) then []
      else take (Z.to_nat payloadSizeMask) p :: pieces fuel (drop (Z.to_nat payloadSizeMask) p)
  end.

Definition chunksFrom (j : Z) (ps : list bytes) : list bytes := imap (λ i p, chunkAt (j + Z.of_nat i) p) ps.

Lemma chunksFrom_cons j p ps : chunksFrom j (p :: ps) = chunkAt j p :: chunksFrom (j + 1) ps.
Proof.
  unfold chunksFrom. rewrite imap_cons. f_equal; [f_equal; lia|]. apply imap_ext. intros i x _.
  cbn. f_equal. lia.
Qed.

Lemma chunksFrom_app j ps qs : chunksFrom j (ps ++ qs) = chunksFrom j ps ++ chunksFrom (j + zlen ps) qs.
Proof.
  revert j. induction ps as [|p ps IH]; intros j.
  - cbn. by rewrite Z.add_0_r.
  - rewrite <- app_comm_cons, !chunksFrom_cons, IH, zlen_cons. cbn. do 3 f_equal. lia.
Qed.

Lemma writeLoop_spec fuel n p j inp out :
  0 ≤ j → (length p ≤ fuel)%nat →
  writeLoop fuel n p (mkWriter (storedAt (2 * j)) (quietStream inp out)) =
    (n + zlen p, None,
     mkWriter (storedAt (2 * (j + zlen (pieces fuel p))))
       (quietStream inp (out ++ chunksFrom j (pieces fuel p)))).
Proof.
  revert n p j out. induction fuel as [|fuel IH]; intros n p j out Hj Hf.
  - destruct p; [|simpl in Hf; lia]. cbn. by rewrite !Z.add_0_r, app_nil_r.
  - cbn [writeLoop pieces]. destruct (decide (p = [])) as [->|Hne].
    { cbn. by rewrite !Z.add_0_r, app_nil_r. }
    rewrite !bool_decide_eq_false_2 by done. cbv zeta. cbn [wNonce].
    rewrite sealChunk_at by done. unfold emit. cbn [wStream]. rewrite send_quiet.
    rewrite drop_min, take_min. rewrite IH; [|lia|].
    + rewrite chunksFrom_cons, zlen_cons, <- app_assoc. cbn [app].
      f_equal; [|f_equal; do 2 f_equal; lia]. f_equal.
      assert (zlen p = zlen (take (Z.to_nat payloadSizeMask) p) + zlen (drop (Z.to_nat payloadSizeMask) p)) as E
        by (by rewrite <- zlen_app, take_drop).
      assert (zlen (take (Z.to_nat payloadSizeMask) p) = Z.min payloadSizeMask (zlen p)) as E2.
      { unfold zlen. rewrite length_take. unfold payloadSizeMask. lia. }
      lia.
    + destruct p as [|x p]; [done|]. rewrite length_drop. cbn [length] in *. unfold payloadSizeMask. lia.
Qed.

Lemma pieces_concat fuel p : (length p ≤ fuel)%nat → mjoin (pieces fuel p) = p.
Proof.
  revert p. induction fuel as [|fuel IH]; intros p Hf; [by destruct p; [|simpl in Hf; lia]|].
  cbn [pieces]. case_bool_decide as Hp; [by subst|]. cbn [mjoin list_join].
  rewrite IH, take_drop; [done|]. destruct p as [|x p]; [done|]. rewrite length_drop. cbn [length] in *.
  unfold payloadSizeMask. lia.
Qed.

(** A payload that a chunk can carry. *)
Definition payloadOK (p : bytes) : Prop := 1 ≤ zlen p ≤ payloadSizeMask.

Lemma pieces_ok fuel p : Forall payloadOK (pieces fuel p).
Proof.
  revert p. induction fuel as [|fuel IH]; intros p; cbn [pieces]; [constructor|].
  case_bool_decide as Hp; [constructor|]. constructor; [|apply IH].
  destruct p as [|x p]; [done|]. unfold payloadOK, zlen. rewrite length_take. unfold payloadSizeMask. simpl length. lia.
Qed.

(** ** What a reader receives *)

Lemma size_mask n : 0 ≤ n ≤ payloadSizeMask → Z.land (be16 (u8 (Z.shiftr n 8)) (u8 n)) payloadSizeMask = n.
Proof.
  intros Hn. unfold payloadSizeMask in *. rewrite be16_put by lia. change 0x3FFF with (Z.ones 14).
  rewrite Z.land_ones by lia. apply Z.mod_small. lia.
Qed.

Lemma readUnder_app b rest nonce buf out f :
  readUnder (zlen b) (mkReader nonce buf (mkStream (b ++ rest) out f)) =
    (Ok b, mkReader nonce buf (mkStream rest out f)).
Proof. unfold readUnder. cbn [rStream rNonce rBuf]. by rewrite readFull_app. Qed.

Lemma read_chunk j p rest buf out f :
  0 ≤ j → payloadOK p →
  read (mkReader (storedAt (2 * j)) buf (mkStream (chunkAt j p ++ rest) out f)) =
    (Ok p, mkReader (storedAt (2 * (j + 1))) buf (mkStream rest out f)).
Proof.
  intros Hj Hp. unfold read, chunkAt. rewrite <- app_assoc.
  replace (2 + Overhead) with (zlen (Seal (nonceAt (2 * j)) (put_be16 (zlen p)))) by (by rewrite seal_length).
  rewrite readUnder_app. unfold bumpReader. cbn [rNonce rBuf rStream].
  rewrite nonceOf_stored, open_seal, bump_stored by lia. cbv zeta.
  change (default 0 (put_be16 (zlen p) !! 0%nat)) with (u8 (Z.shiftr (zlen p) 8)).
  change (default 0 (put_be16 (zlen p) !! 1%nat)) with (u8 (zlen p)).
  rewrite size_mask by (unfold payloadOK in Hp; lia). unfold payloadOK in Hp.
  destruct (Z.eqb_spec (zlen p) 0); [lia|].
  replace (zlen p + Overhead) with (zlen (Seal (nonceAt (2 * j + 1)) p)) by (by rewrite seal_length).
  rewrite readUnder_app. cbn [rNonce rBuf rStream].
  rewrite nonceOf_stored, open_seal, bump_stored by lia. by replace (2 * j + 1 + 1) with (2 * (j + 1)) by lia.
Qed.

Lemma read_end nonce buf out f : ∃ r, read (mkReader nonce buf (mkStream [] out f)) = (Err errEOF, r).
Proof.
  unfold read, readUnder, readFull. cbn [input rStream]. pose proof overhead_range.
  destruct (Z.leb_spec (2 + Overhead) (zlen (@nil Z))); [change (zlen (@nil Z)) with 0 in *; lia|].
  rewrite bool_decide_eq_true_2 by done. eauto.
Qed.

(** The reader is about to deliver [rem]: the rest of its buffer, and the
    chunks of its input. *)
Definition delivers (r : Reader) (rem : bytes) : Prop :=
  ∃ j qs out f, 0 ≤ j ∧ Forall payloadOK qs ∧ rNonce r = storedAt (2 * j) ∧ rBuf r ≠ Some [] ∧
    rStream r = mkStream (mjoin (chunksFrom j qs)) out f ∧ rem = default [] (rBuf r) ++ mjoin qs.

Lemma takeBuf_spec len b nonce buf s :
  1 ≤ len → b ≠ [] →
  ∃ o b', takeBuf len b (mkReader nonce buf s) = (Ok o, mkReader nonce b' s) ∧ o ≠ [] ∧ zlen o ≤ len ∧
    b' ≠ Some [] ∧ b = o ++ default [] b'.
Proof.
  intros Hl Hb. unfold takeBuf, setBuf. cbn [rNonce rStream].
  exists (take (Z.to_nat len) b). eexists. split; [reflexivity|].
  split. { destruct b; [done|]. destruct (Z.to_nat len) eqn:E; [lia|done]. }
  split. { unfold zlen. rewrite length_take. lia. }
  case_bool_decide as E; (split; [congruence|]); cbn.
  - rewrite app_nil_r. rewrite <- (take_drop (Z.to_nat len) b) at 1. by rewrite E, app_nil_r.
  - by rewrite take_drop.
Qed.

(** One [Read] delivers a non-empty piece of what is left, or reports the end. *)
Lemma Read_delivers len r rem :
  1 ≤ len → delivers r rem →
  (rem = [] ∧ ∃ r', Read len r = (Err errEOF, r')) ∨
  ∃ o rem' r', Read len r = (Ok o, r') ∧ o ≠ [] ∧ zlen o ≤ len ∧ rem = o ++ rem' ∧ delivers r' rem'.
Proof.
  intros Hl (j & qs & out & f & Hj & HQ & Hn & Hb & Hs & ->). destruct r as [nonce buf s]. cbn in *. subst nonce s.
  unfold Read. cbn [rBuf]. destruct buf as [b|].
  - right. destruct (takeBuf_spec len b (storedAt (2 * j)) (Some b) (mkStream (mjoin (chunksFrom j qs)) out f))
      as (o & b' & E & Ho & Hlen & Hb' & Eb); [done|congruence|].
    exists o, (default [] b' ++ mjoin qs). eexists. split; [exact E|]. cbn. rewrite Eb, <- app_assoc.
    split_and!; try done. exists j, qs, out, f. done.
  - destruct qs as [|q qs].
    { left. split; [done|]. destruct (read_end (storedAt (2 * j)) None out f) as [r1 E1].
      change (mjoin (chunksFrom j [])) with (@nil Z). destruct (_ <=? len); rewrite E1; eauto. }
    right. inversion HQ as [|? ? Hq HQ']; subst. rewrite chunksFrom_cons. cbn.
    rewrite read_chunk by done.
    assert (q ≠ []) as Hqne by (intros ->; unfold payloadOK in Hq; change (zlen (@nil Z)) with 0 in Hq; lia).
    destruct (Z.leb_spec (payloadSizeMask + Overhead) len).
    + exists q, (mjoin qs). eexists. split; [reflexivity|]. split; [done|].
      split; [unfold payloadOK in Hq; pose proof overhead_range; lia|]. split; [done|].
      exists (j + 1), qs, out, f. split_and!; try done. lia.
    + destruct (takeBuf_spec len q (storedAt (2 * (j + 1))) None (mkStream (mjoin (chunksFrom (j + 1) qs)) out f))
        as (o & b' & E & Ho & Hlen & Hb' & Eb); [done..|].
      exists o, (default [] b' ++ mjoin qs). eexists. split; [exact E|].
      split; [done|]. split; [done|]. split; [by rewrite app_assoc, <- Eb|].
      exists (j + 1), qs, out, f. split_and!; try done. lia.
Qed.

(** An empty chunk, as [ReadFrom] sends at the end of its source, is an error
    for the reader. *)
Lemma read_zero_chunk j rest buf out f :
  0 ≤ j → ∃ r, read (mkReader (storedAt (2 * j)) buf (mkStream (chunkAt j [] ++ rest) out f)) = (Err ErrZeroChunk, r).
Proof.
  intros Hj. unfold read, chunkAt. rewrite <- app_assoc.
  replace (2 + Overhead) with (zlen (Seal (nonceAt (2 * j)) (put_be16 (zlen (@nil Z))))) by (by rewrite seal_length).
  rewrite readUnder_app. unfold bumpReader. cbn [rNonce rBuf rStream].
  rewrite nonceOf_stored, open_seal. eauto.
Qed.

Lemma ReadFrom_spec reads last n j inp out :
  0 ≤ j →
  ∃ w, ReadFrom (((λ b, (b, None)) <$> reads) ++ [(last, Some errEOF)]) n
         (mkWriter (storedAt (2 * j)) (quietStream inp out)) =
       (n + zlen (mjoin reads ++ last), None, w) ∧
    output (wStream w) = out ++ chunksFrom j (reads ++ [last]).
Proof.
  revert n j out. induction reads as [|b reads IH]; intros n j out Hj.
  - cbn [fmap list_fmap app ReadFrom wNonce]. rewrite sealChunk_at by done. unfold emit. cbn [wStream].
    rewrite send_quiet. eexists. split; [done|]. cbn [wStream output quietStream].
    rewrite chunksFrom_cons. done.
  - cbn [fmap list_fmap app ReadFrom wNonce]. rewrite sealChunk_at by done. unfold emit. cbn [wStream].
    rewrite send_quiet. destruct (IH (n + zlen b) (j + 1) (out ++ [chunkAt j b]) ltac:(lia)) as (w & E & Ew).
    exists w. change (mjoin (b :: reads)) with (b ++ mjoin reads).
    rewrite E. split; [do 2 f_equal; rewrite !zlen_app; lia|].
    rewrite Ew, chunksFrom_cons, <- app_assoc. done.
Qed.

(** [WriteTo] copies everything that is left. *)
Lemma WriteToLoop_chunks fuel n j qs b winp wout out f :
  0 ≤ j → Forall payloadOK qs → (length qs < fuel)%nat →
  ∃ r' ws, WriteToLoop fuel n (mkReader (storedAt (2 * j)) b (mkStream (mjoin (chunksFrom j qs)) out f))
             (quietStream winp wout) =
    (n + zlen (default [] b ++ mjoin qs), None, r', quietStream winp (wout ++ ws)) ∧
    mjoin ws = default [] b ++ mjoin qs.
Proof.
  intros Hj HQ. revert fuel n j b wout Hj. induction HQ as [|q qs Hq HQ IH]; intros fuel n j b wout Hj Hf;
    (destruct fuel as [|fuel]; [simpl in Hf; lia|]).
  - assert (∃ r, read (mkReader (storedAt (2 * j)) (Some []) (mkStream [] out f)) = (Err errEOF, r)) as [r Er]
      by apply read_end.
    change (mjoin (chunksFrom j [])) with (@nil Z). cbn [mjoin list_join]. rewrite app_nil_r.
    assert (isEOF errEOF = true) as Ee by (by vm_compute).
    destruct b as [[|x b]|]; cbn [WriteToLoop rBuf]; unfold setBuf; cbn [rNonce rStream].
    + rewrite Er, Ee. exists r, []. cbn. by rewrite Z.add_0_r, app_nil_r.
    + rewrite send_quiet. cbn [rNonce rStream]. rewrite Er, Ee. exists r, [x :: b]. cbn.
      by rewrite app_nil_r.
    + rewrite Er, Ee. exists r, []. cbn. by rewrite Z.add_0_r, app_nil_r.
  - simpl in Hf. rewrite chunksFrom_cons.
    change (mjoin (chunkAt j q :: chunksFrom (j + 1) qs)) with (chunkAt j q ++ mjoin (chunksFrom (j + 1) qs)).
    change (mjoin (q :: qs)) with (q ++ mjoin qs).
    assert (∀ m wo, ∃ r' ws,
      WriteToLoop fuel m (mkReader (storedAt (2 * (j + 1))) (Some q) (mkStream (mjoin (chunksFrom (j + 1) qs)) out f))
        (quietStream winp wo) =
      (m + zlen (q ++ mjoin qs), None, r', quietStream winp (wo ++ ws)) ∧ mjoin ws = q ++ mjoin qs) as Hn.
    { intros m wo. apply IH; lia. }
    assert (∀ buf, read (mkReader (storedAt (2 * j)) buf
        (mkStream (chunkAt j q ++ mjoin (chunksFrom (j + 1) qs)) out f)) =
      (Ok q, mkReader (storedAt (2 * (j + 1))) buf (mkStream (mjoin (chunksFrom (j + 1) qs)) out f))) as Er
      by (intros; by apply read_chunk).
    destruct b as [[|x b]|]; cbn [WriteToLoop rBuf]; unfold setBuf; cbn [rNonce rStream].
    + rewrite Er. unfold setBuf; cbn [rNonce rStream]. apply Hn.
    + rewrite send_quiet. cbn [rNonce rStream]. rewrite Er. unfold setBuf; cbn [rNonce rStream].
      destruct (Hn (n + zlen (x :: b)) (wout ++ [x :: b])) as (r' & ws & E & Ews).
      exists r', ((x :: b) :: ws). unfold setBuf in *. cbn [rNonce rStream] in *. rewrite E.
      change (default [] (Some (x :: b))) with (x :: b). split.
      * rewrite <- app_assoc. f_equal. f_equal. f_equal. rewrite !zlen_app. lia.
      * change (mjoin ((x :: b) :: ws)) with ((x :: b) ++ mjoin ws). by rewrite Ews.
    + rewrite Er. unfold setBuf; cbn [rNonce rStream]. apply Hn.
Qed.

Lemma WriteTo_delivers r rem winp wout :
  delivers r rem →
  ∃ r' ws, WriteTo r (quietStream winp wout) = (zlen rem, None, r', quietStream winp (wout ++ ws)) ∧ mjoin ws = rem.
Proof.
  intros (j & qs & out & f & Hj & HQ & Hn & Hb & Hs & ->). destruct r as [nonce buf s]. cbn in Hn, Hs. subst.
  apply WriteToLoop_chunks; [done..|]. cbn [rStream input].
  assert (∀ k l, (length l ≤ length (mjoin (chunksFrom k l)))%nat) as H; [|specialize (H j qs); lia].
  intros k l. revert k. induction l as [|q l IH]; intros k; [simpl; lia|]. rewrite chunksFrom_cons.
  change (mjoin (chunkAt k q :: ?l)) with (chunkAt k q ++ mjoin l). rewrite length_app. specialize (IH (k + 1)).
  assert (1 ≤ zlen (chunkAt k q)).
  { unfold chunkAt. rewrite zlen_app, !seal_length. pose proof overhead_range. pose proof (zlen_nonneg q).
    change (zlen (put_be16 (zlen q))) with 2. lia. }
  unfold zlen in *. simpl. lia.
Qed.
End Facts.

(** ** Ciphers (shadowaead/cipher.go, shadowsocks/core/cipher.go) *)

Definition KeySizeError (n : Z) : error := errorString ("key size error: need " ++ itoa n ++ " bytes").

(** [metaCipher]: a pre-shared key and the constructor of a cipher from a key. *)
Record metaCipher := mkMeta { psk : bytes; makeAEAD : bytes → res AEAD }.

Definition KeySize (c : metaCipher) : Z := zlen (psk c).
Definition SaltSize (c : metaCipher) : Z := if 16 <? KeySize c then KeySize c else 16.

Section Ciphers.
(** HKDF with SHA-1 (secret, salt, info, length), MD5, and the cipher
    constructors of the Go libraries. *)
Context (hkdfSHA1 : bytes → bytes → gostring → Z → bytes).
Context (md5 : bytes → bytes).
Context (aesGCM chacha20poly1305_New chacha20poly1305_NewX : bytes → res AEAD).

Definition Encrypter (c : metaCipher) (salt : bytes) : res AEAD :=
  makeAEAD c (hkdfSHA1 (psk c) salt "ss-subkey" (KeySize c)).
Definition Decrypter (c : metaCipher) (salt : bytes) : res AEAD :=
  makeAEAD c (hkdfSHA1 (psk c) salt "ss-subkey" (KeySize c)).

Definition AESGCM (key : bytes) : res metaCipher :=
  if (zlen key =? 16) || (zlen key =? 24) || (zlen key =? 32) then Ok (mkMeta key aesGCM)
  else Err (errorString ("crypto/aes: invalid key size " ++ itoa (zlen key))).

Definition Chacha20Poly1305 (key : bytes) : res metaCipher :=
  if negb (zlen key =? 32) then Err (KeySizeError 32) else Ok (mkMeta key chacha20poly1305_New).

Definition XChacha20Poly1305 (key : bytes) : res metaCipher :=
  if negb (zlen key =? 32) then Err (KeySizeError 32) else Ok (mkMeta key chacha20poly1305_NewX).

(** [aeadList] *)
Definition aeadList : list (gostring * (Z * (bytes → res metaCipher))) :=
  [(lit "AEAD_AES_128_GCM", (16, AESGCM)); (lit "AEAD_AES_192_GCM", (24, AESGCM));
   (lit "AEAD_AES_256_GCM", (32, AESGCM)); (lit "AEAD_CHACHA20_POLY1305", (32, Chacha20Poly1305));
   (lit "AEAD_XCHACHA20_POLY1305", (32, XChacha20Poly1305))].

Definition lookupName {A} (l : list (gostring * A)) (name : gostring) : option A :=
  snd <$> List.find (λ e, bool_decide (e.1 = name)) l.

(** The aliases [PickCipher] accepts. *)
Definition cipherAlias (name : gostring) : gostring :=
  if bool_decide (name = lit "CHACHA20-IETF-POLY1305") then "AEAD_CHACHA20_POLY1305"
  else if bool_decide (name = lit "XCHACHA20-IETF-POLY1305") then "AEAD_XCHACHA20_POLY1305"
  else if bool_decide (name = lit "AES-128-GCM") then "AEAD_AES_128_GCM"
  else if bool_decide (name = lit "AES-192-GCM") then "AEAD_AES_192_GCM"
  else if bool_decide (name = lit "AES-256-GCM") then "AEAD_AES_256_GCM"
  else name.

(** [Kdf]: every round adds a digest of 16 bytes, so [keyLen] rounds are
    enough. *)
Fixpoint KdfLoop (fuel : nat) (password : gostring) (keyLen : Z) (b prev : bytes) : bytes :=
  match fuel with
  | O => b
  | S fuel =>
      if zlen b <? keyLen then
        let d := md5 (prev ++ password) in KdfLoop fuel password keyLen (b ++ d) d
      else b
  end.

Definition Kdf (password : gostring) (keyLen : Z) : bytes :=
  take (Z.to_nat keyLen) (KdfLoop (Z.to_nat keyLen) password keyLen [] []).

(** ** Connections *)

(** [Conn]: the stream, and the cipher and nonce of each direction once its
    salt was exchanged; the reader keeps its buffer too. *)
Record Conn := mkSConn {
  cStream : stream;
  cW : option (AEAD * bytes);
  cR : option (AEAD * bytes * option bytes);
}.

Definition NewConn (s : stream) : Conn := mkSConn s None None.

(** The writing side after [initWriter]; [salt] is what [rand.Read] fills in. *)
Definition initWriter (ciph : metaCipher) (salt : res bytes) (c : Conn) : res (AEAD * bytes) * Conn :=
  match cW c with
  | Some w => (Ok w, c)
  | None =>
      match salt with
      | Err e => (Err e, c)
      | Panic => (Panic, c)
      | Ok salt =>
          match Encrypter ciph salt with
          | Err e => (Err e, c)
          | Panic => (Panic, c)
          | Ok aead =>
              match send salt (cStream c) with
              | (Ok _, s) => (Ok (aead, zeroNonce), mkSConn s (Some (aead, zeroNonce)) (cR c))
              | (Err e, s) => (Err e, mkSConn s None (cR c))
              | (Panic, s) => (Panic, mkSConn s None (cR c))
              end
          end
      end
  end.

(** [Conn.Write]: the count and the error. *)
Definition connWrite (ciph : metaCipher) (salt : res bytes) (b : bytes) (c : Conn) : res (Z * option error) * Conn :=
  match initWriter ciph salt c with
  | (Err e, c) => (Ok (0, Some e), c)
  | (Panic, c) => (Panic, c)
  | (Ok (aead, nonce), c) =>
      let '(n, e, w) := @Write aead b (mkWriter nonce (cStream c)) in
      (Ok (n, e), mkSConn (wStream w) (Some (aead, wNonce w)) (cR c))
  end.

Definition initReader (ciph : metaCipher) (c : Conn) : res (AEAD * bytes * option bytes) * Conn :=
  match cR c with
  | Some r => (Ok r, c)
  | None =>
      match readFull (SaltSize ciph) (cStream c) with
      | (Ok salt, s) =>
          match Decrypter ciph salt with
          | Ok aead => (Ok (aead, zeroNonce, None), mkSConn s (cW c) (Some (aead, zeroNonce, None)))
          | Err e => (Err e, mkSConn s (cW c) None)
          | Panic => (Panic, mkSConn s (cW c) None)
          end
      | (Err e, s) => (Err e, mkSConn s (cW c) None)
      | (Panic, s) => (Panic, mkSConn s (cW c) None)
      end
  end.

(** [Conn.Read] into a slice of [len] bytes. *)
Definition connRead (ciph : metaCipher) (len : Z) (c : Conn) : res bytes * Conn :=
  match initReader ciph c with
  | (Err e, c) => (Err e, c)
  | (Panic, c) => (Panic, c)
  | (Ok (aead, nonce, buf), c) =>
      let '(o, r) := @Read aead len (mkReader nonce buf (cStream c)) in
      (o, mkSConn (rStream r) (cW c) (Some (aead, rNonce r, rBuf r)))
  end.

(** ** Packets (packet.go) *)

Definition ErrShortPacket : error := errorString "short packet".
Definition errShortBuffer : error := errorString "short buffer".
Definition maxPacketSize : Z := 64 * 1024.

(** [Pack] into a buffer of [dstLen] bytes. *)
Definition Pack (dstLen : Z) (plaintext : bytes) (ciph : metaCipher) (salt : res bytes) : res bytes :=
  if dstLen <? SaltSize ciph then Panic else
  salt ← salt;
  aead ← Encrypter ciph salt;
  if dstLen <? SaltSize ciph + zlen plaintext + @Overhead aead then Err errShortBuffer
  else Ok (salt ++ @Seal aead (replicate (@NonceSize aead) 0) plaintext).

Definition Unpack (dstLen : Z) (pkt : bytes) (ciph : metaCipher) : res bytes :=
  let saltSize := SaltSize ciph in
  if zlen pkt <? saltSize then Err ErrShortPacket else
  let salt := take (Z.to_nat saltSize) pkt in
  aead ← Decrypter ciph salt;
  if zlen pkt <? saltSize + @Overhead aead then Err ErrShortPacket
  else if saltSize + dstLen + @Overhead aead <? zlen pkt then Err errShortBuffer
  else @Open aead (replicate (@NonceSize aead) 0) (drop (Z.to_nat saltSize) pkt).
End Ciphers.

(** ** The two ends of a connection *)

Section Roundtrip.
Context (hkdfSHA1 : bytes → bytes → gostring → Z → bytes).
Context (ciph : metaCipher).

(** The constructor returns ciphers. *)
Definition constructsCiphers : Prop := ∀ key aead, makeAEAD ciph key = Ok aead → AEADLaws aead.

(** A sequence of writes; the result is [None] as soon as one fails. *)
Fixpoint connWrites (salt : bytes) (ps : list bytes) (c : Conn) : option Conn :=
  match ps with
  | [] => Some c
  | p :: ps =>
      match connWrite hkdfSHA1 ciph (Ok salt) p c with
      | (Ok (n, None), c) => if n =? zlen p then connWrites salt ps c else None
      | _ => None
      end
  end.

(** Reads with the given buffer sizes, up to the first error. *)
Fixpoint connDrain (lens : list Z) (c : Conn) : list bytes * option error * Conn :=
  match lens with
  | [] => ([], None, c)
  | len :: lens =>
      match connRead hkdfSHA1 ciph len c with
      | (Ok o, c) => let '(os, e, c) := connDrain lens c in (o :: os, e, c)
      | (Err e, c) => ([], Some e, c)
      | (Panic, c) => ([], None, c)
      end
  end.

(** The payloads of all the chunks of the writes. *)
Definition allPieces (ps : list bytes) : list bytes := ps ≫= λ p, pieces (length p) p.

Lemma allPieces_cons p ps : allPieces (p :: ps) = pieces (length p) p ++ allPieces ps.
Proof. done. Qed.

Lemma allPieces_facts ps : Forall payloadOK (allPieces ps) ∧ mjoin (allPieces ps) = mjoin ps.
Proof.
  induction ps as [|p ps [IH1 IH2]]; [done|]. rewrite allPieces_cons. split.
  - apply Forall_app. split; [apply pieces_ok|done].
  - rewrite join_app, IH2, pieces_concat by done. done.
Qed.

Lemma connWrites_open aead `{!AEADLaws aead} salt ps j inp out r :
  0 ≤ j → Forall (λ p, p ≠ []) ps →
  ∃ c, connWrites salt ps (mkSConn (quietStream inp out) (Some (aead, storedAt (2 * j))) r) = Some c ∧
    cStream c = quietStream inp (out ++ chunksFrom j (allPieces ps)).
Proof.
  intros Hj HP. revert j out Hj. induction HP as [|p ps Hp HP IH]; intros j out Hj.
  { eexists. split; [done|]. by rewrite app_nil_r. }
  cbn [connWrites]. unfold connWrite, initWriter. cbn [cW cStream]. unfold Write.
  rewrite bool_decide_eq_false_2, writeLoop_spec by done. cbn [wStream wNonce cR]. rewrite Z.add_0_l, Z.eqb_refl.
  destruct (IH (j + zlen (pieces (length p) p)) (out ++ chunksFrom j (pieces (length p) p))) as (c & E & Ec).
  { pose proof (zlen_nonneg (pieces (length p) p)). lia. }
  exists c. split; [exact E|]. rewrite Ec, allPieces_cons, chunksFrom_app, app_assoc. done.
Qed.

(** The reader of a connection whose salt was read delivers [rem]. *)
Definition connDelivers (aead : AEAD) `{!AEADLaws aead} (c : Conn) (rem : bytes) : Prop :=
  ∃ nonce buf, cR c = Some (aead, nonce, buf) ∧ delivers (mkReader nonce buf (cStream c)) rem.

Lemma connDrain_delivers aead `{!AEADLaws aead} lens c rem :
  Forall (λ len, 1 ≤ len) lens → connDelivers aead c rem →
  ∃ os e c', connDrain lens c = (os, e, c') ∧ Forall (λ o, o ≠ []) os ∧
    match e with
    | None => length os = length lens ∧ mjoin os `prefix_of` rem
    | Some e => e = errEOF ∧ mjoin os = rem
    end.
Proof.
  intros HL. revert c rem. induction HL as [|len lens Hl HL IH]; intros c rem (nonce & buf & Ec & Hd); cbn [connDrain].
  { eexists _, _, _. split; [reflexivity|]. split; [done|]. split; [done|]. apply prefix_nil. }
  unfold connRead, initReader. rewrite Ec.
  destruct (Read_delivers len _ rem Hl Hd) as [[-> [r' ->]]|(o & rem' & r' & -> & Ho & _ & -> & Hd')].
  { eexists _, _, _. split; [reflexivity|]. done. }
  destruct (IH (mkSConn (rStream r') (cW c) (Some (aead, rNonce r', rBuf r'))) rem') as (os & e & r'' & -> & Hos & He).
  { eexists _, _. split; [done|]. by destruct r'. }
  eexists _, _, _. split; [reflexivity|]. split; [by constructor|]. change (mjoin (o :: os)) with (o ++ mjoin os).
  destruct e as [e|].
  - destruct He as [-> ->]. done.
  - destruct He as [Hlen Hp]. split; [by cbn; rewrite Hlen|]. by apply prefix_app.
Qed.

(** C10: an encrypted stream delivers what was written.  Whatever non-empty
    writes one end makes, all of them succeed; the other end, reading with
    whatever positive buffer sizes, receives non-empty pieces that join to a
    prefix of the data, and sees the end of the stream exactly when it has
    received all of it. *)
Theorem shadow_roundtrip (salt : bytes) (aead : AEAD) (ps : list bytes) (lens : list Z) :
  constructsCiphers → Encrypter hkdfSHA1 ciph salt = Ok aead → zlen salt = SaltSize ciph →
  ps ≠ [] → Forall (λ p, p ≠ []) ps → Forall (λ len, 1 ≤ len) lens →
  ∃ sender os e receiver,
    connWrites salt ps (NewConn (quietStream [] [])) = Some sender ∧
    connDrain lens (NewConn (quietStream (mjoin (output (cStream sender))) [])) = (os, e, receiver) ∧
    Forall (λ o, o ≠ []) os ∧
    match e with
    | None => length os = length lens ∧ mjoin os `prefix_of` mjoin ps
    | Some e => e = errEOF ∧ mjoin os = mjoin ps
    end.
Proof.
  intros Hc He Hsalt Hne HP HL. assert (AEADLaws aead) as Laws by (by eapply Hc).
  destruct (connWrites_open aead salt ps 0 [] [salt] None ltac:(lia) HP) as (c & Ew & Ec).
  assert (connWrites salt ps (NewConn (quietStream [] [])) = Some c) as Ew'.
  { rewrite <- Ew. destruct ps as [|p ps]; [done|]. cbn [connWrites]. unfold connWrite, initWriter, NewConn.
    cbn [cW cStream cR]. rewrite He, send_quiet. cbn [cStream cR app]. by rewrite storedAt_zero. }
  exists c. rewrite Ew', Ec. cbn [output quietStream app].
  destruct (allPieces_facts ps) as [Hok Hjoin].
  destruct lens as [|len lens]; [by eexists [], None, _; split_and!; [..|apply prefix_nil]|].
  change (mjoin (salt :: chunksFrom 0 (allPieces ps))) with (salt ++ mjoin (chunksFrom 0 (allPieces ps))).
  set (data := mjoin (chunksFrom 0 (allPieces ps))).
  set (c1 := mkSConn (mkStream data [] (λ _, None)) None (Some (aead, zeroNonce, None))).
  assert (connDrain (len :: lens) (NewConn (quietStream (salt ++ data) [])) = connDrain (len :: lens) c1) as ->.
  { cbn [connDrain]. unfold connRead at 1, initReader, NewConn, quietStream. cbn [cR cStream cW].
    rewrite readFull_app by done. change (Decrypter hkdfSHA1 ciph salt) with (Encrypter hkdfSHA1 ciph salt).
    by rewrite He. }
  destruct (connDrain_delivers aead (len :: lens) c1 (mjoin ps) HL) as (os & e & c' & E & Hos & Hres).
  { exists zeroNonce, None. split; [done|]. exists 0, (allPieces ps), [], (λ _, None).
    rewrite <- storedAt_zero, Hjoin. done. }
  exists os, e, c'. done.
Qed.

(** No nonce is used twice.  The [i]-th seal of a connection (counting the
    sealed lengths and payloads together) is made under the nonce that stands
    for [i], and different numbers below [256 ^ NonceSize] have different
    nonces. *)
Theorem nonces_distinct (aead : AEAD) (ps : list bytes) (inp : bytes) (i j : Z) :
  AEADLaws aead → Forall (λ p, p ≠ []) ps →
  0 ≤ i < 256 ^ Z.of_nat NonceSize → 0 ≤ j < 256 ^ Z.of_nat NonceSize →
  (∃ c, connWrites [] ps (mkSConn (quietStream inp []) (Some (aead, zeroNonce)) None) = Some c ∧
     output (cStream c) =
       imap (λ k p, Seal (nonceAt (2 * Z.of_nat k)) (put_be16 (zlen p)) ++ Seal (nonceAt (2 * Z.of_nat k + 1)) p)
         (allPieces ps)) ∧
  (nonceAt i = nonceAt j ↔ i = j).
Proof.
  intros Laws HP Hi Hj. split; [|split; [by apply le_bytes_inj|congruence]].
  destruct (connWrites_open aead [] ps 0 inp [] None ltac:(lia) HP) as (c & E & Ec).
  exists c. rewrite <- storedAt_zero. split; [exact E|]. by rewrite Ec.
Qed.

(** Packets survive the wire.  A payload that fits a datagram buffer is
    packed, and unpacking the packet in a buffer at least as long gives the
    payload back. *)
Theorem shadow_packet_roundtrip (salt : bytes) (aead : AEAD) (payload : bytes) (dstLen : Z) :
  constructsCiphers → Encrypter hkdfSHA1 ciph salt = Ok aead → zlen salt = SaltSize ciph →
  SaltSize ciph + zlen payload + @Overhead aead ≤ maxPacketSize → zlen payload ≤ dstLen →
  ∃ packet, Pack hkdfSHA1 maxPacketSize payload ciph (Ok salt) = Ok packet ∧
    zlen packet = SaltSize ciph + zlen payload + @Overhead aead ∧
    Unpack hkdfSHA1 dstLen packet ciph = Ok payload.
Proof.
  intros Hc He Hsalt Hfit Hdst. assert (AEADLaws aead) as Laws by (by eapply Hc).
  pose proof (overhead_range (A := aead)). pose proof (zlen_nonneg payload). pose proof (zlen_nonneg salt).
  unfold Pack. destruct (Z.ltb_spec maxPacketSize (SaltSize ciph)); [lia|]. cbn [mbind res_bind]. rewrite He.
  cbn [mbind res_bind]. destruct (Z.ltb_spec maxPacketSize (SaltSize ciph + zlen payload + @Overhead aead)); [lia|].
  eexists. split; [reflexivity|].
  assert (zlen (salt ++ Seal (replicate NonceSize 0) payload) = SaltSize ciph + zlen payload + @Overhead aead) as El.
  { rewrite zlen_app, seal_length. lia. }
  split; [exact El|]. unfold Unpack. rewrite El. cbv zeta.
  destruct (Z.ltb_spec (SaltSize ciph + zlen payload + @Overhead aead) (SaltSize ciph)); [lia|].
  replace (Z.to_nat (SaltSize ciph)) with (length salt) by (unfold zlen in Hsalt; lia).
  rewrite take_app_length, drop_app_length.
  change (Decrypter hkdfSHA1 ciph salt) with (Encrypter hkdfSHA1 ciph salt). rewrite He. cbn [mbind res_bind].
  destruct (Z.ltb_spec (SaltSize ciph + zlen payload + @Overhead aead) (SaltSize ciph + @Overhead aead)); [lia|].
  destruct (Z.ltb_spec (SaltSize ciph + dstLen + @Overhead aead) (SaltSize ciph + zlen payload + @Overhead aead)); [lia|].
  apply open_seal.
Qed.
End Roundtrip.

(** A cipher for examples: the tag is sixteen zeros. *)
Definition plainAEAD : AEAD := {|
  NonceSize := 12;
  Overhead := 16;
  Seal := λ _ p, p ++ replicate 16 0;
  Open := λ _ c, if zlen c <? 16 then fail "short" else Ok (take (length c - 16) c);
|}.

#[global] Instance plainAEAD_laws : AEADLaws plainAEAD.
Proof.
  constructor; cbn [NonceSize Overhead Seal Open plainAEAD]; [lia|lia|..]; intros.
  - rewrite zlen_app. done.
  - destruct (Z.ltb_spec (zlen (p ++ replicate 16 0)) 16) as [Hlt|].
    + exfalso. rewrite zlen_app in Hlt. pose proof (zlen_nonneg p). change (zlen (replicate 16 0)) with 16 in Hlt. lia.
    + rewrite length_app. change (length (replicate 16 0)) with 16%nat.
      replace (length p + 16 - 16)%nat with (length p) by lia. by rewrite take_app_length.
Qed.

Definition plainCipher : metaCipher := mkMeta (replicate 16 7) (λ _, Ok plainAEAD).

Lemma plainCipher_constructs : constructsCiphers plainCipher.
Proof. intros key aead [= <-]. apply _. Qed.

Definition noKDF : bytes → bytes → gostring → Z → bytes := λ _ _ _ _, [].

Lemma shadow_roundtrip_witness :
  ∃ sender os receiver,
    connWrites noKDF plainCipher (replicate 16 1) [lit "hello"; lit "world"] (NewConn (quietStream [] [])) = Some sender ∧
    connDrain noKDF plainCipher [3; 100; 1; 8; 5] (NewConn (quietStream (mjoin (output (cStream sender))) [])) =
      (os, Some errEOF, receiver) ∧ mjoin os = lit "helloworld".
Proof.
  destruct (shadow_roundtrip noKDF plainCipher (replicate 16 1) plainAEAD [lit "hello"; lit "world"] [3; 100; 1; 8; 5])
    as (sender & os & e & receiver & Es & Er & _ & H).
  - exact plainCipher_constructs.
  - reflexivity.
  - reflexivity.
  - discriminate.
  - repeat constructor; discriminate.
  - repeat first [constructor | lia].
  - exists sender, os, receiver. split; [exact Es|]. destruct e as [e|].
    + destruct H as [-> H]. split; [exact Er|exact H].
    + exfalso. vm_compute in Es. injection Es as <-. vm_compute in Er. discriminate Er.
Defined.

Lemma nonces_distinct_witness :
  nonceAt (A := plainAEAD) 255 ≠ nonceAt (A := plainAEAD) 256 ∧
  ∃ c, connWrites noKDF plainCipher [] [lit "hello"] (mkSConn (quietStream [] []) (Some (plainAEAD, zeroNonce)) None) = Some c.
Proof.
  destruct (nonces_distinct noKDF plainCipher plainAEAD [lit "hello"] [] 255 256) as [(c & E & _) Hd].
  - apply _.
  - repeat constructor; discriminate.
  - split; [lia|]. vm_compute. reflexivity.
  - split; [lia|]. vm_compute. reflexivity.
  - split; [|exists c; exact E]. intros E'. apply Hd in E'. discriminate E'.
Defined.

Lemma shadow_packet_roundtrip_witness :
  ∃ packet, Pack noKDF maxPacketSize (lit "hello") plainCipher (Ok (replicate 16 1)) = Ok packet ∧
    Unpack noKDF 5 packet plainCipher = Ok (lit "hello").
Proof.
  destruct (shadow_packet_roundtrip noKDF plainCipher (replicate 16 1) plainAEAD (lit "hello") 5)
    as (packet & E1 & _ & E2).
  - exact plainCipher_constructs.
  - reflexivity.
  - reflexivity.
  - vm_compute. discriminate.
  - vm_compute. discriminate.
  - exists packet. split; [exact E1|exact E2].
Defined.

(** Copying a source to its end with [ReadFrom] ends the stream with an empty
    chunk, which the other end's reader reports as the error [ErrZeroChunk]
    where a stream made by [Write] just ends. *)
Theorem readFrom_ends_in_error (aead : AEAD) (reads : list bytes) (out : list bytes) f :
  AEADLaws aead →
  ∃ w, ReadFrom (((λ b, (b, None)) <$> reads) ++ [([], Some errEOF)]) 0 (NewWriter (quietStream [] [])) =
         (zlen (mjoin reads), None, w) ∧
    ∃ chunks last r, output (wStream w) = chunks ++ [last] ∧ length chunks = length reads ∧
      read (mkReader (storedAt (2 * zlen reads)) None (mkStream last out f)) = (Err ErrZeroChunk, r).
Proof.
  intros Laws. unfold NewWriter. rewrite <- storedAt_zero.
  destruct (ReadFrom_spec reads [] 0 0 [] [] ltac:(lia)) as (w & E & Ew).
  exists w. rewrite app_nil_r in E. split; [exact E|].
  rewrite chunksFrom_app in Ew. pose proof (zlen_nonneg reads).
  destruct (read_zero_chunk (zlen reads) [] None out f ltac:(lia)) as [r Er]. rewrite app_nil_r in Er.
  exists (chunksFrom 0 reads), (chunkAt (zlen reads) []), r. split_and!; [|by apply length_imap|exact Er].
  rewrite Ew. cbn [app]. rewrite chunksFrom_cons. done.
Qed.
