(* ===== verification/DnsMsg.v ===== *)
(** * DNS messages and the client that resists hijacking (core/dns.go)

    Messages and records are those of the package miekg/dns, with the fields the
    program reads or writes; the package's own functions are the class [DNSLib].
    [antiHijackDNSClient] sends one query over UDP and reads replies until a
    deadline: replies that come too early are forged, and among the others the
    one with the most records is believed.

    What a socket delivers is the argument [session]: the replies in the order
    of their arrival, each with the time since the query was sent, and then the
    error of the read that fails, which exists because a read deadline is set.
    Times are in nanoseconds since the query; the durations that the callers
    drop are left out of the results. *)

From S2P Require Import Prelude Errors Netip FakeIP.
Local Open Scope Z_scope.

(** ** Messages *)

Definition ClassINET : Z := 1.
Definition TypeCNAME : Z := 5.
Definition TypeOPT : Z := 41.
Definition TypeSVCB : Z := 64.
Definition TypeHTTPS : Z := 65.
Definition RcodeSuccess : Z := 0.
Definition EDNS0SUBNET : Z := 8.
Definition MinMsgSize : Z := 512.

Record RR_Header := mkHdr { hName : gostring; hRrtype : Z; hClass : Z; hTtl : Z }.

#[global] Instance RR_Header_eq_dec : EqDecision RR_Header.
Proof. solve_decision. Defined.

(** An EDNS0 option: its code, and for the client subnet its content. *)
Inductive EDNS0 :=
| Subnet (family sourceNetmask : Z) (address : bytes)
| OtherOption (code : Z).

#[global] Instance EDNS0_eq_dec : EqDecision EDNS0.
Proof. solve_decision. Defined.

Definition OptionCode (o : EDNS0) : Z := match o with Subnet _ _ _ => EDNS0SUBNET | OtherOption c => c end.

(** The record types the program tells apart; the empty address is the nil
    [net.IP]. *)
Inductive RR :=
| RR_A (hdr : RR_Header) (a : bytes)
| RR_AAAA (hdr : RR_Header) (aaaa : bytes)
| RR_CNAME (hdr : RR_Header) (target : gostring)
| RR_HTTPS (hdr : RR_Header)
| RR_SVCB (hdr : RR_Header)
| RR_OPT (hdr : RR_Header) (options : list EDNS0)
| RR_Other (hdr : RR_Header).

#[global] Instance RR_eq_dec : EqDecision RR.
Proof. solve_decision. Defined.

Definition Header (rr : RR) : RR_Header :=
  match rr with
  | RR_A h _ | RR_AAAA h _ | RR_CNAME h _ | RR_HTTPS h | RR_SVCB h | RR_OPT h _ | RR_Other h => h
  end.

Record Question := mkQuestion { qName : gostring; qType : Z; qClass : Z }.

#[global] Instance Question_eq_dec : EqDecision Question.
Proof. solve_decision. Defined.

Record Msg := mkMsg {
  mId : Z;
  mRcode : Z;
  mQuestion : list Question;
  mAnswer : list RR;
  mNs : list RR;
  mExtra : list RR;
}.

#[global] Instance Msg_eq_dec : EqDecision Msg.
Proof. solve_decision. Defined.

(** [new(dns.Msg)], and [SetQuestion] with the fresh id it draws. *)
Definition newMsg : Msg := mkMsg 0 0 [] [] [] [].

Definition SetQuestion (id : Z) (z : gostring) (t : Z) (m : Msg) : Msg :=
  mkMsg id (mRcode m) [mkQuestion z t ClassINET] (mAnswer m) (mNs m) (mExtra m).

Definition setExtra (m : Msg) (extra : list RR) : Msg :=
  mkMsg (mId m) (mRcode m) (mQuestion m) (mAnswer m) (mNs m) extra.

Definition setAnswer (m : Msg) (answer : list RR) : Msg :=
  mkMsg (mId m) (mRcode m) (mQuestion m) answer (mNs m) (mExtra m).

(** The package's functions: the wire format, the names of codes and types, and
    the UDP size that the OPT record of a message announces, if it has one. *)
Class DNSLib := {
  Pack : Msg → res bytes;
  Unpack : bytes → res Msg;
  RcodeToString : Z → gostring;
  TypeToString : Z → gostring;
  IsEdns0 : Msg → option Z;
}.

(** ** Picking records *)

Fixpoint pickFirstARecord (answer : list RR) : bytes :=
  match answer with
  | [] => []
  | RR_A _ a :: _ => a
  | _ :: answer' => pickFirstARecord answer'
  end.

Fixpoint pickFirstAAAARecord (answer : list RR) : bytes :=
  match answer with
  | [] => []
  | RR_AAAA _ a :: _ => a
  | _ :: answer' => pickFirstAAAARecord answer'
  end.

Definition hasEDNS0Subnet (resp : Msg) : bool :=
  existsb (λ rr, match rr with
                 | RR_OPT _ options => existsb (λ o, OptionCode o =? EDNS0SUBNET) options
                 | _ => false
                 end) (mExtra resp).

(** ** The client *)

(** The fields of [dns.Client] in use; a dialer without a timeout is [None]. *)
Record Client := mkClient {
  cNet : gostring;
  cUDPSize : Z;
  cTimeout : Z;
  cReadTimeout : Z;
  cWriteTimeout : Z;
  cDialerTimeout : option Z;
}.

Record antiHijackDNSClient := mkAntiHijack {
  ahClient : Client;
  waitTimeout : Z;
  minRTT : Z;
}.

Definition dnsRWTimeout : Z := 2 * second.

Definition readTimeout (c : antiHijackDNSClient) : Z :=
  if negb (cTimeout (ahClient c) =? 0) then cTimeout (ahClient c)
  else if negb (cReadTimeout (ahClient c) =? 0) then cReadTimeout (ahClient c)
  else dnsRWTimeout.

Definition writeTimeout (c : antiHijackDNSClient) : Z :=
  if negb (cTimeout (ahClient c) =? 0) then cTimeout (ahClient c)
  else if negb (cWriteTimeout (ahClient c) =? 0) then cWriteTimeout (ahClient c)
  else dnsRWTimeout.

Definition getTimeoutForRequest (c : antiHijackDNSClient) (timeout : Z) : Z :=
  let requestTimeout := if negb (cTimeout (ahClient c) =? 0) then cTimeout (ahClient c) else timeout in
  match cDialerTimeout (ahClient c) with
  | Some d => if negb (d =? 0) && (d <? requestTimeout) then d else requestTimeout
  | None => requestTimeout
  end.

(** A connected socket: what [WriteMsg] answers under a write deadline, and what
    [ReadMsg] delivers for a buffer size and a read deadline. *)
Record session := mkSession {
  coUDPSize : Z;
  writeMsg : Z → Msg → option error;
  replies : Z → Z → list (Msg * Z);
  readError : Z → Z → error;
}.

Definition recordCount (r : Msg) : Z := zlen (mAnswer r) + zlen (mNs r) + zlen (mExtra r).

(** The end of the exchange: the best reply, or the last one read together with
    [lastErr]. *)
Definition finishRead (best : option Msg) (last : res Msg) : res Msg :=
  match best with
  | Some r => Ok r
  | None => last
  end.

Definition bestCount (best : option Msg) : Z := from_option recordCount 0 best.

(** The read loop.  [edns0] says whether a client subnet is configured. *)
Fixpoint readLoop (c : antiHijackDNSClient) (edns0 : bool) (id : Z) (rs : list (Msg * Z)) (lastErr : error)
    (best : option Msg) : res Msg :=
  match rs with
  | [] => finishRead best (Err lastErr)
  | (r, curRTT) :: rs' =>
      if negb (minRTT c =? 0) && (curRTT <? minRTT c) then readLoop c edns0 id rs' lastErr best
      else if (mId r =? id) && ((waitTimeout c <=? 0) || (edns0 && hasEDNS0Subnet r)) then Ok r
      else
        let best := if (mId r =? id) && (bestCount best <=? recordCount r) then Some r else best in
        if (0 <? waitTimeout c) && (waitTimeout c <=? curRTT) then finishRead best (Ok r)
        else readLoop c edns0 id rs' lastErr best
  end.

Section Exchange.
Context `{DNSLib}.

Definition udpSizeFor (c : antiHijackDNSClient) (m : Msg) (co : session) : Z :=
  match IsEdns0 m with
  | Some s => if MinMsgSize <=? s then s else coUDPSize co
  | None => if MinMsgSize <=? cUDPSize (ahClient c) then cUDPSize (ahClient c) else coUDPSize co
  end.

Definition earlier (deadline : option Z) (d : Z) : Z :=
  match deadline with
  | Some t => if t <? d then t else d
  | None => d
  end.

Definition readDeadlineOf (c : antiHijackDNSClient) (ctxDeadline : option Z) : Z :=
  let d := earlier ctxDeadline (getTimeoutForRequest c (readTimeout c)) in
  if negb (waitTimeout c =? 0) && (waitTimeout c <? d) then waitTimeout c else d.

Definition ExchangeWithConnContext (c : antiHijackDNSClient) (edns0 : bool) (ctxDeadline : option Z)
    (m : Msg) (co : session) : res Msg :=
  let size := udpSizeFor c m co in
  let writeDeadline := earlier ctxDeadline (getTimeoutForRequest c (writeTimeout c)) in
  let readDeadline := readDeadlineOf c ctxDeadline in
  match writeMsg co writeDeadline m with
  | Some e => Err e
  | None => readLoop c edns0 (mId m) (replies co size readDeadline) (readError co size readDeadline) None
  end.

Definition ExchangeWithConn (c : antiHijackDNSClient) (edns0 : bool) (m : Msg) (co : session) : res Msg :=
  ExchangeWithConnContext c edns0 None m co.

(** [dial] is the client's [Dial]. *)
Definition Exchange (c : antiHijackDNSClient) (edns0 : bool) (m : Msg) (dial : res session) : res Msg :=
  co ← dial; ExchangeWithConn c edns0 m co.
End Exchange.

(** ** Which reply is believed *)

(** A reply to this very query that did not come too early. *)
Definition trusted (c : antiHijackDNSClient) (id : Z) (x : Msg * Z) : Prop :=
  mId x.1 = id ∧ (minRTT c = 0 ∨ minRTT c ≤ x.2).

(** A reply that ends the wait at once. *)
Definition conclusive (c : antiHijackDNSClient) (edns0 : bool) (r : Msg) : bool :=
  (waitTimeout c <=? 0) || (edns0 && hasEDNS0Subnet r).

(** The [i]-th reply has the most records of the trusted ones, and is the last of
    those with as many. *)
Definition richest (c : antiHijackDNSClient) (id : Z) (rs : list (Msg * Z)) (i : nat) (r : Msg) : Prop :=
  ∀ j r' t', rs !! j = Some (r', t') → trusted c id (r', t') →
    recordCount r' ≤ recordCount r ∧ (recordCount r' = recordCount r → (j ≤ i)%nat).

(** The best of the replies read so far, none of which was conclusive. *)
Definition bestSoFar (c : antiHijackDNSClient) (edns0 : bool) (id : Z) (ps : list (Msg * Z)) (best : option Msg) : Prop :=
  (∀ x, x ∈ ps → trusted c id x → conclusive c edns0 x.1 = false) ∧
  match best with
  | None => ∀ x, x ∈ ps → ¬ trusted c id x
  | Some r => ∃ i t, ps !! i = Some (r, t) ∧ trusted c id (r, t) ∧ richest c id ps i r
  end.

Lemma early_untrusted c id r t :
  negb (minRTT c =? 0) && (t <? minRTT c) = true → ¬ trusted c id (r, t).
Proof. rewrite andb_true_iff, negb_true_iff, Z.eqb_neq, Z.ltb_lt. intros [? ?] [_ [?|?]]; simpl in *; lia. Qed.

Lemma trusted_iff c id r t :
  negb (minRTT c =? 0) && (t <? minRTT c) = false → trusted c id (r, t) ↔ mId r = id.
Proof.
  rewrite andb_false_iff, negb_false_iff, Z.eqb_eq, Z.ltb_ge. intros Ht. unfold trusted. simpl. tauto.
Qed.

Lemma recordCount_nonneg r : 0 ≤ recordCount r.
Proof. unfold recordCount. pose proof (zlen_nonneg (mAnswer r)). pose proof (zlen_nonneg (mNs r)). pose proof (zlen_nonneg (mExtra r)). lia. Qed.

Lemma bestSoFar_skip c edns0 id ps best x :
  bestSoFar c edns0 id ps best → ¬ trusted c id x → bestSoFar c edns0 id (ps ++ [x]) best.
Proof.
  intros [Hcon Hb] Hx. split.
  - intros y [?| ->%list_elem_of_singleton]%elem_of_app; [auto|done].
  - destruct best as [r|].
    + destruct Hb as (i & t & Hi & Htr & Hmax). exists i, t. split_and!; [by apply lookup_app_l_Some|done|].
      intros j r' t' [Hj|[_ Hj]]%lookup_app_Some Ht'; [eauto|].
      apply list_lookup_singleton_Some in Hj as [_ ->]. done.
    + intros y [?| ->%list_elem_of_singleton]%elem_of_app; [auto|done].
Qed.

Lemma bestSoFar_take c edns0 id ps best r t :
  bestSoFar c edns0 id ps best → trusted c id (r, t) → conclusive c edns0 r = false →
  bestSoFar c edns0 id (ps ++ [(r, t)]) (if bestCount best <=? recordCount r then Some r else best).
Proof.
  intros [Hcon Hb] Hx Hc. split.
  { intros y [?| ->%list_elem_of_singleton]%elem_of_app; auto. }
  destruct (Z.leb_spec (bestCount best) (recordCount r)) as [Hle|Hlt].
  - exists (length ps), t. split_and!; [by apply list_lookup_middle|done|].
    intros j r' t' [Hj|[_ Hj]]%lookup_app_Some Ht'.
    + split; [|intros _; apply lookup_lt_Some in Hj; lia]. destruct best as [b|].
      * destruct Hb as (i & tb & _ & _ & Hmax). destruct (Hmax _ _ _ Hj Ht'). simpl in Hle. lia.
      * by destruct (Hb _ (list_elem_of_lookup_2 _ _ _ Hj)).
    + apply list_lookup_singleton_Some in Hj as [Hj [= <- <-]]. split; [lia|]. intros _. lia.
  - destruct best as [b|]; [|pose proof (recordCount_nonneg r); simpl in Hlt; lia]. simpl in Hlt.
    destruct Hb as (i & tb & Hi & Htb & Hmax). exists i, tb. split_and!; [by apply lookup_app_l_Some|done|].
    intros j r' t' [Hj|[_ Hj]]%lookup_app_Some Ht'; [eauto|].
    apply list_lookup_singleton_Some in Hj as [_ [= <- <-]]. split; lia.
Qed.

(** What the loop returns: a trusted reply, conclusive or the richest. *)
Definition believed (c : antiHijackDNSClient) (edns0 : bool) (id : Z) (rs : list (Msg * Z)) (r : Msg) : Prop :=
  ∃ i t, rs !! i = Some (r, t) ∧ trusted c id (r, t) ∧
    ((conclusive c edns0 r = true ∧ ∀ x, x ∈ take i rs → trusted c id x → conclusive c edns0 x.1 = false) ∨
     ((∀ x, x ∈ rs → trusted c id x → conclusive c edns0 x.1 = false) ∧ richest c id rs i r)).

(** A reply that is not too early and comes when the wait has run out ends the
    loop. *)
Definition tooLate (c : antiHijackDNSClient) (x : Msg * Z) : bool :=
  negb (negb (minRTT c =? 0) && (x.2 <? minRTT c)) && ((0 <? waitTimeout c) && (waitTimeout c <=? x.2)).

(** The replies that are read unless a conclusive one ends the loop before. *)
Fixpoint heard (c : antiHijackDNSClient) (rs : list (Msg * Z)) : list (Msg * Z) :=
  match rs with
  | [] => []
  | x :: rs' => if tooLate c x then [x] else x :: heard c rs'
  end.

(** What the loop falls back on when it has kept nothing: the reply it read last,
    although it is not to the query. *)
Definition strayed (c : antiHijackDNSClient) (id : Z) (rs : list (Msg * Z)) (r : Msg) : Prop :=
  (∀ x, x ∈ rs → ¬ trusted c id x) ∧ ∃ t, last rs = Some (r, t) ∧ tooLate c (r, t) = true ∧ mId r ≠ id.

Lemma readLoop_spec c edns0 id rs e : ∀ ps best, bestSoFar c edns0 id ps best →
  match readLoop c edns0 id rs e best with
  | Ok r => believed c edns0 id (ps ++ heard c rs) r ∨ strayed c id (ps ++ heard c rs) r
  | Err e' => e' = e ∧ heard c rs = rs ∧ (∀ x, x ∈ rs → tooLate c x = false) ∧ ∀ x, x ∈ ps ++ rs → ¬ trusted c id x
  | Panic => False
  end.
Proof.
  induction rs as [|[r t] rs IH]; intros ps best Hb; cbn [readLoop heard].
  - rewrite app_nil_r. destruct best as [r|]; cbn [finishRead]; destruct Hb as [Hcon Hb]; [|split_and!; [done|done|set_solver|done]].
    destruct Hb as (i & t & Hi & Ht & Hmax). left. exists i, t. split_and!; [done..|]. by right.
  - assert (∀ best', tooLate c (r, t) = false → bestSoFar c edns0 id (ps ++ [(r, t)]) best' →
      match readLoop c edns0 id rs e best' with
      | Ok r0 => believed c edns0 id (ps ++ (r, t) :: heard c rs) r0 ∨ strayed c id (ps ++ (r, t) :: heard c rs) r0
      | Err e' => e' = e ∧ (r, t) :: heard c rs = (r, t) :: rs ∧ (∀ x, x ∈ (r, t) :: rs → tooLate c x = false) ∧
          ∀ x, x ∈ ps ++ (r, t) :: rs → ¬ trusted c id x
      | Panic => False
      end) as Hgo.
    { intros best' Hl Hb'. specialize (IH _ _ Hb'). rewrite <- !app_assoc in IH. cbn [app] in IH.
      destruct (readLoop c edns0 id rs e best') as [r0|e'|]; [done| |done].
      destruct IH as (-> & -> & Hall & Hno). split_and!; [done|done| |done]. intros x [->|Hx]%elem_of_cons; auto. }
    assert (tooLate c (r, t) = negb (negb (minRTT c =? 0) && (t <? minRTT c)) && ((0 <? waitTimeout c) && (waitTimeout c <=? t))) as El by done.
    rewrite El in Hgo |- *. clear El.
    destruct (negb (minRTT c =? 0) && (t <? minRTT c)) eqn:Eearly; cbn [negb andb] in *.
    { apply Hgo; [done|]. by apply bestSoFar_skip; [|eapply early_untrusted]. }
    fold (conclusive c edns0 r). pose proof (trusted_iff c id r t Eearly) as Htr.
    destruct (Z.eqb_spec (mId r) id) as [Eid|Eid]; cbn [andb].
    + destruct (conclusive c edns0 r) eqn:Ec.
      { left. destruct ((0 <? waitTimeout c) && (waitTimeout c <=? t)); (exists (length ps), t; split_and!; [by apply list_lookup_middle|by apply Htr|];
          left; split; [done|]; rewrite take_app_length; apply Hb). }
      pose proof (bestSoFar_take c edns0 id ps best r t Hb ltac:(by apply Htr) Ec) as Hb'.
      destruct ((0 <? waitTimeout c) && (waitTimeout c <=? t)); [|by apply Hgo].
      destruct (if bestCount best <=? recordCount r then Some r else best) as [b|] eqn:Ebest; cbn [finishRead].
      * left. destruct Hb' as [Hcon (i & tb & Hi & Htb & Hmax)]. exists i, tb. split_and!; [done..|]. by right.
      * exfalso. destruct (bestCount best <=? recordCount r) eqn:El; [done|]. subst best. cbn in El.
        pose proof (recordCount_nonneg r). destruct (Z.leb_spec 0 (recordCount r)); [done|lia].
    + pose proof (bestSoFar_skip c edns0 id ps best (r, t) Hb ltac:(by rewrite Htr)) as Hb'.
      destruct ((0 <? waitTimeout c) && (waitTimeout c <=? t)) eqn:El; [|by apply Hgo].
      destruct best as [b|]; cbn [finishRead].
      * left. destruct Hb' as [Hcon (i & tb & Hi & Htb & Hmax)]. exists i, tb. split_and!; [done..|]. by right.
      * right. split; [by destruct Hb'|]. exists t. split_and!; [by rewrite last_snoc| |done].
        unfold tooLate. cbn [snd]. by rewrite Eearly, El.
Qed.

(** C23: the whole exchange of the client that resists hijacking.  When the query
    cannot be written, that error is returned.  Otherwise the replies are read until
    the socket fails or one comes when the configured wait has run out ([heard]), and
    the exchange returns, of those that are to its own query and not too early, the
    first conclusive one (any, if no wait is configured; one that carries the client
    subnet, if a subnet is configured) and else the one with the most records, the
    last of several.  If there is none, it returns the reply that came when the wait
    had run out as if it were an answer ([strayed]), if there was one, and fails with
    the error of the socket if there was not. *)
Theorem anti_hijack_choice `{DNSLib} c edns0 m co :
  let all := replies co (udpSizeFor c m co) (readDeadlineOf c None) in
  match writeMsg co (getTimeoutForRequest c (writeTimeout c)) m with
  | Some e => ExchangeWithConn c edns0 m co = Err e
  | None =>
      match ExchangeWithConn c edns0 m co with
      | Ok r => believed c edns0 (mId m) (heard c all) r ∨ strayed c (mId m) (heard c all) r
      | Err e => e = readError co (udpSizeFor c m co) (readDeadlineOf c None) ∧
          (∀ x, x ∈ all → ¬ trusted c (mId m) x) ∧ ∀ x, x ∈ all → tooLate c x = false
      | Panic => False
      end
  end.
Proof.
  intros all. unfold ExchangeWithConn, ExchangeWithConnContext. cbn [earlier]. cbv zeta.
  destruct (writeMsg co _ m) as [e|]; [done|].
  pose proof (readLoop_spec c edns0 (mId m) all (readError co (udpSizeFor c m co) (readDeadlineOf c None)) [] None) as Hl.
  fold all. destruct (readLoop _ _ _ all _ _); (specialize (Hl ltac:(split; set_solver))); [done|naive_solver|done].
Qed.

Definition noDNSLib : DNSLib :=
  {| Pack := λ _, Ok []; Unpack := λ _, fail "unpack"; RcodeToString := λ _, []; TypeToString := λ _, [];
     IsEdns0 := λ _, None |}.

Definition demoHdr (t : Z) : RR_Header := mkHdr "a.com." t ClassINET 60.
Definition demoReply (id : Z) (n : nat) : Msg :=
  mkMsg id 0 [] (replicate n (RR_A (demoHdr TypeA) [93; 184; 216; 34])) [] [].
Definition demoAnti : antiHijackDNSClient := mkAntiHijack (mkClient [] 0 0 0 0 None) 1000 100.
Definition demoSession : session :=
  mkSession 0 (λ _ _, None)
    (λ _ _, [(demoReply 7 9, 50); (demoReply 7 1, 200); (demoReply 8 5, 300); (demoReply 7 1, 400)]) (λ _ _, sysError 110).

(** The only reply that comes is to another query, when the wait has run out. *)
Definition straySession : session := mkSession 0 (λ _ _, None) (λ _ _, [(demoReply 8 5, 1001)]) (λ _ _, sysError 110).

Lemma anti_hijack_choice_example :
  @ExchangeWithConn noDNSLib demoAnti false (mkMsg 7 0 [] [] [] []) demoSession = Ok (demoReply 7 1) ∧
  heard demoAnti (replies demoSession 0 1000) = replies demoSession 0 1000 ∧
  @ExchangeWithConn noDNSLib demoAnti false (mkMsg 7 0 [] [] [] []) straySession = Ok (demoReply 8 5) ∧
  strayed demoAnti 7 (heard demoAnti (replies straySession 0 1000)) (demoReply 8 5).
Proof.
  split_and!; [vm_compute; reflexivity..|]. split.
  - intros x ->%list_elem_of_singleton [Hid _]. discriminate Hid.
  - exists 1001. split_and!; [reflexivity|reflexivity|discriminate].
Qed.

(** A reply to another query that is read after the wait ran out is returned as
    a success when no other reply was kept. *)
Lemma late_foreign_reply_accepted c edns0 id r t rs e :
  mId r ≠ id → 0 < waitTimeout c ≤ t → minRTT c ≤ t → readLoop c edns0 id ((r, t) :: rs) e None = Ok r.
Proof.
  intros Hid Hw Hm. cbn [readLoop]. destruct (Z.eqb_spec (mId r) id); [done|].
  destruct (Z.ltb_spec t (minRTT c)); [lia|]. destruct (Z.ltb_spec 0 (waitTimeout c)); [|lia].
  destruct (Z.leb_spec (waitTimeout c) t); [|lia]. by rewrite andb_false_r.
Qed.
