(* ===== verification/Dns.v ===== *)
(** * DNS resolution (core/dns.go, core/bootstrap.go, genDoHDialFuncFor of core/policy.go)

    The upstream servers from the configuration, the rotation over them, the
    resolution of a domain under a mode, and the cache of the answers.  The
    package-level variables of the source are the record [dnsState]; its field
    [world] is the network, of an abstract type: what an upstream answers, and
    what becomes of the network, is given by a function [ask].  [runUpstream]
    is the function the program installs, over the operations of the libraries
    for UDP, TCP, HTTP and QUIC (class [DNSNet]).

    Every operation is one step: the lock [runtimeStateMu] only guards the reads
    and writes of the variables. *)

From S2P Require Import Prelude Errors Netip AddrTrie Pattern FakeIP Policy Routing Ring LRU LRUSpec Sharded DnsMsg.
Local Open Scope Z_scope.

(** ** URLs and socket addresses *)

Record URL := mkURL { uScheme : gostring; uHost : gostring }.

(** [url.Parse], of which the scheme and the host are used. *)
Class GoURL := urlParse : gostring → option URL.

Definition validOptionalPort (port : gostring) : bool :=
  match port with
  | [] => true
  | c :: ds => (c =? 58) && forallb is_digit ds
  end.

(** [URL.Hostname] and [URL.Port]. *)
Definition splitURLHost (hostPort : gostring) : gostring * gostring :=
  let '(host, port) :=
    match last_index_byte hostPort 58 with
    | Some i => if validOptionalPort (drop i hostPort) then (take i hostPort, drop (S i) hostPort) else (hostPort, [])
    | None => (hostPort, [])
    end in
  if has_prefix host "[" && has_suffix host "]" then (take (length host - 2) (drop 1 host), port) else (host, port).

Definition Hostname (u : URL) : gostring := (splitURLHost (uHost u)).1.
Definition URLPort (u : URL) : gostring := (splitURLHost (uHost u)).2.

Definition isValidHTTPSURL `{GoURL} (s : gostring) : bool :=
  match urlParse s with
  | Some u => bool_decide (uScheme u = lit "https") && negb (bool_decide (uHost u = []))
  | None => false
  end.

(** [netip.ParseAddrPort]. *)
Definition ParseAddrPort (s : gostring) : option (Addr * Z) :=
  i ← last_index_byte s 58;
  let ip := take i s in
  port ← parse_uint 16 (drop (S i) s);
  match ip with
  | [] => None
  | 91 :: rest =>
      if has_suffix rest "]" then
        a ← ParseAddr (take (length rest - 1) rest);
        if Is6 a then Some (a, port) else None
      else None
  | _ =>
      a ← ParseAddr ip;
      if Is4 a then Some (a, port) else None
  end.

(** [base64.RawURLEncoding]. *)
Definition base64Alphabet : gostring := "ABCDEFGHIJKLMNOPQRSTUVWXYZabcdefghijklmnopqrstuvwxyz0123456789-_".

Definition sextet (n : Z) : Z := base64Alphabet !!! Z.to_nat (Z.land n 63).

Fixpoint rawURLEncode (b : bytes) : gostring :=
  match b with
  | [] => []
  | [x] => [sextet (Z.shiftr x 2); sextet (Z.shiftl x 4)]
  | [x; y] => [sextet (Z.shiftr x 2); sextet (Z.lor (Z.shiftl x 4) (Z.shiftr y 4)); sextet (Z.shiftl y 2)]
  | x :: y :: z :: b' =>
      [sextet (Z.shiftr x 2); sextet (Z.lor (Z.shiftl x 4) (Z.shiftr y 4));
       sextet (Z.lor (Z.shiftl y 2) (Z.shiftr z 6)); sextet z] ++ rawURLEncode b'
  end.

Example dns_text_examples :
  rawURLEncode "any carnal pleas" = "YW55IGNhcm5hbCBwbGVhcw" ∧
  ParseAddrPort "1.2.3.4:53" = Some (Addr4 0x01020304, 53) ∧ ParseAddrPort "[::1]:53" = Some (Addr6 1 [], 53) ∧
  ParseAddrPort "::1:53" = None ∧ ParseAddrPort "[1.2.3.4]:53" = None ∧ ParseAddrPort "1.2.3.4" = None ∧
  Hostname (mkURL "https" "dns.google:8443") = "dns.google" ∧ URLPort (mkURL "https" "[::1]:8443") = "8443" ∧
  Hostname (mkURL "https" "[::1]") = "::1".
Proof. vm_compute. split_and!; reflexivity. Qed.

(** ** Configuration and upstreams *)

Record DNSConfig := mkDNSConfig {
  dType : gostring;
  dAddr : gostring;
  dResolvers : list gostring;
  dSingleFlight : bool;
  dDisableCache : bool;
  dCacheCapacity : Z;
  dEDNS0Subnet : gostring;
  dUDPSize : Z;
  dClientTimeout : gostring;
  dWaitTimeout : gostring;
  dMinRTT : gostring;
  dDoHSocks5Addr : gostring;
}.

(** A [DNSClient]: the library's own, or the one that resists hijacking. *)
Inductive DNSClient :=
| plainClient (c : Client)
| antiHijack (c : antiHijackDNSClient).

(** How a DoH transport connects: to an address under a policy, or through a
    SOCKS5 proxy. *)
Inductive dohDial :=
| dialPolicy (addr : gostring) (pol : Policy)
| dialSocks5 (proxy : gostring).

(** A DNS-over-QUIC client.  [slot] is its identity: it owns a connection. *)
Record doQClient := mkDoQ { slot : nat; qEndpoint : gostring; qServer : gostring; qTimeout : Z }.

(** The functions of [dnsExchanges]. *)
Inductive upstream :=
| upClient (c : DNSClient) (addr : gostring)
| upHTTPS (dial : dohDial) (endpoint : gostring)
| upQUIC (q : doQClient).

Definition newDoQClient (slot : nat) (endpoint : gostring) : doQClient :=
  mkDoQ slot endpoint (match SplitHostPort endpoint with Ok (host, _) => host | _ => endpoint end) (6 * second).

Definition dnsCacheT := option (ShardedLRU gostring gostring).

Record dnsState (W : Type) := mkDNS {
  dnsAddr : gostring;
  dnsClient : option DNSClient;
  httpClient : bool;
  dnsExchanges : list upstream;
  dnsExchange : option upstream;
  dnsExchangeIdx : Z;
  dnsCache : dnsCacheT;
  ipDomainCache : dnsCacheT;
  dnsResolveGroup : bool;
  edns0SubnetOpt : option RR;
  lastDNSConfig : option DNSConfig;
  doQClients : nat;
  world : W;
}.
Arguments mkDNS {W}.
Arguments dnsAddr {W}. Arguments dnsClient {W}. Arguments httpClient {W}. Arguments dnsExchanges {W}.
Arguments dnsExchange {W}. Arguments dnsExchangeIdx {W}. Arguments dnsCache {W}. Arguments ipDomainCache {W}.
Arguments dnsResolveGroup {W}. Arguments edns0SubnetOpt {W}. Arguments lastDNSConfig {W}. Arguments doQClients {W}.
Arguments world {W}.

(** The variables before any configuration. *)
Definition unconfigured {W} (w : W) : dnsState W :=
  mkDNS [] None false [] None 0 None None false None None 0 w.

Section State.
Context {W : Type}.

Definition setIndex (i : Z) (st : dnsState W) : dnsState W :=
  mkDNS (dnsAddr st) (dnsClient st) (httpClient st) (dnsExchanges st) (dnsExchange st) i (dnsCache st)
    (ipDomainCache st) (dnsResolveGroup st) (edns0SubnetOpt st) (lastDNSConfig st) (doQClients st) (world st).
Definition setWorld (w : W) (st : dnsState W) : dnsState W :=
  mkDNS (dnsAddr st) (dnsClient st) (httpClient st) (dnsExchanges st) (dnsExchange st) (dnsExchangeIdx st) (dnsCache st)
    (ipDomainCache st) (dnsResolveGroup st) (edns0SubnetOpt st) (lastDNSConfig st) (doQClients st) w.
Definition setCache (c : dnsCacheT) (st : dnsState W) : dnsState W :=
  mkDNS (dnsAddr st) (dnsClient st) (httpClient st) (dnsExchanges st) (dnsExchange st) (dnsExchangeIdx st) c
    (ipDomainCache st) (dnsResolveGroup st) (edns0SubnetOpt st) (lastDNSConfig st) (doQClients st) (world st).
Definition setIPCache (c : dnsCacheT) (st : dnsState W) : dnsState W :=
  mkDNS (dnsAddr st) (dnsClient st) (httpClient st) (dnsExchanges st) (dnsExchange st) (dnsExchangeIdx st) (dnsCache st)
    c (dnsResolveGroup st) (edns0SubnetOpt st) (lastDNSConfig st) (doQClients st) (world st).

(** Code that reads and writes the variables. *)
Definition dnsM (A : Type) : Type := dnsState W → res A * dnsState W.

#[global] Instance dnsM_ret : MRet dnsM := λ A a st, (Ok a, st).
#[global] Instance dnsM_bind : MBind dnsM := λ A B k m st,
  match m st with
  | (Ok a, st') => k a st'
  | (Err e, st') => (Err e, st')
  | (Panic, st') => (Panic, st')
  end.

Definition liftD {A} (r : res A) : dnsM A := λ st, (r, st).
Definition readD {A} (f : dnsState W → A) : dnsM A := λ st, (Ok (f st), st).
Definition onWorld {A} (f : W → res A * W) : dnsM A := λ st,
  let '(r, w) := f (world st) in (r, setWorld w st).
Definition with_strD {A} (op : gostring) (m : dnsM A) : dnsM A := λ st,
  match m st with
  | (Err e, st') => (Err (opError op e), st')
  | r => r
  end.

Lemma dnsM_bind_Ok {A B} (m : dnsM A) (k : A → dnsM B) st b st' :
  (m ≫= k) st = (Ok b, st') ↔ ∃ a st1, m st = (Ok a, st1) ∧ k a st1 = (Ok b, st').
Proof.
  unfold mbind, dnsM_bind. destruct (m st) as [[a|e|] st1]; split; try done; [eauto|..].
  - by intros (a' & st1' & [= <- <-] & E).
  - by intros (? & ? & ? & ?).
  - by intros (? & ? & ? & ?).
Qed.

(** *** The caches: a nil cache never hits and keeps nothing *)

Variable hash : gostring → Z.

Definition cacheGet (k : gostring) (now : Z) (c : dnsCacheT) : option (option gostring * dnsCacheT) :=
  match c with
  | None => Some (None, None)
  | Some lru => '(r, lru') ← ShardedGet hash [] [] k now lru; Some (r, Some lru')
  end.

Definition cacheAdd (k v : gostring) (lifetime now : Z) (c : dnsCacheT) : option dnsCacheT :=
  match c with
  | None => Some None
  | Some lru => '(_, lru') ← ShardedAddWithLifetime hash k v lifetime now lru; Some (Some lru')
  end.

Definition getCached (k : gostring) (now : Z) : dnsM (option gostring) := λ st,
  match cacheGet k now (dnsCache st) with
  | Some (r, c) => (Ok r, setCache c st)
  | None => (Panic, st)
  end.

Definition addCached (k v : gostring) (lifetime now : Z) : dnsM unit := λ st,
  match cacheAdd k v lifetime now (dnsCache st) with
  | Some c => (Ok tt, setCache c st)
  | None => (Panic, st)
  end.

(** ** Bootstrap resolution (core/bootstrap.go) *)

Definition reverseMappingTTL : Z := 5 * 60 * second.

(** The first IPv4 address, or else the first address; an address is never nil
    with a length. *)
Fixpoint pickBootstrapLoop (addrs : list bytes) (first : gostring) : gostring :=
  match addrs with
  | [] => first
  | ip :: addrs' =>
      if bool_decide (ip = []) then pickBootstrapLoop addrs' first else
      let first := if bool_decide (first = []) then IPString ip else first in
      match To4 ip with
      | Some v4 => IPString v4
      | None => pickBootstrapLoop addrs' first
      end
  end.

Definition pickBootstrapIP (addrs : list bytes) : gostring := pickBootstrapLoop addrs [].

(** The system's resolver. *)
Variable bootstrapLookupIP : gostring → W → res (list bytes) * W.

Definition resolveBootstrapHost (host : gostring) (now done_ : Z) : dnsM gostring :=
  if bool_decide (host = []) || isIPText host then mret host else
  hit ← getCached host now;
  match hit with
  | Some ip => mret ip
  | None =>
      addrs ← with_strD ("bootstrap resolve " ++ host) (onWorld (bootstrapLookupIP host));
      let ip := pickBootstrapIP addrs in
      if bool_decide (ip = []) then
        liftD (Err (errorString ("bootstrap resolve " ++ host ++ ": no address found")))
      else
        addCached host ip reverseMappingTTL done_;;
        mret ip
  end.

(** ** The DoH dialler (genDoHDialFuncFor) *)

Context `{GoURL, GoTime}.
Variable t : Tables.
Variable getFromIPPool : gostring → res gostring.

(** What the host rules select for the name of a DoH server. *)
Definition dohSelectedHost (pol : Policy) (host : gostring) : gostring :=
  let policyHost := trim_prefix (pHost pol) noRedirectPrefix in
  if bool_decide (policyHost = []) || bool_decide (policyHost = unsetString) then
    trim_prefix (default [] (Domain.Find (hostsMatcher t) host)) noRedirectPrefix
  else policyHost.

(** The host to connect to and the policy of the connection. *)
Definition dohTarget (host : gostring) : res (gostring * Policy) :=
  if isIPText host then
    match ipRedirect t getFromIPPool host with
    | Ok (host, None) => Ok (host, defaultPolicy t)
    | Ok (host, Some ipPolicy) => Ok (host, mergePolicies [ipPolicy; defaultPolicy t])
    | Err e => Err (opError "ip redirect" e)
    | Panic => Panic
    end
  else
    let pol := match Domain.Find (domainMatcher t) host with
               | Some domainPolicy => mergePolicies [domainPolicy; defaultPolicy t]
               | None => defaultPolicy t
               end in
    let selectedHost := dohSelectedHost pol host in
    if bool_decide (selectedHost = lit "self") then Ok (host, pol)
    else if has_prefix selectedHost ipPoolTagPrefix then host ← getFromIPPool (drop 1 selectedHost); Ok (host, pol)
    else if has_prefix selectedHost resolvePrefix then Ok (host, pol)
    else Ok (selectedHost, pol).

Definition genDoHDialFuncFor (dohURL : gostring) (now done_ : Z) : dnsM dohDial :=
  match urlParse dohURL with
  | None => liftD (Err (opError "invalid DoH URL" (sysError 0)))
  | Some parsedURL =>
      '(host, pol) ← liftD (dohTarget (Hostname parsedURL));
      host ← (if isIPText host then mret host else resolveBootstrapHost host now done_);
      match pMode pol with
      | ModeBlock | ModeTLSAlert => liftD (fail "the mode of the DoH cannot be `block`")
      | _ =>
          let port := if bool_decide (URLPort parsedURL = []) then lit "443" else URLPort parsedURL in
          let port := if pPort pol =? unsetInt then port else itoa (pPort pol) in
          mret (dialPolicy (JoinHostPort host port) pol)
      end
  end.

(** ** Configuration *)

(** A duration of the configuration, zero when it is not given. *)
Definition positiveTimeout (name : String.string) (s : gostring) : res Z :=
  if bool_decide (s = []) then Ok 0
  else match ParseDuration s with
       | Ok d => if d <=? 0 then Err (errorString ("dns." ++ name ++ " must be greater than 0")) else Ok d
       | Err e => Err (opError ("invalid dns." ++ name) e)
       | Panic => Panic
       end.

Definition endpointsOf (c : DNSConfig) : list gostring :=
  dAddr c :: filter (λ r, r ≠ [] ∧ r ≠ dAddr c) (trim_space <$> dResolvers c).

(** Upstreams that speak to a socket address. *)
Fixpoint addrExchanges (client : DNSClient) (endpoints : list gostring) : res (list upstream) :=
  match endpoints with
  | [] => Ok []
  | ep :: eps =>
      match ParseAddrPort ep with
      | None => Err (opError "invalid dns.addr" (sysError 0))
      | Some _ => us ← addrExchanges client eps; Ok (upClient client ep :: us)
      end
  end.

(** The error of [proxy.SOCKS5], if it fails. *)
Variable socks5Error : gostring → option error.

Fixpoint httpsExchanges (socks5 : gostring) (endpoints : list gostring) (now done_ : Z) : dnsM (list upstream) :=
  match endpoints with
  | [] => mret []
  | ep :: eps =>
      if negb (isValidHTTPSURL ep) then liftD (Err (errorString ("invalid dns resolver url: " ++ ep))) else
      dial ← (if bool_decide (socks5 = []) then with_strD "generate DoH dial function" (genDoHDialFuncFor ep now done_)
              else match socks5Error socks5 with
                   | None => mret (dialSocks5 socks5)
                   | Some e => liftD (Err (opError "create socks5 dialer" e))
                   end);
      us ← httpsExchanges socks5 eps now done_;
      mret (upHTTPS dial ep :: us)
  end.

Fixpoint quicExchanges (slot : nat) (endpoints : list gostring) : list upstream :=
  match endpoints with
  | [] => []
  | ep :: eps =>
      let ep := match SplitHostPort ep with Ok _ => ep | _ => JoinHostPort ep "853" end in
      upQUIC (newDoQClient slot ep) :: quicExchanges (S slot) eps
  end.

(** The client for UDP. *)
Definition udpClient (c : DNSConfig) : res DNSClient :=
  timeout ← positiveTimeout "client_timeout" (dClientTimeout c);
  let cli := mkClient [] (dUDPSize c) timeout 0 0 None in
  if bool_decide (dWaitTimeout c = []) && bool_decide (dMinRTT c = []) then Ok (plainClient cli) else
  wait ← positiveTimeout "wait_timeout" (dWaitTimeout c);
  rtt ← positiveTimeout "min_rtt" (dMinRTT c);
  Ok (antiHijack (mkAntiHijack cli wait rtt)).

(** The client, whether there is an HTTP client, and the upstreams. *)
Definition upstreamsOf (c : DNSConfig) (now done_ : Z) : dnsM (option DNSClient * bool * list upstream) :=
  let endpoints := endpointsOf c in
  let overSockets (client : DNSClient) :=
    us ← liftD (addrExchanges client endpoints); mret (Some client, false, us) in
  if bool_decide (dType c = []) || bool_decide (dType c = lit "udp") then
    client ← liftD (udpClient c); overSockets client
  else if bool_decide (dType c = lit "tcp") then overSockets (plainClient (mkClient "tcp" 0 0 0 0 None))
  else if bool_decide (dType c = lit "tls") then overSockets (plainClient (mkClient "tcp-tls" 0 0 0 0 None))
  else if bool_decide (dType c = lit "https") then
    if negb (isValidHTTPSURL (dAddr c)) then liftD (fail "invalid dns.addr") else
    us ← httpsExchanges (dDoHSocks5Addr c) endpoints now done_; mret (None, true, us)
  else if bool_decide (dType c = lit "quic") then
    slot ← readD doQClients; mret (None, false, quicExchanges slot endpoints)
  else liftD (Err (errorString ("unknown dns.type: " ++ dType c))).

Variable gomaxprocs : Z.

Definition cachesOf (c : DNSConfig) : res (dnsCacheT * dnsCacheT) :=
  if dDisableCache c then Ok (None, None) else
  let capacity := if dCacheCapacity c =? 0 then 4096 else dCacheCapacity c in
  cache ← with_str "init DNS cache" (NewSharded [] [] gomaxprocs capacity);
  ipCache ← with_str "init ip-domain cache" (NewSharded [] [] gomaxprocs capacity);
  Ok (Some cache, Some ipCache).

Definition edns0Of (c : DNSConfig) : res (option RR) :=
  if bool_decide (dEDNS0Subnet c = []) then Ok None else
  match ParsePrefix (dEDNS0Subnet c) with
  | None => Err (wrapError ("invalid edns0_subnet " ++ dEDNS0Subnet c ++ ": ") (sysError 0))
  | Some prefix =>
      let family := if Is6 (Unmap (PAddr prefix)) then 2 else 1 in
      Ok (Some (RR_OPT (mkHdr "." TypeOPT 0 0) [Subnet family (u8 (PBits prefix)) (AsSlice (PAddr prefix))]))
  end.

Definition isDoQ (u : upstream) : bool := match u with upQUIC _ => true | _ => false end.

Definition countDoQ (us : list upstream) : nat := length (filter isDoQ us).

(** The assignment of the variables under the lock. *)
Definition commitDNS (c : DNSConfig) (client : option DNSClient) (hClient : bool) (exchanges : list upstream)
    (cache ipCache : dnsCacheT) (edns0 : option RR) : dnsM unit := λ st,
  (Ok tt,
   mkDNS (dAddr c) client hClient exchanges (head exchanges) (dnsExchangeIdx st) cache ipCache
     (dSingleFlight c) edns0 (Some c) (doQClients st + countDoQ exchanges) (world st)).

Definition setDNS (c : DNSConfig) (now done_ : Z) : dnsM unit :=
  if bool_decide (dAddr c = []) then liftD (fail "dns.addr cannot be empty") else
  '(client, hClient, exchanges) ← upstreamsOf c now done_;
  '(cache, ipCache) ← liftD (cachesOf c);
  edns0 ← liftD (edns0Of c);
  commitDNS c client hClient exchanges cache ipCache edns0.

(** ** Asking *)

(** What an upstream answers. *)
Variable ask : upstream → Msg → W → res Msg * W.

Definition exchangeUpstream (req : Msg) : dnsM Msg :=
  single ← readD dnsExchange;
  match single with
  | None => liftD (fail "no dns upstream configured")
  | Some u => onWorld (ask u req)
  end.

(** The rounds [i, i+1, ...] of the loop over the upstreams, of which [k] are
    left; [lastErr] is nil before the first. *)
Fixpoint exchangeLoop (k : nat) (i start : Z) (exchanges : list upstream) (req : Msg) (lastErr : option error)
    : dnsM Msg :=
  match k with
  | O => λ st, (match lastErr with Some e => Err e | None => Panic end, setIndex 0 st)
  | S k' => λ st,
      let pos := Z.rem (start + i) (zlen exchanges) in
      match idx exchanges pos with
      | None => (Panic, st)
      | Some u =>
          match onWorld (ask u req) st with
          | (Ok resp, st') => (Ok resp, setIndex pos st')
          | (Err e, st') => exchangeLoop k' (i + 1) start exchanges req (Some e) st'
          | (Panic, st') => (Panic, st')
          end
      end
  end.

Definition exchangeMsg (req : Msg) : dnsM Msg :=
  exchanges ← readD dnsExchanges;
  if bool_decide (exchanges = []) then exchangeUpstream req else
  start ← readD (λ st, Z.rem (dnsExchangeIdx st) (zlen exchanges));
  exchangeLoop (length exchanges) 0 start exchanges req None.

(** ** Resolving a domain *)

Context `{DNSLib}.
(** The random ids of queries. *)
Variable newId : W → Z.

Definition checkRcode (resp : Msg) : res unit :=
  if mRcode resp =? RcodeSuccess then Ok tt
  else Err (errorString ("bad rcode: " ++ RcodeToString (mRcode resp))).

Definition question (domain : gostring) (qtype : Z) (msg : Msg) : dnsM Msg :=
  id ← readD (λ st, newId (world st)); mret (SetQuestion id (domain ++ ".") qtype msg).

(** The second question of a mode that prefers one family.  Its error is joined
    with the error of the first, which is nil. *)
Definition secondTry (domain : gostring) (qtype : Z) (pick : list RR → bytes) (msg : Msg) : dnsM bytes :=
  msg ← question domain qtype msg;
  resp ← (λ st, match exchangeMsg msg st with
                | (Err e, st') => (Err (opError "dns exchange" (joinError [e])), st')
                | r => r
                end);
  liftD (checkRcode resp);;
  let ip := pick (mAnswer resp) in
  if bool_decide (ip = []) then liftD (fail "record not found") else mret ip.

Definition firstQuestion (domain : gostring) (mode : DNSMode) (msg : Msg) : dnsM Msg :=
  match mode with
  | DNSModePreferIPv4 | DNSModeIPv4Only => question domain TypeA msg
  | DNSModePreferIPv6 | DNSModeIPv6Only => question domain TypeAAAA msg
  | DNSModeUnset => mret msg
  end.

(** The address of the answer, the nil address in no mode. *)
Definition answerFor (domain : gostring) (mode : DNSMode) (msg resp : Msg) : dnsM bytes :=
  let a := pickFirstARecord (mAnswer resp) in
  let aaaa := pickFirstAAAARecord (mAnswer resp) in
  match mode with
  | DNSModeIPv4Only => if bool_decide (a = []) then liftD (fail "A record not found") else mret a
  | DNSModeIPv6Only => if bool_decide (aaaa = []) then liftD (fail "AAAA record not found") else mret aaaa
  | DNSModePreferIPv4 => if bool_decide (a = []) then secondTry domain TypeAAAA pickFirstAAAARecord msg else mret a
  | DNSModePreferIPv6 => if bool_decide (aaaa = []) then secondTry domain TypeA pickFirstARecord msg else mret aaaa
  | DNSModeUnset => mret []
  end.

Definition doDNSResolve (domain : gostring) (mode : DNSMode) (cacheTTL now : Z) : dnsM gostring :=
  msg ← firstQuestion domain mode newMsg;
  edns0 ← readD edns0SubnetOpt;
  let msg := match edns0 with Some opt => setExtra msg [opt] | None => msg end in
  resp ← with_strD "dns exchange" (exchangeMsg msg);
  liftD (checkRcode resp);;
  ip ← answerFor domain mode msg resp;
  let ipStr := IPString ip in
  (if negb (cacheTTL =? 0) && negb (cacheTTL =? unsetInt) then addCached domain ipStr cacheTTL now else mret tt);;
  mret ipStr.

(** A resolution of the same domain in flight: the arguments its caller gave, the
    time of its answer and the state its function started in. *)
Record flight := mkFlight { fl_mode : DNSMode; fl_ttl : Z; fl_done : Z; fl_start : dnsState W }.

(** [now] is the time of the call and [done_] the time of the answer; [leader] is
    the resolution in flight that [group.Do] finds under the key [domain], if any.
    With a group, a call that finds one waits for it and returns what it returned,
    whatever mode its own caller asked under; a call that finds none runs its own
    function.  (That a waiter gets the outcome of the one run of its key is the
    theorem on [Singleflight].) *)
Definition dnsResolve (leader : option flight) (domain : gostring) (mode : DNSMode) (cacheTTL now done_ : Z)
    : dnsM (gostring * bool) :=
  hit ← getCached domain now;
  match hit with
  | Some ip => mret (ip, true)
  | None =>
      group ← readD dnsResolveGroup;
      ip ← match (if group : bool then leader else None) with
           | Some l => liftD (doDNSResolve domain (fl_mode l) (fl_ttl l) (fl_done l) (fl_start l)).1
           | None => doDNSResolve domain mode cacheTTL done_
           end;
      mret (ip, false)
  end.

End State.

(** ** What an upstream does *)

Record httpReply := mkReply { statusCode : Z; status : gostring; body : res bytes }.

(** The libraries: [dns.Client], [net/http] and quic-go, on a network of type
    [N]. *)
Class DNSNet (N : Type) := {
  plainExchange : Client → Msg → gostring → N → res Msg * N;
  dialSession : Client → gostring → N → res session * N;
  newRequest : gostring → option error;
  httpGet : option dohDial → gostring → N → res httpReply * N;
  quicDial : doQClient → N → res unit * N;
  quicOpen : doQClient → N → res unit * N;
  quicWrite : doQClient → bytes → N → res unit * N;
  quicCloseWrite : doQClient → N → res unit * N;
  quicReadAll : doQClient → N → res bytes * N;
}.

(** The network, and the QUIC clients that hold a connection. *)
Record netWorld (N : Type) := mkWorld { wNet : N; wConns : gset nat }.
Arguments mkWorld {N} _ _.
Arguments wNet {N} _.
Arguments wConns {N} _.

Section Upstream.
Context {N : Type} `{DNSNet N, DNSLib}.

Definition netOp (A : Type) : Type := netWorld N → res A * netWorld N.

#[global] Instance netOp_ret : MRet netOp := λ A a w, (Ok a, w).
#[global] Instance netOp_bind : MBind netOp := λ A B k m w,
  match m w with
  | (Ok a, w') => k a w'
  | (Err e, w') => (Err e, w')
  | (Panic, w') => (Panic, w')
  end.

Definition liftW {A} (r : res A) : netOp A := λ w, (r, w).
Definition runW {A} (f : N → res A * N) : netOp A := λ w, let '(r, n) := f (wNet w) in (r, mkWorld n (wConns w)).
Definition with_strW {A} (op : String.string) (m : netOp A) : netOp A := λ w,
  let '(r, w') := m w in (with_str op r, w').
Definition modifyConns (f : gset nat → gset nat) : netOp unit := λ w, (Ok tt, mkWorld (wNet w) (f (wConns w))).

(** [client.Exchange] *)
Definition clientExchange (c : DNSClient) (edns0 : bool) (req : Msg) (addr : gostring) : netOp Msg :=
  match c with
  | plainClient cli => runW (plainExchange cli req addr)
  | antiHijack ah =>
      co ← runW (dialSession (ahClient ah) addr);
      liftW (ExchangeWithConn ah edns0 req co)
  end.

(** A query over HTTPS, through the transport [dial]. *)
Definition httpsExchange (dial : option dohDial) (endpoint : gostring) (req : Msg) : netOp Msg :=
  wire ← liftW (with_str "pack dns request" (Pack req));
  let queryURL := endpoint ++ "?dns=" ++ rawURLEncode wire in
  match newRequest queryURL with
  | Some e => liftW (Err (opError "build http request" e))
  | None =>
      httpResp ← with_strW "http request" (runW (httpGet dial queryURL));
      if negb (statusCode httpResp =? 200) then liftW (Err (errorString ("bad http status: " ++ status httpResp))) else
      respWire ← liftW (with_str "read http body" (body httpResp));
      liftW (with_str "unpack dns response" (Unpack respWire))
  end.

(** Close the connection on an error, and report it. *)
Definition dropConn {A} (q : doQClient) (m : netOp A) : netOp A := λ w,
  match m w with
  | (Err e, w') => (Err e, mkWorld (wNet w') (wConns w' ∖ {[slot q]}))
  | r => r
  end.

Definition quicConnect (op : String.string) (q : doQClient) : netOp unit :=
  with_strW op (runW (quicDial q));; modifyConns (λ s, {[slot q]} ∪ s).

(** [quic.Conn.OpenStreamSync], with one reconnection. *)
Definition quicStream (q : doQClient) : netOp unit := λ w,
  match runW (quicOpen q) w with
  | (Err _, w') =>
      (modifyConns (λ s, s ∖ {[slot q]});;
       quicConnect "quic redial" q;;
       with_strW "quic open stream" (runW (quicOpen q))) w'
  | r => r
  end.

Definition doQExchange (q : doQClient) (req : Msg) : netOp Msg :=
  wire ← liftW (with_str "pack dns request" (Pack req));
  (λ w, if bool_decide (slot q ∈ wConns w) then (Ok tt, w) else quicConnect "quic dial" q w);;
  quicStream q;;
  dropConn q (with_strW "quic write" (runW (quicWrite q wire)));;
  with_strW "quic close write" (runW (quicCloseWrite q));;
  respWire ← dropConn q (with_strW "quic read" (runW (quicReadAll q)));
  liftW (with_str "unpack dns response" (Unpack respWire)).

(** The function an upstream stands for. *)
Definition runUpstream (edns0 : bool) (u : upstream) (req : Msg) : netOp Msg :=
  match u with
  | upClient c addr => clientExchange c edns0 req addr
  | upHTTPS dial endpoint => httpsExchange (Some dial) endpoint req
  | upQUIC q => doQExchange q req
  end.

(** The exchanges with the first server only. *)
Definition dnsClientExchange (req : Msg) : @dnsM (netWorld N) Msg :=
  client ← readD dnsClient;
  addr ← readD dnsAddr;
  edns0 ← readD edns0SubnetOpt;
  match client with
  | None => liftD (fail "no dns client configured")
  | Some c => onWorld (clientExchange c (bool_decide (is_Some edns0)) req addr)
  end.

Definition dohExchange (req : Msg) : @dnsM (netWorld N) Msg :=
  addr ← readD dnsAddr;
  hc ← readD httpClient;
  if hc : bool then onWorld (httpsExchange None addr req)
  else liftD (fail "no doh client configured").
End Upstream.

(** ** The rotation over the upstreams *)

Section Rotation.
Context {W : Type} (ask : upstream → Msg → W → res Msg * W).

(** The upstreams [us] are asked in order, and all fail. *)
Inductive asked (req : Msg) : list upstream → W → list error → W → Prop :=
| asked_nil w : asked req [] w [] w
| asked_cons u us w e w1 es w2 :
    ask u req w = (Err e, w1) → asked req us w1 es w2 → asked req (u :: us) w (e :: es) w2.

Lemma asked_snoc req us w es w1 u e w2 :
  asked req us w es w1 → ask u req w1 = (Err e, w2) → asked req (us ++ [u]) w (es ++ [e]) w2.
Proof. induction 1; intros; cbn [app]; econstructor; eauto using asked_nil. Qed.

(** The list, starting from a position. *)
Definition rotation {A} (start : nat) (us : list A) : list A := drop start us ++ take start us.

Lemma rotation_lookup {A} (us : list A) (start k : nat) : (start < length us)%nat → (k < length us)%nat →
  rotation start us !! k = us !! ((start + k) mod length us)%nat.
Proof.
  intros Hs Hk. unfold rotation. destruct (decide (k < length us - start)%nat).
  - rewrite lookup_app_l by (rewrite length_drop; lia). rewrite lookup_drop, Nat.mod_small by lia. done.
  - rewrite lookup_app_r by (rewrite length_drop; lia). rewrite length_drop, lookup_take_lt by lia. f_equal.
    replace (start + k)%nat with (k - (length us - start) + 1 * length us)%nat by lia.
    rewrite Nat.Div0.mod_add, Nat.mod_small; lia.
Qed.

Lemma rotation_length {A} (us : list A) start : length (rotation start us) = length us.
Proof. unfold rotation. rewrite length_app, length_drop, length_take. lia. Qed.

Lemma setIndex_world i (st : dnsState W) : world (setIndex i st) = world st.
Proof. done. Qed.

(** The state after an exchange differs in the network and the index. *)
Definition exchanged (st st' : dnsState W) : Prop := st' = setIndex (dnsExchangeIdx st') (setWorld (world st') st).

Lemma exchangeLoop_spec req us start lastErr : (start < length us)%nat → (∀ u w, (ask u req w).1 ≠ Panic) →
  ∀ k i es st0 st, (i + k = length us)%nat → asked req (take i (rotation start us)) (world st0) es (world st) →
  exchanged st0 st → last es = lastErr → es ≠ [] ∨ (0 < k)%nat →
  let '(r, st') := exchangeLoop ask k (Z.of_nat i) (Z.of_nat start) us req lastErr st in
  exchanged st0 st' ∧
  match r with
  | Ok resp => ∃ k u es w1, rotation start us !! k = Some u ∧ asked req (take k (rotation start us)) (world st0) es w1 ∧
      ask u req w1 = (Ok resp, world st') ∧ idx us (dnsExchangeIdx st') = Some u
  | Err e => ∃ es, asked req (rotation start us) (world st0) es (world st') ∧ last es = Some e ∧ dnsExchangeIdx st' = 0
  | Panic => False
  end.
Proof.
  intros Hstart Hnp k. revert lastErr. induction k as [|k IH]; intros lastErr i es st0 st Hk Hasked Hex Hlast Hne; cbn [exchangeLoop].
  - split; [unfold exchanged in *; by rewrite Hex|]. destruct lastErr as [e|].
    + exists es. rewrite take_ge in Hasked by (rewrite rotation_length; lia). done.
    + destruct Hne as [Hne|]; [|lia]. by apply last_None in Hlast.
  - assert (0 < zlen us) as Hz by (unfold zlen; lia).
    assert (Z.rem (Z.of_nat start + Z.of_nat i) (zlen us) = Z.of_nat ((start + i) mod length us)) as Epos.
    { rewrite Z.rem_mod_nonneg by lia. unfold zlen. rewrite <- Nat2Z.inj_add, Nat2Z.inj_mod. done. }
    rewrite Epos. pose proof (rotation_lookup us start i Hstart ltac:(lia)) as Hrot.
    assert (idx us (Z.of_nat ((start + i) mod length us)) = rotation start us !! i) as Eidx.
    { unfold idx. destruct (Z.leb_spec 0 (Z.of_nat ((start + i) mod length us))); [|lia]. by rewrite Nat2Z.id. }
    rewrite Eidx. destruct (rotation start us !! i) as [u|] eqn:Eu.
    2: { apply lookup_ge_None in Eu. rewrite rotation_length in Eu. lia. }
    unfold onWorld. specialize (Hnp u (world st)). destruct (ask u req (world st)) as [[resp|e|] w] eqn:Ea; [| |done].
    + split; [unfold exchanged in *; by rewrite Hex|]. exists i, u, es, (world st). done.
    + replace (Z.of_nat i + 1) with (Z.of_nat (S i)) by lia.
      apply (IH (Some e) (S i) (es ++ [e]) st0 (setWorld w st)).
      * lia.
      * erewrite take_S_r by exact Eu. by eapply asked_snoc.
      * unfold exchanged in *. by rewrite Hex.
      * by rewrite last_snoc.
      * left. by destruct es.
Qed.

Lemma exchangeMsg_spec req (st : dnsState W) :
  dnsExchanges st ≠ [] → 0 ≤ dnsExchangeIdx st → (∀ u w, (ask u req w).1 ≠ Panic) →
  let us := dnsExchanges st in
  let order := rotation (Z.to_nat (dnsExchangeIdx st `mod` zlen us)) us in
  let '(r, st') := exchangeMsg ask req st in
  exchanged st st' ∧
  match r with
  | Ok resp => ∃ k u es w1, order !! k = Some u ∧ asked req (take k order) (world st) es w1 ∧
      ask u req w1 = (Ok resp, world st') ∧ idx us (dnsExchangeIdx st') = Some u
  | Err e => ∃ es, asked req order (world st) es (world st') ∧ last es = Some e ∧ dnsExchangeIdx st' = 0
  | Panic => False
  end.
Proof.
  intros Hne Hidx Hnp us order. unfold exchangeMsg, readD, mbind, dnsM_bind. fold us.
  rewrite bool_decide_eq_false_2 by done.
  assert (0 < zlen us) as Hz by (unfold us, zlen; destruct (dnsExchanges st); [done|simpl; lia]).
  assert (Z.rem (dnsExchangeIdx st) (zlen us) = Z.of_nat (Z.to_nat (dnsExchangeIdx st `mod` zlen us))) as ->.
  { rewrite Z.rem_mod_nonneg by lia. pose proof (Z.mod_pos_bound (dnsExchangeIdx st) (zlen us) Hz). lia. }
  pose proof (Z.mod_pos_bound (dnsExchangeIdx st) (zlen us) Hz) as Hm. unfold zlen in Hm, Hz.
  apply (exchangeLoop_spec req us (Z.to_nat (dnsExchangeIdx st `mod` zlen us)) None ltac:(unfold zlen; lia) Hnp
           (length us) 0 [] st st).
  - done.
  - rewrite take_0. constructor.
  - by destruct st.
  - done.
  - right. lia.
Qed.

(** With several upstreams a query goes round them, starting from the one that
    answered last.  A success is the answer of the first upstream in this order
    that does not fail, and that one is asked first the next time; the query
    fails only when every upstream failed, with the last error, and the next
    query starts from the configured server.  Nothing else changes. *)
Theorem exchange_rotation req (st : dnsState W) :
  dnsExchanges st ≠ [] → 0 ≤ dnsExchangeIdx st → (∀ u w, (ask u req w).1 ≠ Panic) →
  let us := dnsExchanges st in
  let order := rotation (Z.to_nat (dnsExchangeIdx st `mod` zlen us)) us in
  let '(r, st') := exchangeMsg ask req st in
  exchanged st st' ∧
  match r with
  | Ok resp => ∃ k u es w1, order !! k = Some u ∧ asked req (take k order) (world st) es w1 ∧
      ask u req w1 = (Ok resp, world st') ∧ idx us (dnsExchangeIdx st') = Some u
  | Err e => ∃ es, asked req order (world st) es (world st') ∧ last es = Some e ∧ dnsExchangeIdx st' = 0
  | Panic => False
  end.
Proof. apply exchangeMsg_spec. Qed.
End Rotation.

(** ** A configuration takes effect entirely or not at all *)

Section Configure.
Context {W : Type} (hash : gostring → Z) (bootstrapLookupIP : gostring → W → res (list bytes) * W).
Context `{GoURL, GoTime} (t : Tables) (getFromIPPool : gostring → res gostring)
  (socks5Error : gostring → option error) (gomaxprocs : Z).

(** What looking up the names of servers makes of the cache: entries are read, and
    the addresses the system's resolver gave are added under the names it was
    asked for. *)
Inductive bootstraps (done_ : Z) : dnsCacheT → dnsCacheT → Prop :=
| boot_done c : bootstraps done_ c c
| boot_get host now r c c1 c2 : cacheGet hash host now c = Some (r, c1) → bootstraps done_ c1 c2 → bootstraps done_ c c2
| boot_add host w addrs w' c c1 c2 : bootstrapLookupIP host w = (Ok addrs, w') → pickBootstrapIP addrs ≠ [] →
    cacheAdd hash host (pickBootstrapIP addrs) reverseMappingTTL done_ c = Some c1 →
    bootstraps done_ c1 c2 → bootstraps done_ c c2.

Lemma bootstraps_trans done_ c1 c2 c3 : bootstraps done_ c1 c2 → bootstraps done_ c2 c3 → bootstraps done_ c1 c3.
Proof. induction 1; eauto using bootstraps. Qed.

(** Only the network and the cache of resolved names differ, the latter by lookups
    of names of servers. *)
Definition onlyCache (done_ : Z) (st st' : dnsState W) : Prop :=
  st' = setCache (dnsCache st') (setWorld (world st') st) ∧ bootstraps done_ (dnsCache st) (dnsCache st').

Definition frame {A} (done_ : Z) (m : @dnsM W A) : Prop := ∀ st r st', m st = (r, st') → onlyCache done_ st st'.

Lemma onlyCache_refl done_ st : onlyCache done_ st st.
Proof. split; [by destruct st|apply boot_done]. Qed.

Lemma onlyCache_trans done_ st1 st2 st3 : onlyCache done_ st1 st2 → onlyCache done_ st2 st3 → onlyCache done_ st1 st3.
Proof. intros [E1 B1] [E2 B2]. split; [rewrite E2, E1; done|by eapply bootstraps_trans]. Qed.

Lemma frame_lift {A} done_ (r : res A) : frame done_ (liftD r).
Proof. intros st r' st' [= <- <-]. apply onlyCache_refl. Qed.

Lemma frame_ret {A} done_ (a : A) : frame done_ (mret a).
Proof. apply (frame_lift done_ (Ok a)). Qed.

Lemma frame_read {A} done_ (f : dnsState W → A) : frame done_ (readD f).
Proof. intros st r' st' [= <- <-]. apply onlyCache_refl. Qed.

Lemma frame_bind {A B} done_ (m : @dnsM W A) (k : A → @dnsM W B) : frame done_ m → (∀ a, frame done_ (k a)) → frame done_ (m ≫= k).
Proof.
  intros Hm Hk st r st'. unfold mbind, dnsM_bind. destruct (m st) as [[a|e|] st1] eqn:E; apply Hm in E.
  - intros E'%Hk. by eapply onlyCache_trans.
  - by intros [= <- <-].
  - by intros [= <- <-].
Qed.

Lemma frame_with_str {A} done_ op (m : @dnsM W A) : frame done_ m → frame done_ (with_strD op m).
Proof.
  intros Hm st r st'. unfold with_strD. destruct (m st) as [[a|e|] st1] eqn:E; apply Hm in E; by intros [= <- <-].
Qed.

Lemma frame_getCached done_ k now : frame done_ (@getCached W hash k now).
Proof.
  intros st r st'. unfold getCached. destruct (cacheGet hash k now (dnsCache st)) as [[r' c]|] eqn:E; intros [= <- <-];
    [|apply onlyCache_refl]. split; [done|]. eapply boot_get; [exact E|apply boot_done].
Qed.

Create HintDb dnsframe.
Hint Resolve frame_lift frame_ret frame_read frame_bind frame_with_str frame_getCached : dnsframe.

Lemma frame_bootstrap host now done_ : frame done_ (resolveBootstrapHost hash bootstrapLookupIP host now done_).
Proof.
  unfold resolveBootstrapHost. destruct (_ || _); [apply frame_ret|]. apply frame_bind; [apply frame_getCached|].
  intros [ip|]; [apply frame_ret|]. intros st r st'. unfold with_strD, onWorld, mbind, dnsM_bind.
  destruct (bootstrapLookupIP host (world st)) as [[addrs|e|] w] eqn:El.
  - cbv zeta. case_bool_decide as Hip; [intros [= <- <-]; split; [done|apply boot_done]|]. unfold addCached.
    destruct (cacheAdd hash host _ _ done_ _) as [c|] eqn:Ea; intros [= <- <-]; (split; [done|]); [|apply boot_done].
    eapply boot_add; [exact El|exact Hip|exact Ea|apply boot_done].
  - intros [= <- <-]. split; [done|apply boot_done].
  - intros [= <- <-]. split; [done|apply boot_done].
Qed.

Lemma frame_doh url now done_ : frame done_ (genDoHDialFuncFor hash bootstrapLookupIP t getFromIPPool url now done_).
Proof.
  unfold genDoHDialFuncFor. destruct (urlParse url) as [u|]; [|apply frame_lift].
  apply frame_bind; [apply frame_lift|]. intros [host pol]. apply frame_bind.
  - destruct (isIPText host); [apply frame_ret|apply frame_bootstrap].
  - intros host'. destruct (pMode pol); auto with dnsframe.
Qed.

Lemma frame_https socks5 eps now done_ :
  frame done_ (httpsExchanges hash bootstrapLookupIP t getFromIPPool socks5Error socks5 eps now done_).
Proof.
  induction eps as [|ep eps IH]; cbn [httpsExchanges]; [apply frame_ret|].
  destruct (isValidHTTPSURL ep); [cbn [negb]|apply frame_lift]. apply frame_bind; [|auto with dnsframe].
  case_bool_decide; [apply frame_with_str, frame_doh|]. destruct (socks5Error socks5); auto with dnsframe.
Qed.

Lemma frame_upstreams c now done_ :
  frame done_ (upstreamsOf hash bootstrapLookupIP t getFromIPPool socks5Error c now done_).
Proof.
  unfold upstreamsOf. cbv zeta. repeat case_bool_decide; cbn [orb]; auto 8 with dnsframe.
  all: destruct (isValidHTTPSURL (dAddr c)); cbn [negb]; [|apply frame_lift].
  all: apply frame_bind; [apply frame_https|auto with dnsframe].
Qed.

(** *** One upstream per endpoint, of its kind and with its address *)

(** The transport of a DoH server: through the proxy, or to the host that the rules
    select for the name in its URL, resolved if it is a name, on the port of the
    rules or of the URL. *)
Definition reachesDoH (c : DNSConfig) (now done_ : Z) (ep : gostring) (dial : dohDial) : Prop :=
  if bool_decide (dDoHSocks5Addr c = []) then
    ∃ u host pol host', urlParse ep = Some u ∧ dohTarget t getFromIPPool (Hostname u) = Ok (host, pol) ∧
      pMode pol ≠ ModeBlock ∧ pMode pol ≠ ModeTLSAlert ∧
      (if isIPText host then host' = host
       else ∃ st1 st2, resolveBootstrapHost hash bootstrapLookupIP host now done_ st1 = (Ok host', st2)) ∧
      dial = dialPolicy (JoinHostPort host'
        (if pPort pol =? unsetInt then if bool_decide (URLPort u = []) then lit "443" else URLPort u else itoa (pPort pol))) pol
  else dial = dialSocks5 (dDoHSocks5Addr c).

(** [u] is the upstream a configuration has for the endpoint [ep]. *)
Definition serves (c : DNSConfig) (now done_ : Z) (ep : gostring) (u : upstream) : Prop :=
  if bool_decide (dType c = []) || bool_decide (dType c = lit "udp") then
    is_Some (ParseAddrPort ep) ∧ ∃ client, udpClient c = Ok client ∧ u = upClient client ep
  else if bool_decide (dType c = lit "tcp") then
    is_Some (ParseAddrPort ep) ∧ u = upClient (plainClient (mkClient "tcp" 0 0 0 0 None)) ep
  else if bool_decide (dType c = lit "tls") then
    is_Some (ParseAddrPort ep) ∧ u = upClient (plainClient (mkClient "tcp-tls" 0 0 0 0 None)) ep
  else if bool_decide (dType c = lit "https") then
    isValidHTTPSURL ep = true ∧ ∃ dial, u = upHTTPS dial ep ∧ reachesDoH c now done_ ep dial
  else dType c = lit "quic" ∧
    ∃ slot, u = upQUIC (newDoQClient slot (match SplitHostPort ep with Ok _ => ep | _ => JoinHostPort ep "853" end)).

Lemma addrExchanges_serve client eps us : addrExchanges client eps = Ok us →
  Forall2 (λ ep u, is_Some (ParseAddrPort ep) ∧ u = upClient client ep) eps us.
Proof.
  revert us. induction eps as [|ep eps IH]; intros us; cbn [addrExchanges]; [intros [= <-]; constructor|].
  destruct (ParseAddrPort ep) eqn:Ep; [|done]. intros (us' & E & [= <-])%bind_Ok. constructor; [by rewrite Ep|by apply IH].
Qed.

Lemma genDoH_reaches c ep now done_ st dial st' : dDoHSocks5Addr c = [] →
  genDoHDialFuncFor hash bootstrapLookupIP t getFromIPPool ep now done_ st = (Ok dial, st') → reachesDoH c now done_ ep dial.
Proof.
  intros Hs. unfold genDoHDialFuncFor, reachesDoH. rewrite bool_decide_eq_true_2 by done.
  destruct (urlParse ep) as [u|]; [|done].
  intros ([host pol] & st1 & [= Et ->] & E)%dnsM_bind_Ok. apply dnsM_bind_Ok in E as (host' & st2 & Eh & E).
  exists u, host, pol, host'. split_and!; [done|done|by intros Hm; rewrite Hm in E..| |].
  - destruct (isIPText host); [by injection Eh|by eexists _, st2].
  - destruct (pMode pol); try done; by injection E.
Qed.

Lemma httpsExchanges_serve c eps now done_ st us st' :
  httpsExchanges hash bootstrapLookupIP t getFromIPPool socks5Error (dDoHSocks5Addr c) eps now done_ st = (Ok us, st') →
  Forall2 (λ ep u, isValidHTTPSURL ep = true ∧ ∃ dial, u = upHTTPS dial ep ∧ reachesDoH c now done_ ep dial) eps us.
Proof.
  revert st us st'. induction eps as [|ep eps IH]; intros st us st'; cbn [httpsExchanges]; [intros [= <- <-]; constructor|].
  destruct (isValidHTTPSURL ep) eqn:Ev; cbn [negb]; [|done].
  intros (dial & st1 & Ed & (us' & st2 & E & [= <- <-])%dnsM_bind_Ok)%dnsM_bind_Ok. constructor; [|by eapply IH].
  split; [done|]. exists dial. split; [done|]. case_bool_decide as Hs.
  - unfold with_strD in Ed. destruct (genDoHDialFuncFor _ _ _ _ _ _ _ _) as [[d|e|] s1] eqn:Eg; [|done..].
    injection Ed as <- <-. by eapply genDoH_reaches.
  - unfold reachesDoH. rewrite bool_decide_eq_false_2 by done. destruct (socks5Error (dDoHSocks5Addr c)); [done|]. by injection Ed.
Qed.

Lemma quicExchanges_serve n eps :
  Forall2 (λ ep u, ∃ slot, u = upQUIC (newDoQClient slot (match SplitHostPort ep with Ok _ => ep | _ => JoinHostPort ep "853" end)))
    eps (quicExchanges n eps).
Proof. revert n. induction eps as [|ep eps IH]; intros n; cbn [quicExchanges]; constructor; [by exists n|apply IH]. Qed.

Lemma upstreamsOf_serve c now done_ st client h us st' :
  upstreamsOf hash bootstrapLookupIP t getFromIPPool socks5Error c now done_ st = (Ok (client, h, us), st') →
  Forall2 (serves c now done_) (endpointsOf c) us.
Proof.
  unfold upstreamsOf. cbv zeta.
  assert (∀ cl st1, (us ← liftD (addrExchanges cl (endpointsOf c)); mret (Some cl, false, us)) st1
                     = (Ok (client, h, us), st') → Forall2 (λ ep u, is_Some (ParseAddrPort ep) ∧ u = upClient cl ep) (endpointsOf c) us) as Hs.
  { intros cl st1 (us' & st2 & [= E _] & [= _ _ <- _])%dnsM_bind_Ok. exact (addrExchanges_serve cl (endpointsOf c) _ E). }
  assert (∀ P : gostring → upstream → Prop, Forall2 P (endpointsOf c) us → (∀ ep u, P ep u → serves c now done_ ep u) →
    Forall2 (serves c now done_) (endpointsOf c) us) as Himp by (intros P HP Hall; by eapply Forall2_impl).
  unfold serves in *. destruct (_ || _).
  { intros (cl & st1 & [= Ecl _] & E)%dnsM_bind_Ok. eapply Himp; [by eapply Hs|]. intros ep u [Hp ->]. split; [done|]. by exists cl. }
  case_bool_decide; [intros E; eapply Himp; [by eapply Hs|done]|].
  case_bool_decide; [intros E; eapply Himp; [by eapply Hs|done]|]. case_bool_decide.
  { destruct (isValidHTTPSURL (dAddr c)); cbn [negb]; [|done].
    intros (us' & st1 & E & [= _ _ <- _])%dnsM_bind_Ok. by eapply Himp; [eapply httpsExchanges_serve|]. }
  case_bool_decide; [|done]. intros (n & st1 & _ & [= _ _ <- _])%dnsM_bind_Ok.
  eapply Himp; [apply (quicExchanges_serve n)|]. done.
Qed.

Lemma setDNS_spec c now done_ (st : dnsState W) :
  let '(r, st') := setDNS hash bootstrapLookupIP t getFromIPPool socks5Error gomaxprocs c now done_ st in
  match r with
  | Ok _ =>
      dnsExchangeIdx st' = dnsExchangeIdx st ∧ dnsAddr st' = dAddr c ∧ lastDNSConfig st' = Some c ∧ dnsResolveGroup st' = dSingleFlight c ∧
      Forall2 (serves c now done_) (endpointsOf c) (dnsExchanges st') ∧
      dnsExchange st' = head (dnsExchanges st') ∧ is_Some (dnsExchange st') ∧
      cachesOf gomaxprocs c = Ok (dnsCache st', ipDomainCache st') ∧ edns0Of c = Ok (edns0SubnetOpt st')
  | _ => onlyCache done_ st st'
  end.
Proof.
  destruct (setDNS _ _ _ _ _ _ c now done_ st) as [r st'] eqn:E. unfold setDNS in E. case_bool_decide.
  { injection E as <- <-. apply onlyCache_refl. }
  unfold mbind, dnsM_bind, liftD in E.
  destruct (upstreamsOf _ _ _ _ _ c now done_ st) as [[[[client h] us]|e|] st1] eqn:Eu.
  2,3: injection E as <- <-; exact (frame_upstreams _ _ _ _ _ _ Eu).
  pose proof (upstreamsOf_serve _ _ _ _ _ _ _ _ Eu) as Hserve. apply frame_upstreams in Eu.
  destruct (cachesOf gomaxprocs c) as [[cache ipCache]|e|]; [|by injection E as <- <-..].
  destruct (edns0Of c) as [o|e|]; [|by injection E as <- <-..].
  injection E as <- <-. cbn. split_and!; try done; [by rewrite (proj1 Eu)|by inversion Hserve].
Qed.

(** A cache as a configuration makes it: none, or one without entries. *)
Definition emptyCache (disabled : bool) (c : dnsCacheT) : Prop :=
  (is_Some c ↔ disabled = false) ∧ ∀ k now, ∃ c', cacheGet hash k now c = Some (None, c').

Lemma cachesOf_empty c cache ipCache : (∀ k, 0 ≤ hash k < 2 ^ 32) → 0 ≤ dCacheCapacity c < 2 ^ 30 →
  cachesOf gomaxprocs c = Ok (cache, ipCache) → emptyCache (dDisableCache c) cache ∧ emptyCache (dDisableCache c) ipCache.
Proof.
  intros Hh Hc. unfold cachesOf, emptyCache. destruct (dDisableCache c); [intros [= <- <-]|].
  { split; (split; [split; [by intros []|done]|by eexists]). }
  set (cap := if dCacheCapacity c =? 0 then 4096 else dCacheCapacity c).
  assert (0 ≤ cap < 2 ^ 30) as Hcap by (unfold cap; destruct (_ =? 0); lia).
  destruct (NewSharded [] [] gomaxprocs cap) as [l|e|] eqn:E; [|done..]. cbn. intros [= <- <-].
  assert (∀ k now, ∃ c', cacheGet hash k now (Some l) = Some (None, c')) as Hmiss.
  { intros k now. pose proof (cacheInv_new hash [] [] Hh (λ _ _, False) gomaxprocs cap l Hcap E) as Hinv.
    destruct (cacheInv_get hash [] [] Hh (λ _ _, False) l k now Hinv) as (r & l' & Eg & _ & Hr).
    exists (Some l'). unfold cacheGet. rewrite Eg. cbn. destruct r as [v|]; [by destruct (Hr v)|done]. }
  split; (split; [split; [done|by eexists]|done]).
Qed.

(** C33: configuring DNS either succeeds or fails as a whole.  If it succeeds, the
    upstreams are, one by one and in order, those of the configured address and of
    the further resolvers, each of the kind the type of the configuration names and
    with the address (for DoH the URL and the transport) of its endpoint; the first
    of them is the single upstream; no name is found in the caches (which are absent
    if disabled), for a hash of 32 bits and a capacity below 2^30; the other
    settings are those of the configuration.  If it fails, every setting is as before; only the network has been used, and the
    cache of names differs by lookups of the names of DoH servers, read or added
    with the address the system's resolver gave. *)
Theorem set_dns_all_or_nothing c now done_ (st : dnsState W) :
  (∀ k, 0 ≤ hash k < 2 ^ 32) → 0 ≤ dCacheCapacity c < 2 ^ 30 →
  let '(r, st') := setDNS hash bootstrapLookupIP t getFromIPPool socks5Error gomaxprocs c now done_ st in
  match r with
  | Ok _ =>
      dnsExchangeIdx st' = dnsExchangeIdx st ∧ dnsAddr st' = dAddr c ∧ lastDNSConfig st' = Some c ∧ dnsResolveGroup st' = dSingleFlight c ∧
      Forall2 (serves c now done_) (endpointsOf c) (dnsExchanges st') ∧
      dnsExchange st' = head (dnsExchanges st') ∧ is_Some (dnsExchange st') ∧
      emptyCache (dDisableCache c) (dnsCache st') ∧ emptyCache (dDisableCache c) (ipDomainCache st') ∧
      edns0Of c = Ok (edns0SubnetOpt st')
  | _ => onlyCache done_ st st'
  end.
Proof.
  intros Hh Hc. pose proof (setDNS_spec c now done_ st) as Hs. destruct (setDNS _ _ _ _ _ _ c now done_ st) as [[u|e|] st']; [|done..].
  destruct Hs as (H1 & H2 & H3 & H4 & H5 & H6 & H7 & H8 & H9). destruct (cachesOf_empty c _ _ Hh Hc H8). by split_and!.
Qed.

(** The DoH dialler of a server name for which there is no rule and no hosts
    entry does not resolve the name: it connects to the port on no host. *)
Lemma doh_without_rule_has_no_host url u now done_ st :
  urlParse url = Some u → isIPText (Hostname u) = false →
  Domain.Find (domainMatcher t) (Hostname u) = None → Domain.Find (hostsMatcher t) (Hostname u) = None →
  pHost (defaultPolicy t) = [] ∨ pHost (defaultPolicy t) = unsetString →
  pMode (defaultPolicy t) ≠ ModeBlock → pMode (defaultPolicy t) ≠ ModeTLSAlert →
  URLPort u = [] → pPort (defaultPolicy t) = unsetInt →
  genDoHDialFuncFor hash bootstrapLookupIP t getFromIPPool url now done_ st = (Ok (dialPolicy ":443" (defaultPolicy t)), st).
Proof.
  intros Hu Hip Hd Hh Hp Hm1 Hm2 Hport Hpp. unfold genDoHDialFuncFor. rewrite Hu. unfold dohTarget. rewrite Hip, Hd. cbv zeta.
  assert (dohSelectedHost t (defaultPolicy t) (Hostname u) = []) as ->.
  { unfold dohSelectedHost. rewrite Hh. by destruct Hp as [->| ->]. }
  unfold mbind, dnsM_bind, liftD. rewrite bool_decide_eq_false_2 by done.
  assert (has_prefix [] ipPoolTagPrefix = false) as -> by by vm_compute.
  assert (has_prefix [] resolvePrefix = false) as -> by by vm_compute.
  assert (isIPText [] = false) as -> by by vm_compute.
  unfold resolveBootstrapHost. rewrite (bool_decide_eq_true_2 ([] = [])) by done. cbn [orb].
  rewrite Hport, Hpp, bool_decide_eq_true_2, Z.eqb_refl by done. by destruct (pMode (defaultPolicy t)).
Qed.
End Configure.

(** ** A configuration that is accepted *)

Definition twoServers : DNSConfig :=
  mkDNSConfig "tls" "1.1.1.1:853" [lit " [2620:fe::fe]:853 "; lit "1.1.1.1:853"] true false 64 [] 0 [] [] [] [].

Definition noBootstrap (host : gostring) (w : nat) : res (list bytes) * nat := (Err (sysError 0), w).

Lemma set_dns_all_or_nothing_witness :
  let st' := (@setDNS nat (λ k, u32 (zlen k)) noBootstrap (λ _, None) goTimeNone (emptyTables unsetPolicy) noPools (λ _, None) 1 twoServers 0 0
                (unconfigured 0%nat)).2 in
  dnsExchanges st' = upClient (plainClient (mkClient "tcp-tls" 0 0 0 0 None)) <$> [lit "1.1.1.1:853"; lit "[2620:fe::fe]:853"] ∧
  emptyCache (λ k, u32 (zlen k)) false (dnsCache st').
Proof.
  split; [vm_compute; reflexivity|].
  assert (∀ k : gostring, 0 ≤ u32 (zlen k) < 2 ^ 32) as Hh by (intros k; apply Z.mod_pos_bound; lia).
  pose proof (@set_dns_all_or_nothing nat (λ k, u32 (zlen k)) noBootstrap (λ _, None) goTimeNone (emptyTables unsetPolicy) noPools
    (λ _, None) 1 twoServers 0 0 (unconfigured 0%nat) Hh ltac:(vm_compute; split; [discriminate|reflexivity])) as Hs.
  destruct (setDNS (λ k, u32 (zlen k)) _ _ _ _ _ twoServers 0 0 _) as [r st'] eqn:E.
  assert (r = Ok tt) as -> by (apply (f_equal fst) in E; vm_compute in E; by rewrite <- E).
  destruct Hs as (_ & _ & _ & _ & _ & _ & _ & Hc & _).
  exact Hc.
Defined.
