(* ===== verification/SimpleObfs.v ===== *)
(** * simple-obfs: Shadowsocks disguised as TLS or HTTP

    [tun2socks/transport/simple-obfs] with the buffer pool it shares.  [TLSObfs]
    sends its first bytes in the session ticket of a ClientHello and the rest in
    application data records, and strips the records it receives; [HTTPObfs]
    sends its first bytes as the body of a request and drops the header of the
    response. *)

From S2P Require Import Prelude Errors ClientHello Stream NetConn Dns.
Local Open Scope Z_scope.

Module TLS.

Definition chunkSize : Z := 2 ^ 14.

Record TLSObfs := mkTLSObfs {
  conn : netConn;
  server : gostring;
  remain : Z;
  firstRequest : bool;
  firstResponse : bool;
}.

Definition NewTLSObfs (c : netConn) (server : gostring) : TLSObfs := mkTLSObfs c server 0 true true.

Definition setConn (t : TLSObfs) (c : netConn) (remain : Z) (fq fs : bool) : TLSObfs := mkTLSObfs c (server t) remain fq fs.

(** [read]: past [discardN] bytes and the length, into a slice of [len] bytes.
    The header is in [to.Conn] until it is complete. *)
Definition read (len discardN : Z) (t : TLSObfs) : bytes * option error * TLSObfs :=
  match netReadFull discardN (conn t) with
  | (_, Some e, c) => ([], Some e, setConn t c (remain t) (firstRequest t) (firstResponse t))
  | (_, None, c) =>
      match netReadFull 2 c with
      | (_, Some e, c) => ([], Some e, setConn t c (remain t) (firstRequest t) (firstResponse t))
      | (sizeBuf, None, c) =>
          let length := be16 (sizeBuf !!! 0%nat) (sizeBuf !!! 1%nat) in
          if len <? length then
            match netRead len c with
            | (b, Some e, c) => (b, Some e, setConn t c (remain t) (firstRequest t) (firstResponse t))
            | (b, None, c) => (b, None, setConn t c (length - zlen b) (firstRequest t) (firstResponse t))
            end
          else
            let '(b, e, c) := netReadFull length c in
            (b, e, setConn t c (remain t) (firstRequest t) (firstResponse t))
      end
  end.

Definition Read (len : Z) (t : TLSObfs) : bytes * option error * TLSObfs :=
  if 0 <? remain t then
    let '(b, e, c) := netReadFull (Z.min (remain t) len) (conn t) in
    (b, e, setConn t c (remain t - zlen b) (firstRequest t) (firstResponse t))
  else if firstResponse t then read len 105 (setConn t (conn t) (remain t) (firstRequest t) false)
  else read len 3 t.

Definition cipherSuites : bytes :=
  [0xc0; 0x2c; 0xc0; 0x30; 0x00; 0x9f; 0xcc; 0xa9; 0xcc; 0xa8; 0xcc; 0xaa; 0xc0; 0x2b; 0xc0; 0x2f;
   0x00; 0x9e; 0xc0; 0x24; 0xc0; 0x28; 0x00; 0x6b; 0xc0; 0x23; 0xc0; 0x27; 0x00; 0x67; 0xc0; 0x0a;
   0xc0; 0x14; 0x00; 0x39; 0xc0; 0x09; 0xc0; 0x13; 0x00; 0x33; 0x00; 0x9d; 0x00; 0x9c; 0x00; 0x3d;
   0x00; 0x3c; 0x00; 0x35; 0x00; 0x2f; 0x00; 0xff].

(** [makeClientHelloMsg]; the clock and the random bytes are arguments. *)
Definition makeClientHelloMsg (now : Z) (random sessionID : bytes) (data : bytes) (server : gostring) : bytes :=
  let length := u16 (212 + zlen data + zlen server) in
  [22] ++ [0x03; 0x01] ++ [u8 (Z.shiftr length 8); u8 (Z.land length 0xff)] ++
  [1] ++ [0] ++ put_be16 (u16 (208 + zlen data + zlen server)) ++ [0x03; 0x03] ++
  put_be16 (Z.shiftr (u32 now) 16) ++ put_be16 (u32 now) ++ random ++ [32] ++ sessionID ++
  [0x00; 0x38] ++ cipherSuites ++
  [0x01; 0x00] ++
  put_be16 (u16 (79 + zlen data + zlen server)) ++
  [0x00; 0x23] ++ put_be16 (u16 (zlen data)) ++ data ++
  [0x00; 0x00] ++ put_be16 (u16 (zlen server + 5)) ++ put_be16 (u16 (zlen server + 3)) ++ [0] ++
  put_be16 (u16 (zlen server)) ++ server ++
  [0x00; 0x0b; 0x00; 0x04; 0x03; 0x01; 0x00; 0x02] ++
  [0x00; 0x0a; 0x00; 0x0a; 0x00; 0x08; 0x00; 0x1d; 0x00; 0x17; 0x00; 0x19; 0x00; 0x18] ++
  [0x00; 0x0d; 0x00; 0x20; 0x00; 0x1e; 0x06; 0x01; 0x06; 0x02; 0x06; 0x03; 0x05;
   0x01; 0x05; 0x02; 0x05; 0x03; 0x04; 0x01; 0x04; 0x02; 0x04; 0x03; 0x03; 0x01;
   0x03; 0x02; 0x03; 0x03; 0x02; 0x01; 0x02; 0x02; 0x02; 0x03] ++
  [0x00; 0x16; 0x00; 0x00] ++
  [0x00; 0x17; 0x00; 0x00].

(** What the clock and [rand.Read] say when a hello is made. *)
Record helloEnv := mkHelloEnv { heNow : Z; heRandom : bytes; heSession : bytes }.

Definition makeHello (env : helloEnv) (data : bytes) (server : gostring) : bytes :=
  makeClientHelloMsg (heNow env) (heRandom env) (heSession env) data server.

(** [write] of one chunk: the count and the error. *)
Definition write (env : helloEnv) (b : bytes) (t : TLSObfs) : Z * option error * TLSObfs :=
  if firstRequest t then
    let '(e, c) := netWrite (makeHello env b (server t)) (conn t) in
    (zlen b, e, setConn t c (remain t) false (firstResponse t))
  else
    let '(e, c) := netWrite ([0x17; 0x03; 0x03] ++ put_be16 (u16 (zlen b)) ++ b) (conn t) in
    (zlen b, e, setConn t c (remain t) (firstRequest t) (firstResponse t)).

(** [Write]: every round takes a chunk, so the length is fuel enough. *)
Fixpoint writeLoop (fuel : nat) (env : helloEnv) (total : Z) (b : bytes) (t : TLSObfs) : Z * option error * TLSObfs :=
  match fuel with
  | O => (total, None, t)
  | S fuel =>
      if bool_decide (b = []) then (total, None, t) else
      match write env (take (Z.to_nat chunkSize) b) t with
      | (n, Some e, t) => (n, Some e, t)
      | (_, None, t) => writeLoop fuel env total (drop (Z.to_nat chunkSize) b) t
      end
  end.

Definition Write (env : helloEnv) (b : bytes) (t : TLSObfs) : Z * option error * TLSObfs :=
  writeLoop (length b) env (zlen b) b t.

(** ** The hello is a ClientHello *)

Definition helloExtensions (data : bytes) (server : gostring) : list (Z * bytes) :=
  [(0x23, data); (tlsExtTypeSNI, sniData server); (0x0b, [0x03; 0x01; 0x00; 0x02]);
   (0x0a, [0x00; 0x08; 0x00; 0x1d; 0x00; 0x17; 0x00; 0x19; 0x00; 0x18]);
   (0x0d, [0x00; 0x1e; 0x06; 0x01; 0x06; 0x02; 0x06; 0x03; 0x05; 0x01; 0x05; 0x02; 0x05; 0x03; 0x04; 0x01; 0x04; 0x02;
           0x04; 0x03; 0x03; 0x01; 0x03; 0x02; 0x03; 0x03; 0x02; 0x01; 0x02; 0x02; 0x02; 0x03]);
   (0x16, []); (0x17, [])].

Definition asHello (env : helloEnv) (data : bytes) (server : gostring) : clientHello :=
  mkClientHello 1 [3; 3] (put_be16 (Z.shiftr (u32 (heNow env)) 16) ++ put_be16 (u32 (heNow env)) ++ heRandom env)
    (heSession env) cipherSuites [0] (helloExtensions data server).

Definition envOK (env : helloEnv) : Prop := zlen (heRandom env) = 28 ∧ zlen (heSession env) = 32.

Lemma asHello_exts env data server :
  zlen (encodeExtensions (ch_extensions (asHello env data server))) = 79 + zlen data + zlen server.
Proof.
  unfold asHello, ch_extensions, helloExtensions. rewrite !encodeExtensions_cons. cbn [fst snd].
  change (encodeExtensions []) with (@nil Z). unfold sniData. rewrite !zlen_app, !zlen_put16. cbn. unfold zlen. cbn. lia.
Qed.

Lemma asHello_body env data server : envOK env →
  zlen (helloBody (asHello env data server)) = 208 + zlen data + zlen server.
Proof.
  intros [Hr Hs]. unfold helloBody. rewrite !zlen_app, asHello_exts, !zlen_put16.
  cbn [asHello ch_version ch_random ch_session ch_ciphers ch_compression].
  rewrite !zlen_app, !zlen_put16, Hr, Hs. unfold zlen. cbn. lia.
Qed.

Lemma put16_u16 n : 0 ≤ n < 2 ^ 16 → put_be16 (u16 n) = put_be16 n.
Proof. intros Hn. unfold u16. by rewrite Z.mod_small. Qed.

(** The bytes the code assembles are the encoding of a ClientHello. *)
Lemma makeHello_encode env data server : envOK env → 212 + zlen data + zlen server < 2 ^ 16 →
  makeHello env data server = encodeHello (asHello env data server).
Proof.
  intros He Hfit. pose proof (zlen_nonneg data). pose proof (zlen_nonneg server). destruct (He) as [Hr Hs].
  unfold encodeHello. rewrite asHello_body by done. set (n := 208 + zlen data + zlen server).
  replace (4 + n) with (212 + zlen data + zlen server) by (unfold n; lia).
  unfold helloBody. rewrite asHello_exts.
  cbn [asHello ch_minor ch_version ch_random ch_session ch_ciphers ch_compression ch_extensions].
  unfold helloExtensions. rewrite !encodeExtensions_cons. cbn [fst snd]. change (encodeExtensions []) with (@nil Z).
  unfold makeHello, makeClientHelloMsg. rewrite !put16_u16 by lia.
  assert (u16 (212 + zlen data + zlen server) = 212 + zlen data + zlen server) as -> by (unfold u16; rewrite Z.mod_small; lia).
  assert (∀ x, u8 (Z.land x 0xff) = u8 x) as Hu.
  { intros x. unfold u8. change 0xff with (Z.ones 8). rewrite Z.land_ones by lia. apply Z.mod_mod. lia. }
  rewrite Hu. rewrite Hs. unfold sniData, put_be24.
  assert (zlen (put_be16 (zlen server + 3) ++ [0] ++ put_be16 (zlen server) ++ server) = zlen server + 5) as ->.
  { rewrite !zlen_app, !zlen_put16. unfold zlen. cbn. lia. }
  assert (u8 (Z.shiftr n 16) = 0) as ->.
  { unfold u8. rewrite Z.shiftr_div_pow2 by lia. rewrite (Z.div_small n) by (unfold n; lia). done. }
  rewrite <- !app_assoc. unfold n. reflexivity.
Qed.

(** The core's own parser takes the disguise for a ClientHello to [server]: it
    finds the name at its place whatever data rides in the session ticket. *)
Theorem obfs_hello_parsed env data server :
  envOK env → 212 + zlen data + zlen server < 2 ^ 16 →
  ∃ h, parseClientHello (makeHello env data server) = Some h ∧ helloErr h = None ∧
    slice (makeHello env data server) (sniStart h) (sniStart h + sniLen h) = Some server ∧
    prtVer h = [3; 3] ∧ hasKeyShare h = false ∧ hasECH h = false.
Proof.
  intros He Hfit. rewrite makeHello_encode by done.
  apply (parse_encodeHello_name (asHello env data server) [(0x23, data)] (drop 2 (helloExtensions data server))).
  - unfold helloFits. rewrite asHello_body by done. destruct He as [Hr Hs].
    cbn [asHello ch_version ch_random ch_session ch_compression ch_extensions].
    rewrite !zlen_app, !zlen_put16, Hr, Hs. split_and!; try done; try lia. repeat (apply Forall_cons_2; [cbn; unfold tlsExtTypeSNI; lia|]). apply Forall_nil_2.
  - reflexivity.
  - repeat constructor; discriminate.
  - repeat constructor; discriminate.
Qed.

(** ** Records *)

Definition frame (p : bytes) : bytes := [0x17; 0x03; 0x03] ++ put_be16 (zlen p) ++ p.

Definition payloadOK (p : bytes) : Prop := p ≠ [] ∧ zlen p < 2 ^ 16.

Fixpoint chunks (fuel : nat) (b : bytes) : list bytes :=
  match fuel with
  | O => []
  | S fuel => if bool_decide (b = []) then [] else take (Z.to_nat chunkSize) b :: chunks fuel (drop (Z.to_nat chunkSize) b)
  end.

Lemma take_chunk (b : bytes) : zlen (take (Z.to_nat chunkSize) b) ≤ chunkSize.
Proof. assert (0 < chunkSize) by done. unfold zlen. rewrite length_take. lia. Qed.

Lemma drop_chunk (b : bytes) fuel : b ≠ [] → (length b ≤ S fuel)%nat → (length (drop (Z.to_nat chunkSize) b) ≤ fuel)%nat.
Proof. assert (0 < chunkSize) by done. intros Hb Hf. rewrite length_drop. destruct b; [done|]. cbn in *. lia. Qed.

Lemma chunks_facts fuel b : (length b ≤ fuel)%nat →
  concat (chunks fuel b) = b ∧ Forall (λ p, p ≠ [] ∧ zlen p ≤ chunkSize) (chunks fuel b).
Proof.
  revert b. induction fuel as [|fuel IH]; intros b Hf; cbn [chunks].
  { destruct b; [done|cbn in Hf; lia]. }
  case_bool_decide as Hb; [by subst|]. destruct (IH (drop (Z.to_nat chunkSize) b)) as [IH1 IH2].
  { by apply drop_chunk. }
  cbn. rewrite IH1, take_drop. split; [done|]. constructor; [|done]. split.
  - destruct b; [done|]. by destruct (Z.to_nat chunkSize) eqn:E.
  - apply take_chunk.
Qed.

(** What leaves the connection for the chunks [ps]. *)
Definition sentFor (env : helloEnv) (server : gostring) (first : bool) (ps : list bytes) : list bytes :=
  match ps with
  | [] => []
  | p :: ps => (if first then makeHello env p server else frame p) :: (frame <$> ps)
  end.

Lemma write_chunk env p t : quietWrites (conn t) → zlen p ≤ chunkSize →
  write env p t =
    (zlen p, None,
     setConn t (mkNet (ncSegs (conn t)) (ncEnd (conn t)) (ncOut (conn t) ++ sentFor env (server t) (firstRequest t) [p])
                 (ncFail (conn t))) (remain t) false (firstResponse t)).
Proof.
  intros Hq Hp. pose proof (zlen_nonneg p). assert (chunkSize < 2 ^ 16) by done.
  unfold write, sentFor. destruct (firstRequest t) eqn:Ef; rewrite netWrite_quiet by done; [done|].
  by rewrite put16_u16 by lia.
Qed.

Lemma writeLoop_sends fuel env total b t : quietWrites (conn t) → (length b ≤ fuel)%nat →
  ∃ t', writeLoop fuel env total b t = (total, None, t') ∧
    ncOut (conn t') = ncOut (conn t) ++ sentFor env (server t) (firstRequest t) (chunks fuel b) ∧
    quietWrites (conn t') ∧ server t' = server t ∧ remain t' = remain t ∧ firstResponse t' = firstResponse t ∧
    ncSegs (conn t') = ncSegs (conn t) ∧ firstRequest t' = firstRequest t && bool_decide (b = []).
Proof.
  revert b t. induction fuel as [|fuel IH]; intros b t Hq Hf; cbn [writeLoop chunks].
  { exists t. destruct b; [|cbn in Hf; lia]. rewrite app_nil_r, andb_true_r. done. }
  case_bool_decide as Hb.
  { subst. exists t. rewrite app_nil_r, andb_true_r. done. }
  rewrite write_chunk by (done || apply take_chunk).
  match goal with |- context [writeLoop fuel env total ?b1 ?t1] =>
    destruct (IH b1 t1) as (t' & E & Ho & H2 & H3 & H4 & H5 & H6 & H7); [done|by apply drop_chunk|] end.
  exists t'. split; [exact E|]. rewrite Ho, H3, H4, H5, H6, H7. cbn [conn server firstRequest remain firstResponse ncOut ncSegs setConn].
  rewrite <- app_assoc. split_and!; try done; [|by rewrite andb_false_r].
  f_equal. cbn [sentFor]. destruct (chunks fuel _) as [|q qs]; cbn; [done|]. done.
Qed.

(** [Write] accepts everything: the first chunk goes out in a ClientHello, the
    others in records of at most 16 KiB. *)
Lemma Write_sends env b t : quietWrites (conn t) →
  ∃ ps t', Write env b t = (zlen b, None, t') ∧ concat ps = b ∧ Forall (λ p, p ≠ [] ∧ zlen p ≤ chunkSize) ps ∧
    ncOut (conn t') = ncOut (conn t) ++ sentFor env (server t) (firstRequest t) ps.
Proof.
  intros Hq. destruct (chunks_facts (length b) b) as [Hc HF]; [done|].
  destruct (writeLoop_sends (length b) env (zlen b) b t Hq) as (t' & E & Ho & _); [done|].
  by exists (chunks (length b) b), t'.
Qed.

(** ** Reading *)

(** The bytes of the first response before its length: a ServerHello, a change
    of cipher and the start of a record. *)
Definition firstHeader : Z := 105.

Definition delivers (t : TLSObfs) (rem : bytes) : Prop :=
  ∃ cur ps, Forall payloadOK ps ∧ rem = cur ++ concat ps ∧ remain t = zlen cur ∧
    ((firstResponse t = false ∧ willRead (conn t) (cur ++ concat (frame <$> ps))) ∨
     (firstResponse t = true ∧ cur = [] ∧ ∃ hdr p ps', ps = p :: ps' ∧ zlen hdr = firstHeader ∧
        willRead (conn t) (hdr ++ put_be16 (zlen p) ++ p ++ concat (frame <$> ps')))).

(** One record, past its header. *)
Lemma read_record len n t hdr p ps rest : 1 ≤ len → payloadOK p → Forall payloadOK ps → zlen hdr = n →
  remain t = 0 → firstResponse t = false → rest = concat (frame <$> ps) →
  willRead (conn t) (hdr ++ put_be16 (zlen p) ++ p ++ rest) →
  ∃ o rem' t', read len n t = (o, None, t') ∧ o ≠ [] ∧ p ++ concat ps = o ++ rem' ∧ delivers t' rem'.
Proof.
  intros Hl [Hne Hp] HP Hn Hr Hfr -> Hw. pose proof (zlen_pos p Hne). unfold read.
  destruct (netReadFull_app n (conn t) hdr _ Hn Hw) as (c1 & -> & Hw1 & _).
  destruct (netReadFull_app 2 c1 (put_be16 (zlen p)) _ (zlen_put16 _) Hw1) as (c2 & -> & Hw2 & _).
  change (be16 (put_be16 (zlen p) !!! 0%nat) (put_be16 (zlen p) !!! 1%nat)) with (be16 (u8 (Z.shiftr (zlen p) 8)) (u8 (zlen p))).
  rewrite be16_put by lia. destruct (Z.ltb_spec len (zlen p)).
  - destruct (netRead_some len c2 (p ++ concat (frame <$> ps)) Hl Hw2) as (b & r & c3 & -> & Hb & Hbl & Hd & Hw3 & _).
    { by destruct p. }
    apply app_eq_inv in Hd as [(k & -> & ->)|(k & -> & Ek)].
    + rewrite zlen_app in *. exists b, (k ++ concat ps). eexists. split; [reflexivity|].
      rewrite <- app_assoc. split_and!; [done..|]. exists k, ps. cbn. split_and!; [done|done|lia|].
      left. by rewrite Hfr.
    + rewrite zlen_app in Hbl. pose proof (zlen_nonneg k). lia.
  - destruct (netReadFull_app (zlen p) c2 p _ eq_refl Hw2) as (c3 & -> & Hw3 & _).
    exists p, (concat ps). eexists. split; [reflexivity|]. split_and!; [done..|]. exists [], ps. cbn.
    split_and!; [done..|]. left. by rewrite Hfr.
Qed.

#[global] Instance Read_Reads : Reads (λ len, 1 ≤ len) Read delivers.
Proof.
  intros len t rem Hl (cur & ps & HP & -> & Hrem & Hcase). unfold Read.
  pose proof (zlen_nonneg cur). destruct (Z.ltb_spec 0 (remain t)) as [H0|H0].
  - right. destruct Hcase as [(Hfr & Hw)|(_ & -> & _)]; [|unfold zlen in Hrem; cbn in Hrem; lia].
    assert (0 ≤ Z.min (remain t) len ≤ zlen cur) as Hk by lia. set (k := Z.min (remain t) len) in *.
    destruct (zlen_take_drop cur k Hk) as [Ht Hd]. rewrite <- (take_drop (Z.to_nat k) cur) in Hw.
    rewrite <- app_assoc in Hw. destruct (netReadFull_app k (conn t) _ _ Ht Hw) as (c' & -> & Hw' & _).
    exists (take (Z.to_nat k) cur), (drop (Z.to_nat k) cur ++ concat ps). eexists. split; [reflexivity|].
    split_and!.
    + intros E. rewrite E in Ht. unfold zlen in Ht. cbn in Ht. lia.
    + by rewrite app_assoc, take_drop.
    + exists (drop (Z.to_nat k) cur), ps. cbn. split_and!; [done|done|lia|]. left. by rewrite Hfr.
  - assert (cur = []) as -> by (destruct cur as [|x cur]; [done|]; rewrite zlen_cons in Hrem; pose proof (zlen_nonneg cur); lia).
    cbn [app] in *. destruct Hcase as [(Hfr & Hw)|(Hfr & _ & hdr & p & ps' & -> & Hh & Hw)]; rewrite Hfr.
    + destruct ps as [|p ps].
      * left. split; [done|]. unfold read. destruct Hw as (Hs & Hc & He).
        assert (ncSegs (conn t) = []) as Es.
        { destruct (ncSegs (conn t)) as [|s l]; [done|]. apply Forall_cons in Hs as [Hs _].
          cbn in Hc. by apply app_nil in Hc as [-> _]. }
        unfold netReadFull. rewrite Es. cbn. rewrite He. by eexists.
      * right. apply Forall_cons in HP as [Hp HP].
        apply (read_record len 3 t [0x17; 0x03; 0x03] p ps (concat (frame <$> ps)) Hl Hp HP); done.
    + right. apply Forall_cons in HP as [Hp HP].
      by apply (read_record len 105 (setConn t (conn t) (remain t) (firstRequest t) false) hdr p ps' (concat (frame <$> ps')) Hl Hp HP).
Qed.

(** What is written on an open connection is what the other end reads: every
    [Write] succeeds, and however the network cuts the bytes and whatever buffer
    sizes the reader uses, it receives pieces that join to a prefix of the data,
    and the end exactly when it has all of it. *)
Theorem tls_obfs_roundtrip env b t lens server' :
  quietWrites (conn t) → firstRequest t = false → Forall (λ len, 1 ≤ len) lens →
  ∃ t' sent, Write env b t = (zlen b, None, t') ∧ ncOut (conn t') = ncOut (conn t) ++ sent ∧
    ∀ segs out f, segsOK segs → concat segs = concat sent →
    ∃ os e r, drain Read lens (mkTLSObfs (mkNet segs errEOF out f) server' 0 false false) = (os, e, r) ∧
      received (length lens) b os e.
Proof.
  intros Hq Hf HL. destruct (Write_sends env b t Hq) as (ps & t' & E & Hb & HP & Ho). rewrite Hf in Ho.
  exists t', (frame <$> ps). split; [done|]. split.
  { rewrite Ho. by destruct ps. }
  intros segs out f Hs Hc. apply (drain_delivers _ (λ len, 1 ≤ len) delivers); [done|].
  exists [], ps. cbn. split_and!; try done.
  - eapply Forall_impl; [exact HP|]. intros p [? Hp]. split; [done|]. unfold chunkSize in Hp. lia.
  - left. split; [done|]. by split_and!.
Qed.

(** The first answer of the server: its handshake is dropped, and what follows
    is delivered. *)
Theorem tls_obfs_first_response hdr p ps segs lens c server' :
  zlen hdr = firstHeader → Forall payloadOK (p :: ps) → Forall (λ len, 1 ≤ len) lens →
  ncSegs c = segs → ncEnd c = errEOF → segsOK segs →
  concat segs = hdr ++ put_be16 (zlen p) ++ p ++ concat (frame <$> ps) →
  ∃ os e r, drain Read lens (NewTLSObfs c server') = (os, e, r) ∧ received (length lens) (p ++ concat ps) os e.
Proof.
  intros Hh HP HL <- He Hs Hc. apply (drain_delivers _ (λ len, 1 ≤ len) delivers); [done|].
  exists [], (p :: ps). cbn. split_and!; try done. right. split_and!; try done. exists hdr, p, ps. by split_and!.
Qed.
End TLS.

(** ** The buffers of the hello

    [makeClientHelloMsg] takes a buffer from a pool shared by all connections
    and, through [defer], gives it back before its caller writes the bytes of
    the buffer; [write] gives its buffer back after the write.  A buffer has one
    memory, whoever holds it. *)
Module Pool.

Inductive thread :=
| Ready (msg : bytes)
| Filling (id : nat) (msg : bytes)
| Filled (id : nat) (msg : bytes)
(** the buffer is given back, the write is still to come *)
| Returned (id : nat) (msg : bytes)
(** the write is done, the buffer still to be given back *)
| Written (id : nat) (msg : bytes)
| Finished (msg : bytes).

Record pool := mkPool {
  heap : gmap nat bytes;
  free : list nat;
  threads : list thread;
  sent : list (nat * bytes);
}.

Section Steps.
(** Whether the buffer is given back before the write. *)
Context (early : bool).

Inductive poolStep : pool → pool → Prop :=
| pool_get h f1 id f2 ts o i m :
    ts !! i = Some (Ready m) →
    poolStep (mkPool h (f1 ++ id :: f2) ts o) (mkPool (<[id := []]> h) (f1 ++ f2) (<[i := Filling id m]> ts) o)
| pool_new h f id ts o i m :
    ts !! i = Some (Ready m) → h !! id = None →
    poolStep (mkPool h f ts o) (mkPool (<[id := []]> h) f (<[i := Filling id m]> ts) o)
| pool_fill h f ts o i id m :
    ts !! i = Some (Filling id m) →
    poolStep (mkPool h f ts o) (mkPool (<[id := m]> h) f (<[i := Filled id m]> ts) o)
| pool_put_early h f ts o i id m :
    early = true → ts !! i = Some (Filled id m) →
    poolStep (mkPool h f ts o) (mkPool h (id :: f) (<[i := Returned id m]> ts) o)
| pool_write_early h f ts o i id m b :
    ts !! i = Some (Returned id m) → h !! id = Some b →
    poolStep (mkPool h f ts o) (mkPool h f (<[i := Finished m]> ts) (o ++ [(i, b)]))
| pool_write_late h f ts o i id m b :
    early = false → ts !! i = Some (Filled id m) → h !! id = Some b →
    poolStep (mkPool h f ts o) (mkPool h f (<[i := Written id m]> ts) (o ++ [(i, b)]))
| pool_put_late h f ts o i id m :
    ts !! i = Some (Written id m) →
    poolStep (mkPool h f ts o) (mkPool h (id :: f) (<[i := Finished m]> ts) o).
End Steps.

Definition newPool (msgs : list bytes) : pool := mkPool ∅ [] (Ready <$> msgs) [].

(** The buffer a thread holds, and the message it is to send. *)
Definition holds (t : thread) : option nat :=
  match t with Filling id _ | Filled id _ | Written id _ => Some id | _ => None end.

Definition message (t : thread) : bytes :=
  match t with Ready m | Filling _ m | Filled _ m | Returned _ m | Written _ m | Finished m => m end.

(** Every buffer has one owner: a thread or the pool. *)
Record owned (msgs : list bytes) (p : pool) : Prop := mkOwned {
  ow_messages : message <$> threads p = msgs;
  ow_late i id m : threads p !! i ≠ Some (Returned id m);
  ow_apart i j t t' id : threads p !! i = Some t → threads p !! j = Some t' →
    holds t = Some id → holds t' = Some id → i = j;
  ow_taken i t id : threads p !! i = Some t → holds t = Some id → id ∉ free p ∧ is_Some (heap p !! id);
  ow_free : NoDup (free p) ∧ ∀ id, id ∈ free p → is_Some (heap p !! id);
  ow_filled i id m : threads p !! i = Some (Filled id m) → heap p !! id = Some m;
  ow_sent i b : (i, b) ∈ sent p → msgs !! i = Some b;
}.

Lemma newPool_owned msgs : owned msgs (newPool msgs).
Proof.
  assert (∀ i t, (Ready <$> msgs) !! i = Some t → ∃ m, t = Ready m) as Hr.
  { intros i t. rewrite list_lookup_fmap. destruct (msgs !! i); [|done]. intros [= <-]. by eexists. }
  constructor; cbn.
  - rewrite <- list_fmap_compose. apply list_fmap_id.
  - intros i id m E. by destruct (Hr _ _ E).
  - intros i j t t' id E _ Ht. destruct (Hr _ _ E) as [? ->]. done.
  - intros i t id E Ht. destruct (Hr _ _ E) as [? ->]. done.
  - split; [constructor|]. by intros id ?%not_elem_of_nil.
  - intros i id m E. by destruct (Hr _ _ E).
  - by intros i b ?%not_elem_of_nil.
Qed.

(** A thread in place of another that carries the same message. *)
Lemma messages_update (ts : list thread) i t t' : ts !! i = Some t → message t' = message t →
  message <$> <[i := t']> ts = message <$> ts.
Proof. intros Hi Hm. rewrite list_fmap_insert, Hm. apply list_insert_id. by rewrite list_lookup_fmap, Hi. Qed.

(** The ways a thread can be found after an update at [i]. *)
Lemma update_cases (ts : list thread) i j t t' :
  <[i := t']> ts !! j = Some t → (j = i ∧ t = t') ∨ (j ≠ i ∧ ts !! j = Some t).
Proof. intros H%list_lookup_insert_Some. naive_solver. Qed.

(** A step that only moves a thread on, with the same or no buffer and the same
    memory. *)
Lemma owned_move msgs h f ts o o' f' i t t' :
  owned msgs (mkPool h f ts o) → ts !! i = Some t → message t' = message t →
  (∀ id m, t' ≠ Returned id m) → (∀ id m, t' = Filled id m → h !! id = Some m) →
  (holds t' = holds t ∧ f' = f ∨ ∃ id, holds t = Some id ∧ holds t' = None ∧ f' = id :: f) →
  (∀ k b, (k, b) ∈ o' → msgs !! k = Some b) →
  owned msgs (mkPool h f' (<[i := t']> ts) o').
Proof.
  intros [H1 H2 H3 H4 [H5 H5'] H6 H7] Hi Hm Hret Hfil Hb Ho. cbn in *. constructor; cbn.
  - by erewrite messages_update.
  - intros j id m [[_ <-]|[_ ?]]%update_cases; [by eapply Hret|by eapply H2].
  - intros j k u u' id [[-> ->]|[? Ej]]%update_cases [[-> ->]|[? Ek]]%update_cases Hu Hu'; [done| | |by eapply H3];
      (destruct Hb as [[Eh _]|(? & _ & Eh & _)]; [|congruence]); rewrite Eh in *; by eapply H3.
  - intros j u id Ej Hu. assert (∃ k v, ts !! k = Some v ∧ holds v = Some id ∧ (holds t' = None → k ≠ i)) as (k & v & Ek & Hv & Hk).
    { apply update_cases in Ej as [[-> ->]|[? Ej]]; [|by exists j, u].
      destruct Hb as [[Eh _]|(? & _ & Eh & _)]; [|congruence]. exists i, t. split_and!; [done|congruence|congruence]. }
    destruct (H4 _ _ _ Ek Hv) as [Hnf Hs]. split; [|done]. destruct Hb as [[_ ->]|(id' & Ht & Ht' & ->)]; [done|].
    apply not_elem_of_cons. split; [|done]. intros ->. apply (Hk Ht'). by eapply H3.
  - destruct Hb as [[_ ->]|(id' & Ht & _ & ->)]; [done|]. destruct (H4 _ _ _ Hi Ht) as [Hn Hs]. split.
    + by constructor.
    + intros id [->|?]%elem_of_cons; auto.
  - intros j id m [[_ <-]|[_ ?]]%update_cases; [by apply Hfil|by eapply H6].
  - done.
Qed.

(** A step that gives thread [i] the buffer [id], which nobody holds. *)
Lemma owned_take msgs h f f' ts o i id m b :
  owned msgs (mkPool h f ts o) → ts !! i = Some (Ready m) →
  (∀ j t, ts !! j = Some t → holds t ≠ Some id) → id ∉ f' → NoDup f' → (∀ k, k ∈ f' → k ∈ f) →
  owned msgs (mkPool (<[id := b]> h) f' (<[i := Filling id m]> ts) o).
Proof.
  intros [H1 H2 H3 H4 [H5 H5'] H6 H7] Hi Hfresh Hf' Hnd Hsub. cbn in *. constructor; cbn.
  - by erewrite messages_update.
  - intros j k n [[_ ?]|[_ ?]]%update_cases; [done|by eapply H2].
  - intros j k u u' x [[-> ->]|[? Ej]]%update_cases [[-> ->]|[? Ek]]%update_cases Hu Hu'; [done|..].
    + injection Hu as <-. by destruct (Hfresh _ _ Ek).
    + injection Hu' as <-. by destruct (Hfresh _ _ Ej).
    + by eapply H3.
  - intros j u x [[-> ->]|[? Ej]]%update_cases Hu.
    + injection Hu as <-. rewrite lookup_insert_eq. done.
    + destruct (H4 _ _ _ Ej Hu) as [Hn Hs]. split; [auto|]. destruct (decide (x = id)) as [->|]; [by rewrite lookup_insert_eq|].
      by rewrite lookup_insert_ne.
  - split; [done|]. intros x Hx. destruct (decide (x = id)) as [->|]; [by rewrite lookup_insert_eq|].
    rewrite lookup_insert_ne by done. auto.
  - intros j x n [[_ ?]|[_ Ej]]%update_cases; [done|]. rewrite lookup_insert_ne; [by eapply H6|].
    intros ->. by apply (Hfresh _ _ Ej).
  - done.
Qed.

Lemma poolStep_owned msgs p p' : poolStep false p p' → owned msgs p → owned msgs p'.
Proof.
  intros Hs Ho. pose proof Ho as [H1 H2 H3 H4 [H5 H5'] H6 H7]. destruct Hs; try done; cbn in *.
  - apply NoDup_app in H5 as (N1 & N2 & N3). apply NoDup_cons in N3 as [N3 N4].
    apply (owned_take _ _ (f1 ++ id :: f2)); [done..| | | |].
    + intros j t Ej Ht. destruct (H4 _ _ _ Ej Ht) as [Hn _]. set_solver.
    + set_solver.
    + apply NoDup_app. set_solver.
    + set_solver.
  - apply (owned_take _ _ f); try done.
    + intros j t Ej Ht. destruct (H4 _ _ _ Ej Ht) as [_ [? ?]]. congruence.
    + intros Hf. destruct (H5' _ Hf). congruence.
  - assert (owned msgs (mkPool (<[id := m]> h) f ts o)) as Ho'.
    { constructor; cbn; try done.
      - intros j t x Ej Ht. destruct (H4 _ _ _ Ej Ht) as [? ?]. split; [done|].
        destruct (decide (x = id)) as [->|]; [by rewrite lookup_insert_eq|by rewrite lookup_insert_ne].
      - split; [done|]. intros x Hx. destruct (decide (x = id)) as [->|]; [by rewrite lookup_insert_eq|].
        rewrite lookup_insert_ne by done. auto.
      - intros j x n Ej. rewrite lookup_insert_ne; [by eapply H6|]. intros ->.
        assert (i = j) as -> by (by eapply H3). congruence. }
    eapply owned_move; [exact Ho'|exact H|done|done| |by left|done].
    intros x n [= <- <-]. by rewrite lookup_insert_eq.
  - by destruct (H2 i id m).
  - eapply owned_move; [exact Ho|eassumption|done|done|done|by left|].
    intros k c [?|[= -> ->]%list_elem_of_singleton]%elem_of_app; [by apply H7|].
    rewrite <- H1, list_lookup_fmap, H0. cbn. f_equal. by specialize (H6 _ _ _ H0); congruence.
  - eapply owned_move; [exact Ho|eassumption|done|done|done| |done]. right. by exists id.
Qed.

(** A buffer that is given back after the write is safe: in every interleaving
    of any number of connections, each sends its own bytes. *)
Theorem pool_late_safe msgs p i b :
  rtc (poolStep false) (newPool msgs) p → (i, b) ∈ sent p → msgs !! i = Some b.
Proof.
  intros Hr. assert (owned msgs p) as [_ _ _ _ _ _ Hs]; [|apply Hs].
  revert Hr. generalize (newPool_owned msgs). generalize (newPool msgs). intros p0 Ho Hr.
  induction Hr as [|p0 p1 p Hs _ IH]; [done|]. apply IH. by eapply poolStep_owned.
Qed.

(** Given back before the write, as [makeClientHelloMsg] does, it is not: one
    connection can send the hello, and so the first data, of another. *)
Theorem pool_early_mixes m1 m2 :
  ∃ p, rtc (poolStep true) (newPool [m1; m2]) p ∧ (0%nat, m2) ∈ sent p.
Proof.
  eexists. split; [|shelve].
  eapply rtc_l. { by apply (pool_new true _ _ 0 _ _ 0 m1). }
  eapply rtc_l. { by apply (pool_fill true _ _ _ _ 0 0 m1). }
  eapply rtc_l. { by apply (pool_put_early true _ _ _ _ 0 0 m1). }
  eapply rtc_l. { by apply (pool_get true _ [] 0 [] _ _ 1 m2). }
  eapply rtc_l. { by apply (pool_fill true _ _ _ _ 1 0 m2). }
  eapply rtc_once. apply (pool_write_early true _ _ _ _ 0 0 m1 m2); [done|]. by rewrite !lookup_insert_eq.
  Unshelve. cbn. set_solver.
Qed.
End Pool.

(** ** HTTP *)
Module HTTP.

Definition maxHeaderBytes : Z := 8 * 1024.
Definition RelayBufferSize : Z := 20 * 1024.

Definition crlf : bytes := [13; 10].
Definition delimiter : bytes := crlf ++ crlf.

(** [bytes.Index] *)
Fixpoint indexOf (sub s : bytes) : option nat :=
  if has_prefix s sub then Some O
  else match s with [] => None | _ :: s' => S <$> indexOf sub s' end.

Record HTTPObfs := mkHTTPObfs {
  conn : netConn;
  host : gostring;
  port : gostring;
  (** what is left of [buf], from [offset] on *)
  buf : option bytes;
  firstRequest : bool;
  firstResponse : bool;
}.

Definition errHeader : error := errorString ("http obfs: response header exceeds " ++ itoa maxHeaderBytes ++ " bytes").

(** The loop that looks for the end of the header: the place of the delimiter
    and all that was read.  Every round uses up a segment or fills the buffer. *)
Fixpoint headerLoop (fuel : nat) (total : bytes) (c : netConn) : res (nat * bytes) * netConn :=
  match fuel with
  | O => (Err (ncEnd c), c)
  | S fuel =>
      let '(b, e, c) := netRead (RelayBufferSize - zlen total) c in
      let total := total ++ b in
      match indexOf delimiter total with
      | Some i => if maxHeaderBytes <? Z.of_nat i + 4 then (Err errHeader, c) else (Ok (i, total), c)
      | None =>
          match e with
          | Some e => (Err e, c)
          | None => if maxHeaderBytes <=? zlen total then (Err errHeader, c) else headerLoop fuel total c
          end
      end
  end.

(** [copy] into a slice of [len] bytes, and what is left. *)
Definition copyOut (len : Z) (b : bytes) : bytes * option bytes :=
  let rest := drop (Z.to_nat len) b in
  (take (Z.to_nat len) b, if bool_decide (rest = []) then None else Some rest).

Definition Read (len : Z) (h : HTTPObfs) : bytes * option error * HTTPObfs :=
  match buf h with
  | Some b =>
      let '(o, rest) := copyOut len b in
      (o, None, mkHTTPObfs (conn h) (host h) (port h) rest (firstRequest h) (firstResponse h))
  | None =>
      if firstResponse h then
        match headerLoop (S (length (ncSegs (conn h)))) [] (conn h) with
        | (Ok (i, total), c) =>
            let '(o, rest) := copyOut len (drop (i + 4) total) in
            (o, None, mkHTTPObfs c (host h) (port h) rest (firstRequest h) false)
        | (Err e, c) => ([], Some e, mkHTTPObfs c (host h) (port h) None (firstRequest h) true)
        | (Panic, c) => ([], None, mkHTTPObfs c (host h) (port h) None (firstRequest h) true)
        end
      else
        let '(o, e, c) := netRead len (conn h) in
        (o, e, mkHTTPObfs c (host h) (port h) None (firstRequest h) (firstResponse h))
  end.

Section Requests.
(** What [net/http] makes of a host: whether [NewRequest] takes it, and how it
    stands in the Host header. *)
Context (validHost : gostring → bool) (cleanHost : gostring → gostring).

(** The numbers of the user agent and the bytes of the key. *)
Record requestEnv := mkRequestEnv { reMinor : Z; rePatch : Z; reKey : bytes }.

(** [base64.URLEncoding] *)
Definition urlEncode (b : bytes) : gostring :=
  rawURLEncode b ++ replicate (Z.to_nat ((3 - zlen b mod 3) mod 3)) 61.

(** [Request.Write] of the request the code builds; how the writer's buffer cuts
    it is left out. *)
Definition requestText (env : requestEnv) (host port : gostring) (b : bytes) : bytes :=
  let reqHost := if bool_decide (port = lit "80") then host else host ++ ":" ++ port in
  "GET / HTTP/1.1" ++ crlf ++
  "Host: " ++ cleanHost reqHost ++ crlf ++
  "User-Agent: curl/7." ++ itoa (reMinor env mod 54) ++ "." ++ itoa (rePatch env mod 2) ++ crlf ++
  (if bool_decide (b = []) then [] else "Content-Length: " ++ itoa (zlen b) ++ crlf) ++
  "Connection: Upgrade" ++ crlf ++
  "Sec-Websocket-Key: " ++ urlEncode (reKey env) ++ crlf ++
  "Upgrade: websocket" ++ crlf ++
  crlf ++ b.

Definition errRequest : error := errorString "http obfs: build request".

Definition Write (env : requestEnv) (b : bytes) (h : HTTPObfs) : Z * option error * HTTPObfs :=
  if firstRequest h then
    if negb (validHost (host h)) then (0, Some errRequest, h) else
    let '(e, c) := netWrite (requestText env (host h) (port h) b) (conn h) in
    (zlen b, e, mkHTTPObfs c (host h) (port h) (buf h) false (firstResponse h))
  else
    let '(e, c) := netWrite b (conn h) in
    (if bool_decide (e = None) then zlen b else 0, e,
     mkHTTPObfs c (host h) (port h) (buf h) (firstRequest h) (firstResponse h)).

Definition NewHTTPObfs (c : netConn) (host port : gostring) : res HTTPObfs :=
  if bool_decide (host = []) then fail "http obfs: obfs-host is empty"
  else if negb (validHost host) then Err (errorString ("http obfs: invalid obfs-host " ++ host))
  else Ok (mkHTTPObfs c host port None true true).
End Requests.

(** ** The end of the header *)

Lemma has_prefix_app s t sub : (length sub ≤ length s)%nat → has_prefix (s ++ t) sub = has_prefix s sub.
Proof.
  intros Hl. unfold has_prefix. apply bool_decide_ext. split; [|apply prefix_app_r].
  intros [k Hk]. exists (drop (length sub) s). rewrite <- (take_drop (length sub) s) at 1. f_equal.
  apply (f_equal (take (length sub))) in Hk. rewrite take_app_le in Hk by done. by rewrite Hk, take_app_length.
Qed.

Lemma indexOf_length sub s i : indexOf sub s = Some i → (i + length sub ≤ length s)%nat.
Proof.
  revert i. induction s as [|x s IH]; intros i; cbn [indexOf].
  - destruct (has_prefix [] sub) eqn:E; [|done]. intros [= <-]. by apply bool_decide_eq_true, prefix_length in E.
  - destruct (has_prefix (x :: s) sub) eqn:E; [intros [= <-]; by apply bool_decide_eq_true, prefix_length in E|].
    destruct (indexOf sub s) as [j|]; [|done]. intros [= <-]. specialize (IH j eq_refl). cbn. lia.
Qed.

(** More bytes do not move the first occurrence, and it is seen as soon as all
    of it is there. *)
Lemma indexOf_app sub s t i : indexOf sub s = Some i → indexOf sub (s ++ t) = Some i.
Proof.
  revert i. induction s as [|x s IH]; intros i H; pose proof (indexOf_length _ _ _ H) as Hl; revert H; cbn [indexOf app].
  - destruct (has_prefix [] sub) eqn:E; [|done]. intros [= <-]. rewrite <- (has_prefix_app [] t) in E by (cbn in *; lia).
    cbn in E. destruct t; cbn [indexOf]; by rewrite E.
  - rewrite <- (has_prefix_app (x :: s) t) by lia. cbn. destruct (has_prefix (x :: s ++ t) sub); [done|].
    destruct (indexOf sub s) as [j|] eqn:Ej; [|done]. intros [= <-]. by rewrite (IH j).
Qed.

Lemma indexOf_prefix sub s t i : indexOf sub (s ++ t) = Some i → (i + length sub ≤ length s)%nat → indexOf sub s = Some i.
Proof.
  revert i. induction s as [|x s IH]; intros i; cbn [indexOf app].
  - intros H Hl. destruct sub; [|cbn in Hl; lia]. cbn in Hl. assert (i = 0%nat) as -> by lia. done.
  - intros H Hl. rewrite <- (has_prefix_app (x :: s) t) by lia. cbn. destruct (has_prefix (x :: s ++ t) sub); [done|].
    destruct (indexOf sub (s ++ t)) as [j|] eqn:Ej; [|done]. injection H as <-. rewrite (IH j); [done|done|cbn in Hl; lia].
Qed.

(** *** Reading *)

Definition delivers (h : HTTPObfs) (rem : bytes) : Prop :=
  firstResponse h = false ∧ buf h ≠ Some [] ∧ ∃ rest, rem = default [] (buf h) ++ rest ∧ willRead (conn h) rest.

Lemma copyOut_spec len b : take (Z.to_nat len) b ++ default [] (copyOut len b).2 = b ∧ (copyOut len b).2 ≠ Some [].
Proof.
  unfold copyOut. cbn. case_bool_decide as E; cbn; [|split; [apply take_drop|congruence]].
  split; [|done]. rewrite app_nil_r. rewrite <- (take_drop (Z.to_nat len) b) at 2. by rewrite E, app_nil_r.
Qed.

#[global] Instance Read_Reads : Reads (λ len, 1 ≤ len) Read delivers.
Proof.
  intros len h rem Hl (Hf & Hb & rest & -> & Hw). unfold Read. destruct (buf h) as [b|] eqn:Eb.
  - right. destruct (copyOut_spec len b) as [Hc Hn]. destruct (copyOut len b) as [o r] eqn:E.
    assert (o = take (Z.to_nat len) b) as -> by (by injection E). cbn [snd default] in *.
    eexists (take (Z.to_nat len) b), (default [] r ++ rest), _. split; [reflexivity|]. split_and!.
    + destruct b; [done|]. destruct (Z.to_nat len) eqn:?; [lia|done].
    + by rewrite app_assoc, Hc.
    + split; [done|]. split; [done|]. by exists rest.
  - rewrite Hf. destruct (reads_step len (conn h) rest Hl Hw) as [(-> & c' & ->)|(o & rest' & c' & -> & Ho & -> & Hw')].
    + left. split; [done|]. by eexists.
    + right. eexists _, rest', _. split; [reflexivity|]. split; [done|]. split; [done|].
      split; [done|]. split; [done|]. by exists rest'.
Qed.

Lemma headerLoop_finds fuel total c rest hl :
  indexOf delimiter (total ++ rest) = Some hl → Z.of_nat hl + 4 ≤ maxHeaderBytes → (length total < hl + 4)%nat →
  willRead c rest → (length (ncSegs c) < fuel)%nat →
  ∃ got rest' c', headerLoop fuel total c = (Ok (hl, total ++ got), c') ∧ rest = got ++ rest' ∧ willRead c' rest' ∧
    (hl + 4 ≤ length (total ++ got))%nat.
Proof.
  unfold maxHeaderBytes. revert total c rest. induction fuel as [|fuel IH]; intros total c rest Hi Hm Ht Hw Hfu; [lia|].
  cbn [headerLoop]. pose proof (indexOf_length _ _ _ Hi) as Hlen. rewrite length_app in Hlen.
  change (length delimiter) with 4%nat in Hlen.
  assert (rest ≠ []) as Hne by (intros ->; cbn in Hlen; lia).
  assert (1 ≤ RelayBufferSize - zlen total) as Hroom by (unfold RelayBufferSize, zlen; lia).
  destruct (netRead_some _ c rest Hroom Hw Hne) as (b & rest' & c' & -> & Hb & Hbl & -> & Hw' & _ & _ & Hseg & Hseg').
  destruct (decide (hl + 4 ≤ length (total ++ b))%nat) as [Hd|Hd].
  - rewrite app_assoc in Hi. rewrite (indexOf_prefix _ _ _ _ Hi Hd).
    destruct (Z.ltb_spec maxHeaderBytes (Z.of_nat hl + 4)); [unfold maxHeaderBytes in *; lia|]. by exists b, rest', c'.
  - destruct (indexOf delimiter (total ++ b)) as [i|] eqn:Ei.
    { pose proof (indexOf_length _ _ _ Ei) as Hl'. change (length delimiter) with 4%nat in Hl'.
      apply (indexOf_app _ _ rest') in Ei. rewrite <- app_assoc in Ei. rewrite Hi in Ei. injection Ei as <-. lia. }
    destruct (Z.leb_spec maxHeaderBytes (zlen (total ++ b))); [unfold maxHeaderBytes, zlen in *; lia|].
    destruct (IH (total ++ b) c' rest') as (got & r' & c'' & E & -> & Hw'' & Hg).
    + by rewrite <- app_assoc.
    + done.
    + lia.
    + done.
    + destruct Hseg as [Hs|Hs]; [lia|]. unfold RelayBufferSize, zlen in *. rewrite length_app in *. lia.
    + exists (b ++ got), r', c''. rewrite E, <- !app_assoc. rewrite <- app_assoc in Hg. done.
Qed.

(** The header of the first response is dropped wherever the network cuts it, as
    long as it ends within 8 KiB: the first [Read] returns the start of what
    follows, and the next ones the rest of it. *)
Theorem http_obfs_first_response h hdr body len lens :
  firstResponse h = true → buf h = None → 1 ≤ len → Forall (λ len, 1 ≤ len) lens →
  indexOf delimiter (hdr ++ delimiter ++ body) = Some (length hdr) → zlen hdr + 4 ≤ maxHeaderBytes →
  willRead (conn h) (hdr ++ delimiter ++ body) →
  ∃ o rest h', Read len h = (o, None, h') ∧ body = o ++ rest ∧
    ∃ os e r, drain Read lens h' = (os, e, r) ∧ received (length lens) rest os e.
Proof.
  intros Hf Hb Hl HL Hi Hm Hw.
  destruct (headerLoop_finds (S (length (ncSegs (conn h)))) [] (conn h) _ (length hdr) Hi) as (got & rest & c' & E & Hd & Hw' & Hg);
    [unfold zlen in Hm; lia|cbn; lia|done|lia|]. cbn [app] in *.
  assert (∃ got', got = hdr ++ delimiter ++ got' ∧ body = got' ++ rest) as (got' & -> & ->).
  { exists (drop (length hdr + 4) got). apply (f_equal (drop (length hdr + 4))) in Hd as Hd'.
    rewrite (drop_app_le got) in Hd' by lia. rewrite <- Hd'.
    assert (drop (length hdr + 4) (hdr ++ delimiter ++ body) = body) as ->.
    { rewrite drop_app_ge by lia. by replace (length hdr + 4 - length hdr)%nat with 4%nat by lia. }
    split; [|done]. rewrite <- (take_drop (length hdr + 4) got) at 1. rewrite app_assoc. f_equal.
    apply (f_equal (take (length hdr + 4))) in Hd. rewrite (take_app_le got) in Hd by lia. rewrite <- Hd.
    rewrite app_assoc, take_app_length'; [done|]. by rewrite length_app. }
  unfold Read. rewrite Hb, Hf, E.
  assert (drop (length hdr + 4) (hdr ++ delimiter ++ got') = got') as ->.
  { rewrite drop_app_ge by lia. by replace (length hdr + 4 - length hdr)%nat with 4%nat by lia. }
  destruct (copyOut_spec len got') as [Hc Hn]. destruct (copyOut len got') as [o r] eqn:Ec.
  assert (o = take (Z.to_nat len) got') as -> by (by injection Ec). cbn [snd] in *.
  eexists _, (default [] r ++ rest), _. split; [reflexivity|]. split; [by rewrite app_assoc, Hc|].
  apply (drain_delivers _ (λ len, 1 ≤ len) delivers); [done|]. split; [done|]. split; [done|]. by exists rest.
Qed.
End HTTP.

(** ** On concrete data *)

Definition demoEnv : TLS.helloEnv := TLS.mkHelloEnv 1700000000 (replicate 28 5) (replicate 32 6).

Definition quietNet (segs : list bytes) : netConn := mkNet segs errEOF [] (λ _, None).

Lemma obfs_hello_parsed_witness :
  ∃ h, parseClientHello (TLS.makeHello demoEnv "first" "cdn.example") = Some h ∧ helloErr h = None ∧
    slice (TLS.makeHello demoEnv "first" "cdn.example") (sniStart h) (sniStart h + sniLen h) = Some (lit "cdn.example") ∧
    prtVer h = [3; 3] ∧ hasKeyShare h = false ∧ hasECH h = false.
Proof. apply (TLS.obfs_hello_parsed demoEnv "first" "cdn.example"); [by split|vm_compute; reflexivity]. Defined.

(** The record arrives in two segments, cut in its header. *)
Definition cutTwo (b : bytes) : list bytes := [take 4 b; drop 4 b].

Lemma tls_obfs_roundtrip_witness :
  ∃ t' sent, TLS.Write demoEnv "hello world" (TLS.mkTLSObfs (quietNet []) "cdn.example" 0 false true) = (11, None, t') ∧
    ncOut (TLS.conn t') = sent ∧
    ∃ os r, drain TLS.Read [4; 4; 100; 1] (TLS.mkTLSObfs (quietNet (cutTwo (concat sent))) [] 0 false false) =
        (os, Some errEOF, r) ∧ concat os = lit "hello world".
Proof.
  destruct (TLS.tls_obfs_roundtrip demoEnv "hello world" (TLS.mkTLSObfs (quietNet []) "cdn.example" 0 false true) [4; 4; 100; 1] [])
    as (t' & sent & Ew & Eo & Hr).
  - done.
  - reflexivity.
  - repeat constructor; lia.
  - exists t', sent. split; [exact Ew|]. split; [exact Eo|]. cbn [TLS.conn quietNet ncOut app] in Eo. subst sent.
    destruct (Hr (cutTwo (concat (ncOut (TLS.conn t')))) [] (λ _, None)) as (os & e & r & Ed & Hos & He).
    + vm_compute in Ew. injection Ew as <-. repeat constructor; discriminate.
    + vm_compute in Ew. injection Ew as <-. reflexivity.
    + destruct e as [e|].
      * destruct He as [-> He]. by exists os, r.
      * exfalso. vm_compute in Ew. injection Ew as <-. vm_compute in Ed. discriminate Ed.
Defined.

(** The whole exchange from the client's side: the first write is a hello, and
    the answer is read past the handshake of the server. *)
Example obfs_examples :
  (TLS.Write demoEnv "abc" (TLS.NewTLSObfs (quietNet []) "cdn.example")).1 = (3, None) ∧
  (drain TLS.Read [2; 9] (TLS.NewTLSObfs (quietNet [replicate 100 9; replicate 5 9 ++ [0; 3; 65]; [66; 67]]) "cdn.example")).1 =
    ([[65]; [66; 67]], None) ∧
  (drain HTTP.Read [2; 9] (HTTP.mkHTTPObfs (quietNet ["HTTP/1.1 101 OK" ++ [13]; [10; 13; 10] ++ "abcd"]) "cdn.example" "80" None false true)).1 =
    ([lit "ab"; lit "cd"], None) ∧
  HTTP.requestText (λ h, h) (HTTP.mkRequestEnv 55 3 (replicate 16 0)) "cdn.example" "8080" "x" =
    "GET / HTTP/1.1" ++ HTTP.crlf ++ "Host: cdn.example:8080" ++ HTTP.crlf ++ "User-Agent: curl/7.1.1" ++ HTTP.crlf ++
    "Content-Length: 1" ++ HTTP.crlf ++ "Connection: Upgrade" ++ HTTP.crlf ++
    "Sec-Websocket-Key: AAAAAAAAAAAAAAAAAAAAAA==" ++ HTTP.crlf ++ "Upgrade: websocket" ++ HTTP.crlf ++ HTTP.crlf ++ "x".
Proof. vm_compute. split_and!; reflexivity. Qed.
