(* ===== verification/GfwList.v ===== *)
(** * The built-in list of blocked domains (core/gfwlist.go)

    [loadBuiltinGFWList] decodes the embedded list (base 64), turns every rule
    into a domain pattern and fills the two matchers [isGFWDomain] asks.  The
    text of the list is a parameter.  The host of a rule is found with a regular
    expression; Go's matcher prefers the leftmost start and, there, the first
    choice of every greedy operator, so an expression denotes the list of its
    matches in order of preference. *)

From stdpp Require Import sorting.
From S2P Require Import Prelude Errors Netip AddrTrie Pattern FakeIP Policy Routing Dns.
Local Open Scope Z_scope.

(** ** Regular expressions *)

Inductive regex :=
| Class (p : Z → bool)
| Seq (r1 r2 : regex)
| Opt (r : regex)
| Repeat (max : nat) (r : regex)
| Plus (r : regex).

(** Up to [n] rounds of [m], as many as possible first. *)
Fixpoint rounds (m : gostring → list gostring) (n : nat) (s : gostring) : list gostring :=
  match n with
  | O => [s]
  | S n' => (m s ≫= rounds m n') ++ [s]
  end.

(** What is left of [s] after each match at its front, the preferred one first.
    A round of [Plus] consumes at least one byte of the expressions used here,
    so the length bounds the rounds. *)
Fixpoint matches (r : regex) (s : gostring) : list gostring :=
  match r with
  | Class p => match s with c :: s' => if p c then [s'] else [] | [] => [] end
  | Seq r1 r2 => matches r1 s ≫= matches r2
  | Opt r => matches r s ++ [s]
  | Repeat n r => rounds (matches r) n s
  | Plus r => matches r s ≫= rounds (matches r) (length s)
  end.

(** [FindString]: the match at the leftmost start that has one, else empty. *)
Fixpoint FindString (r : regex) (s : gostring) : gostring :=
  match matches r s with
  | rest :: _ => take (length s - length rest) s
  | [] => match s with [] => [] | _ :: s' => FindString r s' end
  end.

Definition isAlnum (c : Z) : bool := between 97 122 c || is_digit c.
Definition isHostChar (c : Z) : bool := isAlnum c || (c =? 45).

Definition labelRegexp : regex := Seq (Class isAlnum) (Opt (Seq (Repeat 61 (Class isHostChar)) (Class isAlnum))).

Definition gfwHostRegexp : regex := Seq labelRegexp (Plus (Seq (Class (Z.eqb 46)) labelRegexp)).

(** ** Library functions the parser uses *)

(** [strings.Map] with a function that drops the spaces: an invalid byte comes
    out as U+FFFD.  Every round consumes a byte. *)
Fixpoint dropSpacesFuel (fuel : nat) (s : gostring) : gostring :=
  match fuel, s with
  | S f, c :: _ =>
      match find_space_prefix s with
      | Some n => dropSpacesFuel f (drop n s)
      | None =>
          let n := rune_width s in
          (if (n =? 1)%nat && (128 <=? c) then [239; 191; 189] else take n s) ++ dropSpacesFuel f (drop n s)
      end
  | _, _ => []
  end.

Definition dropSpaces (s : gostring) : gostring := dropSpacesFuel (length s) s.

(** [base64.StdEncoding]. *)
Definition stdValue (c : Z) : option Z :=
  if between 65 90 c then Some (c - 65)
  else if between 97 122 c then Some (c - 71)
  else if is_digit c then Some (c + 4)
  else if c =? 43 then Some 62
  else if c =? 47 then Some 63
  else None.

(** [StdEncoding.DecodeString] of a text without line breaks; the position in
    its error is left out. *)
Fixpoint stdDecode (s : gostring) : option bytes :=
  match s with
  | [] => Some []
  | a :: b :: c :: d :: s' =>
      x ← stdValue a; y ← stdValue b;
      let b0 := u8 (Z.lor (Z.shiftl x 2) (Z.shiftr y 4)) in
      if c =? 61 then if (d =? 61) && bool_decide (s' = []) then Some [b0] else None else
      z ← stdValue c;
      let b1 := u8 (Z.lor (Z.shiftl y 4) (Z.shiftr z 2)) in
      if d =? 61 then if bool_decide (s' = []) then Some [b0; b1] else None else
      w ← stdValue d;
      let b2 := u8 (Z.lor (Z.shiftl z 6) w) in
      rest ← stdDecode s';
      Some (b0 :: b1 :: b2 :: rest)
  | _ => None
  end.

(** [strings.IndexAny] with the text before it, [TrimLeft] and [Trim], for sets
    of ASCII characters. *)
Fixpoint cutAny (cs : gostring) (s : gostring) : gostring :=
  match s with
  | [] => []
  | c :: s' => if contains_byte cs c then [] else c :: cutAny cs s'
  end.

Fixpoint trimLeft (cs : gostring) (s : gostring) : gostring :=
  match s with
  | [] => []
  | c :: s' => if contains_byte cs c then trimLeft cs s' else s
  end.

Definition trimRight (cs s : gostring) : gostring := reverse (trimLeft cs (reverse s)).

Definition trim (cs s : gostring) : gostring := trimRight cs (trimLeft cs s).

(** Go's order on strings: bytewise. *)
Fixpoint strLe (a b : gostring) : bool :=
  match a, b with
  | [], _ => true
  | _ :: _, [] => false
  | x :: a', y :: b' => (x <? y) || ((x =? y) && strLe a' b')
  end.

(** ** The parser *)

Section Parse.
Context `{GoUnicode, GoURL}.

Definition extractGFWListHost (rule : gostring) : option gostring :=
  let rule := trim_space rule in
  if bool_decide (rule = []) then None else
  let rule := trimLeft "|." (cutAny "^$" rule) in
  if bool_decide (rule = []) then None else
  let rule :=
    if contains rule "://" then
      match urlParse rule with
      | Some u => if bool_decide (uHost u = []) then rule else uHost u
      | None => rule
      end
    else rule in
  let rule := trim "*./" rule in
  let rule := match SplitHostPort rule with Ok (host, _) => host | _ => rule end in
  let found := FindString gfwHostRegexp (to_lower rule) in
  if bool_decide (found = []) || bool_decide (ParseIP found ≠ None) then None
  else Some (trim "." found).

Definition normalizeGFWListRule (rule : gostring) : option gostring :=
  let rule := trim_space rule in
  if bool_decide (rule = []) || has_prefix rule "/" || has_prefix rule "||^" then None
  else host ← extractGFWListHost rule; Some ("*" ++ host).

(** One round of the line loop on the two sets. *)
Definition addLine (sets : gset gostring * gset gostring) (line : gostring) : gset gostring * gset gostring :=
  let '(blocked, bypass) := sets in
  let line := trim_space line in
  if bool_decide (line = []) || has_prefix line "!" || has_prefix line "[" then sets
  else if has_prefix line "@@" then
    match normalizeGFWListRule (trim_prefix line "@@") with
    | Some pattern => (blocked, {[pattern]} ∪ bypass)
    | None => sets
    end
  else
    match normalizeGFWListRule line with
    | Some pattern => ({[pattern]} ∪ blocked, bypass)
    | None => sets
    end.

(** [mapKeysSorted]: the keys in the order the map is visited, sorted. *)
Definition sortStrings (items : list gostring) : list gostring := merge_sort strLe items.

Definition mapKeysSorted (m : gset gostring) : list gostring := sortStrings (elements m).

Definition parseEmbeddedGFWList (raw : gostring) : res (list gostring * list gostring) :=
  let payload := dropSpaces raw in
  match stdDecode payload with
  | None => with_str "decode embedded gfwlist" (fail "illegal base64 data")
  | Some decoded =>
      let '(blocked, bypass) := foldl addLine (∅, ∅) (split_byte 10 decoded) in
      Ok (mapKeysSorted blocked, mapKeysSorted bypass)
  end.

(** A matcher filled pattern by pattern, up to the first error. *)
Fixpoint addPatterns (m : Domain.labelNode unit) (patterns : list gostring) : res (Domain.labelNode unit) :=
  match patterns with
  | [] => Ok m
  | p :: ps => m' ← Domain.Add m p tt; addPatterns m' ps
  end.

Definition loadBuiltinGFWList (embeddedGFWList : gostring)
    : res (Domain.labelNode unit * Domain.labelNode unit) :=
  '(blocked, bypass) ← parseEmbeddedGFWList embeddedGFWList;
  gfwDomainMatcher ← addPatterns Domain.NewDomainMatcher blocked;
  gfwBypassMatcher ← addPatterns Domain.NewDomainMatcher bypass;
  Ok (gfwDomainMatcher, gfwBypassMatcher).
End Parse.

Example find_examples :
  FindString gfwHostRegexp "-a.example-.org" = "a.example" ∧
  FindString gfwHostRegexp "x_y.co.uk/path" = "y.co.uk" ∧ FindString gfwHostRegexp "localhost" = [] ∧
  FindString gfwHostRegexp "a..b.c" = "b.c" ∧ FindString gfwHostRegexp "q=1.2.3.4." = "1.2.3.4".
Proof. vm_compute. split_and!; reflexivity. Qed.

Example decode_examples :
  stdDecode "YW55IGNhcm5hbCBwbGVhcw==" = Some (lit "any carnal pleas") ∧
  stdDecode "YW55" = Some (lit "any") ∧ stdDecode "YW5" = None ∧ stdDecode "YW==YW55" = None ∧
  dropSpaces (lit "YW" ++ [10] ++ lit "5 5" ++ [226; 128; 168] ++ [195] ++ lit "=") = lit "YW55" ++ [239; 191; 189] ++ lit "=".
Proof. vm_compute. split_and!; reflexivity. Qed.

(** ** The order of the patterns *)

Lemma strLe_refl a : strLe a a = true.
Proof. induction a as [|x a IH]; [done|]. cbn. rewrite Z.eqb_refl, IH. apply orb_true_r. Qed.

Lemma strLe_total a b : strLe a b = true ∨ strLe b a = true.
Proof.
  revert b. induction a as [|x a IH]; intros [|y b]; cbn; [by left..|by right|].
  destruct (Z.ltb_spec x y); [by left|]. destruct (Z.ltb_spec y x); [by right|].
  assert (x = y) as -> by lia. rewrite Z.eqb_refl. apply IH.
Qed.

Lemma strLe_trans a b c : strLe a b = true → strLe b c = true → strLe a c = true.
Proof.
  revert b c. induction a as [|x a IH]; intros [|y b] [|z c]; try done. cbn.
  intros [H1|[H1 Hab]%andb_true_iff]%orb_true_iff [H2|[H2 Hbc]%andb_true_iff]%orb_true_iff;
    apply orb_true_iff; rewrite ?andb_true_iff, ?Z.ltb_lt, ?Z.eqb_eq in *; [left; lia..|].
  right. split; [lia|]. by eapply IH.
Qed.

Lemma strLe_antisym a b : strLe a b = true → strLe b a = true → a = b.
Proof.
  revert b. induction a as [|x a IH]; intros [|y b]; try done. cbn.
  intros [H1|[H1 Hab]%andb_true_iff]%orb_true_iff [H2|[H2 Hba]%andb_true_iff]%orb_true_iff;
    rewrite ?Z.ltb_lt, ?Z.eqb_eq in *; [lia..|].
  f_equal; [done|]. by apply IH.
Qed.

#[local] Instance strLe_transitive : Transitive (λ a b, strLe a b : Prop).
Proof. intros a b c H1 H2. apply Is_true_true. eapply strLe_trans; by apply Is_true_true. Qed.

#[local] Instance strLe_antisymm : AntiSymm (=) (λ a b, strLe a b : Prop).
Proof. intros a b H1 H2. apply strLe_antisym; by apply Is_true_true. Qed.

#[local] Instance strLe_totality : Total (λ a b, strLe a b : Prop).
Proof. intros a b. destruct (strLe_total a b) as [->| ->]; [by left|by right]. Qed.

(** Sorting forgets the order in which the map was visited: the result is the
    sorted list of its keys, each once. *)
Theorem mapKeysSorted_spec (m : gset gostring) (visited : list gostring) :
  visited ≡ₚ elements m →
  sortStrings visited = mapKeysSorted m ∧ NoDup (mapKeysSorted m) ∧
  StronglySorted (λ a b, strLe a b : Prop) (mapKeysSorted m) ∧ ∀ p, p ∈ mapKeysSorted m ↔ p ∈ m.
Proof.
  intros Hv. unfold mapKeysSorted, sortStrings.
  assert (Hp : ∀ l, merge_sort strLe l ≡ₚ l) by (intros; apply merge_sort_Permutation).
  split_and!.
  - eapply StronglySorted_unique; [apply strLe_antisymm|apply StronglySorted_merge_sort; apply _..|].
    by rewrite !Hp.
  - rewrite Hp. apply NoDup_elements.
  - apply StronglySorted_merge_sort; apply _.
  - intros p. rewrite Hp. apply elem_of_elements.
Qed.

(** ** Base 64 *)

(** The encoder the embedded text was written with. *)
Definition stdChar (n : Z) : Z :=
  if n <? 26 then n + 65 else if n <? 52 then n + 71 else if n <? 62 then n - 4 else if n =? 62 then 43 else 47.

Fixpoint stdEncode (b : bytes) : gostring :=
  match b with
  | [] => []
  | [x] => [stdChar (x / 4); stdChar (x mod 4 * 16); 61; 61]
  | [x; y] => [stdChar (x / 4); stdChar (x mod 4 * 16 + y / 16); stdChar (y mod 16 * 4); 61]
  | x :: y :: z :: b' =>
      [stdChar (x / 4); stdChar (x mod 4 * 16 + y / 16); stdChar (y mod 16 * 4 + z / 64); stdChar (z mod 64)]
      ++ stdEncode b'
  end.

Lemma stdChar_spec n : 0 ≤ n < 64 → stdValue (stdChar n) = Some n ∧ (stdChar n =? 61) = false ∧ 33 ≤ stdChar n < 127.
Proof. revert n. apply (range_decide _ 64). vm_compute. reflexivity. Qed.

Lemma join_bits h l k : 0 ≤ k → 0 ≤ l < 2 ^ k → u8 (Z.lor (Z.shiftl h k) l) = (h * 2 ^ k + l) mod 256.
Proof. intros. unfold u8. by rewrite lor_shiftl_add. Qed.

Ltac divlia := cbn; Z.to_euclidean_division_equations; lia.

Lemma byte0 x y : is_byte x → 0 ≤ y < 16 →
  u8 (Z.lor (Z.shiftl (x / 4) 2) (Z.shiftr (x mod 4 * 16 + y) 4)) = x.
Proof.
  intros Hx Hy. unfold is_byte in Hx. rewrite Z.shiftr_div_pow2 by lia. change (2 ^ 4) with 16.
  rewrite join_bits by divlia. change (2 ^ 2) with 4. divlia.
Qed.

Lemma byte1 x y z : is_byte x → is_byte y → 0 ≤ z < 4 →
  u8 (Z.lor (Z.shiftl (x mod 4 * 16 + y / 16) 4) (Z.shiftr (y mod 16 * 4 + z) 2)) = y.
Proof.
  intros Hx Hy Hz. unfold is_byte in *. rewrite Z.shiftr_div_pow2 by lia. change (2 ^ 2) with 4.
  rewrite join_bits by divlia. change (2 ^ 4) with 16. divlia.
Qed.

Lemma byte2 y z : is_byte y → is_byte z →
  u8 (Z.lor (Z.shiftl (y mod 16 * 4 + z / 64) 6) (z mod 64)) = z.
Proof. intros Hy Hz. unfold is_byte in *. rewrite join_bits by divlia. change (2 ^ 6) with 64. divlia. Qed.

(** Three bytes at a time. *)
Lemma triples_ind (P : bytes → Prop) :
  P [] → (∀ x, P [x]) → (∀ x y, P [x; y]) → (∀ x y z b, P b → P (x :: y :: z :: b)) → ∀ b, P b.
Proof.
  intros H0 H1 H2 H3 b. cut (P b ∧ (∀ x, P (x :: b)) ∧ ∀ x y, P (x :: y :: b)); [tauto|].
  induction b as [|z b (IH0 & IH1 & IH2)]; auto.
Qed.

Ltac sextets :=
  repeat match goal with
  | |- context [stdValue (stdChar ?n)] =>
      let E := fresh in destruct (stdChar_spec n) as (E & ? & _); [unfold is_byte in *; divlia|]; rewrite E; cbn [mbind option_bind]
  end;
  repeat match goal with H : (stdChar _ =? 61) = false |- _ => rewrite H; clear H end; cbn [mbind option_bind].

Lemma stdDecode_encode b : wf_bytes b → stdDecode (stdEncode b) = Some b.
Proof.
  unfold wf_bytes. induction b as [|x|x y|x y z b IH] using triples_ind; intros Hb;
    rewrite ?Forall_cons in Hb; destruct_and?; cbn [stdEncode stdDecode app].
  - done.
  - sextets. pose proof (byte0 x 0) as Eb. rewrite Z.add_0_r in Eb. by rewrite Eb by (done || lia).
  - sextets. pose proof (byte1 x y 0) as E. rewrite Z.add_0_r in E.
    by rewrite byte0, E by (done || (unfold is_byte in *; divlia)).
  - sextets. rewrite IH by done. cbn [mbind option_bind].
    by rewrite byte0, byte1, byte2 by (done || (unfold is_byte in *; divlia)).
Qed.

(** ** Spaces *)

Lemma has_prefix_cons c s k e : has_prefix (c :: s) (k :: e) = (c =? k) && has_prefix s e.
Proof.
  apply eq_bool_prop_intro. unfold has_prefix. rewrite andb_True, !bool_decide_spec, Is_true_true, Z.eqb_eq. split.
  - intros (k' & [= -> ->]). split; [done|]. by exists k'.
  - intros (-> & k' & ->). by exists k'.
Qed.

Lemma has_prefix_nil s : has_prefix s [] = true.
Proof. apply bool_decide_eq_true_2. by exists s. Qed.

(** No encoding of a space starts or ends with a printable ASCII byte. *)
Definition graphic (c : Z) : Prop := 33 ≤ c < 127.

Definition asciiSpace (c : Z) : Prop := 9 ≤ c < 14 ∨ c = 32.

Lemma find_none_all {A} (f : A → bool) l : (∀ x, x ∈ l → f x = false) → List.find f l = None.
Proof.
  induction l as [|x l IH]; intros Hf; [done|]. cbn. rewrite Hf by constructor. apply IH.
  intros y Hy. apply Hf. by constructor.
Qed.

Lemma space_encodings_ends :
  Forall (λ e, (∃ k e', e = k :: e' ∧ ¬ graphic k) ∧ ∃ e' k, e = e' ++ [k] ∧ ¬ graphic k) space_encodings.
Proof.
  unfold graphic. cbn. repeat constructor; try (by do 2 eexists; split; [reflexivity|lia]).
  all: first [exists []; eexists; split; [reflexivity|lia]|eexists [_], _; split; [reflexivity|lia]
             |eexists [_; _], _; split; [reflexivity|lia]].
Qed.

Lemma find_space_graphic c s : graphic c → find_space_prefix (c :: s) = None.
Proof.
  intros Hc. unfold find_space_prefix. rewrite find_none_all; [done|]. intros e He.
  pose proof space_encodings_ends as Hs. rewrite Forall_forall in Hs.
  destruct (Hs e He) as [(k & e' & -> & Hk) _]. rewrite has_prefix_cons.
  destruct (Z.eqb_spec c k); [by subst|done].
Qed.

Lemma find_space_ascii c s : asciiSpace c → find_space_prefix (c :: s) = Some 1%nat.
Proof.
  intros Hc. assert (c ∈ [9; 10; 11; 12; 13; 32]) as Hin by (unfold asciiSpace in Hc; rewrite !elem_of_cons; lia).
  unfold find_space_prefix, space_encodings. cbn [app List.find].
  rewrite !has_prefix_cons, !has_prefix_nil, !andb_true_r.
  repeat (apply elem_of_cons in Hin as [->|Hin]; [reflexivity|]). by apply not_elem_of_nil in Hin.
Qed.

Lemma trim_space_graphic s c d : head s = Some c → last s = Some d → graphic c → graphic d → trim_space s = s.
Proof.
  intros Hc Hd Gc Gd. unfold trim_space. destruct s as [|x s]; [done|]. injection Hc as ->.
  cbn [length trim_left_space_fuel]. rewrite find_space_graphic by done. cbn [trim_right_space_fuel].
  rewrite find_none_all; [done|]. intros e He.
  pose proof space_encodings_ends as Hs. rewrite Forall_forall in Hs.
  destruct (Hs e He) as [_ (e' & k & -> & Hk)]. apply bool_decide_eq_false_2. intros [p Hp].
  rewrite Hp, app_assoc, last_snoc in Hd. by injection Hd as ->.
Qed.

(** Line breaks and other ASCII spaces of the embedded text do not matter. *)
Lemma dropSpaces_ascii s :
  Forall (λ c, graphic c ∨ asciiSpace c) s → dropSpaces s = filter graphic s.
Proof.
  unfold dropSpaces. induction s as [|c s IH]; intros Hs; [done|].
  apply Forall_cons in Hs as [Hc Hs]. cbn [length dropSpacesFuel]. destruct Hc as [Hc|Hc].
  - rewrite find_space_graphic, filter_cons_True by done. unfold graphic in Hc.
    assert (rune_width (c :: s) = 1%nat) as -> by (apply rune_width_ascii; lia).
    destruct (Z.leb_spec 128 c); [lia|]. cbn. by rewrite drop_0, IH.
  - rewrite find_space_ascii, filter_cons_False by (done || unfold graphic, asciiSpace in *; lia).
    cbn [drop]. by rewrite drop_0, IH.
Qed.

(** ** What the expression finds *)

(** The words of an expression. *)
Inductive lang : regex → gostring → Prop :=
| LClass p c : p c = true → lang (Class p) [c]
| LSeq r1 r2 a b : lang r1 a → lang r2 b → lang (Seq r1 r2) (a ++ b)
| LOptSome r a : lang r a → lang (Opt r) a
| LOptNone r : lang (Opt r) []
| LRepeat n r l : Forall (lang r) l → (length l ≤ n)%nat → lang (Repeat n r) (concat l)
| LPlus r a l : lang r a → Forall (lang r) l → lang (Plus r) (a ++ concat l).

Lemma rounds_sound (m : gostring → list gostring) (P : gostring → Prop) n s x :
  (∀ s x, x ∈ m s → ∃ a, s = a ++ x ∧ P a) → x ∈ rounds m n s →
  ∃ l, s = concat l ++ x ∧ Forall P l ∧ (length l ≤ n)%nat.
Proof.
  intros Hm. revert s. induction n as [|n IH]; intros s.
  { cbn. intros ->%list_elem_of_singleton. by exists []. }
  cbn. rewrite elem_of_app, list_elem_of_bind, list_elem_of_singleton. intros [(y & Hx & Hy)| ->].
  - destruct (Hm _ _ Hy) as (a & -> & Ha). destruct (IH _ Hx) as (l & -> & Hl & Hn).
    exists (a :: l). cbn. rewrite <- app_assoc. split_and!; [done|by constructor|lia].
  - exists []. split_and!; [done|constructor|cbn; lia].
Qed.

Lemma matches_sound r s x : x ∈ matches r s → ∃ a, s = a ++ x ∧ lang r a.
Proof.
  revert s x. induction r as [p|r1 IH1 r2 IH2|r IH|n r IH|r IH]; intros s x; cbn [matches].
  - destruct s as [|c s]; [by intros ?%not_elem_of_nil|]. destruct (p c) eqn:E; [|by intros ?%not_elem_of_nil].
    intros ->%list_elem_of_singleton. exists [c]. split; [done|by constructor].
  - intros (y & Hx & Hy)%list_elem_of_bind. destruct (IH1 _ _ Hy) as (a & -> & Ha).
    destruct (IH2 _ _ Hx) as (b & -> & Hb). exists (a ++ b). split; [by rewrite app_assoc|by constructor].
  - rewrite elem_of_app, list_elem_of_singleton. intros [Hx| ->].
    + destruct (IH _ _ Hx) as (a & -> & Ha). exists a. split; [done|by constructor].
    + exists []. split; [done|apply LOptNone].
  - intros Hx. destruct (rounds_sound _ (lang r) _ _ _ IH Hx) as (l & -> & Hl & Hn).
    exists (concat l). split; [done|by constructor].
  - intros (y & Hx & Hy)%list_elem_of_bind. destruct (IH _ _ Hy) as (a & -> & Ha).
    destruct (rounds_sound _ (lang r) _ _ _ IH Hx) as (l & -> & Hl & _).
    exists (a ++ concat l). split; [by rewrite app_assoc|by constructor].
Qed.

Lemma FindString_sound r s :
  FindString r s = [] ∨ lang r (FindString r s).
Proof.
  induction s as [|c s IH]; cbn [FindString]; destruct (matches r _) as [|x l] eqn:E; try by left.
  - apply IH.
  - right. assert (x ∈ matches r (c :: s)) as Hx by (rewrite E; constructor).
    apply matches_sound in Hx as (a & Ha & Hl). rewrite Ha, length_app.
    by replace (length a + length x - length x)%nat with (length a) by lia; rewrite take_app_length.
Qed.

(** A label of a host name: at most 63 letters, digits and hyphens, with no
    hyphen at its ends. *)
Definition isLabel (l : gostring) : Prop :=
  ∃ c, isAlnum c = true ∧
    (l = [c] ∨ ∃ m d, l = c :: m ++ [d] ∧ isAlnum d = true ∧ forallb isHostChar m = true ∧ (length m ≤ 61)%nat).

(** A host name of the labels [l :: ls]. *)
Definition dotLabels (ls : list gostring) : gostring := concat ((λ l, 46 :: l) <$> ls).

Lemma lang_class_all n p a : lang (Repeat n (Class p)) a → forallb p a = true ∧ (length a ≤ n)%nat.
Proof.
  intros Ha. inversion Ha as [| | | |? ? l Hl Hn|]; subst. clear Ha. revert n Hn.
  induction Hl as [|w l Hw Hl IH]; intros n Hn; [cbn; split; [done|lia]|].
  inversion Hw; subst. cbn in *. destruct (IH (n - 1)%nat) as [IH1 IH2]; [lia|].
  rewrite andb_true_iff. split; [done|]. lia.
Qed.

Lemma lang_label l : lang labelRegexp l → isLabel l.
Proof.
  intros Hl. inversion Hl as [|? ? a b Ha Hb| | | |]; subst. inversion Ha; subst. exists c. split; [done|].
  inversion Hb as [| |? a' Hm| | |]; subst; [right|by left].
  inversion Hm as [|? ? m d Hm' Hd| | | |]; subst. inversion Hd; subst.
  apply lang_class_all in Hm' as [? ?]. by exists m, c0.
Qed.

Lemma lang_host h : lang gfwHostRegexp h → ∃ l ls, h = l ++ dotLabels ls ∧ isLabel l ∧ Forall isLabel ls ∧ ls ≠ [].
Proof.
  intros Hh. inversion Hh as [|? ? l b Hl Hb| | | |]; subst. apply lang_label in Hl. exists l.
  inversion Hb as [| | | | |? a bs Ha Hbs]; subst.
  assert (∀ w, lang (Seq (Class (Z.eqb 46)) labelRegexp) w → ∃ k, w = 46 :: k ∧ isLabel k) as Hdot.
  { intros w Hw. inversion Hw as [|? ? x y Hx Hy| | | |]; subst. inversion Hx as [? c Hc| | | | |]; subst.
    apply Z.eqb_eq in Hc as <-. exists y. split; [done|]. by apply lang_label. }
  destruct (Hdot _ Ha) as (k & -> & Hk).
  assert (∃ ls, concat bs = dotLabels ls ∧ Forall isLabel ls) as (ls & -> & Hls).
  { clear -Hbs Hdot. induction Hbs as [|w bs Hw Hbs (ls & IH1 & IH2)]; [by exists []|].
    destruct (Hdot _ Hw) as (k & -> & Hk). exists (k :: ls). cbn. rewrite IH1. split; [done|by constructor]. }
  exists (k :: ls). split_and!; [done..|by constructor|done].
Qed.

(** *** The preferred match of a whole host name is all of it *)

Definition stops (s : gostring) : Prop := match s with c :: _ => isHostChar c = false | [] => True end.

Lemma head_bind {A B} (k : A → list B) xs x y : head xs = Some x → head (k x) = Some y → head (xs ≫= k) = Some y.
Proof. intros Hx Hy. destruct xs as [|x' xs]; [done|]. injection Hx as ->. cbn. by destruct (k x). Qed.

Lemma head_app_some {A} (l k : list A) x : head l = Some x → head (l ++ k) = Some x.
Proof. by destruct l. Qed.

Lemma alnum_host c : isAlnum c = true → isHostChar c = true.
Proof. unfold isHostChar. by intros ->. Qed.

Lemma stops_class s : stops s → matches (Class isHostChar) s = [] ∧ matches (Class isAlnum) s = [].
Proof.
  destruct s as [|c s]; [done|]. cbn. intros Hc. rewrite Hc. split; [done|].
  unfold isHostChar in Hc. by apply orb_false_iff in Hc as [-> _].
Qed.

Lemma stops_rounds n s : stops s → rounds (matches (Class isHostChar)) n s = [s].
Proof. intros Hs. destruct n; [done|]. cbn [rounds]. destruct (stops_class s Hs) as [-> _]. done. Qed.

Lemma rounds_label n m d s :
  isAlnum d = true → forallb isHostChar m = true → (length m ≤ n)%nat → stops s →
  head (rounds (matches (Class isHostChar)) n (m ++ d :: s) ≫= matches (Class isAlnum)) = Some s.
Proof.
  intros Hd Hm Hn Hs. revert n Hn. induction m as [|c m IH]; intros n Hn.
  - destruct n as [|n]; cbn [rounds app]; [cbn; by rewrite Hd|].
    cbn [matches]. rewrite (alnum_host d Hd). rewrite bind_app. cbn [mbind list_bind]. rewrite app_nil_r.
    rewrite stops_rounds by done. destruct (stops_class s Hs) as [_ E]. cbn [mbind list_bind].
    change (match s with [] => [] | c :: s' => if isAlnum c then [s'] else [] end) with (matches (Class isAlnum) s).
    rewrite E. cbn. by rewrite Hd.
  - cbn in Hm. apply andb_true_iff in Hm as [Hc Hm]. destruct n as [|n]; [cbn in Hn; lia|].
    cbn [rounds app]. rewrite bind_app. apply head_app_some. cbn [matches]. rewrite Hc.
    cbn [mbind list_bind]. rewrite app_nil_r. apply IH; [done|cbn in Hn; lia].
Qed.

Lemma matches_label l s : isLabel l → stops s → head (matches labelRegexp (l ++ s)) = Some s.
Proof.
  intros (c & Hc & [->|(m & d & -> & Hd & Hm & Hn)]) Hs; cbn [labelRegexp matches app]; rewrite Hc;
    cbn [mbind list_bind]; rewrite app_nil_r.
  - rewrite stops_rounds by done. cbn [mbind list_bind]. rewrite app_nil_r.
    change (match s with [] => [] | c :: s' => if isAlnum c then [s'] else [] end) with (matches (Class isAlnum) s).
    destruct (stops_class s Hs) as [_ ->]. done.
  - apply head_app_some. rewrite <- app_assoc. by apply rounds_label.
Qed.

Lemma stops_dotLabels ls : stops (dotLabels ls).
Proof. by destruct ls. Qed.

Lemma isLabel_length l : isLabel l → (1 ≤ length l)%nat.
Proof. intros (c & _ & [->|(m & d & -> & _)]); cbn; lia. Qed.

Lemma matches_dotLabel l s : isLabel l → stops s →
  head (matches (Seq (Class (Z.eqb 46)) labelRegexp) (46 :: l ++ s)) = Some s.
Proof.
  intros Hl Hs. change (head (matches labelRegexp (l ++ s) ++ []) = Some s). rewrite app_nil_r. by apply matches_label.
Qed.

Lemma rounds_dotLabels n ls : Forall isLabel ls → (length ls ≤ n)%nat →
  head (rounds (matches (Seq (Class (Z.eqb 46)) labelRegexp)) n (dotLabels ls)) = Some [].
Proof.
  intros Hls. revert n. induction Hls as [|l ls Hl Hls IH]; intros n Hn; [by destruct n|].
  destruct n as [|n]; [cbn in Hn; lia|]. cbn [rounds]. apply head_app_some.
  change (dotLabels (l :: ls)) with (46 :: l ++ dotLabels ls).
  eapply head_bind; [apply matches_dotLabel; [done|apply stops_dotLabels]|]. apply IH. cbn in Hn. lia.
Qed.

Lemma dotLabels_length ls : (length ls ≤ length (dotLabels ls))%nat.
Proof. induction ls as [|l ls IH]; [done|]. cbn. rewrite length_app. fold (dotLabels ls). lia. Qed.

Lemma FindString_host l ls : isLabel l → Forall isLabel ls → ls ≠ [] →
  FindString gfwHostRegexp (l ++ dotLabels ls) = l ++ dotLabels ls.
Proof.
  intros Hl Hls Hne. set (h := l ++ dotLabels ls).
  assert (head (matches gfwHostRegexp h) = Some []) as Hh.
  { unfold gfwHostRegexp. cbn [matches]. eapply head_bind; [apply matches_label; [done|apply stops_dotLabels]|].
    destruct ls as [|k ls]; [done|]. apply Forall_cons in Hls as [Hk Hls].
    change (dotLabels (k :: ls)) with (46 :: k ++ dotLabels ls).
    eapply head_bind; [apply matches_dotLabel; [done|apply stops_dotLabels]|].
    apply rounds_dotLabels; [done|]. cbn [length]. rewrite length_app. pose proof (dotLabels_length ls). lia. }
  assert (∀ s, head (matches gfwHostRegexp s) = Some [] → FindString gfwHostRegexp s = s) as Hf.
  { intros [|c s] Hs; [reflexivity|].
    cbn [FindString]. destruct (matches gfwHostRegexp (c :: s)) as [|x xs]; [done|].
    cbn in Hs. injection Hs as ->. rewrite Nat.sub_0_r. by apply take_ge. }
  by apply Hf.
Qed.

(** ** Rules *)

Definition isHost (h : gostring) : Prop :=
  ∃ l ls, h = l ++ dotLabels ls ∧ isLabel l ∧ Forall isLabel ls ∧ ls ≠ [].

Definition nameChar (c : Z) : bool := isHostChar c || (c =? 46).

Lemma label_chars l : isLabel l → forallb nameChar l = true.
Proof.
  assert (∀ c, isAlnum c = true → nameChar c = true) as Ha by (unfold nameChar, isHostChar; by intros ? ->).
  intros (c & Hc & [->|(m & d & -> & Hd & Hm & _)]); cbn; rewrite (Ha c Hc); [done|].
  rewrite forallb_app. cbn. rewrite (Ha d Hd), andb_true_r. cbn. clear -Hm.
  induction m as [|x m IH]; [done|]. cbn in *. apply andb_true_iff in Hm as [Hx Hm].
  unfold nameChar at 1. rewrite Hx. by apply IH.
Qed.

Lemma host_chars h c : isHost h → c ∈ h → nameChar c = true.
Proof.
  intros (l & ls & -> & Hl & Hls & _) Hc.
  assert (forallb nameChar (l ++ dotLabels ls) = true) as Hall.
  { rewrite forallb_app, label_chars by done. cbn. clear -Hls.
    induction Hls as [|k ls Hk Hls IH]; [done|]. change (dotLabels (k :: ls)) with (46 :: k ++ dotLabels ls).
    cbn. rewrite forallb_app, label_chars by done. by rewrite IH. }
  rewrite forallb_forall in Hall. apply Hall. by apply list_elem_of_In.
Qed.

Lemma label_ends l : isLabel l → ∃ c d, head l = Some c ∧ last l = Some d ∧ isAlnum c = true ∧ isAlnum d = true.
Proof.
  intros (c & Hc & [->|(m & d & -> & Hd & _)]); [by exists c, c|]. exists c, d.
  split_and!; [done| |done..]. change (c :: m ++ [d]) with ((c :: m) ++ [d]). by rewrite last_snoc.
Qed.

Lemma host_ends h : isHost h → ∃ c d, head h = Some c ∧ last h = Some d ∧ isAlnum c = true ∧ isAlnum d = true.
Proof.
  intros (l & ls & -> & Hl & Hls & Hne). destruct (label_ends l Hl) as (c & _ & Hc & _ & Ac & _). exists c.
  assert (∃ d, last (dotLabels ls) = Some d ∧ isAlnum d = true) as (d & Hd & Ad).
  { clear -Hls Hne. induction Hls as [|k ls Hk Hls IH]; [done|].
    change (dotLabels (k :: ls)) with ((46 :: k) ++ dotLabels ls). rewrite last_app.
    destruct ls as [|k' ls]; [|destruct IH as (d & -> & Ad); [done|by exists d]].
    destruct (label_ends k Hk) as (_ & d & _ & Hd & _ & Ad). exists d. split; [|done].
    cbn [dotLabels fmap list_fmap concat last]. rewrite last_cons, Hd. done. }
  exists d. rewrite last_app, Hd. split_and!; [|done..]. by destruct l.
Qed.

Lemma nameChar_range c : nameChar c = true →
  graphic c ∧ 45 ≤ c < 123 ∧ c ≠ 47 ∧ ¬ (58 ≤ c < 97).
Proof.
  unfold nameChar, isHostChar, isAlnum, between, is_digit, graphic.
  rewrite !orb_true_iff, !andb_true_iff, !Z.leb_le, !Z.eqb_eq. lia.
Qed.

Lemma alnum_range c : isAlnum c = true → graphic c ∧ c ≠ 46 ∧ nameChar c = true.
Proof.
  intros Hc. assert (nameChar c = true) as Hn by (unfold nameChar, isHostChar; by rewrite Hc).
  split; [by apply nameChar_range|]. split; [by intros ->|done].
Qed.

Lemma cutAny_id cs s : (∀ c, c ∈ s → c ∉ cs) → cutAny cs s = s.
Proof.
  induction s as [|c s IH]; intros Hs; [done|]. cbn. unfold contains_byte.
  rewrite bool_decide_eq_false_2 by (apply Hs; constructor). rewrite IH; [done|].
  intros x Hx. apply Hs. by constructor.
Qed.

Lemma trimLeft_id cs s : (∀ c, head s = Some c → c ∉ cs) → trimLeft cs s = s.
Proof.
  destruct s as [|c s]; [done|]. cbn. intros Hs. unfold contains_byte.
  by rewrite bool_decide_eq_false_2 by (by apply Hs).
Qed.

Lemma trim_id cs s : (∀ c, head s = Some c ∨ last s = Some c → c ∉ cs) → trim cs s = s.
Proof.
  intros Hs. unfold trim, trimRight. rewrite (trimLeft_id cs s) by auto.
  rewrite trimLeft_id; [apply reverse_involutive|]. intros c Hc. apply Hs. right. by rewrite <- head_reverse.
Qed.

Lemma contains_first s c sub : contains s (c :: sub) = true → c ∈ s.
Proof.
  induction s as [|x s IH]; [by vm_compute|]. cbn [contains]. rewrite has_prefix_cons, orb_true_iff, andb_true_iff.
  intros [[->%Z.eqb_eq _]|Hs]; constructor. by apply IH.
Qed.

Lemma host_lower `{GoUnicode} h : isHost h → to_lower h = h.
Proof.
  intros Hh. pose proof (host_chars h) as Hc. unfold to_lower.
  assert (∀ c, c ∈ h → 45 ≤ c < 123 ∧ ¬ (58 ≤ c < 97)) as Hr.
  { intros c ?. destruct (nameChar_range c) as (_ & ? & _ & ?); auto. }
  clear Hh Hc. assert (is_ascii h = true) as ->.
  { unfold is_ascii. apply forallb_forall. intros c Hc%list_elem_of_In. apply Z.ltb_lt.
    destruct (Hr c Hc). lia. }
  rewrite <- (list_fmap_id h) at 2. apply list_fmap_ext. intros i c Hi%list_elem_of_lookup_2.
  destruct (Hr c Hi). unfold lower_byte. destruct (Z.leb_spec 65 c); cbn; [|done].
  destruct (Z.leb_spec c 90); cbn; [lia|done].
Qed.

(** No mark the parser cuts off is a letter or a digit. *)
Lemma alnum_marks c : isAlnum c = true → c ∉ lit "|." ∧ c ∉ lit "*./" ∧ c ∉ lit ".".
Proof.
  intros Hc. destruct (alnum_range c Hc) as (_ & ? & Hn). destruct (nameChar_range c Hn) as (_ & ? & ? & ?).
  change (c ∉ [124; 46] ∧ c ∉ [42; 46; 47] ∧ c ∉ [46]). rewrite !elem_of_cons, !elem_of_nil. lia.
Qed.

Lemma host_trim cs h : isHost h → (∀ c, isAlnum c = true → c ∉ cs) → trim cs h = h.
Proof.
  intros Hh Hcs. destruct (host_ends h Hh) as (a & b & Ha & Hb & Aa & Ab). apply trim_id.
  intros c [Hc|Hc]; apply Hcs; congruence.
Qed.

Section Rules.
Context `{GoUnicode, GoURL}.

(** The host a rule is reduced to, once the rule's own marks are gone. *)
Lemma extractGFWListHost_host h : isHost h → ParseIP h = None → extractGFWListHost ("||" ++ h) = Some h.
Proof.
  intros Hh Hip. pose proof (host_chars h) as Hc. destruct (host_ends h Hh) as (a & b & Ha & Hb & Aa & Ab).
  assert (h ≠ []) as Hne by (by intros ->). unfold extractGFWListHost.
  rewrite (trim_space_graphic ("||" ++ h) 124 b); [|done| |by unfold graphic|by apply alnum_range].
  2:{ change ("||" ++ h) with ([124; 124] ++ h). by rewrite last_app, Hb. }
  rewrite bool_decide_eq_false_2 by done.
  assert (cutAny "^$" ("||" ++ h) = "||" ++ h) as ->.
  { apply cutAny_id. intros c [Hc'|Hc']%elem_of_app; [by revert c Hc'; apply Forall_forall; by_decide|].
    destruct (nameChar_range c) as (_ & ? & ? & ?); [auto|].
    change (c ∉ [94; 36]). rewrite !elem_of_cons, elem_of_nil. lia. }
  assert (trimLeft "|." ("||" ++ h) = h) as ->.
  { change (trimLeft "|." ("||" ++ h)) with (trimLeft "|." h). apply trimLeft_id.
    intros c Hc'. apply alnum_marks. congruence. }
  rewrite bool_decide_eq_false_2 by done.
  assert (58 ∉ h) as Hcolon. { intros ?. destruct (nameChar_range 58) as (_ & _ & _ & ?); [auto|lia]. }
  destruct (contains h "://") eqn:Ec; [by apply contains_first in Ec|].
  rewrite (host_trim "*./" h) by (done || intros; by apply alnum_marks).
  unfold SplitHostPort. apply last_index_byte_None in Hcolon. rewrite Hcolon. rewrite host_lower by done.
  assert (FindString gfwHostRegexp h = h) as ->.
  { destruct Hh as (l & ls & -> & ? & ? & ?). by apply FindString_host. }
  rewrite (bool_decide_eq_false_2 (h = [])), (bool_decide_eq_false_2 (ParseIP h ≠ None)) by (done || tauto).
  cbn [orb]. f_equal. apply host_trim; [done|]. intros; by apply alnum_marks.
Qed.

Lemma normalizeGFWListRule_host h : isHost h → ParseIP h = None → normalizeGFWListRule ("||" ++ h) = Some ("*" ++ h).
Proof.
  intros Hh Hip. destruct (host_ends h Hh) as (a & b & Ha & Hb & Aa & Ab). unfold normalizeGFWListRule.
  rewrite (trim_space_graphic ("||" ++ h) 124 b); [|done| |by unfold graphic|by apply alnum_range].
  2:{ change ("||" ++ h) with ([124; 124] ++ h). by rewrite last_app, Hb. }
  rewrite extractGFWListHost_host by done. rewrite bool_decide_eq_false_2 by done.
  destruct h as [|a' h]; [done|]. injection Ha as ->.
  change ("||" ++ a :: h) with (124 :: 124 :: a :: h). change (lit "/") with [47]. change (lit "||^") with [124; 124; 94].
  rewrite !has_prefix_cons, has_prefix_nil. cbn. destruct (Z.eqb_spec a 94) as [->|]; [done|]. done.
Qed.

(** Whatever a rule looks like, the pattern it yields is a host name of at least
    two labels behind an asterisk. *)
Lemma normalizeGFWListRule_pattern rule p : normalizeGFWListRule rule = Some p → ∃ h, p = "*" ++ h ∧ isHost h.
Proof.
  unfold normalizeGFWListRule. destruct (_ || _ || _); [done|].
  destruct (extractGFWListHost _) as [h|] eqn:E; [|done]. intros [= <-]. exists h. split; [done|].
  revert E. unfold extractGFWListHost. case_bool_decide; [done|]. case_bool_decide; [done|]. cbv zeta.
  match goal with |- context [FindString ?r ?s] => destruct (FindString_sound r s) as [->|Hl]; [done|];
    set (m := FindString r s) in * end.
  apply lang_host in Hl. destruct (_ || _); [done|]. intros [= <-].
  rewrite host_trim; [done..|]. intros; by apply alnum_marks.
Qed.
End Rules.

(** ** The matchers *)

Lemma host_dot h : isHost h → contains ("*" ++ h) "." = true.
Proof.
  intros (l & [|k ls] & -> & _ & _ & Hne); [done|].
  change ("*" ++ l ++ dotLabels (k :: ls)) with ((42 :: l) ++ 46 :: (k ++ dotLabels ls)). apply Domain.contains_dot_app.
Qed.

Lemma host_not_star h : isHost h → "*" ++ h ≠ lit "*".
Proof. intros Hh E. destruct (host_ends h Hh) as (a & _ & Ha & _). by destruct h. Qed.

Lemma addPatterns_hosts patterns m :
  Forall (λ p, ∃ h, p = "*" ++ h ∧ isHost h) patterns →
  addPatterns m patterns = Ok (Domain.addAll m ((λ p, (p, tt)) <$> patterns)).
Proof.
  intros Hp. revert m. induction Hp as [|p ps (h & -> & Hh) Hps IH]; intros m; [done|].
  cbn [addPatterns fmap list_fmap]. unfold Domain.addAll. cbn [foldl fst snd]. fold (@Domain.addAll unit).
  assert (∃ m', Domain.Add m ("*" ++ h) tt = Ok m') as (m' & E).
  { unfold Domain.Add. rewrite bool_decide_eq_false_2 by (by apply host_not_star).
    rewrite host_dot by done. cbn [negb]. repeat case_match; by eexists. }
  rewrite E. cbn [mbind res_bind]. by rewrite IH.
Qed.

Lemma rulesOf_host h : isHost h →
  Domain.rulesOf ("*" ++ h) tt = Some [Domain.Wildcard (Domain.labels h) tt; Domain.Exact (Domain.labels h) tt].
Proof.
  intros Hh. unfold Domain.rulesOf. rewrite bool_decide_eq_false_2 by (by apply host_not_star).
  rewrite host_dot by done. cbn [negb]. destruct (host_ends h Hh) as (a & _ & Ha & _ & Aa & _).
  destruct h as [|a' h]; [done|]. injection Ha as ->.
  change ("*" ++ a :: h) with (42 :: a :: h). change (lit "*.") with [42; 46]. change (lit "*") with [42].
  rewrite !has_prefix_cons, !has_prefix_nil. destruct (alnum_range a Aa) as (_ & Hn & _).
  destruct (Z.eqb_spec a 46); done.
Qed.

Lemma exactRule_unit rs ls : Domain.Exact ls tt ∈ rs → Domain.exactRule rs ls = Some tt.
Proof.
  unfold Domain.exactRule. intros Hin. generalize (@None unit).
  assert (∀ rs, foldl (λ acc r, match r with Domain.Exact ls' v => if bool_decide (ls' = ls) then Some v else acc
                  | _ => acc end) (Some tt) rs = Some tt) as Hs.
  { clear. intros rs. induction rs as [|[ls' []|ls' []] rs IH]; [done| |done]. cbn. by case_bool_decide. }
  induction rs as [|r rs IH]; intros acc; [by apply not_elem_of_nil in Hin|]. cbn [foldl].
  apply elem_of_cons in Hin as [<-|Hin]; [|by apply IH]. by rewrite bool_decide_eq_true_2.
Qed.

Lemma wildcardRule_unit rs ls : Domain.Wildcard ls tt ∈ rs → Domain.wildcardRule rs ls = Some tt.
Proof.
  unfold Domain.wildcardRule. intros Hin. generalize (@None unit).
  assert (∀ rs, foldl (λ acc r, match r with Domain.Wildcard ls' v => if bool_decide (ls' = ls) then Some v else acc
                  | _ => acc end) (Some tt) rs = Some tt) as Hs.
  { clear. intros rs. induction rs as [|[ls' []|ls' []] rs IH]; [done|done|]. cbn. by case_bool_decide. }
  induction rs as [|r rs IH]; intros acc; [by apply not_elem_of_nil in Hin|]. cbn [foldl].
  apply elem_of_cons in Hin as [<-|Hin]; [|by apply IH]. by rewrite bool_decide_eq_true_2.
Qed.

(** [d] is [h] or a name below it. *)
Definition below (d h : gostring) : Prop := d = h ∨ ∃ x, d = x ++ 46 :: h.

Lemma host_pattern_found patterns h d :
  isHost h → "*" ++ h ∈ patterns → below d h →
  Domain.Find (Domain.addAll Domain.NewDomainMatcher ((λ p, (p, tt)) <$> patterns)) d = Some tt.
Proof.
  intros Hh Hin Hd. set (ps := (λ p, (p, tt)) <$> patterns).
  rewrite (Domain.Find_refines _ (Domain.rulesAll ps))
    by (apply (Domain.refines_addAll _ []), Domain.refines_new).
  assert (∀ r, r ∈ [Domain.Wildcard (Domain.labels h) tt; Domain.Exact (Domain.labels h) tt] →
               r ∈ Domain.rulesAll ps) as Hr.
  { intros r Hr. apply list_elem_of_bind. exists ("*" ++ h, tt). split; [cbn [fst snd]; by rewrite rulesOf_host|].
    apply list_elem_of_fmap. by exists ("*" ++ h). }
  unfold Domain.refFind. destruct Hd as [->|(x & ->)].
  { by rewrite exactRule_unit by (apply Hr; set_solver). }
  destruct (Domain.exactRule _ _) as [[]|]; [done|].
  destruct (host_ends h Hh) as (a & _ & Ha & _ & Aa & _). destruct (alnum_range a Aa) as (_ & Hn & _).
  assert (h ≠ []) as Hne by (by intros ->). assert (head h ≠ Some 46) as Hdot by congruence.
  destruct (Domain.labels_app x h Hne Hdot) as [-> ->]. pose proof (Domain.labels_dotted h Hne Hdot).
  apply (longestPrefix_unique _ _ _ _ tt (length (Domain.labels h))); [by intros ? []|lia|].
  rewrite take_app_length. apply wildcardRule_unit, Hr. set_solver.
Qed.

(** ** The whole list *)

Section List.
Context `{GoUnicode, GoURL}.

(** What a line of the list says: a pattern, and whether it is an exception. *)
Definition lineRule (line : gostring) : option (bool * gostring) :=
  let line := trim_space line in
  if bool_decide (line = []) || has_prefix line "!" || has_prefix line "[" then None
  else if has_prefix line "@@" then p ← normalizeGFWListRule (trim_prefix line "@@"); Some (true, p)
  else p ← normalizeGFWListRule line; Some (false, p).

Lemma addLine_spec s1 s2 line :
  addLine (s1, s2) line =
  match lineRule line with
  | Some (false, p) => ({[p]} ∪ s1, s2)
  | Some (true, p) => (s1, {[p]} ∪ s2)
  | None => (s1, s2)
  end.
Proof.
  unfold addLine, lineRule. cbv zeta. destruct (_ || _ || _); [done|].
  destruct (has_prefix (trim_space line) "@@"); by destruct (normalizeGFWListRule _).
Qed.

Lemma addLines_elem lines s1 s2 p :
  let '(blocked, bypass) := foldl addLine (s1, s2) lines in
  (p ∈ blocked ↔ p ∈ s1 ∨ ∃ line, line ∈ lines ∧ lineRule line = Some (false, p)) ∧
  (p ∈ bypass ↔ p ∈ s2 ∨ ∃ line, line ∈ lines ∧ lineRule line = Some (true, p)).
Proof.
  revert s1 s2. induction lines as [|line lines IH]; intros s1 s2.
  { cbn. split; (split; [by left|]); intros [?|(? & ?%not_elem_of_nil & _)]; done. }
  cbn [foldl]. rewrite addLine_spec.
  assert (∀ b, (∃ l, l ∈ line :: lines ∧ lineRule l = Some (b, p)) ↔
               lineRule line = Some (b, p) ∨ ∃ l, l ∈ lines ∧ lineRule l = Some (b, p)) as He.
  { intros b. setoid_rewrite elem_of_cons. naive_solver. }
  destruct (lineRule line) as [[[] q]|].
  1: specialize (IH s1 ({[q]} ∪ s2)). 2: specialize (IH ({[q]} ∪ s1) s2). 3: specialize (IH s1 s2).
  all: destruct (foldl _ _ _) as [b1 b2], IH as [-> ->]; rewrite !He, ?elem_of_union, ?elem_of_singleton; naive_solver.
Qed.

Lemma lineRule_pattern line b p : lineRule line = Some (b, p) → ∃ h, p = "*" ++ h ∧ isHost h.
Proof.
  unfold lineRule. cbv zeta. destruct (_ || _ || _); [done|].
  destruct (has_prefix (trim_space line) "@@"); destruct (normalizeGFWListRule _) as [q|] eqn:E; try done;
    intros [= <- <-]; by eapply normalizeGFWListRule_pattern.
Qed.

Lemma rule_line h (exc : bool) : isHost h → ParseIP h = None →
  lineRule ((if exc then lit "@@" else []) ++ "||" ++ h) = Some (exc, "*" ++ h).
Proof.
  intros Hh Hip. destruct (host_ends h Hh) as (_ & b & _ & Hb & _ & Ab). unfold lineRule. cbv zeta.
  assert (∀ l, last (l ++ h) = Some b) as Hlast by (intros l; by rewrite last_app, Hb).
  destruct exc.
  - rewrite (trim_space_graphic _ 64 b); [|done|rewrite app_assoc; apply Hlast|by unfold graphic|by apply alnum_range].
    rewrite bool_decide_eq_false_2 by done. change (lit "@@" ++ "||" ++ h) with (64 :: 64 :: 124 :: 124 :: h).
    change (lit "!") with [33]. change (lit "[") with [91]. change (lit "@@") with [64; 64].
    unfold trim_prefix. rewrite !has_prefix_cons, !has_prefix_nil. cbn.
    pose proof (normalizeGFWListRule_host h Hh Hip) as En.
    change ("||" ++ h) with (124 :: 124 :: h) in En. by rewrite En.
  - cbn [app]. rewrite (trim_space_graphic _ 124 b); [|done|apply Hlast|by unfold graphic|by apply alnum_range].
    rewrite normalizeGFWListRule_host by done. rewrite bool_decide_eq_false_2 by done.
    change ("||" ++ h) with (124 :: 124 :: h). change (lit "!") with [33]. change (lit "[") with [91].
    change (lit "@@") with [64; 64]. rewrite !has_prefix_cons. done.
Qed.

(** The tables [isGFWDomain] reads when the list [text] is embedded. *)
Definition listTables (t : Tables) (m b : Domain.labelNode unit) : Tables :=
  mkTables (defaultPolicy t) (domainMatcher t) (hostsMatcher t) (ipMatcher t) (ipv6Matcher t) m b.

(** C38: The embedded list is its text in base 64, with line breaks anywhere: it
    always loads, a rule [||host] makes the host and every name below it blocked
    domains, unless an exception covers the name, and an exception [@@||host]
    makes none of them one. *)
Theorem gfw_list_loads (raw text : gostring) (t : Tables) :
  wf_bytes text → Forall (λ c, graphic c ∨ asciiSpace c) raw → filter graphic raw = stdEncode text →
  ∃ m b, loadBuiltinGFWList raw = Ok (m, b) ∧
    ∀ h domain, isHost h → ParseIP h = None → domain ≠ [] → below (to_lower domain) h →
      ("||" ++ h ∈ split_byte 10 text → Domain.Find b (to_lower domain) = None →
       isGFWDomain (listTables t m b) domain = true) ∧
      ("@@||" ++ h ∈ split_byte 10 text → isGFWDomain (listTables t m b) domain = false).
Proof.
  intros Hw Hraw Hfil. unfold loadBuiltinGFWList, parseEmbeddedGFWList.
  rewrite dropSpaces_ascii, Hfil, stdDecode_encode by done.
  pose proof (addLines_elem (split_byte 10 text) ∅ ∅) as Hel.
  destruct (foldl addLine (∅, ∅) (split_byte 10 text)) as [blocked bypass].
  destruct (mapKeysSorted_spec blocked (elements blocked) (reflexivity _)) as (_ & _ & _ & H1).
  destruct (mapKeysSorted_spec bypass (elements bypass) (reflexivity _)) as (_ & _ & _ & H2).
  assert (Hpat : ∀ l b, (∀ p, p ∈ l → ∃ line, lineRule line = Some (b, p)) →
    Forall (λ p, ∃ h, p = "*" ++ h ∧ isHost h) l).
  { intros l b Hl. apply Forall_forall. intros p Hp. destruct (Hl p Hp) as [line E]. by eapply lineRule_pattern. }
  cbn [mbind res_bind]. rewrite !addPatterns_hosts.
  2: apply (Hpat _ false); intros p Hp; apply H1, Hel in Hp as [?%not_elem_of_empty|(l & _ & ?)]; [done|by exists l].
  2: apply (Hpat _ true); intros p Hp; apply H2, Hel in Hp as [?%not_elem_of_empty|(l & _ & ?)]; [done|by exists l].
  do 2 eexists. split; [reflexivity|]. intros h domain Hh Hip Hne Hd. unfold isGFWDomain, listTables.
  cbn [gfwBypassMatcher gfwDomainMatcher]. rewrite bool_decide_eq_false_2 by done. split.
  - intros Hline ->. cbn. rewrite (host_pattern_found _ h); [done|done| |done].
    apply H1, Hel. right. exists ("||" ++ h). split; [done|]. by apply (rule_line h false).
  - intros Hline. rewrite (host_pattern_found _ h); [done|done| |done].
    apply H2, Hel. right. exists ("@@||" ++ h). split; [done|]. by apply (rule_line h true).
Qed.
End List.

Definition demoList : gostring := lit "! comment" ++ [10] ++ lit "||example.org" ++ [10] ++ lit "@@||free.example.org".

Definition demoRaw : gostring := take 10 (stdEncode demoList) ++ [13; 10] ++ drop 10 (stdEncode demoList).

Lemma isHost_labels l ls :
  bool_decide (ls ≠ []) = true →
  forallb (λ k, forallb isHostChar k && (1 <? zlen k) && (zlen k <? 64) &&
                match head k, last k with Some c, Some d => isAlnum c && isAlnum d | _, _ => false end) (l :: ls) = true →
  isHost (l ++ dotLabels ls).
Proof.
  intros Hne%bool_decide_eq_true_1 Hall. exists l, ls. split; [done|]. cut (Forall isLabel (l :: ls)).
  { intros [? ?]%Forall_cons. done. }
  apply Forall_forall. intros k Hk. rewrite forallb_forall in Hall.
  specialize (Hall k (proj1 (list_elem_of_In _ _) Hk)). rewrite !andb_true_iff, !Z.ltb_lt in Hall.
  destruct Hall as (((Hh & H1) & H2) & Hends). destruct k as [|c k]; [done|].
  destruct k as [|d m _] using rev_ind; [unfold zlen in H1; cbn in H1; lia|]. cbn [head] in Hends.
  change (c :: m ++ [d]) with ((c :: m) ++ [d]) in Hends. rewrite last_snoc in Hends.
  apply andb_true_iff in Hends as [Hc Hd]. exists c. split; [done|]. right. exists m, d.
  cbn in Hh. rewrite andb_true_iff, forallb_app, andb_true_iff in Hh. destruct Hh as (_ & Hm & _).
  split_and!; [done..|]. unfold zlen in H2. cbn in H2. rewrite length_app in H2. cbn in H2. lia.
Qed.

Lemma gfw_list_loads_witness :
  let t := emptyTables unsetPolicy in
  ∃ m b, @loadBuiltinGFWList unicode_id (λ _, None) demoRaw = Ok (m, b) ∧
    @isGFWDomain unicode_id (listTables t m b) "WWW.example.org" = true ∧
    @isGFWDomain unicode_id (listTables t m b) "a.free.example.org" = false.
Proof.
  intros t.
  destruct (@gfw_list_loads unicode_id (λ _, None) demoRaw demoList t) as (m & b & E & Hd).
  - by_decide.
  - unfold graphic, asciiSpace. by_decide.
  - vm_compute. reflexivity.
  - exists m, b. split; [exact E|]. vm_compute in E. injection E as <- <-. split.
    + apply (Hd (lit "example" ++ dotLabels [lit "org"]) "WWW.example.org");
        [by apply isHost_labels; vm_compute|by vm_compute|done| | |by vm_compute].
      * right. exists (lit "www"). by vm_compute.
      * by_decide.
    + apply (Hd (lit "free" ++ dotLabels [lit "example"; lit "org"]) "a.free.example.org");
        [by apply isHost_labels; vm_compute|by vm_compute|done| |by_decide].
      right. exists (lit "a"). by vm_compute.
Defined.
