(* ===== verification/ShadowStream.v ===== *)
(** * Shadowsocks stream ciphers and the choice of a cipher
      (tun2socks/transport/shadowsocks/shadowstream, core/cipher.go)

    A connection sends its initialisation vector and then the data under one
    key stream; a packet carries an initialisation vector of its own.  The key
    streams are Go's [cipher.Stream]: [XORKeyStream] is a parameter over a state
    of type [KS], with its documented behaviour as laws.  The packet connections
    of both kinds of cipher are here too, over any packet connection. *)

From stdpp Require Import sorting.
From S2P Require Import Prelude Errors Netip Stream GfwList ShadowAEAD NetConn.
Local Open Scope Z_scope.

Section KeyStreams.
Context {KS : Type} (XORKeyStream : KS → bytes → bytes * KS).

(** [Cipher] (cipher.go): the constructors of key streams may panic on an
    initialisation vector of a wrong length. *)
Record Cipher := mkCipher { IVSize : Z; Encrypter : bytes → res KS; Decrypter : bytes → res KS }.

(** ** Writer and Reader (stream.go) *)

Definition bufSize : Z := 2048.

(** The loop of [Write]: every round takes at least one byte, so the length of
    [p] is enough fuel. *)
Fixpoint writeLoop (fuel : nat) (n : Z) (p : bytes) (s : KS) (c : netConn) : Z * option error * KS * netConn :=
  match fuel with
  | O => (n, None, s, c)
  | S fuel =>
      if bool_decide (p = []) then (n, None, s, c) else
      let chunk := take (Z.to_nat bufSize) p in
      let '(x, s) := XORKeyStream s chunk in
      match netWrite x c with
      | (None, c) => writeLoop fuel (n + zlen chunk) (drop (Z.to_nat bufSize) p) s c
      | (Some e, c) => (n, Some e, s, c)
      end
  end.

Definition Write (p : bytes) (s : KS) (c : netConn) : Z * option error * KS * netConn := writeLoop (length p) 0 p s c.

(** Enough rounds to read a source to its end. *)
Definition rounds (src : netConn) : nat := S (length (ncSegs src) + length (concat (ncSegs src))).

(** [Writer.ReadFrom]: the copy of [src]. *)
Fixpoint readFromLoop (fuel : nat) (n : Z) (src : netConn) (s : KS) (c : netConn) : Z * option error * KS * netConn :=
  match fuel with
  | O => (n, None, s, c)
  | S fuel =>
      let '(b, er, src) := netRead bufSize src in
      let n := n + zlen b in
      let '(x, s) := XORKeyStream s b in
      match netWrite x c with
      | (Some e, c) => (n, Some e, s, c)
      | (None, c) =>
          match er with
          | Some e => (n, if isEOF e then None else Some e, s, c)
          | None => readFromLoop fuel n src s c
          end
      end
  end.

Definition WriterReadFrom (src : netConn) (s : KS) (c : netConn) : Z * option error * KS * netConn :=
  readFromLoop (rounds src) 0 src s c.

(** [Reader.Read] into a slice of [len] bytes: bytes that come with an error
    are dropped. *)
Definition Read (len : Z) (s : KS) (c : netConn) : bytes * option error * KS * netConn :=
  let '(b, e, c) := netRead len c in
  match e with
  | Some e => ([], Some e, s, c)
  | None => let '(x, s) := XORKeyStream s b in (x, None, s, c)
  end.

(** [Reader.WriteTo]: the copy to [w]. *)
Fixpoint writeToLoop (fuel : nat) (n : Z) (s : KS) (c w : netConn) : Z * option error * KS * netConn * netConn :=
  match fuel with
  | O => (n, None, s, c, w)
  | S fuel =>
      let '(b, er, c) := netRead bufSize c in
      let finish n s w :=
        match er with
        | Some e => (n, if isEOF e then None else Some e, s, c, w)
        | None => writeToLoop fuel n s c w
        end in
      if 0 <? zlen b then
        let '(x, s) := XORKeyStream s b in
        match netWrite x w with
        | (Some e, w) => (n, Some e, s, c, w)
        | (None, w) => finish (n + zlen x) s w
        end
      else finish n s w
  end.

Definition ReaderWriteTo (s : KS) (c w : netConn) : Z * option error * KS * netConn * netConn :=
  writeToLoop (rounds c) 0 s c w.

(** ** Conn *)

Record Conn := mkConn {
  sConn : netConn;
  sR : option KS;
  sW : option KS;
  readIV : bytes;
  writeIV : bytes;
}.

Definition NewConn (c : netConn) : Conn := mkConn c None None [] [].

Context (ciph : Cipher).

(** [ObtainWriteIV]; [rnd] is what [rand.Read] fills in. *)
Definition ObtainWriteIV (rnd : res bytes) (c : Conn) : res bytes * Conn :=
  if zlen (writeIV c) =? IVSize ciph then (Ok (writeIV c), c) else
  match rnd with
  | Ok iv => (Ok iv, mkConn (sConn c) (sR c) (sW c) (readIV c) iv)
  | e => (e, c)
  end.

Definition ObtainReadIV (c : Conn) : res bytes * Conn :=
  if zlen (readIV c) =? IVSize ciph then (Ok (readIV c), c) else
  match netReadFull (IVSize ciph) (sConn c) with
  | (_, Some e, n) => (Err e, mkConn n (sR c) (sW c) (readIV c) (writeIV c))
  | (iv, None, n) => (Ok iv, mkConn n (sR c) (sW c) iv (writeIV c))
  end.

(** The reader of a connection after [initReader]. *)
Definition initReader (c : Conn) : res KS * Conn :=
  match sR c with
  | Some s => (Ok s, c)
  | None =>
      match ObtainReadIV c with
      | (Ok iv, c) =>
          match Decrypter ciph iv with
          | Ok s => (Ok s, mkConn (sConn c) (Some s) (sW c) (readIV c) (writeIV c))
          | e => (e, c)
          end
      | (Err e, c) => (Err e, c)
      | (Panic, c) => (Panic, c)
      end
  end.

Definition initWriter (rnd : res bytes) (c : Conn) : res KS * Conn :=
  match sW c with
  | Some s => (Ok s, c)
  | None =>
      match ObtainWriteIV rnd c with
      | (Ok iv, c) =>
          match netWrite iv (sConn c) with
          | (Some e, n) => (Err e, mkConn n (sR c) None (readIV c) (writeIV c))
          | (None, n) =>
              match Encrypter ciph iv with
              | Ok s => (Ok s, mkConn n (sR c) (Some s) (readIV c) (writeIV c))
              | e => (e, mkConn n (sR c) None (readIV c) (writeIV c))
              end
          end
      | (Err e, c) => (Err e, c)
      | (Panic, c) => (Panic, c)
      end
  end.

(** The results of the operations: a count or bytes with an error, or [Panic]. *)
Definition connRead (len : Z) (c : Conn) : res (bytes * option error) * Conn :=
  match initReader c with
  | (Ok s, c) =>
      let '(b, e, s, n) := Read len s (sConn c) in (Ok (b, e), mkConn n (Some s) (sW c) (readIV c) (writeIV c))
  | (Err e, c) => (Ok ([], Some e), c)
  | (Panic, c) => (Panic, c)
  end.

Definition connWriteTo (w : netConn) (c : Conn) : res (Z * option error) * Conn * netConn :=
  match initReader c with
  | (Ok s, c) =>
      let '(k, e, s, n, w) := ReaderWriteTo s (sConn c) w in
      (Ok (k, e), mkConn n (Some s) (sW c) (readIV c) (writeIV c), w)
  | (Err e, c) => (Ok (0, Some e), c, w)
  | (Panic, c) => (Panic, c, w)
  end.

Definition connWrite (rnd : res bytes) (b : bytes) (c : Conn) : res (Z * option error) * Conn :=
  match initWriter rnd c with
  | (Ok s, c) =>
      let '(k, e, s, n) := Write b s (sConn c) in (Ok (k, e), mkConn n (sR c) (Some s) (readIV c) (writeIV c))
  | (Err e, c) => (Ok (0, Some e), c)
  | (Panic, c) => (Panic, c)
  end.

Definition connReadFrom (rnd : res bytes) (src : netConn) (c : Conn) : res (Z * option error) * Conn :=
  match initWriter rnd c with
  | (Ok s, c) =>
      let '(k, e, s, n) := WriterReadFrom src s (sConn c) in
      (Ok (k, e), mkConn n (sR c) (Some s) (readIV c) (writeIV c))
  | (Err e, c) => (Ok (0, Some e), c)
  | (Panic, c) => (Panic, c)
  end.

(** ** Packets (packet.go) *)

Definition Pack (dstLen : Z) (plaintext : bytes) (rnd : res bytes) : res bytes :=
  if dstLen <? IVSize ciph + zlen plaintext then Err errShortBuffer else
  iv ← rnd;
  s ← Encrypter ciph iv;
  Ok (iv ++ (XORKeyStream s plaintext).1).

Definition Unpack (dstLen : Z) (pkt : bytes) : res bytes :=
  if zlen pkt <? IVSize ciph then Err ErrShortPacket
  else if dstLen <? zlen pkt - IVSize ciph then Err errShortBuffer
  else
    s ← Decrypter ciph (take (Z.to_nat (IVSize ciph)) pkt);
    Ok (XORKeyStream s (drop (Z.to_nat (IVSize ciph)) pkt)).1.
End KeyStreams.

Arguments Cipher : clear implicits.
Arguments Conn : clear implicits.

(** ** Packet connections with a cipher

    [PacketConn] of both packages: the same code around their own [Pack] and
    [Unpack].  [cpRand k] is the [k]-th reading of the random source. *)

Record cipherPC (R : Type) := mkCipherPC { cpInner : R; cpRand : nat → res bytes; cpCount : nat }.
Arguments mkCipherPC {R}.
Arguments cpInner {R}.
Arguments cpRand {R}.
Arguments cpCount {R}.

Section Packets.
Context {A R : Type} `{!PacketConn A R}.
Context (headSize : Z) (pack : Z → bytes → res bytes → res bytes) (unpack : Z → bytes → res bytes).

Definition cpSet (c : cipherPC R) (r : R) : cipherPC R := mkCipherPC r (cpRand c) (cpCount c).

Definition packetWriteTo (b : bytes) (addr : A) (c : cipherPC R) : option (Z * option error) * cipherPC R :=
  let c1 := mkCipherPC (cpInner c) (cpRand c) (S (cpCount c)) in
  match pack maxPacketSize b (cpRand c (cpCount c)) with
  | Ok buf =>
      match WriteTo buf addr (cpInner c) with
      | (Some (_, err), r) => (Some (zlen b, err), cpSet c1 r)
      | (None, r) => (None, cpSet c1 r)
      end
  | Err e => (Some (0, Some e), c1)
  | Panic => (None, c1)
  end.

(** The plaintext is written after the head of the packet, and then copied to
    the front. *)
Definition plaintextInto (b bb : bytes) : bytes :=
  let h := Z.to_nat headSize in
  copyInto (take h b ++ bb ++ drop (h + length bb) b) bb.

Definition packetReadFrom (b : bytes) (c : cipherPC R) : option (packetRead A) * cipherPC R :=
  match ReadFrom b (cpInner c) with
  | (None, r) => (None, cpSet c r)
  | (Some pr, r) =>
      match prErr pr with
      | Some _ => (Some pr, cpSet c r)
      | None =>
          let b := prBuf pr in
          if zlen b <? headSize then (None, cpSet c r) else
          match unpack (zlen b - headSize) (take (Z.to_nat (prCount pr)) b) with
          | Ok bb => (Some (mkPacketRead (zlen bb) (prFrom pr) None (plaintextInto b bb)), cpSet c r)
          | Err e => (Some (mkPacketRead (prCount pr) (prFrom pr) (Some e) b), cpSet c r)
          | Panic => (None, cpSet c r)
          end
      end
  end.

Definition cipherPC_ops : PacketConn A (cipherPC R) := {| ReadFrom := packetReadFrom; WriteTo := packetWriteTo |}.
End Packets.

(** ** What a connection delivers *)

Section Facts.
Context {KS : Type} (XORKeyStream : KS → bytes → bytes * KS).

(** "Multiple calls behave as if the concatenation of the sources had been
    passed in a single run." *)
Class KeyStream : Prop := {
  xor_length s b : zlen (XORKeyStream s b).1 = zlen b;
  xor_app s a b : XORKeyStream s (a ++ b) =
    ((XORKeyStream s a).1 ++ (XORKeyStream (XORKeyStream s a).2 b).1, (XORKeyStream (XORKeyStream s a).2 b).2);
  xor_nil s : XORKeyStream s [] = ([], s);
}.

(** A cipher: the two key streams of an initialisation vector are inverse. *)
Definition cipherOK (ciph : Cipher KS) : Prop :=
  1 ≤ IVSize ciph ∧
  ∀ iv, zlen iv = IVSize ciph →
    ∃ enc dec, Encrypter ciph iv = Ok enc ∧ Decrypter ciph iv = Ok dec ∧
      ∀ p, (XORKeyStream dec (XORKeyStream enc p).1).1 = p.

Context {KSL : KeyStream}.

(** What the state of a connection will have sent in all. *)
Definition sentOn (c c' : netConn) (x : bytes) : Prop :=
  concat (ncOut c') = concat (ncOut c) ++ x ∧ quietWrites c' ∧ ncSegs c' = ncSegs c ∧ ncEnd c' = ncEnd c.

Lemma sentOn_write b c : quietWrites c → ∃ c', netWrite b c = (None, c') ∧ sentOn c c' b.
Proof.
  intros Hq. eexists. rewrite netWrite_quiet by done. split; [reflexivity|]. unfold sentOn. cbn.
  rewrite concat_app. cbn. by rewrite app_nil_r.
Qed.

Lemma sentOn_trans c1 c2 c3 x y : sentOn c1 c2 x → sentOn c2 c3 y → sentOn c1 c3 (x ++ y).
Proof. intros (E1 & _ & ? & ?) (E2 & ? & ? & ?). unfold sentOn. rewrite E2, E1, app_assoc. split_and!; congruence. Qed.

Lemma sentOn_refl c : quietWrites c → sentOn c c [].
Proof. intros. unfold sentOn. by rewrite app_nil_r. Qed.

Lemma bufSize_cut (p : bytes) : p ≠ [] → take (Z.to_nat bufSize) p ≠ [] ∧ (length (drop (Z.to_nat bufSize) p) < length p)%nat.
Proof.
  intros Hp. destruct p as [|x p]; [done|]. unfold bufSize. rewrite length_drop. cbn [length]. split; [|lia].
  replace (Z.to_nat 2048) with (S 2047) by lia. done.
Qed.

Lemma writeLoop_quiet fuel n p s c : (length p ≤ fuel)%nat → quietWrites c →
  ∃ c', writeLoop XORKeyStream fuel n p s c = (n + zlen p, None, (XORKeyStream s p).2, c') ∧
    sentOn c c' (XORKeyStream s p).1.
Proof.
  revert n p s c. induction fuel as [|fuel IH]; intros n p s c Hf Hq; cbn [writeLoop].
  - destruct p; [|cbn in Hf; lia]. rewrite xor_nil, Z.add_0_r. exists c. split; [done|by apply sentOn_refl].
  - destruct (decide (p = [])) as [->|Hp].
    { rewrite bool_decide_eq_true_2, xor_nil, Z.add_0_r by done. exists c. split; [done|by apply sentOn_refl]. }
    rewrite bool_decide_eq_false_2 by done. cbv zeta. destruct (bufSize_cut p Hp) as [_ Hd].
    pose proof (take_drop (Z.to_nat bufSize) p) as Ep. revert Hd Ep.
    generalize (take (Z.to_nat bufSize) p), (drop (Z.to_nat bufSize) p). intros a b Hd <-. rewrite xor_app, zlen_app. cbn [fst snd].
    destruct (XORKeyStream s a) as [x s1]. cbn [fst snd]. destruct (sentOn_write x c Hq) as (c1 & -> & H1).
    destruct (IH (n + zlen a) b s1 c1) as (c2 & -> & H2); [lia|apply H1|].
    exists c2. split; [by rewrite Z.add_assoc|]. by eapply sentOn_trans.
Qed.

(** A source that is not at its end gives up a round of reading. *)
Lemma netRead_rounds c data : willRead c data → data ≠ [] →
  ∃ b rest c', netRead bufSize c = (b, None, c') ∧ b ≠ [] ∧ data = b ++ rest ∧ willRead c' rest ∧
    (rounds c' < rounds c)%nat ∧ ncOut c' = ncOut c ∧ ncFail c' = ncFail c.
Proof.
  intros Hw Hd. destruct (netRead_some bufSize c data ltac:(done) Hw Hd)
    as (b & rest & c' & E & Hb & _ & Hr & Hw' & Ho & Hf & _ & Hs).
  exists b, rest, c'. split_and!; try done. unfold rounds. destruct Hw as (_ & -> & _), Hw' as (_ & -> & _). subst data.
  rewrite length_app. destruct b; [done|]. cbn [length]. lia.
Qed.

Lemma readFromLoop_spec fuel n src data s c : (rounds src ≤ fuel)%nat → willRead src data → quietWrites c →
  ∃ c', readFromLoop XORKeyStream fuel n src s c = (n + zlen data, None, (XORKeyStream s data).2, c') ∧
    sentOn c c' (XORKeyStream s data).1.
Proof.
  revert n src data s c. induction fuel as [|fuel IH]; intros n src data s c Hf Hw Hq; [unfold rounds in Hf; lia|].
  cbn [readFromLoop]. destruct (decide (data = [])) as [->|Hd].
  - rewrite netRead_end by done. cbv zeta. rewrite xor_nil, Z.add_0_r.
    destruct (sentOn_write [] c Hq) as (c1 & -> & H1). exists c1. done.
  - destruct (netRead_rounds src data Hw Hd) as (b & rest & src' & -> & _ & -> & Hw' & Hr & _). cbv zeta.
    rewrite xor_app, zlen_app. cbn [fst snd]. destruct (XORKeyStream s b) as [x s1]. cbn [fst snd].
    destruct (sentOn_write x c Hq) as (c1 & -> & H1).
    destruct (IH (n + zlen b) src' rest s1 c1) as (c2 & -> & H2); [lia|done|apply H1|].
    exists c2. split; [by rewrite Z.add_assoc|]. by eapply sentOn_trans.
Qed.

Lemma writeToLoop_spec fuel n s c enc w : (rounds c ≤ fuel)%nat → willRead c enc → quietWrites w →
  ∃ c' w', writeToLoop XORKeyStream fuel n s c w = (n + zlen enc, None, (XORKeyStream s enc).2, c', w') ∧
    sentOn w w' (XORKeyStream s enc).1 ∧ willRead c' [].
Proof.
  revert n s c enc w. induction fuel as [|fuel IH]; intros n s c enc w Hf Hw Hq; [unfold rounds in Hf; lia|].
  cbn [writeToLoop]. destruct (decide (enc = [])) as [->|Hd].
  - rewrite netRead_end by done. cbv zeta. cbn [zlen length Z.of_nat Z.ltb Z.compare].
    rewrite xor_nil. exists c, w. rewrite Z.add_0_r. split_and!; [done|by apply sentOn_refl|done].
  - destruct (netRead_rounds c enc Hw Hd) as (b & rest & c' & -> & Hb & -> & Hw' & Hr & _). cbv zeta.
    pose proof (zlen_pos b Hb). destruct (Z.ltb_spec 0 (zlen b)); [|lia].
    rewrite xor_app, zlen_app. cbn [fst snd]. pose proof (xor_length s b) as Hx.
    destruct (XORKeyStream s b) as [x s1]. cbn [fst snd] in *.
    destruct (sentOn_write x w Hq) as (w1 & -> & Hw1).
    destruct (IH (n + zlen x) s1 c' rest w1) as (c2 & w2 & -> & Hw2 & Hc2); [lia|done|apply Hw1|].
    exists c2, w2. split_and!; [by rewrite Hx, Z.add_assoc|by eapply sentOn_trans|done].
Qed.

(** ** Both ends of a connection *)

Context (ciph : Cipher KS).

(** Operations that send: a write, or the copy of a source that arrives in
    segments. *)
Inductive sendOp :=
| SendWrite (p : bytes)
| SendCopy (segs : list bytes).

Definition sendData (op : sendOp) : bytes := match op with SendWrite p => p | SendCopy segs => concat segs end.
Definition sendOK (op : sendOp) : Prop := match op with SendWrite _ => True | SendCopy segs => segsOK segs end.
Definition arriving (segs : list bytes) : netConn := mkNet segs errEOF [] (λ _, None).

(** The operations in order; [None] as soon as one fails or is short. *)
Fixpoint sendOps (iv : bytes) (ops : list sendOp) (c : Conn KS) : option (Conn KS) :=
  match ops with
  | [] => Some c
  | op :: ops =>
      let '(r, c) := match op with
                     | SendWrite p => connWrite XORKeyStream ciph (Ok iv) p c
                     | SendCopy segs => connReadFrom XORKeyStream ciph (Ok iv) (arriving segs) c
                     end in
      match r with
      | Ok (n, None) => if n =? zlen (sendData op) then sendOps iv ops c else None
      | _ => None
      end
  end.

(** [data] was sent on the connection, under the vector [iv]. *)
Definition wrote (iv data : bytes) (c : Conn KS) : Prop :=
  quietWrites (sConn c) ∧
  match sW c with
  | None => data = [] ∧ ncOut (sConn c) = [] ∧ writeIV c = []
  | Some s => ∃ enc, Encrypter ciph iv = Ok enc ∧ s = (XORKeyStream enc data).2 ∧
      concat (ncOut (sConn c)) = iv ++ (XORKeyStream enc data).1
  end.

Lemma initWriter_wrote iv data c : cipherOK ciph → zlen iv = IVSize ciph → wrote iv data c →
  ∃ s c', initWriter ciph (Ok iv) c = (Ok s, c') ∧ sW c' = Some s ∧ wrote iv data c'.
Proof.
  intros [Hsz Hiv] Hl (Hq & H). unfold initWriter. destruct (sW c) as [s|] eqn:Ew.
  { exists s, c. split_and!; [done..|]. unfold wrote. by rewrite Ew. }
  destruct H as (-> & Ho & Eiv). unfold ObtainWriteIV. rewrite Eiv.
  destruct (Z.eqb_spec (zlen (@nil Z)) (IVSize ciph)) as [E|_]; [change (zlen (@nil Z)) with 0 in E; lia|].
  cbn [sConn]. rewrite netWrite_quiet by done. destruct (Hiv iv Hl) as (enc & dec & He & _). rewrite He.
  eexists _, _. split; [reflexivity|]. split; [done|]. split; [done|]. exists enc. cbn. rewrite Ho, xor_nil. cbn.
  by rewrite app_nil_r.
Qed.

(** What both kinds of sending do to the state. *)
Lemma wrote_step iv data p c s n : wrote iv data c → sW c = Some s → sentOn (sConn c) n (XORKeyStream s p).1 →
  wrote iv (data ++ p) (mkConn n (sR c) (Some (XORKeyStream s p).2) (readIV c) (writeIV c)).
Proof.
  intros (Hq & H) Ew (Eo & Hq' & _). rewrite Ew in H. destruct H as (enc & He & -> & Ho). split; [done|].
  exists enc. cbn [sConn sW]. rewrite xor_app, Eo, Ho, <- app_assoc. done.
Qed.

Lemma sendOps_wrote iv ops data c :
  cipherOK ciph → zlen iv = IVSize ciph → Forall sendOK ops → wrote iv data c →
  ∃ c', sendOps iv ops c = Some c' ∧ wrote iv (data ++ concat (sendData <$> ops)) c' ∧ (ops ≠ [] → sW c' ≠ None).
Proof.
  intros Hc Hl HO. revert data c. induction HO as [|op ops Hop HO IH]; intros data c Hw.
  { exists c. cbn. by rewrite app_nil_r. }
  destruct (initWriter_wrote iv data c Hc Hl Hw) as (s & c1 & Ei & Es & Hw1). pose proof (proj1 Hw1) as Hq1.
  assert (∃ n, sentOn (sConn c1) n (XORKeyStream s (sendData op)).1 ∧
    sendOps iv (op :: ops) c =
      sendOps iv ops (mkConn n (sR c1) (Some (XORKeyStream s (sendData op)).2) (readIV c1) (writeIV c1))) as (n & Hn & ->).
  { cbn [sendOps]. destruct op as [p|segs]; cbn [sendData].
    - unfold connWrite. rewrite Ei. unfold Write.
      destruct (writeLoop_quiet (length p) 0 p s (sConn c1)) as (n & -> & Hn); [done..|].
      exists n. split; [done|]. by rewrite Z.add_0_l, Z.eqb_refl.
    - unfold connReadFrom. rewrite Ei. unfold WriterReadFrom.
      destruct (readFromLoop_spec (rounds (arriving segs)) 0 (arriving segs) (concat segs) s (sConn c1))
        as (n & -> & Hn); [done..|].
      exists n. split; [done|]. by rewrite Z.add_0_l, Z.eqb_refl. }
  pose proof (wrote_step iv data (sendData op) c1 s n Hw1 Es Hn) as Hw2.
  destruct (IH _ _ Hw2) as (c' & E & Hw' & Hne). exists c'. rewrite E. cbn [fmap list_fmap concat]. rewrite app_assoc.
  split_and!; [done..|]. intros _. destruct ops as [|op' ops]; [|by apply Hne].
  cbn in E. injection E as <-. done.
Qed.

(** [Conn.Read] as a reader; a panic is an error that is not the end. *)
Definition errPanic : error := errorString "panic".

Definition connReadE (len : Z) (c : Conn KS) : bytes * option error * Conn KS :=
  match connRead XORKeyStream ciph len c with
  | (Ok (b, e), c) => (b, e, c)
  | (Err e, c) => ([], Some e, c)
  | (Panic, c) => ([], Some errPanic, c)
  end.

Definition streamDelivers (c : Conn KS) (rem : bytes) : Prop :=
  match sR c with
  | Some s => ∃ enc, willRead (sConn c) enc ∧ (XORKeyStream s enc).1 = rem
  | None => readIV c = [] ∧ 1 ≤ IVSize ciph ∧
      ∃ iv dec enc, zlen iv = IVSize ciph ∧ Decrypter ciph iv = Ok dec ∧ willRead (sConn c) (iv ++ enc) ∧
        (XORKeyStream dec enc).1 = rem
  end.

Lemma initReader_delivers c rem : streamDelivers c rem →
  ∃ s enc c', initReader ciph c = (Ok s, c') ∧ willRead (sConn c') enc ∧ (XORKeyStream s enc).1 = rem.
Proof.
  intros H. unfold initReader, streamDelivers in *. destruct (sR c) as [s|].
  { destruct H as (enc & Hw & E). by exists s, enc, c. }
  destruct H as (Er & Hsz & iv & dec & enc & Hl & Hd & Hw & E). unfold ObtainReadIV. rewrite Er.
  destruct (Z.eqb_spec (zlen (@nil Z)) (IVSize ciph)) as [E0|_]; [change (zlen (@nil Z)) with 0 in E0; lia|].
  destruct (netReadFull_app (IVSize ciph) (sConn c) iv enc Hl Hw) as (n & -> & Hw' & _). rewrite Hd.
  eexists dec, enc, _. split; [reflexivity|]. done.
Qed.

#[global] Instance connRead_Reads : Reads (λ len, 1 ≤ len) connReadE streamDelivers.
Proof.
  intros len c rem Hlen Hd. destruct (initReader_delivers c rem Hd) as (s & enc & c1 & Ei & Hw & <-).
  unfold connReadE, connRead. rewrite Ei. unfold Read. destruct (decide (enc = [])) as [->|Hne].
  - left. rewrite netRead_end, xor_nil by done. eauto.
  - right. destruct (netRead_some len (sConn c1) enc Hlen Hw Hne) as (b & rest & n & -> & Hb & _ & -> & Hw' & _).
    rewrite xor_app. pose proof (xor_length s b) as Hx. destruct (XORKeyStream s b) as [x s1]. cbn [fst snd] in *.
    eexists x, _, _. split; [reflexivity|]. split; [|split; [reflexivity|]].
    + intros ->. pose proof (zlen_pos b Hb). change (zlen (@nil Z)) with 0 in Hx. lia.
    + exists rest. done.
Qed.

(** C34: a connection with a stream cipher delivers what was sent.  Whatever writes
    and copies one end makes, all of them succeed; however the bytes are cut on
    their way, the other end receives the data, by reads of any sizes or by a
    copy to another connection, and sees the end exactly when it has all. *)
Theorem stream_cipher_roundtrip iv ops lens :
  cipherOK ciph → zlen iv = IVSize ciph → ops ≠ [] → Forall sendOK ops → Forall (λ len, 1 ≤ len) lens →
  ∃ sender, sendOps iv ops (NewConn (arriving [])) = Some sender ∧
    ∀ segs, segsOK segs → concat segs = concat (ncOut (sConn sender)) →
      let data := concat (sendData <$> ops) in
      (∃ os e c', drain connReadE lens (NewConn (arriving segs)) = (os, e, c') ∧ received (length lens) data os e) ∧
      ∃ c' w', connWriteTo XORKeyStream ciph (arriving []) (NewConn (arriving segs)) = (Ok (zlen data, None), c', w') ∧
        concat (ncOut w') = data.
Proof.
  intros Hc Hl Hne HO HL.
  destruct (sendOps_wrote iv ops [] (NewConn (arriving [])) Hc Hl HO) as (c & Es & Hw & Hs); [done|].
  exists c. split; [exact Es|]. intros segs Hsegs Econ. cbv zeta. cbn [app] in Hw.
  destruct Hw as (_ & Hw). destruct (sW c) as [s|]; [|by destruct (Hs Hne)]. destruct Hw as (enc & He & _ & Ho).
  destruct (proj2 Hc iv Hl) as (enc' & dec & He' & Hd & Hinv). rewrite He in He'. injection He' as <-.
  assert (streamDelivers (NewConn (arriving segs)) (concat (sendData <$> ops))) as Hdel.
  { split; [done|]. split; [apply Hc|]. eexists iv, dec, _. split_and!; [done|done| |apply Hinv].
    split; [done|]. split; [|done]. cbn. by rewrite Econ. }
  split.
  - eapply drain_delivers; [apply connRead_Reads|done|done].
  - destruct (initReader_delivers _ _ Hdel) as (s1 & enc1 & c1 & Ei & Hw1 & Hx). unfold connWriteTo. rewrite Ei.
    unfold ReaderWriteTo.
    destruct (writeToLoop_spec (rounds (sConn c1)) 0 s1 (sConn c1) enc1 (arriving [])) as (c2 & w2 & -> & Hs2 & _); [done..|].
    eexists _, w2. split; [|by rewrite (proj1 Hs2), Hx].
    pose proof (xor_length s1 enc1) as Hlen. rewrite Hx in Hlen. by rewrite Z.add_0_l, Hlen.
Qed.
End Facts.

(** ** Datagrams *)

Section PacketFacts.
Context {A R : Type} `{!PacketConn A R} (next : Z → R → bytes → A → R → Prop) `{!PacketReads next}.
Context (headSize : Z) (pack : Z → bytes → res bytes → res bytes) (unpack : Z → bytes → res bytes).

(** The next packet of the layer below unpacks to [p]. *)
Definition cipherNext (len : Z) (c : cipherPC R) (p : bytes) (from : A) (c' : cipherPC R) : Prop :=
  ∃ pkt r, next len (cpInner c) pkt from r ∧ c' = cpSet c r ∧ 0 ≤ headSize ≤ len ∧
    unpack (len - headSize) pkt = Ok p ∧ zlen p + headSize ≤ len.

Lemma cipherPC_reads : PacketReads (PC := cipherPC_ops headSize pack unpack) cipherNext.
Proof.
  intros b c p from c' (pkt & r & Hn & -> & Hh & Hu & Hl). destruct (packet_step b (cpInner c) pkt from r Hn) as (b1 & E & Hb1 & Hp).
  cbn. unfold packetReadFrom. rewrite E. cbn [prErr prBuf prCount prFrom]. rewrite Hb1.
  destruct (Z.ltb_spec (zlen b) headSize); [lia|].
  replace (Z.to_nat (zlen pkt)) with (length pkt) by (unfold zlen; lia). rewrite Hp, Hu.
  eexists. split; [reflexivity|]. unfold plaintextInto. set (b2 := take _ b1 ++ _).
  assert (zlen b2 = zlen b) as Hb2.
  { unfold b2. rewrite <- Hb1. unfold zlen in *. rewrite !length_app, length_take, length_drop. lia. }
  split; [by rewrite copyInto_length|]. apply copyInto_take. lia.
Qed.
End PacketFacts.

Section StreamPackets.
Context {KS : Type} (XORKeyStream : KS → bytes → bytes * KS) {KSL : KeyStream XORKeyStream}.
Context (ciph : Cipher KS).

(** A payload that fits is packed, and unpacks to itself wherever there is room
    for it. *)
Lemma stream_packet_roundtrip iv payload dstLen :
  cipherOK XORKeyStream ciph → zlen iv = IVSize ciph →
  IVSize ciph + zlen payload ≤ maxPacketSize → zlen payload ≤ dstLen →
  ∃ packet, Pack XORKeyStream ciph maxPacketSize payload (Ok iv) = Ok packet ∧
    zlen packet = IVSize ciph + zlen payload ∧ Unpack XORKeyStream ciph dstLen packet = Ok payload.
Proof.
  intros [Hsz Hiv] Hl Hfit Hdst. destruct (Hiv iv Hl) as (enc & dec & He & Hd & Hinv). unfold Pack.
  destruct (Z.ltb_spec maxPacketSize (IVSize ciph + zlen payload)); [lia|]. cbn [mbind res_bind]. rewrite He.
  cbn [mbind res_bind]. eexists. split; [reflexivity|]. pose proof (xor_length XORKeyStream enc payload) as Hx.
  pose proof (zlen_nonneg payload). assert (∀ x, zlen (iv ++ x) = IVSize ciph + zlen x) as Hz.
  { intros x. by rewrite zlen_app, Hl. }
  split; [by rewrite Hz, Hx|]. unfold Unpack. rewrite Hz, Hx.
  destruct (Z.ltb_spec (IVSize ciph + zlen payload) (IVSize ciph)); [lia|].
  destruct (Z.ltb_spec dstLen (IVSize ciph + zlen payload - IVSize ciph)); [lia|].
  replace (Z.to_nat (IVSize ciph)) with (length iv) by (unfold zlen in Hl; lia).
  rewrite take_app_length, drop_app_length, Hd. cbn [mbind res_bind]. by rewrite Hinv.
Qed.
End StreamPackets.

(** ** The choice of a cipher (core/cipher.go) *)

Definition ErrCipherNotSupported : error := errorString "cipher not supported".

Definition upper_byte (c : Z) : Z := if (97 <=? c) && (c <=? 122) then c - 32 else c.

Inductive coreCipher (KS : Type) :=
| Dummy
| AeadCipher (c : metaCipher) (key : bytes)
| StreamCipher (c : Cipher KS) (key : bytes).
Arguments Dummy {KS}.
Arguments AeadCipher {KS}.
Arguments StreamCipher {KS}.

Section Pick.
(** Go's libraries: the AEAD constructors, the key streams of a key and an
    initialisation vector, MD5, and the Unicode tables of [strings.ToUpper]. *)
Context {KS : Type}.
Context (md5 : bytes → bytes).
Context (aesGCM chacha20poly1305_New chacha20poly1305_NewX : bytes → res AEAD).
Context (newCTR newCFBEncrypter newCFBDecrypter newChacha20 : bytes → bytes → KS) (newRC4 : bytes → KS).
Context (unicode_to_upper : gostring → gostring).

Definition to_upper (s : gostring) : gostring := if is_ascii s then upper_byte <$> s else unicode_to_upper s.

(** [aes.NewCipher] accepts three key sizes; the block modes panic on a vector
    that is not of the block size. *)
Definition aesBlockSize : Z := 16.

Definition aesMode (enc dec : bytes → bytes → KS) (key : bytes) : res (Cipher KS) :=
  if (zlen key =? 16) || (zlen key =? 24) || (zlen key =? 32) then
    Ok (mkCipher aesBlockSize
          (λ iv, if zlen iv =? aesBlockSize then Ok (enc key iv) else Panic)
          (λ iv, if zlen iv =? aesBlockSize then Ok (dec key iv) else Panic))
  else Err (errorString ("crypto/aes: invalid key size " ++ itoa (zlen key))).

Definition AESCTR (key : bytes) : res (Cipher KS) := aesMode newCTR newCTR key.
Definition AESCFB (key : bytes) : res (Cipher KS) := aesMode newCFBEncrypter newCFBDecrypter key.

(** [chacha20.NewUnauthenticatedCipher] fails, and the code panics, unless the
    key has 32 bytes and the vector 12 or 24. *)
Definition chachaStream (key iv : bytes) : res KS :=
  if (zlen key =? 32) && ((zlen iv =? 12) || (zlen iv =? 24)) then Ok (newChacha20 key iv) else Panic.

Definition Chacha20IETF (key : bytes) : res (Cipher KS) :=
  if negb (zlen key =? 32) then Err (KeySizeError 32) else Ok (mkCipher 12 (chachaStream key) (chachaStream key)).

Definition Xchacha20 (key : bytes) : res (Cipher KS) :=
  if negb (zlen key =? 32) then Err (KeySizeError 32) else Ok (mkCipher 24 (chachaStream key) (chachaStream key)).

Definition RC4MD5 (key : bytes) : res (Cipher KS) :=
  let stream iv := Ok (newRC4 (md5 (key ++ iv))) in Ok (mkCipher 16 stream stream).

Definition streamList : list (gostring * (Z * (bytes → res (Cipher KS)))) :=
  [(lit "RC4-MD5", (16, RC4MD5));
   (lit "AES-128-CTR", (16, AESCTR)); (lit "AES-192-CTR", (24, AESCTR)); (lit "AES-256-CTR", (32, AESCTR));
   (lit "AES-128-CFB", (16, AESCFB)); (lit "AES-192-CFB", (24, AESCFB)); (lit "AES-256-CFB", (32, AESCFB));
   (lit "CHACHA20-IETF", (32, Chacha20IETF)); (lit "XCHACHA20", (32, Xchacha20))].

Abbreviation aeads := (aeadList aesGCM chacha20poly1305_New chacha20poly1305_NewX).

Definition ListCipher : list gostring := sortStrings (aeads.*1 ++ streamList.*1).

Definition PickCipher (name : gostring) (key : bytes) (password : gostring) : res (coreCipher KS) :=
  let name := to_upper name in
  if bool_decide (name = lit "DUMMY") then Ok Dummy else
  let name := cipherAlias name in
  match lookupName aeads name with
  | Some (size, new) =>
      let key := if bool_decide (key = []) then Kdf md5 password size else key in
      if negb (zlen key =? size) then Err (KeySizeError size) else
      c ← new key; Ok (AeadCipher c key)
  | None =>
      match lookupName streamList name with
      | Some (size, new) =>
          let key := if bool_decide (key = []) then Kdf md5 password size else key in
          if negb (zlen key =? size) then Err (KeySizeError size) else
          c ← new key; Ok (StreamCipher c key)
      | None => Err ErrCipherNotSupported
      end
  end.
End Pick.

Lemma lookupName_elem {B} (l : list (gostring * B)) name x : lookupName l name = Some x → (name, x) ∈ l.
Proof.
  unfold lookupName. destruct (List.find _ l) as [[n y]|] eqn:E; [|done]. cbn. intros [= ->].
  apply List.find_some in E as [E Hn]. case_bool_decide as En; [|done]. cbn in En. subst. by apply list_elem_of_In.
Qed.

Lemma lookupName_not_elem {B} (l : list (gostring * B)) name : name ∈ l.*1 → lookupName l name ≠ None.
Proof.
  intros Hin E. unfold lookupName in E. apply fmap_None in E. apply list_elem_of_fmap in Hin as ([n y] & -> & Hin).
  apply list_elem_of_In, (List.find_none _ _ E) in Hin. by case_bool_decide.
Qed.

(** ** Every listed cipher works *)

Section PickFacts.
Context {KS : Type} (XORKeyStream : KS → bytes → bytes * KS).
Context (md5 : bytes → bytes).
Context (aesGCM chacha20poly1305_New chacha20poly1305_NewX : bytes → res AEAD).
Context (newCTR newCFBEncrypter newCFBDecrypter newChacha20 : bytes → bytes → KS) (newRC4 : bytes → KS).
Context (unicode_to_upper : gostring → gostring).

(** The libraries: a digest has 16 bytes; the decrypting key stream of a key and
    a vector undoes the encrypting one. *)
Class CryptoLib : Prop := {
  md5_length b : zlen (md5 b) = 16;
  ctr_inverse k iv p : (XORKeyStream (newCTR k iv) (XORKeyStream (newCTR k iv) p).1).1 = p;
  cfb_inverse k iv p : (XORKeyStream (newCFBDecrypter k iv) (XORKeyStream (newCFBEncrypter k iv) p).1).1 = p;
  chacha_inverse k iv p : (XORKeyStream (newChacha20 k iv) (XORKeyStream (newChacha20 k iv) p).1).1 = p;
  rc4_inverse k p : (XORKeyStream (newRC4 k) (XORKeyStream (newRC4 k) p).1).1 = p;
}.

Context {CL : CryptoLib}.

Lemma KdfLoop_length fuel password n b prev : n ≤ zlen b + 16 * Z.of_nat fuel →
  n ≤ zlen (KdfLoop md5 fuel password n b prev).
Proof.
  revert b prev. induction fuel as [|fuel IH]; intros b prev Hn; cbn [KdfLoop]; [lia|].
  destruct (Z.ltb_spec (zlen b) n); [|done]. apply IH. rewrite zlen_app, md5_length. lia.
Qed.

Lemma Kdf_length password n : 0 ≤ n → zlen (Kdf md5 password n) = n.
Proof.
  intros Hn. unfold Kdf. pose proof (KdfLoop_length (Z.to_nat n) password n [] []) as H.
  change (zlen (@nil Z)) with 0 in H. apply zlen_take_drop. lia.
Qed.

(** A cipher whose constructor can be called for every vector or salt of the
    size it asks for, and which decrypts what it encrypts. *)
Definition usable (c : coreCipher KS) : Prop :=
  match c with
  | Dummy => True
  | AeadCipher c key => psk c = key ∧ SaltSize c = Z.max 16 (zlen key)
  | StreamCipher c _ => cipherOK XORKeyStream c
  end.

Abbreviation pick := (PickCipher md5 aesGCM chacha20poly1305_New chacha20poly1305_NewX
  newCTR newCFBEncrypter newCFBDecrypter newChacha20 newRC4 unicode_to_upper).
Abbreviation listed := (ListCipher md5 aesGCM chacha20poly1305_New chacha20poly1305_NewX
  newCTR newCFBEncrypter newCFBDecrypter newChacha20 newRC4).

Lemma aesMode_ok enc dec key :
  (∀ iv p, (XORKeyStream (dec key iv) (XORKeyStream (enc key iv) p).1).1 = p) →
  zlen key = 16 ∨ zlen key = 24 ∨ zlen key = 32 → ∃ c, aesMode enc dec key = Ok c ∧ cipherOK XORKeyStream c.
Proof.
  intros Hinv Hk. unfold aesMode.
  destruct ((zlen key =? 16) || (zlen key =? 24) || (zlen key =? 32)) eqn:E; [|bool_to_prop; lia].
  eexists. split; [reflexivity|]. split; [done|]. intros iv Hiv. cbn in *. rewrite Hiv. cbn.
  exists (enc key iv), (dec key iv). auto.
Qed.

Abbreviation streams := (streamList md5 newCTR newCFBEncrypter newCFBDecrypter newChacha20 newRC4).
Abbreviation aeads := (aeadList aesGCM chacha20poly1305_New chacha20poly1305_NewX).

Lemma stream_ok name size new key : (name, (size, new)) ∈ streams → zlen key = size →
  ∃ c, new key = Ok c ∧ cipherOK XORKeyStream c.
Proof.
  intros Hin Hk. unfold streamList in Hin. rewrite !elem_of_cons, elem_of_nil in Hin.
  assert (∀ k : bytes, zlen k = 32 → chachaStream newChacha20 k = λ iv,
    if (zlen iv =? 12) || (zlen iv =? 24) then Ok (newChacha20 k iv) else Panic) as Hch.
  { intros k Hz. unfold chachaStream. by rewrite Hz. }
  destruct_or! Hin; try done; injection Hin as -> -> ->;
    try (apply aesMode_ok; [auto using ctr_inverse, cfb_inverse|lia]).
  - eexists. split; [reflexivity|]. split; [done|]. intros iv _. cbn. eexists _, _. split_and!; [done..|].
    apply rc4_inverse.
  - unfold Chacha20IETF. rewrite Hk. eexists. split; [reflexivity|]. split; [done|]. intros iv Hiv. cbn in *.
    rewrite !Hch, Hiv by done. cbn. eexists _, _. split_and!; [done..|]. apply chacha_inverse.
  - unfold Xchacha20. rewrite Hk. eexists. split; [reflexivity|]. split; [done|]. intros iv Hiv. cbn in *.
    rewrite !Hch, Hiv by done. cbn. eexists _, _. split_and!; [done..|]. apply chacha_inverse.
Qed.

Lemma aead_ok name size new key : (name, (size, new)) ∈ aeads → zlen key = size →
  ∃ c, new key = Ok c ∧ usable (AeadCipher c key).
Proof.
  intros Hin Hk. unfold aeadList in Hin. rewrite !elem_of_cons, elem_of_nil in Hin.
  destruct_or! Hin; try done; injection Hin as -> -> ->;
    unfold AESGCM, Chacha20Poly1305, XChacha20Poly1305; rewrite Hk; eexists; (split; [reflexivity|]);
    unfold usable, SaltSize, KeySize; cbn [psk]; rewrite Hk; done.
Qed.

Lemma sizes_nonneg name : (∀ size new, (name, (size, new)) ∈ streams → 0 ≤ size) ∧
  (∀ size new, (name, (size, new)) ∈ aeads → 0 ≤ size).
Proof.
  split; intros size new Hin; unfold streamList, aeadList in Hin; rewrite !elem_of_cons, elem_of_nil in Hin;
    destruct_or! Hin; try done; injection Hin as -> -> _; lia.
Qed.

(** Every cipher that is listed can be picked with a password, under its name or
    an alias in any case, and works: it decrypts what it encrypts and its
    constructors accept every vector of its size, so the panics of the key
    streams are not reached.  Any other name is refused. *)
Theorem listed_ciphers_work name password :
  let n := cipherAlias (to_upper unicode_to_upper name) in
  if decide (to_upper unicode_to_upper name = lit "DUMMY" ∨ n ∈ listed)
  then ∃ c, pick name [] password = Ok c ∧ usable c
  else ∀ key, pick name key password = Err ErrCipherNotSupported.
Proof.
  cbv zeta. unfold PickCipher. set (u := to_upper unicode_to_upper name).
  assert (cipherAlias u ∈ listed ↔ cipherAlias u ∈ aeads.*1 ∨ cipherAlias u ∈ streams.*1) as Hl.
  { unfold ListCipher, sortStrings. by rewrite merge_sort_Permutation, elem_of_app. }
  destruct (decide (u = lit "DUMMY")) as [E|Hne].
  { rewrite decide_True by auto. rewrite bool_decide_eq_true_2 by done. eexists. done. }
  rewrite bool_decide_eq_false_2 by done. rewrite (bool_decide_eq_true_2 ([] = [])) by done.
  destruct (lookupName aeads (cipherAlias u)) as [[size new]|] eqn:Ea; [|destruct (lookupName streams (cipherAlias u)) as [[size new]|] eqn:Es].
  - apply lookupName_elem in Ea. rewrite decide_True by (right; apply Hl; left; apply list_elem_of_fmap; by eexists (_, _)).
    cbv zeta. pose proof (Kdf_length password size (proj2 (sizes_nonneg _) _ _ Ea)) as Hk. rewrite Hk, Z.eqb_refl. cbn [negb].
    destruct (aead_ok _ _ _ _ Ea Hk) as (c & -> & Hc). cbn. eauto.
  - apply lookupName_elem in Es. rewrite decide_True by (right; apply Hl; right; apply list_elem_of_fmap; by eexists (_, _)).
    cbv zeta. pose proof (Kdf_length password size (proj1 (sizes_nonneg _) _ _ Es)) as Hk. rewrite Hk, Z.eqb_refl. cbn [negb].
    destruct (stream_ok _ _ _ _ Es Hk) as (c & -> & Hc). cbn. eauto.
  - rewrite decide_False; [done|]. intros [?|Hin]; [done|]. apply Hl in Hin.
    destruct Hin as [Hin|Hin]; by eapply lookupName_not_elem in Hin.
Qed.
End PickFacts.

(** ** A key stream for examples

    Byte [i] of the stream of [k] is [k + i]. *)

Fixpoint countXor (k : Z) (b : bytes) : bytes * Z :=
  match b with
  | [] => ([], k)
  | x :: b => let '(y, k') := countXor (k + 1) b in (Z.lxor x (u8 k) :: y, k')
  end.

#[global] Instance countXor_laws : KeyStream countXor.
Proof.
  constructor; [| |done].
  - intros s b. revert s. induction b as [|x b IH]; intros s; [done|]. cbn. specialize (IH (s + 1)).
    destruct (countXor (s + 1) b). cbn in *. by rewrite !zlen_cons, IH.
  - intros s a b. revert s. induction a as [|x a IH]; intros s; cbn; [by destruct (countXor s b)|].
    specialize (IH (s + 1)). rewrite IH. by destruct (countXor (s + 1) a).
Qed.

Lemma countXor_inverse k p : (countXor k (countXor k p).1).1 = p.
Proof.
  revert k. induction p as [|x p IH]; intros k; [done|]. cbn. specialize (IH (k + 1)).
  destruct (countXor (k + 1) p) as [y k']. cbn in *. destruct (countXor (k + 1) y) as [z k'']. cbn in *.
  rewrite IH, Z.lxor_assoc, Z.lxor_nilpotent, Z.lxor_0_r. done.
Qed.

Definition countCipher : Cipher Z := mkCipher 4 (λ iv, Ok (be_value iv)) (λ iv, Ok (be_value iv)).

Lemma countCipher_ok : cipherOK countXor countCipher.
Proof. split; [done|]. intros iv _. eexists _, _. split_and!; [done..|]. apply countXor_inverse. Qed.

Lemma stream_cipher_roundtrip_witness :
  ∃ sender os e c',
    sendOps countXor countCipher [1; 2; 3; 4] [SendWrite (lit "hello "); SendCopy [lit "wo"; lit "rld"]]
      (NewConn (arriving [])) = Some sender ∧
    drain (connReadE countXor countCipher) [4; 100; 3] (NewConn (arriving [concat (ncOut (sConn sender))])) = (os, e, c') ∧
    received 3 (lit "hello world") os e.
Proof.
  destruct (stream_cipher_roundtrip countXor countCipher [1; 2; 3; 4]
    [SendWrite (lit "hello "); SendCopy [lit "wo"; lit "rld"]] [4; 100; 3]) as (sender & Es & H).
  - exact countCipher_ok.
  - reflexivity.
  - discriminate.
  - repeat constructor; discriminate.
  - repeat constructor; lia.
  - destruct (H [concat (ncOut (sConn sender))]) as [(os & e & c' & E & Hr) _].
    + constructor; [|constructor]. vm_compute in Es. injection Es as <-. discriminate.
    + cbn. by rewrite app_nil_r.
    + exists sender, os, e, c'. split; [exact Es|]. split; [exact E|exact Hr].
Defined.

(** A library of that one key stream. *)
#[global] Instance countLib : CryptoLib countXor (λ _, replicate 16 0) (λ _ iv, be_value iv) (λ _ iv, be_value iv)
  (λ _ iv, be_value iv) (λ _ iv, be_value iv) (λ k, be_value k).
Proof. constructor; intros; [done|apply countXor_inverse..]. Qed.

Lemma listed_ciphers_work_witness :
  ∃ c, PickCipher (λ _, replicate 16 0) (λ _, Ok plainAEAD) (λ _, Ok plainAEAD) (λ _, Ok plainAEAD)
      (λ _ iv, be_value iv) (λ _ iv, be_value iv) (λ _ iv, be_value iv) (λ _ iv, be_value iv) (λ k, be_value k) id
      "aes-256-ctr" [] "secret" = Ok c ∧ usable countXor c.
Proof.
  exact (listed_ciphers_work countXor (λ _, replicate 16 0) (λ _, Ok plainAEAD) (λ _, Ok plainAEAD) (λ _, Ok plainAEAD)
    (λ _ iv, be_value iv) (λ _ iv, be_value iv) (λ _ iv, be_value iv) (λ _ iv, be_value iv) (λ k, be_value k) id
    "aes-256-ctr" "secret").
Defined.

(** A datagram in a slice too small for the vector: [b[c.IVSize():]] panics. *)
Example short_slice_panics :
  (packetReadFrom (A := Z) (R := pktConn Z) 4 (Unpack countXor countCipher) [0; 0]
    (mkCipherPC (mkPkt [([1; 2; 3; 4; 5], 9)] errEOF [] (λ _, None)) (λ _, Ok []) 0)).1 = None ∧
  (packetReadFrom (A := Z) (R := pktConn Z) 4 (Unpack countXor countCipher) (replicate 8 0)
    (mkCipherPC (mkPkt [([1; 2], 9)] errEOF [] (λ _, None)) (λ _, Ok []) 0)).1 =
    Some (mkPacketRead 2 (Some 9) (Some ErrShortPacket) [1; 2; 0; 0; 0; 0; 0; 0]).
Proof. vm_compute. done. Qed.
