(* ===== verification/ProxyConn.v ===== *)
(** * The connections the proxies hand out (tun2socks/proxy, tun2socks/metadata)

    Datagrams through SOCKS5 and Shadowsocks, streams and datagrams through a
    relay, and the connection of an HTTP proxy, whose handshake may have read
    ahead.  Datagrams go over any packet connection; streams over a connection
    whose bytes arrive in segments. *)

From S2P Require Import Prelude Errors Netip Pattern Stream Socks5 GfwList ShadowAEAD NetConn ShadowStream.
Local Open Scope Z_scope.

(** ** Metadata *)

Inductive network := NetTCP | NetUDP | NetOther (n : Z).

Definition NetworkString (n : network) : gostring :=
  match n with
  | NetTCP => "tcp"
  | NetUDP => "udp"
  | NetOther n => "network(" ++ itoa n ++ ")"
  end.

Record Metadata := mkMetadata {
  mdNetwork : network;
  SrcIP : Addr;
  MidIP : Addr;
  DstIP : Addr;
  SrcPort : Z;
  MidPort : Z;
  DstPort : Z;
}.

(** [netip.AddrPort.String] *)
Definition AddrPortString (a : Addr) (port : Z) : gostring :=
  match a with
  | AddrInvalid => "invalid AddrPort"
  | Addr4 _ => AddrString a ++ ":" ++ itoa port
  | Addr6 _ _ => "[" ++ AddrString a ++ "]:" ++ itoa port
  end.

Definition DestinationAddress (m : Metadata) : gostring := AddrPortString (DstIP m) (DstPort m).
Definition SourceAddress (m : Metadata) : gostring := AddrPortString (SrcIP m) (SrcPort m).

(** [TCPAddr] and [UDPAddr]: the address and port, or nil. *)
Definition mdTCPAddr (m : Metadata) : option (bytes * Z) :=
  match mdNetwork m with
  | NetTCP => if IsValid (DstIP m) then Some (AsSlice (DstIP m), DstPort m) else None
  | _ => None
  end.

Definition mdUDPAddr (m : Metadata) : option (bytes * Z) :=
  match mdNetwork m with
  | NetUDP => if IsValid (DstIP m) then Some (AsSlice (DstIP m), DstPort m) else None
  | _ => None
  end.

(** [serializeSocksAddr] *)
Definition serializeSocksAddr (m : Metadata) : bytes := SerializeAddr [] (DstIP m) (DstPort m).

(** Where a datagram goes: a session's metadata, or another address. *)
Inductive target := ToMetadata (m : Metadata) | ToAddr (a : netAddr).

Definition targetBytes (t : target) : option bytes :=
  match t with
  | ToMetadata m => Some (serializeSocksAddr m)
  | ToAddr a => ParseNetAddr a
  end.

(** ** Datagrams *)

Section Packets.
Context {A R : Type} `{!PacketConn A R}.

Definition errAddr : error := errorString "parse addr error".

(** A read that failed: no bytes, no address. *)
Definition failed (e : error) (b : bytes) : packetRead (bytes * Z) := mkPacketRead 0 None (Some e) b.

(** [socksPacketConn]: the relay's address and the inner connection. *)
Record socksPacketConn := mkSocksPC { spInner : R; spAddr : A }.

Definition socksWriteTo (b : bytes) (t : target) (pc : socksPacketConn) :
    option (Z * option error) * socksPacketConn :=
  match EncodeUDPPacket (targetBytes t) b with
  | Ok packet => let '(x, r) := WriteTo packet (spAddr pc) (spInner pc) in (x, mkSocksPC r (spAddr pc))
  | Err e => (Some (0, Some e), pc)
  | Panic => (None, pc)
  end.

(** The whole slice is decoded, not only the bytes that were read. *)
Definition socksReadFrom (b : bytes) (pc : socksPacketConn) :
    option (packetRead (bytes * Z)) * socksPacketConn :=
  match ReadFrom b (spInner pc) with
  | (None, r) => (None, mkSocksPC r (spAddr pc))
  | (Some pr, r) =>
      let b := prBuf pr in
      let out :=
        match prErr pr with
        | Some e => failed e b
        | None =>
            match DecodeUDPPacket b with
            | (Some addr, payload, None) =>
                match UDPAddr addr with
                | None => failed (errorString ("convert " ++ AddrText addr ++ " to UDPAddr is nil")) b
                | Some ua => mkPacketRead (prCount pr - zlen addr - 3) (Some ua) None (copyInto b payload)
                end
            | (_, _, Some e) => failed e b
            | (None, _, None) => failed errAddr b
            end
        end in
      (Some out, mkSocksPC r (spAddr pc))
  end.

(** [directPacketConn.WriteTo]: an address that is no [*net.UDPAddr] is resolved
    from its text. *)
Definition directPacketWriteTo (resolveUDPAddr : gostring → error + A) (b : bytes) (addr : A + gostring) (r : R) :
    option (Z * option error) * R :=
  match addr with
  | inl a => WriteTo b a r
  | inr text => match resolveUDPAddr text with inl e => (Some (0, Some e), r) | inr a => WriteTo b a r end
  end.

(** [ssPacketConn], over the packet connection of the cipher. *)
Definition ssWriteTo (b : bytes) (t : target) (pc : socksPacketConn) :
    option (Z * option error) * socksPacketConn :=
  match EncodeUDPPacket (targetBytes t) b with
  | Ok packet => let '(x, r) := WriteTo (drop 3 packet) (spAddr pc) (spInner pc) in (x, mkSocksPC r (spAddr pc))
  | Err e => (Some (0, Some e), pc)
  | Panic => (None, pc)
  end.

Definition ssReadFrom (b : bytes) (pc : socksPacketConn) :
    option (packetRead (bytes * Z)) * socksPacketConn :=
  match ReadFrom b (spInner pc) with
  | (None, r) => (None, mkSocksPC r (spAddr pc))
  | (Some pr, r) =>
      let b := prBuf pr in
      let out :=
        match prErr pr with
        | Some e => failed e b
        | None =>
            match SplitAddr (take (Z.to_nat (prCount pr)) b) with
            | None => failed errAddr b
            | Some addr =>
                match UDPAddr addr with
                | None => failed errAddr b
                | Some ua => mkPacketRead (prCount pr - zlen addr) (Some ua) None (copyInto b (drop (length addr) b))
                end
            end
        end in
      (Some out, mkSocksPC r (spAddr pc))
  end.

(** *** What arrives *)

Context (next : Z → R → bytes → A → R → Prop) `{!PacketReads next}.

Lemma UDPAddr_Serialize ip port : addr_wf ip → 0 ≤ port < 65536 →
  UDPAddr (SerializeAddr [] ip port) = Some (AsSlice ip, port).
Proof.
  intros Hip Hp. assert (destOK [] ip port) as Hd by (split; auto). unfold UDPAddr.
  rewrite (proj1 (AddrText_Serialize _ _ _ Hd)). cbn [negb].
  assert (∀ l m, uint16At (l ++ m ++ put_be16 port) (zlen l + zlen m) = port) as Hu.
  { intros l m. rewrite app_assoc, <- zlen_app, uint16At_app. rewrite <- (app_nil_r (put_be16 port)).
    by apply uint16At_put. }
  destruct (SerializeAddr_cases _ _ _ Hd) as [(Hne & _)|[(v & _ & -> & _ & ->)|(v & z & _ & -> & _ & ->)]]; [done|..].
  - pose proof (sub_app [AtypIPv4] (be_bytes 4 v) (put_be16 port)) as Es. pose proof (Hu [AtypIPv4] (be_bytes 4 v)) as Ep.
    rewrite zlen_be_bytes in Es, Ep. change (zlen [AtypIPv4] + Z.of_nat 4) with (1 + IPv4len) in Es, Ep.
    change (zlen [AtypIPv4]) with 1 in Es. cbn [app byteAt idx] in *.
    change (byteAt _ 0 =? AtypDomainName) with false. change (byteAt _ 0 =? AtypIPv4) with true. cbv iota.
    by rewrite Es, Ep.
  - pose proof (sub_app [AtypIPv6] (be_bytes 16 v) (put_be16 port)) as Es. pose proof (Hu [AtypIPv6] (be_bytes 16 v)) as Ep.
    rewrite zlen_be_bytes in Es, Ep. change (zlen [AtypIPv6] + Z.of_nat 16) with (1 + IPv6len) in Es, Ep.
    change (zlen [AtypIPv6]) with 1 in Es. cbn [app byteAt idx] in *.
    change (byteAt _ 0 =? AtypDomainName) with false. change (byteAt _ 0 =? AtypIPv4) with false.
    change (byteAt _ 0 =? AtypIPv6) with true. cbv iota. by rewrite Es, Ep.
Qed.

(** A buffer that starts with [h ++ p] and whose payload is moved to the front. *)
Lemma copy_payload (b h p rest : bytes) : b = h ++ p ++ rest →
  zlen (copyInto b (p ++ rest)) = zlen b ∧ take (length p) (copyInto b (p ++ rest)) = p.
Proof.
  intros ->. split; [apply copyInto_length|]. rewrite copyInto_fits by (rewrite !zlen_app; pose proof (zlen_nonneg h); lia).
  rewrite <- app_assoc. by rewrite take_app_length.
Qed.

Lemma take_prefix (b d : bytes) : take (length d) b = d → ∃ rest, b = d ++ rest.
Proof. intros E. exists (drop (length d) b). rewrite <- E at 1. by rewrite take_drop. Qed.

Lemma datagram_arrives b pc ip port payload from r' :
  addr_wf ip → 0 ≤ port < 65536 →
  let addr := SerializeAddr [] ip port in
  let out := λ read : option (packetRead (bytes * Z)) * socksPacketConn,
    ∃ b', read = (Some (mkPacketRead (zlen payload) (Some (AsSlice ip, port)) None b'), mkSocksPC r' (spAddr pc)) ∧
      zlen b' = zlen b ∧ take (length payload) b' = payload in
  (next (zlen b) (spInner pc) ([0; 0; 0] ++ addr ++ payload) from r' → out (socksReadFrom b pc)) ∧
  (next (zlen b) (spInner pc) (addr ++ payload) from r' → out (ssReadFrom b pc)).
Proof.
  intros Hip Hp. cbv zeta. assert (destOK [] ip port) as Hd by (split; auto). set (addr := SerializeAddr [] ip port).
  pose proof (UDPAddr_Serialize ip port Hip Hp) as Hu. fold addr in Hu.
  assert (∀ rest, SplitAddr (addr ++ rest) = Some addr) as Hs by (intros; by apply SplitAddr_Serialize).
  split; intros Hn; destruct (packet_step b _ _ from r' Hn) as (b1 & E & Hb1 & Ht); apply take_prefix in Ht as [rest Eb].
  - unfold socksReadFrom. rewrite E. cbn [prBuf prErr prCount]. rewrite <- !app_assoc in Eb.
    assert (DecodeUDPPacket b1 = (Some addr, payload ++ rest, None)) as ->.
    { assert (∃ x a, addr = x :: a ∧ 1 ≤ zlen a) as (x & a & Ea & Hz).
      { destruct (SerializeAddr_cases _ _ _ Hd) as [(? & _)|[(v & _ & _ & _ & Ea)|(v & z & _ & _ & _ & Ea)]]; [done|..];
          (eexists _, _; split; [exact Ea|]); rewrite zlen_app, zlen_be_bytes; done. }
      unfold DecodeUDPPacket. rewrite Eb. cbn [app]. rewrite !zlen_cons, !zlen_app, Ea, zlen_cons.
      pose proof (zlen_nonneg payload). pose proof (zlen_nonneg rest).
      destruct (Z.ltb_spec (zlen a + 1 + (zlen payload + zlen rest) + 1 + 1 + 1) 5); [lia|].
      rewrite <- Ea. change (drop 3 (0 :: 0 :: 0 :: addr ++ payload ++ rest)) with (addr ++ payload ++ rest).
      rewrite Hs. change (drop (3 + length addr) (0 :: 0 :: 0 :: ?l)) with (drop (length addr) l).
      pose proof (sub_app [] [0; 0] (0 :: addr ++ payload ++ rest)) as Ez. rewrite drop_app_length.
      change (sub (0 :: 0 :: 0 :: addr ++ payload ++ rest) 0 2 = [0; 0]) in Ez. by rewrite Ez. }
    rewrite Hu. exists (copyInto b1 (payload ++ rest)). rewrite <- Hb1. split.
    + do 3 f_equal. rewrite !zlen_app. change (zlen [0; 0; 0]) with 3. lia.
    + apply (copy_payload b1 ([0; 0; 0] ++ addr)). by rewrite <- app_assoc.
  - unfold ssReadFrom. rewrite E. cbn [prBuf prErr prCount].
    replace (Z.to_nat (zlen (addr ++ payload))) with (length (addr ++ payload)) by (unfold zlen; lia).
    assert (take (length (addr ++ payload)) b1 = addr ++ payload) as -> by (rewrite Eb; apply take_app_length).
    rewrite Hs, Hu. exists (copyInto b1 (payload ++ rest)). rewrite <- Hb1. split.
    + assert (drop (length addr) b1 = payload ++ rest) as ->.
      { rewrite Eb, <- app_assoc. apply drop_app_length. }
      do 3 f_equal. rewrite !zlen_app. lia.
    + apply (copy_payload b1 addr). by rewrite app_assoc.
Qed.
(** A datagram comes out of a proxy as its sender meant it.  When the next
    packet of the connection below is the header of the protocol, the address of
    the sender and a payload, the read returns the payload, its length and that
    address, in a slice that keeps its length, whatever the slice held: for
    SOCKS5 with its three leading zeros, and for Shadowsocks without them. *)
Theorem proxy_datagrams b pc ip port payload from r' :
  addr_wf ip → 0 ≤ port < 65536 →
  let addr := SerializeAddr [] ip port in
  let out := λ read : option (packetRead (bytes * Z)) * socksPacketConn,
    ∃ b', read = (Some (mkPacketRead (zlen payload) (Some (AsSlice ip, port)) None b'), mkSocksPC r' (spAddr pc)) ∧
      zlen b' = zlen b ∧ take (length payload) b' = payload in
  (next (zlen b) (spInner pc) ([0; 0; 0] ++ addr ++ payload) from r' → out (socksReadFrom b pc)) ∧
  (next (zlen b) (spInner pc) (addr ++ payload) from r' → out (ssReadFrom b pc)).
Proof. apply datagram_arrives. Qed.
End Packets.

(** A datagram that is shorter than a header is not refused when the slice still
    holds one from before: the count is negative, and no error is reported.  The
    Shadowsocks connection, which looks at what was read only, reports one. *)
Theorem socks_stale_header {A} ip port rest d (from to : A) tail e out f :
  addr_wf ip → 0 ≤ port < 65536 → zlen d ≤ 3 → Forall (λ x, x = 0) d →
  let b := [0; 0; 0] ++ SerializeAddr [] ip port ++ rest in
  let pc := mkSocksPC (mkPkt ((d, from) :: tail) e out f) to in
  (∃ b' pc', socksReadFrom b pc =
    (Some (mkPacketRead (zlen d - zlen (SerializeAddr [] ip port) - 3) (Some (AsSlice ip, port)) None b'), pc')) ∧
  (∃ pr pc', ssReadFrom b pc = (Some pr, pc') ∧ prErr pr = Some errAddr).
Proof.
  intros Hip Hp Hd H0. cbv zeta. set (addr := SerializeAddr [] ip port). pose proof (zlen_nonneg rest).
  set (b := [0; 0; 0] ++ addr ++ rest).
  assert (zlen d ≤ zlen b) as Hdb by (unfold b; rewrite !zlen_app; change (zlen [0; 0; 0]) with 3;
    pose proof (zlen_nonneg addr); lia).
  assert (copyInto b d = b) as Eb.
  { rewrite copyInto_fits by done. unfold b.
    destruct d as [|x [|y [|z [|t l]]]]; rewrite ?Forall_cons in H0; destruct_and?; subst; try done.
    rewrite !zlen_cons in Hd. pose proof (zlen_nonneg l). lia. }
  assert (∀ x, ReadFrom b (mkPkt ((x, from) :: tail) e out f) =
    (Some (mkPacketRead (Z.min (zlen x) (zlen b)) (Some from) None (copyInto b x)), mkPkt tail e out f)) as Er by done.
  split.
  - (* the same steps as for a datagram that is the whole slice *)
    destruct (datagram_arrives (pktNext (A := A)) b (mkSocksPC (mkPkt ((b, from) :: tail) e out f) to) ip port rest from
      (mkPkt tail e out f) Hip Hp) as [Hx _]. destruct Hx as (b' & E & _).
    { split; [done|]. eexists. done. }
    unfold socksReadFrom in *. cbn [spInner] in *. rewrite Er, Eb, Z.min_l by done. cbn [prBuf prErr prCount].
    rewrite Er, Z.min_l in E by done. unfold copyInto in E. rewrite firstn_all, drop_all, app_nil_r in E. cbn [prBuf prErr prCount] in E. destruct (DecodeUDPPacket b) as [[[a|] p] [er|]] eqn:Ed; try done.
    destruct (UDPAddr a) as [ua|] eqn:Eu; [|done]. injection E as En -> _. eexists _, _.
    assert (zlen a = zlen addr) as ->; [|done].
    unfold b in En. rewrite !zlen_app in En. change (zlen [0; 0; 0]) with 3 in En. lia.
  - unfold ssReadFrom. cbn [spInner]. rewrite Er, Eb, Z.min_l by done. cbn [prBuf prErr prCount]. eexists _, _. split; [reflexivity|].
    assert (SplitAddr (take (Z.to_nat (zlen d)) b) = None) as ->; [|done].
    assert (take (Z.to_nat (zlen d)) b = d) as ->.
    { rewrite <- Eb. replace (Z.to_nat (zlen d)) with (length d) by (unfold zlen; lia). by apply copyInto_take. }
    unfold SplitAddr. destruct d as [|x d]; [done|]. apply Forall_cons in H0 as [-> _].
    destruct (zlen (0 :: d) <? 1); done.
Qed.

(** ** A relay (relay.go)

    The messages of the relay protocol are those of a library: [readResponse]
    reads the version and the status of a response. *)

Record relayConn := mkRelay {
  rcConn : netConn;
  rcUDP : bool;
  rcOnce : bool;
  (** the request that is not sent yet; [None] for a nil buffer *)
  rcBuf : option bytes;
}.

Definition newRelayConn (c : netConn) (noDelay udp : bool) : relayConn :=
  mkRelay c udp false (if noDelay then None else Some []).

Section Relay.
Context (readResponse : netConn → res (Z * Z) * netConn) (Version1 StatusOK : Z) (ErrBadVersion : error).
(** What a buffer of the pool holds. *)
Context (pool : Z → bytes).

Definition readRelayResponse (c : netConn) : option error * netConn :=
  match readResponse c with
  | (Ok (version, status), c) =>
      (if negb (version =? Version1) then Some ErrBadVersion
       else if negb (status =? StatusOK) then Some (errorString ("status " ++ itoa status))
       else None, c)
  | (Err e, c) => (Some e, c)
  | (Panic, c) => (None, c)
  end.

(** A datagram: its length, and its bytes; what does not fit is dropped. *)
Definition readDatagram (len : Z) (c : netConn) : bytes * option error * netConn :=
  match netReadFull 2 c with
  | (_, Some e, c) => ([], Some e, c)
  | (bb, None, c) =>
      let dLen := uint16At bb 0 in
      if dLen <=? len then netReadFull dLen c
      else let '(b, e, c) := netReadFull dLen c in (take (Z.to_nat len) (copyInto (pool dLen) b), e, c)
  end.

(** [Read] into a slice of [len] bytes; the first one takes the response off the
    connection. *)
Definition relayRead (len : Z) (rc : relayConn) : bytes * option error * relayConn :=
  let '(e, c) := if negb (rcOnce rc) && bool_decide (rcBuf rc ≠ None)
                 then readRelayResponse (rcConn rc) else (None, rcConn rc) in
  match e with
  | Some e => ([], Some e, mkRelay c (rcUDP rc) true (rcBuf rc))
  | None =>
      let '(b, e, c) := if rcUDP rc then readDatagram len c else netRead len c in
      (b, e, mkRelay c (rcUDP rc) true (rcBuf rc))
  end.

Definition pending (rc : relayConn) : bytes := default [] (rcBuf rc).

(** The buffer is empty afterwards, also when the write failed. *)
Definition tcpWrite (b : bytes) (rc : relayConn) : Z * option error * relayConn :=
  if bool_decide (pending rc = []) then
    let '(e, c) := netWrite b (rcConn rc) in
    (if e then 0 else zlen b, e, mkRelay c (rcUDP rc) (rcOnce rc) (rcBuf rc))
  else
    let '(e, c) := netWrite (pending rc ++ b) (rcConn rc) in
    (zlen b, e, mkRelay c (rcUDP rc) (rcOnce rc) (Some [])).

Definition errMaximum : error := errorString "write: data maximum exceeded".

(** The buffer keeps what could not be written. *)
Definition udpWrite (b : bytes) (rc : relayConn) : Z * option error * relayConn :=
  if 65535 <? zlen b then (0, Some errMaximum, rc)
  else if bool_decide (pending rc = []) then
    match netWrite (put_be16 (zlen b)) (rcConn rc) with
    | (Some e, c) => (zlen b, Some e, mkRelay c (rcUDP rc) (rcOnce rc) (rcBuf rc))
    | (None, c) =>
        let '(e, c) := netWrite b c in
        (if e then 0 else zlen b, e, mkRelay c (rcUDP rc) (rcOnce rc) (rcBuf rc))
    end
  else
    let data := pending rc ++ put_be16 (zlen b) ++ b in
    let '(e, c) := netWrite data (rcConn rc) in
    (zlen b, e, mkRelay c (rcUDP rc) (rcOnce rc) (Some (if e then data else []))).

Definition relayWrite (b : bytes) (rc : relayConn) : Z * option error * relayConn :=
  if rcUDP rc then udpWrite b rc else tcpWrite b rc.

Fixpoint relayWrites (ps : list bytes) (rc : relayConn) : option relayConn :=
  match ps with
  | [] => Some rc
  | p :: ps =>
      match relayWrite p rc with
      | (n, None, rc) => if n =? zlen p then relayWrites ps rc else None
      | _ => None
      end
  end.

(** *** What goes over the wire *)

Definition datagram (p : bytes) : bytes := put_be16 (zlen p) ++ p.

(** What is sent and what is still kept back. *)
Definition sentAndPending (rc : relayConn) : bytes := concat (ncOut (rcConn rc)) ++ pending rc.

Lemma netWrite_out b c : quietWrites c →
  ∃ c', netWrite b c = (None, c') ∧ concat (ncOut c') = concat (ncOut c) ++ b ∧ quietWrites c'.
Proof.
  intros Hq. eexists. rewrite netWrite_quiet by done. split; [reflexivity|]. cbn. rewrite concat_app. cbn.
  by rewrite app_nil_r.
Qed.

Lemma relayWrite_sends p rc :
  quietWrites (rcConn rc) → (rcUDP rc = true → zlen p < 65536) →
  ∃ rc', relayWrite p rc = (zlen p, None, rc') ∧ rcUDP rc' = rcUDP rc ∧ quietWrites (rcConn rc') ∧ pending rc' = [] ∧
    concat (ncOut (rcConn rc')) = sentAndPending rc ++ (if rcUDP rc then datagram p else p).
Proof.
  intros Hq Hp. unfold relayWrite, udpWrite, tcpWrite, sentAndPending, datagram. pose proof (zlen_nonneg p).
  destruct (rcUDP rc) eqn:Eu; [destruct (Z.ltb_spec 65535 (zlen p)); [specialize (Hp eq_refl); lia|]|];
    case_bool_decide as E; rewrite ?E.
  - destruct (netWrite_out (put_be16 (zlen p)) (rcConn rc) Hq) as (c1 & -> & E1 & Hq1).
    destruct (netWrite_out p c1 Hq1) as (c2 & -> & E2 & Hq2). eexists. split; [reflexivity|]. cbn [rcConn rcUDP rcBuf].
    rewrite E2, E1, app_nil_r, app_assoc. done.
  - destruct (netWrite_out (pending rc ++ put_be16 (zlen p) ++ p) (rcConn rc) Hq) as (c1 & -> & E1 & Hq1).
    eexists. split; [reflexivity|]. cbn [rcConn rcUDP rcBuf]. by rewrite E1, <- app_assoc.
  - destruct (netWrite_out p (rcConn rc) Hq) as (c1 & -> & E1 & Hq1). eexists. split; [reflexivity|].
    cbn [rcConn rcUDP rcBuf]. by rewrite E1, app_nil_r.
  - destruct (netWrite_out (pending rc ++ p) (rcConn rc) Hq) as (c1 & -> & E1 & Hq1).
    eexists. split; [reflexivity|]. cbn [rcConn rcUDP rcBuf]. by rewrite E1, <- app_assoc.
Qed.

Lemma relayWrites_sends ps rc :
  quietWrites (rcConn rc) → (rcUDP rc = true → Forall (λ p, zlen p < 65536) ps) → ps ≠ [] →
  ∃ rc', relayWrites ps rc = Some rc' ∧
    concat (ncOut (rcConn rc')) = sentAndPending rc ++ concat (if rcUDP rc then datagram <$> ps else ps).
Proof.
  revert rc. induction ps as [|p ps IH]; intros rc Hq Hp Hne; [done|]. cbn [relayWrites].
  destruct (relayWrite_sends p rc Hq) as (rc1 & -> & Eu & Hq1 & Hb1 & E1).
  { intros Hu. by apply Hp, Forall_cons in Hu as [? _]. }
  rewrite Z.eqb_refl. assert (concat (if rcUDP rc then datagram <$> p :: ps else p :: ps) =
    (if rcUDP rc then datagram p else p) ++ concat (if rcUDP rc then datagram <$> ps else ps)) as ->.
  { by destruct (rcUDP rc). }
  destruct ps as [|q ps].
  { exists rc1. split; [done|]. rewrite E1. destruct (rcUDP rc); cbn; by rewrite app_nil_r. }
  destruct (IH rc1 Hq1) as (rc2 & E & E2); [|done|].
  { rewrite Eu. intros Hu. by apply Hp, Forall_cons in Hu as [_ ?]. }
  exists rc2. split; [done|]. rewrite E2, Eu. unfold sentAndPending at 1. by rewrite Hb1, app_nil_r, E1, <- app_assoc.
Qed.

Lemma readDatagram_one len c p rest : 0 ≤ len → zlen p < 65536 → willRead c (datagram p ++ rest) →
  (∀ n, zlen (pool n) = n) →
  ∃ c', readDatagram len c = (take (Z.to_nat len) p, None, c') ∧ willRead c' rest ∧ ncOut c' = ncOut c.
Proof.
  intros Hlen Hp Hw Hpool. unfold datagram in Hw. rewrite <- app_assoc in Hw. unfold readDatagram.
  destruct (netReadFull_app 2 c (put_be16 (zlen p)) (p ++ rest) eq_refl Hw) as (c1 & -> & Hw1 & Ho1 & _).
  pose proof (zlen_nonneg p). rewrite <- (app_nil_r (put_be16 (zlen p))), uint16At_put by lia. cbv zeta.
  destruct (netReadFull_app (zlen p) c1 p rest eq_refl Hw1) as (c2 & -> & Hw2 & Ho2 & _). exists c2.
  split; [|by rewrite Ho2].
  destruct (Z.leb_spec (zlen p) len).
  - rewrite take_ge by (unfold zlen in *; lia). done.
  - rewrite copyInto_fits by (by rewrite Hpool). rewrite drop_ge, app_nil_r; [done|].
    specialize (Hpool (zlen p)). unfold zlen in *. lia.
Qed.

Lemma relay_drain lens ps c buf : length lens = length ps → Forall (λ len, 0 ≤ len) lens →
  Forall (λ p, zlen p < 65536) ps → willRead c (concat (datagram <$> ps)) → (∀ n, zlen (pool n) = n) →
  ∃ rc', drain relayRead lens (mkRelay c true true buf) = (zip_with (λ len p, take (Z.to_nat len) p) lens ps, None, rc').
Proof.
  intros Hl HL HP Hw Hpool. revert ps c Hl HP Hw. induction HL as [|len lens Hlen HL IH]; intros ps c Hl HP Hw;
    destruct ps as [|p ps]; try done.
  { by eexists. }
  apply Forall_cons in HP as [Hp HP]. cbn [fmap list_fmap concat] in Hw.
  destruct (readDatagram_one len c p _ Hlen Hp Hw Hpool) as (c1 & E & Hw1 & _).
  cbn [drain]. unfold relayRead at 1. cbn [rcOnce rcUDP rcConn rcBuf negb andb]. rewrite E.
  destruct (IH ps c1) as (rc' & E'); [by injection Hl|done|done|]. exists rc'. by rewrite E'.
Qed.

(** Datagrams through a relay keep their boundaries: the request that was kept
    back goes out before the first of them, and the other end, however the bytes
    are cut on their way, reads one datagram per call, cut to the slice it reads
    into, and never loses its place. *)
Theorem relay_datagrams req ps lens c0 :
  ps ≠ [] → Forall (λ p, zlen p < 65536) ps → length lens = length ps → Forall (λ len, 0 ≤ len) lens →
  (∀ n, zlen (pool n) = n) → quietWrites c0 → ncOut c0 = [] →
  ∃ rc' wire, relayWrites ps (mkRelay c0 true false (Some req)) = Some rc' ∧
    concat (ncOut (rcConn rc')) = req ++ wire ∧
    ∀ c, willRead c wire → ∃ rc'',
      drain relayRead lens (mkRelay c true true None) = (zip_with (λ len p, take (Z.to_nat len) p) lens ps, None, rc'').
Proof.
  intros Hne HP Hl HL Hpool Hq Ho.
  destruct (relayWrites_sends ps (mkRelay c0 true false (Some req)) Hq) as (rc' & E & Eo); [done|done|].
  exists rc', (concat (datagram <$> ps)). split; [exact E|]. split.
  - rewrite Eo. unfold sentAndPending. cbn [rcConn rcUDP pending rcBuf]. by rewrite Ho.
  - intros c Hw. by apply relay_drain.
Qed.
End Relay.

(** ** An HTTP proxy (http.go)

    The reader of the handshake reads ahead.  [parse] is [http.ReadResponse] on
    what was read so far: nothing yet, or the status code and text with the
    number of bytes of the head; [room] is how much the reader asks for. *)

Section HTTPProxy.
Context (parse : bytes → option (res (Z * gostring) * nat)) (room : bytes → Z).
Context (cleanHost : gostring → gostring).

Record bufferedConn := mkBuffered { bcBuf : bytes; bcConn : netConn }.

Definition bufioSize : Z := 4096.

Fixpoint readResponse (fuel : nat) (b : bufferedConn) : res (Z * gostring) * bufferedConn :=
  match parse (bcBuf b) with
  | Some (r, k) => (r, mkBuffered (drop k (bcBuf b)) (bcConn b))
  | None =>
      match fuel with
      | O => (Err errUnexpectedEOF, b)
      | S fuel =>
          match netRead (room (bcBuf b)) (bcConn b) with
          | (_, Some e, c) => (Err (if isEOF e then errUnexpectedEOF else e), mkBuffered (bcBuf b) c)
          | (d, None, c) => readResponse fuel (mkBuffered (bcBuf b ++ d) c)
          end
      end
  end.

(** [basicAuth] *)
Definition basicAuth (username password : gostring) : gostring := stdEncode (username ++ ":" ++ password).

(** [Request.Write] of the request the code builds; the headers are sorted. *)
Definition connectText (user pass addr : gostring) : bytes :=
  let crlf : bytes := [13; 10] in
  "CONNECT " ++ cleanHost addr ++ " HTTP/1.1" ++ crlf ++
  "Host: " ++ cleanHost addr ++ crlf ++
  "User-Agent: Go-http-client/1.1" ++ crlf ++
  (if negb (bool_decide (user = [])) && negb (bool_decide (pass = []))
   then "Proxy-Authorization: Basic " ++ basicAuth user pass ++ crlf else []) ++
  "Proxy-Connection: Keep-Alive" ++ crlf ++ crlf.

Definition shakeHand (user pass : gostring) (m : Metadata) (b : bufferedConn) : res unit * bufferedConn :=
  let '(e, c) := netWrite (connectText user pass (DestinationAddress m)) (bcConn b) in
  match e with
  | Some e => (Err e, mkBuffered (bcBuf b) c)
  | None =>
      let fuel := S (length (ncSegs c) + length (concat (ncSegs c))) in
      match readResponse fuel (mkBuffered (bcBuf b) c) with
      | (Ok (code, status), b) =>
          (if code =? 200 then Ok tt
           else if code =? 407 then fail "HTTP auth required by proxy"
           else if code =? 405 then fail "CONNECT method not allowed by proxy"
           else Err (errorString ("HTTP connect status: " ++ status)), b)
      | (Err e, b) => (Err e, b)
      | (Panic, b) => (Panic, b)
      end
  end.

(** [bufferedConn.Read], and a plain read when nothing was left over: in both
    cases the buffer is drained before the connection is read. *)
Definition bufRead (len : Z) (b : bufferedConn) : bytes * option error * bufferedConn :=
  match bcBuf b with
  | [] =>
      if bufioSize <=? len then
        let '(d, e, c) := netRead len (bcConn b) in (d, e, mkBuffered [] c)
      else
        let '(d, e, c) := netRead bufioSize (bcConn b) in
        (take (Z.to_nat len) d, e, mkBuffered (drop (Z.to_nat len) d) c)
  | d => (take (Z.to_nat len) d, None, mkBuffered (drop (Z.to_nat len) d) (bcConn b))
  end.

(** The connection [DialContext] returns: the buffer only stays when it holds
    something. *)
Inductive httpConn := PlainConn (c : netConn) | BufferedConn (b : bufferedConn).

Definition handOver (b : bufferedConn) : httpConn :=
  if 0 <? zlen (bcBuf b) then BufferedConn b else PlainConn (bcConn b).

Definition httpRead (len : Z) (h : httpConn) : bytes * option error * httpConn :=
  match h with
  | PlainConn c => let '(d, e, c) := netRead len c in (d, e, PlainConn c)
  | BufferedConn b => let '(d, e, b) := bufRead len b in (d, e, BufferedConn b)
  end.

(** *** Nothing that was read ahead is lost *)

Definition bufDelivers (b : bufferedConn) (rem : bytes) : Prop :=
  ∃ rest, rem = bcBuf b ++ rest ∧ willRead (bcConn b) rest.

Definition httpDelivers (h : httpConn) (rem : bytes) : Prop :=
  match h with PlainConn c => willRead c rem | BufferedConn b => bufDelivers b rem end.

Lemma take_pos_ne (l : bytes) n : 1 ≤ n → l ≠ [] → take (Z.to_nat n) l ≠ [].
Proof. intros Hn Hl. destruct l; [done|]. destruct (Z.to_nat n) eqn:E; [lia|done]. Qed.

#[local] Instance bufRead_Reads : Reads (λ len, 1 ≤ len) bufRead bufDelivers.
Proof.
  intros len [d c] rem Hlen (rest & -> & Hw). cbn [bcBuf bcConn] in *. unfold bufRead. cbn [bcBuf bcConn].
  destruct d as [|x d].
  - cbn [app]. destruct (decide (rest = [])) as [->|Hne].
    { left. split; [done|]. destruct (bufioSize <=? len); rewrite netRead_end by done; [by eexists|].
      rewrite take_nil. by eexists. }
    right. destruct (Z.leb_spec bufioSize len).
    + destruct (netRead_some len c rest Hlen Hw Hne) as (b & r & c' & -> & Hb & _ & -> & Hw' & _).
      eexists _, _, _. split; [reflexivity|]. split_and!; [done|done|]. by exists r.
    + destruct (netRead_some bufioSize c rest ltac:(done) Hw Hne) as (b & r & c' & -> & Hb & _ & -> & Hw' & _).
      eexists _, (drop (Z.to_nat len) b ++ r), _. split; [reflexivity|]. split; [by apply take_pos_ne|].
      split; [by rewrite app_assoc, take_drop|]. by exists r.
  - right. eexists _, (drop (Z.to_nat len) (x :: d) ++ rest), _. split; [reflexivity|].
    split; [by apply take_pos_ne|]. split; [by rewrite app_assoc, take_drop|]. by exists rest.
Qed.

#[local] Instance httpRead_Reads : Reads (λ len, 1 ≤ len) httpRead httpDelivers.
Proof.
  intros len [c|b] rem Hlen Hd; unfold httpRead.
  - destruct (reads_step len c rem Hlen Hd) as [(-> & c' & ->)|(o & rem' & c' & -> & Ho & -> & Hd')].
    + left. split; [done|by eexists].
    + right. by eexists _, _, _.
  - destruct (reads_step (Reads := bufRead_Reads) len b rem Hlen Hd) as [(-> & c' & ->)|(o & rem' & c' & -> & Ho & -> & Hd')].
    + left. split; [done|by eexists].
    + right. by eexists _, _, _.
Qed.

(** The head of a response: it is recognised when it is complete, not before. *)
Definition isHead (head : bytes) (r : Z * gostring) : Prop :=
  ∀ b payload, b `prefix_of` head ++ payload →
    parse b = if (length b <? length head)%nat then None else Some (Ok r, length head).

Lemma readResponse_head fuel head r payload c done_ :
  isHead head r → (∀ b, 1 ≤ room b) → (length (ncSegs c) + length (concat (ncSegs c)) < fuel)%nat →
  ∀ rest, willRead c rest → done_ ++ rest = head ++ payload →
  ∃ b, readResponse fuel (mkBuffered done_ c) = (Ok r, b) ∧ bufDelivers b payload.
Proof.
  intros Hh Hroom. revert c done_. induction fuel as [|fuel IH]; intros c done_ Hf rest Hw E; [lia|].
  cbn [readResponse bcBuf]. rewrite (Hh done_ payload) by (by exists rest).
  destruct (Nat.ltb_spec (length done_) (length head)) as [Hlt|Hge].
  - assert (rest ≠ []) as Hne.
    { intros ->. apply (f_equal length) in E. rewrite !length_app in E. cbn in E. lia. }
    destruct (netRead_some (room done_) c rest (Hroom _) Hw Hne) as (d & rest' & c' & Ed & Hd & _ & -> & Hw' & _ & _ & _ & Hs).
    cbn [bcConn]. rewrite Ed. apply (IH _ _) with (rest := rest'); [|done|by rewrite <- app_assoc].
    destruct Hw as (_ & Hc & _), Hw' as (_ & Hc' & _). rewrite Hc in Hf. rewrite Hc'. rewrite length_app in Hf.
    destruct d; [done|]. cbn [length] in Hf. lia.
  - eexists. split; [reflexivity|]. exists rest. cbn [bcBuf bcConn]. split; [|done].
    rewrite <- (drop_app_le _ _ _ Hge), E. by rewrite drop_app_length.
Qed.

(** An HTTP proxy's tunnel loses nothing.  The request of the handshake is one
    write; when the proxy answers with a complete head of status 200 followed by
    data, however all of it is cut on its way and however much the handshake
    read ahead, the handshake succeeds and the connection that is handed over
    delivers exactly the data. *)
Theorem http_connect_keeps_payload user pass m head status payload segs lens :
  isHead head (200, status) → (∀ b, 1 ≤ room b) → segsOK segs → concat segs = head ++ payload →
  Forall (λ len, 1 ≤ len) lens →
  ∃ b os e h', shakeHand user pass m (mkBuffered [] (mkNet segs errEOF [] (λ _, None))) = (Ok tt, b) ∧
    drain httpRead lens (handOver b) = (os, e, h') ∧ received (length lens) payload os e.
Proof.
  intros Hh Hroom Hs Hc HL. unfold shakeHand. cbn [bcConn bcBuf]. rewrite netWrite_quiet by done.
  destruct (readResponse_head (S (length segs + length (concat segs))) head (200, status) payload
    (mkNet segs errEOF [connectText user pass (DestinationAddress m)] (λ _, None)) [] Hh Hroom) with (rest := head ++ payload)
    as (b & E & Hd); [cbn; lia|done|done|].
  cbn [ncSegs ncEnd ncOut ncFail app]. rewrite E. cbn [Z.eqb Pos.eqb].
  destruct (drain_delivers httpRead _ httpDelivers lens (handOver b) payload HL) as (os & e & h' & Ed & Hr).
  - unfold handOver. destruct (Z.ltb_spec 0 (zlen (bcBuf b))) as [|Hz]; [done|]. destruct Hd as (rest & -> & Hw).
    destruct (bcBuf b); [done|]. rewrite zlen_cons in Hz. pose proof (zlen_nonneg l). lia.
  - by exists b, os, e, h'.
Qed.
End HTTPProxy.

(** ** On concrete data *)

Definition demoHead : bytes := "HTTP/1.1 200 OK" ++ [13; 10; 13; 10].
Definition demoParse (b : bytes) : option (res (Z * gostring) * nat) :=
  if (length b <? length demoHead)%nat then None else Some (Ok (200, lit "200 OK"), length demoHead).
Definition demoMeta : Metadata := mkMetadata NetTCP (Addr4 0x0a000001) (Addr4 0x0a000001) (Addr4 0x08080808) 40000 0 443.

Lemma http_connect_keeps_payload_witness :
  ∃ b os e h', shakeHand demoParse (λ _, 4096) id "u" "p" demoMeta
      (mkBuffered [] (mkNet [take 5 demoHead; drop 5 demoHead ++ lit "hel"; lit "lo"] errEOF [] (λ _, None))) = (Ok tt, b) ∧
    drain httpRead [2; 10; 10] (handOver b) = (os, e, h') ∧ received 3 (lit "hello") os e.
Proof.
  apply (http_connect_keeps_payload demoParse (λ _, 4096) id "u" "p" demoMeta demoHead "200 OK" "hello"
    [take 5 demoHead; drop 5 demoHead ++ lit "hel"; lit "lo"] [2; 10; 10]).
  - intros b payload _. reflexivity.
  - intros _. lia.
  - repeat constructor; discriminate.
  - reflexivity.
  - repeat constructor; lia.
Defined.

(** A Shadowsocks datagram, encrypted with the key stream of the examples. *)
Lemma proxy_datagrams_witness :
  ∃ b' r', ssReadFrom (PacketConn0 := cipherPC_ops 4 (Pack countXor countCipher) (Unpack countXor countCipher)) (replicate 64 7)
    (mkSocksPC (mkCipherPC (mkPkt [([0; 0; 0; 9] ++ (countXor 9 (SerializeAddr [] (Addr4 0x08080808) 53 ++ lit "reply")).1, 1)]
       errEOF [] (λ _, None)) (λ _, Ok []) 0) 1) =
    (Some (mkPacketRead 5 (Some ([8; 8; 8; 8], 53)) None b'), mkSocksPC r' 1) ∧ take 5 b' = lit "reply".
Proof.
  destruct (proxy_datagrams (PacketConn0 := cipherPC_ops 4 (Pack countXor countCipher) (Unpack countXor countCipher))
    (cipherNext pktNext 4 (Unpack countXor countCipher))
    (PacketReads0 := cipherPC_reads pktNext 4 (Pack countXor countCipher) (Unpack countXor countCipher))
    (replicate 64 7)
    (mkSocksPC (mkCipherPC (mkPkt [([0; 0; 0; 9] ++ (countXor 9 (SerializeAddr [] (Addr4 0x08080808) 53 ++ lit "reply")).1, 1)]
       errEOF [] (λ _, None)) (λ _, Ok []) 0) 1)
    (Addr4 0x08080808) 53 (lit "reply") 1
    (mkCipherPC (mkPkt [] errEOF [] (λ _, None)) (λ _, Ok []) 0)) as [_ H].
  - by_decide.
  - lia.
  - destruct H as (b' & E & _ & Ht).
    + eexists _, _. split_and!; [split; [|eexists; split; reflexivity]|reflexivity|lia|vm_compute; discriminate|reflexivity|].
      all: vm_compute; discriminate.
    + exists b', (mkCipherPC (mkPkt [] errEOF [] (λ _, None)) (λ _, Ok []) 0). split; [exact E|exact Ht].
Defined.
