(* ===== verification/TunProxy.v ===== *)
(** * The proxies of tun2socks (tun2socks/proxy)

    How each proxy dials: which connections it opens, what it says on them, and
    which of them are open when it returns.  The operating system's part is a
    parameter: what a dial gives, whether a packet socket can be had, and how a
    UDP address resolves.  Connections are numbered in the order they are opened,
    packet sockets too; a connection's contents are those of [netConn].  Setting
    the keep-alive options has no effect here. *)

From S2P Require Import Prelude Errors Netip Pattern Stream Socks5 Socks4 GfwList ShadowAEAD SimpleObfs NetConn ShadowStream ProxyConn.
Local Open Scope Z_scope.

Record world := mkWorld {
  wTCP : list netConn;
  wUDP : nat;
  wClosedT : gset nat;
  wClosedU : gset nat;
  (** pairs of a TCP connection and the packet socket that ends with it *)
  wWatch : list (nat * nat);
}.

Abbreviation dM := (stM world).

(** ** Proxies *)

Inductive Proto := Direct | Reject | HTTP | Socks4 | Socks5 | Shadowsocks | Relay | OtherProto (n : Z).

Definition ProtoString (p : Proto) : gostring :=
  match p with
  | Direct => "direct"
  | Reject => "reject"
  | HTTP => "http"
  | Socks4 => "socks4"
  | Socks5 => "socks5"
  | Shadowsocks => "ss"
  | Relay => "relay"
  | OtherProto n => "proto(" ++ itoa n ++ ")"
  end.

Inductive proxy (KS : Type) :=
| PBase (addr : gostring) (proto : Proto)
| PDirect
| PReject
| PHTTP (addr user pass : gostring)
| PSocks4 (addr userID : gostring)
| PSocks5 (addr user pass : gostring) (unix : bool)
| PShadowsocks (addr : gostring) (cipher : coreCipher KS) (obfsMode obfsHost : gostring)
| PRelay (addr user pass : gostring) (noDelay : bool).
Arguments PBase {KS}.
Arguments PDirect {KS}.
Arguments PReject {KS}.
Arguments PHTTP {KS}.
Arguments PSocks4 {KS}.
Arguments PSocks5 {KS}.
Arguments PShadowsocks {KS}.
Arguments PRelay {KS}.

Definition proxyAddr {KS} (p : proxy KS) : gostring :=
  match p with
  | PDirect | PReject => []
  | PBase a _ | PHTTP a _ _ | PSocks4 a _ | PSocks5 a _ _ _ | PShadowsocks a _ _ _ | PRelay a _ _ _ => a
  end.

Definition proxyProto {KS} (p : proxy KS) : Proto :=
  match p with
  | PBase _ pr => pr
  | PDirect => Direct
  | PReject => Reject
  | PHTTP _ _ _ => HTTP
  | PSocks4 _ _ => Socks4
  | PSocks5 _ _ _ _ => Socks5
  | PShadowsocks _ _ _ _ => Shadowsocks
  | PRelay _ _ _ _ => Relay
  end.

(** [NewSocks5]: an address with a leading slash is a socket in the file system;
    the slash before an abstract name is dropped. *)
Definition NewSocks5 {KS} (addr user pass : gostring) : proxy KS :=
  let unix := bool_decide (head addr = Some 47) in
  let addr := if (2 <? zlen addr) && ((byteAt addr 1 =? 64) || (byteAt addr 1 =? 0)) then drop 1 addr else addr in
  PSocks5 addr user pass unix.

(** ** What a dial returns *)

Inductive conn :=
| CNop
| CPlain (h : nat)
| CBuffered (h : nat) (buf : bytes)
| CShadow (h : nat)
| CRelay (h : nat) (udp : bool) (wbuf : option bytes).

Definition connHandle (c : conn) : option nat :=
  match c with
  | CNop => None
  | CPlain h | CBuffered h _ | CShadow h | CRelay h _ _ => Some h
  end.

Inductive packetConn :=
| UNop
| UDirect (u : nat)
| USocks (u h : nat) (rAddr : bytes * Z)
| UShadow (u : nat) (rAddr : bytes * Z)
| URelay (h : nat) (wbuf : option bytes).

(** The connections and packet sockets a packet connection stands on. *)
Definition packetTCP (pc : packetConn) : option nat :=
  match pc with USocks _ h _ | URelay h _ => Some h | _ => None end.
Definition packetUDP (pc : packetConn) : option nat :=
  match pc with UDirect u | USocks u _ _ | UShadow u _ => Some u | _ => None end.

(** ** Protocol code on a connection

    The handshakes read exact numbers of bytes, so how the bytes are cut does not
    matter to them; the end of a connection is the error it ends with. *)

Fixpoint dropSegs (k : nat) (segs : list bytes) : list bytes :=
  match segs with
  | [] => []
  | s :: segs => if (length s <=? k)%nat then dropSegs (k - length s) segs else drop k s :: segs
  end.

Definition endError (c : netConn) (e : error) : error :=
  match e with
  | errorString t =>
      if (bool_decide (t = lit "EOF") || bool_decide (t = lit "unexpected EOF")) && negb (isEOF (ncEnd c))
      then ncEnd c else e
  | _ => e
  end.

Definition toNet {A} (m : ioM A) (c : netConn) : res A * netConn :=
  let '(r, s) := m (mkStream (concat (ncSegs c)) (ncOut c) (ncFail c)) in
  (match r with Err e => Err (endError c e) | r => r end,
   mkNet (dropSegs (length (concat (ncSegs c)) - length (input s)) (ncSegs c)) (ncEnd c) (output s) (ncFail c)).

(** ** Dialling *)

Section Dial.
Context {KS : Type}.
Context (dial : world → gostring → gostring → netConn + error).
Context (listen : world → option error).
Context (resolveUDP : gostring → (bytes * Z) + error).

Definition closeT (h : nat) (w : world) : world :=
  mkWorld (wTCP w) (wUDP w) ({[h]} ∪ wClosedT w) (wClosedU w) (wWatch w).
Definition closeU (u : nat) (w : world) : world :=
  mkWorld (wTCP w) (wUDP w) (wClosedT w) ({[u]} ∪ wClosedU w) (wWatch w).

(** [dialer.DialContext] *)
Definition dialTCP (network addr : gostring) : dM nat := λ w,
  match dial w network addr with
  | inl c => (Ok (length (wTCP w)), mkWorld (wTCP w ++ [c]) (wUDP w) (wClosedT w) (wClosedU w) (wWatch w))
  | inr e => (Err e, w)
  end.

(** [fmt.Errorf("connect to %s: %w")] *)
Definition connectTo (network addr : gostring) : dM nat := λ w,
  match dialTCP network addr w with
  | (Err e, w) => (Err (wrapError ("connect to " ++ addr ++ ": ") e), w)
  | r => r
  end.

(** [dialer.ListenPacket] *)
Definition listenPacket : dM nat := λ w,
  match listen w with
  | None => (Ok (wUDP w), mkWorld (wTCP w) (S (wUDP w)) (wClosedT w) (wClosedU w) (wWatch w))
  | Some e => (Err e, w)
  end.

Definition onTCP {A} (h : nat) (f : netConn → res A * netConn) : dM A := λ w,
  match wTCP w !! h with
  | None => (Panic, w)
  | Some c =>
      let '(r, c) := f c in
      (r, mkWorld (<[h := c]> (wTCP w)) (wUDP w) (wClosedT w) (wClosedU w) (wWatch w))
  end.

(** The deferred [safeConnClose]. *)
Definition deferClose {A} (h : nat) (m : dM A) : dM A := λ w,
  match m w with
  | (Err e, w) => (Err e, closeT h w)
  | r => r
  end.

Definition wrapS {A} (text : gostring) (m : dM A) : dM A := λ w,
  match m w with
  | (Err e, w) => (Err (wrapError text e), w)
  | r => r
  end.

Definition ErrUnsupported : error := errorString "unsupported operation".

Definition userOf (user pass : gostring) : option User :=
  if bool_decide (user = []) then None else Some (mkUser user pass).

(** *** HTTP *)

Context (parse : bytes → option (res (Z * gostring) * nat)) (room : bytes → Z) (cleanHost : gostring → gostring).

Definition httpHandshake (user pass : gostring) (m : Metadata) (c : netConn) : res bytes * netConn :=
  let '(r, b) := shakeHand parse room cleanHost user pass m (mkBuffered [] c) in
  (match r with Ok _ => Ok (bcBuf b) | Err e => Err e | Panic => Panic end, bcConn b).

(** *** Shadowsocks *)

Context (XORKeyStream : KS → bytes → bytes * KS).
Context (hkdfSHA1 : bytes → bytes → gostring → Z → bytes) (rnd : res bytes).
Context (validHost : gostring → bool) (helloE : TLS.helloEnv) (requestE : HTTP.requestEnv).

(** The writes that the cipher's connection makes for its first [Write]. *)
Definition cipherWrites (ciph : coreCipher KS) (b : bytes) : res (list bytes) :=
  match ciph with
  | Dummy => Ok [b]
  | AeadCipher c _ =>
      match ShadowAEAD.connWrite hkdfSHA1 c rnd b (ShadowAEAD.NewConn (quietStream [] [])) with
      | (Ok (_, None), c) => Ok (output (cStream c))
      | (Ok (_, Some e), _) | (Err e, _) => Err e
      | (Panic, _) => Panic
      end
  | StreamCipher c _ =>
      match ShadowStream.connWrite XORKeyStream c rnd b (ShadowStream.NewConn (arriving [])) with
      | (Ok (_, None), c) => Ok (ncOut (sConn c))
      | (Ok (_, Some e), _) | (Err e, _) => Err e
      | (Panic, _) => Panic
      end
  end.

(** The layer below takes them one by one, up to its first error. *)
Fixpoint writeEach {C} (write : bytes → C → option error * C) (outs : list bytes) (c : C) : res unit * C :=
  match outs with
  | [] => (Ok tt, c)
  | b :: outs =>
      match write b c with
      | (None, c) => writeEach write outs c
      | (Some e, c) => (Err e, c)
      end
  end.

Definition tlsWrite (b : bytes) (t : TLS.TLSObfs) : option error * TLS.TLSObfs :=
  let '(_, e, t) := TLS.Write helloE b t in (e, t).
Definition httpObfsWrite (b : bytes) (t : HTTP.HTTPObfs) : option error * HTTP.HTTPObfs :=
  let '(_, e, t) := HTTP.Write validHost cleanHost requestE b t in (e, t).

(** From the dialled connection to the first write on all the layers. *)
Definition shadowOpen (addr : gostring) (ciph : coreCipher KS) (mode host : gostring) (m : Metadata) (c : netConn) :
    res unit * netConn :=
  let send {C} (write : bytes → C → option error * C) (base : C → netConn) (t : C) :=
    match cipherWrites ciph (serializeSocksAddr m) with
    | Ok outs => let '(r, t) := writeEach write outs t in (r, base t)
    | Err e => (Err e, base t)
    | Panic => (Panic, base t)
    end in
  if bool_decide (mode = lit "tls") then send tlsWrite TLS.conn (TLS.NewTLSObfs c host)
  else if bool_decide (mode = lit "http") then
    match SplitHostPort addr with
    | Ok (_, port) =>
        match HTTP.NewHTTPObfs validHost c host port with
        | Ok t => send httpObfsWrite HTTP.conn t
        | Err e => (Err e, c)
        | Panic => (Panic, c)
        end
    | Err e => (Err (wrapError ("split host port " ++ addr ++ ": ") e), c)
    | Panic => (Panic, c)
    end
  else send netWrite id c.

(** *** Relay *)

(** The request of the relay library. *)
Inductive feature := FNetworkUDP | FUserAuth (user pass : gostring) | FAddr (v4 : bool) (host : gostring) (port : Z).
Record relayRequest := mkRelayRequest { rrUDP : bool; rrFeatures : list feature }.

Context (encodeRequest : relayRequest → bytes + error).
Context (readRelay : netConn → res (Z * Z) * netConn) (Version1 StatusOK : Z) (ErrBadVersion : error).

Definition serializeRelayAddr (m : Metadata) : feature := FAddr (Is4 (DstIP m)) (AddrString (DstIP m)) (DstPort m).

Definition buildRequest (user pass : gostring) (m : Metadata) : relayRequest :=
  let udp := match mdNetwork m with NetUDP => true | _ => false end in
  mkRelayRequest udp
    ((if udp then [FNetworkUDP] else []) ++ (if bool_decide (user = []) then [] else [FUserAuth user pass]) ++
     [serializeRelayAddr m]).

(** With [noDelay] the request is sent and answered before the dial returns. *)
Definition relayOpen (user pass : gostring) (noDelay : bool) (m : Metadata) (c : netConn) : res (option bytes) * netConn :=
  let req := encodeRequest (buildRequest user pass m) in
  let after c :=
    match mdNetwork m with
    | NetOther _ => (Err (errorString ("network " ++ NetworkString (mdNetwork m) ++ " is unsupported")), c)
    | _ => if noDelay then (Ok None, c)
           else match req with inl b => (Ok (Some b), c) | inr e => (Err e, c) end
    end in
  if noDelay then
    match req with
    | inr e => (Err e, c)
    | inl b =>
        match netWrite b c with
        | (Some e, c) => (Err e, c)
        | (None, c) =>
            match readRelayResponse readRelay Version1 StatusOK ErrBadVersion c with
            | (Some e, c) => (Err e, c)
            | (None, c) => after c
            end
        end
    end
  else after c.

Definition relayDial (addr user pass : gostring) (noDelay : bool) (m : Metadata) : dM conn :=
  h ← connectTo "tcp" addr;
  deferClose h (
    wbuf ← onTCP h (relayOpen user pass noDelay m);
    mret (CRelay h (match mdNetwork m with NetUDP => true | _ => false end) wbuf)).

(** *** [DialContext] *)

Definition directDial (m : Metadata) : dM conn := h ← dialTCP "tcp" (DestinationAddress m); mret (CPlain h).

(** The reader of the handshake goes on serving the connection when it holds
    bytes that came after the response. *)
Definition httpDial (addr user pass : gostring) (m : Metadata) : dM conn :=
  h ← connectTo "tcp" addr;
  deferClose h (
    buf ← onTCP h (httpHandshake user pass m);
    mret (if 0 <? zlen buf then CBuffered h buf else CPlain h)).

Definition socks4Dial (addr userID : gostring) (m : Metadata) : dM conn :=
  h ← connectTo "tcp" addr;
  deferClose h (
    onTCP h (toNet (SOCKS4.ClientHandshake (DestinationAddress m) SOCKS4.CmdConnect userID));;
    mret (CPlain h)).

Definition socks5Dial (addr user pass : gostring) (unix : bool) (m : Metadata) : dM conn :=
  h ← connectTo (if unix then "unix" else "tcp") addr;
  deferClose h (
    onTCP h (toNet (Socks5.ClientHandshake (serializeSocksAddr m) CmdConnect (userOf user pass)));;
    mret (CPlain h)).

Definition shadowDial (addr : gostring) (ciph : coreCipher KS) (mode host : gostring) (m : Metadata) : dM conn :=
  h ← connectTo "tcp" addr;
  deferClose h (onTCP h (shadowOpen addr ciph mode host m);; mret (CShadow h)).

Definition DialContext (p : proxy KS) (m : Metadata) : dM conn :=
  match p with
  | PBase _ _ => liftS (Err ErrUnsupported)
  | PDirect => directDial m
  | PReject => mret CNop
  | PHTTP addr user pass => httpDial addr user pass m
  | PSocks4 addr userID => socks4Dial addr userID m
  | PSocks5 addr user pass unix => socks5Dial addr user pass unix m
  | PShadowsocks addr ciph mode host => shadowDial addr ciph mode host m
  | PRelay addr user pass noDelay => relayDial addr user pass noDelay m
  end.

(** *** [DialUDP] *)

(** [IP.IsUnspecified] of the address bytes. *)
Definition unspecified (ip : bytes) : bool :=
  bool_decide (ip = replicate 4 0) || bool_decide (ip = replicate 16 0) ||
  bool_decide (ip = replicate 10 0 ++ [255; 255; 0; 0; 0; 0]).

Definition resolve (addr : gostring) : dM (bytes * Z) :=
  liftS (match resolveUDP addr with
         | inl a => Ok a
         | inr e => Err (wrapError ("resolve udp address " ++ addr ++ ": ") e)
         end).

(** Run [m]; when it fails, close the packet socket (and the connection is
    closed by the deferred function). *)
Definition closingU {A} (u : nat) (m : dM A) : dM A := λ w,
  match m w with
  | (Err e, w) => (Err e, closeU u w)
  | r => r
  end.

Definition socksDialUDP (addr user pass : gostring) (unix : bool) : dM packetConn :=
  if unix then liftS (Err (errorString "unsupported operation when unix domain socket is enabled")) else
  h ← connectTo "tcp" addr;
  deferClose h (
    bound ← wrapS "client handshake: "
              (onTCP h (toNet (Socks5.ClientHandshake [AtypIPv4; 0; 0; 0; 0; 0; 0] CmdUDPAssociate (userOf user pass))));
    u ← wrapS "listen packet: " listenPacket;
    modifyS (λ w, mkWorld (wTCP w) (wUDP w) (wClosedT w) (wClosedU w) ((h, u) :: wWatch w));;
    closingU u (
      match UDPAddr bound with
      | None => liftS (Err (errorString "invalid UDP binding address"))
      | Some (ip, port) =>
          if unspecified ip then
            '(ip, _) ← resolve addr; mret (USocks u h (ip, port))
          else mret (USocks u h (ip, port))
      end)).

Definition directDialUDP : dM packetConn := u ← listenPacket; mret (UDirect u).

Definition shadowDialUDP (addr : gostring) : dM packetConn :=
  u ← wrapS "listen packet: " listenPacket;
  closingU u (a ← resolve addr; mret (UShadow u a)).

Definition relayDialUDP (addr user pass : gostring) (noDelay : bool) (m : Metadata) : dM packetConn :=
  c ← relayDial addr user pass noDelay m;
  mret (match c with CRelay h _ wbuf => URelay h wbuf | _ => UNop end).

Definition DialUDP (p : proxy KS) (m : Metadata) : dM packetConn :=
  match p with
  | PBase _ _ | PHTTP _ _ _ | PSocks4 _ _ => liftS (Err ErrUnsupported)
  | PDirect => directDialUDP
  | PReject => mret UNop
  | PSocks5 addr user pass unix => socksDialUDP addr user pass unix
  | PShadowsocks addr _ _ _ => shadowDialUDP addr
  | PRelay addr user pass noDelay => relayDialUDP addr user pass noDelay m
  end.

(** Closing what was dialled. *)
Definition closePacketConn (pc : packetConn) (w : world) : world :=
  let w := match packetTCP pc with Some h => closeT h w | None => w end in
  match packetUDP pc with Some u => closeU u w | None => w end.

(** The goroutine of an association: when its TCP connection [h] ends, the
    connection and the packet socket are closed. *)
Definition associationEnds (h u : nat) (w : world) : world := closeU u (closeT h w).
End Dial.

(** ** Who owns what *)

Record worldOK (w : world) : Prop := mkWorldOK {
  wok_tcp h : h ∈ wClosedT w → (h < length (wTCP w))%nat;
  wok_udp u : u ∈ wClosedU w → (u < wUDP w)%nat;
}.

(** From [w] to [w'], of the connections opened exactly [t] is still open, and of
    the packet sockets exactly [u]; what was there before is as it was. *)
Record owns (w : world) (t u : option nat) (w' : world) : Prop := mkOwns {
  ow_tcp_old h : (h < length (wTCP w))%nat → wTCP w' !! h = wTCP w !! h ∧ (h ∈ wClosedT w' ↔ h ∈ wClosedT w);
  ow_udp_old v : (v < wUDP w)%nat → (v ∈ wClosedU w' ↔ v ∈ wClosedU w);
  ow_tcp_new h : (length (wTCP w) ≤ h)%nat → ((h < length (wTCP w'))%nat ∧ h ∉ wClosedT w' ↔ t = Some h);
  ow_udp_new v : (wUDP w ≤ v)%nat → ((v < wUDP w')%nat ∧ v ∉ wClosedU w' ↔ u = Some v);
  ow_grow : (length (wTCP w) ≤ length (wTCP w'))%nat ∧ (wUDP w ≤ wUDP w')%nat;
  ow_fresh : (∀ h, t = Some h → (length (wTCP w) ≤ h)%nat) ∧ (∀ v, u = Some v → (wUDP w ≤ v)%nat);
  ow_ok : worldOK w';
}.

Lemma owns_refl w : worldOK w → owns w None None w.
Proof. intros Hw. split; [done|done| | |done|done|done]; intros h Hh; split; [lia|done|lia|done]. Qed.

Lemma owns_dial dial w network addr h w' : worldOK w → dialTCP dial network addr w = (Ok h, w') → owns w (Some h) None w'.
Proof.
  intros Hw. unfold dialTCP. destruct (dial w network addr) as [c|e]; [|done]. intros [= <- <-].
  split; cbn [wTCP wUDP wClosedT wClosedU]; rewrite ?length_app; cbn [length].
  - intros h Hh. by rewrite lookup_app_l.
  - done.
  - intros h Hh. split.
    + intros [? _]. f_equal. lia.
    + intros [= <-]. split; [lia|]. intros Hc. apply Hw in Hc. lia.
  - intros v Hv. split; [lia|done].
  - lia.
  - split; [by intros h [= <-]|done].
  - split; cbn; intros x Hx; [|by apply Hw]. rewrite length_app. apply Hw in Hx. lia.
Qed.

Lemma owns_listen listen w t w1 v w2 : owns w t None w1 → listenPacket listen w1 = (Ok v, w2) → owns w t (Some v) w2.
Proof.
  intros [H1 H2 H3 H4 H5 H6 H7]. unfold listenPacket. destruct (listen w1); [done|]. intros [= <- <-].
  split; cbn [wTCP wUDP wClosedT wClosedU]; try done.
  - intros v Hv. specialize (H4 v Hv). split.
    + intros [Hlt Hc]. destruct (decide (v < wUDP w1)%nat) as [Hv1|]; [|f_equal; lia]. by specialize (proj1 H4 (conj Hv1 Hc)).
    + intros [= <-]. split; [lia|]. intros Hc. apply H7 in Hc. lia.
  - lia.
  - split; [apply H6|]. intros v [= <-]. lia.
  - split; cbn; intros x Hx; [by apply H7|]. apply H7 in Hx. lia.
Qed.

Lemma owns_on {A} w h u w1 (f : netConn → res A * netConn) r w2 :
  owns w (Some h) u w1 → onTCP h f w1 = (r, w2) → owns w (Some h) u w2.
Proof.
  intros Ho. pose proof Ho as [H1 H2 H3 H4 H5 H6 H7]. unfold onTCP.
  destruct (wTCP w1 !! h) as [c|]; [|by intros [= <- <-]].
  destruct (f c) as [r' c']. intros [= <- <-]. pose proof (proj1 H6 h eq_refl) as Hh.
  split; cbn [wTCP wUDP wClosedT wClosedU]; rewrite ?length_insert; try done.
  - intros x Hx. rewrite list_lookup_insert_ne by lia. by apply H1.
  - split; cbn; rewrite ?length_insert; apply H7.
Qed.

Lemma owns_closeT w h u w1 : owns w (Some h) u w1 → owns w None u (closeT h w1).
Proof.
  intros [H1 H2 H3 H4 H5 H6 H7]. pose proof (proj1 H6 h eq_refl) as Hh.
  assert (h < length (wTCP w1))%nat as Hlt by (by apply H3).
  split; cbn [wTCP wUDP wClosedT wClosedU closeT]; try done.
  - intros x Hx. rewrite elem_of_union, elem_of_singleton. destruct (H1 x Hx) as [-> <-]. split; [done|].
    split; [intros [->|?]; [lia|done]|auto].
  - intros x Hx. rewrite elem_of_union, elem_of_singleton. split; [|done]. intros [Hx1 Hx2].
    assert (Some h = Some x) as [= ->]; [|naive_solver]. apply H3; [done|]. naive_solver.
  - split; [done|apply H6].
  - split; cbn; intros x Hx; [|by apply H7]. apply elem_of_union in Hx as [->%elem_of_singleton|Hx]; [done|by apply H7].
Qed.

Lemma owns_closeU w t v w1 : owns w t (Some v) w1 → owns w t None (closeU v w1).
Proof.
  intros [H1 H2 H3 H4 H5 H6 H7]. pose proof (proj2 H6 v eq_refl) as Hv.
  assert (v < wUDP w1)%nat as Hlt by (by apply H4).
  split; cbn [wTCP wUDP wClosedT wClosedU closeU]; try done.
  - intros x Hx. rewrite elem_of_union, elem_of_singleton, <- (H2 x Hx). split; [intros [->|?]; [lia|done]|auto].
  - intros x Hx. rewrite elem_of_union, elem_of_singleton. split; [|done]. intros [Hx1 Hx2].
    assert (Some v = Some x) as [= ->]; [|naive_solver]. apply H4; [done|]. naive_solver.
  - split; [apply H6|done].
  - split; cbn; intros x Hx; [by apply H7|]. apply elem_of_union in Hx as [->%elem_of_singleton|Hx]; [done|by apply H7].
Qed.

Lemma owns_watch w t u w1 l : owns w t u w1 → owns w t u (mkWorld (wTCP w1) (wUDP w1) (wClosedT w1) (wClosedU w1) l).
Proof. intros [H1 H2 H3 H4 H5 H6 [H7 H8]]. split; try done. Qed.

(** ** Dials leave nothing behind *)

(** The result of a dial from [w]: what it returned is what is open. *)
Definition dialled {C} (tcp udp : C → option nat) (w : world) (x : res C * world) : Prop :=
  match x with
  | (Ok c, w') => owns w (tcp c) (udp c) w'
  | (Err _, w') => owns w None None w'
  | (Panic, w') => ∃ t u, owns w t u w'
  end.

(** The same in the body of a dial that holds [t] and [u], which are still open
    when it fails. *)
Definition inBody {C} (tcp udp : C → option nat) (w : world) (t u : option nat) (x : res C * world) : Prop :=
  match x with
  | (Ok c, w') => owns w (tcp c) (udp c) w'
  | (Err _, w') => owns w t u w'
  | (Panic, w') => ∃ t u, owns w t u w'
  end.

Section Bodies.
Context {C : Type} (tcp udp : C → option nat) (w : world).

Lemma body_defer h m w1 : inBody tcp udp w (Some h) None (m w1) → dialled tcp udp w (deferClose h m w1).
Proof.
  unfold inBody, dialled, deferClose. destruct (m w1) as [[c|e|] w2]; eauto using owns_closeT.
Qed.

Lemma body_closingU h v m w1 : inBody tcp udp w (Some h) (Some v) (m w1) → inBody tcp udp w (Some h) None (closingU v m w1).
Proof.
  unfold inBody, closingU. destruct (m w1) as [[c|e|] w2]; eauto using owns_closeU.
Qed.

Lemma body_on {A} h u w1 (f : netConn → res A * netConn) (k : A → dM C) :
  owns w (Some h) u w1 → (∀ a w2, owns w (Some h) u w2 → inBody tcp udp w (Some h) u (k a w2)) →
  inBody tcp udp w (Some h) u ((onTCP h f ≫= k) w1).
Proof.
  intros Ho Hk. unfold mbind, stM_bind. destruct (onTCP h f w1) as [r w2] eqn:E.
  pose proof (owns_on _ _ _ _ _ _ _ Ho E) as Ho2. destruct r as [a|e|]; [by apply Hk|done|]. by exists (Some h), u.
Qed.

Lemma dial_connect dial network addr (k : nat → dM C) : worldOK w →
  (∀ h w1, owns w (Some h) None w1 → dialled tcp udp w (k h w1)) →
  dialled tcp udp w ((connectTo dial network addr ≫= k) w).
Proof.
  intros Hw Hk. unfold mbind, stM_bind, connectTo. destruct (dialTCP dial network addr w) as [[h|e|] w1] eqn:E.
  - apply Hk. by eapply owns_dial.
  - unfold dialTCP in E. destruct (dial w network addr); [done|]. injection E as _ <-. by apply owns_refl.
  - unfold dialTCP in E. by destruct (dial w network addr).
Qed.
End Bodies.

Section Theorems.
Context {KS : Type} (dial : world → gostring → gostring → netConn + error) (listen : world → option error).
Context (resolveUDP : gostring → (bytes * Z) + error).
Context (parse : bytes → option (res (Z * gostring) * nat)) (room : bytes → Z) (cleanHost : gostring → gostring).
Context (XORKeyStream : KS → bytes → bytes * KS) (hkdfSHA1 : bytes → bytes → gostring → Z → bytes) (rnd : res bytes).
Context (validHost : gostring → bool) (helloE : TLS.helloEnv) (requestE : HTTP.requestEnv).
Context (encodeRequest : relayRequest → bytes + error).
Context (readRelay : netConn → res (Z * Z) * netConn) (Version1 StatusOK : Z) (ErrBadVersion : error).

Abbreviation dialContext := (DialContext dial parse room cleanHost XORKeyStream hkdfSHA1 rnd validHost helloE requestE
  encodeRequest readRelay Version1 StatusOK ErrBadVersion).
Abbreviation dialUDP := (DialUDP dial listen resolveUDP encodeRequest readRelay Version1 StatusOK ErrBadVersion).
Abbreviation noUDP := (λ _ : conn, @None nat).

Lemma relayDial_owns addr user pass noDelay m w : worldOK w →
  dialled connHandle noUDP w (relayDial dial encodeRequest readRelay Version1 StatusOK ErrBadVersion addr user pass noDelay m w).
Proof.
  intros Hw. apply dial_connect; [done|]. intros h w1 Ho. apply body_defer, body_on; [done|]. by intros wbuf w2 Ho2.
Qed.

Lemma dialContext_owns (p : proxy KS) m w : worldOK w → dialled connHandle noUDP w (dialContext p m w).
Proof.
  intros Hw. destruct p; cbn [DialContext]; unfold directDial, httpDial, socks4Dial, socks5Dial, shadowDial.
  - by apply owns_refl.
  - unfold mbind, stM_bind. destruct (dialTCP dial _ _ w) as [[h|e|] w1] eqn:E.
    + by eapply owns_dial.
    + unfold dialTCP in E. destruct (dial w _ _); [done|]. injection E as _ <-. by apply owns_refl.
    + unfold dialTCP in E. by destruct (dial w _ _).
  - by apply owns_refl.
  - apply dial_connect; [done|]. intros h w1 Ho. apply body_defer, body_on; [done|]. intros buf w2 Ho2.
    by destruct (0 <? zlen buf).
  - apply dial_connect; [done|]. intros h w1 Ho. apply body_defer, body_on; [done|]. by intros a w2 Ho2.
  - apply dial_connect; [done|]. intros h w1 Ho. apply body_defer, body_on; [done|]. by intros a w2 Ho2.
  - apply dial_connect; [done|]. intros h w1 Ho. apply body_defer, body_on; [done|]. by intros a w2 Ho2.
  - by apply relayDial_owns.
Qed.

Lemma resolve_body {C} (tcp udp : C → option nat) w t u addr (k : bytes * Z → dM C) w1 :
  owns w t u w1 → (∀ a, inBody tcp udp w t u (k a w1)) → inBody tcp udp w t u ((resolve resolveUDP addr ≫= k) w1).
Proof.
  intros Ho Hk. unfold resolve, mbind, stM_bind, liftS. destruct (resolveUDP addr) as [a|e]; [apply Hk|exact Ho].
Qed.

Lemma socksDialUDP_owns addr user pass unix w : worldOK w →
  dialled packetTCP packetUDP w (socksDialUDP dial listen resolveUDP addr user pass unix w).
Proof.
  intros Hw. unfold socksDialUDP. destruct unix; [by apply owns_refl|].
  apply dial_connect; [done|]. intros h w1 Ho. apply body_defer.
  unfold mbind at 1, stM_bind at 1, wrapS at 1. destruct (onTCP h _ w1) as [r w2] eqn:E.
  pose proof (owns_on _ _ _ _ _ _ _ Ho E) as Ho2. destruct r as [bound|e|]; [|done|by exists (Some h), None].
  unfold mbind at 1, stM_bind at 1, wrapS. destruct (listenPacket listen w2) as [[v|e|] w3] eqn:El.
  - pose proof (owns_listen _ _ _ _ _ _  Ho2 El) as Ho3. apply (owns_watch _ _ _ _ ((h, v) :: wWatch w3)) in Ho3.
    unfold mbind at 1, stM_bind at 1, modifyS. apply body_closingU.
    destruct (UDPAddr bound) as [[ip port]|]; [|done]. destruct (unspecified ip); [|done].
    apply resolve_body; [done|]. by intros [ip' port'].
  - unfold listenPacket in El. destruct (listen w2); [|done]. injection El as _ <-. done.
  - unfold listenPacket in El. by destruct (listen w2).
Qed.

Lemma dialUDP_owns (p : proxy KS) m w : worldOK w → dialled packetTCP packetUDP w (dialUDP p m w).
Proof.
  intros Hw. pose proof (owns_refl w Hw) as H0. destruct p; cbn [DialUDP]; unfold directDialUDP, shadowDialUDP, relayDialUDP; try done.
  - unfold mbind, stM_bind. destruct (listenPacket listen w) as [[v|e|] w1] eqn:E.
    + by eapply owns_listen.
    + unfold listenPacket in E. destruct (listen w); [|done]. injection E as _ <-. done.
    + unfold listenPacket in E. by destruct (listen w).
  - by apply socksDialUDP_owns.
  - unfold mbind at 1, stM_bind at 1, wrapS. destruct (listenPacket listen w) as [[v|e|] w1] eqn:E.
    + pose proof (owns_listen _ _ _ _ _ _  H0 E) as H1. unfold closingU, resolve, mbind, stM_bind, liftS.
      destruct (resolveUDP addr); [done|]. by eapply owns_closeU.
    + unfold listenPacket in E. destruct (listen w); [|done]. injection E as _ <-. done.
    + unfold listenPacket in E. by destruct (listen w).
  - pose proof (relayDial_owns addr user pass noDelay m w Hw) as H. unfold mbind, stM_bind.
    destruct (relayDial dial encodeRequest readRelay Version1 StatusOK ErrBadVersion addr user pass noDelay m w)
      as [[c|e|] w1] eqn:E; [|done..].
    assert (∃ h udp wbuf, c = CRelay h udp wbuf) as (h & udp & wbuf & ->); [|done].
    unfold relayDial in E. apply bindS_inv in E as (h & w2 & _ & E). unfold deferClose in E.
    destruct ((onTCP h _ ≫= _) w2) as [[c'|e|] w3] eqn:E3; [|done..]. injection E as -> _.
    apply bindS_inv in E3 as (wbuf & w4 & _ & E4). injection E4 as <- _. eauto.
Qed.

Lemma close_releases w pc w' : owns w (packetTCP pc) (packetUDP pc) w' → owns w None None (closePacketConn pc w').
Proof.
  unfold closePacketConn. destruct pc; cbn [packetTCP packetUDP]; intros Ho;
    eauto using owns_closeT, owns_closeU.
Qed.

(** C12: no proxy leaks a connection.  Whatever a proxy's dial for TCP or UDP does,
    from any state, it leaves the connections and packet sockets that were there
    as they were; when it returns a connection, of those it opened exactly the
    ones that connection stands on are open, and closing it closes them; and when
    it fails all of them are closed. *)
Theorem dials_leak_nothing (p : proxy KS) m w : worldOK w →
  dialled connHandle noUDP w (dialContext p m w) ∧
  dialled packetTCP packetUDP w (dialUDP p m w) ∧
  ∀ pc w', dialUDP p m w = (Ok pc, w') → owns w None None (closePacketConn pc w').
Proof.
  intros Hw. split; [by apply dialContext_owns|]. split; [by apply dialUDP_owns|].
  intros pc w' E. apply close_releases. pose proof (dialUDP_owns p m w Hw) as H. by rewrite E in H.
Qed.
End Theorems.

(** ** On concrete data: a SOCKS5 server that refuses to associate *)

Definition emptyWorld : world := mkWorld [] 0 ∅ ∅ [].

Lemma emptyWorld_ok : worldOK emptyWorld.
Proof. split; intros x Hx; set_solver. Qed.

Definition answering (answer : bytes) (w : world) (network addr : gostring) : netConn + error :=
  inl (mkNet [answer] errEOF [] (λ _, None)).

Definition demoHello : TLS.helloEnv := TLS.mkHelloEnv 0 [] [].
Definition demoRequest : HTTP.requestEnv := HTTP.mkRequestEnv 0 0 [].

Definition demoUDP (answer : bytes) : dM packetConn :=
  DialUDP (KS := Z) (answering answer) (λ _, None) (λ _, inr (sysError 1)) (λ _, inr (sysError 1))
    (λ c, (Panic, c)) 1 0 (sysError 2) (PSocks5 "127.0.0.1:1080" [] [] false) demoMeta.

(** The server says yes but is bound to a name: the socket is closed again. *)
Lemma dials_leak_nothing_witness :
  ∃ e w', demoUDP ([5; 0] ++ [5; 0; 0] ++ SerializeAddr "relay.example" AddrInvalid 99) emptyWorld = (Err e, w') ∧
    owns emptyWorld None None w' ∧ wUDP w' = 1%nat ∧ length (wTCP w') = 1%nat.
Proof.
  destruct (dials_leak_nothing (KS := Z) (answering ([5; 0] ++ [5; 0; 0] ++ SerializeAddr "relay.example" AddrInvalid 99))
    (λ _, None) (λ _, inr (sysError 1)) (λ _, None) (λ _, 1) id countXor noKDF (Ok [])
    (λ _, true) demoHello demoRequest (λ _, inr (sysError 1)) (λ c, (Panic, c)) 1 0 (sysError 2)
    (PSocks5 "127.0.0.1:1080" [] [] false) demoMeta emptyWorld) as [_ [H _]].
  - exact emptyWorld_ok.
  - unfold demoUDP. eexists _, _. split; [vm_compute; reflexivity|]. split; [exact H|]. split; reflexivity.
Defined.

(** What a server of each protocol is told about the same destination. *)
Example proxies_say :
  let said p answer :=
    match DialContext (KS := Z) (answering answer) demoParse (λ _, 4096) id countXor noKDF (Ok [1; 2; 3; 4])
      (λ _, true) demoHello demoRequest (λ _, inl [9]) (λ c, (Ok (1, 0), c)) 1 0 (sysError 2) p demoMeta emptyWorld with
    | (Ok c, w) => Some (c, (λ n, (ncOut n, ncSegs n)) <$> wTCP w)
    | _ => None
    end in
  said (PSocks5 "p:1" [] [] false) ([5; 0] ++ [5; 0; 0] ++ SerializeAddr [] (Addr4 0) 0 ++ lit "hi") =
    Some (CPlain 0, [([[5; 1; 0]; [5; 1; 0; 1; 8; 8; 8; 8; 1; 187]], [lit "hi"])]) ∧
  said (PSocks4 "p:1" "me") ([0; 90; 0; 0; 0; 0; 0; 0] ++ lit "hi") =
    Some (CPlain 0, [([[4; 1; 1; 187; 8; 8; 8; 8] ++ lit "me" ++ [0]], [lit "hi"])]) ∧
  said (PHTTP "p:1" [] []) (demoHead ++ lit "hi") =
    Some (CBuffered 0 (lit "hi"), [([connectText id [] [] "8.8.8.8:443"], [])]) ∧
  said (PShadowsocks "p:1" (StreamCipher countCipher []) [] []) [] =
    Some (CShadow 0, [([[1; 2; 3; 4]; (countXor 0x01020304 [1; 8; 8; 8; 8; 1; 187]).1], [[]])]) ∧
  said (PRelay "p:1" [] [] true) [] = Some (CRelay 0 false None, [([[9]], [[]])]) ∧
  said (PSocks4 "p:1" "me") [0; 91; 0; 0; 0; 0; 0; 0] = None.
Proof. vm_compute. split_and!; reflexivity. Qed.
