(* ===== verification/Resolver.v ===== *)
(** * The resolver and what its answers are worth (core/resolver.go)

    The reverse cache from addresses to domains, the interface [Resolver] the
    planner uses, and the theorems on resolution: every address returned, from
    the cache or not, comes from an upstream's answer to a question for that
    very domain. *)

From S2P Require Import Prelude Errors Netip AddrTrie Pattern FakeIP Policy Routing Ring LRU LRUSpec Sharded DnsMsg Dns.
Local Open Scope Z_scope.

Section Resolver.
Context {W : Type} (hash : gostring → Z).

Definition rememberDomainIPMapping (domain ip : gostring) (now : Z) : @dnsM W unit := λ st,
  if bool_decide (domain = []) || bool_decide (ip = []) then (Ok tt, st) else
  match cacheAdd hash ip domain reverseMappingTTL now (ipDomainCache st) with
  | Some c => (Ok tt, setIPCache c st)
  | None => (Panic, st)
  end.

(** The time of the caches is in milliseconds ([UnixMilli]), that of the stores of
    synthetic addresses in nanoseconds. *)
Definition unixMilli (now : Z) : Z := now / 1000000.

(** The stores of synthetic addresses are tried first. *)
Definition lookupDomainByIP (ip : gostring) (now : Z) (stores : fakeStores) : @dnsM W (option gostring * fakeStores) := λ st,
  let '(r, stores') := lookupFakeDomainByIP ip now stores in
  match r with
  | Some domain => (Ok (Some domain, stores'), st)
  | None =>
      if bool_decide (ip = []) then (Ok (None, stores'), st) else
      match cacheGet hash ip (unixMilli now) (ipDomainCache st) with
      | Some (r, c) => (Ok (r, stores'), setIPCache c st)
      | None => (Panic, st)
      end
  end.

Context `{DNSLib} (ask : upstream → Msg → W → res Msg * W) (newId : W → Z).

(** The methods of [coreResolver]; [Remember] and [LookupDomain] are the two
    functions above. *)
Definition Resolve (leader : option flight) (domain : gostring) (mode : DNSMode) (now done_ : Z) : @dnsM W (gostring * bool) :=
  '(ip, cached) ← dnsResolve hash ask newId leader domain mode reverseMappingTTL now done_;
  rememberDomainIPMapping domain ip done_;;
  mret (ip, cached).

Definition Remember (domain ip : gostring) (now : Z) : @dnsM W unit := rememberDomainIPMapping domain ip now.

Definition LookupDomain (ip : gostring) (now : Z) (stores : fakeStores) : @dnsM W (option gostring * fakeStores) :=
  lookupDomainByIP ip now stores.

End Resolver.

(** ** Where addresses come from *)

Section Genuine.
Context {W : Type} (hash : gostring → Z) (hash_u32 : ∀ k, 0 ≤ hash k < 2 ^ 32).
Context `{DNSLib} (ask : upstream → Msg → W → res Msg * W) (newId : W → Z).
Context (bootstrapLookupIP : gostring → W → res (list bytes) * W).

(** What the answers of the upstreams are known to satisfy. *)
Context (genuine : Msg → Msg → Prop).
Context (ask_genuine : ∀ u req w resp w', ask u req w = (Ok resp, w') → genuine req resp).
Context (ask_safe : ∀ u req w, (ask u req w).1 ≠ Panic).
Context (lookup_safe : ∀ h w, (bootstrapLookupIP h w).1 ≠ Panic).

Notation dnsM := (@dnsM W).
Notation exchangeMsg := (exchangeMsg ask).
Notation dnsResolve := (dnsResolve hash ask newId).
Notation doDNSResolve := (doDNSResolve hash ask newId).
Notation resolveBootstrapHost := (resolveBootstrapHost hash bootstrapLookupIP).

Definition pickFor (qtype : Z) (answer : list RR) : bytes :=
  if qtype =? TypeA then pickFirstARecord answer else pickFirstAAAARecord answer.

(** A successful answer to the question for [domain] and [qtype]. *)
Definition answer (domain : gostring) (qtype : Z) (resp : Msg) : Prop :=
  ∃ req, genuine req resp ∧ mQuestion req = [mkQuestion (domain ++ ".") qtype ClassINET] ∧ mRcode resp = RcodeSuccess.

(** The address [ip] of [domain] is in such an answer. *)
Definition resolved (domain : gostring) (qtype : Z) (ip : gostring) : Prop :=
  ∃ resp a, answer domain qtype resp ∧ pickFor qtype (mAnswer resp) = a ∧ a ≠ [] ∧ ip = IPString a.

(** The family of an address under a mode: the one the mode allows; the second
    of two only where the first has no record. *)
Definition chosen (domain : gostring) (mode : DNSMode) (qtype : Z) : Prop :=
  let missing t := ∃ resp, answer domain t resp ∧ pickFor t (mAnswer resp) = [] in
  match mode with
  | DNSModeIPv4Only => qtype = TypeA
  | DNSModeIPv6Only => qtype = TypeAAAA
  | DNSModePreferIPv4 => qtype = TypeA ∨ qtype = TypeAAAA ∧ missing TypeA
  | DNSModePreferIPv6 => qtype = TypeAAAA ∨ qtype = TypeA ∧ missing TypeAAAA
  | DNSModeUnset => False
  end.

Definition bootstrapped (host ip : gostring) : Prop :=
  ∃ w addrs w', bootstrapLookupIP host w = (Ok addrs, w') ∧ pickBootstrapIP addrs = ip.

Definition cachedOK (domain ip : gostring) : Prop := (∃ qtype, resolved domain qtype ip) ∨ bootstrapped domain ip.

Definition cacheOK (P : gostring → gostring → Prop) (c : dnsCacheT) : Prop :=
  match c with
  | None => True
  | Some lru => cacheInv hash P lru
  end.

(** The invariant of the variables. *)
Record dnsInv (st : dnsState W) : Prop := {
  di_index : 0 ≤ dnsExchangeIdx st;
  di_cache : cacheOK cachedOK (dnsCache st);
  di_ipCache : cacheOK (λ _ _, True) (ipDomainCache st);
}.

Lemma cacheGet_ok P c k now : cacheOK P c →
  ∃ r c', cacheGet hash k now c = Some (r, c') ∧ cacheOK P c' ∧ ∀ v, r = Some v → P k v.
Proof.
  destruct c as [lru|]; simpl; [|by exists None, None].
  intros Hc. destruct (cacheInv_get hash [] [] hash_u32 P lru k now Hc) as (r & lru' & E & Hc' & Hr). rewrite E.
  by exists r, (Some lru').
Qed.

Lemma cacheAdd_ok (P : gostring → gostring → Prop) c k v lifetime now : cacheOK P c → P k v →
  ∃ c', cacheAdd hash k v lifetime now c = Some c' ∧ cacheOK P c'.
Proof.
  destruct c as [lru|]; simpl; [|by exists None].
  intros Hc Hv. destruct (cacheInv_add hash [] [] hash_u32 P lru k v lifetime now Hc Hv) as (b & lru' & E & Hc').
  rewrite E. by exists (Some lru').
Qed.

(** *** Steps that keep the invariant

    [safe m Q]: from a state with the invariant, [m] does not panic, keeps the
    invariant, and a result it returns satisfies [Q]. *)
Definition safe {A} (m : dnsM A) (Q : A → Prop) : Prop :=
  ∀ st, dnsInv st → ∃ r st', m st = (r, st') ∧ dnsInv st' ∧ r ≠ Panic ∧ ∀ a, r = Ok a → Q a.

Lemma safe_ret {A} (a : A) (Q : A → Prop) : Q a → safe (mret a) Q.
Proof. intros HQ st Hst. exists (Ok a), st. split_and!; [done..|]. by intros ? [= <-]. Qed.

Lemma safe_lift {A} (r : res A) (Q : A → Prop) : r ≠ Panic → (∀ a, r = Ok a → Q a) → safe (liftD r) Q.
Proof. intros Hr HQ st Hst. by exists r, st. Qed.

Lemma safe_read {A} (f : dnsState W → A) : safe (readD f) (λ _, True).
Proof. intros st Hst. by exists (Ok (f st)), st. Qed.

Lemma safe_bind {A B} (m : dnsM A) (k : A → dnsM B) (Q : A → Prop) (R : B → Prop) :
  safe m Q → (∀ a, Q a → safe (k a) R) → safe (m ≫= k) R.
Proof.
  intros Hm Hk st Hst. destruct (Hm st Hst) as (r & st1 & E & Hst1 & Hr & HQ).
  unfold mbind, dnsM_bind. rewrite E. destruct r as [a|e|]; [by apply Hk; [apply HQ|]|by exists (Err e), st1|done].
Qed.

Lemma safe_mono {A} (m : dnsM A) (Q R : A → Prop) : safe m Q → (∀ a, Q a → R a) → safe m R.
Proof. intros Hm HQ st Hst. destruct (Hm st Hst) as (r & st' & ? & ? & ? & ?). exists r, st'. split_and!; auto. Qed.

Lemma safe_with_str {A} op (m : dnsM A) (Q : A → Prop) : safe m Q → safe (with_strD op m) Q.
Proof.
  intros Hm st Hst. destruct (Hm st Hst) as (r & st' & E & ? & ? & HQ). unfold with_strD. rewrite E.
  destruct r as [a|e|]; [by exists (Ok a), st'|by eexists _, st'|done].
Qed.

Lemma safe_onWorld {A} (f : W → res A * W) (Q : A → Prop) :
  (∀ w, (f w).1 ≠ Panic) → (∀ w a w', f w = (Ok a, w') → Q a) → safe (onWorld f) Q.
Proof.
  intros Hp HQ st [H1 H2 H3]. unfold onWorld. specialize (Hp (world st)). specialize (HQ (world st)).
  destruct (f (world st)) as [r w]. exists r, (setWorld w st). split_and!; [done|by split|done|].
  intros a ->. by eapply HQ.
Qed.

Lemma safe_getCached k now : safe (getCached hash k now) (λ r, ∀ v, r = Some v → cachedOK k v).
Proof.
  intros st [H1 H2 H3]. unfold getCached. destruct (cacheGet_ok _ _ k now H2) as (r & c & E & Hc & Hr). rewrite E.
  exists (Ok r), (setCache c st). split_and!; [done|by split|done|]. by intros ? [= <-].
Qed.

Lemma safe_addCached k v lifetime now : cachedOK k v → safe (addCached hash k v lifetime now) (λ _, True).
Proof.
  intros Hv st [H1 H2 H3]. unfold addCached. destruct (cacheAdd_ok _ _ k v lifetime now H2 Hv) as (c & E & Hc). rewrite E.
  exists (Ok tt), (setCache c st). split_and!; [done|by split|done|done].
Qed.

Lemma safe_exchange req : safe (exchangeMsg req) (genuine req).
Proof.
  intros st Hst. pose proof Hst as [H1 H2 H3]. destruct (decide (dnsExchanges st = [])) as [E0|E0].
  - unfold Dns.exchangeMsg, mbind, dnsM_bind, readD. rewrite E0, bool_decide_eq_true_2 by done.
    unfold exchangeUpstream, readD, mbind, dnsM_bind. destruct (dnsExchange st) as [u|].
    + apply (safe_onWorld (ask u req)); [apply ask_safe|intros w a w'; apply ask_genuine|done].
    + by eexists _, st.
  - pose proof (exchangeMsg_spec ask req st E0 H1 (λ u w, ask_safe u req w)) as Hr. cbv zeta in Hr.
    destruct (Dns.exchangeMsg ask req st) as [r st']. destruct Hr as [Hex Hr]. exists r, st'.
    destruct r as [resp|e|]; [| |done].
    + destruct Hr as (k & u & es & w1 & _ & _ & Ea & Hi). split_and!; [done| |done|].
      * rewrite Hex. split; [|done|done]. cbn. unfold idx in Hi. destruct (Z.leb_spec 0 (dnsExchangeIdx st')); [done|done].
      * intros ? [= <-]. by eapply ask_genuine.
    + destruct Hr as (es & _ & _ & Hi). split_and!; [done| |done|done]. rewrite Hex. split; [cbn; lia|done|done].
Qed.

Lemma safe_checkRcode resp : safe (liftD (checkRcode resp)) (λ _, mRcode resp = RcodeSuccess).
Proof. unfold checkRcode. destruct (Z.eqb_spec (mRcode resp) RcodeSuccess); by apply safe_lift. Qed.

Lemma safe_question domain qtype msg :
  safe (question newId domain qtype msg) (λ m, mQuestion m = [mkQuestion (domain ++ ".") qtype ClassINET]).
Proof. eapply safe_bind; [apply safe_read|]. intros id _. by apply safe_ret. Qed.

(** Ask, and check the code of the answer. *)
Lemma safe_ask {A} op domain qtype msg (k : Msg → dnsM A) (Q : A → Prop) :
  mQuestion msg = [mkQuestion (domain ++ ".") qtype ClassINET] →
  (∀ resp, answer domain qtype resp → safe (k resp) Q) →
  safe (resp ← with_strD op (exchangeMsg msg); liftD (checkRcode resp);; k resp) Q.
Proof.
  intros Hq Hk. eapply safe_bind; [apply safe_with_str, safe_exchange|]. intros resp Hg.
  eapply safe_bind; [apply safe_checkRcode|]. intros [] Hc. apply Hk. by exists msg.
Qed.

Lemma safe_secondTry domain qtype msg :
  qtype = TypeA ∨ qtype = TypeAAAA →
  safe (secondTry ask newId domain qtype (pickFor qtype) msg) (λ a, resolved domain qtype (IPString a)).
Proof.
  intros Hqt. unfold secondTry. eapply safe_bind; [apply safe_question|]. intros m Hm.
  eapply (safe_bind _ _ (λ resp, genuine m resp)).
  { intros st Hst. destruct (safe_exchange m st Hst) as (r & st' & E & H1 & H2 & H3). rewrite E.
    destruct r as [a|e|]; [by exists (Ok a), st'|by eexists _, st'|done]. }
  intros resp Hg. eapply safe_bind; [apply safe_checkRcode|]. intros [] Hc.
  cbv zeta. case_bool_decide as Ha; [by apply safe_lift|]. apply safe_ret.
  exists resp, (pickFor qtype (mAnswer resp)). split_and!; [by exists m|done..].
Qed.

Lemma safe_answerFor domain mode qtype msg resp :
  match mode with DNSModePreferIPv4 | DNSModeIPv4Only => qtype = TypeA | DNSModePreferIPv6 | DNSModeIPv6Only => qtype = TypeAAAA
  | DNSModeUnset => False end → answer domain qtype resp →
  safe (answerFor ask newId domain mode msg resp)
    (λ a, ∃ qtype, chosen domain mode qtype ∧ resolved domain qtype (IPString a)).
Proof.
  intros Hm Hans. unfold answerFor. cbv zeta.
  assert (∀ a, pickFor qtype (mAnswer resp) = a → a ≠ [] → resolved domain qtype (IPString a)) as Hres
    by (intros a Ha Hne; exists resp, a; by split_and!).
  destruct mode; [done|subst qtype..]; case_bool_decide as Ha.
  - apply (safe_mono _ (λ a, resolved domain TypeAAAA (IPString a)));
      [by apply (safe_secondTry domain TypeAAAA msg); right|].
    intros a Hr. exists TypeAAAA. split; [|done]. right. split; [done|]. by exists resp.
  - apply safe_ret. exists TypeA. split; [by left|]. by apply Hres.
  - apply (safe_mono _ (λ a, resolved domain TypeA (IPString a)));
      [by apply (safe_secondTry domain TypeA msg); left|].
    intros a Hr. exists TypeA. split; [|done]. right. split; [done|]. by exists resp.
  - apply safe_ret. exists TypeAAAA. split; [by left|]. by apply Hres.
  - by apply safe_lift.
  - apply safe_ret. exists TypeA. split; [done|]. by apply Hres.
  - by apply safe_lift.
  - apply safe_ret. exists TypeAAAA. split; [done|]. by apply Hres.
Qed.

Lemma safe_doDNSResolve domain mode cacheTTL now : mode ≠ DNSModeUnset →
  safe (doDNSResolve domain mode cacheTTL now) (λ ip, ∃ qtype, chosen domain mode qtype ∧ resolved domain qtype ip).
Proof.
  intros Hmode. unfold Dns.doDNSResolve.
  set (qt := match mode with DNSModePreferIPv4 | DNSModeIPv4Only => TypeA | _ => TypeAAAA end).
  apply (safe_bind _ _ (λ m, mQuestion m = [mkQuestion (domain ++ ".") qt ClassINET])).
  { destruct mode; [done|apply safe_question..]. }
  intros msg Hmsg. eapply safe_bind; [apply safe_read|]. intros edns0 _. cbv zeta.
  apply (safe_ask _ domain qt); [by destruct edns0|]. intros resp Hans.
  eapply safe_bind; [apply (safe_answerFor domain mode qt); [by destruct mode|done]|].
  intros a Ha. eapply (safe_bind _ _ (λ _, True)).
  - destruct (negb (cacheTTL =? 0) && negb (cacheTTL =? unsetInt)); [|by apply safe_ret].
    apply safe_addCached. left. destruct Ha as (q & _ & Hq). by exists q.
  - intros _ _. by apply safe_ret.
Qed.

(** What a resolution returns: from the cache, an address once resolved for the
    domain; otherwise one of the family that the mode chooses. *)
Definition resolution (domain : gostring) (mode : DNSMode) (r : gostring * bool) : Prop :=
  if r.2 : bool then cachedOK domain r.1
  else ∃ qtype, chosen domain mode qtype ∧ resolved domain qtype r.1.

(** The mode of the resolution whose outcome a call gets: the one in flight, if
    there is a group and it finds one, or its own. *)
Definition ranMode (group : bool) (leader : option (@flight W)) (mode : DNSMode) : DNSMode :=
  match leader with Some l => if group then fl_mode l else mode | None => mode end.

(** A resolution in flight was started with a mode, from a state with the
    invariant. *)
Definition leaderOK (leader : option (@flight W)) : Prop :=
  ∀ l, leader = Some l → fl_mode l ≠ DNSModeUnset ∧ dnsInv (fl_start l).

Lemma safe_dnsResolve leader domain mode cacheTTL now done_ : mode ≠ DNSModeUnset → leaderOK leader →
  safe (dnsResolve leader domain mode cacheTTL now done_) (λ r, ∃ group, resolution domain (ranMode group leader mode) r).
Proof.
  intros Hmode Hlead. unfold Dns.dnsResolve. eapply safe_bind; [apply safe_getCached|].
  intros [ip|] Hhit; [apply safe_ret; exists false; by apply Hhit|].
  eapply safe_bind; [apply safe_read|]. intros group _.
  eapply (safe_bind _ _ (λ ip, ∃ qtype, chosen domain (ranMode group leader mode) qtype ∧ resolved domain qtype ip)).
  - destruct group, leader as [l|]; cbn [ranMode]; try (by apply safe_doDNSResolve).
    destruct (Hlead l eq_refl) as [Hl Hst]. destruct (safe_doDNSResolve domain (fl_mode l) (fl_ttl l) (fl_done l) Hl _ Hst) as (r & st' & -> & _ & Hp & HQ).
    by apply safe_lift.
  - intros ip Hip. apply safe_ret. by exists group.
Qed.

(** With the group as it is in the state of the call. *)
Lemma dnsResolve_integrity leader domain mode cacheTTL now done_ st : dnsInv st → mode ≠ DNSModeUnset → leaderOK leader →
  match (dnsResolve leader domain mode cacheTTL now done_ st).1 with
  | Ok (ip, true) => (∃ qtype, resolved domain qtype ip) ∨ bootstrapped domain ip
  | Ok (ip, false) => ∃ qtype, chosen domain (ranMode (dnsResolveGroup st) leader mode) qtype ∧ resolved domain qtype ip
  | Err _ => True
  | Panic => False
  end.
Proof.
  intros Hst Hmode Hlead. unfold Dns.dnsResolve, mbind, dnsM_bind.
  destruct (safe_getCached domain now st Hst) as (r & s1 & E1 & Hs1 & Hp & HQ). rewrite E1.
  assert (dnsResolveGroup s1 = dnsResolveGroup st) as Hg.
  { unfold getCached in E1. destruct (cacheGet hash domain now (dnsCache st)) as [[? ?]|]; by injection E1 as _ <-. }
  destruct r as [[ip|]|e|]; [exact (HQ _ eq_refl ip eq_refl)| |done|done]. unfold readD, liftD. rewrite Hg.
  destruct (dnsResolveGroup st), leader as [l|]; cbn [ranMode].
  1: destruct (Hlead l eq_refl) as [Hl Hsl];
     destruct (safe_doDNSResolve domain (fl_mode l) (fl_ttl l) (fl_done l) Hl _ Hsl) as (r & st' & -> & _ & Hp' & HQ').
  2-4: destruct (safe_doDNSResolve domain mode cacheTTL done_ Hmode _ Hs1) as (r & st' & -> & _ & Hp' & HQ').
  all: destruct r as [ip|e|]; [exact (HQ' ip eq_refl)|done|done].
Qed.

Lemma safe_bootstrap host now done_ :
  safe (resolveBootstrapHost host now done_) (λ ip, ip = host ∨ cachedOK host ip).
Proof.
  unfold Dns.resolveBootstrapHost. destruct (bool_decide (host = []) || isIPText host); [by apply safe_ret; left|].
  eapply safe_bind; [apply safe_getCached|]. intros [ip|] Hhit; [apply safe_ret; right; auto|].
  eapply (safe_bind _ _ (λ addrs, bootstrapped host (pickBootstrapIP addrs))).
  { apply safe_with_str, safe_onWorld; [apply lookup_safe|]. intros w addrs w' E. by exists w, addrs, w'. }
  intros addrs Hb. cbv zeta. case_bool_decide; [by apply safe_lift|].
  eapply safe_bind; [apply safe_addCached; by right|]. intros _ _. apply safe_ret. right. by right.
Qed.

Lemma safe_remember domain ip now : safe (rememberDomainIPMapping hash domain ip now) (λ _, True).
Proof.
  intros st [H1 H2 H3]. unfold rememberDomainIPMapping.
  destruct (_ || _); [exists (Ok tt), st; by split_and!|].
  destruct (cacheAdd_ok _ _ ip domain reverseMappingTTL now H3 I) as (c & E & Hc). rewrite E.
  exists (Ok tt), (setIPCache c st). split_and!; [done|by split|done|done].
Qed.

(** *** Runs of operations *)

Inductive dnsOp :=
| opResolve (domain : gostring) (mode : DNSMode) (cacheTTL now done_ : Z)
| opBootstrap (host : gostring) (now done_ : Z)
| opQuery (req : Msg)
| opRemember (domain ip : gostring) (now : Z).

Definition runOp (o : dnsOp) (st : dnsState W) : dnsState W :=
  match o with
  | opResolve d mode ttl now done_ => (dnsResolve None d mode ttl now done_ st).2
  | opBootstrap h now done_ => (resolveBootstrapHost h now done_ st).2
  | opQuery req => (exchangeMsg req st).2
  | opRemember d ip now => (rememberDomainIPMapping hash d ip now st).2
  end.

(** Policies reach the resolver with a mode. *)
Definition opOK (o : dnsOp) : Prop := match o with opResolve _ mode _ _ _ => mode ≠ DNSModeUnset | _ => True end.

Lemma safe_inv {A} (m : dnsM A) Q st : safe m Q → dnsInv st → dnsInv (m st).2.
Proof. intros Hm Hst. destruct (Hm st Hst) as (r & st' & -> & ? & _). done. Qed.

Lemma fresh_caches_inv gomaxprocs c cache ipCache : 0 ≤ dCacheCapacity c < 2 ^ 30 →
  cachesOf gomaxprocs c = Ok (cache, ipCache) → ∀ P, cacheOK P cache ∧ cacheOK P ipCache.
Proof.
  intros Hc. unfold cachesOf. destruct (dDisableCache c); [by intros [= <- <-]|].
  set (cap := if dCacheCapacity c =? 0 then 4096 else dCacheCapacity c).
  assert (0 ≤ cap < 2 ^ 30) as Hcap by (unfold cap; destruct (_ =? 0); lia).
  destruct (NewSharded [] [] gomaxprocs cap) as [l|e|] eqn:E; [|done..]. cbn. intros [= <- <-] P.
  by split; apply (cacheInv_new hash [] [] hash_u32 P gomaxprocs cap).
Qed.

Context `{GoURL, GoTime} (t : Tables) (pools : gostring → res gostring) (socks5Error : gostring → option error) (gomaxprocs : Z).

Lemma configured_inv c now done_ st0 u st :
  setDNS hash bootstrapLookupIP t pools socks5Error gomaxprocs c now done_ st0 = (Ok u, st) →
  0 ≤ dnsExchangeIdx st0 → 0 ≤ dCacheCapacity c < 2 ^ 30 → dnsInv st.
Proof.
  intros E Hi Hc. pose proof (setDNS_spec hash bootstrapLookupIP t pools socks5Error gomaxprocs c now done_ st0) as Hs.
  rewrite E in Hs. destruct Hs as (Hi' & _ & _ & _ & _ & _ & _ & Hca & _).
  pose proof (fresh_caches_inv gomaxprocs c _ _ Hc Hca) as Hf. split; [lia|apply Hf..].
Qed.

(** The states a configured resolver can be in: after any operations, a resolution
    that joined another one having joined one started in such a state. *)
Inductive reached (st : dnsState W) : dnsState W → Prop :=
| reached_start : reached st st
| reached_op o st1 : reached st st1 → opOK o → reached st (runOp o st1)
| reached_join l domain mode cacheTTL now done_ st1 : reached st st1 → mode ≠ DNSModeUnset →
    fl_mode l ≠ DNSModeUnset → reached st (fl_start l) →
    reached st (dnsResolve (Some l) domain mode cacheTTL now done_ st1).2.

Lemma reached_inv st st' : dnsInv st → reached st st' → dnsInv st'.
Proof.
  intros Hst. induction 1 as [|o st1 _ IH Ho|l d mode ttl now done_ st1 _ IH Hm Hl _ IHl]; [done| |].
  - destruct o; simpl in *; (eapply safe_inv; [|exact IH]);
      [by apply safe_dnsResolve|apply safe_bootstrap|apply safe_exchange|apply safe_remember].
  - eapply safe_inv; [|exact IH]. apply safe_dnsResolve; [done|]. by intros l' [= <-].
Qed.

(** C9: integrity of resolution.  Once DNS is configured, whatever is resolved,
    asked or remembered in between, resolving a domain never panics.  An address
    obtained from the network is that of the first record of the family that the
    mode chooses in a successful answer to the question for that very domain (the
    second family only after an answer without the first), where the mode is that
    of the resolution that ran: the caller's own, or, when calls for the domain are
    merged and another one was in flight, the mode of that one.  An address from
    the cache was once obtained for that very domain. *)
Theorem resolve_integrity c now0 done0 st0 u st st1 leader domain mode cacheTTL now done_ :
  setDNS hash bootstrapLookupIP t pools socks5Error gomaxprocs c now0 done0 st0 = (Ok u, st) →
  0 ≤ dnsExchangeIdx st0 → 0 ≤ dCacheCapacity c < 2 ^ 30 → reached st st1 → mode ≠ DNSModeUnset →
  (∀ l, leader = Some l → fl_mode l ≠ DNSModeUnset ∧ reached st (fl_start l)) →
  match (dnsResolve leader domain mode cacheTTL now done_ st1).1 with
  | Ok (ip, true) => (∃ qtype, resolved domain qtype ip) ∨ bootstrapped domain ip
  | Ok (ip, false) => ∃ qtype, chosen domain (ranMode (dnsResolveGroup st1) leader mode) qtype ∧ resolved domain qtype ip
  | Err _ => True
  | Panic => False
  end.
Proof.
  intros E Hi Hc Hr Hm Hl. pose proof (configured_inv _ _ _ _ _ _ E Hi Hc) as Hst. pose proof (reached_inv st st1 Hst Hr) as Hinv.
  assert (leaderOK leader) as Hlead by (intros l ->; destruct (Hl l eq_refl); split; [done|by apply (reached_inv st)]).
  by apply dnsResolve_integrity.
Qed.

(** *** Answers are kept *)

(** A part of the state that the network and the rotation do not touch, and code
    that does not touch it. *)
Definition stable {X} (f : dnsState W → X) : Prop :=
  (∀ w st, f (setWorld w st) = f st) ∧ (∀ i st, f (setIndex i st) = f st).

Definition keeps {X A} (f : dnsState W → X) (m : dnsM A) : Prop := ∀ st, f (m st).2 = f st.

Lemma keeps_lift {X A} (f : dnsState W → X) (r : res A) : keeps f (liftD r).
Proof. by intros st. Qed.

Lemma keeps_ret {X A} (f : dnsState W → X) (a : A) : keeps f (mret a).
Proof. by intros st. Qed.

Lemma keeps_read {X A} (f : dnsState W → X) (g : dnsState W → A) : keeps f (readD g).
Proof. by intros st. Qed.

Lemma keeps_bind {X A B} (f : dnsState W → X) (m : dnsM A) (k : A → dnsM B) :
  keeps f m → (∀ a, keeps f (k a)) → keeps f (m ≫= k).
Proof.
  intros Hm Hk st. unfold mbind, dnsM_bind. specialize (Hm st).
  destruct (m st) as [[a|e|] st1]; [|done..]. specialize (Hk a st1). simpl in *. congruence.
Qed.

Lemma keeps_caught {X A} (f : dnsState W → X) (m : dnsM A) (g : error → error) : keeps f m →
  keeps f (λ st, match m st with (Err e, st') => (Err (g e), st') | r => r end).
Proof. intros Hm st. specialize (Hm st). by destruct (m st) as [[a|e|] st']. Qed.

Hint Resolve keeps_lift keeps_ret keeps_read keeps_bind : lumine.

Lemma keeps_onWorld {X A} (f : dnsState W → X) (g : W → res A * W) : stable f → keeps f (onWorld g).
Proof. intros [Hw _] st. unfold onWorld. destruct (g (world st)). apply Hw. Qed.

Lemma keeps_loop {X} (f : dnsState W → X) k i start us req e : stable f → keeps f (exchangeLoop ask k i start us req e).
Proof.
  intros Hf. revert i e. induction k as [|k IH]; intros i e st; cbn [exchangeLoop]; [apply Hf|].
  destruct (idx us _) as [u|]; [|done]. pose proof (keeps_onWorld f (ask u req) Hf st) as Hw.
  destruct (onWorld (ask u req) st) as [[resp|e'|] st']; simpl in Hw; [|specialize (IH (i + 1) (Some e') st'); congruence|done].
  cbn [snd]. destruct Hf as [_ Hi]. rewrite Hi. done.
Qed.

Lemma keeps_exchange {X} (f : dnsState W → X) req : stable f → keeps f (exchangeMsg req).
Proof.
  intros Hf. apply keeps_bind; [apply keeps_read|]. intros us. case_bool_decide.
  - apply keeps_bind; [apply keeps_read|]. intros [u'|]; [by apply keeps_onWorld|apply keeps_lift].
  - apply keeps_bind; [apply keeps_read|]. intros start. by apply keeps_loop.
Qed.

Lemma keeps_answer {X} (f : dnsState W → X) domain mode msg resp : stable f →
  keeps f (answerFor ask newId domain mode msg resp).
Proof.
  intros Hf. assert (∀ qt pick, keeps f (secondTry ask newId domain qt pick msg)) as Hs.
  { intros qt pick. unfold secondTry. apply keeps_bind; [unfold question; auto with lumine|]. intros m.
    apply keeps_bind; [by apply (keeps_caught f _ (λ e, opError "dns exchange" (joinError [e]))), keeps_exchange|].
    intros r. apply keeps_bind; [auto with lumine|]. intros _. cbv zeta. case_bool_decide; auto with lumine. }
  unfold answerFor. cbv zeta. destruct mode; try case_bool_decide; auto with lumine.
Qed.

Lemma keeps_first {X} (f : dnsState W → X) domain mode msg : keeps f (firstQuestion newId domain mode msg).
Proof. unfold firstQuestion, question. destruct mode; auto with lumine. Qed.

Lemma keeps_asking {X} (f : dnsState W → X) op msg : stable f → keeps f (with_strD op (exchangeMsg msg)).
Proof. intros Hf. by apply (keeps_caught f _ (opError op)), keeps_exchange. Qed.

Lemma stable_cache : stable (@dnsCache W).
Proof. by split. Qed.

Lemma stable_ipCache : stable (@ipDomainCache W).
Proof. by split. Qed.

(** The reverse cache is not touched by a resolution. *)
Lemma keeps_ipCache leader domain mode cacheTTL now done_ : keeps ipDomainCache (dnsResolve leader domain mode cacheTTL now done_).
Proof.
  assert (∀ k now, keeps ipDomainCache (getCached hash k now)) as Hg.
  { intros k n st. unfold getCached. by destruct (cacheGet hash k n (dnsCache st)) as [[? ?]|]. }
  assert (∀ k v lt now, keeps ipDomainCache (addCached hash k v lt now)) as Ha.
  { intros k v lt n st. unfold addCached. by destruct (cacheAdd hash k v lt n (dnsCache st)). }
  unfold Dns.dnsResolve. apply keeps_bind; [auto|]. intros [ip|]; [apply keeps_ret|].
  apply keeps_bind; [apply keeps_read|]. intros group. apply keeps_bind; [|auto with lumine].
  destruct (if group : bool then leader else None) as [l|]; [apply keeps_lift|]. unfold Dns.doDNSResolve.
  apply keeps_bind; [apply keeps_first|]. intros msg. apply keeps_bind; [apply keeps_read|]. intros o. cbv zeta.
  apply keeps_bind; [apply keeps_asking, stable_ipCache|]. intros resp. apply keeps_bind; [apply keeps_lift|]. intros _.
  apply keeps_bind; [apply keeps_answer, stable_ipCache|]. intros a. apply keeps_bind; [|auto with lumine].
  destruct (_ && _); auto with lumine.
Qed.

(** The last step of a resolution is to keep its answer. *)
Lemma doDNSResolve_keeps domain mode cacheTTL now st ip st' : 0 < cacheTTL →
  doDNSResolve domain mode cacheTTL now st = (Ok ip, st') →
  ∃ st1, dnsCache st1 = dnsCache st ∧ addCached hash domain ip cacheTTL now st1 = (Ok tt, st').
Proof.
  intros Httl. unfold Dns.doDNSResolve.
  intros (msg & s1 & E1 & (o & s2 & E2 & E)%dnsM_bind_Ok)%dnsM_bind_Ok. cbv zeta in E.
  apply dnsM_bind_Ok in E as (resp & s3 & E3 & (x & s4 & E4 & (a & s5 & E5 & (x' & s6 & E6 & [= <- <-])%dnsM_bind_Ok)%dnsM_bind_Ok)%dnsM_bind_Ok).
  pose proof (keeps_first dnsCache domain mode newMsg st) as K1. rewrite E1 in K1.
  pose proof (keeps_read dnsCache edns0SubnetOpt s1) as K2. rewrite E2 in K2.
  match type of E3 with with_strD ?op (Dns.exchangeMsg _ ?m) _ = _ =>
    pose proof (keeps_asking dnsCache op m stable_cache s2) as K3 end. rewrite E3 in K3.
  pose proof (keeps_lift dnsCache (checkRcode resp) s3) as K4. rewrite E4 in K4.
  match type of E5 with answerFor _ _ _ _ ?m _ _ = _ => pose proof (keeps_answer dnsCache domain mode m resp stable_cache s4) as K5 end.
  rewrite E5 in K5. exists s5. simpl in *. split; [congruence|].
  destruct x'. destruct (Z.eqb_spec cacheTTL 0); [lia|].
  destruct (Z.eqb_spec cacheTTL unsetInt) as [Eu|]; [unfold unsetInt in Eu; lia|]. exact E6.
Qed.

(** An answer is kept.  With a cache, the address a domain was resolved to is
    returned again for as long as the policy's lifetime says, without asking any
    upstream, whichever mode the later request asks under. *)
Theorem resolve_once leader' domain mode cacheTTL now done_ st ip st1 mode' cacheTTL' t' done' :
  dnsInv st → dnsCache st ≠ None → mode ≠ DNSModeUnset → 0 < cacheTTL →
  dnsResolve None domain mode cacheTTL now done_ st = (Ok (ip, false), st1) →
  t' < expire cacheTTL done_ →
  ∃ st2, dnsResolve leader' domain mode' cacheTTL' t' done' st1 = (Ok (ip, true), st2) ∧ world st2 = world st1.
Proof.
  intros Hinv Hc Hm Httl E Ht. unfold Dns.dnsResolve in E.
  apply dnsM_bind_Ok in E as (hit & s1 & E1 & E). destruct hit as [ip'|]; [by injection E|].
  apply dnsM_bind_Ok in E as (group & s1b & [= _ <-] & E).
  replace (if group : bool then None else None) with (@None (@flight W)) in E by (by destruct group).
  apply dnsM_bind_Ok in E as (ip' & s2 & E2 & [= -> ->]).
  destruct (doDNSResolve_keeps _ _ _ _ _ _ _ Httl E2) as (s3 & Hs3 & E3).
  destruct (safe_getCached domain now st Hinv) as (r & s1' & E1' & Hinv1 & _). rewrite E1 in E1'. injection E1' as <- <-.
  destruct (safe_doDNSResolve domain mode cacheTTL done_ Hm s1 Hinv1) as (r2 & s2' & E2' & _ & _ & HQ).
  rewrite E2 in E2'. injection E2' as <- <-. destruct (HQ ip eq_refl) as (qt & _ & Hq).
  unfold addCached in E3. rewrite Hs3 in E3. destruct Hinv1 as [_ Hcache _].
  unfold getCached, cacheGet in E1. destruct (dnsCache st) as [lru0|]; [|done].
  destruct (ShardedGet _ _ _ _ _ lru0) as [[r0 lru1]|]; [|done]. cbn in E1. injection E1 as _ <-. cbn in Hcache, E3.
  destruct (cacheInv_add_get hash [] [] hash_u32 cachedOK lru1 domain ip cacheTTL done_ t' Hcache) as (b & l1 & l2 & Ea & _ & Eg).
  { left. by exists qt. }
  { by right. }
  rewrite Ea in E3. cbn in E3. injection E3 as <-.
  exists (setCache (Some l2) s3). unfold Dns.dnsResolve, mbind, dnsM_bind, getCached, cacheGet. cbn. rewrite Eg. done.
Qed.

(** What the resolver resolves it can find again: for the lifetime of the
    reverse mapping the address leads back to the domain, unless it is a live
    synthetic address of another one. *)
Theorem resolve_lookup_roundtrip leader domain mode now done_ st ip cached st1 t' stores :
  dnsInv st → ipDomainCache st ≠ None → mode ≠ DNSModeUnset → domain ≠ [] → ip ≠ [] →
  leaderOK leader → Resolve hash ask newId leader domain mode now done_ st = (Ok (ip, cached), st1) →
  unixMilli t' < expire reverseMappingTTL done_ → (lookupFakeDomainByIP ip t' stores).1 = None →
  ∃ st2, LookupDomain hash ip t' stores st1 = (Ok (Some domain, (lookupFakeDomainByIP ip t' stores).2), st2).
Proof.
  intros Hinv Hc Hm Hd Hip Hlead E Ht Hfake. unfold Resolve in E.
  apply dnsM_bind_Ok in E as ([ip' cached'] & s1 & E1 & E). apply dnsM_bind_Ok in E as (x & s2 & E2 & [= -> -> ->]).
  destruct (safe_dnsResolve leader domain mode reverseMappingTTL now done_ Hm Hlead st Hinv) as (r & s1' & E1' & Hinv1 & _).
  rewrite E1 in E1'. injection E1' as <- <-.
  assert (ipDomainCache s1 = ipDomainCache st) as Hk.
  { pose proof (keeps_ipCache leader domain mode reverseMappingTTL now done_ st) as Hk. by rewrite E1 in Hk. }
  unfold rememberDomainIPMapping in E2. rewrite !bool_decide_eq_false_2 in E2 by done. cbn [orb] in E2.
  destruct Hinv1 as [_ _ Hipc]. rewrite Hk in *. destruct (ipDomainCache st) as [lru|]; [|done]. cbn in E2, Hipc.
  destruct (cacheInv_add_get hash [] [] hash_u32 (λ _ _, True) lru ip domain reverseMappingTTL done_ (unixMilli t') Hipc I)
    as (b & l1 & l2 & Ea & _ & Eg); [by right|].
  rewrite Ea in E2. cbn in E2. injection E2 as _ <-.
  exists (setIPCache (Some l2) s1). unfold LookupDomain, lookupDomainByIP.
  destruct (lookupFakeDomainByIP ip t' stores) as [r' stores']. simpl in Hfake. subst r'.
  rewrite bool_decide_eq_false_2 by done. cbn. rewrite Eg. done.
Qed.

End Genuine.

(** ** Examples *)

(** The first of two upstreams is down; the world counts the questions. *)
Definition demoUp (addr : gostring) : upstream := upClient (plainClient (mkClient [] 0 0 0 0 None)) addr.

Definition demoAsk (u : upstream) (req : Msg) (w : nat) : res Msg * nat :=
  (if bool_decide (match u with upClient _ a => a | _ => [] end = lit "1.1.1.1:53") then Err (sysError 111)
   else Ok (mkMsg (mId req) 0 (mQuestion req)
              match mQuestion req with
              | [q] => if qType q =? TypeA then [RR_A (demoHdr TypeA) [93; 184; 216; 34]] else []
              | _ => []
              end [] []), S w).

Definition demoGenuine (req resp : Msg) : Prop := mQuestion resp = mQuestion req ∧ mId resp = mId req.

Lemma demoAsk_genuine u req w resp w' : demoAsk u req w = (Ok resp, w') → demoGenuine req resp.
Proof. unfold demoAsk. case_bool_decide; [done|]. by intros [= <- <-]. Qed.

Lemma demoAsk_safe u req w : (demoAsk u req w).1 ≠ Panic.
Proof. unfold demoAsk. by case_bool_decide. Qed.

Definition demoLookup (h : gostring) (w : nat) : res (list bytes) * nat := (Ok [[8; 8; 8; 8]], S w).

Definition demoHash (s : gostring) : Z := u32 (zlen s * 65537).

Lemma demoHash_u32 k : 0 ≤ demoHash k < 2 ^ 32.
Proof. apply Z.mod_pos_bound. lia. Qed.

Definition demoDNSConfig : DNSConfig :=
  mkDNSConfig "udp" "1.1.1.1:53" [lit " 9.9.9.9:53 "; lit "1.1.1.1:53"] false false 64 [] 0 [] [] [] [].

Definition noURL : GoURL := λ _, None.

Definition demoSetDNS : res unit * dnsState nat :=
  @setDNS nat demoHash demoLookup noURL goTimeNone (emptyTables unsetPolicy) noPools (λ _, None) 1 demoDNSConfig 0 0
    (unconfigured 0%nat).

Lemma exchange_rotation_witness :
  let st := demoSetDNS.2 in
  dnsExchanges st = [demoUp "1.1.1.1:53"; demoUp "9.9.9.9:53"] ∧
  let '(r, st') := exchangeMsg demoAsk (mkMsg 7 0 [] [] [] []) st in
  exchanged st st' ∧
  match r with
  | Ok resp => ∃ k u es w1, dnsExchanges st !! k = Some u ∧ asked demoAsk (mkMsg 7 0 [] [] [] []) (take k (dnsExchanges st)) (world st) es w1 ∧
      demoAsk u (mkMsg 7 0 [] [] [] []) w1 = (Ok resp, world st') ∧ idx (dnsExchanges st) (dnsExchangeIdx st') = Some u
  | Err e => ∃ es, asked demoAsk (mkMsg 7 0 [] [] [] []) (dnsExchanges st) (world st) es (world st') ∧ last es = Some e ∧ dnsExchangeIdx st' = 0
  | Panic => False
  end.
Proof.
  split; [vm_compute; reflexivity|].
  refine (exchange_rotation demoAsk (mkMsg 7 0 [] [] [] []) demoSetDNS.2 _ _ _).
  - by_decide.
  - vm_compute. discriminate.
  - intros u w. apply demoAsk_safe.
Defined.

(** Calls are merged: the second one, under a mode for IPv6 only, finds the first in
    flight and gets its IPv4 address. *)
Definition mergedConfig : DNSConfig :=
  mkDNSConfig "udp" "9.9.9.9:53" [] true false 64 [] 0 [] [] [] [].

Definition mergedSetDNS : res unit * dnsState nat :=
  @setDNS nat demoHash demoLookup noURL goTimeNone (emptyTables unsetPolicy) noPools (λ _, None) 1 mergedConfig 0 0
    (unconfigured 0%nat).

Lemma resolve_integrity_witness :
  (∃ st', @dnsResolve nat demoHash demoAsk noDNSLib (λ _, 7) None "example.com" DNSModePreferIPv6 second 50 60
          (exchangeMsg demoAsk (mkMsg 7 0 [] [] [] []) demoSetDNS.2).2 = (Ok (lit "93.184.216.34", false), st') ∧
    ∃ qtype, chosen demoGenuine "example.com" DNSModePreferIPv6 qtype ∧ resolved demoGenuine "example.com" qtype "93.184.216.34") ∧
  (∃ st', @dnsResolve nat demoHash demoAsk noDNSLib (λ _, 7) (Some (mkFlight DNSModeIPv4Only second 60 mergedSetDNS.2))
          "example.com" DNSModeIPv6Only second 50 60 mergedSetDNS.2 = (Ok (lit "93.184.216.34", false), st') ∧
    ∃ qtype, chosen demoGenuine "example.com" DNSModeIPv4Only qtype ∧ resolved demoGenuine "example.com" qtype "93.184.216.34").
Proof.
  split.
  - eexists. split; [vm_compute; reflexivity|].
    refine (@resolve_integrity nat demoHash demoHash_u32 noDNSLib demoAsk (λ _, 7) demoLookup demoGenuine demoAsk_genuine
            demoAsk_safe _ noURL goTimeNone (emptyTables unsetPolicy) noPools (λ _, None) 1 demoDNSConfig 0 0 (unconfigured 0%nat)
            tt demoSetDNS.2 (exchangeMsg demoAsk (mkMsg 7 0 [] [] [] []) demoSetDNS.2).2 None
            "example.com" DNSModePreferIPv6 second 50 60 _ _ _ _ _ _).
    + done.
    + vm_compute. reflexivity.
    + vm_compute. discriminate.
    + vm_compute. split; [discriminate|reflexivity].
    + exact (reached_op _ _ _ _ _ (opQuery (mkMsg 7 0 [] [] [] [])) _ (reached_start _ _ _ _ _) I).
    + done.
    + done.
  - eexists. split; [vm_compute; reflexivity|].
    refine (@resolve_integrity nat demoHash demoHash_u32 noDNSLib demoAsk (λ _, 7) demoLookup demoGenuine demoAsk_genuine
            demoAsk_safe _ noURL goTimeNone (emptyTables unsetPolicy) noPools (λ _, None) 1 mergedConfig 0 0 (unconfigured 0%nat)
            tt mergedSetDNS.2 mergedSetDNS.2 (Some (mkFlight DNSModeIPv4Only second 60 mergedSetDNS.2))
            "example.com" DNSModeIPv6Only second 50 60 _ _ _ _ _ _).
    + done.
    + vm_compute. reflexivity.
    + vm_compute. discriminate.
    + vm_compute. split; [discriminate|reflexivity].
    + apply reached_start.
    + done.
    + intros l Hl. apply (f_equal (from_option id l)) in Hl. cbn [from_option id] in Hl. rewrite <- Hl. split; [done|apply reached_start].
Defined.

Lemma demo_inv : @dnsInv nat demoHash demoLookup demoGenuine demoSetDNS.2.
Proof.
  eapply (@configured_inv nat demoHash demoHash_u32 demoLookup demoGenuine noURL goTimeNone
            (emptyTables unsetPolicy) noPools (λ _, None) 1 demoDNSConfig 0 0 (unconfigured 0%nat) tt).
  - vm_compute. reflexivity.
  - vm_compute. discriminate.
  - vm_compute. split; [discriminate|reflexivity].
Qed.

Lemma resolve_once_witness :
  ∃ st1, @dnsResolve nat demoHash demoAsk noDNSLib (λ _, 7) None "example.com" DNSModeIPv4Only second 50 60 demoSetDNS.2
           = (Ok (lit "93.184.216.34", false), st1) ∧ world st1 = 2%nat ∧
  ∃ st2, @dnsResolve nat demoHash demoAsk noDNSLib (λ _, 7) None "example.com" DNSModeIPv6Only second 70 80 st1
           = (Ok (lit "93.184.216.34", true), st2) ∧ world st2 = world st1.
Proof.
  eexists. split; [vm_compute; reflexivity|]. split; [vm_compute; reflexivity|].
  refine (@resolve_once nat demoHash demoHash_u32 noDNSLib demoAsk (λ _, 7) demoLookup demoGenuine demoAsk_genuine
            demoAsk_safe None "example.com" DNSModeIPv4Only second 50 60 demoSetDNS.2 "93.184.216.34" _ DNSModeIPv6Only second 70 80
            demo_inv _ _ _ _ _).
  - by_decide.
  - done.
  - vm_compute. reflexivity.
  - vm_compute. reflexivity.
  - vm_compute. reflexivity.
Defined.

Lemma resolve_lookup_roundtrip_witness :
  ∃ stores st1, newFakeStores = Some stores ∧
  @Resolve nat demoHash noDNSLib demoAsk (λ _, 7) None "example.com" DNSModeIPv4Only 50 60 demoSetDNS.2
    = (Ok (lit "93.184.216.34", false), st1) ∧
  ∃ st2, LookupDomain demoHash "93.184.216.34" (second * 200) stores st1
    = (Ok (Some (lit "example.com"), (lookupFakeDomainByIP "93.184.216.34" (second * 200) stores).2), st2).
Proof.
  eexists _, _. split; [vm_compute; reflexivity|]. split; [vm_compute; reflexivity|].
  refine (@resolve_lookup_roundtrip nat demoHash demoHash_u32 noDNSLib demoAsk (λ _, 7) demoLookup demoGenuine demoAsk_genuine
            demoAsk_safe None "example.com" DNSModeIPv4Only 50 60 demoSetDNS.2 "93.184.216.34" false _ (second * 200) _
            demo_inv _ _ _ _ _ _ _ _).
  - by_decide.
  - done.
  - done.
  - done.
  - done.
  - vm_compute. reflexivity.
  - vm_compute. reflexivity.
  - vm_compute. reflexivity.
Defined.
