(* ===== verification/DnsHijack.v ===== *)
(** * Synthetic answers for the tunnel interface (core/dns_hijack.go)

    A query that the tunnel captures is put to the upstream.  In the answer for a
    domain with a rule the addresses are replaced by one synthetic address, which
    later traffic to that address is planned by; every other answer passes
    unchanged.  The state is the DNS configuration and the two stores of
    synthetic addresses.  Records always have a header, so the tests for a nil
    header are left out; so is the log output. *)

From S2P Require Import Prelude Errors Netip AddrTrie Pattern FakeIP Policy Routing Ring LRU LRUSpec Sharded DnsMsg Dns Resolver.
Local Open Scope Z_scope.

Definition ttlOrDefault (ttl : Z) : Z := if ttl =? 0 then 300 else ttl.

Definition buildFakeAnswerRR (header : RR_Header) (fakeIP : gostring) : res RR :=
  let ttl := if hTtl header =? 0 then defaultFakeTTL else hTtl header in
  if hRrtype header =? TypeA then
    match ParseIP fakeIP ≫= To4 with
    | None => fail "invalid fake ipv4 address"
    | Some ip => Ok (RR_A (mkHdr (hName header) TypeA (hClass header) ttl) ip)
    end
  else if hRrtype header =? TypeAAAA then
    match ParseIP fakeIP with
    | Some ip =>
        if bool_decide (To16 ip = None) || negb (bool_decide (To4 ip = None)) then fail "invalid fake ipv6 address"
        else Ok (RR_AAAA (mkHdr (hName header) TypeAAAA (hClass header) ttl) ip)
    | None => fail "invalid fake ipv6 address"
    end
  else fail "unsupported fake answer type".

Definition buildQuestionFakeAnswerRR (q : Question) (fakeIP : gostring) (ttl : Z) : res RR :=
  buildFakeAnswerRR (mkHdr (qName q) (qType q) (qClass q) ttl) fakeIP.

(** The least nonzero TTL of the records, continuing from [minTTL]. *)
Definition consider (minTTL : Z) (rrs : list RR) : Z :=
  foldl (λ m rr, let ttl := hTtl (Header rr) in
                 if ttl =? 0 then m else if (m =? 0) || (ttl <? m) then ttl else m) minTTL rrs.

Definition fallbackFakeTTL (resp : Msg) : Z :=
  let minTTL := consider (consider (consider 0 (mAnswer resp)) (mNs resp)) (mExtra resp) in
  if minTTL =? 0 then defaultFakeTTL else minTTL.

(** *** The text of the log *)

Definition boolToText (value : bool) : gostring := if value then "true" else "false".

Definition typeName `{DNSLib} (t : Z) : gostring :=
  if bool_decide (TypeToString t = []) then "TYPE" ++ itoa t else TypeToString t.

Definition summarizeRR `{DNSLib} (rr : RR) : gostring :=
  match rr with
  | RR_A _ a => "A=" ++ IPString a
  | RR_AAAA _ a => "AAAA=" ++ IPString a
  | RR_CNAME _ target => "CNAME=" ++ target
  | RR_HTTPS _ => "HTTPS"
  | RR_SVCB _ => "SVCB"
  | RR_OPT h _ | RR_Other h => typeName (hRrtype h)
  end.

Definition summarizeDNSAnswerSet `{DNSLib} (answer : list RR) : gostring :=
  if bool_decide (answer = []) then "none" else
  let limit := Z.min (zlen answer) 4 in
  let result := join_with "," (summarizeRR <$> take (Z.to_nat limit) answer) in
  if limit <? zlen answer then result ++ ",+" ++ itoa (zlen answer - limit) else result.

Example hijack_log_examples :
  @summarizeDNSAnswerSet noDNSLib [] = "none" ∧
  @summarizeDNSAnswerSet noDNSLib
    [RR_CNAME (demoHdr TypeCNAME) "b.com."; RR_A (demoHdr TypeA) [1; 2; 3; 4]; RR_Other (demoHdr 16);
     RR_HTTPS (demoHdr TypeHTTPS); RR_SVCB (demoHdr TypeSVCB)]
  = "CNAME=b.com.,A=1.2.3.4,TYPE16,HTTPS,+1".
Proof. vm_compute. split; reflexivity. Qed.

Section Hijack.
Context {W : Type} `{GoUnicode} (t : Tables) (ask : upstream → Msg → W → res Msg * W).

(** [allocateFakeIP], total. *)
Definition allocate (op : String.string) (domain : gostring) (qtype ttl now : Z) (stores : fakeStores)
    : res gostring * fakeStores :=
  match allocateFakeIP domain qtype ttl now stores with
  | Some (r, stores') => (with_str op r, stores')
  | None => (Panic, stores)
  end.

(** The loop over the answer: [acc] is the new answer, [replacedNames] the owner
    names that have their synthetic record, [fakeIP] the address, empty before
    it is allocated. *)
Fixpoint replaceLoop (domain : gostring) (qtype now : Z) (rrs acc : list RR) (replacedNames : list gostring)
    (fakeIP : gostring) (replaced : bool) (stores : fakeStores) : res (list RR * bool) * fakeStores :=
  match rrs with
  | [] => (Ok (acc, replaced), stores)
  | rr :: rrs' =>
      let header := Header rr in
      if negb (hRrtype header =? qtype)
      then replaceLoop domain qtype now rrs' (acc ++ [rr]) replacedNames fakeIP replaced stores
      else
        let '(alloc, stores) :=
          if bool_decide (fakeIP = []) then allocate "allocate fake ip" domain qtype (hTtl header) now stores
          else (Ok fakeIP, stores) in
        match alloc with
        | Err e => (Err e, stores)
        | Panic => (Panic, stores)
        | Ok fakeIP =>
            if bool_decide (hName header ∈ replacedNames)
            then replaceLoop domain qtype now rrs' acc replacedNames fakeIP true stores
            else
              match buildFakeAnswerRR header fakeIP with
              | Ok fakeRR => replaceLoop domain qtype now rrs' (acc ++ [fakeRR]) (hName header :: replacedNames) fakeIP true stores
              | Err e => (Err e, stores)
              | Panic => (Panic, stores)
              end
        end
  end.

(** The answer for a domain with a rule. *)
Definition fakeReply (req : Msg) (domain : gostring) (qtype now : Z) (upstreamResp : Msg) (stores : fakeStores)
    : res Msg * fakeStores :=
  match replaceLoop domain qtype now (mAnswer upstreamResp) [] [] [] false stores with
  | (Ok (answer, true), stores') => (Ok (setAnswer upstreamResp answer), stores')
  | (Ok (answer, false), stores') =>
      match mQuestion req with
      | [] => (Ok upstreamResp, stores')
      | q :: _ =>
          let ttl := fallbackFakeTTL upstreamResp in
          match allocate "allocate fallback fake ip" domain qtype ttl now stores' with
          | (Ok fakeIP, stores'') =>
              (fakeRR ← buildQuestionFakeAnswerRR q fakeIP ttl; Ok (setAnswer upstreamResp [fakeRR]), stores'')
          | (Err e, stores'') => (Err e, stores'')
          | (Panic, stores'') => (Panic, stores'')
          end
      end
  | (Err e, stores') => (Err e, stores')
  | (Panic, stores') => (Panic, stores')
  end.

Definition hijackM (A : Type) : Type := dnsState W * fakeStores → res A * (dnsState W * fakeStores).

Definition passUpstream (req : Msg) : hijackM Msg := λ '(st, stores),
  let '(r, st') := exchangeUpstream ask req st in (r, (st', stores)).

Definition buildFakeAddressResponse (req : Msg) (domain : gostring) (qtype now : Z) : hijackM Msg := λ '(st, stores),
  match exchangeUpstream ask req st with
  | (Err e, st') => (Err (opError "upstream dns exchange" e), (st', stores))
  | (Panic, st') => (Panic, (st', stores))
  | (Ok upstreamResp, st') =>
      if negb (mRcode upstreamResp =? RcodeSuccess) then (Ok upstreamResp, (st', stores))
      else if negb (shouldUseFakeIP t domain) then (Ok upstreamResp, (st', stores))
      else let '(r, stores') := fakeReply req domain qtype now upstreamResp stores in (r, (st', stores'))
  end.

Definition queryDomain (q : Question) : gostring := to_lower (trim_suffix (qName q) ".").

Definition handleDNSQuery (req : Msg) (now : Z) : hijackM Msg :=
  match mQuestion req with
  | [q] =>
      if negb (qClass q =? ClassINET) then passUpstream req
      else
        let domain := queryDomain q in
        if qType q =? TypeHTTPS then passUpstream req
        else if qType q =? TypeA then buildFakeAddressResponse req domain TypeA now
        else if qType q =? TypeAAAA then buildFakeAddressResponse req domain TypeAAAA now
        else passUpstream req
  | _ => passUpstream req
  end.

Context `{DNSLib}.

Definition HandleDNSQueryPacket (payload : bytes) (now : Z) : hijackM bytes := λ st,
  match with_str "unpack hijacked dns request" (Unpack payload) with
  | Ok req =>
      let '(r, st') := handleDNSQuery req now st in
      (resp ← r; with_str "pack hijacked dns response" (Pack resp), st')
  | Err e => (Err e, st)
  | Panic => (Panic, st)
  end.
End Hijack.

(** ** Synthetic records *)

(** The stores of the program: well formed, with its two pools. *)
Definition programStores (st : fakeStores) : Prop :=
  wfStores st ∧ ParsePrefix fakeIPv4CIDR = Some (fs_prefix (v4Store st)) ∧
  ParsePrefix fakeIPv6CIDR = Some (fs_prefix (v6Store st)).

Definition familyStore (qtype : Z) (st : fakeStores) : fakeIPStore := if qtype =? TypeA then v4Store st else v6Store st.

Definition rrAddr (rr : RR) : option bytes :=
  match rr with
  | RR_A _ a | RR_AAAA _ a => Some a
  | _ => None
  end.

(** A record of the type asked for, with the address [ip]. *)
Definition synthetic (qtype : Z) (ip : gostring) (rr : RR) : Prop :=
  hRrtype (Header rr) = qtype ∧ IPString <$> rrAddr rr = Some ip.

Lemma pool4_range :
  poolBase (mkPrefix (Addr4 0xc6120000) 15) = 3323068416 ∧ poolLast (mkPrefix (Addr4 0xc6120000) 15) = 3323199487.
Proof. split; vm_compute; reflexivity. Qed.

Lemma pool6_range :
  2 ^ 48 ≤ poolBase (mkPrefix (Addr6 0xfd666c756d6901000000000000000000 []) 56) ∧
  poolLast (mkPrefix (Addr6 0xfd666c756d6901000000000000000000 []) 56) < 2 ^ 128.
Proof. split; vm_compute; [discriminate|reflexivity]. Qed.

Lemma v4_pool_record ip : inPool (mkPrefix (Addr4 0xc6120000) 15) ip →
  ∃ a, ParseIP ip ≫= To4 = Some a ∧ IPString a = ip.
Proof.
  intros (v & Hv & ->). destruct pool4_range as [Eb El]. rewrite Eb, El in Hv.
  assert (0 ≤ v < 2 ^ 32) as Hr by (clear -Hv; lia). exists (be_bytes 4 v).
  cbn [addrAt PAddr]. unfold ParseIP. rewrite ParseAddr_AddrString by done. cbn [has_zone mbind option_bind].
  rewrite To4_mapped by done. split; [done|]. unfold IPString, To4, zlen. rewrite be_bytes_length. change (Z.of_nat 4 =? 4) with true. cbv iota.
  unfold AddrFrom4. rewrite be_value_bytes_small; [done|exact Hr].
Qed.

Lemma To4_large v : 2 ^ 48 ≤ v < 2 ^ 128 → To4 (be_bytes 16 v) = None.
Proof.
  intros Hv. unfold To4. assert (zlen (be_bytes 16 v) = 16) as -> by (unfold zlen; by rewrite be_bytes_length).
  cbn [Z.eqb Pos.eqb andb]. rewrite bool_decide_eq_false_2; [done|]. intros E.
  assert (be_value (be_bytes 16 v) = v) as Ev by (apply be_value_bytes_small; change (8 * Z.of_nat 16) with 128; lia).
  rewrite <- (take_drop 12 (be_bytes 16 v)), E, be_value_app in Ev.
  assert (zlen (drop 12 (be_bytes 16 v)) = 4) as El by (unfold zlen; by rewrite length_drop, be_bytes_length).
  pose proof (be_value_range (drop 12 (be_bytes 16 v)) (Forall_drop _ _ _ (be_bytes_wf 16 v))) as Hr.
  rewrite El in *. change (be_value (replicate 10 0 ++ [255; 255])) with 65535 in Ev. lia.
Qed.

Lemma v6_pool_record ip : inPool (mkPrefix (Addr6 0xfd666c756d6901000000000000000000 []) 56) ip →
  ∃ a, ParseIP ip = Some a ∧ To16 a = Some a ∧ To4 a = None ∧ IPString a = ip.
Proof.
  intros (v & Hv & ->). pose proof pool6_range as Hr6.
  assert (2 ^ 48 ≤ v < 2 ^ 128) as Hr by (clear -Hv Hr6; lia). clear Hr6. exists (be_bytes 16 v).
  cbn [addrAt PAddr]. unfold ParseIP. rewrite ParseAddr_AddrString by (cbn; done || lia).
  assert (zlen (be_bytes 16 v) = 16) as El by (unfold zlen; by rewrite be_bytes_length).
  split; [done|]. pose proof (To4_large v Hr) as E4. split_and!; [unfold To16; by rewrite El|done|].
  unfold IPString. rewrite E4, El. cbn [Z.eqb Pos.eqb]. unfold AddrFrom16.
  rewrite be_value_bytes_small; [done|]. change (8 * Z.of_nat 16) with 128. lia.
Qed.

Section Spec.
Context `{GoUnicode}.

(** [ip] leads to [domain] until [deadline]. *)
Definition leadsTo (st : fakeStores) (domain ip : gostring) (deadline : Z) : Prop :=
  isIPText ip = true ∧ to_lower domain ≠ [] ∧ ∀ u, u < deadline → (lookupFakeDomainByIP ip u st).1 = Some (to_lower domain).

(** At least a minute, and no less than the client may keep the record. *)
Definition deadlineOf (now ttl : Z) : Z := now + Z.max fakeIPTTLFloor (ttl * second).

Lemma lifetime_ge now ttl : deadlineOf now (if ttl =? 0 then defaultFakeTTL else ttl) ≤ now + effectiveLifetime (fakeIPLifetime ttl).
Proof.
  unfold deadlineOf, effectiveLifetime, fakeIPLifetime.
  set (x := if ttl =? 0 then defaultFakeTTL else ttl). cbv zeta.
  assert (0 < fakeIPTTLFloor) by done. destruct (Z.ltb_spec (x * second) fakeIPTTLFloor).
  - destruct (Z.leb_spec fakeIPTTLFloor 0); lia.
  - destruct (Z.leb_spec (x * second) 0); lia.
Qed.

Lemma allocate_ok op domain qtype ttl now st :
  programStores st → qtype = TypeA ∨ qtype = TypeAAAA → to_lower domain ≠ [] →
  ∃ r st', allocate op domain qtype ttl now st = (r, st') ∧ programStores st' ∧
  match r with
  | Ok ip => ip ≠ [] ∧ inPool (fs_prefix (familyStore qtype st')) ip ∧
      leadsTo st' domain ip (deadlineOf now (if ttl =? 0 then defaultFakeTTL else ttl))
  | Err _ => poolFull (familyStore qtype st') now
  | Panic => False
  end.
Proof.
  intros (Hwf & P4 & P6) Hqt Hd. pose proof Hwf as (H4 & H6 & E4 & E6).
  assert (∀ ip st', wfStores st' → allocateFakeIP domain qtype ttl now st = Some (Ok ip, st') →
    inPool (fs_prefix (familyStore qtype st')) ip →
    ip ≠ [] ∧ inPool (fs_prefix (familyStore qtype st')) ip ∧
    leadsTo st' domain ip (deadlineOf now (if ttl =? 0 then defaultFakeTTL else ttl))) as Hok.
  { intros ip st' Hst' HA Hpool. split; [|split; [done|]].
    - intros ->. destruct (lookup_allocated _ _ _ _ _ _ _ now Hwf HA) as (Hip & _); [|by vm_compute in Hip].
      pose proof (lifetime_ge now ttl). unfold deadlineOf in *. assert (0 < fakeIPTTLFloor) by done. lia.
    - split; [|split; [done|]].
      + eapply (lookup_allocated _ _ _ _ _ _ _ now Hwf HA). pose proof (lifetime_ge now ttl).
        unfold deadlineOf in *. assert (0 < fakeIPTTLFloor) by done. lia.
      + intros u Hu. eapply (lookup_allocated _ _ _ _ _ _ _ u Hwf HA). pose proof (lifetime_ge now ttl). lia. }
  unfold allocate. unfold allocateFakeIP in *. destruct Hqt as [-> | ->]; cbn [Z.eqb Pos.eqb TypeA TypeAAAA] in *.
  - destruct (Allocate_spec domain (fakeIPLifetime ttl) now _ H4) as (r & s' & E & Hs' & Hp & Hres).
    rewrite E in *. cbn [mbind option_bind] in *. eexists _, _. split; [done|].
    assert (wfStores (mkStores s' (v6Store st))) as Hw by (split_and!; cbn; [done|done|by rewrite Hp|done]).
    split; [split; [done|]; cbn; by rewrite Hp|]. destruct r as [ip|e|]; [| |done]; cbn [with_str].
    + destruct Hres as (_ & Hpool & _). apply Hok; [done|done|]. cbn. by rewrite Hp.
    + destruct Hres as [[? _]|(-> & Hf & _)]; [done|]. exact Hf.
  - destruct (Allocate_spec domain (fakeIPLifetime ttl) now _ H6) as (r & s' & E & Hs' & Hp & Hres).
    rewrite E in *. cbn [mbind option_bind] in *. eexists _, _. split; [done|].
    assert (wfStores (mkStores (v4Store st) s')) as Hw by (split_and!; cbn; [done|done|done|by rewrite Hp]).
    split; [split; [done|]; cbn; by rewrite Hp|]. destruct r as [ip|e|]; [| |done]; cbn [with_str].
    + destruct Hres as (_ & Hpool & _). apply Hok; [done|done|]. cbn. by rewrite Hp.
    + destruct Hres as [[? _]|(-> & Hf & _)]; [done|]. exact Hf.
Qed.

Lemma build_ok st header ip : programStores st → hRrtype header = TypeA ∨ hRrtype header = TypeAAAA →
  inPool (fs_prefix (familyStore (hRrtype header) st)) ip →
  ∃ rr, buildFakeAnswerRR header ip = Ok rr ∧ synthetic (hRrtype header) ip rr ∧
    hTtl (Header rr) = (if hTtl header =? 0 then defaultFakeTTL else hTtl header).
Proof.
  intros (_ & P4 & P6) Ht Hpool. unfold buildFakeAnswerRR. rewrite cidr4 in P4. rewrite cidr6 in P6.
  injection P4 as P4. injection P6 as P6. destruct Ht as [Ht|Ht]; rewrite Ht in *; cbn in Hpool.
  - rewrite <- P4 in Hpool. destruct (v4_pool_record ip Hpool) as (a & -> & Ha). cbn. eexists. split; [done|]. by split; [split; [|cbn; rewrite Ha]|].
  - rewrite <- P6 in Hpool. destruct (v6_pool_record ip Hpool) as (a & Ep & E16 & E4 & Ha). cbn. rewrite Ep, E16, E4. cbn.
    eexists. split; [done|]. by split; [split; [|cbn; rewrite Ha]|].
Qed.
(** *** The loop *)

Definition ofType (qtype : Z) (rr : RR) : Prop := hRrtype (Header rr) = qtype.

#[global] Instance ofType_dec qtype rr : Decision (ofType qtype rr).
Proof. unfold ofType. apply _. Defined.

(** The synthetic records of an answer: all have the address [ip] of the pool, and
    it leads to the domain for as long as the first of them may be kept. *)
Definition hijacked (st : fakeStores) (domain : gostring) (qtype now : Z) (answer : list RR) : Prop :=
  ∃ ip rr0, inPool (fs_prefix (familyStore qtype st)) ip ∧ (∀ rr, rr ∈ answer → ofType qtype rr → synthetic qtype ip rr) ∧
    head (filter (ofType qtype) answer) = Some rr0 ∧ leadsTo st domain ip (deadlineOf now (hTtl (Header rr0))).

(** Where the loop is: before the first replacement, or after it with [fakeIP]
    allocated. *)
Definition loopInv (st : fakeStores) (domain : gostring) (qtype now : Z) (acc : list RR) (names : list gostring)
    (fakeIP : gostring) (replaced : bool) : Prop :=
  programStores st ∧
  if replaced then
    fakeIP ≠ [] ∧ inPool (fs_prefix (familyStore qtype st)) fakeIP ∧
    (∀ rr, rr ∈ acc → ofType qtype rr → synthetic qtype fakeIP rr) ∧
    ∃ rr0, head (filter (ofType qtype) acc) = Some rr0 ∧ leadsTo st domain fakeIP (deadlineOf now (hTtl (Header rr0)))
  else fakeIP = [] ∧ names = [] ∧ filter (ofType qtype) acc = [].

Lemma head_app_Some {A} (l k : list A) x : head l = Some x → head (l ++ k) = Some x.
Proof. by destruct l. Qed.

(** The address is there, or is allocated now. *)
Lemma address_ready st domain qtype now ttl acc names fakeIP replaced :
  qtype = TypeA ∨ qtype = TypeAAAA → to_lower domain ≠ [] → loopInv st domain qtype now acc names fakeIP replaced →
  ∃ alloc st1, (if bool_decide (fakeIP = []) then allocate "allocate fake ip" domain qtype ttl now st
                else (Ok fakeIP, st)) = (alloc, st1) ∧ programStores st1 ∧
    match alloc with
    | Ok ip => ip ≠ [] ∧ inPool (fs_prefix (familyStore qtype st1)) ip ∧
        if replaced then ip = fakeIP ∧ st1 = st
        else leadsTo st1 domain ip (deadlineOf now (if ttl =? 0 then defaultFakeTTL else ttl))
    | Err _ => poolFull (familyStore qtype st1) now
    | Panic => False
    end.
Proof.
  intros Hqt Hd [Hst Hinv]. destruct replaced.
  - destruct Hinv as (Hne & Hp & _). rewrite bool_decide_eq_false_2 by done. by exists (Ok fakeIP), st.
  - destruct Hinv as (-> & _ & _). rewrite bool_decide_eq_true_2 by done.
    destruct (allocate_ok "allocate fake ip" domain qtype ttl now st Hst Hqt Hd) as (r & st1 & -> & Hst1 & Hr).
    by exists r, st1.
Qed.

(** Something is replaced only when there is a record of the type. *)
Lemma replaceLoop_found domain qtype now rrs acc names fakeIP replaced st :
  match (replaceLoop domain qtype now rrs acc names fakeIP replaced st).1 with
  | Ok (_, true) => replaced = false → filter (ofType qtype) rrs ≠ []
  | _ => True
  end.
Proof.
  revert acc names fakeIP replaced st. induction rrs as [|rr rrs IH]; intros acc names fakeIP replaced st; cbn [replaceLoop].
  { by destruct replaced. }
  destruct (Z.eqb_spec (hRrtype (Header rr)) qtype) as [Et|Et]; cbn [negb].
  - assert (filter (ofType qtype) (rr :: rrs) ≠ []) as Hne by (by rewrite filter_cons_True).
    destruct (if bool_decide (fakeIP = []) then _ else _) as [[ip|e|] st1]; [|done..].
    case_bool_decide.
    + by destruct (replaceLoop _ _ _ _ _ _ _ _ _).1 as [[? []]|?|].
    + destruct (buildFakeAnswerRR _ _) as [frr|e|]; [|done..].
      by destruct (replaceLoop _ _ _ _ _ _ _ _ _).1 as [[? []]|?|].
  - rewrite filter_cons_False by done. apply IH.
Qed.

Lemma replaceLoop_ok domain qtype now : qtype = TypeA ∨ qtype = TypeAAAA → to_lower domain ≠ [] →
  ∀ rrs acc names fakeIP replaced st, loopInv st domain qtype now acc names fakeIP replaced →
  ∃ r st', replaceLoop domain qtype now rrs acc names fakeIP replaced st = (r, st') ∧ programStores st' ∧
  match r with
  | Ok (answer, true) => hijacked st' domain qtype now answer ∧
      filter (λ rr, ¬ ofType qtype rr) answer = filter (λ rr, ¬ ofType qtype rr) (acc ++ rrs)
  | Ok (answer, false) => filter (ofType qtype) (acc ++ rrs) = [] ∧ st' = st
  | Err _ => poolFull (familyStore qtype st') now
  | Panic => False
  end.
Proof.
  intros Hqt Hd. induction rrs as [|rr rrs IH]; intros acc names fakeIP replaced st [Hst Hinv]; cbn [replaceLoop].
  { eexists _, st. split; [done|]. split; [done|]. rewrite app_nil_r. destruct replaced; [|naive_solver].
    split; [|done]. destruct Hinv as (_ & Hp & Hsyn & rr0 & Hh & Hl). by exists fakeIP, rr0. }
  destruct (Z.eqb_spec (hRrtype (Header rr)) qtype) as [Et|Et]; cbn [negb].
  2: { destruct (IH (acc ++ [rr]) names fakeIP replaced st) as (r & st' & E & Hst' & Hr).
       - split; [done|]. destruct replaced.
         + destruct Hinv as (Hne & Hp & Hsyn & rr0 & Hh & Hl). split_and!; [done|done| |].
           * intros x [Hx| ->%list_elem_of_singleton]%elem_of_app Hty; [auto|done].
           * exists rr0. rewrite filter_app. split; [by apply head_app_Some|done].
         + destruct Hinv as (-> & -> & Hf). rewrite filter_app, Hf, filter_cons_False by done. done.
       - exists r, st'. rewrite <- app_assoc in Hr. done. }
  destruct (address_ready st domain qtype now (hTtl (Header rr)) acc names fakeIP replaced Hqt Hd (conj Hst Hinv))
    as (alloc & st1 & Ea & Hst1 & Hal).
  rewrite Ea. clear Ea. destruct alloc as [ip|e|]; [|by exists (Err e), st1|done]. destruct Hal as (Hne & Hpool & Hrep).
  assert (filter (λ x, ¬ ofType qtype x) (acc ++ rr :: rrs) = filter (λ x, ¬ ofType qtype x) (acc ++ rrs)) as Efil.
  { rewrite !filter_app. rewrite filter_cons_False by (intros Hn; by apply Hn). done. }
  assert (filter (ofType qtype) (acc ++ rr :: rrs) ≠ []) as Enon.
  { rewrite filter_app, filter_cons_True by done. by destruct (filter _ acc). }
  case_bool_decide as Hin.
  - destruct replaced; [|by destruct Hinv as (_ & -> & _); apply not_elem_of_nil in Hin].
    destruct Hrep as [-> ->]. destruct (IH acc names fakeIP true st) as (r & st' & E & Hst' & Hr); [by split|].
    exists r, st'. split; [done|]. split; [done|]. destruct r as [[answer [|]]|e|]; [|exfalso|done..].
    + by rewrite Efil.
    + destruct Hinv as (_ & _ & _ & rr0 & Hh & _). destruct Hr as [Hr _]. rewrite filter_app in Hr.
      apply app_nil in Hr as [Hr _]. by rewrite Hr in Hh.
  - destruct (build_ok st1 (Header rr) ip Hst1) as (frr & -> & Hsyn & Httl); [by rewrite Et|by rewrite Et|]. rewrite Et in Hsyn.
    assert (ofType qtype frr) as Hfty by apply Hsyn.
    destruct (IH (acc ++ [frr]) (hName (Header rr) :: names) ip true st1) as (r & st' & E & Hst' & Hr).
    { split; [done|]. split; [done|]. split; [done|]. destruct replaced.
      - destruct Hrep as [-> ->]. destruct Hinv as (_ & _ & Hs & rr0 & Hh & Hl). split.
        + intros x [Hx| ->%list_elem_of_singleton]%elem_of_app Hty; auto.
        + exists rr0. rewrite filter_app. split; [by apply head_app_Some|done].
      - destruct Hinv as (_ & _ & Hf). split.
        + intros x [Hx| ->%list_elem_of_singleton]%elem_of_app Hty; [|done].
          assert (x ∈ filter (ofType qtype) acc) as Hxf by (by apply list_elem_of_filter).
          rewrite Hf in Hxf. by apply not_elem_of_nil in Hxf.
        + exists frr. rewrite filter_app, Hf, filter_cons_True by done. split; [done|]. by rewrite Httl. }
    exists r, st'. split; [done|]. split; [done|]. destruct r as [[answer [|]]|e|]; [|exfalso|done..].
    + destruct Hr as [Hh Hf]. split; [done|]. rewrite Hf, Efil, <- app_assoc, !filter_app. f_equal.
      by rewrite (filter_cons_False _ frr) by (intros Hn; by apply Hn).
    + destruct Hr as [Hr _]. rewrite !filter_app, (filter_cons_True _ frr) in Hr by done. by destruct (filter _ acc).
Qed.

(** What becomes of the other records: they are kept, in order, when the upstream
    had a record of the type asked for; otherwise the answer is the synthetic
    record alone. *)
Definition otherRecords (qtype : Z) (upstream reply : list RR) : Prop :=
  if bool_decide (filter (ofType qtype) upstream = []) then ∃ rr, reply = [rr]
  else filter (λ rr, ¬ ofType qtype rr) reply = filter (λ rr, ¬ ofType qtype rr) upstream.

(** The reply for a domain with a rule. *)
Lemma fakeReply_ok req q domain qtype now up st :
  programStores st → qtype = TypeA ∨ qtype = TypeAAAA → to_lower domain ≠ [] →
  mQuestion req = [q] → qType q = qtype →
  ∃ r st', fakeReply req domain qtype now up st = (r, st') ∧ programStores st' ∧
  match r with
  | Ok reply => reply = setAnswer up (mAnswer reply) ∧ hijacked st' domain qtype now (mAnswer reply) ∧
      otherRecords qtype (mAnswer up) (mAnswer reply)
  | Err _ => poolFull (familyStore qtype st') now
  | Panic => False
  end.
Proof.
  intros Hst Hqt Hd Hq Ety. unfold fakeReply.
  destruct (replaceLoop_ok domain qtype now Hqt Hd (mAnswer up) [] [] [] false st) as (r & st1 & E & Hst1 & Hr); [by split|].
  pose proof (replaceLoop_found domain qtype now (mAnswer up) [] [] [] false st) as Hne. rewrite E in Hne.
  rewrite E. clear E. destruct r as [[answer [|]]|e|]; [| |by eexists _, _|done].
  { destruct Hr as [Hh Hf]. eexists _, _. split; [done|]. split_and!; [done..|]. unfold otherRecords.
    rewrite bool_decide_eq_false_2; [exact Hf|]. by apply Hne. }
  destruct Hr as [Hnone ->]. cbn [app] in Hnone. rewrite Hq. cbv zeta. set (ttl := fallbackFakeTTL up).
  assert (ttl ≠ 0) as Httl by (unfold ttl, fallbackFakeTTL; destruct (Z.eqb_spec (consider (consider (consider 0 (mAnswer up)) (mNs up)) (mExtra up)) 0); done).
  destruct (allocate_ok "allocate fallback fake ip" domain qtype ttl now st Hst Hqt Hd) as (r & st2 & -> & Hst2 & Hr).
  destruct r as [ip|e|]; [|by eexists _, _|done]. destruct Hr as (_ & Hpool & Hl).
  destruct (build_ok st2 (mkHdr (qName q) (qType q) (qClass q) ttl) ip Hst2) as (rr & Eb & Hsyn & Ht);
    [cbn; by rewrite Ety|cbn; by rewrite Ety|]. cbn [hRrtype hTtl] in Hsyn, Ht. rewrite Ety in Hsyn.
  unfold buildQuestionFakeAnswerRR. rewrite Eb. eexists _, st2. split; [reflexivity|]. split; [done|].
  split_and!; [done| |unfold otherRecords; rewrite bool_decide_eq_true_2 by done; by exists rr]. exists ip, rr. cbn [setAnswer mAnswer]. split_and!; [done|..].
  - intros x ->%list_elem_of_singleton _. done.
  - by rewrite filter_cons_True by apply Hsyn.
  - by rewrite Ht.
Qed.

End Spec.

(** ** What the handler answers *)

Section Handler.
Context {W : Type} `{GoUnicode} (t : Tables) (ask : upstream → Msg → W → res Msg * W).

Lemma rule_domain domain : shouldUseFakeIP t domain = true → to_lower domain ≠ [].
Proof. unfold shouldUseFakeIP, classifyDomainRoute. cbv zeta. by case_bool_decide. Qed.

(** A question the handler answers itself. *)
Definition intercepted (req : Msg) (q : Question) : Prop :=
  mQuestion req = [q] ∧ qClass q = ClassINET ∧ (qType q = TypeA ∨ qType q = TypeAAAA) ∧
  shouldUseFakeIP t (queryDomain q) = true.

Lemma handle_address req q now (st : dnsState W) stores :
  mQuestion req = [q] → qClass q = ClassINET → qType q = TypeA ∨ qType q = TypeAAAA →
  handleDNSQuery t ask req now (st, stores) = buildFakeAddressResponse t ask req (queryDomain q) (qType q) now (st, stores).
Proof. intros Hq Hc Ht. unfold handleDNSQuery. rewrite Hq, Hc. by destruct Ht as [-> | ->]. Qed.

Lemma intercept_ok req q now (st st' : dnsState W) stores up :
  programStores stores → intercepted req q → exchangeUpstream ask req st = (Ok up, st') → mRcode up = RcodeSuccess →
  ∃ r stores', handleDNSQuery t ask req now (st, stores) = (r, (st', stores')) ∧ programStores stores' ∧
  match r with
  | Ok reply => reply = setAnswer up (mAnswer reply) ∧ hijacked stores' (queryDomain q) (qType q) now (mAnswer reply) ∧
      otherRecords (qType q) (mAnswer up) (mAnswer reply)
  | Err _ => poolFull (familyStore (qType q) stores') now
  | Panic => False
  end.
Proof.
  intros Hst (Hq & Hc & Ht & Hrule) Hup Hrc. rewrite (handle_address _ q) by done. unfold buildFakeAddressResponse.
  rewrite Hup, Hrc, Hrule. cbn [negb Z.eqb RcodeSuccess].
  destruct (fakeReply_ok req q (queryDomain q) (qType q) now up stores Hst Ht (rule_domain _ Hrule) Hq eq_refl)
    as (r & stores' & -> & Hst' & Hr). by exists r, stores'.
Qed.

(** C8: an address query (A or AAAA, class IN, the only question) for a domain with
    a rule or on the built-in list.  An error of the upstream is returned with its
    context, and a reply whose code is not success is passed on unchanged.  In the
    answer made from a successful reply, every record of the type asked for
    carries one and the same synthetic address, there is at least one, and the
    address leads back to the domain for a minute and for as long as the client
    may keep the first of them; the other records are kept in order when the
    upstream had a record of that type, and otherwise the synthetic record is the
    whole answer.  The only failure is then an exhausted pool. *)
Theorem hijack_hides_addresses req q now (st : dnsState W) stores :
  programStores stores → intercepted req q →
  let '(asked, st') := exchangeUpstream ask req st in
  ∃ r stores', handleDNSQuery t ask req now (st, stores) = (r, (st', stores')) ∧ programStores stores' ∧
  match asked with
  | Err e => r = Err (opError "upstream dns exchange" e) ∧ stores' = stores
  | Panic => r = Panic
  | Ok up =>
      if mRcode up =? RcodeSuccess then
        match r with
        | Ok reply => reply = setAnswer up (mAnswer reply) ∧ hijacked stores' (queryDomain q) (qType q) now (mAnswer reply) ∧
            otherRecords (qType q) (mAnswer up) (mAnswer reply)
        | Err _ => poolFull (familyStore (qType q) stores') now
        | Panic => False
        end
      else r = Ok up ∧ stores' = stores
  end.
Proof.
  intros Hst Hint. destruct (exchangeUpstream ask req st) as [asked st'] eqn:E.
  assert (handleDNSQuery t ask req now (st, stores) = buildFakeAddressResponse t ask req (queryDomain q) (qType q) now (st, stores)) as Eh
    by (destruct Hint as (Hq & Hc & Ht & _); by apply handle_address).
  destruct asked as [up|e|].
  - destruct (Z.eqb_spec (mRcode up) RcodeSuccess) as [Hrc|Hrc]; [by apply intercept_ok|].
    exists (Ok up), stores. rewrite Eh. unfold buildFakeAddressResponse. rewrite E.
    by destruct (Z.eqb_spec (mRcode up) RcodeSuccess).
  - eexists _, stores. rewrite Eh. unfold buildFakeAddressResponse. by rewrite E.
  - eexists _, stores. rewrite Eh. unfold buildFakeAddressResponse. by rewrite E.
Qed.

(** Every other query gets what the upstream says: the message is passed on
    unchanged, an error is at most given its context, and no synthetic address
    is handed out. *)
Theorem hijack_passes_others req now (st : dnsState W) stores :
  (∀ q, ¬ intercepted req q) →
  let '(r, st') := exchangeUpstream ask req st in
  ∃ r', handleDNSQuery t ask req now (st, stores) = (r', (st', stores)) ∧
  match r with
  | Ok up => r' = Ok up
  | Err e => r' = Err e ∨ r' = Err (opError "upstream dns exchange" e)
  | Panic => r' = Panic
  end.
Proof.
  intros Hn. destruct (exchangeUpstream ask req st) as [r st'] eqn:E.
  assert (∃ r', passUpstream ask req (st, stores) = (r', (st', stores)) ∧
    match r with Ok up => r' = Ok up | Err e => r' = Err e ∨ r' = Err (opError "upstream dns exchange" e) | Panic => r' = Panic end) as Hpass.
  { unfold passUpstream. rewrite E. exists r. split; [done|]. destruct r; auto. }
  unfold handleDNSQuery. destruct (mQuestion req) as [|q [|]] eqn:Hq; [done| |done].
  destruct (Z.eqb_spec (qClass q) ClassINET) as [Hc|]; cbn [negb]; [|done]. cbv zeta.
  destruct (Z.eqb_spec (qType q) TypeHTTPS); [done|].
  assert (qType q = TypeA ∨ qType q = TypeAAAA → ∀ qt, ∃ r', buildFakeAddressResponse t ask req (queryDomain q) qt now (st, stores) = (r', (st', stores)) ∧
    match r with Ok up => r' = Ok up | Err e => r' = Err e ∨ r' = Err (opError "upstream dns exchange" e) | Panic => r' = Panic end) as Hb.
  { intros Ht qt. unfold buildFakeAddressResponse. rewrite E. destruct r as [up|e|]; [|by eexists; split; [done|right]|by eexists].
    destruct (negb _); [by eexists|]. destruct (shouldUseFakeIP t (queryDomain q)) eqn:Er; [|by eexists].
    exfalso. by apply (Hn q). }
  destruct (Z.eqb_spec (qType q) TypeA); [apply Hb; by left|].
  destruct (Z.eqb_spec (qType q) TypeAAAA); [apply Hb; by right|done].
Qed.

(** How long the synthetic addresses of an answer are good for: a minute, or as
    long as the first of them may be kept. *)
Definition answerDeadline (qtype now : Z) (answer : list RR) : Z :=
  from_option (λ rr, deadlineOf now (hTtl (Header rr))) now (head (filter (ofType qtype) answer)).

(** An address of a successful answer for an intercepted question is of the pool and
    looks up the domain until its lifetime ends. *)
Lemma hijacked_address req q now (st st' : dnsState W) stores reply stores' rr a u :
  programStores stores → intercepted req q →
  handleDNSQuery t ask req now (st, stores) = (Ok reply, (st', stores')) → mRcode reply = RcodeSuccess →
  rr ∈ mAnswer reply → ofType (qType q) rr → rrAddr rr = Some a → u < answerDeadline (qType q) now (mAnswer reply) →
  programStores stores' ∧ inPool (fs_prefix (familyStore (qType q) stores')) (IPString a) ∧
  isIPText (IPString a) = true ∧ to_lower (queryDomain q) ≠ [] ∧
  (lookupFakeDomainByIP (IPString a) u stores').1 = Some (to_lower (queryDomain q)).
Proof.
  intros Hst Hint E Hrc Hrr Hty Ha Hu.
  assert (∃ up, exchangeUpstream ask req st = (Ok up, st') ∧ mRcode up = RcodeSuccess) as (up & Eup & Hrcu).
  { pose proof E as E'. destruct Hint as (Hq & Hc & Ht & Hrule). rewrite (handle_address _ q) in E' by done.
    unfold buildFakeAddressResponse in E'. destruct (exchangeUpstream ask req st) as [[up|e|] st1]; [|done..].
    exists up. destruct (Z.eqb_spec (mRcode up) RcodeSuccess) as [Er|Er]; cbn [negb] in E'.
    - rewrite Hrule in E'. cbn [negb] in E'. by destruct (fakeReply _ _ _ _ _ _) as [? ?]; injection E' as _ <- _.
    - injection E' as <- <- <-. done. }
  destruct (intercept_ok req q now st st' stores up Hst Hint Eup Hrcu) as (r & s' & E' & Hst' & Hr).
  rewrite E in E'. injection E' as <- <-. destruct Hr as (_ & (ip & rr0 & Hpool & Hsyn & Hhead & Hip & Hne & Hl) & _).
  destruct (Hsyn rr Hrr Hty) as [_ Hs]. rewrite Ha in Hs. injection Hs as ->. split_and!; [done..|].
  apply Hl. unfold answerDeadline in Hu. by rewrite Hhead in Hu.
Qed.

(** Inside the mapping's lifetime the plan for a synthetic address is the domain's. *)
Lemma hijacked_plan req q now (st st' : dnsState W) stores reply stores' rr a u pools dns rq :
  programStores stores → intercepted req q →
  handleDNSQuery t ask req now (st, stores) = (Ok reply, (st', stores')) → mRcode reply = RcodeSuccess →
  rr ∈ mAnswer reply → ofType (qType q) rr → rrAddr rr = Some a →
  u < answerDeadline (qType q) now (mAnswer reply) → rq_host rq = IPString a →
  let d := to_lower (queryDomain q) in
  let fake := λ ip, isFakeIPAddress ip stores' in
  PlanRequest t pools dns (λ ip, (lookupFakeDomainByIP ip u stores').1) fake rq = planFor t pools dns fake rq d d false.
Proof.
  intros Hst Hint E Hrc Hrr Hty Ha Hu Hhost d fake.
  destruct (hijacked_address _ _ _ _ _ _ _ _ _ _ _ Hst Hint E Hrc Hrr Hty Ha Hu) as (_ & _ & Hip & Hne & Hl).
  by apply (plan_recovered _ _ _ _ _ _ (IPString a)).
Qed.

(** The addresses of the pools are not that of the tunnel's own resolver. *)
Lemma pool_not_resolver qtype stores ip port : programStores stores →
  inPool (fs_prefix (familyStore qtype stores)) ip → IsVPNDNSAddress ip port = false.
Proof.
  intros (_ & P4 & P6) Hpool. unfold IsVPNDNSAddress. apply andb_false_iff. left. apply bool_decide_eq_false_2. intros ->.
  rewrite cidr4 in P4. rewrite cidr6 in P6. injection P4 as P4. injection P6 as P6.
  destruct Hpool as (v & Hv & E). apply (f_equal ParseAddr) in E. unfold familyStore in *. destruct (qtype =? TypeA).
  - rewrite <- P4 in *. destruct pool4_range as [Eb El]. rewrite Eb, El in Hv. cbn [addrAt PAddr] in E.
    rewrite ParseAddr_AddrString in E by (cbn; lia). vm_compute in E. injection E as E. lia.
  - rewrite <- P6 in *. pose proof pool6_range as Hr. cbn [addrAt PAddr] in E.
    rewrite ParseAddr_AddrString in E by (cbn; done || lia). vm_compute in E. discriminate E.
Qed.

(** End to end.  When an application resolves a domain with a rule through the
    tunnel and then connects to the address it was given, within its lifetime, the
    connection is planned exactly as a request for the domain. *)
Theorem hijack_leads_to_domain_plan req q now (st st' : dnsState W) stores reply stores' rr a u pools dns rq :
  programStores stores → intercepted req q →
  handleDNSQuery t ask req now (st, stores) = (Ok reply, (st', stores')) → mRcode reply = RcodeSuccess →
  rr ∈ mAnswer reply → ofType (qType q) rr → rrAddr rr = Some a →
  u < answerDeadline (qType q) now (mAnswer reply) → rq_host rq = IPString a →
  let d := to_lower (queryDomain q) in
  let fake := λ ip, isFakeIPAddress ip stores' in
  PlanRequest t pools dns (λ ip, (lookupFakeDomainByIP ip u stores').1) fake rq = planFor t pools dns fake rq d d false.
Proof. apply hijacked_plan. Qed.
End Handler.

(** ** Examples *)

Definition demoRuleTables : Tables := loadTables unsetPolicy [] [(lit "*.example.com", unsetPolicy)] [] [] [].

Definition demoQuery (name : gostring) : Msg := mkMsg 7 0 [mkQuestion name TypeA ClassINET] [] [] [].

Definition demoUpstream : Msg :=
  mkMsg 7 0 [] [RR_CNAME (mkHdr "www.Example.com." TypeCNAME ClassINET 30) "cdn.net.";
                RR_A (mkHdr "cdn.net." TypeA ClassINET 300) [93; 184; 216; 34];
                RR_A (mkHdr "cdn.net." TypeA ClassINET 300) [93; 184; 216; 35]] [] [].

Definition demoHijackAsk (u : upstream) (req : Msg) (w : nat) : res Msg * nat := (Ok demoUpstream, S w).

Definition demoHijackState : dnsState nat :=
  mkDNS [] None false [demoUp "9.9.9.9:53"] (Some (demoUp "9.9.9.9:53")) 0 None None false None None 0 0%nat.

Definition demoStores : fakeStores := default (mkStores demoStore demoStore) newFakeStores.

Lemma demoStores_ok : programStores demoStores.
Proof.
  split; [apply newStores_wf; vm_compute; reflexivity|]. split; vm_compute; reflexivity.
Qed.

Lemma demo_intercepted : @intercepted unicode_id demoRuleTables (demoQuery "www.Example.com.") (mkQuestion "www.Example.com." TypeA ClassINET).
Proof. split_and!; [done|done|by left|vm_compute; reflexivity]. Qed.

(** An upstream that knows an alias and no address. *)
Definition demoAliasOnly : Msg :=
  mkMsg 7 0 [] [RR_CNAME (mkHdr "www.Example.com." TypeCNAME ClassINET 30) "cdn.net."] [] [].

Lemma hijack_hides_addresses_witness :
  (∃ r stores', @handleDNSQuery nat unicode_id demoRuleTables demoHijackAsk (demoQuery "www.Example.com.") 5 (demoHijackState, demoStores)
    = (r, (setWorld 1%nat demoHijackState, stores')) ∧ programStores stores' ∧
  match r with
  | Ok reply => reply = setAnswer demoUpstream (mAnswer reply) ∧
      @hijacked unicode_id stores' "www.example.com" TypeA 5 (mAnswer reply) ∧
      filter (λ rr, ¬ ofType TypeA rr) (mAnswer reply) = filter (λ rr, ¬ ofType TypeA rr) (mAnswer demoUpstream)
  | Err _ => poolFull (familyStore TypeA stores') 5
  | Panic => False
  end) ∧
  (∃ r stores', @handleDNSQuery nat unicode_id demoRuleTables (λ _ _ w, (Ok demoAliasOnly, S w)) (demoQuery "www.Example.com.") 5
      (demoHijackState, demoStores) = (r, (setWorld 1%nat demoHijackState, stores')) ∧ programStores stores' ∧
  match r with
  | Ok reply => reply = setAnswer demoAliasOnly (mAnswer reply) ∧
      @hijacked unicode_id stores' "www.example.com" TypeA 5 (mAnswer reply) ∧ ∃ rr, mAnswer reply = [rr]
  | Err _ => poolFull (familyStore TypeA stores') 5
  | Panic => False
  end).
Proof.
  split.
  - exact (@hijack_hides_addresses nat unicode_id demoRuleTables demoHijackAsk (demoQuery "www.Example.com.")
            (mkQuestion "www.Example.com." TypeA ClassINET) 5 demoHijackState demoStores demoStores_ok demo_intercepted).
  - exact (@hijack_hides_addresses nat unicode_id demoRuleTables (λ _ _ w, (Ok demoAliasOnly, S w)) (demoQuery "www.Example.com.")
            (mkQuestion "www.Example.com." TypeA ClassINET) 5 demoHijackState demoStores demoStores_ok demo_intercepted).
Defined.

Lemma hijack_passes_others_witness :
  ∃ r', @handleDNSQuery nat unicode_id demoRuleTables demoHijackAsk (demoQuery "www.org.") 5 (demoHijackState, demoStores)
        = (r', (setWorld 1%nat demoHijackState, demoStores)) ∧ r' = Ok demoUpstream.
Proof.
  refine (@hijack_passes_others nat unicode_id demoRuleTables demoHijackAsk (demoQuery "www.org.") 5 demoHijackState demoStores _).
  intros q (Hq & _ & _ & Hr). injection Hq as <-. vm_compute in Hr. discriminate.
Defined.

Lemma hijack_leads_to_domain_plan_witness :
  ∃ reply stores',
    @handleDNSQuery nat unicode_id demoRuleTables demoHijackAsk (demoQuery "www.Example.com.") 5 (demoHijackState, demoStores)
      = (Ok reply, (setWorld 1%nat demoHijackState, stores')) ∧
    mAnswer reply = [RR_CNAME (mkHdr "www.Example.com." TypeCNAME ClassINET 30) "cdn.net.";
                     RR_A (mkHdr "cdn.net." TypeA ClassINET 300) [198; 18; 0; 1]] ∧
    let rq := mkRequest "mobile_tun" "198.18.0.1" 443 PreserveDomainTarget in
    let d := lit "www.example.com" in
    let fake := λ ip, isFakeIPAddress ip stores' in
    @PlanRequest unicode_id demoRuleTables noPools demoDNS (λ ip, (lookupFakeDomainByIP ip second stores').1) fake rq
    = @planFor unicode_id demoRuleTables noPools demoDNS fake rq d d false.
Proof.
  eexists _, _. split; [vm_compute; reflexivity|]. split; [reflexivity|].
  refine (@hijack_leads_to_domain_plan nat unicode_id demoRuleTables demoHijackAsk (demoQuery "www.Example.com.")
            (mkQuestion "www.Example.com." TypeA ClassINET) 5 demoHijackState _ demoStores _ _
            (RR_A (mkHdr "cdn.net." TypeA ClassINET 300) [198; 18; 0; 1]) [198; 18; 0; 1] second noPools demoDNS
            (mkRequest "mobile_tun" "198.18.0.1" 443 PreserveDomainTarget) demoStores_ok demo_intercepted _ _ _ _ _ _ _).
  - vm_compute. reflexivity.
  - reflexivity.
  - cbn [mAnswer setAnswer]. apply elem_of_cons. right. apply elem_of_cons. by left.
  - reflexivity.
  - reflexivity.
  - vm_compute. reflexivity.
  - vm_compute. reflexivity.
Defined.
