(* ===== verification/Singleflight.v ===== *)
(** * Duplicate call suppression (singleflight/singleflight.go)

    [Group.Do] runs a function at most once at a time for a key: a caller that
    finds a call under way waits for its result.  A goroutine moves by the
    actions below, each of which is one critical section of the group's mutex,
    one run of the caller's function, or one return from a wait; the steps of
    different goroutines interleave in any order.  The heap of call records is a
    list, a pointer an index into it.  What a function does in the end, return,
    panic or end its goroutine, is the label of its step. *)

From S2P Require Import Prelude Errors.
Local Open Scope nat_scope.

(** The [err] field of a call. *)
Inductive callErr :=
| errNil
| errValue (e : error)
| panicError (v : Z)
| errGoexit.

(** How a run of the function ends. *)
Inductive outcome (V : Type) :=
| fnReturns (v : V) (e : option error)
| fnPanics (v : Z)
| fnGoexits.
Arguments fnReturns {V} _ _.
Arguments fnPanics {V} _.
Arguments fnGoexits {V}.

(** [wg] has been released once [finished]. *)
Record call (V : Type) := mkCall { val : V; err : callErr; dups : nat; finished : bool }.
Arguments mkCall {V} _ _ _ _.
Arguments val {V} _.
Arguments err {V} _.
Arguments dups {V} _.
Arguments finished {V} _.

(** Where a goroutine is in [Do], with its variable [c] once it has one. *)
Inductive phase (V : Type) :=
| Entering
| Waiting (c : nat)
| Running (c : nat)
| Finishing (c : nat)
| Returning (c : nat)
| Returned (c : nat) (v : V) (e : callErr) (shared : bool)
| Panicked (c : nat) (v : Z)
| Exited (c : nat).
Arguments Entering {V}.
Arguments Waiting {V} _.
Arguments Running {V} _.
Arguments Finishing {V} _.
Arguments Returning {V} _.
Arguments Returned {V} _ _ _ _.
Arguments Panicked {V} _ _.
Arguments Exited {V} _.

Section Singleflight.
Context {K V : Type} `{Countable K}.
Variable zero : V.

(** The group's map, the call records and the goroutines with their keys.
    For the proofs, [leaders] records which goroutine made which call, and for
    which key, and [runs] which goroutine ran its function for which call. *)
Record group := mkGroup {
  m : gmap K nat;
  calls : list (call V);
  threads : list (K * phase V);
  leaders : list (nat * K);
  runs : list (nat * nat * outcome V);
}.

Definition newCall : call V := mkCall zero errNil 0 false.

(** The call after the function ended. *)
Definition runFn (o : outcome V) (c : call V) : call V :=
  match o with
  | fnReturns v e => mkCall v (match e with None => errNil | Some e => errValue e end) (dups c) (finished c)
  | fnPanics p => mkCall (val c) (panicError p) (dups c) (finished c)
  | fnGoexits => mkCall (val c) errGoexit (dups c) (finished c)
  end.

(** The entry of [Do], under the mutex. *)
Definition enter (i : nat) (key : K) (s : group) : option group :=
  match m s !! key with
  | Some c =>
      cl ← calls s !! c;
      Some (mkGroup (m s) (<[c := mkCall (val cl) (err cl) (S (dups cl)) (finished cl)]> (calls s))
              (<[i := (key, Waiting c)]> (threads s)) (leaders s) (runs s))
  | None =>
      let c := length (calls s) in
      Some (mkGroup (<[key := c]> (m s)) (calls s ++ [newCall]) (<[i := (key, Running c)]> (threads s))
              (leaders s ++ [(i, key)]) (runs s))
  end.

(** The deferred function of [doCall], under the mutex. *)
Definition finish (i : nat) (key : K) (c : nat) (s : group) : option group :=
  cl ← calls s !! c;
  Some (mkGroup (if bool_decide (m s !! key = Some c) then delete key (m s) else m s)
          (<[c := mkCall (val cl) (err cl) (dups cl) true]> (calls s))
          (<[i := (key, match err cl with panicError p => Panicked c p | errGoexit => Exited c | _ => Returning c end)]> (threads s))
          (leaders s) (runs s)).

(** The return from [wg.Wait]. *)
Definition wake (i : nat) (key : K) (c : nat) (s : group) : option group :=
  match calls s !! c with
  | Some cl =>
      if finished cl then
        Some (mkGroup (m s) (calls s)
                (<[i := (key, match err cl with
                              | panicError p => Panicked c p
                              | errGoexit => Exited c
                              | e => Returned c (val cl) e true
                              end)]> (threads s)) (leaders s) (runs s))
      else None
  | None => None
  end.

(** The next action of goroutine [i]; [None] when it has to wait or is done. *)
Definition act (i : nat) (o : outcome V) (s : group) : option group :=
  '(key, ph) ← threads s !! i;
  match ph with
  | Entering => enter i key s
  | Running c =>
      cl ← calls s !! c;
      Some (mkGroup (m s) (<[c := runFn o cl]> (calls s)) (<[i := (key, Finishing c)]> (threads s))
              (leaders s) (runs s ++ [(i, c, o)]))
  | Finishing c => finish i key c s
  | Waiting c => wake i key c s
  | Returning c =>
      cl ← calls s !! c;
      Some (mkGroup (m s) (calls s) (<[i := (key, Returned c (val cl) (err cl) (bool_decide (0 < dups cl)))]> (threads s))
              (leaders s) (runs s))
  | _ => None
  end.

Inductive step : group → group → Prop :=
| step_act i o s s' : act i o s = Some s' → step s s'.

(** Every goroutine of [keys] is about to call [Do] on an empty group. *)
Definition initial (keys : list K) : group := mkGroup ∅ [] ((λ k, (k, Entering)) <$> keys) [] [].

Definition reachable (keys : list K) (s : group) : Prop := rtc step (initial keys) s.

(** ** The invariant *)

(** The goroutine that makes call [c]. *)
Definition owns (ph : phase V) (c : nat) : Prop := ph = Running c ∨ ph = Finishing c.

Definition resultOf (o : outcome V) (cl : call V) : Prop :=
  match o with
  | fnReturns v e => val cl = v ∧ err cl = match e with None => errNil | Some e => errValue e end
  | fnPanics p => err cl = panicError p
  | fnGoexits => err cl = errGoexit
  end.

(** What holds of goroutine [i] with key [k] in each phase. *)
Definition threadOK (s : group) (i : nat) (k : K) (ph : phase V) : Prop :=
  let done c (P : call V → Prop) := ∃ cl j, calls s !! c = Some cl ∧ leaders s !! c = Some (j, k) ∧ finished cl = true ∧ P cl in
  match ph with
  | Entering => True
  | Running c => m s !! k = Some c ∧ leaders s !! c = Some (i, k) ∧
      (∃ cl, calls s !! c = Some cl ∧ finished cl = false) ∧ (∀ j o, (j, c, o) ∉ runs s)
  | Finishing c => m s !! k = Some c ∧ leaders s !! c = Some (i, k) ∧
      (∃ cl o, calls s !! c = Some cl ∧ finished cl = false ∧ (i, c, o) ∈ runs s ∧ resultOf o cl)
  | Waiting c => ∃ cl j, calls s !! c = Some cl ∧ leaders s !! c = Some (j, k) ∧ (finished cl = true ∨ m s !! k = Some c)
  | Returning c => done c (λ cl, err cl ≠ errGoexit ∧ ∀ p, err cl ≠ panicError p)
  | Returned c v e _ => done c (λ cl, val cl = v ∧ err cl = e ∧ e ≠ errGoexit ∧ ∀ p, e ≠ panicError p)
  | Panicked c p => done c (λ cl, err cl = panicError p)
  | Exited c => done c (λ cl, err cl = errGoexit)
  end.

Record inv (s : group) : Prop := {
  i_threads : ∀ i k ph, threads s !! i = Some (k, ph) → threadOK s i k ph;
  i_map : ∀ k c, m s !! k = Some c → ∃ i ph, threads s !! i = Some (k, ph) ∧ owns ph c;
  i_done : ∀ c cl, calls s !! c = Some cl → finished cl = true →
             ∃ j k o, leaders s !! c = Some (j, k) ∧ (j, c, o) ∈ runs s ∧ resultOf o cl;
  i_leaders : length (leaders s) = length (calls s);
  i_runs : ∀ j c o, (j, c, o) ∈ runs s → c < length (calls s) ∧
             ∀ j' o', (j', c, o') ∈ runs s → j' = j ∧ o' = o;
}.

Lemma initial_inv keys : inv (initial keys).
Proof.
  split; cbn.
  - intros i k ph Hi. apply list_lookup_fmap_Some in Hi as (k' & [= -> ->] & _). done.
  - intros k c. by rewrite lookup_empty.
  - intros c cl. by rewrite lookup_nil.
  - done.
  - intros j c o Hin. by apply not_elem_of_nil in Hin.
Qed.

(** Replacing the thread [i]. *)
Lemma threads_set {A} (l : list A) i x j y z : l !! i = Some z →
  <[i := x]> l !! j = Some y → (j = i ∧ y = x) ∨ (j ≠ i ∧ l !! j = Some y).
Proof. intros Hi [(<- & <- & _)|[? ?]]%list_lookup_insert_Some; auto. Qed.

(** A step of goroutine [i] from [s] to [s']: the invariant holds again when [i]
    is fine in its new phase and the other goroutines are still fine. *)
Definition others (i : nat) (s s' : group) : Prop :=
  ∀ j k ph, j ≠ i → threads s !! j = Some (k, ph) → threadOK s j k ph → threadOK s' j k ph.

Lemma threads_inv i key ph ph' s s' : inv s → threads s !! i = Some (key, ph) →
  threads s' = <[i := (key, ph')]> (threads s) → threadOK s' i key ph' → others i s s' →
  ∀ j k q, threads s' !! j = Some (k, q) → threadOK s' j k q.
Proof.
  intros Hs Hi -> Hok Hoth j k q Hj. destruct (threads_set _ _ _ _ _ _ Hi Hj) as [[-> [= -> ->]]|[Hne Hj']]; [done|].
  apply Hoth; [done|done|]. by apply (i_threads s Hs).
Qed.

(** The owners of the map's calls are still there. *)
Lemma map_inv i key ph ph' s : inv s → threads s !! i = Some (key, ph) →
  (∀ c, owns ph c → owns ph' c) → ∀ k c, m s !! k = Some c →
  ∃ j q, <[i := (key, ph')]> (threads s) !! j = Some (k, q) ∧ owns q c.
Proof.
  intros Hs Hi Hown k c Hk. destruct (i_map s Hs k c Hk) as (j & q & Hj & Hq). destruct (decide (j = i)) as [->|Hne].
  - rewrite Hi in Hj. injection Hj as -> ->. exists i, ph'. split; [|auto]. apply list_lookup_insert_eq. by eapply lookup_lt_Some.
  - exists j, q. split; [|done]. by rewrite list_lookup_insert_ne.
Qed.

(** *** Goroutines that are not moved *)

Definition sameResult (x y : call V) : Prop := val y = val x ∧ err y = err x ∧ finished y = finished x.

Lemma sameResult_refl x : sameResult x x.
Proof. done. Qed.

Lemma sameResult_of o x y : sameResult x y → resultOf o x → resultOf o y.
Proof. intros (E1 & E2 & _). destruct o; simpl; by rewrite ?E1, ?E2. Qed.

(** Calls are kept, finished ones with their result; so are the leaders. *)
Record grows (s s' : group) : Prop := {
  g_calls : ∀ c x, calls s !! c = Some x → ∃ y, calls s' !! c = Some y ∧ (finished x = true → sameResult x y);
  g_leaders : ∀ c x, leaders s !! c = Some x → leaders s' !! c = Some x;
}.

(** What a waiting goroutine and the owner of a call need of a step. *)
Definition stillAwaited (s s' : group) (k : K) (c : nat) : Prop :=
  m s !! k = Some c → m s' !! k = Some c ∨ ∃ y, calls s' !! c = Some y ∧ finished y = true.

Definition stillOwned (s s' : group) (j : nat) (k : K) (c : nat) : Prop :=
  m s !! k = Some c → leaders s !! c = Some (j, k) →
  m s' !! k = Some c ∧ (∀ x, calls s !! c = Some x → ∃ y, calls s' !! c = Some y ∧ sameResult x y) ∧
  (∀ l o, (l, c, o) ∈ runs s' ↔ (l, c, o) ∈ runs s).

Lemma threadOK_grows s s' j k ph : grows s s' → (∀ c, ph = Waiting c → stillAwaited s s' k c) →
  (∀ c, owns ph c → stillOwned s s' j k c) → threadOK s j k ph → threadOK s' j k ph.
Proof.
  intros [Hc Hl] Hw Ho Hok.
  assert (∀ c (P : call V → Prop), (∀ x y, val y = val x → err y = err x → P x → P y) →
    (∃ cl j, calls s !! c = Some cl ∧ leaders s !! c = Some (j, k) ∧ finished cl = true ∧ P cl) →
    ∃ cl j, calls s' !! c = Some cl ∧ leaders s' !! c = Some (j, k) ∧ finished cl = true ∧ P cl) as Hdone.
  { intros c P HP (x & l & Hx & Hlx & Hf & Px). destruct (Hc c x Hx) as (y & Hy & Hs).
    destruct (Hs Hf) as (E1 & E2 & E3). exists y, l. rewrite E3. eauto 10. }
  destruct ph as [|c|c|c|c|c v e sh|c p|c]; cbn in Hok |- *.
  - done.
  - destruct Hok as (x & l & Hx & Hlx & Hf). destruct (Hc c x Hx) as (y & Hy & Hs). exists y, l. split_and!; [done|by apply Hl|].
    destruct Hf as [Hf|Hm]; [left; destruct (Hs Hf) as (_ & _ & ->); done|].
    destruct (Hw c eq_refl Hm) as [|(y' & Hy' & Hf')]; [by right|left; congruence].
  - destruct Hok as (H1 & H2 & (x & Hx & Hf) & H4). destruct (Ho c (or_introl eq_refl) H1 H2) as (M & C & R).
    destruct (C x Hx) as (y & Hy & (_ & _ & Ef)). split_and!; [done|by apply Hl| |].
    + exists y. by rewrite Ef.
    + intros l o. rewrite R. apply H4.
  - destruct Hok as (H1 & H2 & (x & o & Hx & Hf & Hr & Hres)). destruct (Ho c (or_intror eq_refl) H1 H2) as (M & C & R).
    destruct (C x Hx) as (y & Hy & Hsame). split_and!; [done|by apply Hl|].
    exists y, o. split_and!; [done|by destruct Hsame as (_ & _ & ->)|by apply R|by eapply sameResult_of].
  - eapply Hdone; [|exact Hok]. intros x y _ ->. done.
  - eapply Hdone; [|exact Hok]. intros x y -> ->. done.
  - eapply Hdone; [|exact Hok]. intros x y _ ->. done.
  - eapply Hdone; [|exact Hok]. intros x y _ ->. done.
Qed.

(** Changing the record of one call. *)
Lemma calls_set (l : list (call V)) c cl cl' d x : l !! c = Some cl → l !! d = Some x →
  (d = c ∧ x = cl ∧ <[c := cl']> l !! d = Some cl') ∨ (d ≠ c ∧ <[c := cl']> l !! d = Some x).
Proof.
  intros Hc Hd. destruct (decide (d = c)) as [->|Hne].
  - left. rewrite Hc in Hd. injection Hd as <-. split_and!; [done|done|]. apply list_lookup_insert_eq. by eapply lookup_lt_Some.
  - right. split; [done|]. by rewrite list_lookup_insert_ne.
Qed.

(** *** The steps *)

Lemma join_inv i key c cl s : inv s → threads s !! i = Some (key, Entering) → m s !! key = Some c → calls s !! c = Some cl →
  inv (mkGroup (m s) (<[c := mkCall (val cl) (err cl) (S (dups cl)) (finished cl)]> (calls s))
         (<[i := (key, Waiting c)]> (threads s)) (leaders s) (runs s)).
Proof.
  intros Hs Hi Hm Hc. set (cl' := mkCall _ _ _ _). set (s' := mkGroup _ _ _ _ _).
  assert (∀ d x, calls s !! d = Some x → ∃ y, calls s' !! d = Some y ∧ sameResult x y) as Hcalls.
  { intros d x Hd. destruct (calls_set _ c cl cl' d x Hc Hd) as [(-> & -> & E)|[_ E]]; eexists; (split; [exact E|done]). }
  destruct (i_map s Hs key c Hm) as (j & ph & Hj & Hown).
  split; cbn [threads m leaders runs].
  - eapply (threads_inv i key Entering); [done|done|reflexivity| |].
    + destruct (Hcalls c cl Hc) as (y & Hy & _). exists y, j. split; [done|]. split; [|by right].
      apply (i_threads s Hs) in Hj. by destruct Hown as [-> | ->]; destruct Hj as (_ & ? & _).
    + intros j' k' q Hne Hj' Hok. apply (threadOK_grows s); [split; [|done]|intros ? _ ?; by left| |done];
        [|intros d _ Hk Hlj; split_and!; [done|apply Hcalls|done]].
      intros d x Hd. destruct (Hcalls d x Hd) as (y & ? & ?). by exists y.
  - refine (map_inv i key Entering (Waiting c) s Hs Hi _). intros d [|]; done.
  - intros d x Hd Hf. apply list_lookup_insert_Some in Hd as [(<- & <- & _)|[Hne Hd]]; [|by apply (i_done s Hs)].
    destruct (i_done s Hs c cl Hc Hf) as (l & k & o & H1 & H2 & H3). exists l, k, o.
    split_and!; [done|done|]. by eapply sameResult_of.
  - cbn. rewrite length_insert. apply Hs.
  - cbn. rewrite length_insert. apply Hs.
Qed.

Lemma lead_inv i key s : inv s → threads s !! i = Some (key, Entering) → m s !! key = None →
  inv (mkGroup (<[key := length (calls s)]> (m s)) (calls s ++ [newCall]) (<[i := (key, Running (length (calls s)))]> (threads s))
         (leaders s ++ [(i, key)]) (runs s)).
Proof.
  intros Hs Hi Hm. set (s' := mkGroup _ _ _ _ _). pose proof (i_leaders s Hs) as Hlen.
  assert (∀ d x, calls s !! d = Some x → calls s' !! d = Some x) as Hcalls by (intros; by apply lookup_app_l_Some).
  assert (∀ d x, leaders s !! d = Some x → leaders s' !! d = Some x) as Hlead by (intros; by apply lookup_app_l_Some).
  assert (∀ k c, m s !! k = Some c → m s' !! k = Some c) as Hmap.
  { intros k c Hk. cbn. rewrite lookup_insert_ne; [done|]. intros <-. congruence. }
  split; cbn [threads m runs].
  - eapply (threads_inv i key Entering); [done|done|reflexivity| |].
    + cbn. rewrite lookup_insert_eq. split_and!; [done| | |].
      * rewrite <- Hlen. by apply list_lookup_middle.
      * exists newCall. split; [by apply list_lookup_middle|done].
      * intros j o Hin. apply (i_runs s Hs) in Hin as [? _]. lia.
    + intros j k q Hne Hj Hok. apply (threadOK_grows s); [split; [|done]| | |done].
      * intros d x Hd. exists x. split; [by apply Hcalls|]. intros _. apply sameResult_refl.
      * intros c _ Hk. left. by apply Hmap.
      * intros c _ Hk _. split_and!; [by apply Hmap| |done]. intros x Hx. exists x. split; [by apply Hcalls|try intros _; apply sameResult_refl].
  - intros k c Hk. cbn in Hk. apply lookup_insert_Some in Hk as [[<- <-]|[Hne Hk]].
    + exists i, (Running (length (calls s))). split; [|by left]. apply list_lookup_insert_eq. by eapply lookup_lt_Some.
    + refine (map_inv i key Entering _ s Hs Hi _ k c Hk). intros d [|]; done.
  - intros c cl Hc Hf. apply lookup_app_Some in Hc as [Hc|[_ Hc]].
    + destruct (i_done s Hs c cl Hc Hf) as (j & k & o & H1 & H2 & H3). exists j, k, o. eauto.
    + apply list_lookup_singleton_Some in Hc as [_ <-]. done.
  - cbn. rewrite !length_app. simpl. lia.
  - intros j c o Hin. cbn. rewrite length_app. simpl. destruct (i_runs s Hs j c o Hin). split; [lia|done].
Qed.

Lemma run_inv i key c cl o s : inv s → threads s !! i = Some (key, Running c) → calls s !! c = Some cl →
  inv (mkGroup (m s) (<[c := runFn o cl]> (calls s)) (<[i := (key, Finishing c)]> (threads s)) (leaders s) (runs s ++ [(i, c, o)])).
Proof.
  intros Hs Hi Hc. set (s' := mkGroup _ _ _ _ _).
  destruct (i_threads s Hs _ _ _ Hi) as (Hm & Hl & (x & Hx & Hf) & Hno). rewrite Hc in Hx. injection Hx as <-.
  assert (∀ d x, calls s !! d = Some x → d ≠ c → calls s' !! d = Some x) as Hcalls.
  { intros d x Hd Hne. destruct (calls_set _ c cl (runFn o cl) d x Hc Hd) as [(? & _)|[_ E]]; done. }
  assert (calls s' !! c = Some (runFn o cl)) as Hc' by (apply list_lookup_insert_eq; by eapply lookup_lt_Some).
  assert (finished (runFn o cl) = false) as Hf' by by destruct o.
  split; cbn [threads m leaders].
  - eapply (threads_inv i key (Running c)); [done|done|reflexivity| |].
    + split_and!; [done|done|]. exists (runFn o cl), o. split_and!; [done|done|cbn; set_solver|by destruct o as [v []| |]].
    + intros j k q Hne Hj Hok. apply (threadOK_grows s); [split; [|done]|intros ? _ ?; by left| |done].
      * intros d x Hd. destruct (decide (d = c)) as [->|Hd']; [|exists x; split; [by apply Hcalls|try intros _; apply sameResult_refl]].
        exists (runFn o cl). split; [done|]. rewrite Hc in Hd. injection Hd as <-. by rewrite Hf.
      * intros d Hown Hk Hlj. assert (d ≠ c) as Hd by (intros ->; congruence).
        split_and!; [done| |].
        -- intros x Hx. exists x. split; [by apply Hcalls|try intros _; apply sameResult_refl].
        -- intros l o'. cbn. rewrite elem_of_app, list_elem_of_singleton. split; [intros [?|[= -> -> ->]]; done|by left].
  - refine (map_inv i key (Running c) (Finishing c) s Hs Hi _). intros d [[= <-]|]; [by right|done].
  - intros d x Hd Hfx. destruct (decide (d = c)) as [->|Hne]; [congruence|].
    cbn in Hd. rewrite list_lookup_insert_ne in Hd by done.
    destruct (i_done s Hs d x Hd Hfx) as (j & k & o' & H1 & H2 & H3). exists j, k, o'. cbn. set_solver.
  - cbn. rewrite length_insert. apply Hs.
  - cbn. rewrite length_insert. intros j d o' [Hin|[= -> -> ->]%list_elem_of_singleton]%elem_of_app.
    + destruct (i_runs s Hs _ _ _ Hin) as [? Hu]. split; [done|]. intros j' o'' [?|[= -> -> ->]%list_elem_of_singleton]%elem_of_app; [auto|].
      by destruct (Hno j o').
    + split; [by eapply lookup_lt_Some|]. intros j' o'' [Hin|[= -> ->]%list_elem_of_singleton]%elem_of_app; [by destruct (Hno j' o'')|done].
Qed.

Lemma finish_inv i key c cl s : inv s → threads s !! i = Some (key, Finishing c) → calls s !! c = Some cl →
  ∃ s', finish i key c s = Some s' ∧ inv s'.
Proof.
  intros Hs Hi Hc. unfold finish. rewrite Hc. cbn [mbind option_bind].
  destruct (i_threads s Hs _ _ _ Hi) as (Hm & Hl & (x & o & Hx & Hf & Hrun & Hres)). rewrite Hc in Hx. injection Hx as <-.
  rewrite bool_decide_eq_true_2 by done. set (cl' := mkCall _ _ _ true). set (ph' := match err cl with errNil => _ | _ => _ end).
  set (s' := mkGroup _ _ _ _ _). exists s'. split; [done|].
  assert (∀ d x, calls s !! d = Some x → d ≠ c → calls s' !! d = Some x) as Hcalls.
  { intros d x Hd Hne. destruct (calls_set _ c cl cl' d x Hc Hd) as [(? & _)|[_ E]]; done. }
  assert (calls s' !! c = Some cl') as Hc' by (apply list_lookup_insert_eq; by eapply lookup_lt_Some).
  assert (∀ k d, m s !! k = Some d → d ≠ c → m s' !! k = Some d) as Hmap.
  { intros k d Hk Hne. cbn. rewrite lookup_delete_ne; [done|]. intros <-. congruence. }
  split; cbn [threads leaders runs].
  - eapply (threads_inv i key (Finishing c)); [done|done|reflexivity| |].
    + unfold ph'. destruct (err cl) eqn:Ee; exists cl', i; (split_and!; [done..|]); cbn; by rewrite ?Ee.
    + intros j k q Hne Hj Hok. apply (threadOK_grows s); [split; [|done]| | |done].
      * intros d x Hd. destruct (decide (d = c)) as [->|Hd']; [|exists x; split; [by apply Hcalls|intros _; apply sameResult_refl]].
        exists cl'. split; [done|]. rewrite Hc in Hd. injection Hd as <-. by rewrite Hf.
      * intros d _ Hk. destruct (decide (d = c)) as [->|Hd]; [right; by exists cl'|left; by apply Hmap].
      * intros d Hown Hk Hlj. assert (d ≠ c) as Hd by (intros ->; congruence). split_and!; [by apply Hmap| |done].
        intros x Hx. exists x. split; [by apply Hcalls|apply sameResult_refl].
  - intros k d Hk. cbn in Hk. apply lookup_delete_Some in Hk as [Hne Hk].
    destruct (i_map s Hs k d Hk) as (j & q & Hj & Hq). exists j, q. split; [|done]. cbn. rewrite list_lookup_insert_ne; [done|].
    intros <-. congruence.
  - intros d x Hd Hfx. destruct (decide (d = c)) as [->|Hne].
    + assert (x = cl') as -> by congruence. exists i, key, o. split_and!; [done|done|]. by destruct o.
    + cbn in Hd. rewrite list_lookup_insert_ne in Hd by done. by apply (i_done s Hs).
  - cbn. rewrite length_insert. apply Hs.
  - cbn. rewrite length_insert. apply Hs.
Qed.

(** Steps that move only the goroutine. *)
Lemma phase_move_inv i key ph ph' s : inv s → threads s !! i = Some (key, ph) → (∀ c, ¬ owns ph c) →
  threadOK s i key ph' → inv (mkGroup (m s) (calls s) (<[i := (key, ph')]> (threads s)) (leaders s) (runs s)).
Proof.
  intros Hs Hi Hno Hok. split; [|..|apply Hs|apply Hs|apply Hs].
  - eapply (threads_inv i key ph); [done|done|reflexivity|by destruct ph'|]. intros j k q _ _. by destruct q.
  - refine (map_inv i key ph ph' s Hs Hi _). intros c Hc. by destruct (Hno c).
Qed.

Lemma act_inv i o s s' : inv s → act i o s = Some s' → inv s'.
Proof.
  intros Hs Ha. unfold act in Ha. destruct (threads s !! i) as [[key ph]|] eqn:Hi; [|done]. cbn [mbind option_bind] in Ha.
  pose proof (i_threads s Hs _ _ _ Hi) as Hok. destruct ph as [|c|c|c|c|c v e sh|c p|c]; try done.
  - unfold enter in Ha. destruct (m s !! key) as [c|] eqn:Hm; [|injection Ha as <-; by apply lead_inv].
    destruct (calls s !! c) as [cl|] eqn:Hc; [|done]. injection Ha as <-. by apply join_inv.
  - unfold wake in Ha. destruct Hok as (cl & j & Hc & Hl & _). rewrite Hc in Ha. destruct (finished cl) eqn:Hf; [|done].
    injection Ha as <-. apply (phase_move_inv i key (Waiting c)); [done|done|by intros d [|]|].
    destruct (err cl) eqn:Ee; exists cl, j; by rewrite ?Ee.
  - destruct (calls s !! c) as [cl|] eqn:Hc; [|done]. injection Ha as <-. by apply run_inv.
  - destruct Hok as (_ & _ & (cl & o' & Hc & _)). destruct (finish_inv i key c cl s Hs Hi Hc) as (s1 & E & Hinv).
    rewrite E in Ha. by injection Ha as <-.
  - destruct Hok as (cl & j & Hc & Hl & Hf & He). rewrite Hc in Ha. injection Ha as <-.
    apply (phase_move_inv i key (Returning c)); [done|done|by intros d [|]|]. exists cl, j. done.
Qed.

Lemma reachable_inv keys s : reachable keys s → inv s.
Proof.
  intros Hr. cut (∀ s0, rtc step s0 s → inv s0 → inv s); [intros Hc; by eapply Hc, initial_inv|].
  induction 1 as [|x y z [i o a b Ha] _ IH]; [done|]. intros Hx. by eapply IH, act_inv.
Qed.

(** ** What callers get *)

(** A goroutine keeps its key, and leads only calls for it. *)
Definition leadersKeyed (s : group) : Prop :=
  ∀ c j k, leaders s !! c = Some (j, k) → ∃ ph, threads s !! j = Some (k, ph).

(** The rank of a phase: how many actions are left at most. *)
Definition rank (ph : phase V) : nat :=
  match ph with
  | Entering => 4
  | Running _ => 3
  | Finishing _ => 2
  | Returning _ | Waiting _ => 1
  | _ => 0
  end.

Lemma act_shape i o s s' : act i o s = Some s' →
  ∃ key ph ph', threads s !! i = Some (key, ph) ∧ threads s' = <[i := (key, ph')]> (threads s) ∧ rank ph' < rank ph ∧
    (leaders s' = leaders s ∨ leaders s' = leaders s ++ [(i, key)]).
Proof.
  unfold act. destruct (threads s !! i) as [[key ph]|]; [|done]. cbn [mbind option_bind]. intros Ha.
  exists key, ph. destruct ph as [|c|c|c|c| | |]; try done.
  - unfold enter in Ha. destruct (m s !! key) as [c|]; [|injection Ha as <-; eexists; split_and!; [done|done|cbn; lia|by right]].
    destruct (calls s !! c); [|done]. injection Ha as <-. eexists. split_and!; [done|done|cbn; lia|by left].
  - unfold wake in Ha. destruct (calls s !! c) as [cl|]; [|done]. destruct (finished cl); [|done]. injection Ha as <-.
    eexists. split_and!; [done|done|destruct (err cl); cbn; lia|by left].
  - destruct (calls s !! c); [|done]. injection Ha as <-. eexists. split_and!; [done|done|cbn; lia|by left].
  - unfold finish in Ha. destruct (calls s !! c) as [cl|]; [|done]. injection Ha as <-.
    eexists. split_and!; [done|done|destruct (err cl); cbn; lia|by left].
  - destruct (calls s !! c); [|done]. injection Ha as <-. eexists. split_and!; [done|done|cbn; lia|by left].
Qed.

Lemma reachable_keyed keys s : reachable keys s → leadersKeyed s.
Proof.
  intros Hr. cut (∀ s0, rtc step s0 s → leadersKeyed s0 → leadersKeyed s).
  { intros Hc. eapply Hc; [done|]. intros c j k. cbn. by rewrite lookup_nil. }
  clear Hr. induction 1 as [|x y z [i o a b Ha] _ IH]; [done|]. intros Hx. apply IH. intros c j k Hc.
  destruct (act_shape _ _ _ _ Ha) as (key & ph & ph' & Hi & Ht & _ & Hl).
  assert (∀ k, (∃ q, threads a !! j = Some (k, q)) → ∃ q, threads b !! j = Some (k, q)) as Hkeep.
  { intros k' (q & Hj). rewrite Ht. destruct (decide (j = i)) as [->|Hne].
    - rewrite Hi in Hj. injection Hj as -> ->. exists ph'. apply list_lookup_insert_eq. by eapply lookup_lt_Some.
    - exists q. by rewrite list_lookup_insert_ne. }
  destruct Hl as [Hl|Hl]; rewrite Hl in Hc; [by eapply Hkeep, Hx|].
  apply lookup_app_Some in Hc as [Hc|[_ Hc]]; [by eapply Hkeep, Hx|].
  apply list_lookup_singleton_Some in Hc as [_ [= -> ->]]. apply Hkeep. by exists ph.
Qed.

(** C22: in every interleaving, at most one goroutine at a time runs its function for
    a key; and a caller that returns gets what one run of a function returned,
    namely the only run of the call it took part in, made by a caller with the
    same key. *)
Theorem singleflight_one_run keys s : reachable keys s →
  (∀ i j k c d, threads s !! i = Some (k, Running c) → threads s !! j = Some (k, Running d) → i = j) ∧
  (∀ i k c v e shared, threads s !! i = Some (k, Returned c v e shared) →
    ∃ j ph r, threads s !! j = Some (k, ph) ∧ (j, c, fnReturns v r) ∈ runs s ∧
      e = (match r with None => errNil | Some x => errValue x end) ∧
      ∀ j' o', (j', c, o') ∈ runs s → j' = j ∧ o' = fnReturns v r).
Proof.
  intros Hr. pose proof (reachable_inv keys s Hr) as Hs. split.
  - intros i j k c d Hi Hj. destruct (i_threads s Hs _ _ _ Hi) as (Hm1 & Hl1 & _), (i_threads s Hs _ _ _ Hj) as (Hm2 & Hl2 & _).
    congruence.
  - intros i k c v e shared Hi. destruct (i_threads s Hs _ _ _ Hi) as (cl & j & Hc & Hl & Hf & Hv & He & Hg & Hp).
    destruct (i_done s Hs c cl Hc Hf) as (j' & k' & o & Hl' & Hrun & Ho). rewrite Hl in Hl'. injection Hl' as <- <-.
    destruct (reachable_keyed keys s Hr c j k Hl) as (ph & Hj). destruct (i_runs s Hs _ _ _ Hrun) as [_ Hu].
    destruct o as [v' r|p|]; cbn in Ho; [|rewrite He in Ho; by destruct (Hp p)|congruence].
    destruct Ho as [Hv' He']. assert (v' = v) as -> by congruence. exists j, ph, r. split_and!; [done|done|congruence|done].
Qed.

(** ** Every call comes back *)

Definition finishedPhase (ph : phase V) : Prop :=
  match ph with
  | Returned _ _ _ _ | Panicked _ _ | Exited _ => True
  | _ => False
  end.

Definition total (s : group) : nat := sum_list ((λ t, rank t.2) <$> threads s).

Lemma sum_insert (l : list nat) i x y : l !! i = Some x → sum_list (<[i := y]> l) + x = sum_list l + y.
Proof.
  revert i. induction l as [|z l IH]; intros [|i] Hi; simplify_eq/=; [lia|]. specialize (IH i Hi). lia.
Qed.

Lemma act_total i o s s' : act i o s = Some s' → total s' < total s.
Proof.
  intros (key & ph & ph' & Hi & Ht & Hr & _)%act_shape. unfold total. rewrite Ht, list_fmap_insert.
  pose proof (sum_insert ((λ t, rank t.2) <$> threads s) i (rank ph) (rank ph')) as Hsum.
  rewrite list_lookup_fmap, Hi in Hsum. specialize (Hsum eq_refl). cbn in *. lia.
Qed.

Lemma progress s i k ph : inv s → threads s !! i = Some (k, ph) → ¬ finishedPhase ph → ∃ j o s', act j o s = Some s'.
Proof.
  intros Hs Hi Hph.
  assert (∀ j k' c q, threads s !! j = Some (k', q) → owns q c → ∃ j o s', act j o s = Some s') as Howner.
  { intros j k' c q Hj Hq. pose proof (i_threads s Hs _ _ _ Hj) as Hok. exists j, fnGoexits. unfold act. rewrite Hj. cbn [mbind option_bind].
    destruct Hq as [-> | ->].
    - destruct Hok as (_ & _ & (cl & -> & _) & _). by eexists.
    - destruct Hok as (_ & _ & (cl & o & Hc & _)). destruct (finish_inv j k' c cl s Hs Hj Hc) as (s' & -> & _). by eexists. }
  pose proof (i_threads s Hs _ _ _ Hi) as Hok. destruct ph as [|c|c|c|c|c v e sh|c p|c]; cbn in Hph; try (by destruct Hph).
  - exists i, fnGoexits. unfold act. rewrite Hi. cbn [mbind option_bind]. unfold enter.
    destruct (m s !! k) as [c|] eqn:Hm; [|by eexists]. destruct (i_map s Hs k c Hm) as (j & q & Hj & Hq).
    pose proof (i_threads s Hs _ _ _ Hj) as Hown.
    destruct Hq as [-> | ->]; [destruct Hown as (_ & _ & (cl & -> & _) & _)|destruct Hown as (_ & _ & (cl & o & -> & _))]; by eexists.
  - destruct Hok as (cl & l & Hc & _ & [Hf|Hm]).
    + exists i, fnGoexits. unfold act. rewrite Hi. cbn [mbind option_bind]. unfold wake. rewrite Hc, Hf. by eexists.
    + destruct (i_map s Hs k c Hm) as (j & q & Hj & Hq). by eapply Howner.
  - by eapply Howner; [|left].
  - by eapply Howner; [|right].
  - destruct Hok as (cl & j & Hc & _). exists i, fnGoexits. unfold act. rewrite Hi. cbn [mbind option_bind]. rewrite Hc. by eexists.
Qed.

(** C32: no caller waits for ever.  However [n] calls of [Do] interleave, and
    whatever the functions do in the end (return, panic, end their goroutine),
    at most [4n] actions are possible, and when no further action is, every
    goroutine has come back: nobody waits on a call that nobody runs. *)
Theorem singleflight_completes keys n s : nsteps step n (initial keys) s →
  n ≤ 4 * length keys ∧
  ((∀ s', ¬ step s s') → ∀ i k ph, threads s !! i = Some (k, ph) → finishedPhase ph).
Proof.
  intros Hn. split.
  - assert (∀ n x y, nsteps step n x y → n + total y ≤ total x) as Hdec.
    { clear. induction 1 as [x|n x y z [i o a b Ha] _ IH]; [lia|]. apply act_total in Ha. lia. }
    apply Hdec in Hn. assert (total (initial keys) = 4 * length keys) as E; [|lia].
    clear. unfold total. cbn. induction keys as [|k keys IH]; cbn in *; lia.
  - intros Hstuck i k ph Hi. assert (inv s) as Hs by (eapply reachable_inv, rtc_nsteps; by exists n).
    assert (finishedPhase ph ∨ ¬ finishedPhase ph) as [?|Hnf]; [destruct ph; cbn; tauto|done|].
    destruct (progress s i k ph Hs Hi Hnf) as (j & o & s' & Ha). by destruct (Hstuck s'); apply (step_act j o).
Qed.
(** A schedule: whose turn it is, and what its function does. *)
Fixpoint runActs (tr : list (nat * outcome V)) (s : group) : option group :=
  match tr with
  | [] => Some s
  | (i, o) :: tr' => s' ← act i o s; runActs tr' s'
  end.

Lemma runActs_steps tr s s' : runActs tr s = Some s' → nsteps step (length tr) s s'.
Proof.
  revert s. induction tr as [|[i o] tr IH]; intros s; cbn [runActs length]; [intros [= <-]; constructor|].
  destruct (act i o s) as [s1|] eqn:E; [|done]. cbn [mbind option_bind]. intros Hr.
  econstructor; [by apply (step_act i o)|by apply IH].
Qed.
End Singleflight.

(** ** Examples *)

Definition demoKeys : list Z := [1%Z; 1%Z; 2%Z].

(** The first caller leads, the second joins it, the third panics. *)
Definition demoTrace : list (nat * outcome Z) :=
  [(0, fnGoexits); (1, fnGoexits); (2, fnGoexits); (2, fnPanics 5%Z); (0, fnReturns 7%Z None); (2, fnGoexits); (0, fnGoexits);
   (1, fnGoexits); (0, fnGoexits)].

Definition demoGroup : @group Z Z _ _ :=
  default (initial []) (runActs 0%Z demoTrace (initial demoKeys)).

Lemma demo_steps : nsteps (step 0%Z) 9 (initial demoKeys) demoGroup.
Proof. apply (runActs_steps 0%Z demoTrace). vm_compute. reflexivity. Qed.

Lemma singleflight_one_run_witness :
  threads demoGroup !! 1 = Some (1%Z, Returned 0 7%Z errNil true) ∧
  ∃ j ph r, threads demoGroup !! j = Some (1%Z, ph) ∧ (j, 0, fnReturns 7%Z r) ∈ runs demoGroup ∧
    errNil = (match r with None => errNil | Some x => errValue x end) ∧
    ∀ j' o', (j', 0, o') ∈ runs demoGroup → j' = j ∧ o' = fnReturns 7%Z r.
Proof.
  split; [vm_compute; reflexivity|].
  refine (proj2 (singleflight_one_run 0%Z demoKeys demoGroup _) 1 1%Z 0 7%Z errNil true _); [|vm_compute; reflexivity].
  apply rtc_nsteps. exists 9. exact demo_steps.
Defined.

Lemma singleflight_completes_witness :
  9 ≤ 4 * length demoKeys ∧
  ((∀ s', ¬ step 0%Z demoGroup s') → ∀ i k ph, threads demoGroup !! i = Some (k, ph) → finishedPhase ph).
Proof. apply (singleflight_completes 0%Z demoKeys 9 demoGroup). exact demo_steps. Defined.

