(* ===== verification/Engine.v ===== *)
(** * The packet engine and the life cycle of the library
      (tun2socks/engine, tun2socks/core/device/fdbased, mobile/mobile_api.go)

    The mobile library owns one packet engine.  Starting it loads a
    configuration, duplicates the descriptor of the tunnel interface and hands
    the copy to the engine, which closes it when it stops.  The table of open
    descriptors is part of the model: closing a number that is not the library's
    own would hit a descriptor that some other part of the process has opened
    since. *)

From S2P Require Import Prelude Errors Netip AddrTrie Pattern FakeIP Conn ClientHello Fragment Policy Routing DnsMsg Dns Session.
Local Open Scope Z_scope.

(** ** Descriptors *)

Inductive owner := Ours | Others.

#[global] Instance owner_eq_dec : EqDecision owner.
Proof. solve_decision. Defined.

(** [fd_wrong]: a descriptor was closed that was not ours. *)
Record fdTable := mkFds {
  fd_open : gmap Z owner;
  fd_wrong : bool;
}.

(** Closing a number that is not open fails with [EBADF], which the code drops. *)
Definition closeFd (n : Z) (f : fdTable) : fdTable :=
  match fd_open f !! n with
  | Some Ours => mkFds (delete n (fd_open f)) (fd_wrong f)
  | Some Others => mkFds (delete n (fd_open f)) true
  | None => f
  end.

Definition openFd (n : Z) (o : owner) (f : fdTable) : fdTable := mkFds (<[n := o]> (fd_open f)) (fd_wrong f).

(** What the rest of the process does with descriptors: it opens numbers that are
    free and closes its own. *)
Inductive fdEvent := Opens (n : Z) | Closes (n : Z).

#[global] Instance fdEvent_eq_dec : EqDecision fdEvent.
Proof. solve_decision. Defined.

Definition elsewhere (f : fdTable) (ev : fdEvent) : fdTable :=
  match ev with
  | Opens n => match fd_open f !! n with None => openFd n Others f | Some _ => f end
  | Closes n =>
      match fd_open f !! n with
      | Some Others => mkFds (delete n (fd_open f)) (fd_wrong f)
      | _ => f
      end
  end.

(** ** Configuration of the engine (engine/key.go) *)

Record Key := mkKey {
  k_MTU : Z;
  k_Mark : Z;
  k_Proxy : gostring;
  k_RestAPI : gostring;
  k_Device : gostring;
  k_LogLevel : gostring;
  k_Interface : gostring;
  k_TCPModerateReceiveBuffer : bool;
  k_TCPSendBufferSize : gostring;
  k_TCPReceiveBufferSize : gostring;
  k_MulticastGroups : gostring;
  k_TUNPreUp : gostring;
  k_TUNPostUp : gostring;
  k_UDPTimeout : Z;
}.

(** A device: a descriptor, or a TUN interface opened by name. *)
Inductive device := DevFD (fd mtu : Z) | DevTUN (name : gostring) (mtu : Z).

Inductive stackOption := OptModerateReceiveBuffer | OptSendBufferSize (n : Z) | OptReceiveBufferSize (n : Z).

(** ** Parsing (engine/parse.go) *)

(** [strconv.Atoi]. *)
Definition atoi (s : gostring) : option Z :=
  match s with
  | 43 :: ds => parse_uint 63 ds
  | 45 :: ds => if bool_decide (ds = []) || negb (forallb is_digit ds) then None
                else if digits_value ds <=? 2 ^ 63 then Some (- digits_value ds) else None
  | _ => parse_uint 63 s
  end.

(** [Addr.IsMulticast]; an IPv4-mapped address counts as the address it maps. *)
Definition IsMulticast (a : Addr) : bool :=
  match a with
  | Addr4 v => Z.land (Z.shiftr v 24) 240 =? 224
  | Addr6 v _ =>
      if Z.shiftr v 32 =? 0xffff then Z.land (Z.land (Z.shiftr v 24) 255) 240 =? 224
      else Z.shiftr v 120 =? 255
  | AddrInvalid => false
  end.

Fixpoint multicastLoop (parts : list gostring) (acc : list Addr) : res (list Addr) :=
  match parts with
  | [] => Ok acc
  | ip :: parts' =>
      let ip := trim_space ip in
      if bool_decide (ip = []) then multicastLoop parts' acc
      else
        match ParseAddr ip with
        | None => fail "ParseAddr"
        | Some addr =>
            if negb (IsMulticast addr) then Err (errorString ("invalid multicast IP: " ++ AddrString addr))
            else multicastLoop parts' (acc ++ [addr])
        end
  end.

Definition parseMulticastGroups (s : gostring) : res (list Addr) := multicastLoop (split_byte 44 s) [].

Definition defaultMTU : Z := 1500.

Section Engine.
Context `{GoURL, GoUnicode} {P : Type}.

(** What the engine asks of the system and of the libraries it uses. *)
Record engineEnv := mkEngineEnv {
  ev_ParseLevel : gostring → res unit;
  ev_InterfaceByName : gostring → res (gostring * Z);
  ev_parseRestAPI : gostring → res gostring;
  ev_parseProxy : gostring → res P;
  ev_RAMInBytes : gostring → res Z;
  ev_newEndpoint : Z → Z → option error;
  ev_openTUN : gostring → Z → option error;
  ev_CreateStack : device → list Addr → list stackOption → option error;
}.

(** [fdbased.Open]. *)
Definition openFDDevice (env : engineEnv) (name : gostring) (mtu : Z) : res device :=
  match atoi name with
  | None => Err (errorString ("cannot open fd: " ++ name))
  | Some fd =>
      let mtu := if mtu =? 0 then defaultMTU else mtu in
      match ev_newEndpoint env fd mtu with
      | Some e => Err (wrapError "create endpoint: " e)
      | None => Ok (DevFD fd mtu)
      end
  end.

Definition parseDevice (env : engineEnv) (s : gostring) (mtu : Z) : res device :=
  let s := if contains s "://" then s else "tun://" ++ s in
  match urlParse s with
  | None => fail "parse url"
  | Some u =>
      let driver := to_lower (uScheme u) in
      if bool_decide (driver = lit "fd") then openFDDevice env (uHost u) mtu
      else if bool_decide (driver = lit "tun") then
        match ev_openTUN env (uHost u) mtu with
        | Some e => Err e
        | None => Ok (DevTUN (uHost u) mtu)
        end
      else Err (errorString ("unsupported driver: " ++ driver))
  end.

(** ** The engine (engine/engine.go) *)

(** [e_stack]: the device the network stack was created over; [e_commands]: the
    commands that were run; their errors are only logged. *)
Record engine := mkEngine {
  e_key : option Key;
  e_custom : option P;
  e_proxy : option P;
  e_device : option device;
  e_stack : option device;
  e_rest : option gostring;
  e_bind : option (gostring * Z);
  e_mark : Z;
  e_udpTimeout : Z;
  e_dialer : option P;
  e_commands : list gostring;
}.

Definition newEngine : engine := mkEngine None None None None None None None 0 (60 * second) None [].

Abbreviation eM := (stM engine).

Definition setKey (k : option Key) (e : engine) : engine :=
  mkEngine k (e_custom e) (e_proxy e) (e_device e) (e_stack e) (e_rest e) (e_bind e) (e_mark e) (e_udpTimeout e) (e_dialer e) (e_commands e).
Definition setCustom (p : option P) (e : engine) : engine :=
  mkEngine (e_key e) p (e_proxy e) (e_device e) (e_stack e) (e_rest e) (e_bind e) (e_mark e) (e_udpTimeout e) (e_dialer e) (e_commands e).
Definition setProxy (p : option P) (e : engine) : engine :=
  mkEngine (e_key e) (e_custom e) p (e_device e) (e_stack e) (e_rest e) (e_bind e) (e_mark e) (e_udpTimeout e) (e_dialer e) (e_commands e).
Definition setDevice (d : option device) (e : engine) : engine :=
  mkEngine (e_key e) (e_custom e) (e_proxy e) d (e_stack e) (e_rest e) (e_bind e) (e_mark e) (e_udpTimeout e) (e_dialer e) (e_commands e).
Definition setStack (b : option device) (e : engine) : engine :=
  mkEngine (e_key e) (e_custom e) (e_proxy e) (e_device e) b (e_rest e) (e_bind e) (e_mark e) (e_udpTimeout e) (e_dialer e) (e_commands e).
Definition setRest (r : option gostring) (e : engine) : engine :=
  mkEngine (e_key e) (e_custom e) (e_proxy e) (e_device e) (e_stack e) r (e_bind e) (e_mark e) (e_udpTimeout e) (e_dialer e) (e_commands e).
Definition setBind (b : gostring * Z) (e : engine) : engine :=
  mkEngine (e_key e) (e_custom e) (e_proxy e) (e_device e) (e_stack e) (e_rest e) (Some b) (e_mark e) (e_udpTimeout e) (e_dialer e) (e_commands e).
Definition setMark (m : Z) (e : engine) : engine :=
  mkEngine (e_key e) (e_custom e) (e_proxy e) (e_device e) (e_stack e) (e_rest e) (e_bind e) m (e_udpTimeout e) (e_dialer e) (e_commands e).
Definition SetUDPTimeout (t : Z) (e : engine) : engine :=
  mkEngine (e_key e) (e_custom e) (e_proxy e) (e_device e) (e_stack e) (e_rest e) (e_bind e) (e_mark e) t (e_dialer e) (e_commands e).
Definition SetDialer (p : option P) (e : engine) : engine :=
  mkEngine (e_key e) (e_custom e) (e_proxy e) (e_device e) (e_stack e) (e_rest e) (e_bind e) (e_mark e) (e_udpTimeout e) p (e_commands e).
Definition execCommand (c : gostring) (e : engine) : engine :=
  mkEngine (e_key e) (e_custom e) (e_proxy e) (e_device e) (e_stack e) (e_rest e) (e_bind e) (e_mark e) (e_udpTimeout e) (e_dialer e) (e_commands e ++ [c]).

Definition whenNonEmpty (s : gostring) (m : eM unit) : eM unit := if bool_decide (s = []) then mret tt else m.

Definition general (env : engineEnv) (k : Key) : eM unit :=
  _ ← liftS (ev_ParseLevel env (k_LogLevel k));
  whenNonEmpty (k_Interface k)
    (iface ← liftS (ev_InterfaceByName env (k_Interface k)); modifyS (setBind iface));;
  (if k_Mark k =? 0 then mret tt else modifyS (setMark (k_Mark k)));;
  if 0 <? k_UDPTimeout k then
    if k_UDPTimeout k <? second then liftS (fail "invalid udp timeout value")
    else modifyS (SetUDPTimeout (k_UDPTimeout k))
  else mret tt.

Definition restAPI (env : engineEnv) (k : Key) : eM unit :=
  whenNonEmpty (k_RestAPI k) (host ← liftS (ev_parseRestAPI env (k_RestAPI k)); modifyS (setRest (Some host))).

Definition bufferOption (env : engineEnv) (s : gostring) (f : Z → stackOption) : res (list stackOption) :=
  if bool_decide (s = []) then Ok [] else size ← ev_RAMInBytes env s; Ok [f size].

(** [_defaultProxy, err = parseProxy(..)]: the variable is assigned, nil beside an error. *)
Definition chooseProxy (env : engineEnv) (k : Key) : eM unit :=
  custom ← getS e_custom;
  match custom with
  | Some p => modifyS (setProxy (Some p))
  | None =>
      match ev_parseProxy env (k_Proxy k) with
      | Ok p => modifyS (setProxy (Some p))
      | Err e => modifyS (setProxy None);; liftS (Err e)
      | Panic => liftS Panic
      end
  end.

Definition chooseDevice (env : engineEnv) (k : Key) : eM device :=
  match parseDevice env (k_Device k) (u32 (k_MTU k)) with
  | Ok d => modifyS (setDevice (Some d));; mret d
  | Err e => modifyS (setDevice None);; liftS (Err e)
  | Panic => liftS Panic
  end.

Definition netstack (env : engineEnv) (k : Key) : eM unit :=
  custom ← getS e_custom;
  if bool_decide (k_Proxy k = []) && match custom with None => true | Some _ => false end then liftS (fail "empty proxy")
  else if bool_decide (k_Device k = []) then liftS (fail "empty device")
  else
    whenNonEmpty (k_TUNPreUp k) (modifyS (execCommand (k_TUNPreUp k)));;
    chooseProxy env k;;
    p ← getS e_proxy;
    modifyS (SetDialer p);;
    d ← chooseDevice env k;
    groups ← liftS (parseMulticastGroups (k_MulticastGroups k));
    sendOpt ← liftS (bufferOption env (k_TCPSendBufferSize k) OptSendBufferSize);
    recvOpt ← liftS (bufferOption env (k_TCPReceiveBufferSize k) OptReceiveBufferSize);
    let opts := (if k_TCPModerateReceiveBuffer k then [OptModerateReceiveBuffer] else []) ++ sendOpt ++ recvOpt in
    match ev_CreateStack env d groups opts with
    | Some e => modifyS (setStack None);; liftS (Err e)
    | None => modifyS (setStack (Some d));; whenNonEmpty (k_TUNPostUp k) (modifyS (execCommand (k_TUNPostUp k)))
    end.

(** [start]: on an error the REST listener is closed again. *)
Definition start (env : engineEnv) : eM unit := λ e,
  match e_key e with
  | None => (fail "empty key", e)
  | Some k =>
      match (general env k;; restAPI env k;; netstack env k) e with
      | (Err err, e') => (Err err, setRest None e')
      | r => r
      end
  end.

(** [FD.Close] on the descriptor of the device. *)
Definition closeDevice (f : fdTable) (d : device) : fdTable :=
  match d with DevFD n _ => closeFd n f | DevTUN _ _ => f end.

(** [stop]: the device is closed, and stays the default device.  The stack's
    [Close] and [Wait] belong to gVisor, which removes the interface over the same
    device and may call its [Close] again: once for every entry of [again], each
    the list of what the rest of the process does with descriptors before that
    call. *)
Definition stop (again : list (list fdEvent)) (e : engine) (f : fdTable) : engine * fdTable :=
  let f := match e_device e with Some d => closeDevice f d | None => f end in
  let f := match e_stack e with
           | Some d => foldl (λ f evs, closeDevice (foldl elsewhere f evs) d) f again
           | None => f
           end in
  (setRest None e, f).
End Engine.

Arguments engineEnv : clear implicits.
Arguments engine : clear implicits.

(** ** Paths ([path/filepath] on a Unix system)

    [cleanPath] follows [filepath.Clean] component by component; [back] is the
    path so far, last component first. *)

Fixpoint cleanLoop (rooted : bool) (parts back : list gostring) : list gostring :=
  match parts with
  | [] => rev back
  | part :: parts' =>
      if bool_decide (part = []) || bool_decide (part = lit ".") then cleanLoop rooted parts' back
      else if bool_decide (part = lit "..") then
        match back with
        | [] => cleanLoop rooted parts' (if rooted then [] else [part])
        | top :: back' => if bool_decide (top = lit "..") then cleanLoop rooted parts' (part :: back) else cleanLoop rooted parts' back'
        end
      else cleanLoop rooted parts' (part :: back)
  end.

Definition isRooted (p : gostring) : bool := has_prefix p "/".
Definition pathParts (p : gostring) : list gostring := cleanLoop (isRooted p) (split_byte 47 p) [].

Definition printPath (rooted : bool) (parts : list gostring) : gostring :=
  let body := join_with "/" parts in
  if rooted then 47 :: body else if bool_decide (body = []) then "." else body.

Definition cleanPath (p : gostring) : gostring := printPath (isRooted p) (pathParts p).

(** [filepath.Join] of two elements. *)
Definition joinPath (dir name : gostring) : gostring :=
  if bool_decide (dir = []) then if bool_decide (name = []) then [] else cleanPath name
  else if bool_decide (name = []) then cleanPath dir
  else cleanPath (dir ++ 47 :: name).

(** ** The mobile library (mobile/mobile_api.go) *)

Definition maxLogs : Z := 500.

Definition safeConfigNameChars : gostring := "ABCDEFGHIJKLMNOPQRSTUVWXYZabcdefghijklmnopqrstuvwxyz0123456789_-".

(** The characters allowed are single bytes, and no byte of a longer or malformed
    encoding is among them: testing bytes is testing runes. *)
Definition isSafeConfigName (name : gostring) : bool :=
  negb (bool_decide (name = [])) && forallb (contains_byte safeConfigNameChars) name.

Definition pushLog (msg : gostring) (entries : list gostring) : list gostring :=
  let entries := entries ++ [msg] in
  if maxLogs <? zlen entries then drop 1 entries else entries.

Definition GetLogs (entries : list gostring) : gostring * list gostring := (concat entries, []).

(** [LogWriter.Write]. *)
Definition logWriterWrite (env : logEnv) (p : bytes) (entries : list gostring) (files : logFiles)
    : list gostring * logFiles := (pushLog p entries, writeSessionLog env p files).

Section Mobile.
Context `{GoURL, GoUnicode} {P : Type} (lumineProxy : P).

(** [m_writer]: the log is redirected to the library's writer. *)
Record mobile := mkMobile {
  m_dir : gostring;
  m_running : bool;
  m_logs : list gostring;
  m_stats : sessionStats;
  m_config : option gostring;
  m_writer : bool;
  m_engine : engine P;
  m_fds : fdTable;
}.

Record mobileEnv := mkMobileEnv {
  me_now : Z;
  me_LoadConfig : gostring → option error;
  me_dup : Z → res Z;
  me_engine : engineEnv P;
}.

Inductive startResult :=
| StartOK
| StartNoDir
| StartBadName (name : gostring)
| StartLoadError (e : error)
| StartDupError (e : error)
| StartEngineError (e : error)
| StartPanic.

Definition setMobile (m : mobile) (logs : list gostring) (stats : sessionStats) (config : option gostring)
    (writer running : bool) (e : engine P) (f : fdTable) : mobile :=
  mkMobile (m_dir m) running logs stats config writer e f.

Definition configKey (tunFd : Z) : Key :=
  mkKey 1500 0 [] [] ("fd://" ++ itoa tunFd) "info" [] false [] [] [] [] [] 0.

Definition StartLumine (env : mobileEnv) (fd : Z) (configName : gostring) (m : mobile) : startResult * mobile :=
  if bool_decide (m_dir m = []) then (StartNoDir, m)
  else if m_running m then (StartOK, m)
  else if negb (isSafeConfigName configName) then (StartBadName configName, m)
  else
    let stats := ResetStats (me_now env) in
    let configPath := joinPath (m_dir m) (configName ++ ".json") in
    match me_LoadConfig env configPath with
    | Some e => (StartLoadError e, setMobile m [] stats (m_config m) (m_writer m) false (m_engine m) (m_fds m))
    | None =>
        let eng := setCustom (Some lumineProxy) (m_engine m) in
        match me_dup env fd with
        | Err e => (StartDupError e, setMobile m [] stats (Some configPath) true false eng (m_fds m))
        | Panic => (StartPanic, setMobile m [] stats (Some configPath) true false eng (m_fds m))
        | Ok tunFd =>
            let fds := openFd tunFd Ours (m_fds m) in
            match start (me_engine env) (setKey (Some (configKey tunFd)) eng) with
            | (Ok _, eng') => (StartOK, setMobile m [] stats (Some configPath) true true eng' fds)
            | (Err e, eng') =>
                (StartEngineError e, setMobile m [] stats (Some configPath) true false (setCustom None eng') (closeFd tunFd fds))
            | (Panic, eng') => (StartPanic, setMobile m [] stats (Some configPath) true false eng' fds)
            end
        end
    end.

Definition StopLumine (again : list (list fdEvent)) (m : mobile) : mobile :=
  if negb (m_running m) then m
  else
    let '(eng, fds) := stop again (m_engine m) (m_fds m) in
    setMobile m (m_logs m) (m_stats m) (m_config m) false false (setCustom None eng) fds.

Definition SetWorkingDir (dir : gostring) (m : mobile) : mobile :=
  mkMobile dir (m_running m) (m_logs m) (m_stats m) (m_config m) (m_writer m) (m_engine m) (m_fds m).

(** While the engine stops nobody else opens the number of its device: the case in
    which closing the device again does no harm. *)
Definition undisturbed (again : list (list fdEvent)) (m : mobile) : Prop :=
  ∀ n mtu, e_stack (m_engine m) = Some (DevFD n mtu) → Opens n ∉ concat again.

(** The calls of the application, and what the rest of the process does between
    them. *)
Inductive mobileStep : mobile → mobile → Prop :=
| mobile_start env fd name m :
    (∀ n, me_dup env fd = Ok n → 0 ≤ n < 2 ^ 31 ∧ fd_open (m_fds m) !! n = None) →
    (StartLumine env fd name m).1 ≠ StartPanic →
    mobileStep m (StartLumine env fd name m).2
| mobile_stop again m : undisturbed again m → mobileStep m (StopLumine again m)
| mobile_dir dir m : mobileStep m (SetWorkingDir dir m)
| mobile_elsewhere ev m :
    mobileStep m (setMobile m (m_logs m) (m_stats m) (m_config m) (m_writer m) (m_running m) (m_engine m) (elsewhere (m_fds m) ev)).
End Mobile.

Arguments mobile : clear implicits.

(** ** Configuration files stay in the working directory *)

Lemma safe_no_sep name : isSafeConfigName name = true → 47 ∉ name ∧ 46 ∉ name ∧ name ≠ [].
Proof.
  intros [Hn Hf]%andb_prop. apply negb_true_iff, bool_decide_eq_false in Hn.
  assert (∀ c, contains_byte safeConfigNameChars c = false → c ∉ name) as H.
  { intros c Hc Hin. apply (proj1 (List.forallb_forall _ _)) with (x := c) in Hf; [by rewrite Hc in Hf|by apply list_elem_of_In]. }
  split_and!; [apply H; by vm_compute..|done].
Qed.

Lemma split_byte_last c a b : c ∉ b → split_byte c (a ++ c :: b) = split_byte c a ++ [b].
Proof.
  intros Hb%split_byte_none.
  induction a as [|x a IH]; simpl.
  - by rewrite Z.eqb_refl, Hb.
  - rewrite IH. destruct (x =? c); [done|]. destruct (split_byte c a) eqn:E; [|done]. by apply split_byte_ne in E.
Qed.

Lemma cleanLoop_snoc rooted parts back part :
  part ≠ [] → part ≠ lit "." → part ≠ lit ".." →
  cleanLoop rooted (parts ++ [part]) back = cleanLoop rooted parts back ++ [part].
Proof.
  intros H1 H2 H3. revert back. induction parts as [|p parts IH]; intros back; cbn [cleanLoop app].
  - by rewrite !bool_decide_eq_false_2 by done.
  - repeat case_match; apply IH.
Qed.

(** The configuration file is directly inside the working directory: its path has
    the directory's parts, and then the name. *)
Lemma config_path_confined dir name : dir ≠ [] → isSafeConfigName name = true →
  joinPath dir (name ++ ".json") = printPath (isRooted dir) (pathParts dir ++ [name ++ ".json"]).
Proof.
  intros Hd (Hs & Hdot & Hne)%safe_no_sep. unfold joinPath.
  assert (name ++ lit ".json" ≠ []) as Hf by (by destruct name).
  rewrite !bool_decide_eq_false_2 by done. unfold cleanPath, pathParts. set (file := name ++ lit ".json") in *.
  assert (47 ∉ file) as Hsep by (unfold file; rewrite elem_of_app; intros [?|Hin]; [done|]; revert Hin; by_decide).
  rewrite split_byte_last by done.
  assert (isRooted (dir ++ 47 :: file) = isRooted dir) as ->.
  { unfold isRooted, has_prefix. destruct dir as [|x a]; [done|].
    apply bool_decide_ext. split; intros [k E]; cbn in E; injection E as -> _; by eexists. }
  assert (5 < length file)%nat as Hlen by (unfold file; rewrite length_app; destruct name; [done|simpl; lia]).
  rewrite cleanLoop_snoc; [done|done|intros E|intros E]; rewrite E in Hlen; vm_compute in Hlen; lia.
Qed.

Example join_examples :
  joinPath "/data/user/0/app" "default.json" = lit "/data/user/0/app/default.json" ∧
  joinPath "/data/app" "../x.json" = lit "/data/x.json" ∧ joinPath "a/./b//" "../../../c" = lit "../c" ∧ joinPath "/" ".." = lit "/".
Proof. vm_compute. done. Qed.

(** ** Descriptors *)

(** The text of a number is read back. *)
Lemma atoi_itoa n : 0 ≤ n < 2 ^ 63 → atoi (itoa n) = Some n.
Proof.
  intros Hn. destruct (itoa_digits n ltac:(lia)) as (Hd & Hv & Hne).
  assert (atoi (itoa n) = parse_uint 63 (itoa n)) as ->.
  { unfold atoi. destruct (itoa n) as [|c ds]; [done|]. cbn [forallb] in Hd. apply andb_prop in Hd as [Hc _].
    unfold is_digit in Hc. apply andb_prop in Hc as [H1%Z.leb_le H2%Z.leb_le].
    destruct c as [|p|p]; try lia. repeat (destruct p as [p|p|]; try done; try lia). }
  unfold parse_uint. rewrite bool_decide_eq_false_2 by done. rewrite Hd, Hv. cbn [negb orb].
  by destruct (Z.ltb_spec n (2 ^ 63)); [|lia].
Qed.

Section Lifecycle.
Context `{GoURL, GoUnicode} {P : Type} (lumineProxy : P).

(** [net/url] splits [fd://7] into a scheme and a host. *)
Hypothesis urlParse_fd : ∀ n u, 0 ≤ n → urlParse ("fd://" ++ itoa n) = Some u → uScheme u = lit "fd" ∧ uHost u = itoa n.

Lemma whenNonEmpty_device s (m : stM (engine P) unit) e u e' :
  (∀ e u e', m e = (Ok u, e') → e_device e' = e_device e ∧ e_stack e' = e_stack e) →
  whenNonEmpty s m e = (Ok u, e') → e_device e' = e_device e ∧ e_stack e' = e_stack e.
Proof. intros Hm. unfold whenNonEmpty. case_bool_decide; [by intros [= _ <-]|apply Hm]. Qed.

Lemma parseDevice_fd (env : engineEnv P) n mtu d :
  0 ≤ n < 2 ^ 31 → parseDevice env ("fd://" ++ itoa n) mtu = Ok d → ∃ mtu', d = DevFD n mtu'.
Proof.
  intros Hn. unfold parseDevice.
  assert (contains ("fd://" ++ itoa n) "://" = true) as -> by done.
  destruct (urlParse _) as [u|] eqn:E; [|done]. destruct (urlParse_fd n u ltac:(lia) E) as [-> ->].
  assert (to_lower (lit "fd") = lit "fd") as -> by (by vm_compute). rewrite bool_decide_eq_true_2 by done.
  unfold openFDDevice. rewrite atoi_itoa by lia. destruct (ev_newEndpoint env n _); [done|]. intros [= <-]. by eexists.
Qed.

(** A successful start leaves the device it was given, under the stack too. *)
Lemma netstack_device (env : engineEnv P) k e u e' :
  netstack env k e = (Ok u, e') → ∃ d, parseDevice env (k_Device k) (u32 (k_MTU k)) = Ok d ∧ e_device e' = Some d ∧ e_stack e' = Some d.
Proof.
  unfold netstack. intros (custom & s1 & E1 & Hr)%bindS_inv. injection E1 as <- <-.
  destruct (bool_decide (k_Proxy k = []) && _); [done|]. destruct (bool_decide (k_Device k = [])); [done|].
  apply bindS_inv in Hr as (_ & s2 & _ & Hr). apply bindS_inv in Hr as (_ & s3 & _ & Hr).
  apply bindS_inv in Hr as (p & s4 & _ & Hr). apply bindS_inv in Hr as (_ & s5 & _ & Hr).
  apply bindS_inv in Hr as (d & s6 & Ed & Hr). apply bindS_inv in Hr as (g & s7 & Eg & Hr).
  apply bindS_inv in Hr as (o1 & s8 & Eo1 & Hr). apply bindS_inv in Hr as (o2 & s9 & Eo2 & Hr).
  unfold liftS in Eg, Eo1, Eo2. injection Eg as _ <-. injection Eo1 as _ <-. injection Eo2 as _ <-.
  unfold chooseDevice in Ed. destruct (parseDevice env (k_Device k) (u32 (k_MTU k))) as [d'|err|]; [|done..].
  apply bindS_inv in Ed as (u1 & s10 & E10 & Ed). injection E10 as _ <-. injection Ed as <- <-. exists d'. split; [done|].
  destruct (ev_CreateStack env d' g _); [done|]. apply bindS_inv in Hr as (u2 & s11 & E11 & Hr). injection E11 as _ <-.
  apply whenNonEmpty_device in Hr as [-> ->]; [done|]. by intros ? ? ? [= _ <-].
Qed.

Lemma start_device (env : engineEnv P) e n u e' : 0 ≤ n < 2 ^ 31 →
  start env (setKey (Some (configKey n)) e) = (Ok u, e') → ∃ mtu, e_device e' = Some (DevFD n mtu) ∧ e_stack e' = Some (DevFD n mtu).
Proof.
  intros Hn. unfold start. cbn [e_key setKey].
  match goal with |- context [match ?m ?s with _ => _ end] => destruct (m s) as [[v|err|] s1] eqn:E; [|done..] end.
  intros [= _ <-]. apply bindS_inv in E as (_ & s2 & _ & E). apply bindS_inv in E as (_ & s3 & _ & E).
  apply netstack_device in E as (d & Ed & -> & ->). cbn [k_Device configKey] in Ed.
  destruct (parseDevice_fd env n _ d Hn Ed) as [mtu ->]. by exists mtu.
Qed.

(** Nothing was closed that was not ours; we own the engine's descriptor while it
    runs, and none otherwise. *)
Definition mobileInv (m : mobile P) : Prop :=
  fd_wrong (m_fds m) = false ∧
  if m_running m then
    ∃ n mtu, e_device (m_engine m) = Some (DevFD n mtu) ∧ e_stack (m_engine m) = Some (DevFD n mtu) ∧ fd_open (m_fds m) !! n = Some Ours ∧
      ∀ k, fd_open (m_fds m) !! k = Some Ours → k = n
  else ∀ k, fd_open (m_fds m) !! k ≠ Some Ours.

(** Opening a copy and closing it again. *)
Lemma dup_close f n : fd_wrong f = false → fd_open f !! n = None → (∀ k, fd_open f !! k ≠ Some Ours) →
  fd_wrong (closeFd n (openFd n Ours f)) = false ∧ ∀ k, fd_open (closeFd n (openFd n Ours f)) !! k ≠ Some Ours.
Proof.
  intros Hw Hn Ho. unfold closeFd, openFd. cbn [fd_open]. rewrite lookup_insert_eq. split; [done|].
  intros k. cbn [fd_open]. rewrite delete_insert_eq, delete_id by done. apply Ho.
Qed.

Lemma start_inv (env : mobileEnv) fd name m :
  (∀ n, me_dup env fd = Ok n → 0 ≤ n < 2 ^ 31 ∧ fd_open (m_fds m) !! n = None) →
  (StartLumine lumineProxy env fd name m).1 ≠ StartPanic → mobileInv m → mobileInv (StartLumine lumineProxy env fd name m).2.
Proof.
  intros Hdup. unfold StartLumine. case_bool_decide; [done|]. destruct (m_running m) eqn:Er; [done|].
  destruct (negb _); [done|]. unfold mobileInv. rewrite Er. destruct (me_LoadConfig env _); [done|].
  destruct (me_dup env fd) as [n|e|]; [|done..]. destruct (Hdup n eq_refl) as [Hn Hfree].
  destruct (start _ _) as [[u|e|] eng'] eqn:Es; [| |done]; intros _ [Hw Ho].
  - destruct (start_device _ _ n u eng' Hn Es) as (mtu & Hd & Hst). split; [done|]. exists n, mtu. split_and!; [done|done|..]; cbn [snd m_fds setMobile fd_open openFd].
    + apply lookup_insert_eq.
    + intros k. destruct (decide (k = n)) as [->|Hne]; [done|]. rewrite lookup_insert_ne by done. by intros ?%Ho.
  - exact (dup_close _ n Hw Hfree Ho).
Qed.

(** What happens elsewhere changes neither what is ours nor what was wrong. *)
Lemma elsewhere_ours f ev k : fd_open (elsewhere f ev) !! k = Some Ours ↔ fd_open f !! k = Some Ours.
Proof.
  destruct ev as [n|n]; cbn [elsewhere]; destruct (fd_open f !! n) as [[]|] eqn:E; try done; cbn [fd_open openFd];
    destruct (decide (k = n)) as [->|]; rewrite ?lookup_insert_eq, ?lookup_delete_eq, ?E; try done;
    by rewrite ?lookup_insert_ne, ?lookup_delete_ne.
Qed.

Lemma elsewhere_wrong f ev : fd_wrong (elsewhere f ev) = fd_wrong f.
Proof. destruct ev as [n|n]; cbn [elsewhere]; by destruct (fd_open f !! n) as [[]|]. Qed.

Lemma elsewhere_free f evs n : Opens n ∉ evs → fd_open f !! n = None → fd_open (foldl elsewhere f evs) !! n = None.
Proof.
  revert f. induction evs as [|ev evs IH]; intros f; [done|]. rewrite not_elem_of_cons. intros [Hne Hin] Hf.
  apply IH; [done|]. destruct ev as [k|k]; cbn [elsewhere]; destruct (fd_open f !! k) as [[]|] eqn:E; try done; cbn [fd_open openFd].
  - rewrite lookup_insert_ne; [done|congruence].
  - rewrite lookup_delete_ne; [done|congruence].
Qed.

Lemma elsewhere_all f evs :
  fd_wrong (foldl elsewhere f evs) = fd_wrong f ∧
  ∀ k, fd_open (foldl elsewhere f evs) !! k = Some Ours ↔ fd_open f !! k = Some Ours.
Proof.
  revert f. induction evs as [|ev evs IH]; intros f; [done|]. cbn [foldl]. destruct (IH (elsewhere f ev)) as [-> Ho].
  split; [apply elsewhere_wrong|]. intros k. by rewrite Ho, elsewhere_ours.
Qed.

(** Closing a number that stays free closes nothing. *)
Lemma closes_again n mtu again f : Opens n ∉ concat again → fd_open f !! n = None →
  let f' := foldl (λ f evs, closeDevice (foldl elsewhere f evs) (DevFD n mtu)) f again in
  fd_wrong f' = fd_wrong f ∧ ∀ k, fd_open f' !! k = Some Ours ↔ fd_open f !! k = Some Ours.
Proof.
  revert f. induction again as [|evs again IH]; intros f; [done|]. cbn [concat foldl]. rewrite not_elem_of_app. intros [He Hin] Hf.
  pose proof (elsewhere_free f evs n He Hf) as Hfree. cbn [closeDevice]. unfold closeFd at 2 4. rewrite Hfree.
  destruct (IH (foldl elsewhere f evs) Hin Hfree) as [Hw Ho]. cbn [closeDevice] in Hw, Ho.
  destruct (elsewhere_all f evs) as [Hw' Ho']. rewrite Hw. split; [done|]. intros k. by rewrite Ho.
Qed.

Lemma stop_inv again m : undisturbed again m → mobileInv m → mobileInv (StopLumine again m).
Proof.
  intros Hu [Hw Ho]. unfold StopLumine. destruct (m_running m) eqn:Er; cbn [negb]; [|by split; [|rewrite Er]].
  destruct Ho as (n & mtu & Hd & Hs & Hn & Huniq). unfold stop. rewrite Hd, Hs. cbn [closeDevice]. unfold closeFd at 2. rewrite Hn.
  destruct (closes_again n mtu again (mkFds (delete n (fd_open (m_fds m))) (fd_wrong (m_fds m)))) as [Hw' Ho'];
    [exact (Hu _ _ Hs)|apply lookup_delete_eq|].
  cbn [closeDevice fd_wrong fd_open] in Hw', Ho'. split; cbn [m_running setMobile m_fds]; [by rewrite Hw'|].
  intros k. rewrite Ho', lookup_delete_Some. intros [Hne ?%Huniq]. congruence.
Qed.

Lemma mobileStep_inv m m' : mobileStep lumineProxy m m' → mobileInv m → mobileInv m'.
Proof.
  intros [env fd name m0 Hdup Hp|again m0 Hu|dir m0|ev m0] Hi.
  - by apply start_inv.
  - by apply stop_inv.
  - done.
  - destruct Hi as [Hw Ho]. split; cbn [m_running setMobile m_engine m_fds]; [by rewrite elsewhere_wrong|]. destruct (m_running m0).
    + destruct Ho as (n0 & mtu & Hd & Hs & Hn0 & Hu). exists n0, mtu. split_and!; [done|done|by apply elsewhere_ours|].
      intros k. rewrite elsewhere_ours. apply Hu.
    + intros k. rewrite elsewhere_ours. apply Ho.
Qed.

(** C28: starts, failed starts and stops may be interleaved with whatever the rest
    of the process opens and closes, and the teardown of the network stack may
    close the device any number of times more while the rest of the process goes
    on: the library never closes a descriptor that is not its own, keeps exactly
    the engine's copy of the tunnel open while it runs, and none when it does not.
    Assumed are that [dup] returns a free number, that no start panics, and that
    nobody opens the number of the device between its first closing and the last
    one ([undisturbed]; [repeated_close_hits_foreign] is the other case). *)
Theorem descriptors_owned m m' :
  fd_wrong (m_fds m) = false → m_running m = false → (∀ k, fd_open (m_fds m) !! k ≠ Some Ours) →
  rtc (mobileStep lumineProxy) m m' → mobileInv m'.
Proof.
  intros Hw Hr Ho Hsteps. assert (mobileInv m) as Hi by (split; [done|by rewrite Hr]).
  clear -Hi Hsteps urlParse_fd. induction Hsteps as [|x y z Hxy _ IH]; [done|]. by eapply IH, mobileStep_inv.
Qed.
End Lifecycle.

(** If the stack closes the device again and another thread has been given the
    number in the meantime, that thread's descriptor is closed. *)
Theorem repeated_close_hits_foreign {P} (m : mobile P) n mtu :
  m_running m = true → e_device (m_engine m) = Some (DevFD n mtu) → e_stack (m_engine m) = Some (DevFD n mtu) →
  fd_open (m_fds m) !! n = Some Ours → fd_wrong (m_fds (StopLumine [[Opens n]] m)) = true.
Proof.
  intros Hr Hd Hs Hn. unfold StopLumine, stop. rewrite Hr, Hd, Hs. cbn [negb closeDevice foldl].
  assert (closeFd n (m_fds m) = mkFds (delete n (fd_open (m_fds m))) (fd_wrong (m_fds m))) as -> by (unfold closeFd; by rewrite Hn).
  cbn [elsewhere fd_open]. rewrite lookup_delete_eq. unfold closeFd, openFd. cbn [fd_open]. by rewrite lookup_insert_eq.
Qed.

(** A start that fails leaves the log redirected; when the descriptor cannot be
    duplicated the custom proxy stays installed as well. *)
Lemma failed_start_leaves_writer `{GoURL, GoUnicode} {P} (lumineProxy : P) (env : mobileEnv) fd name m e :
  m_dir m ≠ [] → m_running m = false → isSafeConfigName name = true →
  me_LoadConfig env (joinPath (m_dir m) (name ++ ".json")) = None → me_dup env fd = Err e →
  let m' := (StartLumine lumineProxy env fd name m).2 in
  m_running m' = false ∧ m_writer m' = true ∧ e_custom (m_engine m') = Some lumineProxy ∧ ∀ again, StopLumine again m' = m'.
Proof.
  intros Hd Hr Hs Hl He. unfold StartLumine. rewrite bool_decide_eq_false_2 by done. rewrite Hr, Hs, Hl, He. done.
Qed.

(** ** Witness *)

Definition fdURL : GoURL := λ s, if has_prefix s "fd://" then Some (mkURL "fd" (drop 5 s)) else None.

Definition demoEngineEnv : engineEnv nat :=
  mkEngineEnv (λ _, Ok tt) (λ _, fail "no such interface") (λ _, fail "no listener") (λ _, fail "no proxy") (λ _, fail "size")
    (λ _ _, None) (λ _ _, None) (λ _ _ _, None).

Definition demoMobileEnv (fd : Z) : mobileEnv := mkMobileEnv 1 (λ _, None) (λ _, Ok fd) demoEngineEnv.

Definition demoMobile : mobile nat := mkMobile "/data" false [] (ResetStats 0) None false newEngine (mkFds {[5 := Others]} false).

Lemma descriptors_owned_witness :
  let m1 := (@StartLumine fdURL unicode_id nat 7%nat (demoMobileEnv 8) 5 "default" demoMobile).2 in
  let m2 := StopLumine [[Opens 9]; [Closes 5]] m1 in
  fd_open (m_fds m1) !! 8 = Some Ours ∧ fd_open (m_fds m2) !! 8 = None ∧ mobileInv m2.
Proof.
  cbv zeta. split; [vm_compute; reflexivity|]. split; [vm_compute; reflexivity|].
  apply (@descriptors_owned fdURL unicode_id nat 7%nat) with (m := demoMobile).
  - intros n u Hn. unfold urlParse, fdURL.
    assert (has_prefix ("fd://" ++ itoa n) "fd://" = true) as -> by (apply bool_decide_eq_true_2; by exists (itoa n)).
    intros [= <-]. split; reflexivity.
  - reflexivity.
  - reflexivity.
  - intros k Hk. cbn [fd_open m_fds demoMobile] in Hk. apply lookup_singleton_Some in Hk as [_ ?]. discriminate.
  - eapply rtc_l; [apply (mobile_start 7%nat (demoMobileEnv 8) 5 "default")|].
    + intros n [= <-]. split; [lia|reflexivity].
    + vm_compute. discriminate.
    + eapply rtc_l; [apply mobile_stop|apply rtc_refl]. intros n mtu. vm_compute. intros [= <- <-] H.
      apply list_elem_of_In in H. destruct H as [H|[H|[]]]; discriminate H.
Defined.
