(* ===== verification/NetStack.v ===== *)
(** * The network stack (tun2socks/core, tun2socks/core/option)

    How the stack of gVisor is set up: the options with their defaults, the
    handlers of TCP and UDP, the interface, its routes and groups, in the order
    [CreateStack] applies them; and what the forwarders do with a new connection.
    gVisor itself is a parameter: which call fails after which calls.  The state
    is the list of the calls made so far. *)

From S2P Require Import Prelude Errors Netip Pattern Stream Engine.
Local Open Scope Z_scope.

(** The calls of the stack. *)
Inductive stackOp :=
| NetworkTTL (v6 : bool) (ttl : Z)
| Forwarding (v6 : bool) (on : bool)
| ICMPBurst (burst : Z)
| ICMPLimit (limit : Z)
| SendBufferRange (min default_ max : Z)
| ReceiveBufferRange (min default_ max : Z)
| CongestionControl (cc : gostring)
| TCPDelay (on : bool)
| ModerateReceiveBuffer (on : bool)
| SACK (on : bool)
| Recovery (v : Z)
| TCPHandler
| UDPHandler
| CreateNIC (nic : Z)
| Promiscuous (nic : Z) (on : bool)
| Spoofing (nic : Z) (on : bool)
| RouteTable (routes : list (bytes * Z))
| ProtocolAddress (v6 : bool) (nic : Z) (addr : bytes) (prefixLen : Z)
| JoinGroup (v6 : bool) (nic : Z) (addr : bytes).

#[global] Instance stackOp_eq_dec : EqDecision stackOp.
Proof. solve_decision. Defined.

Abbreviation sM := (stM (list stackOp)).

(** ** Options (option/option.go) *)

Definition defaultTimeToLive : Z := 64.
Definition ipForwardingEnabled : bool := true.
Definition icmpBurst : Z := 50.
Definition icmpLimit : Z := 1000.
Definition tcpCongestionControlAlgorithm : gostring := "reno".
Definition tcpDelayEnabled : bool := false.
Definition tcpModerateReceiveBufferEnabled : bool := false.
Definition tcpSACKEnabled : bool := true.
Definition nicPromiscuousModeEnabled : bool := true.
Definition nicSpoofingEnabled : bool := true.

(** What gVisor fixes: its buffer sizes and the code of RACK. *)
Record stackConstants := mkStackConstants {
  MinBufferSize : Z;
  MaxBufferSize : Z;
  DefaultSendBufferSize : Z;
  DefaultReceiveBufferSize : Z;
  TCPRACKLossDetection : Z;
}.

Section Options.
Context (fails : list stackOp → stackOp → option gostring) (K : stackConstants).

(** A call, and the error it returns. *)
Definition call (o : stackOp) : sM (option gostring) := λ s, (Ok (fails s o), s ++ [o]).

(** A call whose error is returned with what was tried. *)
Definition must (what : gostring) (o : stackOp) : sM unit :=
  e ← call o; liftS (match e with None => Ok tt | Some e => Err (errorString (what ++ ": " ++ e)) end).

(** A call without an error, or one whose error is not looked at. *)
Definition ignored (o : stackOp) : sM unit := _ ← call o; mret tt.

Definition WithDefaultTTL (ttl : Z) : sM unit :=
  must "set ipv4 default TTL" (NetworkTTL false ttl);; must "set ipv6 default TTL" (NetworkTTL true ttl).
Definition WithForwarding (v : bool) : sM unit :=
  must "set ipv4 forwarding" (Forwarding false v);; must "set ipv6 forwarding" (Forwarding true v).
Definition WithICMPBurst (burst : Z) : sM unit := ignored (ICMPBurst burst).
Definition WithICMPLimit (limit : Z) : sM unit := ignored (ICMPLimit limit).
Definition WithTCPSendBufferSize (size : Z) : sM unit :=
  must "set TCP send buffer size range" (SendBufferRange (MinBufferSize K) size (MaxBufferSize K)).
Definition WithTCPSendBufferSizeRange (a b c : Z) : sM unit :=
  must "set TCP send buffer size range" (SendBufferRange a b c).
Definition WithTCPReceiveBufferSize (size : Z) : sM unit :=
  must "set TCP receive buffer size range" (ReceiveBufferRange (MinBufferSize K) size (MaxBufferSize K)).
Definition WithTCPReceiveBufferSizeRange (a b c : Z) : sM unit :=
  must "set TCP receive buffer size range" (ReceiveBufferRange a b c).
Definition WithTCPCongestionControl (cc : gostring) : sM unit :=
  must "set TCP congestion control algorithm" (CongestionControl cc).
Definition WithTCPDelay (v : bool) : sM unit := must "set TCP delay" (TCPDelay v).
Definition WithTCPModerateReceiveBuffer (v : bool) : sM unit :=
  must "set TCP moderate receive buffer" (ModerateReceiveBuffer v).
Definition WithTCPSACKEnabled (v : bool) : sM unit := must "set TCP SACK" (SACK v).
Definition WithTCPRecovery (v : Z) : sM unit := must "set TCP Recovery" (Recovery v).

(** Options one after the other, up to the first error. *)
Fixpoint runOptions (opts : list (sM unit)) : sM unit :=
  match opts with
  | [] => mret tt
  | o :: opts => o;; runOptions opts
  end.

Definition WithDefault : sM unit := runOptions
  [WithDefaultTTL defaultTimeToLive; WithForwarding ipForwardingEnabled; WithICMPBurst icmpBurst; WithICMPLimit icmpLimit;
   WithTCPSendBufferSizeRange (MinBufferSize K) (DefaultSendBufferSize K) (MaxBufferSize K);
   WithTCPReceiveBufferSizeRange (MinBufferSize K) (DefaultReceiveBufferSize K) (MaxBufferSize K);
   WithTCPCongestionControl tcpCongestionControlAlgorithm; WithTCPDelay tcpDelayEnabled;
   WithTCPModerateReceiveBuffer tcpModerateReceiveBufferEnabled; WithTCPSACKEnabled tcpSACKEnabled;
   WithTCPRecovery (TCPRACKLossDetection K)].

(** The options of the engine. *)
Definition withOption (o : stackOption) : sM unit :=
  match o with
  | OptModerateReceiveBuffer => WithTCPModerateReceiveBuffer true
  | OptSendBufferSize n => WithTCPSendBufferSize n
  | OptReceiveBufferSize n => WithTCPReceiveBufferSize n
  end.

(** ** The interface (nic.go, route.go) *)

Definition withTCPHandler : sM unit := ignored TCPHandler.
Definition withUDPHandler : sM unit := ignored UDPHandler.
Definition withCreatingNIC (nic : Z) : sM unit := must "create NIC" (CreateNIC nic).
Definition withPromiscuousMode (nic : Z) (v : bool) : sM unit := must "set promiscuous mode" (Promiscuous nic v).
Definition withSpoofing (nic : Z) (v : bool) : sM unit := must "set spoofing" (Spoofing nic v).
Definition withRouteTable (nic : Z) : sM unit := ignored (RouteTable [(replicate 4 0, nic); (replicate 16 0, nic)]).

Definition multicastIPv4 : bytes := [10; 0; 0; 1].
Definition multicastIPv6 : bytes := [0xfd] ++ replicate 13 0 ++ [1; 0].

Definition withGroup (nic : Z) (a : Addr) : sM unit :=
  match a with
  | Addr4 _ => must "join multicast group" (JoinGroup false nic (AsSlice a))
  | Addr6 _ _ => must "join multicast group" (JoinGroup true nic (AsSlice a))
  | AddrInvalid => mret tt
  end.

Definition withMulticastGroups (nic : Z) (groups : list Addr) : sM unit :=
  match groups with
  | [] => mret tt
  | _ =>
      ignored (ProtocolAddress false nic multicastIPv4 8);;
      ignored (ProtocolAddress true nic multicastIPv6 8);;
      runOptions (withGroup nic <$> groups)
  end.

(** ** [CreateStack] (stack.go) *)

Definition CreateStack (nic : Z) (groups : list Addr) (opts : list stackOption) : sM unit :=
  runOptions (WithDefault :: (withOption <$> opts) ++
    [withTCPHandler; withUDPHandler; withCreatingNIC nic; withPromiscuousMode nic nicPromiscuousModeEnabled;
     withSpoofing nic nicSpoofingEnabled; withRouteTable nic; withMulticastGroups nic groups]).

(** ** What is called *)

(** [m] makes the calls [l], in order; only a call that fails cuts it short. *)
Definition follows (m : sM unit) (l : list stackOp) : Prop := ∀ s,
  m s = (Ok tt, s ++ l) ∨
  ∃ done_ o rest e, l = done_ ++ o :: rest ∧ m s = (Err e, s ++ done_ ++ [o]) ∧ is_Some (fails (s ++ done_) o).

Lemma follows_ret : follows (mret tt) [].
Proof. intros s. left. by rewrite app_nil_r. Qed.

Lemma follows_ignored o : follows (ignored o) [o].
Proof. intros s. by left. Qed.

Lemma follows_must what o : follows (must what o) [o].
Proof.
  intros s. unfold must, call, liftS, mbind, stM_bind. destruct (fails s o) as [e|] eqn:E; [|by left].
  right. exists [], o, [], (errorString (what ++ ": " ++ e)). rewrite app_nil_r. split_and!; [done..|]. by exists e.
Qed.

Lemma follows_seq m1 m2 l1 l2 : follows m1 l1 → follows m2 l2 → follows (m1;; m2) (l1 ++ l2).
Proof.
  intros H1 H2 s. unfold mbind, stM_bind. destruct (H1 s) as [->|(d & o & r & e & -> & -> & Hf)].
  - destruct (H2 (s ++ l1)) as [->|(d & o & r & e & -> & -> & Hf)].
    + left. by rewrite app_assoc.
    + right. exists (l1 ++ d), o, r, e. rewrite <- !app_assoc in *. auto.
  - right. exists d, o, (r ++ l2), e. rewrite <- app_assoc. auto.
Qed.

Lemma follows_run opts ls : Forall2 follows opts ls → follows (runOptions opts) (mjoin ls).
Proof. induction 1 as [|m l opts ls]; cbn [runOptions mjoin list_join]; [apply follows_ret|by apply follows_seq]. Qed.

(** *** The plan *)

Definition defaultCalls : list stackOp :=
  [NetworkTTL false 64; NetworkTTL true 64; Forwarding false true; Forwarding true true; ICMPBurst 50; ICMPLimit 1000;
   SendBufferRange (MinBufferSize K) (DefaultSendBufferSize K) (MaxBufferSize K);
   ReceiveBufferRange (MinBufferSize K) (DefaultReceiveBufferSize K) (MaxBufferSize K);
   CongestionControl "reno"; TCPDelay false; ModerateReceiveBuffer false; SACK true; Recovery (TCPRACKLossDetection K)].

Definition optionCall (o : stackOption) : stackOp :=
  match o with
  | OptModerateReceiveBuffer => ModerateReceiveBuffer true
  | OptSendBufferSize n => SendBufferRange (MinBufferSize K) n (MaxBufferSize K)
  | OptReceiveBufferSize n => ReceiveBufferRange (MinBufferSize K) n (MaxBufferSize K)
  end.

Definition groupCalls (nic : Z) (groups : list Addr) : list stackOp :=
  match groups with
  | [] => []
  | _ =>
      [ProtocolAddress false nic multicastIPv4 8; ProtocolAddress true nic multicastIPv6 8] ++
      omap (λ a, match a with
                 | Addr4 _ => Some (JoinGroup false nic (AsSlice a))
                 | Addr6 _ _ => Some (JoinGroup true nic (AsSlice a))
                 | AddrInvalid => None
                 end) groups
  end.

Definition handlersAndNIC (nic : Z) : list stackOp :=
  [TCPHandler; UDPHandler; CreateNIC nic; Promiscuous nic true; Spoofing nic true;
   RouteTable [(replicate 4 0, nic); (replicate 16 0, nic)]].

Definition plan (nic : Z) (groups : list Addr) (opts : list stackOption) : list stackOp :=
  defaultCalls ++ (optionCall <$> opts) ++ handlersAndNIC nic ++ groupCalls nic groups.

#[local] Hint Resolve follows_ret follows_ignored follows_must : core.

Lemma follows_default : follows WithDefault defaultCalls.
Proof.
  unfold WithDefault. 
  change defaultCalls with (mjoin [[NetworkTTL false 64; NetworkTTL true 64]; [Forwarding false true; Forwarding true true];
    [ICMPBurst 50]; [ICMPLimit 1000]; [SendBufferRange (MinBufferSize K) (DefaultSendBufferSize K) (MaxBufferSize K)];
    [ReceiveBufferRange (MinBufferSize K) (DefaultReceiveBufferSize K) (MaxBufferSize K)]; [CongestionControl "reno"];
    [TCPDelay false]; [ModerateReceiveBuffer false]; [SACK true]; [Recovery (TCPRACKLossDetection K)]]).
  apply follows_run. rewrite !Forall2_cons. split_and!; try (apply follows_must || apply follows_ignored); [..|constructor];
    apply (follows_seq _ _ [_] [_]); apply follows_must.
Qed.

Lemma follows_option o : follows (withOption o) [optionCall o].
Proof. destruct o; apply follows_must. Qed.

Lemma follows_groups nic groups : follows (withMulticastGroups nic groups) (groupCalls nic groups).
Proof.
  destruct groups as [|a groups]; [apply follows_ret|]. unfold withMulticastGroups, groupCalls.
  apply (follows_seq _ _ [_] (_ :: _)); [apply follows_ignored|]. apply (follows_seq _ _ [_] _); [apply follows_ignored|].
  generalize (a :: groups) as gs. clear. induction gs as [|a gs IH]; [apply follows_ret|].
  cbn [fmap list_fmap runOptions omap list_omap]. destruct a; [apply (follows_seq _ _ [])|apply (follows_seq _ _ [_])..];
    auto; apply follows_must.
Qed.

Lemma follows_create nic groups opts : follows (CreateStack nic groups opts) (plan nic groups opts).
Proof.
  unfold CreateStack, plan. cbn [runOptions]. apply follows_seq; [apply follows_default|].
  induction opts as [|o opts IH].
  - cbn [fmap list_fmap app]. unfold handlersAndNIC.
    change (runOptions _) with (runOptions ([withTCPHandler; withUDPHandler; withCreatingNIC nic;
      withPromiscuousMode nic true; withSpoofing nic true; withRouteTable nic] ++ [withMulticastGroups nic groups])).
    cbn [app runOptions]. repeat (apply (follows_seq _ _ [_]); [apply follows_ignored || apply follows_must|]).
    rewrite <- (app_nil_r (groupCalls nic groups)). apply follows_seq; [apply follows_groups|apply follows_ret].
  - cbn [fmap list_fmap app runOptions]. apply (follows_seq _ _ [_]); [apply follows_option|apply IH].
Qed.

Lemma prefix_app_cases {A} (l a b : list A) : l `prefix_of` a ++ b → l `prefix_of` a ∨ ∃ l', l = a ++ l' ∧ l' `prefix_of` b.
Proof.
  revert l. induction a as [|x a IH]; intros l H; [right; by exists l|].
  destruct l as [|y l]; [left; apply prefix_nil|].
  pose proof (prefix_cons_inv_1 _ _ _ _ H) as ->. apply prefix_cons_inv_2 in H.
  destruct (IH l H) as [?|(l' & -> & ?)]; [left; by apply prefix_cons|right; by exists l'].
Qed.

(** The stack is set up completely, in an order that is safe, or not at all.
    [CreateStack] makes exactly the planned calls (the defaults, then the
    configured options, the handlers, the interface and its settings) and
    succeeds, or fails with the call that gVisor refused as its last; and whenever
    the interface exists both transport handlers are already installed, so no
    packet can arrive before there is somebody to take it. *)
Theorem stack_setup nic groups opts :
  match CreateStack nic groups opts [] with
  | (Ok _, calls) => calls = plan nic groups opts
  | (Err _, calls) => calls `prefix_of` plan nic groups opts ∧
      ∃ done_ o, calls = done_ ++ [o] ∧ is_Some (fails done_ o)
  | (Panic, _) => False
  end ∧
  ∀ calls, calls `prefix_of` plan nic groups opts → CreateNIC nic ∈ calls →
    ∃ before after, calls = before ++ [TCPHandler; UDPHandler; CreateNIC nic] ++ after ∧ CreateNIC nic ∉ before.
Proof.
  split.
  - destruct (follows_create nic groups opts []) as [->|(d & o & r & e & E & -> & Hf)]; [done|]. cbn [app] in *. split.
    + exists r. by rewrite E, <- app_assoc.
    + by exists d, o.
  - unfold plan, handlersAndNIC. rewrite app_assoc. set (before := defaultCalls ++ (optionCall <$> opts)).
    assert (CreateNIC nic ∉ before) as Hno.
    { unfold before, defaultCalls. rewrite not_elem_of_app, list_elem_of_fmap. split; [set_solver|].
      intros (o & Ho & _). by destruct o. }
    intros calls [rest E] Hin. cbn [app] in E.
    destruct (prefix_app_cases calls before _ (ex_intro _ rest E)) as [Hp|(l & -> & Hp)].
    { exfalso. apply Hno. destruct Hp as [k ->]. set_solver. }
    assert (∃ after, l = [TCPHandler; UDPHandler; CreateNIC nic] ++ after) as [after ->]; [|by exists before, after].
    apply elem_of_app in Hin as [?|Hin]; [done|].
    destruct l as [|o1 l]; [set_solver|]. pose proof (prefix_cons_inv_1 _ _ _ _ Hp) as H1. apply prefix_cons_inv_2 in Hp. subst o1.
    destruct l as [|o2 l]; [set_solver|]. pose proof (prefix_cons_inv_1 _ _ _ _ Hp) as H2. apply prefix_cons_inv_2 in Hp. subst o2.
    destruct l as [|o3 l]; [set_solver|]. pose proof (prefix_cons_inv_1 _ _ _ _ Hp) as H3. subst o3. by exists l.
Qed.
End Options.

(** ** The forwarders (tcp.go, udp.go) *)

Definition maxConnAttempts : Z := 2048.
Definition tcpKeepaliveCount : Z := 9.
Definition tcpKeepaliveIdle : Z := 60 * 10 ^ 9.
Definition tcpKeepaliveInterval : Z := 30 * 10 ^ 9.

(** What is done for one request, in order. *)
Inductive fwdOp (ID : Type) :=
| CreateEndpoint
| KeepAlive (on : bool)
| KeepaliveIdle (d : Z)
| KeepaliveInterval (d : Z)
| KeepaliveCount (n : Z)
| SetSendBuffer (n : Z)
| SetReceiveBuffer (n : Z)
| Handle (id : ID)
| Complete (sendReset : bool).
Arguments CreateEndpoint {ID}.
Arguments KeepAlive {ID}.
Arguments KeepaliveIdle {ID}.
Arguments KeepaliveInterval {ID}.
Arguments KeepaliveCount {ID}.
Arguments SetSendBuffer {ID}.
Arguments SetReceiveBuffer {ID}.
Arguments Handle {ID}.
Arguments Complete {ID}.

Section Forward.
Context {ID : Type}.
(** Which socket option fails, and the defaults of the buffer sizes. *)
Context (refused : fwdOp ID → bool) (sendDefault recvDefault : option Z).

(** Options one after the other, up to the first that fails. *)
Fixpoint tryAll (ops : list (fwdOp ID)) : list (fwdOp ID) * bool :=
  match ops with
  | [] => ([], true)
  | o :: ops => if refused o then ([o], false) else let '(l, ok) := tryAll ops in (o :: l, ok)
  end.

Definition setSocketOptions : list (fwdOp ID) :=
  let '(l, ok) := tryAll [KeepaliveIdle tcpKeepaliveIdle; KeepaliveInterval tcpKeepaliveInterval;
                          KeepaliveCount tcpKeepaliveCount] in
  KeepAlive true :: l ++
  if ok then (match sendDefault with Some n => [SetSendBuffer n] | None => [] end) ++
             (match recvDefault with Some n => [SetReceiveBuffer n] | None => [] end)
  else [].

(** A connection whose options were refused is handed over all the same. *)
Definition forwardTCP (id : ID) : list (fwdOp ID) :=
  CreateEndpoint ::
  if refused CreateEndpoint then [Complete true] else setSocketOptions ++ [Handle id; Complete false].

Definition forwardUDP (id : ID) : list (fwdOp ID) :=
  CreateEndpoint :: if refused CreateEndpoint then [] else [Handle id].

Definition isComplete (o : fwdOp ID) : Prop := match o with Complete _ => True | _ => False end.
Definition isHandle (o : fwdOp ID) : Prop := match o with Handle _ => True | _ => False end.
#[local] Instance isComplete_dec o : Decision (isComplete o).
Proof. destruct o; apply _. Defined.
#[local] Instance isHandle_dec o : Decision (isHandle o).
Proof. destruct o; apply _. Defined.

Lemma tryAll_sub ops o : o ∈ (tryAll ops).1 → o ∈ ops.
Proof.
  induction ops as [|x ops IH]; cbn [tryAll]; [done|]. destruct (refused x); [set_solver|].
  destruct (tryAll ops) as [l ok]. set_solver.
Qed.

Lemma socket_options_only o : o ∈ setSocketOptions → ¬ isComplete o ∧ ¬ isHandle o.
Proof.
  unfold setSocketOptions. pose proof (tryAll_sub [KeepaliveIdle tcpKeepaliveIdle; KeepaliveInterval tcpKeepaliveInterval;
    KeepaliveCount tcpKeepaliveCount]) as H. destruct (tryAll _) as [l ok]. cbn [fst] in H.
  rewrite elem_of_cons, elem_of_app. intros [->|[Hl|Ho]]; [by split; intros []| |].
  - apply H in Hl. set_unfold in Hl. destruct_or! Hl; subst; by split; intros [].
  - destruct ok; [|set_solver]. apply elem_of_app in Ho as [Ho|Ho].
    + destruct sendDefault; [apply list_elem_of_singleton in Ho as ->; by split; intros []|by apply elem_of_nil in Ho].
    + destruct recvDefault; [apply list_elem_of_singleton in Ho as ->; by split; intros []|by apply elem_of_nil in Ho].
Qed.

(** Every TCP request is completed exactly once, in the end: with a reset when no
    endpoint could be made, and otherwise after the one connection it gives was
    handed over, with or without its options. *)
Lemma tcp_request_completed id :
  if refused CreateEndpoint then forwardTCP id = [CreateEndpoint; Complete true]
  else ∃ opts, forwardTCP id = CreateEndpoint :: opts ++ [Handle id; Complete false] ∧
    Forall (λ o, ¬ isComplete o ∧ ¬ isHandle o) opts.
Proof.
  unfold forwardTCP. destruct (refused CreateEndpoint); [done|]. exists setSocketOptions. split; [done|].
  apply Forall_forall. exact socket_options_only.
Qed.
End Forward.

Example stack_examples :
  let K := mkStackConstants 4096 4194304 1048576 1048576 1 in
  (CreateStack (λ _ _, None) K 1 [Addr4 0xe0000001] [OptSendBufferSize 65536] []).2 =
    defaultCalls K ++ [SendBufferRange 4096 65536 4194304] ++ handlersAndNIC 1 ++
    [ProtocolAddress false 1 [10; 0; 0; 1] 8; ProtocolAddress true 1 ([0xfd] ++ replicate 13 0 ++ [1; 0]) 8;
     JoinGroup false 1 [224; 0; 0; 1]] ∧
  CreateStack (λ _ o, if decide (o = CreateNIC 1) then Some (lit "duplicate nic id") else None) K 1 [] [] [] =
    (Err (errorString "create NIC: duplicate nic id"), defaultCalls K ++ [TCPHandler; UDPHandler; CreateNIC 1]) ∧
  forwardTCP (λ o, match o with KeepaliveInterval _ => true | _ => false end) (Some 1) (Some 2) 7 =
    [CreateEndpoint; KeepAlive true; KeepaliveIdle (60 * 10 ^ 9); KeepaliveInterval (30 * 10 ^ 9); Handle 7; Complete false].
Proof. vm_compute. split_and!; reflexivity. Qed.
