(* ===== verification/LinkEndpoint.v ===== *)
(** * The link endpoint over a reader and writer (tun2socks/core/device/iobased)

    The two loops between a device and the network stack: packets read from the
    device are injected by their IP version, packets of the stack are written to
    the device behind [offset] bytes of header.  The contents of the slice after
    each read, the count the device returned, and whether the endpoint is attached
    are arguments. *)

From S2P Require Import Prelude Errors.
Local Open Scope Z_scope.

Definition defaultOutQueueLen : Z := 2 ^ 10.

Record endpoint := mkEndpoint { epMTU : Z; epOffset : Z }.

(** [New]; [rw] says whether there is a device at all. *)
Definition newEndpoint (rw : bool) (mtu offset : Z) : res endpoint :=
  if mtu =? 0 then fail "MTU size is zero"
  else if negb rw then fail "RW interface is nil"
  else if offset <? 0 then fail "offset must be non-negative"
  else Ok (mkEndpoint mtu offset).

(** What one [Read] did: the slice after it, the count, and [IsAttached] then. *)
Inductive readEvent := ReadData (data : bytes) (n : Z) (attached : bool) | ReadFailed.

(** [header.IPVersion] *)
Definition IPVersion (b : bytes) : Z := match b with [] => -1 | x :: _ => Z.shiftr x 4 end.

Inductive inbound := InIPv4 (payload : bytes) | InIPv6 (payload : bytes).

(** One round of [dispatchLoop]: what is injected. *)
Definition dispatchOne (e : endpoint) (data : bytes) (n : Z) (attached : bool) : res (option inbound) :=
  if (n =? 0) || (epMTU e <? n) || negb attached then Ok None else
  payload ← checked (slice data (epOffset e) (epOffset e + n));
  rest ← checked (slice data (epOffset e) (zlen data));
  Ok (if IPVersion rest =? 4 then Some (InIPv4 payload)
      else if IPVersion rest =? 6 then Some (InIPv6 payload) else None).

(** The loop ends with the first error of the device. *)
Fixpoint dispatchLoop (e : endpoint) (events : list readEvent) : res (list inbound) :=
  match events with
  | [] | ReadFailed :: _ => Ok []
  | ReadData data n attached :: events =>
      p ← dispatchOne e data n attached;
      rest ← dispatchLoop e events;
      Ok (option_list p ++ rest)
  end.

(** [writePacket]: the frame that is written; its error ends nothing. *)
Definition writePacket (e : endpoint) (pkt : bytes) : bytes :=
  if epOffset e =? 0 then pkt else replicate (Z.to_nat (epOffset e)) 0 ++ pkt.

(** [outboundLoop], until the context is cancelled. *)
Definition outboundLoop (e : endpoint) (pkts : list bytes) : list bytes := writePacket e <$> pkts.

(** ** Packets pass *)

(** A device that puts the packet behind the offset and counts its bytes alone. *)
Definition packetAt (e : endpoint) (pkt : bytes) (ev : readEvent) : Prop :=
  ∃ head tail, ev = ReadData (head ++ pkt ++ tail) (zlen pkt) true ∧ zlen head = epOffset e.

(** A packet the stack knows what to do with. *)
Definition asInbound (pkt : bytes) : option inbound :=
  if IPVersion pkt =? 4 then Some (InIPv4 pkt) else if IPVersion pkt =? 6 then Some (InIPv6 pkt) else None.

(** The rest of a slice behind its head. *)
Lemma slice_rest (head rest : bytes) : slice (head ++ rest) (zlen head) (zlen (head ++ rest)) = Some rest.
Proof. pose proof (slice_app head rest []) as E. rewrite app_nil_r in E. apply E; [done|apply zlen_app]. Qed.

Lemma dispatch_packet e pkt ev : packetAt e pkt ev → pkt ≠ [] → zlen pkt ≤ epMTU e →
  ∀ events, dispatchLoop e (ev :: events) = (rest ← dispatchLoop e events; Ok (option_list (asInbound pkt) ++ rest)).
Proof.
  intros (head & tail & -> & Hh) Hne Hl events. cbn [dispatchLoop]. unfold dispatchOne.
  assert ((zlen pkt =? 0) || (epMTU e <? zlen pkt) || negb true = false) as ->.
  { assert (zlen pkt ≠ 0) as Hz by (by destruct pkt). apply Z.eqb_neq in Hz as ->. apply Z.ltb_ge in Hl as ->. done. }
  rewrite <- Hh, slice_rest, slice_app by done. cbn [checked mbind res_bind]. destruct pkt as [|x pkt]; done.
Qed.

(** No packet of the device is lost or altered on its way into the stack.
    From a device that puts each packet behind the offset and counts its bytes,
    the loop injects exactly the IPv4 and IPv6 packets, whole, in order and each
    as its version, up to the first error. *)
Theorem packets_pass e pkts events later :
  Forall2 (packetAt e) pkts events → Forall (λ p, p ≠ [] ∧ zlen p ≤ epMTU e) pkts →
  dispatchLoop e (events ++ ReadFailed :: later) = Ok (omap asInbound pkts).
Proof.
  intros H. revert later. induction H as [|p ev pkts events Hp _ IH]; intros later Hall; [done|].
  apply Forall_cons in Hall as [[Hne Hl] Hall]. cbn [app]. rewrite (dispatch_packet e p ev Hp Hne Hl), IH by done. cbn.
  by destruct (asInbound p).
Qed.

(** Whatever the device returns within the slice it was given, the loop does not
    panic. *)
Lemma dispatch_never_panics e events : 0 ≤ epMTU e → 0 ≤ epOffset e →
  Forall (λ ev, match ev with ReadData data n _ => zlen data = epOffset e + epMTU e ∧ 0 ≤ n | _ => True end) events →
  ∃ l, dispatchLoop e events = Ok l.
Proof.
  intros Hm Ho. induction 1 as [|ev events Hev _ [l IH]]; [by eexists|].
  destruct ev as [data n attached|]; [|by eexists]. destruct Hev as [Hd Hn]. cbn [dispatchLoop]. unfold dispatchOne.
  destruct ((n =? 0) || (epMTU e <? n) || negb attached) eqn:E; [rewrite IH; by eexists|].
  apply orb_false_iff in E as [[_ E]%orb_false_iff _]. apply Z.ltb_ge in E.
  destruct (slice data (epOffset e) (epOffset e + n)) as [x|] eqn:E1; [|apply slice_None in E1; lia].
  destruct (slice data (epOffset e) (zlen data)) as [y|] eqn:E2; [|apply slice_None in E2; lia].
  cbn [checked mbind res_bind]. rewrite IH. by eexists.
Qed.

(** A plain file counts the header too: the packet comes with as many stray bytes
    at its end, and one that fills the interface is dropped. *)
Theorem header_counted_as_packet e head pkt tail :
  zlen head = epOffset e → 0 < epOffset e → zlen tail = epMTU e - zlen pkt → pkt ≠ [] → IPVersion pkt = 4 →
  dispatchOne e (head ++ pkt ++ tail) (epOffset e + zlen pkt) true =
    Ok (if epMTU e <? epOffset e + zlen pkt then None else Some (InIPv4 (pkt ++ take (length head) tail))).
Proof.
  intros Hh Ho Ht Hne Hv. unfold dispatchOne. pose proof (zlen_nonneg pkt).
  destruct (Z.eqb_spec (epOffset e + zlen pkt) 0); [lia|]. cbn [orb].
  destruct (Z.ltb_spec (epMTU e) (epOffset e + zlen pkt)) as [|Hle]; [done|]. cbn [orb negb].
  assert (tail = take (length head) tail ++ drop (length head) tail) as Et by (by rewrite take_drop).
  assert (zlen (take (length head) tail) = epOffset e) as Htl.
  { unfold zlen in *. rewrite length_take. lia. }
  assert (head ++ pkt ++ tail = head ++ (pkt ++ take (length head) tail) ++ drop (length head) tail) as ->
    by (by rewrite <- app_assoc, take_drop).
  rewrite <- Hh, slice_rest, slice_app by (rewrite ?zlen_app; lia). cbn [checked mbind res_bind].
  destruct pkt as [|x pkt]; [done|]. cbn [app IPVersion] in *. by rewrite Hv.
Qed.

(** ** On concrete data *)

Lemma packets_pass_witness :
  let e := mkEndpoint 3 4 in
  dispatchLoop e [ReadData [0; 0; 0; 2; 0x45; 1; 2] 3 true; ReadData [0; 0; 0; 30; 0x60; 9; 0] 2 true;
                  ReadData [0; 0; 0; 2; 0x10; 9; 0] 2 true; ReadFailed] =
    Ok [InIPv4 [0x45; 1; 2]; InIPv6 [0x60; 9]].
Proof.
  apply (packets_pass (mkEndpoint 3 4) [[0x45; 1; 2]; [0x60; 9]; [0x10; 9]]
    [ReadData [0; 0; 0; 2; 0x45; 1; 2] 3 true; ReadData [0; 0; 0; 30; 0x60; 9; 0] 2 true; ReadData [0; 0; 0; 2; 0x10; 9; 0] 2 true] []).
  - repeat constructor.
    + by exists [0; 0; 0; 2], [].
    + by exists [0; 0; 0; 30], [0].
    + by exists [0; 0; 0; 2], [0].
  - repeat constructor; discriminate.
Defined.

Example endpoint_examples :
  newEndpoint true 0 0 = fail "MTU size is zero" ∧ newEndpoint true 1500 (-1) = fail "offset must be non-negative" ∧
  outboundLoop (mkEndpoint 1500 4) [[0x45; 1]] = [[0; 0; 0; 0; 0x45; 1]] ∧
  dispatchOne (mkEndpoint 3 0) [0x45; 1; 2] 3 false = Ok None ∧
  dispatchOne (mkEndpoint 3 4) [0; 0; 0; 2; 0x45; 1; 2] 7 true = Ok None.
Proof. vm_compute. split_and!; reflexivity. Qed.
