(* ===== verification/TunDevice.v ===== *)
(** * The TUN devices and the life of the link endpoint
      (tun2socks/core/device/tun, device/fdbased, device/iobased Attach and Wait)

    Opening an interface takes descriptors from the system and must return them
    on every failing path: the descriptors of the process are the state here, and
    what the system and the libraries answer are arguments.  Linux uses gVisor's
    endpoint over the descriptor, the other systems the endpoint of
    [device/iobased] over WireGuard's device. *)

From S2P Require Import Prelude Errors LinkEndpoint Engine.
Local Open Scope Z_scope.

(** ** Deferred calls *)

(** [defer func() { if err != nil { cleanup } }()]: the deferred call sees the
    named result, which a panic leaves as it was. *)
Definition onError {S A} (cleanup : S → S) (m : stM S A) : stM S A := λ s,
  match m s with
  | (Err e, s') => (Err e, cleanup s')
  | r => r
  end.

(** [defer cleanup()] *)
Definition always {S A} (cleanup : S → S) (m : stM S A) : stM S A := λ s,
  let '(r, s') := m s in (r, cleanup s').

(** [return fmt.Errorf("...: %w", err)] *)
Definition errorf {S A} (text : String.string) (m : stM S A) : stM S A := λ s,
  match m s with
  | (Err e, s') => (Err (wrapError text e), s')
  | r => r
  end.

(** A call that returns a value or an error, and one that returns only an error. *)
Definition orError {S A} (r : error + A) : stM S A := liftS (match r with inl e => Err e | inr a => Ok a end).
Definition noError {S} (e : option error) : stM S unit := liftS (match e with Some e => Err e | None => Ok tt end).

(** The drivers' names. *)
Definition tunDriver : gostring := "tun".
Definition fdDriver : gostring := "fd".

(** ** Linux (tun_netstack.go) *)

Module Netstack.

(** The descriptors of the process that are open, and the MTUs that were set. *)
Record kernel := mkKernel { kOpen : gset Z; kMTU : gmap gostring Z }.

Record sysEnv := mkSysEnv {
  sysTunOpen : gset Z → gostring → error + Z;
  sysSocket : gset Z → error + Z;
  sysIfreq : gostring → option error;
  sysSetMTU : gostring → Z → option error;
  sysGetMTU : gmap gostring Z → gostring → error + Z;
  sysEndpoint : Z → Z → option error;
}.

Definition closeFd (fd : Z) (s : kernel) : kernel := mkKernel (kOpen s ∖ {[fd]}) (kMTU s).

(** A call that returns a new descriptor. *)
Definition newFd (call : gset Z → error + Z) : stM kernel Z := λ s,
  match call (kOpen s) with
  | inl e => (Err e, s)
  | inr fd => (Ok fd, mkKernel ({[fd]} ∪ kOpen s) (kMTU s))
  end.

Record TUN := mkTUN { tunFd : Z; tunMTU : Z; tunName : gostring }.

Section Open.
Context (env : sysEnv).

Definition ioctlSetMTU (name : gostring) (n : Z) : stM kernel unit :=
  noError (sysSetMTU env name n);; modifyS (λ s, mkKernel (kOpen s) (<[name := n]> (kMTU s))).

Definition setMTU (name : gostring) (n : Z) : stM kernel unit :=
  fd ← newFd (sysSocket env);
  always (closeFd fd) (noError (sysIfreq env name);; ioctlSetMTU name n).

Definition IFNAMSIZ : Z := 16.

Definition requestMTU (name : gostring) (mtu : Z) : stM kernel unit :=
  if 0 <? mtu then errorf "set mtu: " (setMTU name mtu) else mret tt.

(** The part of [Open] under its deferred close.  [kOpen] counts the descriptors
    this package opens; those gVisor's endpoint opens for its own use ([fdbased.New]
    is a call of [sysEndpoint]) are gVisor's, and are not counted. *)
Definition openWith (fd : Z) (name : gostring) (mtu : Z) : stM kernel TUN :=
  requestMTU name mtu;;
  m ← getS kMTU;
  mtu' ← errorf "get mtu: " (orError (sysGetMTU env m name));
  errorf "create endpoint: " (noError (sysEndpoint env fd mtu'));;
  mret (mkTUN fd mtu' name).

Definition Open (name : gostring) (mtu : Z) : stM kernel TUN :=
  if IFNAMSIZ <=? zlen name then liftS (Err (errorString ("interface name too long: " ++ name))) else
  fd ← errorf "create tun: " (newFd (λ o, sysTunOpen env o name));
  onError (closeFd fd) (openWith fd name mtu).

(** [TUN.Name], [TUN.Type], [TUN.Close] *)
Definition Name (t : TUN) : gostring := tunName t.
Definition Type_ (t : TUN) : gostring := tunDriver.
Definition Close (t : TUN) (s : kernel) : kernel := closeFd (tunFd t) s.

(** What the system promises: a descriptor it returns was not open, and it
    reports the MTU that was set. *)
Class KernelLaws : Prop := {
  tun_fresh o name fd : sysTunOpen env o name = inr fd → fd ∉ o;
  socket_fresh o fd : sysSocket env o = inr fd → fd ∉ o;
  mtu_reported m name v v' : m !! name = Some v → sysGetMTU env m name = inr v' → v' = v;
}.

Context `{!KernelLaws}.

Lemma closeFd_new fd o m : fd ∉ o → closeFd fd (mkKernel ({[fd]} ∪ o) m) = mkKernel o m.
Proof. intros Hf. unfold closeFd. cbn [kOpen kMTU]. f_equal. set_solver. Qed.

(** The socket of [setMTU] is closed on every path. *)
Lemma setMTU_keeps name n s r s' : setMTU name n s = (r, s') →
  kOpen s' = kOpen s ∧ r ≠ Panic ∧ (r = Ok tt → kMTU s' !! name = Some n).
Proof.
  destruct s as [o m]. unfold setMTU, newFd, mbind, stM_bind. cbn [kOpen kMTU].
  destruct (sysSocket env o) as [e|fd] eqn:E; [by intros [= <- <-]|]. apply socket_fresh in E.
  unfold always, ioctlSetMTU, noError, liftS, modifyS, mbind, stM_bind.
  destruct (sysIfreq env name); [intros [= <- <-]; by rewrite closeFd_new|].
  destruct (sysSetMTU env name n); intros [= <- <-]; rewrite closeFd_new by done; [done|].
  cbn [kOpen kMTU]. split_and!; [done..|]. intros _. by simplify_map_eq.
Qed.

Lemma errorf_inv {S A} text (m : stM S A) s r s' : errorf text m s = (r, s') →
  ∃ r', m s = (r', s') ∧ (∀ a, r' = Ok a ↔ r = Ok a) ∧ (r' = Panic ↔ r = Panic).
Proof. unfold errorf. destruct (m s) as [[a|e|] s0]; intros [= <- <-]; eexists; (split; [done|]); split; naive_solver. Qed.

Lemma openWith_keeps fd name mtu s r s' : openWith fd name mtu s = (r, s') →
  kOpen s' = kOpen s ∧ r ≠ Panic ∧
  ∀ t, r = Ok t → tunFd t = fd ∧ tunName t = name ∧ (0 < mtu → tunMTU t = mtu).
Proof.
  unfold openWith, mbind, stM_bind.
  destruct (requestMTU name mtu s) as [r1 s1] eqn:E1. unfold requestMTU in E1.
  assert (kOpen s1 = kOpen s ∧ r1 ≠ Panic ∧ (r1 = Ok tt → 0 < mtu → kMTU s1 !! name = Some mtu)) as (Ho & Hp & Hm).
  { destruct (Z.ltb_spec 0 mtu).
    - apply errorf_inv in E1 as (r' & E & Ha & Hb). apply setMTU_keeps in E as (? & ? & ?). naive_solver.
    - injection E1 as <- <-. split_and!; [done..|lia]. }
  destruct r1 as [[]|e|]; [|intros [= <- <-]; naive_solver..]. cbn [getS].
  unfold orError, noError, liftS, errorf. destruct (sysGetMTU env (kMTU s1) name) as [e|mtu'] eqn:E2; [intros [= <- <-]; naive_solver|].
  destruct (sysEndpoint env fd mtu'); intros [= <- <-]; (split_and!; [done..|]); [done|].
  intros t [= <-]. split_and!; [done..|]. intros Hpos. by eapply mtu_reported in E2; [|by apply Hm].
Qed.
End Open.

(** C31: opening an interface owns one descriptor or none.  A failed [Open], at
    whatever step it failed, leaves the open descriptors as they were; a
    successful one adds exactly the device's own descriptor, under the name and
    with the MTU it was asked for, and [Close] gives it back. *)
Theorem tun_open_owns env `{!KernelLaws env} name mtu s r s' : Open env name mtu s = (r, s') →
  match r with
  | Ok t =>
      tunFd t ∉ kOpen s ∧ kOpen s' = {[tunFd t]} ∪ kOpen s ∧ kOpen (Close t s') = kOpen s ∧
      Name t = name ∧ zlen name < 16 ∧ (0 < mtu → tunMTU t = mtu)
  | Err _ => kOpen s' = kOpen s
  | Panic => False
  end.
Proof.
  destruct s as [o m]. unfold Open. destruct (Z.leb_spec IFNAMSIZ (zlen name)) as [|Hl]; [by intros [= <- <-]|].
  unfold newFd, errorf, mbind, stM_bind, onError. cbn [kOpen kMTU].
  destruct (sysTunOpen env o name) as [e|fd] eqn:E; [by intros [= <- <-]|]. apply tun_fresh in E; [|done].
  destruct (openWith env fd name mtu (mkKernel ({[fd]} ∪ o) m)) as [r1 s1] eqn:E1.
  apply openWith_keeps in E1 as (Ho & Hp & Ht); [|done]. cbn [kOpen] in Ho.
  destruct r1 as [t|e|]; intros [= <- <-]; [|cbn [closeFd kOpen]; rewrite Ho; set_solver|done].
  destruct (Ht t eq_refl) as (<- & <- & Hm). unfold Close, closeFd. cbn [kOpen]. rewrite Ho.
  split_and!; [done..|set_solver|done|exact Hl|exact Hm].
Qed.

(** A system with one free descriptor after another. *)
Definition demoEnv (mtuFails : bool) : sysEnv := {|
  sysTunOpen o _ := inr (fresh o);
  sysSocket o := inr (fresh o);
  sysIfreq _ := None;
  sysSetMTU _ _ := if mtuFails then Some (sysError 1) else None;
  sysGetMTU m name := inr (default 1500 (m !! name));
  sysEndpoint _ _ := None |}.

#[export] Instance demoEnv_laws b : KernelLaws (demoEnv b).
Proof.
  split.
  - intros o name fd [= <-]. apply is_fresh.
  - intros o fd [= <-]. apply is_fresh.
  - intros m name v v' E [= <-]. by rewrite E.
Qed.

Lemma tun_open_owns_witness :
  let s := mkKernel {[3; 5]} ∅ in
  (∃ t s', Open (demoEnv false) "tun0" 1400 s = (Ok t, s') ∧ tunMTU t = 1400 ∧ kOpen (Close t s') = {[3; 5]}) ∧
  (∃ e s', Open (demoEnv true) "tun0" 1400 s = (Err e, s') ∧ kOpen s' = {[3; 5]}).
Proof.
  split.
  - destruct (Open (demoEnv false) "tun0" 1400 (mkKernel {[3; 5]} ∅)) as [r s'] eqn:E.
    pose proof (tun_open_owns (demoEnv false) _ _ _ _ _ E) as H.
    destruct r as [t|e|]; [|vm_compute in E; discriminate E..].
    destruct H as (_ & _ & Hc & _ & _ & Hm). exists t, s'. split; [reflexivity|]. split; [apply Hm; lia|exact Hc].
  - destruct (Open (demoEnv true) "tun0" 1400 (mkKernel {[3; 5]} ∅)) as [r s'] eqn:E.
    pose proof (tun_open_owns (demoEnv true) _ _ _ _ _ E) as H.
    destruct r as [t|e|]; [vm_compute in E; discriminate E| |vm_compute in E; discriminate E].
    exists e, s'. split; [reflexivity|exact H].
Defined.
End Netstack.

(** ** The other systems (tun_wireguard.go, tun_wireguard_unix.go, tun_wireguard_windows.go) *)

Module Wireguard.

(** The constants of the two platforms: on Unix the device prefixes each packet
    with 4 bytes, on Windows an MTU of 0 leaves the choice to the driver. *)
Inductive system := unix | windows.
Definition offset (p : system) : Z := match p with unix => 4 | windows => 0 end.
Definition defaultMTU (p : system) : Z := match p with unix => 1500 | windows => 0 end.

(** The devices that exist are the state.  [wgCreate] returns a handle and
    whether it is a [*tun.NativeTun]; [wgMTU] may panic inside the library. *)
Record wgEnv := mkWgEnv {
  wgCreate : gset Z → gostring → Z → res (Z * bool);
  wgMTU : Z → res Z;
}.

Record TUN := mkTUN { tNt : Z; tMTU : Z; tOffset : Z; tEndpoint : endpoint; tSizes : Z }.

Section Open.
Context (p : system) (env : wgEnv).

Definition closeDevice (nt : Z) (s : gset Z) : gset Z := s ∖ {[nt]}.

Definition createTUN (name : gostring) (mtu : Z) : stM (gset Z) (Z * bool) := λ s,
  match wgCreate env s name mtu with
  | Ok (nt, native) => (Ok (nt, native), {[nt]} ∪ s)
  | Err e => (Err e, s)
  | Panic => (Panic, s)
  end.

Definition forcedMTU (mtu : Z) : Z := if 0 <? mtu then mtu else defaultMTU p.

(** [Open] up to its recover. *)
Definition openUnguarded (name : gostring) (mtu : Z) : stM (gset Z) TUN :=
  '(nt, native) ← errorf "create tun: " (createTUN name (forcedMTU mtu));
  if negb native then liftS Panic else
  onError (closeDevice nt) (
    tunMTU ← errorf "get mtu: " (liftS (wgMTU env nt));
    ep ← errorf "create endpoint: " (liftS (newEndpoint true (u32 tunMTU) (offset p)));
    mret (mkTUN nt (u32 tunMTU) (offset p) ep 0)).

Definition Open (name : gostring) (mtu : Z) : stM (gset Z) TUN := λ s,
  match openUnguarded name mtu s with
  | (Panic, s') => (fail "open tun", s')
  | r => r
  end.

Definition Close (t : TUN) (s : gset Z) : gset Z := closeDevice (tNt t) s.

(** [TUN.Name]: what the library says, its error dropped. *)
Definition Name (libName : Z → gostring * option error) (t : TUN) : gostring := (libName (tNt t)).1.

(** [Open] never panics; unless the library does, a failure leaves no device
    behind, and a device that opens has an endpoint of its own MTU and offset. *)
Lemma wireguard_open_owns name mtu s r s' :
  (∀ o n m nt native, wgCreate env o n m = Ok (nt, native) → nt ∉ o ∧ native = true) →
  (∀ o n m, wgCreate env o n m ≠ Panic) → (∀ nt, wgMTU env nt ≠ Panic) →
  Open name mtu s = (r, s') →
  match r with
  | Ok t => tNt t ∉ s ∧ s' = {[tNt t]} ∪ s ∧ Close t s' = s ∧ tEndpoint t = mkEndpoint (tMTU t) (offset p) ∧ 0 < tMTU t
  | Err _ => s' = s
  | Panic => False
  end.
Proof.
  intros Hf Hc Hm. unfold Open, openUnguarded, createTUN, errorf, mbind, stM_bind.
  destruct (wgCreate env s name (forcedMTU mtu)) as [[nt native]|e|] eqn:E; [|by intros [= <- <-]|by destruct (Hc _ _ _ E)].
  destruct (Hf _ _ _ _ _ E) as [Hn ->]. cbn [negb]. unfold onError, liftS.
  destruct (wgMTU env nt) as [m|e|] eqn:Em; [|intros [= <- <-]; unfold closeDevice; set_solver|by destruct (Hm _ Em)].
  unfold newEndpoint. destruct (Z.eqb_spec (u32 m) 0) as [|Hz]; cbn [negb fail]; [intros [= <- <-]; unfold closeDevice; set_solver|].
  destruct (Z.ltb_spec (offset p) 0) as [Hlt|]; [by destruct p|]. intros [= <- <-]. cbn [tNt tMTU tEndpoint].
  unfold Close, closeDevice. cbn [tNt]. split_and!; [done..|set_solver|done|]. pose proof (Z.mod_pos_bound m (2 ^ 32) eq_refl).
  unfold u32 in *. lia.
Qed.

(** A panic of the library after the device was created is reported as an
    error, but the device stays: the deferred close looks at an error that is
    set only later. *)
Lemma panic_leaks_device name mtu s nt :
  wgCreate env s name (forcedMTU mtu) = Ok (nt, true) → wgMTU env nt = Panic →
  Open name mtu s = (fail "open tun", {[nt]} ∪ s).
Proof.
  intros Ec Em. unfold Open, openUnguarded, createTUN, errorf, mbind, stM_bind. rewrite Ec. cbn [negb].
  unfold onError, liftS. by rewrite Em.
Qed.
End Open.

(** *** Packets

    What [NativeTun.Read] did: the slice after it, the size it stored if it
    stored one, and whether it failed. *)
Record ntRead := mkNtRead { rdData : bytes; rdSize : option Z; rdFails : bool }.

(** [TUN.Read]: the count is the stored size, which a read without a packet
    leaves as the last one stored it. *)
Definition Read (t : TUN) (r : ntRead) : TUN * Z * bool :=
  let sizes := default (tSizes t) (rdSize r) in
  (mkTUN (tNt t) (tMTU t) (tOffset t) (tEndpoint t) sizes, sizes, rdFails r).

(** [TUN.Write]: the bytes behind the offset are the packet. *)
Definition Write (t : TUN) (packet : bytes) : res bytes := checked (slice packet (tOffset t) (zlen packet)).

(** The reads of the device as the endpoint sees them. *)
Fixpoint readEvents (t : TUN) (rs : list ntRead) : list readEvent :=
  match rs with
  | [] => []
  | r :: rs =>
      let '(t', n, failed) := Read t r in
      (if failed then ReadFailed else ReadData (rdData r) n true) :: readEvents t' rs
  end.

(** A read as the library documents it: one packet at the offset, its size stored. *)
Definition readsPacket (t : TUN) (pkt : bytes) (r : ntRead) : Prop :=
  ∃ head tail, r = mkNtRead (head ++ pkt ++ tail) (Some (zlen pkt)) false ∧ zlen head = tOffset t.

Lemma readEvents_packets t pkts rs : tEndpoint t = mkEndpoint (tMTU t) (tOffset t) →
  Forall2 (readsPacket t) pkts rs → Forall2 (packetAt (tEndpoint t)) pkts (readEvents t rs).
Proof.
  intros Ht H. revert t rs Ht H. induction pkts as [|pkt pkts IH]; intros t rs Ht H; inversion H as [|? r ? rs' Hr Hrs]; subst; [constructor|].
  destruct Hr as (head & tail & -> & Hh). cbn [readEvents Read rdSize rdData rdFails default]. constructor.
  - exists head, tail. rewrite Ht. by split.
  - by apply (IH (mkTUN (tNt t) (tMTU t) (tOffset t) (tEndpoint t) (zlen pkt))).
Qed.

Lemma readEvents_app t rs later : readEvents t (rs ++ later) =
  readEvents t rs ++ readEvents (foldl (λ t r, (Read t r).1.1) t rs) later.
Proof. revert t. induction rs as [|r rs IH]; intros t; [done|]. cbn. by rewrite IH. Qed.

(** Every packet a device of this kind reads reaches the stack, whole and in
    order, until the device fails; and every packet of the stack reaches the
    device as it was. *)
Lemma wireguard_packets_pass t pkts rs last later : tEndpoint t = mkEndpoint (tMTU t) (tOffset t) →
  Forall2 (readsPacket t) pkts rs → Forall (λ q, q ≠ [] ∧ zlen q ≤ tMTU t) pkts → rdFails last = true →
  dispatchLoop (tEndpoint t) (readEvents t (rs ++ last :: later)) = Ok (omap asInbound pkts).
Proof.
  intros Ht Hr Hp Hl. rewrite readEvents_app. cbn [readEvents Read]. rewrite Hl.
  apply packets_pass; [by apply readEvents_packets|]. by rewrite Ht.
Qed.

Lemma wireguard_writes_whole t pkt : tEndpoint t = mkEndpoint (tMTU t) (tOffset t) → 0 ≤ tOffset t →
  Write t (writePacket (tEndpoint t) pkt) = Ok pkt.
Proof.
  intros -> Ho. unfold Write, writePacket. cbn [epOffset]. destruct (Z.eqb_spec (tOffset t) 0) as [E|E].
  - rewrite E. apply checked_Ok. apply (slice_rest [] pkt).
  - apply checked_Ok. assert (tOffset t = zlen (replicate (Z.to_nat (tOffset t)) 0)) as E'.
    { unfold zlen. rewrite length_replicate. lia. }
    rewrite E' at 2. apply slice_rest.
Qed.

(** A read that stored no size delivers the last packet's length of whatever the
    fresh slice holds. *)
Lemma stale_size_counts t r : rdSize r = None → (Read t r).1.2 = tSizes t.
Proof. intros H. unfold Read. by rewrite H. Qed.
End Wireguard.

(** ** A device over a descriptor (fdbased) *)

Module FDBased.

(** [FD.Type], [FD.Name], [FD.Close] *)
Definition Type_ (d : device) : gostring := match d with DevFD _ _ => fdDriver | _ => tunDriver end.
Definition Name (fd : Z) : gostring := itoa fd.
Definition Close (fd : Z) (o : gset Z) : gset Z := o ∖ {[fd]}.

(** [open] on Linux, and on the other Unix systems over the endpoint of iobased:
    the descriptor came from the caller, a failure leaves it open. *)
Definition openLinux (newEndpointFails : Z → Z → option error) (fd mtu offset : Z) : res device :=
  match newEndpointFails fd mtu with
  | Some e => Err (wrapError "create endpoint: " e)
  | None => Ok (DevFD fd mtu)
  end.

Definition openUnix (fd mtu offset : Z) : res (device * endpoint) :=
  match newEndpoint true mtu offset with
  | Err e => Err (wrapError "create endpoint: " e)
  | Ok ep => Ok (DevFD fd mtu, ep)
  | Panic => Panic
  end.

(** [Open] of fd_windows.go *)
Definition openWindows (name : gostring) (mtu offset : Z) : res device := fail "unsupported operation".

(** The device opened under a name has that name. *)
Lemma fd_name_roundtrip fd : 0 ≤ fd < 2 ^ 63 → atoi (Name fd) = Some fd.
Proof. intros H. unfold Name. apply atoi_itoa. lia. Qed.
End FDBased.

(** ** The life of the endpoint's goroutines (iobased Attach, Wait)

    [Attach] may be called again and again, with a dispatcher or without one; the
    first call starts the two loops, the reading loop ends with an error of the
    device and cancels the context, on which the writing loop ends. *)

Module Attach.

Inductive goroutine := idle | running | left_ | finished.

#[global] Instance goroutine_eq_dec : EqDecision goroutine.
Proof. solve_decision. Defined.

Record state := mkState {
  st_once : bool;
  st_wg : Z;
  st_dispatch : goroutine;
  st_outbound : goroutine;
  st_cancelled : bool;
  st_attached : bool;
}.

Definition init : state := mkState false 0 idle idle false false.

(** [Endpoint.Attach]; [dispatcher] says whether it is not nil. *)
Definition attach (dispatcher : bool) (s : state) : state :=
  if st_once s then mkState true (st_wg s) (st_dispatch s) (st_outbound s) (st_cancelled s) dispatcher
  else mkState true (st_wg s + 2) running running false dispatcher.

(** [wg.Done] panics below zero. *)
Inductive step : state → state → Prop :=
| step_attach d s : step s (attach d s)
| step_read_fails s : st_dispatch s = running →
    step s (mkState (st_once s) (st_wg s) left_ (st_outbound s) true (st_attached s))
| step_no_packet s : st_outbound s = running → st_cancelled s = true →
    step s (mkState (st_once s) (st_wg s) (st_dispatch s) left_ true (st_attached s))
| step_done_dispatch s : st_dispatch s = left_ →
    step s (mkState (st_once s) (st_wg s - 1) finished (st_outbound s) (st_cancelled s) (st_attached s))
| step_done_outbound s : st_outbound s = left_ →
    step s (mkState (st_once s) (st_wg s - 1) (st_dispatch s) finished (st_cancelled s) (st_attached s)).

(** [Endpoint.Wait] returns. *)
Definition waitReturns (s : state) : Prop := st_wg s = 0.

Definition live (g : goroutine) : Z := match g with running | left_ => 1 | _ => 0 end.

(** The wait group counts the goroutines that have not finished; the writing
    loop ends only after the reading one; nothing runs before the first attach. *)
Definition Inv (s : state) : Prop :=
  st_wg s = live (st_dispatch s) + live (st_outbound s) ∧
  (st_once s = false → st_dispatch s = idle ∧ st_outbound s = idle) ∧
  (st_once s = true → st_dispatch s ≠ idle ∧ st_outbound s ≠ idle) ∧
  (st_cancelled s = true ↔ st_dispatch s = left_ ∨ st_dispatch s = finished) ∧
  (st_outbound s = left_ ∨ st_outbound s = finished → st_cancelled s = true).

Lemma inv_step s s' : Inv s → step s s' → Inv s'.
Proof.
  intros (Hw & H0 & H1 & H2 & H3). destruct 1 as [dd s|s E|s E Ec|s E|s E]; destruct s as [o w d b c a];
    unfold Inv, attach; cbn in *; subst.
  - destruct o; cbn; [done|]. destruct (H0 eq_refl) as [-> ->]. cbn. split_and!; [lia|done..|naive_solver|naive_solver].
  - destruct o; [|naive_solver]. cbn. split_and!; [lia|done|naive_solver|naive_solver|done].
  - destruct o; [|naive_solver]. cbn. split_and!; [lia|done|naive_solver|done|done].
  - destruct o; [|naive_solver]. cbn. split_and!; [lia|done|naive_solver|naive_solver|done].
  - destruct o; [|naive_solver]. cbn. split_and!; [lia|done|naive_solver|done|naive_solver].
Qed.

Lemma inv_reachable s : rtc step init s → Inv s.
Proof.
  intros Hr. assert (Inv init) as H0 by (unfold Inv; cbn; naive_solver).
  induction Hr as [|x y z Hxy _ IH]; [done|]. apply IH. by eapply inv_step.
Qed.

(** However often the endpoint is attached, the counter is never negative, and
    [Wait] returns after an attach exactly when both loops have ended. *)
Lemma wait_means_quiet s : rtc step init s → 0 ≤ st_wg s ∧
  (st_once s = true → waitReturns s ↔ st_dispatch s = finished ∧ st_outbound s = finished).
Proof.
  intros Hr. destruct (inv_reachable s Hr) as (Hw & H0 & H1 & _). unfold waitReturns.
  split; [rewrite Hw; destruct (st_dispatch s), (st_outbound s); cbn; lia|].
  intros Ho. destruct (H1 Ho). rewrite Hw. destruct (st_dispatch s), (st_outbound s); cbn; naive_solver lia.
Qed.

(** Once the device has failed, both loops can end: nothing but their own steps
    is needed for [Wait] to return. *)
Lemma failed_device_ends s : rtc step init s → st_cancelled s = true → ∃ s', rtc step s s' ∧ waitReturns s'.
Proof.
  intros Hr Hc. destruct (inv_reachable s Hr) as (Hw & H0 & H1 & H2 & H3). destruct s as [o w d b c a]. cbn in *. subst c.
  destruct o; [|naive_solver]. destruct (H1 eq_refl) as [Hd Hb].
  assert (∃ w', rtc step (mkState true w d b true a) (mkState true w' finished b true a) ∧ w' = live b) as (w1 & R1 & ->).
  { destruct d; [done|naive_solver| |].
    - eexists. split; [apply rtc_once, (step_done_dispatch (mkState true w left_ b true a)); done|]. subst w. cbn. lia.
    - eexists. split; [reflexivity|]. subst w. cbn. lia. }
  eexists (mkState true 0 finished finished true a). split; [|done]. etrans; [exact R1|]. destruct b; [done| | |done]; cbn [live].
  - eapply rtc_l; [apply (step_no_packet (mkState true 1 finished running true a)); done|].
    apply rtc_once. apply (step_done_outbound (mkState true 1 finished left_ true a)). done.
  - apply rtc_once. apply (step_done_outbound (mkState true 1 finished left_ true a)). done.
Qed.
End Attach.
