(* ===== verification/DesyncWindows.v ===== *)
(** * Fake packets on Windows, and the systems without them
      (core/desync_windows.go, core/oob_windows.go, core/desync_stub.go, core/waitack_stub.go)

    On Windows the forged bytes are put into a temporary file that [TransmitFile]
    sends under the fake TTL; while the peer cannot acknowledge them the file is
    overwritten with the real bytes, which the system retransmits.  The state
    here is what the calls change: the file and its handle, the TTL of the
    socket, the event, the semaphore that bounds the transmissions on
    workstations, and the packets that left.  Which calls fail is an argument. *)

From S2P Require Import Prelude Errors Conn ClientHello Fragment Policy Desync TunDevice.
Local Open Scope Z_scope.

(** The calls of [sendWithNoise], in the order of the code. *)
Inductive call :=
| cControl | cCreateTemp | cSeek1 | cWriteFake | cSyncFake | cSetFakeTTL | cSeek2 | cCreateEvent
| cFileConn | cFileControl | cTransmit | cSeek3 | cWriteReal | cSyncReal | cSeek4 | cSetDefaultTTL
| cWait | cResult.

#[global] Instance call_eq_dec : EqDecision call.
Proof. solve_decision. Defined.

(** What [WaitForSingleObject] returns when it does not fail. *)
Inductive waitEvent := WAIT_OBJECT_0 | WAIT_TIMEOUT | WAIT_ABANDONED | WAIT_FAILED | otherEvent (code : Z).

Record answers := mkAnswers {
  fails : call → option error;   (** the error of a call *)
  partly : call → nat;           (** how much a failing write has written *)
  ioPending : bool;              (** [TransmitFile] returned ERROR_IO_PENDING, which is no failure *)
  waitEvent_ : waitEvent;
  lastError : error;
  sentBytes : Z;                 (** the count [WSAGetOverlappedResult] stores *)
  late : bool;                   (** the system sends the file only after it was overwritten *)
}.

Record machine := mkMachine {
  mFile : option bytes;          (** the temporary file, while it exists *)
  mOpen : bool;                  (** its handle *)
  mPos : nat;
  mTTL : Z;
  mEvent : bool;
  mSem : Z;                      (** the slots of [transmitFileSem] in use *)
  mPending : bool;               (** a transmission has begun and was not seen to end *)
  mPage : bytes;                 (** the bytes a retransmission takes *)
  mAir : list (Z * bytes);       (** the packets that left, each under its TTL *)
  mClock : Z;
}.

Notation winM := (stM machine).

Section Send.
Context (workstation : bool) (a : answers).

Definition setFile (f : option bytes) (open : bool) (pos : nat) (m : machine) : machine :=
  mkMachine f open pos (mTTL m) (mEvent m) (mSem m) (mPending m) (mPage m) (mAir m) (mClock m).
Definition setTTL (ttl : Z) (m : machine) : machine :=
  mkMachine (mFile m) (mOpen m) (mPos m) ttl (mEvent m) (mSem m) (mPending m) (mPage m) (mAir m) (mClock m).
Definition setEvent (b : bool) (m : machine) : machine :=
  mkMachine (mFile m) (mOpen m) (mPos m) (mTTL m) b (mSem m) (mPending m) (mPage m) (mAir m) (mClock m).
Definition setSem (n : Z) (m : machine) : machine :=
  mkMachine (mFile m) (mOpen m) (mPos m) (mTTL m) (mEvent m) n (mPending m) (mPage m) (mAir m) (mClock m).
Definition setPending (b : bool) (m : machine) : machine :=
  mkMachine (mFile m) (mOpen m) (mPos m) (mTTL m) (mEvent m) (mSem m) b (mPage m) (mAir m) (mClock m).
Definition setPage (b : bytes) (m : machine) : machine :=
  mkMachine (mFile m) (mOpen m) (mPos m) (mTTL m) (mEvent m) (mSem m) (mPending m) b (mAir m) (mClock m).
Definition depart (b : bytes) (m : machine) : machine :=
  mkMachine (mFile m) (mOpen m) (mPos m) (mTTL m) (mEvent m) (mSem m) (mPending m) (mPage m) (mAir m ++ [(mTTL m, b)]) (mClock m).

Definition sleep (d : Z) (m : machine) : machine :=
  mkMachine (mFile m) (mOpen m) (mPos m) (mTTL m) (mEvent m) (mSem m) (mPending m) (mPage m) (mAir m) (mClock m + d).

Definition contents (m : machine) : bytes := default [] (mFile m).

(** A call that changes nothing of the state but may fail. *)
Definition try (op : gostring) (c : call) : winM unit :=
  liftS (match fails a c with Some e => Err (opError op e) | None => Ok tt end).

Definition seekStart (c : call) : winM unit :=
  try "seek start" c;; modifyS (λ m, setFile (mFile m) (mOpen m) 0 m).

(** [os.File.Write] at the position of the file; a transmission under way takes
    its bytes from the file. *)
Definition overwrite (pos : nat) (b f : bytes) : bytes := take pos f ++ b ++ drop (pos + length b) f.

Definition writeFile (op : gostring) (c : call) (b : bytes) : winM unit := λ m,
  let put b :=
    let f := overwrite (mPos m) b (contents m) in
    let m := setFile (Some f) (mOpen m) (mPos m + length b) m in
    if mPending m then setPage (take (length (mPage m)) f) m else m in
  match fails a c with
  | Some e => (Err (opError op e), put (take (partly a c) b))
  | None => (Ok tt, put b)
  end.

Definition setsockoptTTL (op : gostring) (c : call) (ttl : Z) : winM unit := try op c;; modifyS (setTTL ttl).

(** A slot of the semaphore of two: when both are taken one passes on. *)
Definition acquire : winM unit :=
  if workstation then modifyS (λ m, setSem (if mSem m <? 2 then mSem m + 1 else mSem m) m) else mret tt.
Definition release (m : machine) : machine := if workstation then setSem (mSem m - 1) m else m.

(** [TransmitFile] from the start of the file; the bytes leave at once or late. *)
Definition transmitFile (n : nat) : winM unit :=
  (if ioPending a then mret tt else try "call TransmitFile" cTransmit);;
  modifyS (λ m, let m := setPage (take n (contents m)) (setPending true m) in
                if late a then m else depart (mPage m) m).

Definition departLate : winM unit := modifyS (λ m, if late a then depart (mPage m) m else m).

(** The wait for the event and the switch on its outcome. *)
Definition awaitEvent : winM unit :=
  try "wait for TransmitFile" cWait;;
  match waitEvent_ a with
  | WAIT_OBJECT_0 => modifyS (setPending false)
  | WAIT_TIMEOUT => liftS (fail "wait for TransmitFile: timeout (5s)")
  | WAIT_ABANDONED => liftS (fail "wait for TransmitFile: WAIT_ABANDONED")
  | WAIT_FAILED => liftS (Err (opError "wait for TransmitFile: WAIT_FAILED" (lastError a)))
  | otherEvent code => liftS (Err (errorString ("wait for TransmitFile: unexpected event: " ++ itoa code)))
  end.

(** From the semaphore on. *)
Definition transmission (real : bytes) (defaultTTL fakeSleep : Z) : winM unit :=
  try "get raw conn" cFileConn;;
  try "raw control" cFileControl;;
  transmitFile (length real);;
  modifyS (sleep fakeSleep);;
  seekStart cSeek3;;
  writeFile "write real data" cWriteReal real;;
  try "sync real data" cSyncReal;;
  seekStart cSeek4;;
  setsockoptTTL "set default ttl" cSetDefaultTTL defaultTTL;;
  departLate;;
  awaitEvent;;
  try "get TransmitFile result" cResult;;
  if sentBytes a <? zlen real
  then liftS (Err (errorString ("sent only " ++ itoa (sentBytes a) ++ " of " ++ itoa (zlen real) ++ " bytes")))
  else mret tt.

(** From the event on, and from the temporary file on, each with what it defers. *)
Definition withEvent (real : bytes) (defaultTTL fakeSleep : Z) : winM unit :=
  try "create event" cCreateEvent;;
  modifyS (setEvent true);;
  always (setEvent false) (acquire;; always release (transmission real defaultTTL fakeSleep)).

Definition withFile (fake real : bytes) (fakeTTL defaultTTL fakeSleep : Z) : winM unit :=
  seekStart cSeek1;;
  writeFile "write fake data" cWriteFake fake;;
  try "sync fake data" cSyncFake;;
  setsockoptTTL "set fake ttl" cSetFakeTTL fakeTTL;;
  seekStart cSeek2;;
  withEvent real defaultTTL fakeSleep.

Definition sendWithNoise (fake real : bytes) (fakeTTL defaultTTL fakeSleep : Z) : winM unit :=
  if negb (zlen fake =? zlen real)
  then liftS (Err (errorString ("invalid data length (fake=" ++ itoa (zlen fake) ++ ",real=" ++ itoa (zlen real) ++ ")")))
  else
    try "raw control" cControl;;
    try "create temp file" cCreateTemp;;
    modifyS (setFile (Some []) true 0);;
    always (λ m, setFile None false (mPos m) m) (withFile fake real fakeTTL defaultTTL fakeSleep).

(** [desyncSend] over it: [defaultTTL] is what the option of the socket reads,
    and the first four arguments are the errors of its own calls. *)
Definition desyncSend (rawConn control getTTL writeRest : option error) (defaultTTL : Z) (record : bytes)
    (sniStart sniLen fakeTTL fakeSleep : Z) : winM unit :=
  noError (WithStr "get raw conn" rawConn);;
  noError (WithStr "raw control" control);;
  match getTTL with
  | Some _ => mret tt
  | None =>
      cut ← liftS (checked (findLastDotOrMidPos record sniStart sniLen));
      head ← liftS (checked (slice record 0 sniStart));
      real ← liftS (checked (slice record 0 cut));
      (λ m, let '(r, m') := sendWithNoise (zeroPadded cut head) real fakeTTL defaultTTL (Z.max minInterval fakeSleep) m in
            (with_str "send data with noise" r, m'));;
      rest ← liftS (checked (slice record cut (zlen record)));
      noError (WithStr "send remaining data" writeRest);;
      modifyS (depart rest)
  end.
End Send.

(** ** Every path gives back what it took *)

(** The resources of a machine: the file and its handle, the event, the slots. *)
Definition held (m : machine) : option bytes * bool * bool * Z := (mFile m, mOpen m, mEvent m, mSem m).

(** A step that keeps some observation of the state. *)
Definition keeps {A B} (obs : machine → B) (p : winM A) : Prop := ∀ m, obs (p m).2 = obs m.

Section Keeps.
Context {B : Type} (obs : machine → B).

Lemma keepsObs_bind {A C} (p : winM A) (k : A → winM C) : keeps obs p → (∀ x, keeps obs (k x)) → keeps obs (p ≫= k).
Proof.
  intros Hp Hk m. unfold mbind, stM_bind. specialize (Hp m). destruct (p m) as [[x|e|] m']; cbn in *; [|done..].
  by rewrite (Hk x m').
Qed.

Lemma keepsObs_lift {A} (r : res A) : keeps obs (liftS r).
Proof. done. Qed.

Lemma keepsObs_ret {A} (x : A) : keeps obs (mret x).
Proof. done. Qed.

Lemma keepsObs_modify f : (∀ m, obs (f m) = obs m) → keeps obs (modifyS f).
Proof. intros Hf m. apply Hf. Qed.
End Keeps.

#[export] Hint Resolve keepsObs_bind keepsObs_lift keepsObs_ret keepsObs_modify : keeps.

(** The handle, the event and the semaphore. *)
Definition handles (m : machine) : bool * bool * Z := (mOpen m, mEvent m, mSem m).

(** One operation at a time: binds are split, a single operation is computed. *)
Ltac keep_op := intros ?; unfold seekStart, writeFile, setsockoptTTL, try, mbind, stM_bind, liftS, modifyS, mret, stM_ret;
  repeat (case_match; simplify_eq/=); done.
Ltac keep := repeat (apply keepsObs_bind; [|intros []]); keep_op.

Section GivesBack.
Context (ws : bool) (a : answers).

Lemma transmission_handles real defaultTTL fakeSleep : keeps handles (transmission a real defaultTTL fakeSleep).
Proof. unfold transmission, transmitFile, departLate, awaitEvent. keep. Qed.

Lemma withEvent_handles real defaultTTL fakeSleep m : mEvent m = false → mSem m < 2 →
  handles (withEvent ws a real defaultTTL fakeSleep m).2 = handles m.
Proof.
  intros He Hs. unfold withEvent, try, acquire, release, always, mbind, stM_bind, liftS, modifyS.
  destruct (fails a cCreateEvent); [done|]. apply Z.ltb_lt in Hs.
  assert (∀ m1, handles m1 = (mOpen m, true, mSem m + (if ws then 1 else 0)) →
    handles (let '(r, s') := transmission a real defaultTTL fakeSleep m1 in
      (r, if ws then setSem (mSem s' - 1) s' else s')).2 = (mOpen m, true, mSem m)) as Ht.
  { intros m1 H1. pose proof (transmission_handles real defaultTTL fakeSleep m1) as H. rewrite H1 in H.
    destruct (transmission _ _ _ _ m1) as [r m2]. unfold handles in *. cbn in H. injection H as Ho He' Hsem.
    destruct ws; cbn; rewrite Ho, He'; f_equal; lia. }
  assert (∀ p : res unit * machine, handles p.2 = (mOpen m, true, mSem m) →
    handles (let '(r, s') := p in (r, setEvent false s')).2 = handles m) as Hc.
  { intros [r m2]. unfold handles. cbn. intros [= -> _ ->]. by rewrite He. }
  destruct ws; unfold mret, stM_ret; cbn [setEvent mSem]; rewrite ?Hs; apply Hc, Ht; unfold handles; cbn; f_equal; lia.
Qed.

Lemma withFile_handles fake real fakeTTL defaultTTL fakeSleep m : mEvent m = false → mSem m < 2 →
  handles (withFile ws a fake real fakeTTL defaultTTL fakeSleep m).2 = handles m.
Proof.
  intros He Hs. unfold withFile.
  assert (∀ (p q : winM unit), keeps handles p → (∀ m', handles m' = handles m → handles (q m').2 = handles m) →
    ∀ m', handles m' = handles m → handles ((p;; q) m').2 = handles m) as Hb.
  { intros p q Hp Hq m' Hm. unfold mbind, stM_bind. specialize (Hp m'). destruct (p m') as [[[]|e|] m2]; cbn in *; [|congruence..].
    apply Hq. congruence. }
  assert (∀ m', handles m' = handles m → handles (withEvent ws a real defaultTTL fakeSleep m').2 = handles m) as Hw.
  { intros m' Hm. rewrite withEvent_handles; [done|..]; unfold handles in Hm; injection Hm as _ E1 E2; congruence. }
  apply Hb; [keep_op| |done]. apply Hb; [keep_op|]. apply Hb; [keep_op|]. apply Hb; [keep_op|]. by apply Hb; [keep_op|].
Qed.
End GivesBack.

(** A send with a fake packet gives back what it took: whichever call fails and
    however the wait ends, afterwards the temporary file is gone, its handle and
    the event are closed, and the slot of the semaphore is free again. *)
Theorem noise_gives_back ws a fake real fakeTTL defaultTTL fakeSleep m :
  mFile m = None → mOpen m = false → mEvent m = false → mSem m < 2 →
  let m' := (sendWithNoise ws a fake real fakeTTL defaultTTL fakeSleep m).2 in
  mFile m' = None ∧ mOpen m' = false ∧ mEvent m' = false ∧ mSem m' = mSem m.
Proof.
  intros Hf Ho He Hs. unfold sendWithNoise, try, always, mbind, stM_bind, liftS, modifyS.
  destruct (negb _); [done|]. destruct (fails a cControl); [done|]. destruct (fails a cCreateTemp); [done|].
  pose proof (withFile_handles ws a fake real fakeTTL defaultTTL fakeSleep (setFile (Some []) true 0 m) He Hs) as H.
  destruct (withFile _ _ _ _ _ _ _ _) as [r m2]. unfold handles in H. cbn in *. injection H as _ H1 H2. by rewrite H1, H2.
Qed.

(** A workstation on which the transmission runs into the limit of the wait. *)
Definition slowAnswers : answers := mkAnswers (λ _, None) (λ _, O) true WAIT_TIMEOUT (sysError 0) 0 false.

Lemma noise_gives_back_witness :
  let m := mkMachine None false 0 64 false 1 false [] [] 0 in
  let '(r, m') := sendWithNoise true slowAnswers (lit "fake!") (lit "hello") 7 64 200 m in
  isErr r = true ∧ mAir m' = [(7, lit "fake!")] ∧ mFile m' = None ∧ mOpen m' = false ∧ mEvent m' = false ∧ mSem m' = 1.
Proof.
  pose proof (noise_gives_back true slowAnswers (lit "fake!") (lit "hello") 7 64 200
    (mkMachine None false 0 64 false 1 false [] [] 0) eq_refl eq_refl eq_refl ltac:(cbn; lia)) as H.
  cbv zeta. destruct (sendWithNoise _ _ _ _ _ _ _ _) as [r m'] eqn:E. cbn [snd] in H.
  split; [by vm_compute in E; injection E as <- _|]. split; [by vm_compute in E; injection E as _ <-|exact H].
Defined.

(** ** What a send that succeeds has done *)

Section Succeeds.
Context (ws : bool) (a : answers).

Lemma try_Ok op c u m m' : try a op c m = (Ok u, m') → m' = m.
Proof. unfold try, liftS. destruct (fails a c); by intros [= <- <-]. Qed.

Lemma modifyS_Ok {S} (f : S → S) s u s' : modifyS f s = (Ok u, s') → s' = f s.
Proof. by intros [= <- <-]. Qed.

Lemma always_Ok {S A} (f : S → S) (p : stM S A) s x s' : always f p s = (Ok x, s') → ∃ s1, p s = (Ok x, s1) ∧ s' = f s1.
Proof. unfold always. destruct (p s) as [r s1]. intros [= -> <-]. by exists s1. Qed.

Lemma seekStart_Ok c u m m' : seekStart a c m = (Ok u, m') → m' = setFile (mFile m) (mOpen m) 0 m.
Proof. intros ([] & m1 & ->%try_Ok & ->%modifyS_Ok)%bindS_inv. done. Qed.

Lemma setsockoptTTL_Ok op c ttl u m m' : setsockoptTTL a op c ttl m = (Ok u, m') → m' = setTTL ttl m.
Proof. intros ([] & m1 & ->%try_Ok & ->%modifyS_Ok)%bindS_inv. done. Qed.

Lemma acquire_Ok u m m' : acquire ws m = (Ok u, m') → ∃ n, m' = setSem n m.
Proof. unfold acquire. destruct ws; intros [= <- <-]; [by eexists|]. exists (mSem m). by destruct m. Qed.

Lemma transmission_Ok real defaultTTL fakeSleep u m m' : transmission a real defaultTTL fakeSleep m = (Ok u, m') →
  length (contents m) = length real →
  mTTL m' = defaultTTL ∧ mPage m' = real ∧ mPending m' = false ∧ mClock m' = mClock m + fakeSleep ∧
  mAir m' = mAir m ++ [if late a then (defaultTTL, real) else (mTTL m, contents m)].
Proof.
  intros H El. unfold transmission in H.
  apply bindS_inv in H as ([] & m1 & ->%try_Ok & H). apply bindS_inv in H as ([] & m1 & ->%try_Ok & H).
  apply bindS_inv in H as ([] & m1 & Ht & H). apply bindS_inv in H as ([] & m2 & ->%modifyS_Ok & H).
  apply bindS_inv in Ht as ([] & m0 & H0 & ->%modifyS_Ok).
  assert (m0 = m) as -> by (destruct (ioPending a); [by injection H0|by apply try_Ok in H0]).
  apply bindS_inv in H as ([] & m3 & ->%seekStart_Ok & H). apply bindS_inv in H as ([] & m4 & Hw & H).
  apply bindS_inv in H as ([] & m5 & ->%try_Ok & H). apply bindS_inv in H as ([] & m6 & ->%seekStart_Ok & H).
  apply bindS_inv in H as ([] & m7 & ->%setsockoptTTL_Ok & H). apply bindS_inv in H as ([] & m8 & ->%modifyS_Ok & H).
  apply bindS_inv in H as ([] & m9 & Ha & H). apply bindS_inv in H as ([] & m10 & ->%try_Ok & H).
  apply bindS_inv in Ha as ([] & m11 & ->%try_Ok & Ha). destruct (waitEvent_ a); try done. apply modifyS_Ok in Ha as ->.
  assert (take (length real) (contents m) = contents m) as Et by (rewrite <- El; apply take_ge; lia).
  destruct (sentBytes a <? zlen real); [done|]. injection H as _ <-.
  unfold writeFile in Hw. destruct (fails a cWriteReal); [done|]. injection Hw as <-.
  assert (drop (length real) (default [] (mFile m)) = []) as Ed by (apply drop_ge; unfold contents in El; lia).
  destruct (late a); cbn; rewrite Et, Ed, take_0, app_nil_r, El; cbn [app]; rewrite take_ge by lia; done.
Qed.

Lemma withFile_Ok fake real fakeTTL defaultTTL fakeSleep u m m' :
  withFile ws a fake real fakeTTL defaultTTL fakeSleep m = (Ok u, m') → mFile m = Some [] → length fake = length real →
  mTTL m' = defaultTTL ∧ mPage m' = real ∧ mPending m' = false ∧ mClock m' = mClock m + fakeSleep ∧
  mAir m' = mAir m ++ [if late a then (defaultTTL, real) else (fakeTTL, fake)].
Proof.
  intros H Hf El. unfold withFile in H.
  apply bindS_inv in H as ([] & m1 & ->%seekStart_Ok & H). apply bindS_inv in H as ([] & m2 & Hw & H).
  apply bindS_inv in H as ([] & m3 & ->%try_Ok & H). apply bindS_inv in H as ([] & m4 & ->%setsockoptTTL_Ok & H).
  apply bindS_inv in H as ([] & m5 & ->%seekStart_Ok & H).
  apply bindS_inv in H as ([] & m6 & ->%try_Ok & H). apply bindS_inv in H as ([] & m7 & ->%modifyS_Ok & H).
  apply always_Ok in H as (m8 & H & ->). apply bindS_inv in H as ([] & m9 & (n & ->)%acquire_Ok & H).
  apply always_Ok in H as (m10 & H & ->).
  unfold writeFile in Hw. destruct (fails a cWriteFake); [done|]. injection Hw as <-.
  assert (overwrite 0 fake [] = fake) as Eo by (unfold overwrite; cbn; by rewrite drop_nil, app_nil_r).
  apply transmission_Ok in H; cbn in H |- *; unfold contents in *; cbn in *; rewrite Hf in *; cbn in *.
  - destruct (mPending m); cbn in *; rewrite ?Eo in *; unfold release; destruct ws; cbn; done.
  - destruct (mPending m); cbn; by rewrite Eo.
Qed.
End Succeeds.

(** A send that succeeds: the forged bytes left under the fake TTL (unless the
    system sent late), the socket has its own TTL back, and what is retransmitted
    are the real bytes. *)
Lemma noise_succeeds ws a fake real fakeTTL defaultTTL fakeSleep u m m' :
  sendWithNoise ws a fake real fakeTTL defaultTTL fakeSleep m = (Ok u, m') →
  mTTL m' = defaultTTL ∧ mPage m' = real ∧ mPending m' = false ∧ mClock m' = mClock m + fakeSleep ∧
  mAir m' = mAir m ++ [if late a then (defaultTTL, real) else (fakeTTL, fake)].
Proof.
  unfold sendWithNoise. destruct (Z.eqb_spec (zlen fake) (zlen real)) as [El|]; cbn [negb]; [|done].
  intros H. apply bindS_inv in H as ([] & m1 & ->%try_Ok & H). apply bindS_inv in H as ([] & m2 & ->%try_Ok & H).
  apply bindS_inv in H as ([] & m3 & ->%modifyS_Ok & H). apply always_Ok in H as (m4 & H & ->).
  apply withFile_Ok in H; [done..|]. unfold zlen in El. lia.
Qed.

(** No call fails and the transmission ends in time. *)
Definition smooth (a : answers) (n : Z) : Prop :=
  (∀ c, fails a c = None) ∧ waitEvent_ a = WAIT_OBJECT_0 ∧ n ≤ sentBytes a.

(** A computation that succeeds from every state. *)
Definition runs (p : winM unit) : Prop := ∀ m, ∃ m', p m = (Ok tt, m').

Lemma runs_bind (p q : winM unit) : runs p → runs q → runs (p;; q).
Proof. intros Hp Hq m. destruct (Hp m) as [m1 E]. destruct (Hq m1) as [m2 E2]. exists m2. by erewrite bindS. Qed.

Lemma runs_modify f : runs (modifyS f).
Proof. intros m. by eexists. Qed.

Lemma runs_ret : runs (mret tt).
Proof. intros m. by eexists. Qed.

Lemma runs_always f p : runs p → runs (always f p).
Proof. intros Hp m. destruct (Hp m) as [m1 E]. eexists. unfold always. by rewrite E. Qed.

#[export] Hint Resolve runs_bind runs_modify runs_ret runs_always : runs.

(** When nothing fails the send ends with success. *)
Lemma noise_smooth ws a fake real fakeTTL defaultTTL fakeSleep : smooth a (zlen real) → zlen fake = zlen real →
  runs (sendWithNoise ws a fake real fakeTTL defaultTTL fakeSleep).
Proof.
  intros (Hf & Hw & Hn) El. apply Z.ltb_ge in Hn.
  assert (∀ op c, runs (try a op c)) as Ht by (intros op c m; eexists; unfold try, liftS; by rewrite Hf).
  assert (∀ op c b, runs (writeFile a op c b)) as Hwr by (intros op c b m; eexists; unfold writeFile; by rewrite Hf).
  unfold sendWithNoise, withFile, withEvent, transmission, transmitFile, awaitEvent, departLate, seekStart, setsockoptTTL, acquire.
  rewrite El, Z.eqb_refl, Hw, Hn. cbn [negb]. destruct ws, (ioPending a); auto 40 with runs.
Qed.

(** A ClientHello sent with a fake packet on Windows: when nothing fails the
    forged packet leaves under the fake TTL with nothing but zeros from the start
    of the server name on, the rest of the record follows under the socket's own
    TTL, and what is retransmitted in place of the forged bytes completes the
    record. *)
Theorem windows_hides_name ws a defaultTTL record sniStart sniLen fakeTTL fakeSleep m :
  0 ≤ sniStart → 0 < sniLen → sniStart + sniLen ≤ zlen record → smooth a (zlen record) → late a = false →
  ∃ m' cut, desyncSend ws a None None None None defaultTTL record sniStart sniLen fakeTTL fakeSleep m = (Ok tt, m') ∧
    sniStart ≤ cut < sniStart + sniLen ∧ mTTL m' = defaultTTL ∧
    mPage m' ++ drop (Z.to_nat cut) record = record ∧
    mAir m' = mAir m ++ [(fakeTTL, take (Z.to_nat sniStart) record ++ replicate (Z.to_nat (cut - sniStart)) 0);
                         (defaultTTL, drop (Z.to_nat cut) record)].
Proof.
  intros Hs Hl Hle (Hf & Hw & Hn) Hlate.
  destruct (cut_range record sniStart sniLen) as (cut & Ecut & Hcut); [lia..|].
  set (fake := zeroPadded cut (take (Z.to_nat sniStart) record)). set (real := take (Z.to_nat cut) record).
  assert (zlen (take (Z.to_nat sniStart) record) = sniStart) as Lh by (unfold zlen in *; rewrite length_take; lia).
  assert (zlen fake = cut) as Lf by (apply zeroPadded_zlen; lia).
  assert (zlen real = cut) as Lr by (unfold real, zlen in *; rewrite length_take; lia).
  assert (fake = take (Z.to_nat sniStart) record ++ replicate (Z.to_nat (cut - sniStart)) 0) as Ef.
  { unfold fake, zeroPadded. rewrite take_ge; [do 2 f_equal|]; unfold zlen in *; lia. }
  destruct (noise_smooth ws a fake real fakeTTL defaultTTL (Z.max minInterval fakeSleep)) with (m := m) as [m1 E1];
    [split_and!; [done..|lia]|congruence|].
  destruct (noise_succeeds _ _ _ _ _ _ _ _ _ _ E1) as (Ht & Hp & _ & _ & Ha). rewrite Hlate in Ha.
  eexists (depart (drop (Z.to_nat cut) record) m1), cut. split.
  - unfold desyncSend, noError. cbn [WithStr]. rewrite !(bindS _ _ _ _ _ (eq_refl : liftS (Ok tt) _ = _)).
    unfold mbind, stM_bind, liftS. rewrite Ecut. cbn [checked]. rewrite (slice_0 record sniStart) by lia. cbn [checked].
    rewrite (slice_0 record cut) by lia. cbn [checked]. fold fake real. rewrite E1. cbn [with_str].
    by rewrite (slice_end record cut) by lia.
  - split_and!; [lia..|done|cbn [depart mPage]; rewrite Hp; apply take_drop|]. cbn. by rewrite Ha, Ht, <- app_assoc, <- Ef.
Qed.

(** An end with an error while the transmission is under way. *)
Definition endsPending (r : res unit * machine) : Prop := ∃ e m', r = (Err e, m') ∧ mPending m' = true.

Lemma endsPending_after (p q : winM unit) m : runs p → (∀ m', mPending m' = mPending (p m).2 → endsPending (q m')) → endsPending ((p;; q) m).
Proof. intros Hp Hq. destruct (Hp m) as [m1 E]. rewrite (bindS _ _ _ _ _ E). apply Hq. by rewrite E. Qed.

Lemma endsPending_keeps (p q : winM unit) m : runs p → keeps mPending p →
  (∀ m', mPending m' = true → endsPending (q m')) → mPending m = true → endsPending ((p;; q) m).
Proof. intros Hp Hk Hq Hm. apply endsPending_after; [done|]. intros m' E. apply Hq. by rewrite E, Hk. Qed.

Lemma endsPending_always f (p : winM unit) m : (∀ m', mPending (f m') = mPending m') → endsPending (p m) → endsPending (always f p m).
Proof. intros Hf (e & m' & E & Hp). exists e, (f m'). unfold always. rewrite E. split; [done|]. by rewrite Hf. Qed.

(** A wait that runs into its limit returns while the system still works on the
    transmission, whose record lives on the caller's stack, and frees its slot. *)
Lemma timeout_leaves_pending ws a fake real fakeTTL defaultTTL fakeSleep m :
  (∀ c, fails a c = None) → waitEvent_ a = WAIT_TIMEOUT → zlen fake = zlen real →
  endsPending (sendWithNoise ws a fake real fakeTTL defaultTTL fakeSleep m).
Proof.
  intros Hf Hw El.
  assert (∀ op c, runs (try a op c)) as Ht by (intros op c m0; eexists; unfold try, liftS; by rewrite Hf).
  assert (∀ op c b, runs (writeFile a op c b)) as Hwr by (intros op c b m0; eexists; unfold writeFile; by rewrite Hf).
  assert (∀ c, runs (seekStart a c)) as Hs by (intros; unfold seekStart; auto with runs).
  assert (∀ op c t, runs (setsockoptTTL a op c t)) as Hso by (intros; unfold setsockoptTTL; auto with runs).
  assert (∀ m0, endsPending (transmission a real defaultTTL fakeSleep m0)) as Htr.
  { intros m0. unfold transmission, departLate. do 2 (apply endsPending_after; [done|intros ? _]).
    apply endsPending_after; [unfold transmitFile; destruct (ioPending a); auto with runs|]. intros m1 E.
    assert (mPending m1 = true) as Hp.
    { rewrite E. unfold transmitFile, try, liftS, mbind, stM_bind. rewrite Hf. by destruct (ioPending a), (late a). }
    clear E. do 7 (apply endsPending_keeps; [by auto with runs|keep_op| |done]; clear dependent m1; intros m1 Hp). unfold awaitEvent, try, liftS, mbind, stM_bind. rewrite Hf, Hw. by eexists _, _. }
  unfold sendWithNoise. rewrite El, Z.eqb_refl. cbn [negb].
  do 3 (apply endsPending_after; [by auto with runs|intros ? _]). apply endsPending_always; [done|].
  unfold withFile. do 5 (apply endsPending_after; [done|intros ? _]).
  unfold withEvent. do 2 (apply endsPending_after; [by auto with runs|intros ? _]). apply endsPending_always; [done|].
  apply endsPending_after; [unfold acquire; destruct ws; auto with runs|intros ? _].
  apply endsPending_always; [intros; unfold release; by destruct ws|]. apply Htr.
Qed.

(** A call that fails between the two settings of the TTL leaves the fake one. *)
Lemma failed_send_keeps_fake_ttl ws a fake real fakeTTL defaultTTL fakeSleep e m :
  (∀ c, c ≠ cCreateEvent → fails a c = None) → fails a cCreateEvent = Some e → zlen fake = zlen real →
  ∃ m', sendWithNoise ws a fake real fakeTTL defaultTTL fakeSleep m = (Err (opError "create event" e), m') ∧ mTTL m' = fakeTTL.
Proof.
  intros Hf He El. eexists. split.
  - unfold sendWithNoise. rewrite El, Z.eqb_refl. cbn [negb].
    unfold withFile, withEvent, seekStart, setsockoptTTL, writeFile, try, always, mbind, stM_bind, liftS, modifyS.
    rewrite He, !Hf by done. cbn. reflexivity.
  - cbn. done.
Qed.

(** ** Urgent data (oob_windows.go) *)

(** [sendWithOOB]: one [WSASend] of the data and the urgent byte; [wsaSend] is
    what it answers for the buffer: an error, or the count it sent. *)
Definition sendWithOOB (getRawConn rawWrite : option error) (wsaSend : bytes → error + Z) (data : option bytes) (oob : Z)
  : option error * list bytes :=
  match getRawConn with
  | Some e => (Some e, [])
  | None =>
      let buf := match data with None => [oob] | Some data => data ++ [oob] end in
      let length_ := u32 (zlen buf) in
      match rawWrite with
      | Some e => (Some (opError "raw write" e), [])
      | None =>
          (match wsaSend buf with
           | inl e => Some (opError "wsasend (MSG_OOB)" e)
           | inr n =>
               if n <? length_ then Some (errorString ("sent only " ++ itoa n ++ " of " ++ itoa length_ ++ " bytes"))
               else None
           end, [buf])
      end
  end.

(** It succeeds exactly when the whole buffer went out in its one call. *)
Lemma windows_oob_whole rc rw wsa data oob bufs : zlen data < 2 ^ 32 - 1 →
  sendWithOOB rc rw wsa (Some data) oob = (None, bufs) ↔
  rc = None ∧ rw = None ∧ bufs = [data ++ [oob]] ∧ ∃ n, wsa (data ++ [oob]) = inr n ∧ zlen data + 1 ≤ n.
Proof.
  intros Hl. unfold sendWithOOB. assert (u32 (zlen (data ++ [oob])) = zlen data + 1) as ->.
  { unfold u32. rewrite zlen_app. pose proof (zlen_nonneg data). apply Z.mod_small. unfold zlen in *. cbn. lia. }
  destruct rc; [naive_solver|]. destruct rw; [naive_solver|].
  destruct (wsa (data ++ [oob])) as [e|n]; [naive_solver|].
  destruct (Z.ltb_spec n (zlen data + 1)); split; [done|naive_solver lia| |naive_solver lia].
  intros [= <-]. eauto 10.
Qed.

(** ** Systems without fake packets (desync_stub.go, waitack_stub.go) *)

Module Stub.
Definition errTTLDNotSupported : error := errorString "`ttl-d` is not supported on current system".
Definition setTTLProbing : option error := None.
Definition getFakeTTL : Z * option error := (unsetInt, Some errTTLDNotSupported).
Definition desyncSend : res unit := Err errTTLDNotSupported.

(** [waitForAck] outside Linux: it sleeps, whatever was asked. *)
Definition waitForAck (ack : bool) (delay : Z) : netM unit := Conn.sleep delay.
End Stub.

(** The socket option of the TTL: its level and number, for a system's constants. *)
Definition ttlLevelOption (IPV6_UNICAST_HOPS IP_TTL : Z) (isIPv6 : bool) : Z * Z :=
  if isIPv6 then (41, IPV6_UNICAST_HOPS) else (0, IP_TTL).
