(* ===== verification/Config.v ===== *)
(** * Loading a configuration, and the logger (enimul/internal/core/config.go,
      runtime.go, log.go; enimul/internal/log)

    [LoadConfig] sets the package variables one after the other; [ResetRuntimeState]
    repeats the last two settings.  The components it calls are the models of the
    other files.  Opening and decoding the file, and opening a log file, are
    arguments. *)

From S2P Require Import Prelude Errors Netip AddrTrie Pattern Policy Routing Desync IPPool Dns GfwList DialBind.
Local Open Scope Z_scope.

(** ** Levels and loggers (package log) *)

Definition LevelTrace : Z := -2.
Definition LevelDebug : Z := -1.
Definition LevelInfo : Z := 0.
Definition LevelWarn : Z := 1.
Definition LevelError : Z := 2.
Definition Disabled : Z := 3.

Definition isOneOf (s : gostring) (l : list String.string) : bool := existsb (λ x, bool_decide (s = lit x)) l.

Definition ParseLevel (s : gostring) : res Z :=
  if isOneOf s ["TRACE"; "trace"]%string then Ok LevelTrace
  else if isOneOf s ["DEBUG"; "debug"]%string then Ok LevelDebug
  else if isOneOf s ["INFO"; "info"]%string then Ok LevelInfo
  else if isOneOf s ["WARN"; "warn"; "WARNING"; "warning"]%string then Ok LevelWarn
  else if isOneOf s ["ERROR"; "error"]%string then Ok LevelError
  else if isOneOf s ["NONE"; "none"]%string then Ok Disabled
  else Err (errorString ("unknown log level: " ++ s)).

(** [appendLevel] panics on [Disabled] and on unknown levels. *)
Definition appendLevel (b : bytes) (lvl : Z) : res bytes :=
  if lvl =? LevelTrace then Ok (b ++ "TRACE ")
  else if lvl =? LevelDebug then Ok (b ++ "DEBUG ")
  else if lvl =? LevelInfo then Ok (b ++ "INFO  ")
  else if lvl =? LevelWarn then Ok (b ++ "WARN  ")
  else if lvl =? LevelError then Ok (b ++ "ERROR ")
  else Panic.

Inductive logOut := Stdout | Stderr | LogFile (path : gostring) | CustomWriter (n : nat).

(** The engine's loggers write to whatever [runtimeLogWriter] is at the time; a
    disabled one discards. *)
Inductive loggerOut := Swappable | Discard.

Record consoleLogger := mkLogger { lgOut : loggerOut; lgLevel : Z; lgPrefix : gostring }.

Definition newConsoleLogger (out : loggerOut) (prefix : gostring) (lvl : Z) : consoleLogger :=
  mkLogger (if lvl =? Disabled then Discard else out) lvl prefix.

(** [output] at a time whose text is [stamp]: the line, if one is written. *)
Definition output (stamp : gostring) (l : consoleLogger) (lvl : Z) (args : list fmtArg) : res (option bytes) :=
  if lvl <? lgLevel l then Ok None else
  let b : bytes := if bool_decide (lgPrefix l = []) then [] else lgPrefix l ++ " " in
  b ← appendLevel (b ++ stamp ++ " ") lvl;
  Ok (Some (Append b args ++ [10])).

(** The five methods of a [Logger]. *)
Inductive logMethod := Trace | Debug | Info | Warn | Error.

Definition methodLevel (m : logMethod) : Z :=
  match m with Trace => LevelTrace | Debug => LevelDebug | Info => LevelInfo | Warn => LevelWarn | Error => LevelError end.

Definition logCall (stamp : gostring) (l : consoleLogger) (m : logMethod) (args : list fmtArg) : res (option bytes) :=
  output stamp l (methodLevel m) args.

(** [log.Err], to standard error; it ends no line. *)
Definition logErr (stamp : gostring) (args : list fmtArg) : bytes := Append (stamp ++ " ") args.

(** ** The package variables *)

Record Config := mkConfig {
  cfLogLevel : Z;
  cfLogOutput : gostring;
  cfSocks5Addr : gostring;
  cfHttpAddr : gostring;
  cfOutboundBinding : BindingOption;
  cfDNSConfig : DNSConfig;
  cfTTLProbing : TTLProbingConfig;
  (** a pool that is [null] in the file is a nil pointer *)
  cfIPPools : gmap gostring (option IPPool);
  (** the maps, in the order they are visited *)
  cfHosts : list (gostring * gostring);
  cfDefaultPolicy : Policy;
  cfDomainPolicies : list (gostring * Policy);
  cfIpPolicies : list (gostring * Policy);
}.

Record globals (W : Type) := mkGlobals {
  runtimeLogWriter : logOut;
  logLevel : Z;
  gDial : dialState;
  ipPools : Pools;
  (** pools of earlier configurations, which were stopped *)
  retired : list Pools;
  tables : Tables;
  gDNS : dnsState W;
  gTTL : probing;
  lastTTLProbingConfig : option TTLProbingConfig;
}.
Arguments mkGlobals {W}.
Arguments runtimeLogWriter {W}.
Arguments logLevel {W}.
Arguments gDial {W}.
Arguments ipPools {W}.
Arguments retired {W}.
Arguments tables {W}.
Arguments gDNS {W}.
Arguments gTTL {W}.
Arguments lastTTLProbingConfig {W}.

Section Load.
Context {W : Type}.
Context (hash : gostring → Z) (bootstrapLookupIP : gostring → W → res (list gostring) * W).
Context `{GoURL, GoTime, GoUnicode}.
Context (socks5Error : gostring → option error) (gomaxprocs : Z) (now done_ : Z).
Context (embeddedGFWList : gostring).
Context (openLog : gostring → option error).
Context (trial : gostring → gostring → Z → res laddr) (interfaces : res (list osInterface)) (stdin : list (res Z)).

Abbreviation gM := (stM (globals W)).

Definition setWriter (w : logOut) : gM unit := modifyS (λ g,
  mkGlobals w (logLevel g) (gDial g) (ipPools g) (retired g) (tables g) (gDNS g) (gTTL g) (lastTTLProbingConfig g)).
Definition setLevel (lvl : Z) : gM unit := modifyS (λ g,
  mkGlobals (runtimeLogWriter g) lvl (gDial g) (ipPools g) (retired g) (tables g) (gDNS g) (gTTL g) (lastTTLProbingConfig g)).
(** [StopIPPools], and the pools of the new configuration: [Init] of a nil pool
    panics. *)
Definition livePools (p : gmap gostring (option IPPool)) : Pools := omap id p.
Definition setPools (p : gmap gostring (option IPPool)) : gM unit := λ g,
  let g' := mkGlobals (runtimeLogWriter g) (logLevel g) (gDial g) (Init <$> livePools p) (StopIPPools (ipPools g) :: retired g)
              (tables g) (gDNS g) (gTTL g) (lastTTLProbingConfig g) in
  (if bool_decide (map_Forall (λ _ x, is_Some x) p) then Ok tt else Panic, g').
Definition setTables (f : Tables → Tables) : gM unit := modifyS (λ g,
  mkGlobals (runtimeLogWriter g) (logLevel g) (gDial g) (ipPools g) (retired g) (f (tables g)) (gDNS g) (gTTL g) (lastTTLProbingConfig g)).

(** [SetLogWriter]: nil is standard output. *)
Definition SetLogWriter (w : option logOut) : gM unit := setWriter (default Stdout w).

Definition setLogOutput (out : gostring) : gM unit :=
  if bool_decide (out = lit "stderr") then SetLogWriter (Some Stderr)
  else if isOneOf out [""; "stdout"]%string then SetLogWriter (Some Stdout)
  else match openLog out with
       | Some e => liftS (Err (opError "open log file" e))
       | None => SetLogWriter (Some (LogFile out))
       end.

Definition newLogger (prefix : gostring) (g : globals W) : consoleLogger := newConsoleLogger Swappable prefix (logLevel g).

(** The setters of the other components, on their part of the state. *)
Definition doSetLocalAddr (o : BindingOption) : gM unit := λ g,
  let '(r, d) := SetLocalAddr trial interfaces o stdin (gDial g) in
  (r, mkGlobals (runtimeLogWriter g) (logLevel g) d (ipPools g) (retired g) (tables g) (gDNS g) (gTTL g) (lastTTLProbingConfig g)).

Definition doSetDNS (c : DNSConfig) : gM unit := λ g,
  let '(r, d) := setDNS hash bootstrapLookupIP (tables g) (λ tag, (getFromIPPool (ipPools g) tag).1)
                   socks5Error gomaxprocs c now done_ (gDNS g) in
  (r, mkGlobals (runtimeLogWriter g) (logLevel g) (gDial g) (ipPools g) (retired g) (tables g) d (gTTL g) (lastTTLProbingConfig g)).

Definition doSetTTLProbing (c : TTLProbingConfig) : gM unit := λ g,
  match setTTLProbing gomaxprocs c (gTTL g) with
  | Ok p => (Ok tt, mkGlobals (runtimeLogWriter g) (logLevel g) (gDial g) (ipPools g) (retired g) (tables g) (gDNS g) p (Some c))
  | Err e => (Err e, g)
  | Panic => (Panic, g)
  end.

(** The rules that are set before and after the built-in list. *)
Definition withRules (c : Config) (t : Tables) : Tables :=
  mkTables (cfDefaultPolicy c) (loadDomains (cfDomainPolicies c)) (loadDomains (cfHosts c)) (ipMatcher t) (ipv6Matcher t)
    (gfwDomainMatcher t) (gfwBypassMatcher t).
Definition withGFW (m : Domain.labelNode unit * Domain.labelNode unit) (t : Tables) : Tables :=
  mkTables (defaultPolicy t) (domainMatcher t) (hostsMatcher t) (ipMatcher t) (ipv6Matcher t) m.1 m.2.
Definition withIPs (c : Config) (t : Tables) : Tables :=
  mkTables (defaultPolicy t) (domainMatcher t) (hostsMatcher t) (loadIPs (cfIpPolicies c)).1 (loadIPs (cfIpPolicies c)).2
    (gfwDomainMatcher t) (gfwBypassMatcher t).

(** [LoadConfig], of the file's contents. *)
Definition LoadConfig (file : res Config) : gM (gostring * gostring) :=
  conf ← liftS file;
  setLogOutput (cfLogOutput conf);;
  setLevel (cfLogLevel conf);;
  doSetLocalAddr (cfOutboundBinding conf);;
  setPools (cfIPPools conf);;
  setTables (withRules conf);;
  gfw ← liftS (loadBuiltinGFWList embeddedGFWList);
  setTables (withGFW gfw);;
  setTables (withIPs conf);;
  doSetDNS (cfDNSConfig conf);;
  doSetTTLProbing (cfTTLProbing conf);;
  mret (cfSocks5Addr conf, cfHttpAddr conf).

Definition wrapG (op : String.string) (m : gM unit) : gM unit := λ g,
  let '(r, g) := m g in (with_str op r, g).

(** [ResetRuntimeState]: the configurations that were last set; before any was,
    the zero values. *)
Definition zeroDNSConfig : DNSConfig := mkDNSConfig [] [] [] false false 0 [] 0 [] [] [] [].
Definition zeroTTLProbing : TTLProbingConfig := mkProbing [] false false 0.

Definition ResetRuntimeState : gM unit :=
  c ← getS (λ g, (default zeroDNSConfig (lastDNSConfig (gDNS g)), default zeroTTLProbing (lastTTLProbingConfig g)));
  wrapG "reset dns runtime state" (doSetDNS c.1);;
  wrapG "reset ttl probing runtime state" (doSetTTLProbing c.2).
End Load.

(** ** The logger never panics

    The five methods never reach the panics of [appendLevel]: a call writes one
    line, exactly when its level is at least the logger's, and a disabled logger
    writes nothing. *)
Theorem log_calls_safe stamp out prefix lvl m args :
  let l := newConsoleLogger out prefix lvl in
  match logCall stamp l m args with
  | Ok None => methodLevel m < lvl
  | Ok (Some line) => lvl ≤ methodLevel m ∧ lvl ≠ Disabled ∧ lgOut l = out ∧ ∃ body, line = body ++ [10]
  | _ => False
  end.
Proof.
  cbv zeta. unfold logCall, output, newConsoleLogger. cbn [lgLevel lgPrefix lgOut].
  destruct (Z.ltb_spec (methodLevel m) lvl); [done|].
  assert (lvl ≠ Disabled) as Hd by (destruct m; cbn in *; unfold LevelTrace, LevelDebug, LevelInfo, LevelWarn, LevelError, Disabled in *; lia).
  apply Z.eqb_neq in Hd as Hd'. rewrite Hd'.
  destruct m; cbn [methodLevel] in *; unfold appendLevel; cbn; split_and!; eauto.
Qed.

(** ** What loading does *)

Section LoadFacts.
Context {W : Type}.
Context (hash : gostring → Z) (bootstrapLookupIP : gostring → W → res (list gostring) * W).
Context `{GoURL, GoTime, GoUnicode}.
Context (socks5Error : gostring → option error) (gomaxprocs : Z) (now done_ : Z).
Context (embeddedGFWList : gostring).
Context (openLog : gostring → option error).
Context (trial : gostring → gostring → Z → res laddr) (interfaces : res (list osInterface)) (stdin : list (res Z)).

Abbreviation load := (LoadConfig hash bootstrapLookupIP socks5Error gomaxprocs now done_ embeddedGFWList openLog
  trial interfaces stdin).
Abbreviation reset := (ResetRuntimeState hash bootstrapLookupIP socks5Error gomaxprocs now done_).

(** The state after the steps that come before the DNS is set. *)
Definition prepared (conf : Config) (g g' : globals W) : Prop :=
  logLevel g' = cfLogLevel conf ∧
  SetLocalAddr trial interfaces (cfOutboundBinding conf) stdin (gDial g) = (Ok tt, gDial g') ∧
  ipPools g' = Init <$> livePools (cfIPPools conf) ∧ retired g' = StopIPPools (ipPools g) :: retired g ∧
  (∃ gfw, loadBuiltinGFWList embeddedGFWList = Ok gfw ∧ tables g' = withIPs conf (withGFW gfw (withRules conf (tables g)))) ∧
  gDNS g' = gDNS g ∧ gTTL g' = gTTL g ∧ lastTTLProbingConfig g' = lastTTLProbingConfig g.

(** An assignment; the fields it leaves alone are read off at once. *)
Ltac assign_step :=
  erewrite bindS; [|reflexivity];
  cbn [runtimeLogWriter logLevel gDial ipPools retired tables gDNS gTTL lastTTLProbingConfig].

(** The pools, none of which is nil. *)
Ltac pools_step :=
  erewrite bindS; [|unfold setPools; rewrite bool_decide_eq_true_2 by eassumption; reflexivity];
  cbn [runtimeLogWriter logLevel gDial ipPools retired tables gDNS gTTL lastTTLProbingConfig].

(** [LoadConfig] fails before the DNS is set, or reaches it in such a state. *)
Lemma load_reaches_dns conf g :
  (∃ e g', load (Ok conf) g = (Err e, g') ∧ gDNS g' = gDNS g ∧ gTTL g' = gTTL g) ∨
  (∃ g', load (Ok conf) g = (Panic, g')) ∨
  ∃ g', prepared conf g g' ∧
    load (Ok conf) g = (doSetDNS hash bootstrapLookupIP socks5Error gomaxprocs now done_ (cfDNSConfig conf);;
      doSetTTLProbing gomaxprocs (cfTTLProbing conf);; mret (cfSocks5Addr conf, cfHttpAddr conf)) g'.
Proof.
  unfold LoadConfig, prepared. rewrite (bindS _ _ g conf g) by done.
  assert ((∃ w, setLogOutput openLog (cfLogOutput conf) g =
      (Ok tt, mkGlobals w (logLevel g) (gDial g) (ipPools g) (retired g) (tables g) (gDNS g) (gTTL g) (lastTTLProbingConfig g)))
    ∨ ∃ e, setLogOutput openLog (cfLogOutput conf) g = (Err e, g)) as [[w E]|[e E]].
  { unfold setLogOutput. destruct (bool_decide _); [by left; eexists|]. destruct (isOneOf _ _); [by left; eexists|].
    destruct (openLog _); [by right; eexists|by left; eexists]. }
  2:{ left. exists e, g. rewrite (bindS_Err _ _ _ _ _ E). done. }
  rewrite (bindS _ _ _ _ _ E). assign_step. clear E.
  match goal with |- context [(doSetLocalAddr trial interfaces stdin (cfOutboundBinding conf) ≫= _) ?s] => set (g1 := s) end.
  assert (doSetLocalAddr trial interfaces stdin (cfOutboundBinding conf) g1 =
    let '(r, d) := SetLocalAddr trial interfaces (cfOutboundBinding conf) stdin (gDial g) in
    (r, mkGlobals w (cfLogLevel conf) d (ipPools g) (retired g) (tables g) (gDNS g) (gTTL g) (lastTTLProbingConfig g))) as E by done.
  destruct (SetLocalAddr trial interfaces (cfOutboundBinding conf) stdin (gDial g)) as [[[]|e|] d] eqn:Ed.
  2:{ left. eexists _, _. rewrite (bindS_Err _ _ _ _ _ E). split; [reflexivity|done]. }
  2:{ right. left. eexists. unfold mbind, stM_bind. rewrite E. reflexivity. }
  rewrite (bindS _ _ _ _ _ E). clear E g1.
  destruct (bool_decide (map_Forall (λ _ x, is_Some x) (cfIPPools conf))) eqn:Hpools.
  2:{ right. left. eexists. unfold mbind, stM_bind, setPools. rewrite Hpools. reflexivity. }
  apply bool_decide_eq_true in Hpools. pools_step. assign_step.
  destruct (loadBuiltinGFWList embeddedGFWList) as [gfw|e|] eqn:Eg;
    [|left; eexists _, _; split; [reflexivity|done]|right; left; eexists; reflexivity].
  right. right. eexists. split; [|do 3 assign_step; reflexivity].
  cbn. split_and!; try done. by exists gfw.
Qed.

Lemma load_in_force conf g addrs g' :
  load (Ok conf) g = (Ok addrs, g') →
  addrs = (cfSocks5Addr conf, cfHttpAddr conf) ∧
  logLevel g' = cfLogLevel conf ∧
  SetLocalAddr trial interfaces (cfOutboundBinding conf) stdin (gDial g) = (Ok tt, gDial g') ∧
  ipPools g' = Init <$> livePools (cfIPPools conf) ∧ retired g' = StopIPPools (ipPools g) :: retired g ∧
  (∃ gfw, loadBuiltinGFWList embeddedGFWList = Ok gfw ∧
    tables g' = withIPs conf (withGFW gfw (withRules conf (tables g)))) ∧
  lastDNSConfig (gDNS g') = Some (cfDNSConfig conf) ∧ dnsAddr (gDNS g') = dAddr (cfDNSConfig conf) ∧
  setTTLProbing gomaxprocs (cfTTLProbing conf) (gTTL g) = Ok (gTTL g') ∧
  lastTTLProbingConfig g' = Some (cfTTLProbing conf).
Proof.
  intros E. destruct (load_reaches_dns conf g) as [(e & g1 & E1 & _)|[(g1 & E1)|(g1 & (Hl & Hd & Hp & Hr & Ht & Hdns & Httl & Hlast) & E1)]];
    rewrite E in E1; [done..|]. symmetry in E1. apply bindS_inv in E1 as ([] & g2 & E2 & E3). apply bindS_inv in E3 as ([] & g3 & E3 & E4).
  injection E4 as <- <-.
  unfold doSetDNS in E2. pose proof (setDNS_spec hash bootstrapLookupIP (tables g1) (λ tag, (getFromIPPool (ipPools g1) tag).1)
    socks5Error gomaxprocs (cfDNSConfig conf) now done_ (gDNS g1)) as Hs.
  destruct (setDNS _ _ _ _ _ _ _ _ _ _) as [r d]. injection E2 as -> <-. destruct Hs as (_ & Ha & Hc & _).
  unfold doSetTTLProbing in E3. cbn [gTTL] in E3. rewrite Httl in E3.
  destruct (setTTLProbing gomaxprocs (cfTTLProbing conf) (gTTL g)) as [p|e|]; [|done..]. injection E3 as <-. cbn.
  split_and!; done.
Qed.

(** A configuration that loads is in force: the level, the local address, the
    pools (the old ones are stopped), the rules and the built-in list, the DNS
    upstreams and the probing of this configuration and no other. *)
Theorem load_config_in_force conf g addrs g' :
  load (Ok conf) g = (Ok addrs, g') →
  addrs = (cfSocks5Addr conf, cfHttpAddr conf) ∧
  logLevel g' = cfLogLevel conf ∧
  SetLocalAddr trial interfaces (cfOutboundBinding conf) stdin (gDial g) = (Ok tt, gDial g') ∧
  ipPools g' = Init <$> livePools (cfIPPools conf) ∧ retired g' = StopIPPools (ipPools g) :: retired g ∧
  (∃ gfw, loadBuiltinGFWList embeddedGFWList = Ok gfw ∧
    tables g' = withIPs conf (withGFW gfw (withRules conf (tables g)))) ∧
  lastDNSConfig (gDNS g') = Some (cfDNSConfig conf) ∧ dnsAddr (gDNS g') = dAddr (cfDNSConfig conf) ∧
  setTTLProbing gomaxprocs (cfTTLProbing conf) (gTTL g) = Ok (gTTL g') ∧
  lastTTLProbingConfig g' = Some (cfTTLProbing conf).
Proof. apply load_in_force. Qed.

(** A configuration that fails late is half in force: when the DNS settings are
    refused, the rules, the pools and the level are already those of the new
    configuration, while DNS and probing are still the old. *)
Theorem load_config_half conf g gfw :
  cfLogOutput conf = [] → cfOutboundBinding conf = noBinding → map_Forall (λ _ x, is_Some x) (cfIPPools conf) →
  loadBuiltinGFWList embeddedGFWList = Ok gfw → dAddr (cfDNSConfig conf) = [] →
  ∃ g', load (Ok conf) g = (fail "dns.addr cannot be empty", g') ∧
    ipPools g' = Init <$> livePools (cfIPPools conf) ∧ defaultPolicy (tables g') = cfDefaultPolicy conf ∧
    domainMatcher (tables g') = loadDomains (cfDomainPolicies conf) ∧ logLevel g' = cfLogLevel conf ∧
    gDNS g' = gDNS g ∧ gTTL g' = gTTL g.
Proof.
  intros Hlog Hbind Hpools Hgfw Hdns. unfold LoadConfig. assign_step. rewrite Hlog. assign_step. assign_step.
  rewrite Hbind. assign_step. pools_step. assign_step. rewrite Hgfw. do 3 assign_step.
  assert (∀ g1, doSetDNS hash bootstrapLookupIP socks5Error gomaxprocs now done_ (cfDNSConfig conf) g1 =
    (fail "dns.addr cannot be empty", g1)) as E.
  { intros []. unfold doSetDNS, setDNS. rewrite bool_decide_eq_true_2 by done. reflexivity. }
  rewrite (bindS_Err _ _ _ _ _ (E _)). eexists. split; [reflexivity|]. split_and!; reflexivity.
Qed.

(** After a load, a reset sets the same DNS and probing configurations again. *)
Theorem reset_repeats conf g addrs g' :
  load (Ok conf) g = (Ok addrs, g') →
  reset g' = (wrapG "reset dns runtime state"
      (doSetDNS hash bootstrapLookupIP socks5Error gomaxprocs now done_ (cfDNSConfig conf));;
    wrapG "reset ttl probing runtime state" (doSetTTLProbing gomaxprocs (cfTTLProbing conf))) g'.
Proof.
  intros E. apply load_in_force in E as (_ & _ & _ & _ & _ & _ & Hd & _ & _ & Ht).
  unfold ResetRuntimeState. rewrite (bindS _ _ g' (cfDNSConfig conf, cfTTLProbing conf) g') by (by unfold getS; rewrite Hd, Ht). done.
Qed.
End LoadFacts.
