(* ===== verification/ConfigJson.v ===== *)
(** * The configuration file (core/config.go, policy.go, ippool.go, dns.go,
      desync.go, internal/dial/option.go, internal/log/level.go)

    From the bytes of the file to the configuration [LoadConfig] puts in force:
    the members of every object with the Go types they are decoded into, and the
    [UnmarshalJSON] methods.  [CheckConfig] of the mobile library decodes the same
    way but wants the whole input to be one value.  When several members of an
    object are bad, the error is that of the first in the file. *)

From S2P Require Import Prelude Errors Netip AddrTrie Pattern Policy Routing Desync IPPool Dns GfwList DialBind Json Config.
Local Open Scope Z_scope.

Section Methods.
(** The error of encoding/json, and the system's resolver. *)
Context (jsonError : error) (lookupIP : gostring → res (list bytes)) (isAndroid : bool).
Context `{GoTime}.

(** The methods that decode a string first. *)
Definition enumMethod {A} (f : gostring → res A) (v : json) : res A := unmarshalString jsonError v ≫= f.

Definition LevelUnmarshalJSON : json → res Z := enumMethod ParseLevel.
Definition MethodUnmarshalJSON : json → res Method := enumMethod methodOf.
Definition SniffUnmarshalJSON : json → res SniffOverrideMode := enumMethod unmarshalSniff.
Definition ModeUnmarshalJSON : json → res Mode := enumMethod unmarshalMode.
Definition DNSModeUnmarshalJSON : json → res DNSMode := enumMethod unmarshalDNSMode.

(** [TriBool] looks at the text of the value. *)
Definition TriBoolUnmarshalJSON (v : json) : res TriBool := unmarshalTriBool (encode v).

(** [Byte]: [null] is the byte zero. *)
Definition ByteUnmarshalJSON (v : json) : res Z :=
  finish jsonError (checkNum (parse_uint 8) v) (storeNum (parse_uint 8) 0 v).

(** ** Policies *)

Definition policyFields : list (String.string * checker) :=
  [("sniff_override", checkMethod SniffUnmarshalJSON); ("reply_first", checkMethod TriBoolUnmarshalJSON);
   ("connect_timeout", checkString); ("host", checkString); ("map_to", checkString); ("nat64_prefix", checkString);
   ("port", checkNum (parse_uint 16)); ("dns_mode", checkMethod DNSModeUnmarshalJSON); ("dns_cache_ttl", checkString);
   ("http_status", checkNum (parse_uint 64)); ("tls13_only", checkMethod TriBoolUnmarshalJSON);
   ("mode", checkMethod ModeUnmarshalJSON); ("num_records", checkNum (parse_uint 64)); ("num_segs", checkNum (parse_int 64));
   ("wait_for_ack", checkMethod TriBoolUnmarshalJSON); ("oob", checkMethod TriBoolUnmarshalJSON);
   ("oob_ex", checkMethod TriBoolUnmarshalJSON); ("minor_ver", checkMethod ByteUnmarshalJSON); ("send_interval", checkString);
   ("fake_ttl", checkNum (parse_uint 8)); ("fake_sleep", checkString); ("max_ttl", checkNum (parse_uint 8));
   ("attempts", checkNum (parse_uint 64)); ("single_timeout", checkString); ("ttl_cache_ttl", checkString)]%string.

(** What a member of an enumeration leaves: the string, or the text, it gave. *)
Definition storeName (_ : option gostring) (v : json) : option gostring := Some (storeString [] v).
Definition storeText (_ : option gostring) (v : json) : option gostring := Some (encode v).
Definition storeByte (_ : option Z) (v : json) : option Z := Some (storeNum (parse_uint 8) 0 v).

Definition rawPolicyOf (v : json) : rawPolicy :=
  mkRaw
    (field "sniff_override" storeName None v)
    (field "reply_first" storeText None v)
    (field "connect_timeout" storeOptString None v)
    (field "host" storeOptString None v)
    (field "map_to" storeOptString None v)
    (field "nat64_prefix" storeOptString None v)
    (field "port" (storeOptNum (parse_uint 16)) None v)
    (field "dns_mode" storeName None v)
    (field "dns_cache_ttl" storeOptString None v)
    (field "http_status" (storeOptNum (parse_uint 64)) None v)
    (field "tls13_only" storeText None v)
    (field "mode" storeName None v)
    (field "num_records" (storeOptNum (parse_uint 64)) None v)
    (field "num_segs" (storeOptNum (parse_int 64)) None v)
    (field "wait_for_ack" storeText None v)
    (field "oob" storeText None v)
    (field "oob_ex" storeText None v)
    (field "minor_ver" storeByte None v)
    (field "send_interval" storeOptString None v)
    (field "fake_ttl" (storeOptNum (parse_uint 8)) None v)
    (field "fake_sleep" storeOptString None v)
    (field "max_ttl" (storeOptNum (parse_uint 8)) None v)
    (field "attempts" (storeOptNum (parse_uint 64)) None v)
    (field "single_timeout" storeOptString None v)
    (field "ttl_cache_ttl" storeOptString None v).

Definition PolicyUnmarshalJSON (v : json) : res Policy :=
  tmp ← finish jsonError (checkStruct policyFields v) (rawPolicyOf v);
  unmarshalPolicy tmp.

(** ** Pools, the local address, DNS and probing *)

Definition poolFields : list (String.string * checker) :=
  [("wait_scan_on_startup", checkBool); ("fallback_ip", checkString); ("ips", checkStrings); ("port", checkNum (parse_int 64));
   ("top_ip_count", checkNum (parse_int 64)); ("max_concurrency", checkNum (parse_int 64)); ("timeout", checkString);
   ("update_interval", checkString); ("attempts", checkNum (parse_int 64))]%string.

Definition rawPoolOf (v : json) : rawPool :=
  mkRawPool
    (field "wait_scan_on_startup" storeBool false v)
    (field "fallback_ip" storeString [] v)
    (field "ips" storeStrings [] v)
    (field "port" (storeNum (parse_int 64)) 0 v)
    (field "top_ip_count" (storeNum (parse_int 64)) 0 v)
    (field "max_concurrency" (storeNum (parse_int 64)) 0 v)
    (field "timeout" storeString [] v)
    (field "update_interval" storeString [] v)
    (field "attempts" (storeNum (parse_int 64)) 0 v).

Definition IPPoolUnmarshalJSON (v : json) : res IPPool :=
  tmp ← finish jsonError (checkStruct poolFields v) (rawPoolOf v);
  unmarshalPool lookupIP tmp.

Definition bindingFields : list (String.string * checker) :=
  [("enable_for_android", checkBool); ("method", checkMethod MethodUnmarshalJSON); ("manual_select", checkBool);
   ("zone", checkString); ("preferred_prefix", checkString); ("update_interval", checkString); ("dial_tcp", checkBool);
   ("dial_ipv4_target", checkString); ("dial_ipv6_target", checkString); ("dial_timeout", checkString);
   ("custom_ipv4", checkString); ("custom_ipv6", checkString); ("custom_zone", checkString)]%string.

Definition bindingJSONOf (v : json) : bindingJSON :=
  mkBindingJSON
    (field "enable_for_android" storeBool false v)
    (field "method" storeName None v)
    (field "manual_select" storeBool false v)
    (field "zone" storeString [] v)
    (field "preferred_prefix" storeString [] v)
    (field "update_interval" storeString [] v)
    (field "dial_tcp" storeBool false v)
    (field "dial_ipv4_target" storeString [] v)
    (field "dial_ipv6_target" storeString [] v)
    (field "dial_timeout" storeString [] v)
    (field "custom_ipv4" storeString [] v)
    (field "custom_ipv6" storeString [] v)
    (field "custom_zone" storeString [] v).

Definition BindingUnmarshalJSON (o : BindingOption) (v : json) : res BindingOption :=
  match finish jsonError (checkStruct bindingFields v) (bindingJSONOf v) with
  | Ok tmp => UnmarshalBinding isAndroid o tmp
  | Err e => Err (opError "outbound_binding" e)
  | Panic => Panic
  end.

Definition dnsFields : list (String.string * checker) :=
  [("type", checkString); ("addr", checkString); ("resolvers", checkStrings); ("singleflight", checkBool);
   ("disable_cache", checkBool); ("cache_capacity", checkNum (parse_uint 32)); ("edns0_subnet", checkString);
   ("udp_size", checkNum (parse_uint 16)); ("client_timeout", checkString); ("wait_timeout", checkString);
   ("min_rtt", checkString); ("doh_socks5_addr", checkString)]%string.

Definition storeDNS (old : DNSConfig) (v : json) : DNSConfig :=
  mkDNSConfig
    (field "type" storeString (dType old) v)
    (field "addr" storeString (dAddr old) v)
    (field "resolvers" storeStrings (dResolvers old) v)
    (field "singleflight" storeBool (dSingleFlight old) v)
    (field "disable_cache" storeBool (dDisableCache old) v)
    (field "cache_capacity" (storeNum (parse_uint 32)) (dCacheCapacity old) v)
    (field "edns0_subnet" storeString (dEDNS0Subnet old) v)
    (field "udp_size" (storeNum (parse_uint 16)) (dUDPSize old) v)
    (field "client_timeout" storeString (dClientTimeout old) v)
    (field "wait_timeout" storeString (dWaitTimeout old) v)
    (field "min_rtt" storeString (dMinRTT old) v)
    (field "doh_socks5_addr" storeString (dDoHSocks5Addr old) v).

Definition probingFields : list (String.string * checker) :=
  [("fake_ttl_rules", checkString); ("singleflight", checkBool); ("disable_cache", checkBool);
   ("cache_capacity", checkNum (parse_uint 32))]%string.

Definition storeProbing (old : TTLProbingConfig) (v : json) : TTLProbingConfig :=
  mkProbing
    (field "fake_ttl_rules" storeString (FakeTTLRules old) v)
    (field "singleflight" storeBool (SingleFlight old) v)
    (field "disable_cache" storeBool (DisableCache old) v)
    (field "cache_capacity" (storeNum (parse_uint 32)) (CacheCapacity old) v).

(** ** The whole file *)

(** A pointer to a pool: [null] is nil. *)
Definition poolPointer (v : json) : res (option IPPool) :=
  match v with JNull => Ok None | _ => p ← IPPoolUnmarshalJSON v; Ok (Some p) end.

(** The members, except for the local address; seven of them are decoded and then
    not used. *)
Definition configFields : list (String.string * checker) :=
  [("log_level", checkMethod LevelUnmarshalJSON); ("log_output", checkString); ("socks5_address", checkString);
   ("http_address", checkString);
   ("dns", checkStruct dnsFields); ("ttl_probing", checkStruct probingFields);
   ("fake_ttl_rules", checkString); ("dns_singleflight", checkBool); ("dns_cache_ttl", checkNum (parse_int 64));
   ("dns_cache_cap", checkNum (parse_uint 32)); ("ttl_singleflight", checkBool); ("ttl_cache_ttl", checkNum (parse_int 64));
   ("ttl_cache_cap", checkNum (parse_uint 32));
   ("ip_pools", checkMap (checkMethod poolPointer)); ("hosts", checkMap checkString);
   ("default_policy", checkMethod PolicyUnmarshalJSON); ("domain_policies", checkMap (checkMethod PolicyUnmarshalJSON));
   ("ip_policies", checkMap (checkMethod PolicyUnmarshalJSON))]%string.

(** The value a method that succeeded has stored. *)
Definition stored {A} (old : A) (r : res A) : A := match r with Ok x => x | _ => old end.

Definition policyValue (v : json) : Policy := stored zeroPolicy (PolicyUnmarshalJSON v).

Definition configOf (o : BindingOption) (v : json) : Config :=
  mkConfig
    (field "log_level" (λ old x, stored old (LevelUnmarshalJSON x)) LevelInfo v)
    (field "log_output" storeString [] v)
    (field "socks5_address" storeString [] v)
    (field "http_address" storeString [] v)
    o
    (field "dns" storeDNS zeroDNSConfig v)
    (field "ttl_probing" storeProbing zeroTTLProbing v)
    (list_to_map (field "ip_pools" (storeMap (λ x, stored None (poolPointer x))) [] v))
    (field "hosts" (storeMap (storeString [])) [] v)
    (field "default_policy" (λ old x, stored old (PolicyUnmarshalJSON x)) zeroPolicy v)
    (field "domain_policies" (storeMap policyValue) [] v)
    (field "ip_policies" (storeMap policyValue) [] v).

(** The members in order.  The method of the local address stores into the option
    it has so far, so a second one can depend on the first. *)
Fixpoint checkConfig (o : BindingOption) (ms : list (gostring * json)) : res (bool * BindingOption) :=
  match ms with
  | [] => Ok (true, o)
  | m :: ms =>
      '(b, o) ← (if foldsTo m.1 (lit "outbound_binding") then o ← BindingUnmarshalJSON o m.2; Ok (true, o)
                 else b ← checkMember configFields m; Ok (b, o));
      '(b', o) ← checkConfig o ms;
      Ok (b && b', o)
  end.

Definition ConfigUnmarshal (v : json) : res Config :=
  match v with
  | JObj ms => '(b, o) ← checkConfig noBinding ms; if b : bool then Ok (configOf o v) else Err jsonError
  | JNull => Ok (configOf noBinding JNull)
  | _ => Err jsonError
  end.

(** [LoadConfig] decodes the first value of the file, [CheckConfig] all of it. *)
Definition decodeConfigFile (data : bytes) : res Config := Decode jsonError ConfigUnmarshal data.

Definition CheckConfig (sysText : Z → gostring) (jsonContent : bytes) : res gostring :=
  match Unmarshal jsonError ConfigUnmarshal jsonContent with
  | Ok _ => Ok []
  | Err e => Ok ("invalid json: " ++ Errors.Error sysText e)
  | Panic => Panic
  end.
End Methods.

(** ** What a file can put into the tables *)

Section Valid.
Context (jsonError : error) (lookupIP : gostring → res (list bytes)) (isAndroid : bool).
Context `{GoTime}.

Lemma optNum_range name lo hi parse v :
  (∀ t x, parse t = Some x → lo ≤ x < hi) →
  match field name (storeOptNum parse) None v with Some x => lo ≤ x < hi | None => True end.
Proof.
  intros Hp. apply (field_inv (λ o, match o with Some x => lo ≤ x < hi | None => True end)); [done|].
  intros a [k x] _ _ Ha. unfold storeOptNum. destruct x; try done. cbn. destruct (parse text) eqn:E; [by apply Hp in E|done].
Qed.

(** The decoder fits numbers to the types of their fields. *)
Lemma rawPolicyOf_inRange v : rawInRange (rawPolicyOf v).
Proof.
  unfold rawInRange. cbv zeta beta. cbn [rPort rHttpStatus rNumRecords rNumSegments rMinorVer rFakeTTL rMaxTTL rAttempts rawPolicyOf].
  split_and!; try (apply optNum_range; first [exact (parse_uint_range _)|exact (parse_int_range _)]).
  apply (field_inv (λ o, match o with Some x => 0 ≤ x < 2 ^ 8 | None => True end)); [done|].
  intros a [k x] _ _ _. unfold storeByte, storeNum. destruct x; try done. cbn. destruct (parse_uint 8 text) eqn:E; [|done].
  by apply parse_uint_range in E.
Qed.

Lemma PolicyUnmarshalJSON_valid v p : PolicyUnmarshalJSON jsonError v = Ok p → policyValid p.
Proof.
  unfold PolicyUnmarshalJSON. intros (tmp & E & Ep)%bind_Ok. unfold finish in E. apply bind_Ok in E as ([] & _ & E); [|done].
  injection E as <-. apply unmarshalPolicy_valid in Ep; [apply Ep|]. apply rawPolicyOf_inRange.
Qed.

Lemma checkConfig_cons o m ms :
  checkConfig jsonError lookupIP isAndroid o (m :: ms) =
  ('(b, o) ← (if foldsTo m.1 (lit "outbound_binding") then o ← BindingUnmarshalJSON jsonError isAndroid o m.2; Ok (true, o)
              else b ← checkMember (configFields jsonError lookupIP) m; Ok (b, o));
   '(b', o) ← checkConfig jsonError lookupIP isAndroid o ms;
   Ok (b && b', o)).
Proof. reflexivity. Qed.

(** A configuration that decodes: each member was accepted. *)
Lemma checkConfig_members o ms o' m : checkConfig jsonError lookupIP isAndroid o ms = Ok (true, o') → m ∈ ms →
  foldsTo m.1 (lit "outbound_binding") = true ∨ checkMember (configFields jsonError lookupIP) m = Ok true.
Proof.
  revert o. induction ms as [|m' ms IH]; intros o E Hm; [set_solver|].
  rewrite checkConfig_cons in E. apply bind_Ok in E as ([b o1] & E1 & E). apply bind_Ok in E as ([b' o2] & E2 & E). injection E as Hb <-.
  apply andb_prop in Hb as [-> ->]. apply elem_of_cons in Hm as [->|Hm]; [|by eapply IH].
  destruct (foldsTo m'.1 (lit "outbound_binding")) eqn:Ef; [by left|]. right. apply bind_Ok in E1 as (b & E1 & Eb).
  injection Eb as -> _. exact E1.
Qed.

Definition configNames : list String.string :=
  ["log_level"; "log_output"; "socks5_address"; "http_address"; "dns"; "ttl_probing"; "fake_ttl_rules"; "dns_singleflight";
   "dns_cache_ttl"; "dns_cache_cap"; "ttl_singleflight"; "ttl_cache_ttl"; "ttl_cache_cap"; "ip_pools"; "hosts"; "default_policy";
   "domain_policies"; "ip_policies"]%string.

Lemma configNames_NoDup : NoDup ((λ n, upper_byte <$> lit n) <$> configNames).
Proof. by_decide. Qed.

Lemma config_names_apart : NoDup ((λ f : String.string * checker, upper_byte <$> lit f.1) <$> configFields jsonError lookupIP).
Proof. exact configNames_NoDup. Qed.

(** So every member of a table of policies is the text of a valid policy. *)
Lemma policy_member o ms o' m name c :
  checkConfig jsonError lookupIP isAndroid o ms = Ok (true, o') → m ∈ ms → foldsTo m.1 (lit name) = true →
  (name, c) ∈ configFields jsonError lookupIP → (upper_byte <$> lit name) ≠ (upper_byte <$> lit "outbound_binding") →
  c m.2 = Ok true.
Proof.
  intros E Hm Hf Hin Hne. destruct (checkConfig_members _ _ _ _ E Hm) as [Ho|Ho].
  - exfalso. apply Hne. by eapply foldsTo_upper.
  - by rewrite (checkMember_field _ _ _ _ config_names_apart Hin Hf) in Ho.
Qed.

Lemma mapInsert_elem {A} k x (m : list (gostring * A)) e : e ∈ mapInsert k x m → e = (k, x) ∨ e ∈ m.
Proof.
  induction m as [|[k' x'] m IH]; cbn; [set_solver|]. case_bool_decide; [set_solver|].
  rewrite !elem_of_cons. naive_solver.
Qed.

Lemma storeMap_valid a x : Forall (λ e, policyValid e.2) a → checkMap (checkMethod (PolicyUnmarshalJSON jsonError)) x = Ok true →
  Forall (λ e, policyValid e.2) (storeMap (policyValue jsonError) a x).
Proof.
  intros Ha. destruct x; try done; cbn [storeMap checkMap].
  rewrite checkAll_true. intros Hms. revert a Ha. induction Hms as [|[k x] ms Hx _ IH]; intros a Ha; [done|]. cbn. apply IH.
  apply Forall_forall. intros e [->|He]%mapInsert_elem; [|by eapply Forall_forall in Ha].
  cbn in *. unfold checkMethod in Hx. apply bind_Ok in Hx as (p & E & _). unfold policyValue. rewrite E. by apply PolicyUnmarshalJSON_valid in E.
Qed.

Lemma ConfigUnmarshal_valid v conf : ConfigUnmarshal jsonError lookupIP isAndroid v = Ok conf →
  Forall (λ e, policyValid e.2) (cfDomainPolicies conf) ∧ Forall (λ e, policyValid e.2) (cfIpPolicies conf) ∧
  (cfDefaultPolicy conf = zeroPolicy ∨ policyValid (cfDefaultPolicy conf)).
Proof.
  destruct v as [| | | | |ms]; try done; [intros [= <-]; cbn; auto|].
  cbn [ConfigUnmarshal]. intros ([b o] & E & Ec)%bind_Ok. destruct b; [|done]. injection Ec as <-.
  cbn [configOf cfDomainPolicies cfIpPolicies cfDefaultPolicy]. split_and!.
  1-2: apply (field_inv (Forall (λ e : gostring * Policy, policyValid e.2))); [constructor|]; intros a m Hm Hf Ha; cbn [membersOf] in Hm;
    apply storeMap_valid; [done|]; eapply (policy_member _ _ _ m _ (checkMap _)); [exact E|done|exact Hf| |by vm_compute];
    cbn [configFields]; set_solver.
  apply (field_inv (λ p, p = zeroPolicy ∨ policyValid p)); [by left|]. intros a m Hm Hf _. cbn [membersOf] in Hm. right.
  assert (checkMethod (PolicyUnmarshalJSON jsonError) m.2 = Ok true) as Hc.
  { eapply (policy_member _ _ _ m); [exact E|done|exact Hf| |by vm_compute]. cbn [configFields]. set_solver. }
  unfold checkMethod in Hc. apply bind_Ok in Hc as (p & Ep & _). rewrite Ep. cbn. by eapply PolicyUnmarshalJSON_valid.
Qed.
End Valid.

(** ** The file is loaded *)

(** [LoadConfig] ranges over maps, in any order. *)
Definition reordered (c c' : Config) : Prop := ∃ hosts domains ips,
  hosts ≡ₚ cfHosts c ∧ domains ≡ₚ cfDomainPolicies c ∧ ips ≡ₚ cfIpPolicies c ∧
  c' = mkConfig (cfLogLevel c) (cfLogOutput c) (cfSocks5Addr c) (cfHttpAddr c) (cfOutboundBinding c) (cfDNSConfig c)
         (cfTTLProbing c) (cfIPPools c) hosts (cfDefaultPolicy c) domains ips.

Lemma reordered_refl c : reordered c c.
Proof. exists (cfHosts c), (cfDomainPolicies c), (cfIpPolicies c). by destruct c. Qed.

Lemma entries_elem {T} (rules : list (gostring * T)) v : v ∈ (ipEntries rules).*2 → v ∈ rules.*2.
Proof.
  unfold ipEntries. intros ([k x] & -> & Hin)%list_elem_of_fmap. apply list_elem_of_bind in Hin as ([key y] & Hin & Hr).
  apply list_elem_of_bind in Hin as (p & Hin & _). apply list_elem_of_singleton in Hin as [= -> ->].
  by apply (list_elem_of_fmap_2 snd) in Hr.
Qed.

(** Every rule the matchers can answer with is one of the table. *)
Lemma loadDomains_elem {T} (rules : list (gostring * T)) name v : Domain.Find (loadDomains rules) name = Some v → v ∈ rules.*2.
Proof. intros H. apply entries_elem. by apply Domain.Find_inserted in H. Qed.

Lemma loadIPs_elem {T} (rules : list (gostring * T)) ip v :
  IPTrie.Find4 (loadIPs rules).1 ip = Some v ∨ IPTrie.Find6 (loadIPs rules).2 ip = Some v → v ∈ rules.*2.
Proof.
  intros [H|H]; [apply IPTrie.Find4_inserted in H|apply IPTrie.Find6_inserted in H]; apply entries_elem;
    apply list_elem_of_fmap in H as (e & -> & [_ He]%list_elem_of_filter); by apply list_elem_of_fmap_2.
Qed.

Section FileFacts.
Context {W : Type}.
Context (hash : gostring → Z) (bootstrapLookupIP : gostring → W → res (list gostring) * W).
Context `{GoURL, GoTime, GoUnicode}.
Context (socks5Error : gostring → option error) (gomaxprocs : Z) (now done_ : Z).
Context (embeddedGFWList : gostring).
Context (openLog : gostring → option error).
Context (trial : gostring → gostring → Z → res laddr) (interfaces : res (list osInterface)) (stdin : list (res Z)).
Context (jsonError : error) (lookupIP : gostring → res (list bytes)) (isAndroid : bool).

Abbreviation load := (LoadConfig hash bootstrapLookupIP socks5Error gomaxprocs now done_ embeddedGFWList openLog
  trial interfaces stdin).
Abbreviation decodeFile := (decodeConfigFile jsonError lookupIP isAndroid).

(** C15: whatever the bytes of the configuration file are, once it is loaded every
    policy the domain matcher and the address matchers can answer with satisfies
    [policyValid], and so does the default policy unless the file has none, when
    it is Go's zero value: ports, TTLs, the minor version, the segment count and
    the durations are within what their checks allow or unset. Of the status code
    and of the counts of records and attempts only the width of [int] is known,
    since the conversion from [uint] may turn them negative. *)
Theorem loaded_policies_valid data conf conf' (g : globals W) addrs g' :
  decodeFile data = Ok conf → reordered conf conf' → load (Ok conf') g = (Ok addrs, g') →
  (∀ name p, Domain.Find (domainMatcher (tables g')) name = Some p → policyValid p) ∧
  (∀ ip p, IPTrie.Find4 (ipMatcher (tables g')) ip = Some p → policyValid p) ∧
  (∀ ip p, IPTrie.Find6 (ipv6Matcher (tables g')) ip = Some p → policyValid p) ∧
  (defaultPolicy (tables g') = zeroPolicy ∨ policyValid (defaultPolicy (tables g'))).
Proof.
  intros E (hosts & domains & ips & _ & Hd & Hi & ->) El. apply load_in_force in El as (_ & _ & _ & _ & _ & (gfw & _ & Ht) & _).
  rewrite Ht. cbn [withIPs withGFW withRules domainMatcher ipMatcher ipv6Matcher defaultPolicy cfDomainPolicies cfIpPolicies cfDefaultPolicy].
  unfold decodeConfigFile, Decode in E. destruct (decodeFirst data) as [v|]; [|done].
  apply ConfigUnmarshal_valid in E as (Vd & Vi & Vp). rewrite <- Hd in Vd. rewrite <- Hi in Vi.
  assert (∀ (l : list (gostring * Policy)) p, Forall (λ e, policyValid e.2) l → p ∈ l.*2 → policyValid p) as Hall.
  { intros l p Hl (e & -> & He)%list_elem_of_fmap. by eapply Forall_forall in Hl. }
  split_and!; [|intros ip p Hf; eapply Hall; [exact Vi|]; eapply loadIPs_elem; eauto..|done].
  intros name p Hf%loadDomains_elem. exact (Hall _ _ Vd Hf).
Qed.
End FileFacts.

Section CheckFacts.
Context (jsonError : error) (lookupIP : gostring → res (list bytes)) (isAndroid : bool) (sysText : Z → gostring).
Context `{GoTime}.

(** [CheckConfig] finds nothing to complain about exactly when the file decodes
    as [LoadConfig] decodes it and is a single JSON value. *)
Theorem check_config_agrees data :
  CheckConfig jsonError lookupIP isAndroid sysText data = Ok [] ↔
  (∃ conf, decodeConfigFile jsonError lookupIP isAndroid data = Ok conf) ∧ is_Some (parseJSON data).
Proof.
  unfold CheckConfig, Unmarshal, decodeConfigFile, Decode. destruct (parseJSON data) as [v|] eqn:E.
  - rewrite (parse_decodeFirst _ _ E). destruct (ConfigUnmarshal _ _ _ v) as [conf|e|]; split.
    + intros _. split; [by eexists|done].
    + done.
    + intros [=].
    + by intros [[conf [=]] _].
    + done.
    + by intros [[conf [=]] _].
  - split; [intros [=]|]. intros [_ [? [=]]].
Qed.

(** What follows the first value is looked at by the one and not by the other. *)
Lemma trailing_data_loads :
  (∃ conf, decodeConfigFile jsonError lookupIP isAndroid "{} trailing" = Ok conf) ∧
  CheckConfig jsonError lookupIP isAndroid sysText "{} trailing" ≠ Ok [].
Proof. split; [by eexists|done]. Qed.
End CheckFacts.

(** A pool that is [null] passes the check, and loading it panics. *)
Lemma null_pool_panics {W} hash (boot : gostring → W → res (list gostring) * W) `{GoURL, GoTime, GoUnicode} s5 procs now done_ gfw openLog
    trial interfaces stdin jsonError lookupIP isAndroid sysText (g : globals W) :
  let data := jtext "{'ip_pools': {'a': null}}" in
  CheckConfig jsonError lookupIP isAndroid sysText data = Ok [] ∧
  ∃ conf g', decodeConfigFile jsonError lookupIP isAndroid data = Ok conf ∧
    LoadConfig hash boot s5 procs now done_ gfw openLog trial interfaces stdin (Ok conf) g = (Panic, g').
Proof. cbv zeta. split; [vm_compute; reflexivity|]. eexists _, _. split; [vm_compute; reflexivity|]. vm_compute. reflexivity. Qed.

(** No [connect_timeout] in the file means no connection: neither a missing default
    policy nor one without the member leaves a positive timeout, merging keeps it,
    and the dial of the SOCKS5 and HTTP front ends fails before it begins. *)
Lemma merged_timeout_unset ps : ps ≠ [] → Forall (λ p, pConnectTimeout p ≤ 0) ps → pConnectTimeout (mergePolicies ps) ≤ 0.
Proof.
  intros _ Hps. unfold mergePolicies. cut (∀ m, pConnectTimeout m ≤ 0 → pConnectTimeout (foldl mergeStep m ps) ≤ 0).
  { intros H. cbv zeta. specialize (H unsetPolicy ltac:(done)). repeat case_match; cbn; done. }
  induction Hps as [|p ps Hp _ IH]; intros m Hm; [done|]. cbn [foldl]. apply IH. cbn [mergeStep pConnectTimeout].
  unfold Policy.pick. by destruct (_ && _).
Qed.

Theorem no_timeout_no_dial {C} (netDial : dialer → gostring → gostring → Z → res C) jsonError lookupIP isAndroid `{GoTime} v conf address st d :
  ConfigUnmarshal jsonError lookupIP isAndroid v = Ok conf → membersOf v = [] ∨ v = JObj [(lit "default_policy", JObj [])] →
  dialerFor address st = Ok d →
  DialTCPTimeout netDial address (pConnectTimeout (mergePolicies [cfDefaultPolicy conf])) st = Err deadlineExceeded.
Proof.
  intros E Hv Hd. unfold DialTCPTimeout, dialWithin. rewrite Hd. cbn [mbind res_bind].
  assert (pConnectTimeout (cfDefaultPolicy conf) ≤ 0) as Hle.
  { destruct Hv as [Hv| ->]; [|vm_compute in E; injection E as <-; done].
    destruct v as [| | | | |ms]; try done; [injection E as <-; done|]. cbn in Hv. subst ms. injection E as <-. done. }
  pose proof (merged_timeout_unset [cfDefaultPolicy conf] ltac:(done) ltac:(by constructor)).
  by rewrite (proj2 (Z.leb_le _ _)).
Qed.

(** ** A policy survives being written

    [policyJSON] writes the fields of a policy that are given, in the order of the
    Go struct. *)

Definition triJSON (s : gostring) : json := JBool (bool_decide (s = lit "true")).
Definition numJSON (x : Z) : json := JNum (itoa x).

Definition policyMembers (r : rawPolicy) : list (String.string * option json) :=
  [("sniff_override", JStr <$> rSniffOverrideMode r); ("reply_first", triJSON <$> rReplyFirst r);
   ("connect_timeout", JStr <$> rConnectTimeout r); ("host", JStr <$> rHost r); ("map_to", JStr <$> rMapTo r);
   ("nat64_prefix", JStr <$> rNat64Prefix r); ("port", numJSON <$> rPort r); ("dns_mode", JStr <$> rDNSMode r);
   ("dns_cache_ttl", JStr <$> rDNSCacheTTL r); ("http_status", numJSON <$> rHttpStatus r); ("tls13_only", triJSON <$> rTLS13Only r);
   ("mode", JStr <$> rMode r); ("num_records", numJSON <$> rNumRecords r); ("num_segs", numJSON <$> rNumSegments r);
   ("wait_for_ack", triJSON <$> rWaitForAck r); ("oob", triJSON <$> rOOB r); ("oob_ex", triJSON <$> rOOBEx r);
   ("minor_ver", numJSON <$> rMinorVer r); ("send_interval", JStr <$> rSendInterval r); ("fake_ttl", numJSON <$> rFakeTTL r);
   ("fake_sleep", JStr <$> rFakeSleep r); ("max_ttl", numJSON <$> rMaxTTL r); ("attempts", numJSON <$> rAttempts r);
   ("single_timeout", JStr <$> rSingleTimeout r); ("ttl_cache_ttl", JStr <$> rTTLCacheTTL r)]%string.

Definition policyJSON (r : rawPolicy) : json := fieldsJSON (policyMembers r).

(** The strings are text. *)
Definition rawText (r : rawPolicy) : Prop :=
  Forall (λ o, match o with Some s => utf8 s | None => True end)
    [rSniffOverrideMode r; rConnectTimeout r; rHost r; rMapTo r; rNat64Prefix r; rDNSMode r; rDNSCacheTTL r; rMode r;
     rSendInterval r; rFakeSleep r; rSingleTimeout r; rTTLCacheTTL r].

Definition policyNames : list String.string :=
  ["sniff_override"; "reply_first"; "connect_timeout"; "host"; "map_to"; "nat64_prefix"; "port"; "dns_mode"; "dns_cache_ttl";
   "http_status"; "tls13_only"; "mode"; "num_records"; "num_segs"; "wait_for_ack"; "oob"; "oob_ex"; "minor_ver"; "send_interval";
   "fake_ttl"; "fake_sleep"; "max_ttl"; "attempts"; "single_timeout"; "ttl_cache_ttl"]%string.

Lemma policyNames_apart : namesApart policyNames = true.
Proof. by vm_compute. Qed.
Lemma policyNames_NoDup : NoDup policyNames.
Proof. by_decide. Qed.
Lemma policyNames_upper : NoDup ((λ n, upper_byte <$> lit n) <$> policyNames).
Proof. by_decide. Qed.

(** An object with its fields in the order of the struct. *)
Lemma checkStruct_fieldsJSON fields l :
  NoDup ((λ f : String.string * checker, upper_byte <$> lit f.1) <$> fields) →
  Forall (λ e : String.string * option json, match e.2 with
    | Some x => ∃ c, (e.1, c) ∈ fields ∧ c x = Ok true
    | None => True
    end) l →
  (∀ n, n ∈ l.*1 → foldsTo (lit n) (lit n) = true) →
  checkStruct fields (fieldsJSON l) = Ok true.
Proof.
  intros Hnd Hl Hself. unfold checkStruct, fieldsJSON. apply checkAll_true, Forall_forall. intros m Hm.
  apply list_elem_of_omap in Hm as ([n o] & Hin & Em). destruct o as [x|]; [|done]. injection Em as <-.
  rewrite Forall_forall in Hl. destruct (Hl _ Hin) as (c & Hc & Hx). cbn [fst snd] in *.
  rewrite (checkMember_field _ _ _ _ Hnd Hc); [done|]. apply Hself. by apply (list_elem_of_fmap_2 fst) in Hin.
Qed.

(** What each kind of field leaves when it is read back. *)
Lemma read_string o : match JStr <$> o with Some x => storeOptString None x | None => None end = o.
Proof. by destruct o. Qed.

Lemma read_name o : match JStr <$> o with Some x => storeName None x | None => None end = o.
Proof. by destruct o. Qed.

Lemma read_uint bits (o : option Z) : match o with Some x => 0 ≤ x < 2 ^ bits | None => True end →
  match numJSON <$> o with Some x => storeOptNum (parse_uint bits) None x | None => None end = o.
Proof. destruct o as [x|]; [|done]. intros Hx. unfold numJSON, storeByte, storeOptNum, storeNum. cbn -[parse_uint itoa]. by rewrite parse_uint_itoa. Qed.

Lemma read_int (o : option Z) : match o with Some x => - 2 ^ 63 ≤ x < 2 ^ 63 | None => True end →
  match numJSON <$> o with Some x => storeOptNum (parse_int 64) None x | None => None end = o.
Proof. destruct o as [x|]; [|done]. intros Hx. unfold numJSON, storeOptNum. cbn -[parse_int itoa]. by rewrite parse_int_itoa. Qed.

Lemma read_byte (o : option Z) : match o with Some x => 0 ≤ x < 2 ^ 8 | None => True end →
  match numJSON <$> o with Some x => storeByte None x | None => None end = o.
Proof. destruct o as [x|]; [|done]. intros Hx. unfold numJSON, storeByte, storeOptNum, storeNum. cbn -[parse_uint itoa]. by rewrite parse_uint_itoa. Qed.

Lemma triJSON_text s b : unmarshalTriBool s = Ok b → encode (triJSON s) = s.
Proof. unfold unmarshalTriBool, triJSON. by repeat case_bool_decide; subst. Qed.

Lemma read_tri o b : optional unmarshalTriBool BoolUnset o = Ok b →
  match triJSON <$> o with Some x => storeText None x | None => None end = o.
Proof. destruct o as [s|]; [|done]. cbn. intros E%triJSON_text. unfold storeText. by rewrite E. Qed.

Section PolicyRoundtrip.
Context (jsonError : error).
Context `{GoTime}.

(** A policy that decodes has valid names and truth values. *)
Lemma unmarshalPolicy_enums r p : unmarshalPolicy r = Ok p →
  (∃ x, optional unmarshalSniff SniffOverrideUnset (rSniffOverrideMode r) = Ok x) ∧
  (∃ x, optional unmarshalTriBool BoolUnset (rReplyFirst r) = Ok x) ∧
  (∃ x, optional unmarshalDNSMode DNSModeUnset (rDNSMode r) = Ok x) ∧
  (∃ x, optional unmarshalTriBool BoolUnset (rTLS13Only r) = Ok x) ∧
  (∃ x, optional unmarshalMode ModeUnset (rMode r) = Ok x) ∧
  (∃ x, optional unmarshalTriBool BoolUnset (rWaitForAck r) = Ok x) ∧
  (∃ x, optional unmarshalTriBool BoolUnset (rOOB r) = Ok x) ∧
  (∃ x, optional unmarshalTriBool BoolUnset (rOOBEx r) = Ok x).
Proof.
  unfold unmarshalPolicy. intros E. do 8 (apply bind_Ok in E as (? & ? & E)). split_and!; eauto.
Qed.

Lemma field_policyJSON {A} name (store : A → json → A) old r : name ∈ policyNames →
  field name store old (policyJSON r) =
  match List.find (λ e, String.eqb e.1 name) (policyMembers r) with Some (_, Some x) => store old x | _ => old end.
Proof. intros Hin. apply field_fieldsJSON; [exact policyNames_apart|exact policyNames_NoDup|exact Hin]. Qed.

Lemma rawPolicyOf_policyJSON r p : rawInRange r → unmarshalPolicy r = Ok p → rawPolicyOf (policyJSON r) = r.
Proof.
  intros Hr (_ & [? E1] & _ & [? E2] & _ & [? E3] & [? E4] & [? E5])%unmarshalPolicy_enums.
  unfold rawInRange in Hr. cbv zeta beta in Hr. destruct Hr as (? & ? & ? & ? & ? & ? & ? & ?).
  unfold rawPolicyOf. rewrite !field_policyJSON by (apply (bool_decide_eq_true_1 _); vm_compute; reflexivity).
  cbn [policyMembers List.find String.eqb Ascii.eqb Bool.eqb fst].
  rewrite ?read_string, ?read_name, ?read_uint, ?read_int, ?read_byte by done.
  rewrite (read_tri _ _ E1), (read_tri _ _ E2), (read_tri _ _ E3), (read_tri _ _ E4), (read_tri _ _ E5). by destruct r.
Qed.
Lemma policyFields_upper : NoDup ((λ f : String.string * checker, upper_byte <$> lit f.1) <$> policyFields jsonError).
Proof. exact policyNames_upper. Qed.

(** A field of the struct accepts what the writer writes for it. *)
Definition accepts (e : String.string * option json) : Prop :=
  match e.2 with Some x => ∃ c, (e.1, c) ∈ policyFields jsonError ∧ c x = Ok true | None => True end.

Lemma accepts_field n c (o : option json) :
  List.find (λ f : String.string * checker, String.eqb f.1 n) (policyFields jsonError) = Some (n, c) →
  (∀ x, o = Some x → c x = Ok true) → accepts (n, o).
Proof.
  intros Hf Ho. unfold accepts. cbn. destruct o as [x|]; [|done]. exists c. split; [|by apply Ho].
  apply List.find_some in Hf as [Hf _]. by apply list_elem_of_In.
Qed.

Lemma check_enum {A} (f : gostring → res A) (unset : A) o a x :
  optional f unset o = Ok a → JStr <$> o = Some x → checkMethod (enumMethod jsonError f) x = Ok true.
Proof. destruct o as [s|]; [|done]. cbn. intros E [= <-]. unfold checkMethod, enumMethod. cbn. by rewrite E. Qed.

Lemma check_tri o a x : optional unmarshalTriBool BoolUnset o = Ok a → triJSON <$> o = Some x → checkMethod TriBoolUnmarshalJSON x = Ok true.
Proof.
  destruct o as [s|]; [|done]. cbn. intros E [= <-]. unfold checkMethod, TriBoolUnmarshalJSON.
  rewrite (triJSON_text _ _ E), E. done.
Qed.

Lemma check_string o x : JStr <$> o = Some x → checkString x = Ok true.
Proof. destruct o; [|done]. by intros [= <-]. Qed.

Lemma check_uint bits (o : option Z) x : match o with Some y => 0 ≤ y < 2 ^ bits | None => True end →
  numJSON <$> o = Some x → checkNum (parse_uint bits) x = Ok true.
Proof.
  destruct o as [y|]; [|done]. intros Hy [= <-]. unfold checkNum, numJSON. rewrite parse_uint_itoa by done. done.
Qed.

Lemma check_int (o : option Z) x : match o with Some y => - 2 ^ 63 ≤ y < 2 ^ 63 | None => True end →
  numJSON <$> o = Some x → checkNum (parse_int 64) x = Ok true.
Proof.
  destruct o as [y|]; [|done]. intros Hy [= <-]. unfold checkNum, numJSON. rewrite parse_int_itoa by done. done.
Qed.

Lemma check_byte (o : option Z) x : match o with Some y => 0 ≤ y < 2 ^ 8 | None => True end →
  numJSON <$> o = Some x → checkMethod (ByteUnmarshalJSON jsonError) x = Ok true.
Proof.
  destruct o as [y|]; [|done]. intros Hy [= <-]. unfold checkMethod, ByteUnmarshalJSON, checkNum, numJSON.
  rewrite parse_uint_itoa by done. done.
Qed.

Lemma check_policyJSON r p : rawInRange r → unmarshalPolicy r = Ok p → checkStruct (policyFields jsonError) (policyJSON r) = Ok true.
Proof.
  intros Hr ([? E0] & [? E1] & [? E2] & [? E3] & [? E4] & [? E5] & [? E6] & [? E7])%unmarshalPolicy_enums.
  unfold rawInRange in Hr. cbv zeta beta in Hr. destruct Hr as (? & ? & ? & ? & ? & ? & ? & ?).
  apply checkStruct_fieldsJSON; [exact policyFields_upper| |].
  - unfold policyMembers. repeat apply Forall_cons_2; [..|apply Forall_nil_2].
    all: eapply accepts_field; [reflexivity|]; intros y Hy.
    all: first [exact (check_string _ _ Hy)|eapply check_uint; [|exact Hy]; done|eapply check_int; [|exact Hy]; done|
      eapply check_byte; [|exact Hy]; done|eapply check_tri; [|exact Hy]; eassumption|eapply check_enum; [|exact Hy]; eassumption].
  - intros n Hn. change (n ∈ policyNames) in Hn. revert n Hn. apply Forall_forall. by_decide.
Qed.

Lemma fieldsJSON_wf l : Forall (λ e : String.string * option json, utf8 (lit e.1) ∧
    match e.2 with Some x => wfJson x ∧ depthOf x = 0 | None => True end) l →
  wfJson (fieldsJSON l) ∧ depthOf (fieldsJSON l) = 1.
Proof.
  intros Hl. unfold fieldsJSON. cbn [wfJson depthOf]. split.
  - apply foldr_and_Forall, Forall_forall. intros m ([n o] & Hin & Em)%list_elem_of_omap. destruct o as [x|]; [|done]. injection Em as <-.
    rewrite Forall_forall in Hl. destruct (Hl _ Hin) as (? & ? & ?). done.
  - induction Hl as [|[n o] l [_ He] _ IH]; [done|]. cbn [omap list_omap fst snd]. destruct o as [x|]; [|done]. cbn in *. lia.
Qed.

(** C16: every policy that decodes can be written to the file and is read back: the
    text of its fields, through the scanner, the choice of fields by name and the
    types of the fields, decodes to the same policy. *)
Theorem policy_roundtrip r p :
  rawInRange r → rawText r → unmarshalPolicy r = Ok p →
  Unmarshal jsonError (PolicyUnmarshalJSON jsonError) (encode (policyJSON r)) = Ok p.
Proof.
  intros Hr Ht E. unfold rawText in Ht. rewrite !Forall_cons in Ht.
  assert (wfJson (policyJSON r) ∧ depthOf (policyJSON r) = 1) as [Hwf Hd].
  { apply fieldsJSON_wf. unfold policyMembers.
    repeat apply Forall_cons_2; [..|apply Forall_nil_2]; (split; [by vm_compute|]); cbn [fst snd];
      destruct_and! Ht; match goal with |- context [_ <$> ?o] => destruct o; [|done] end; cbn [fmap option_fmap option_map];
      first [by split|split; [apply scanNumber_itoa|done]]. }
  unfold Unmarshal. rewrite parse_encode by (done || (rewrite Hd; done)). unfold PolicyUnmarshalJSON, finish.
  rewrite (check_policyJSON r p Hr E), (rawPolicyOf_policyJSON r p Hr E). done.
Qed.
End PolicyRoundtrip.

(** A policy with a string, an enumeration, a truth value and numbers. *)
Definition demoRaw : rawPolicy :=
  mkRaw None (Some (lit "true")) (Some (lit "5ns")) (Some (lit "example.org")) None None (Some 443) None
    None None None (Some (lit "tls-rf")) (Some 4) (Some (-1)) None None None (Some 3) None None None None
    None None None.

Lemma policy_roundtrip_witness :
  ∃ p, Unmarshal (errorString "json") (@PolicyUnmarshalJSON (errorString "json") goTimeNone) (encode (policyJSON demoRaw)) = Ok p ∧
    pNumSegments p = -1 ∧ pPort p = 443 ∧
    encode (policyJSON demoRaw) = jtext "{'reply_first':true,'connect_timeout':'5ns','host':'example.org','port':443,'mode':'tls-rf','num_records':4,'num_segs':-1,'minor_ver':3}".
Proof.
  eexists. split; [|split; [|split]].
  - eapply (@policy_roundtrip (errorString "json") goTimeNone demoRaw).
    + unfold rawInRange. cbn. lia.
    + unfold rawText. repeat apply Forall_cons_2; try apply Forall_nil_2; by vm_compute.
    + vm_compute. reflexivity.
  - reflexivity.
  - reflexivity.
  - vm_compute. reflexivity.
Defined.

(** A file with a rule for a domain and one for a network, loaded into an empty
    state. *)
Definition demoFile : bytes :=
  jtext "{'dns': {'addr': '1.1.1.1:53', 'disable_cache': true}, 'ttl_probing': {'fake_ttl_rules': '0-1', 'disable_cache': true}, 'Default_Policy': {'connect_timeout': '10s'}, 'domain_policies': {'*.example.com': {'mode': 'block'}}, 'ip_policies': {'10.0.0.0/8;fc00::/7': {'mode': 'raw', 'port': 8443}}}".

Definition emptyGlobals : globals unit :=
  mkGlobals Stdout 0 (mkDial None None None) ∅ [] (emptyTables unsetPolicy)
    (mkDNS [] None false [] None 0 None None false None None 0 tt) (mkProbingState None None false) None.

Definition demoLoad (conf : Config) : res (gostring * gostring) * globals unit :=
  @LoadConfig unit (λ _, 0) (λ _ w, (Ok [], w)) (λ _, None) goTimeNone (λ s, s) (λ _, None) 4 0 0 GfwList.demoRaw (λ _, None)
    (λ _ _ _, Err (errorString "no network")) (Ok []) [] (Ok conf) emptyGlobals.

(** A record count of 2^64 - 1 is accepted and loads as -1. *)
Theorem huge_count_loads_negative `{GoTime} :
  ∃ v p, parseJSON (jtext "{'mode': 'tls-rf', 'num_records': 18446744073709551615}") = Some v ∧
    PolicyUnmarshalJSON (errorString "json") v = Ok p ∧ pMode p = ModeTLSRF ∧ pNumRecords p = -1.
Proof. eexists _, _. split; [vm_compute; reflexivity|]. split; [vm_compute; reflexivity|]. split; reflexivity. Qed.

Lemma loaded_policies_valid_witness :
  ∃ conf p, @decodeConfigFile (errorString "json") (λ _, Ok []) true goTimeNone demoFile = Ok conf ∧
    Domain.Find (domainMatcher (tables (demoLoad conf).2)) "www.example.com" = Some p ∧ pMode p = ModeBlock ∧ policyValid p.
Proof.
  destruct (@decodeConfigFile (errorString "json") (λ _, Ok []) true goTimeNone demoFile) as [conf|e|] eqn:E;
    [|vm_compute in E; discriminate E..].
  assert (∃ addrs, fst (demoLoad conf) = Ok addrs) as [addrs Hl].
  { vm_compute in E. injection E as <-. eexists. vm_compute. reflexivity. }
  pose proof (@loaded_policies_valid unit (λ _, 0) (λ _ w, (Ok [], w)) (λ _, None) goTimeNone (λ s, s) (λ _, None) 4 0 0 GfwList.demoRaw
    (λ _, None) (λ _ _ _, Err (errorString "no network")) (Ok []) [] (errorString "json") (λ _, Ok []) true demoFile conf conf
    emptyGlobals addrs (snd (demoLoad conf)) E (reordered_refl conf)) as H.
  destruct H as [H _]. { unfold demoLoad in *. by rewrite <- Hl, <- surjective_pairing. }
  assert (∃ p, Domain.Find (domainMatcher (tables (demoLoad conf).2)) "www.example.com" = Some p ∧ pMode p = ModeBlock) as (p & Hp & Hb).
  { vm_compute in E. injection E as <-. eexists. split; vm_compute; reflexivity. }
  exists conf, p. split; [reflexivity|]. split; [exact Hp|]. split; [exact Hb|]. exact (H _ _ Hp).
Defined.
