(* ===== verification/MobileProxy.v ===== *)
(** * The proxy behind the tunnel interface (mobile/lumine_proxy.go,
      mobile/queued_packet_conn.go, mobile/dns_tcp_conn.go)

    Connections that applications open through the tunnel interface arrive here:
    DNS traffic to the tunnel's resolver is answered on the spot, everything else
    is planned by its destination address and dialled. *)

From S2P Require Import Prelude Errors Stream Netip AddrTrie Pattern FakeIP Conn ClientHello Fragment Policy Routing Ring LRU LRUSpec Sharded Desync Tunnel TunBridge DnsMsg Dns DnsHijack Session.
Local Open Scope Z_scope.

(** ** Log messages *)

Definition joinPlanLogMessage (network : gostring) (plan : DialPlan) (target : gostring) : gostring :=
  let origin :=
    if bool_decide (dp_recoveredDomain plan = []) then OriginAddress plan
    else if 0 <? dp_originPort plan then JoinHostPort (dp_recoveredDomain plan) (itoa (dp_originPort plan))
    else dp_recoveredDomain plan in
  network ++ " " ++ origin ++ " -> " ++ target ++ " mode=" ++ ModeString (pMode (dp_policy plan)).

(** What [logDialPlan] does: nothing, or a message at the level debug or info. *)
Inductive planLog := NoLog | DebugLog (msg : gostring) | InfoLog (msg : gostring).

Definition logDialPlan (network : gostring) (plan : DialPlan) (target : gostring) : planLog :=
  if negb (dp_matchedDomain plan) && negb (dp_matchedIP plan) && negb (dp_blocked plan) then NoLog
  else
    let message := joinPlanLogMessage network plan target in
    match pMode (dp_policy plan) with
    | ModeDirect | ModeRaw => DebugLog message
    | _ => InfoLog message
    end.

Fixpoint joinRest (result : gostring) (parts : list gostring) : gostring :=
  match parts with
  | [] => result
  | p :: parts' => joinRest (result ++ ", " ++ p) parts'
  end.

Definition joinAnswerParts (parts : list gostring) : gostring :=
  match parts with
  | [] => []
  | p :: parts' => joinRest p parts'
  end.

Section Summaries.
Context `{DNSLib} (errText : error → gostring).

Definition summarizeDNSAnswers (answers : list RR) : gostring :=
  if bool_decide (answers = []) then [] else
  let limit := Z.min (zlen answers) 3 in
  let summary := " [" ++ joinAnswerParts (summarizeRR <$> take (Z.to_nat limit) answers) ++ "]" in
  if limit <? zlen answers then summary ++ " +" ++ itoa (zlen answers - limit) else summary.

Definition summarizeDNSPacket (payload : bytes) : gostring :=
  match Unpack payload with
  | Err e => "unpack_failed bytes=" ++ itoa (zlen payload) ++ " err=" ++ errText e
  | Panic => []
  | Ok msg =>
      let tail := " answers=" ++ itoa (zlen (mAnswer msg)) ++ " rcode=" ++ RcodeToString (mRcode msg) ++
                  summarizeDNSAnswers (mAnswer msg) in
      match mQuestion msg with
      | [] => "id=" ++ itoa (mId msg) ++ " questions=0" ++ tail
      | q :: _ => "id=" ++ itoa (mId msg) ++ " q=" ++ qName q ++ " type=" ++ typeName (qType q) ++ tail
      end
  end.
End Summaries.

(** The loop of [joinAnswerParts] is a join. *)
Lemma joinAnswerParts_join parts : joinAnswerParts parts = join_with ", " parts.
Proof.
  destruct parts as [|p parts]; [done|]. cbn [joinAnswerParts]. revert p.
  induction parts as [|q parts IH]; intros p; [done|]. cbn [joinRest]. rewrite IH.
  destruct parts; cbn [join_with]; by rewrite <- ?app_assoc.
Qed.

Example summary_examples :
  @summarizeDNSAnswers noDNSLib [RR_A (demoHdr TypeA) [1; 2; 3; 4]; RR_HTTPS (demoHdr TypeHTTPS);
    RR_Other (demoHdr 16); RR_SVCB (demoHdr TypeSVCB)] = lit " [A=1.2.3.4, HTTPS, TYPE16] +1" ∧
  joinPlanLogMessage "TCP" (demoPlan ModeTLSRF) "93.184.216.34:443" = lit "TCP example.com:443 -> 93.184.216.34:443 mode=tls-rf".
Proof. split; vm_compute; reflexivity. Qed.

(** ** The queue of incoming datagrams (queued_packet_conn.go)

    A goroutine moves what arrives at the socket into a channel of 32 places;
    answers made on the spot are put into the same channel.  [qc_in] lists the
    packets the channel has accepted and [qc_out] those it has given out.  Both
    ways in copy the payload into a slice of its own ([append([]byte(nil), ...)]),
    so a packet is a value; a read copies it into the buffer of its caller. *)

Record packet := mkPacket { pk_payload : bytes; pk_addr : gostring }.

#[global] Instance packet_eq_dec : EqDecision packet.
Proof. solve_decision. Defined.

Inductive pump := PumpReading | PumpHolding (p : packet) | PumpStopped.

Record queuedConn := mkQueued {
  qc_packets : list packet;
  qc_closed : bool;
  qc_pump : pump;
  qc_deadline : option Z;
  qc_in : list packet;
  qc_out : list packet;
}.

Definition queueCap : nat := 32.

Definition newQueuedPacketConn : queuedConn := mkQueued [] false PumpReading None [] [].

(** The results of the two calls that wait. *)
Inductive readResult := ReadPacket (b : bytes) (addr : gostring) | ReadTimeout | ReadClosed.
(** [EvRead k r]: a read with a buffer of [k] bytes returned [r]. *)
Inductive queueEvent := EvQuiet | EvEnqueued | EvEnqueueClosed | EvRead (k : nat) (r : readResult).

(** The deadline has passed before the wait begins. *)
Definition expired (s : queuedConn) (now : Z) : bool :=
  match qc_deadline s with None => false | Some d => d <=? now end.

Definition accept (p : packet) (pmp : pump) (s : queuedConn) : queuedConn :=
  mkQueued (qc_packets s ++ [p]) (qc_closed s) pmp (qc_deadline s) (qc_in s ++ [p]) (qc_out s).

Definition setPump (pmp : pump) (s : queuedConn) : queuedConn :=
  mkQueued (qc_packets s) (qc_closed s) pmp (qc_deadline s) (qc_in s) (qc_out s).

Inductive queueStep : queuedConn → queueEvent → queuedConn → Prop :=
| pump_read s p : qc_pump s = PumpReading → queueStep s EvQuiet (setPump (PumpHolding p) s)
| pump_fail s : qc_pump s = PumpReading → queueStep s EvQuiet (setPump PumpStopped s)
| pump_send s p : qc_pump s = PumpHolding p → (length (qc_packets s) < queueCap)%nat →
    queueStep s EvQuiet (accept p PumpReading s)
| pump_quit s p : qc_pump s = PumpHolding p → qc_closed s = true → queueStep s EvQuiet (setPump PumpStopped s)
| enqueue s p : (length (qc_packets s) < queueCap)%nat → queueStep s EvEnqueued (accept p (qc_pump s) s)
| enqueue_closed s : qc_closed s = true → queueStep s EvEnqueueClosed s
| read_packet s p rest k now : expired s now = false → qc_packets s = p :: rest →
    queueStep s (EvRead k (ReadPacket (take k (pk_payload p)) (pk_addr p)))
      (mkQueued rest (qc_closed s) (qc_pump s) (qc_deadline s) (qc_in s) (qc_out s ++ [p]))
| read_expired s k now : expired s now = true → queueStep s (EvRead k ReadTimeout) s
| read_timer s k d now : qc_deadline s = Some d → now < d → queueStep s (EvRead k ReadTimeout) s
| read_closed s k now : expired s now = false → qc_closed s = true → queueStep s (EvRead k ReadClosed) s
| queue_close s : queueStep s EvQuiet (mkQueued (qc_packets s) true (qc_pump s) (qc_deadline s) (qc_in s) (qc_out s))
| queue_deadline s d : queueStep s EvQuiet (mkQueued (qc_packets s) (qc_closed s) (qc_pump s) d (qc_in s) (qc_out s)).

Inductive queueRun : queuedConn → list queueEvent → queuedConn → Prop :=
| run_nil s : queueRun s [] s
| run_cons s e s1 es s2 : queueStep s e s1 → queueRun s1 es s2 → queueRun s (e :: es) s2.

(** The packets that reads have returned, in order. *)
Fixpoint delivered (es : list queueEvent) : list (nat * bytes * gostring) :=
  match es with
  | [] => []
  | EvRead k (ReadPacket b a) :: es' => (k, b, a) :: delivered es'
  | _ :: es' => delivered es'
  end.

(** A packet as a reader gets it: all of it, or as much as fits its buffer. *)
Definition gotPacket (r : nat * bytes * gostring) (p : packet) : Prop :=
  r.1.2 = take r.1.1 (pk_payload p) ∧ r.2 = pk_addr p.

Definition queueInv (s : queuedConn) : Prop :=
  qc_in s = qc_out s ++ qc_packets s ∧ (length (qc_packets s) ≤ queueCap)%nat.

Lemma queueStep_inv s e s' : queueStep s e s' → queueInv s →
  queueInv s' ∧ ∃ outs, qc_out s' = qc_out s ++ outs ∧ Forall2 gotPacket (delivered [e]) outs.
Proof.
  intros Hs [Hio Hcap]. destruct Hs as [s p Hp|s Hp|s p Hp Hl|s p Hp Hc|s p Hl|s Hc|s p rest k now He Hq|s k now He|s k d now Hd He|s k now He Hc|s|s d];
    try (split; [by split|]; exists []; rewrite app_nil_r; by split; [|constructor]).
  - split; [|exists []; rewrite app_nil_r; by split; [|constructor]]. split; cbn.
    + by rewrite Hio, app_assoc.
    + rewrite length_app. simpl. unfold queueCap in *. lia.
  - split; [|exists []; rewrite app_nil_r; by split; [|constructor]]. split; cbn.
    + by rewrite Hio, app_assoc.
    + rewrite length_app. simpl. unfold queueCap in *. lia.
  - rewrite Hq in *. split; [split; cbn|].
    + by rewrite Hio, <- app_assoc.
    + simpl in Hcap. lia.
    + exists [p]. split; [done|]. constructor; [|constructor]. by split.
Qed.

Lemma queueRun_inv s es s' : queueRun s es s' → queueInv s →
  queueInv s' ∧ ∃ outs, qc_out s' = qc_out s ++ outs ∧ Forall2 gotPacket (delivered es) outs.
Proof.
  induction 1 as [s|s e s1 es s2 Hs _ IH]; intros Hi.
  { split; [done|]. exists []. rewrite app_nil_r. by split; [|constructor]. }
  destruct (queueStep_inv _ _ _ Hs Hi) as (Hi1 & o1 & Ho1 & H1). destruct (IH Hi1) as (Hi2 & o2 & Ho2 & H2).
  split; [done|]. exists (o1 ++ o2). rewrite Ho2, Ho1, app_assoc. split; [done|].
  assert (delivered (e :: es) = delivered [e] ++ delivered es) as -> by (destruct e as [| | |? []]; done).
  by apply Forall2_app.
Qed.

(** In every interleaving of the pump, the answers put in, the readers, the
    deadlines and the close, readers get the packets the queue has accepted, in
    that order, each one once and with its own address (cut to the reader's
    buffer); nothing accepted is lost, and at most 32 packets wait. *)
Theorem queue_fifo es s :
  queueRun newQueuedPacketConn es s →
  ∃ outs, qc_in s = outs ++ qc_packets s ∧ Forall2 gotPacket (delivered es) outs ∧ (length (qc_packets s) ≤ queueCap)%nat.
Proof.
  intros Hr. destruct (queueRun_inv _ _ _ Hr) as ([Hio Hcap] & outs & Ho & Hf); [split; cbn; [done|unfold queueCap; lia]|].
  cbn in Ho. exists outs. rewrite Hio, Ho. done.
Qed.

Lemma queue_fifo_witness :
  let p := mkPacket (lit "hello") "1.2.3.4:53" in
  let s := mkQueued [] false PumpReading None [p] [p] in
  queueRun newQueuedPacketConn [EvQuiet; EvQuiet; EvRead 3 (ReadPacket (lit "hel") "1.2.3.4:53")] s ∧
  ∃ outs, qc_in s = outs ++ qc_packets s ∧ Forall2 gotPacket [(3%nat, lit "hel", lit "1.2.3.4:53")] outs ∧ (length (qc_packets s) ≤ queueCap)%nat.
Proof.
  cbv zeta. set (p := mkPacket (lit "hello") "1.2.3.4:53").
  assert (queueRun newQueuedPacketConn [EvQuiet; EvQuiet; EvRead 3 (ReadPacket (lit "hel") "1.2.3.4:53")] (mkQueued [] false PumpReading None [p] [p])) as Hr.
  { eapply run_cons; [apply (pump_read newQueuedPacketConn p); reflexivity|].
    eapply run_cons; [apply (pump_send _ p); [reflexivity|vm_compute; lia]|].
    eapply run_cons; [apply (read_packet _ p [] 3 0); reflexivity|]. apply run_nil. }
  split; [exact Hr|]. exact (queue_fifo _ _ Hr).
Defined.

(** [Close] tests the channel and then closes it: two callers can both find it
    open, and the second one closes a closed channel, which panics. *)
Inductive closer := CloserStart | CloserFoundOpen | CloserDone | CloserPanic.

Definition closerStep (closed : bool) (c : closer) : option (bool * closer) :=
  match c with
  | CloserStart => Some (closed, if closed then CloserDone else CloserFoundOpen)
  | CloserFoundOpen => Some (true, if closed then CloserPanic else CloserDone)
  | _ => None
  end.

Lemma concurrent_close_panics :
  ∃ c1 c2, closerStep false CloserStart = Some (false, c1) ∧ closerStep false CloserStart = Some (false, c2) ∧
    closerStep false c1 = Some (true, CloserDone) ∧ closerStep true c2 = Some (true, CloserPanic).
Proof. by exists CloserFoundOpen, CloserFoundOpen. Qed.

(** ** DNS over TCP to the tunnel's resolver (dns_tcp_conn.go) *)

Section TCPDNS.
Context {S : Type} (handle : bytes → stM S bytes).

Definition frame (b : bytes) : bytes := put_be16 (u16 (zlen b)) ++ b.

(** The loop of [serveLocalDNSTCP] up to its return, after which the connection
    is closed; [None] when the fuel runs out. *)
Fixpoint serveLocalDNSTCP (fuel : nat) (st : S) (s : Stream.stream) : option (S * Stream.stream) :=
  match fuel with
  | O => None
  | Datatypes.S fuel' =>
      match readFull 2 s with
      | (Ok lengthBuf, s) =>
          let msgLen := be16 (lengthBuf !!! 0%nat) (lengthBuf !!! 1%nat) in
          if msgLen <=? 0 then Some (st, s)
          else
            match readFull msgLen s with
            | (Ok payload, s) =>
                match handle payload st with
                | (Ok resp, st) =>
                    if 65535 <? zlen resp then Some (st, s)
                    else
                      match send (frame resp) s with
                      | (Ok _, s) => serveLocalDNSTCP fuel' st s
                      | (_, s) => Some (st, s)
                      end
                | (_, st) => Some (st, s)
                end
            | (_, s) => Some (st, s)
            end
      | (_, s) => Some (st, s)
      end
  end.

(** What a client that sends the queries [qs] should get, and the state after. *)
Fixpoint answers (qs : list bytes) (st : S) : list bytes * S :=
  match qs with
  | [] => ([], st)
  | q :: qs' =>
      match handle q st with
      | (Ok resp, st) => if 65535 <? zlen resp then ([], st) else let '(rs, st) := answers qs' st in (resp :: rs, st)
      | (_, st) => ([], st)
      end
  end.

(** Reading one framed message. *)
Lemma serve_frame fuel q st rest out :
  1 ≤ zlen q < 2 ^ 16 →
  serveLocalDNSTCP (Datatypes.S fuel) st (quietStream (frame q ++ rest) out) =
  match handle q st with
  | (Ok resp, st) =>
      if 65535 <? zlen resp then Some (st, quietStream rest out)
      else serveLocalDNSTCP fuel st (quietStream rest (out ++ [frame resp]))
  | (_, st) => Some (st, quietStream rest out)
  end.
Proof.
  intros Hq. cbn [serveLocalDNSTCP]. unfold frame at 1, quietStream at 1. unfold u16. rewrite Z.mod_small by lia.
  rewrite <- app_assoc, (readFull_app 2) by apply zlen_put16.
  assert (be16 (put_be16 (zlen q) !!! 0%nat) (put_be16 (zlen q) !!! 1%nat) = zlen q) as -> by (apply be16_put; lia).
  destruct (Z.leb_spec (zlen q) 0); [lia|]. rewrite readFull_app by done.
  destruct (handle q st) as [[resp|e|] st']; [|done..]. by destruct (65535 <? zlen resp).
Qed.

Lemma serve_all qs fuel st out :
  Forall (λ q, 1 ≤ zlen q < 2 ^ 16) qs → (length qs < fuel)%nat →
  ∃ s, serveLocalDNSTCP fuel st (quietStream (concat (frame <$> qs)) out) = Some ((answers qs st).2, s) ∧
    output s = out ++ (frame <$> (answers qs st).1).
Proof.
  intros Hq. revert fuel st out. induction Hq as [|q qs Hq _ IH]; intros fuel st out Hf; (destruct fuel as [|fuel]; [simpl in Hf; lia|]).
  { cbn. eexists. split; [done|]. simpl. by rewrite app_nil_r. }
  cbn [fmap list_fmap concat answers]. rewrite serve_frame by done.
  destruct (handle q st) as [[resp|e|] st']; [|eexists; split; [done|]; simpl; by rewrite app_nil_r..].
  destruct (65535 <? zlen resp); [eexists; split; [done|]; simpl; by rewrite app_nil_r|].
  destruct (IH fuel st' (out ++ [frame resp])) as (s & E & Ho); [simpl in Hf; lia|].
  destruct (answers qs st') as [rs st'']. exists s. split; [exact E|]. cbn [fst] in *. rewrite Ho. cbn [fmap list_fmap].
  by rewrite <- app_assoc.
Qed.

Lemma readFull_shrinks n s b s' : 0 ≤ n → readFull n s = (Ok b, s') → length (input s) = (Z.to_nat n + length (input s'))%nat.
Proof.
  intros Hn. unfold readFull. destruct (Z.leb_spec n (zlen (input s))); [|done]. intros [= _ <-]. cbn [input].
  rewrite length_drop. unfold zlen in *. lia.
Qed.

(** The loop ends on every input: each round takes at least two bytes. *)
Lemma serve_terminates fuel st s : (length (input s) < fuel)%nat → is_Some (serveLocalDNSTCP fuel st s).
Proof.
  revert st s. induction fuel as [|fuel IH]; intros st s Hl; [lia|]. cbn [serveLocalDNSTCP].
  destruct (readFull 2 s) as [[lb|e|] s1] eqn:E1; [|by eexists..]. apply readFull_shrinks in E1; [|lia].
  destruct (Z.leb_spec (be16 (lb !!! 0%nat) (lb !!! 1%nat)) 0); [by eexists|].
  destruct (readFull (be16 _ _) s1) as [[p|e|] s2] eqn:E2; [|by eexists..]. apply readFull_shrinks in E2; [|lia].
  destruct (handle p st) as [[resp|e|] st']; [|by eexists..]. destruct (65535 <? zlen resp); [by eexists|].
  unfold send. destruct (wfail s2 (length (output s2))); [by eexists|]. apply IH. cbn [input]. lia.
Qed.

(** A client that sends DNS queries over TCP gets the framed answers of the
    hijacking resolver, in order, up to the first query it cannot answer; and
    the server returns on every input, framed or not. *)
Theorem dns_tcp_serves qs st out :
  Forall (λ q, 1 ≤ zlen q < 2 ^ 16) qs →
  (∃ s, serveLocalDNSTCP (Datatypes.S (length (concat (frame <$> qs)))) st (quietStream (concat (frame <$> qs)) out)
          = Some ((answers qs st).2, s) ∧ output s = out ++ (frame <$> (answers qs st).1)) ∧
  ∀ st s, is_Some (serveLocalDNSTCP (Datatypes.S (length (input s))) st s).
Proof.
  intros Hq. split; [|intros st' s; apply serve_terminates; lia]. apply serve_all; [done|].
  clear -Hq. induction Hq as [|q qs Hq _ IH]; [simpl; lia|]. cbn [fmap list_fmap concat length].
  rewrite length_app. unfold frame at 1. rewrite length_app. simpl. lia.
Qed.
End TCPDNS.

Lemma dns_tcp_serves_witness :
  let handle : bytes → stM nat bytes := λ q n, (if bool_decide (q = lit "bad") then fail "unpack" else Ok (q ++ lit "!"), S n) in
  ∃ s, serveLocalDNSTCP handle 17 0%nat (quietStream (concat (frame <$> [lit "ab"; lit "c"; lit "bad"; lit "d"])) [])
          = Some (3%nat, s) ∧ output s = [[0; 3; 97; 98; 33]; [0; 2; 99; 33]].
Proof.
  intros handle.
  destruct (dns_tcp_serves handle [lit "ab"; lit "c"; lit "bad"; lit "d"] 0%nat []) as [(s & E & Ho) _].
  - repeat constructor; vm_compute; discriminate || reflexivity.
  - exists s. split; [exact E|]. rewrite Ho. vm_compute. reflexivity.
Defined.

(** ** Dialling (lumine_proxy.go) *)

(** What the proxy keeps and does: the traffic counters, the targets dialled, the
    datagrams sent, and the answers put into the queue. *)
Record proxyState := mkProxy {
  px_stats : sessionStats;
  px_dials : list gostring;
  px_sent : list (bytes * (bytes * Z));
  px_replies : list (bytes * (bytes * Z));
}.

Definition pxStats (f : sessionStats → sessionStats) (s : proxyState) : proxyState :=
  mkProxy (f (px_stats s)) (px_dials s) (px_sent s) (px_replies s).
Definition pxDial (target : gostring) (s : proxyState) : proxyState :=
  mkProxy (px_stats s) (px_dials s ++ [target]) (px_sent s) (px_replies s).
Definition pxSend (b : bytes) (dst : bytes * Z) (s : proxyState) : proxyState :=
  mkProxy (px_stats s) (px_dials s) (px_sent s ++ [(b, dst)]) (px_replies s).
Definition pxReply (b : bytes) (src : bytes * Z) (s : proxyState) : proxyState :=
  mkProxy (px_stats s) (px_dials s) (px_sent s) (px_replies s ++ [(b, src)]).

(** What [DialContext] returns: the local resolver, the plain connection, or the
    bridge around it. *)
Inductive dialed :=
| DialedLocalDNS
| DialedPlain (c : conn)
| DialedBridge (plan : DialPlan) (c : tunPolicyConn).

(** A [net.Addr]: a UDP address (its bytes, empty for nil, and the port), or some
    other address, of which only the text is used. *)
Inductive netAddr := AddrUDP (ip : bytes) (port : Z) | AddrOther (text : gostring).

Definition netAddrString (a : netAddr) : gostring :=
  match a with
  | AddrUDP ip port => JoinHostPort (if bool_decide (ip = []) then [] else IPString ip) (itoa port)
  | AddrOther text => text
  end.

Section Proxy.
(** [PlanRequest], the dialer, [net.ResolveUDPAddr], the write on the socket and
    [HandleDNSQueryPacket]. *)
Context (planRequest : RequestContext → res DialPlan).
Context (dialTCP : gostring → Z → res conn).
Context (resolveUDPAddr : gostring → res (bytes * Z)).
Context (writeUDP : bytes → bytes * Z → res Z).
Context (handleDNS : bytes → res bytes).

Definition requestFor (host : gostring) (port : Z) : RequestContext := mkRequest "mobile_tun" host port ResolveDomainTarget.

Definition DialContext (dstIP : Addr) (dstPort : Z) : stM proxyState dialed :=
  match dstIP with
  | AddrInvalid => liftS (fail "invalid tcp metadata")
  | _ =>
      let originHost := AddrString dstIP in
      if IsVPNDNSAddress originHost dstPort then mret DialedLocalDNS
      else
        plan ← liftS (planRequest (requestFor originHost dstPort));
        if dp_blocked plan then
          modifyS (pxStats AddBlockedConn);;
          liftS (Err (errorString ("blocked by policy: " ++ originHost)))
        else
          let target := TargetAddress plan in
          modifyS (pxDial target);;
          c ← liftS (dialTCP target (DefaultDialTimeout (dp_policy plan)));
          modifyS (pxStats IncTCPConn);;
          match pMode (dp_policy plan) with
          | ModeTTLD => mret (DialedPlain c)
          | _ => mret (DialedBridge plan (WrapTCPConn c))
          end
  end.

(** [luminePacketConn.handleDNSQuery]: the answer goes into the queue, with the
    resolver's address as its source.  [closed]: the queue is closed. *)
Definition handleDNSPacket (closed : bool) (payload : bytes) (addr : bytes * Z) : stM proxyState Z :=
  resp ← liftS (handleDNS payload);
  if closed then liftS (fail "use of closed network connection")
  else modifyS (pxReply resp addr);; mret (zlen payload).

(** The destination of a datagram. *)
Definition udpDestination (addr : netAddr) : res (bytes * (bytes * Z)) :=
  udpAddr ← match addr with AddrUDP ip port => Ok (ip, port) | AddrOther text => resolveUDPAddr text end;
  let dstIP := match ParseAddrPort (netAddrString addr) with Some (a, _) => AsSlice a | None => udpAddr.1 end in
  Ok (dstIP, udpAddr).

Definition packetWriteTo (closed : bool) (b : bytes) (addr : netAddr) : stM proxyState Z :=
  '(dstIP, udpAddr) ← liftS (udpDestination addr);
  if bool_decide (dstIP = []) then liftS (Err (errorString ("invalid udp destination: " ++ netAddrString addr)))
  else if IsVPNDNSAddress (IPString dstIP) udpAddr.2 then handleDNSPacket closed b udpAddr
  else
    let originHost := IPString dstIP in
    plan ← liftS (planRequest (requestFor originHost udpAddr.2));
    if dp_blocked plan then
      modifyS (pxStats AddBlockedConn);;
      liftS (Err (errorString ("blocked by policy: " ++ originHost)))
    else
      dst ← liftS (resolveUDPAddr (TargetAddress plan));
      modifyS (pxSend b dst);;
      liftS (writeUDP b dst).

(** [directLuminePacketConn.WriteTo]: the address the socket is written to. *)
Definition directWriteTo (b : bytes) (addr : netAddr) : stM proxyState Z :=
  dst ← liftS (match addr with AddrUDP ip port => Ok (ip, port) | AddrOther text => resolveUDPAddr text end);
  modifyS (pxSend b dst);;
  liftS (writeUDP b dst).

(** [NewDirectPacketConn], of the error of listening, and [DialUDP]: [None] is
    nil metadata. *)
Definition NewDirectPacketConn (listen : option error) : option error := WithStr "listen udp" listen.

Definition DialUDP (listen : option error) (dstIP : option Addr) : stM proxyState queuedConn :=
  match dstIP with
  | None | Some AddrInvalid => liftS (fail "invalid udp metadata")
  | Some _ =>
      match NewDirectPacketConn listen with
      | Some e => liftS (Err e)
      | None => modifyS (pxStats IncUDPConn);; mret newQueuedPacketConn
      end
  end.

(** A UDP session is counted exactly when one is handed out, with an empty queue. *)
Lemma dial_udp_counts listen dstIP st r st' : DialUDP listen dstIP st = (r, st') →
  match r with
  | Ok q => q = newQueuedPacketConn ∧ st' = pxStats IncUDPConn st
  | Err _ => st' = st
  | Panic => False
  end.
Proof. unfold DialUDP, NewDirectPacketConn. destruct dstIP as [[]|], listen; by intros [= <- <-]. Qed.

(** A blocked plan is not dialled, on either transport. *)
Lemma dial_blocked dstIP dstPort plan st :
  dstIP ≠ AddrInvalid → IsVPNDNSAddress (AddrString dstIP) dstPort = false →
  planRequest (requestFor (AddrString dstIP) dstPort) = Ok plan → dp_blocked plan = true →
  DialContext dstIP dstPort st =
    (Err (errorString ("blocked by policy: " ++ AddrString dstIP)), pxStats AddBlockedConn st).
Proof.
  intros Hv Hdns Hp Hb. assert (DialContext dstIP dstPort st =
    (plan ← liftS (planRequest (requestFor (AddrString dstIP) dstPort));
     if dp_blocked plan then
       modifyS (pxStats AddBlockedConn);; liftS (Err (errorString ("blocked by policy: " ++ AddrString dstIP)))
     else
       modifyS (pxDial (TargetAddress plan));;
       c ← liftS (dialTCP (TargetAddress plan) (DefaultDialTimeout (dp_policy plan)));
       modifyS (pxStats IncTCPConn);;
       match pMode (dp_policy plan) with ModeTTLD => mret (DialedPlain c) | _ => mret (DialedBridge plan (WrapTCPConn c)) end) st) as ->.
  { unfold DialContext. rewrite Hdns. by destruct dstIP. }
  rewrite Hp. rewrite (bindS _ _ st plan st) by done. by rewrite Hb.
Qed.

Lemma send_blocked closed b ip port plan st a :
  ParseAddrPort (netAddrString (AddrUDP ip port)) = Some (a, port) → AsSlice a ≠ [] →
  IsVPNDNSAddress (IPString (AsSlice a)) port = false →
  planRequest (requestFor (IPString (AsSlice a)) port) = Ok plan → dp_blocked plan = true →
  packetWriteTo closed b (AddrUDP ip port) st =
    (Err (errorString ("blocked by policy: " ++ IPString (AsSlice a))), pxStats AddBlockedConn st).
Proof.
  intros Hparse Hne Hdns Hp Hb. unfold packetWriteTo.
  rewrite (bindS _ _ st (AsSlice a, (ip, port)) st) by (unfold udpDestination; cbn [mbind res_bind]; by rewrite Hparse).
  rewrite bool_decide_eq_false_2 by done. cbn [snd]. rewrite Hdns, Hp. rewrite (bindS _ _ st plan st) by done. by rewrite Hb.
Qed.

(** Queries to the tunnel's resolver never leave the device. *)
Lemma dns_stays_local closed b ip port st r st' a :
  ParseAddrPort (netAddrString (AddrUDP ip port)) = Some (a, port) → AsSlice a ≠ [] →
  IsVPNDNSAddress (IPString (AsSlice a)) port = true →
  packetWriteTo closed b (AddrUDP ip port) st = (r, st') →
  px_sent st' = px_sent st ∧ px_dials st' = px_dials st ∧
  (∀ resp, handleDNS b = Ok resp → closed = false → r = Ok (zlen b) ∧ px_replies st' = px_replies st ++ [(resp, (ip, port))]).
Proof.
  intros Hparse Hne Hdns. unfold packetWriteTo.
  rewrite (bindS _ _ st (AsSlice a, (ip, port)) st) by (unfold udpDestination; cbn [mbind res_bind]; by rewrite Hparse).
  rewrite bool_decide_eq_false_2 by done. cbn [snd]. rewrite Hdns. unfold handleDNSPacket.
  destruct (handleDNS b) as [resp|e|].
  - rewrite (bindS _ _ st resp st) by done. destruct closed.
    + intros [= <- <-]. done.
    + intros [= <- <-]. split_and!; [done|done|]. by intros ? [= <-] _.
  - intros [= <- <-]. by split_and!.
  - intros [= <- <-]. by split_and!.
Qed.
End Proxy.

(** C4: end to end, a domain with a [block] rule cannot be reached through the
    tunnel.  When an application's address query (A or AAAA) for a domain with a
    [block] rule, not the text of an address, is answered from a successful reply
    of the upstream, and it connects to the address of any record of the type it
    asked for, at any port, while the synthetic address is good (a minute, or as
    long as the first of these records may be kept), then [DialContext] refuses
    the connection, dials nothing and counts it as blocked. *)
Theorem blocked_domain_unreachable {W} `{GoUnicode} (t : Tables) (ask : upstream → Msg → W → res Msg * W)
    req q now (st st' : dnsState W) stores reply stores' rr a u pools dns dstIP dstPort dp dialTCP ps :
  programStores stores → intercepted t req q →
  handleDNSQuery t ask req now (st, stores) = (Ok reply, (st', stores')) → mRcode reply = RcodeSuccess →
  rr ∈ mAnswer reply → ofType (qType q) rr → rrAddr rr = Some a → u < answerDeadline (qType q) now (mAnswer reply) →
  dstIP ≠ AddrInvalid → AddrString dstIP = IPString a →
  isIPText (to_lower (queryDomain q)) = false →
  Domain.Find (domainMatcher t) (to_lower (queryDomain q)) = Some dp → pMode dp = ModeBlock →
  let plan := PlanRequest t pools dns (λ ip, (lookupFakeDomainByIP ip u stores').1) (λ ip, isFakeIPAddress ip stores') in
  ∃ e ps', DialContext plan dialTCP dstIP dstPort ps = (Err e, ps') ∧
    px_dials ps' = px_dials ps ∧ blocked (px_stats ps') = u64 (blocked (px_stats ps) + 1).
Proof.
  intros Hst Hint E Hrc Hrr Hty Ha Hu Hv Heq Hip Hf Hb plan.
  pose proof (hijacked_plan t ask req q now st st' stores reply stores' rr a u pools dns (requestFor (IPString a) dstPort)
    Hst Hint E Hrc Hrr Hty Ha Hu eq_refl) as Hplan. cbv zeta in Hplan.
  destruct (hijacked_address t ask req q now st st' stores reply stores' rr a u Hst Hint E Hrc Hrr Hty Ha Hu) as (Hst' & Hpool & _).
  pose proof (pool_not_resolver (qType q) stores' (IPString a) dstPort Hst' Hpool) as Hdns.
  destruct (planFor_block t pools dns (λ ip, isFakeIPAddress ip stores') (requestFor (IPString a) dstPort) (to_lower (queryDomain q))
    (to_lower (queryDomain q)) dp Hip Hf Hb) as (pl & Epl & Hbl).
  eexists _, _. split; [|split].
  - apply (dial_blocked plan dialTCP dstIP dstPort pl ps Hv); [by rewrite Heq| |done]. rewrite Heq. unfold plan. by rewrite Hplan.
  - done.
  - done.
Qed.

Definition demoBlockTables : Tables :=
  loadTables unsetPolicy [] [(lit "*.example.com", demoPolicy ModeBlock SniffOverrideUnset)] [] [] [].

Lemma demo_block_intercepted :
  @intercepted unicode_id demoBlockTables (demoQuery "www.Example.com.") (mkQuestion "www.Example.com." TypeA ClassINET).
Proof. split_and!; [done|done|by left|vm_compute; reflexivity]. Qed.

Lemma blocked_domain_unreachable_witness :
  ∃ stores' e ps',
    let plan := @PlanRequest unicode_id demoBlockTables noPools demoDNS (λ ip, (lookupFakeDomainByIP ip (299 * second) stores').1)
      (λ ip, isFakeIPAddress ip stores') in
    DialContext plan (λ _ _, Ok freshConn) (Addr4 0xc6120001) 443 (mkProxy (ResetStats 0) [] [] []) = (Err e, ps') ∧
    px_dials ps' = [] ∧ blocked (px_stats ps') = 1.
Proof.
  eexists.
  refine (@blocked_domain_unreachable nat unicode_id demoBlockTables demoHijackAsk (demoQuery "www.Example.com.")
            (mkQuestion "www.Example.com." TypeA ClassINET) 5 demoHijackState _ demoStores _ _
            (RR_A (mkHdr "cdn.net." TypeA ClassINET 300) [198; 18; 0; 1]) [198; 18; 0; 1] (299 * second) noPools demoDNS
            (Addr4 0xc6120001) 443 (demoPolicy ModeBlock SniffOverrideUnset) (λ _ _, Ok freshConn) (mkProxy (ResetStats 0) [] [] [])
            demoStores_ok demo_block_intercepted _ _ _ _ _ _ _ _ _ _ _).
  - vm_compute. reflexivity.
  - reflexivity.
  - cbn [mAnswer setAnswer]. apply elem_of_cons. right. apply elem_of_cons. by left.
  - reflexivity.
  - reflexivity.
  - vm_compute. reflexivity.
  - discriminate.
  - vm_compute. reflexivity.
  - vm_compute. reflexivity.
  - vm_compute. reflexivity.
  - reflexivity.
Defined.
