(* ===== verification/TunRelay.v ===== *)
(** * Relaying for the network stack (tun2socks/tunnel/udp.go, tunnel/statistic)

    UDP sessions of the packet engine: the filter that ties a session to one
    peer, the two copying loops with their idle timeouts, and the counters. *)

From S2P Require Import Prelude Errors Stream Netip Session.
Local Open Scope Z_scope.

(** ** One peer per session ([symmetricNATPacketConn]) *)

(** Where a datagram comes from: nothing known, a UDP address, or another kind of
    address, of which the text counts. *)
Inductive source := FromNil | FromUDP (ip : bytes) (port : Z) | FromOther (text : gostring).

#[global] Instance source_eq_dec : EqDecision source.
Proof. solve_decision. Defined.

(** [net.IP.Equal]: an IPv4 address and the IPv6 address that maps it are equal. *)
Definition mappedPrefix : bytes := replicate 10 0 ++ [255; 255].

Definition IPEqual (a b : bytes) : bool :=
  if zlen a =? zlen b then bool_decide (a = b)
  else if (zlen a =? 4) && (zlen b =? 16) then bool_decide (take 12 b = mappedPrefix) && bool_decide (a = drop 12 b)
  else if (zlen a =? 16) && (zlen b =? 4) then bool_decide (take 12 a = mappedPrefix) && bool_decide (drop 12 a = b)
  else false.

Record natConn := mkNAT {
  nat_dst : gostring;
  nat_dstPort : Z;
  nat_learned : option (bytes * Z);
}.

(** Does the filter let a datagram through, and the peer it then knows. *)
Definition natAccepts (c : natConn) (from : source) : bool * natConn :=
  match from with
  | FromNil => (true, c)
  | FromUDP ip port =>
      if negb (port =? nat_dstPort c) then (false, c)
      else
        match nat_learned c with
        | None => (true, mkNAT (nat_dst c) (nat_dstPort c) (Some (ip, port)))
        | Some (lip, lport) => (IPEqual lip ip && (lport =? port), c)
        end
  | FromOther text => (bool_decide (text = nat_dst c), c)
  end.

(** What the socket delivers: datagrams, and in the end an error. *)
Inductive arrival := Datagram (b : bytes) (from : source) | ReadError (e : error).

(** [ReadFrom]: drop until something is let through; the arrivals left over, or
    [None] while it waits for more. *)
Fixpoint natReadFrom (c : natConn) (arrivals : list arrival) : option (arrival * natConn * list arrival) :=
  match arrivals with
  | [] => None
  | ReadError e :: rest => Some (ReadError e, c, rest)
  | Datagram b from :: rest =>
      match natAccepts c from with
      | (true, c') => Some (Datagram b from, c', rest)
      | (false, c') => natReadFrom c' rest
      end
  end.

(** Read until nothing more comes, at most [fuel] times. *)
Fixpoint natReadAll (fuel : nat) (c : natConn) (arrivals : list arrival) : list arrival :=
  match fuel with
  | O => []
  | S fuel' =>
      match natReadFrom c arrivals with
      | None => []
      | Some (a, c', rest) => a :: natReadAll fuel' c' rest
      end
  end.

(** Two UDP sources are the same peer. *)
Definition samePeer (p : bytes * Z) (from : source) : bool :=
  match from with
  | FromUDP ip port => IPEqual p.1 ip && (p.2 =? port)
  | _ => true
  end.

Definition udpSources (l : list arrival) : list (bytes * Z) :=
  omap (λ a, match a with Datagram _ (FromUDP ip port) => Some (ip, port) | _ => None end) l.

Lemma natReadFrom_shrinks c l a c' rest : natReadFrom c l = Some (a, c', rest) → (length rest < length l)%nat.
Proof.
  revert c. induction l as [|[b from|e] l IH]; intros c; cbn [natReadFrom]; [done| |].
  - destruct (natAccepts c from) as [[] c1]; [intros [= <- <- <-]; simpl; lia|]. intros H%IH. simpl. lia.
  - intros [= <- <- <-]. simpl. lia.
Qed.

(** A read keeps the locked peer, and what it returns comes from it. *)
Lemma natReadFrom_locked c l a c' rest lip lport :
  nat_learned c = Some (lip, lport) → natReadFrom c l = Some (a, c', rest) →
  c' = c ∧ ∀ b ip port, a = Datagram b (FromUDP ip port) → IPEqual lip ip = true ∧ lport = port ∧ port = nat_dstPort c.
Proof.
  intros Hl. induction l as [|[b from|e] l IH]; cbn [natReadFrom]; [done| |].
  - destruct (natAccepts c from) as [ok c1] eqn:E. assert (c1 = c) as ->.
    { destruct from; cbn in E; rewrite ?Hl in E; repeat case_match; by simplify_eq. }
    destruct ok; [|by apply IH]. intros [= <- <- <-]. split; [done|]. intros b' ip port [= _ ->]. cbn in E. rewrite Hl in E.
    destruct (Z.eqb_spec port (nat_dstPort c)); cbn [negb] in E; [|done]. injection E as [? ?%Z.eqb_eq]%andb_prop. auto.
  - intros [= <- <- <-]. split; [done|]. by intros.
Qed.

Lemma natReadAll_locked fuel c l lip lport : nat_learned c = Some (lip, lport) →
  Forall (λ p, IPEqual lip p.1 = true ∧ lport = p.2 ∧ p.2 = nat_dstPort c) (udpSources (natReadAll fuel c l)).
Proof.
  intros Hl. revert l. induction fuel as [|fuel IH]; intros l; [constructor|]. cbn [natReadAll].
  destruct (natReadFrom c l) as [[[a c'] rest]|] eqn:E; [|constructor].
  destruct (natReadFrom_locked c l a c' rest lip lport Hl E) as [-> Ha].
  destruct a as [b [|ip port|text]|e]; unfold udpSources; cbn [omap list_omap]; try apply IH.
  constructor; [by eapply Ha|apply IH].
Qed.

(** The first read that returns a UDP datagram locks the session to its source. *)
Lemma natReadFrom_learns c l a c' rest :
  nat_learned c = None → natReadFrom c l = Some (a, c', rest) →
  match a with
  | Datagram _ (FromUDP ip port) => c' = mkNAT (nat_dst c) (nat_dstPort c) (Some (ip, port)) ∧ port = nat_dstPort c
  | _ => c' = c
  end.
Proof.
  intros Hl. induction l as [|[b from|e] l IH]; cbn [natReadFrom]; [done| |by intros [= <- <- <-]].
  destruct from as [|ip port|text]; cbn [natAccepts].
  - by intros [= <- <- <-].
  - destruct (Z.eqb_spec port (nat_dstPort c)); cbn [negb]; [|by apply IH]. rewrite Hl. by intros [= <- <- <-].
  - case_bool_decide; [by intros [= <- <- <-]|by apply IH].
Qed.

(** A UDP session has one peer: whatever arrives at its socket, all the
    datagrams from UDP addresses that are let through have the destination's
    port and the address of the first of them. *)
Theorem nat_single_peer fuel dst port arrivals ip0 port0 rest :
  udpSources (natReadAll fuel (mkNAT dst port None) arrivals) = (ip0, port0) :: rest →
  port0 = port ∧ Forall (λ p, IPEqual ip0 p.1 = true ∧ p.2 = port) rest.
Proof.
  revert arrivals. induction fuel as [|fuel IH]; intros arrivals; [done|]. cbn [natReadAll].
  destruct (natReadFrom (mkNAT dst port None) arrivals) as [[[a c'] rest']|] eqn:E; [|done].
  pose proof (natReadFrom_learns (mkNAT dst port None) _ _ _ _ eq_refl E) as Hc.
  destruct a as [b [|ip p|text]|e]; unfold udpSources; cbn [omap list_omap].
  - subst c'. apply IH.
  - destruct Hc as [-> Hp]. cbn in Hp. intros [= <- <- <-]. split; [done|].
    eapply Forall_impl; [apply (natReadAll_locked fuel (mkNAT dst port (Some (ip, p))) rest' ip p); done|].
    intros [ip1 p1] (? & ? & ?). done.
  - subst c'. apply IH.
  - subst c'. apply IH.
Qed.

Definition demoArrivals : list arrival :=
  [Datagram (lit "x") (FromUDP [9; 9; 9; 9] 54); Datagram (lit "a") (FromUDP [1; 1; 1; 1] 53);
   Datagram (lit "b") (FromUDP [2; 2; 2; 2] 53); Datagram (lit "c") (FromUDP (mappedPrefix ++ [1; 1; 1; 1]) 53)].

Lemma nat_single_peer_witness :
  udpSources (natReadAll 5 (mkNAT "1.1.1.1:53" 53 None) demoArrivals) = [([1; 1; 1; 1], 53); (mappedPrefix ++ [1; 1; 1; 1], 53)] ∧
  53 = 53 ∧ Forall (λ p, IPEqual [1; 1; 1; 1] p.1 = true ∧ p.2 = 53) [(mappedPrefix ++ [1; 1; 1; 1], 53)].
Proof.
  split; [vm_compute; reflexivity|].
  apply (nat_single_peer 5 "1.1.1.1:53" 53 demoArrivals). vm_compute. reflexivity.
Defined.

(** ** The copying loops ([copyPacketData])

    Time is in nanoseconds, and timeouts are far below the point where three of
    them overflow an int64.  A read with a deadline returns a datagram or an
    error, or times out at its deadline; [ev_peer] is the time of the last packet
    in the other direction, as the loop finds it after a timeout. *)

Definition udpOriginIdleCap : Z := 3.

Inductive relayEvent :=
| RelayPacket (at_ : Z) (b : bytes) (writeErr : option error)
| RelayTimeout (peerLast : Z)
| RelayError (at_ : Z) (e : error).

Inductive relayEnd := EndIdle | EndEOF | EndCap | EndError (e : error).

Definition relayDeadline (originDir : bool) (timeout now selfLast : Z) : Z :=
  if originDir then Z.min (now + timeout) (selfLast + timeout * udpOriginIdleCap) else now + timeout.

(** The loop: how and when it ends, with the datagrams written; [None] while it
    is still running when the events are over.  [selfLast] is the time of the
    last packet of the loop's own direction. *)
Fixpoint copyPacketData (originDir : bool) (timeout now selfLast : Z) (evs : list relayEvent)
    : list bytes * option (relayEnd * Z) :=
  match evs with
  | [] => ([], None)
  | RelayPacket t b err :: evs' =>
      match err with
      | Some e => ([b], Some (EndError e, t))
      | None => let '(out, r) := copyPacketData originDir timeout t t evs' in (b :: out, r)
      end
  | RelayError t e :: _ => ([], Some (if isEOF e then EndEOF else EndError e, t))
  | RelayTimeout peerLast :: evs' =>
      let now := Z.max now (relayDeadline originDir timeout now selfLast) in
      if originDir && (selfLast + timeout * udpOriginIdleCap <=? now) then ([], Some (EndCap, now))
      else if peerLast + timeout <? now then ([], Some (EndIdle, now))
      else copyPacketData originDir timeout now selfLast evs'
  end.

Definition isTimeout (ev : relayEvent) : bool := match ev with RelayTimeout _ => true | _ => false end.

(** The reads of an origin that has gone silent: after [k] more timeouts the loop
    has reached the cap. *)
Lemma idle_origin timeout now last evs (k : nat) :
  0 < timeout → last ≤ now ≤ last + timeout * 3 → last + timeout * 3 ≤ now + timeout * Z.of_nat k →
  (k ≤ length evs)%nat → (0 < k)%nat → Forall (λ ev, isTimeout ev = true) (take k evs) →
  ∃ r at_, copyPacketData true timeout now last evs = ([], Some (r, at_)) ∧ at_ ≤ last + timeout * 3 ∧ (r = EndCap ∨ r = EndIdle).
Proof.
  intros Ht. revert now evs. induction k as [|k IH]; intros now evs Hn Hk Hl Hpos Hf; [lia|].
  destruct evs as [|[t b err|peer|t e] evs]; [simpl in Hl; lia| | |]; cbn [take] in Hf; apply Forall_cons in Hf as [Hev Hf]; try done.
  cbn [copyPacketData andb]. unfold relayDeadline, udpOriginIdleCap.
  set (now' := Z.max now (Z.min (now + timeout) (last + timeout * 3))).
  destruct (Z.leb_spec (last + timeout * 3) now'); [eexists EndCap, now'; split; [done|]; split; [lia|by left]|].
  destruct (Z.ltb_spec (peer + timeout) now'); [eexists EndIdle, now'; split; [done|]; split; [lia|by right]|].
  assert (now' = now + timeout) as Hn' by lia. destruct k as [|k]; [lia|].
  apply IH; [lia|lia|simpl in Hl; lia|lia|done].
Qed.

(** A UDP session ends.  Once the origin is silent, its copying loop returns
    within three timeouts of the last packet (and then closes both sockets),
    after at most three reads, however busy the remote side keeps the session. *)
Theorem udp_session_bounded timeout last evs :
  0 < timeout → (3 ≤ length evs)%nat → Forall (λ ev, isTimeout ev = true) (take 3 evs) →
  ∃ r at_, copyPacketData true timeout last last evs = ([], Some (r, at_)) ∧ at_ ≤ last + 3 * timeout ∧ (r = EndCap ∨ r = EndIdle).
Proof.
  intros Ht Hl Hf. destruct (idle_origin timeout last last evs 3) as (r & at_ & E & Ha & Hr); [lia..|done|].
  exists r, at_. split_and!; [done|lia|done].
Qed.

(** A remote that never stops: the session still ends after three minutes. *)
Lemma udp_session_bounded_witness :
  let s := 10 ^ 9 in
  copyPacketData true (60 * s) 0 0 [RelayTimeout (59 * s); RelayTimeout (119 * s); RelayTimeout (179 * s)] = ([], Some (EndCap, 180 * s)) ∧
  ∃ r at_, copyPacketData true (60 * s) 0 0 [RelayTimeout (59 * s); RelayTimeout (119 * s); RelayTimeout (179 * s)] = ([], Some (r, at_)) ∧
    at_ ≤ 0 + 3 * (60 * s) ∧ (r = EndCap ∨ r = EndIdle).
Proof.
  cbv zeta. split; [vm_compute; reflexivity|].
  apply (udp_session_bounded (60 * 10 ^ 9) 0 [RelayTimeout (59 * 10 ^ 9); RelayTimeout (119 * 10 ^ 9); RelayTimeout (179 * 10 ^ 9)]);
    [lia|simpl; lia|repeat constructor].
Defined.

(** ** Statistics (tunnel/statistic)

    Trackers count what passes through a connection, in their own totals and in
    the manager's; a ticker moves the manager's running counts into the rates
    that are shown.  Every counter is an atomic int64. *)

Record tracker := mkTracker { tr_up : Z; tr_down : Z }.

Record manager := mkManager {
  mg_connections : gmap Z tracker;
  mg_upTemp : Z;
  mg_downTemp : Z;
  mg_upBlip : Z;
  mg_downBlip : Z;
  mg_upTotal : Z;
  mg_downTotal : Z;
}.

Definition NewManager : manager := mkManager ∅ 0 0 0 0 0 0.

(** [NewTCPTracker] and [NewUDPTracker]; [id] is the fresh UUID. *)
Definition Join (id : Z) (m : manager) : manager :=
  mkManager (<[id := mkTracker 0 0]> (mg_connections m)) (mg_upTemp m) (mg_downTemp m) (mg_upBlip m) (mg_downBlip m) (mg_upTotal m) (mg_downTotal m).

Definition Leave (id : Z) (m : manager) : manager :=
  mkManager (delete id (mg_connections m)) (mg_upTemp m) (mg_downTemp m) (mg_upBlip m) (mg_downBlip m) (mg_upTotal m) (mg_downTotal m).

Definition PushUploaded (size : Z) (m : manager) : manager :=
  mkManager (mg_connections m) (i64 (mg_upTemp m + size)) (mg_downTemp m) (mg_upBlip m) (mg_downBlip m) (i64 (mg_upTotal m + size)) (mg_downTotal m).

Definition PushDownloaded (size : Z) (m : manager) : manager :=
  mkManager (mg_connections m) (mg_upTemp m) (i64 (mg_downTemp m + size)) (mg_upBlip m) (mg_downBlip m) (mg_upTotal m) (i64 (mg_downTotal m + size)).

(** What a tracker does after a write or a read of [n] bytes. *)
Definition trackWrite (id n : Z) (m : manager) : manager :=
  let m := PushUploaded n m in
  mkManager (alter (λ tr, mkTracker (i64 (tr_up tr + n)) (tr_down tr)) id (mg_connections m))
    (mg_upTemp m) (mg_downTemp m) (mg_upBlip m) (mg_downBlip m) (mg_upTotal m) (mg_downTotal m).

Definition trackRead (id n : Z) (m : manager) : manager :=
  let m := PushDownloaded n m in
  mkManager (alter (λ tr, mkTracker (tr_up tr) (i64 (tr_down tr + n))) id (mg_connections m))
    (mg_upTemp m) (mg_downTemp m) (mg_upBlip m) (mg_downBlip m) (mg_upTotal m) (mg_downTotal m).

(** The ticker's two atomic steps for one direction: show the count, then clear it. *)
Definition tickUpShow (m : manager) : manager :=
  mkManager (mg_connections m) (mg_upTemp m) (mg_downTemp m) (mg_upTemp m) (mg_downBlip m) (mg_upTotal m) (mg_downTotal m).
Definition tickUpClear (m : manager) : manager :=
  mkManager (mg_connections m) 0 (mg_downTemp m) (mg_upBlip m) (mg_downBlip m) (mg_upTotal m) (mg_downTotal m).
Definition tickDownShow (m : manager) : manager :=
  mkManager (mg_connections m) (mg_upTemp m) (mg_downTemp m) (mg_upBlip m) (mg_downTemp m) (mg_upTotal m) (mg_downTotal m).
Definition tickDownClear (m : manager) : manager :=
  mkManager (mg_connections m) (mg_upTemp m) 0 (mg_upBlip m) (mg_downBlip m) (mg_upTotal m) (mg_downTotal m).

Definition handleTick (m : manager) : manager := tickDownClear (tickDownShow (tickUpClear (tickUpShow m))).

Definition ResetStatistic (m : manager) : manager := mkManager (mg_connections m) 0 0 0 0 0 0.

Inductive managerOp :=
| MgJoin (id : Z) | MgLeave (id : Z) | MgWrite (id n : Z) | MgRead (id n : Z)
| MgUpShow | MgUpClear | MgDownShow | MgDownClear.

Definition managerStep (m : manager) (op : managerOp) : manager :=
  match op with
  | MgJoin id => Join id m
  | MgLeave id => Leave id m
  | MgWrite id n => trackWrite id n m
  | MgRead id n => trackRead id n m
  | MgUpShow => tickUpShow m
  | MgUpClear => tickUpClear m
  | MgDownShow => tickDownShow m
  | MgDownClear => tickDownClear m
  end.

Definition sumOver (f : managerOp → Z) (ops : list managerOp) : Z := foldr (λ op acc, f op + acc) 0 ops.
Definition written (op : managerOp) : Z := match op with MgWrite _ n => n | _ => 0 end.
Definition readBytes (op : managerOp) : Z := match op with MgRead _ n => n | _ => 0 end.

Lemma i64_add a b : i64 (i64 a + b) = i64 (a + b).
Proof.
  unfold i64. replace ((a + 2 ^ 63) mod 2 ^ 64 - 2 ^ 63 + b + 2 ^ 63) with ((a + 2 ^ 63) mod 2 ^ 64 + b) by lia.
  rewrite Zplus_mod_idemp_l. do 2 f_equal. lia.
Qed.

(** In every interleaving with the ticker the totals are exact (modulo 2^64). *)
Lemma manager_totals ops m :
  mg_upTotal m = i64 (mg_upTotal m) → mg_downTotal m = i64 (mg_downTotal m) →
  mg_upTotal (foldl managerStep m ops) = i64 (mg_upTotal m + sumOver written ops) ∧
  mg_downTotal (foldl managerStep m ops) = i64 (mg_downTotal m + sumOver readBytes ops).
Proof.
  revert m. induction ops as [|op ops IH]; intros m Hu Hd.
  { cbn. rewrite !Z.add_0_r. by split. }
  cbn [foldl]. destruct (IH (managerStep m op)) as [E1 E2].
  - destruct op; cbn; try done; rewrite <- (Z.add_0_r (i64 _)) at 2; by rewrite i64_add, Z.add_0_r.
  - destruct op; cbn; try done; rewrite <- (Z.add_0_r (i64 _)) at 2; by rewrite i64_add, Z.add_0_r.
  - rewrite E1, E2. cbn [sumOver foldr]. fold (sumOver written ops) (sumOver readBytes ops).
    destruct op; cbn; rewrite ?i64_add; split; f_equal; lia.
Qed.

(** Bytes counted between the two steps of a tick are in no rate. *)
Lemma tick_loses_bytes id n m :
  let m' := foldl managerStep m [MgUpShow; MgWrite id n; MgUpClear] in
  mg_upBlip m' = mg_upTemp m ∧ mg_upTemp m' = 0.
Proof. done. Qed.
