(* ===== verification/Statistic.v ===== *)
(** * Trackers and the global tunnel (tun2socks/tunnel/statistic, tunnel/global.go, tunnel/tunnel.go)

    The connections the tunnel relays are wrapped by trackers that report every
    read and write to the manager of [TunRelay] and leave it when they are closed.
    The connection below is an argument: what each of its calls does. *)

From S2P Require Import Prelude Errors TunRelay.
Local Open Scope Z_scope.

(** ** The connection below *)

(** The calls the tracker forwards; a half-close may not be implemented. *)
Record connOps (C : Type) := mkConnOps {
  opRead : Z → C → (Z * option error) * C;
  opWrite : bytes → C → (Z * option error) * C;
  opClose : C → option error * C;
  opCloseRead : option (C → option error * C);
  opCloseWrite : option (C → option error * C);
}.
Arguments mkConnOps {_}.
Arguments opRead {_}.
Arguments opWrite {_}.
Arguments opClose {_}.
Arguments opCloseRead {_}.
Arguments opCloseWrite {_}.

(** A call on a connection, and what it returned. *)
Inductive connCall := CallRead (len : Z) | CallWrite (b : bytes) | CallClose | CallCloseRead | CallCloseWrite.
Inductive connResult := Count (n : Z) (e : option error) | Done (e : option error).

Section Tracker.
Context {C : Type} (ops : connOps C).

Definition halfClose (name : gostring) (f : option (C → option error * C)) (c : C) : option error * C :=
  match f with Some f => f c | None => (Some (errorString (name ++ " is not implemented")), c) end.

(** The connection itself, with a half-close it lacks refused. *)
Definition connStep (call : connCall) (c : C) : connResult * C :=
  match call with
  | CallRead len => let '((n, e), c) := opRead ops len c in (Count n e, c)
  | CallWrite b => let '((n, e), c) := opWrite ops b c in (Count n e, c)
  | CallClose => let '(e, c) := opClose ops c in (Done e, c)
  | CallCloseRead => let '(e, c) := halfClose "CloseRead" (opCloseRead ops) c in (Done e, c)
  | CallCloseWrite => let '(e, c) := halfClose "CloseWrite" (opCloseWrite ops) c in (Done e, c)
  end.

(** *** tcpTracker *)

(** [NewTCPTracker]; [id] is the identifier drawn for it. *)
Definition NewTCPTracker (id : Z) (c : C) (m : manager) : C * manager := (c, Join id m).

Definition tcpRead (id len : Z) (s : C * manager) : (Z * option error) * (C * manager) :=
  let '((n, e), c) := opRead ops len s.1 in ((n, e), (c, trackRead id n s.2)).

Definition tcpWrite (id : Z) (b : bytes) (s : C * manager) : (Z * option error) * (C * manager) :=
  let '((n, e), c) := opWrite ops b s.1 in ((n, e), (c, trackWrite id n s.2)).

Definition tcpClose (id : Z) (s : C * manager) : option error * (C * manager) :=
  let m := Leave id s.2 in
  let '(e, c) := opClose ops s.1 in (e, (c, m)).

Definition tcpCloseRead (s : C * manager) : option error * (C * manager) :=
  let '(e, c) := halfClose "CloseRead" (opCloseRead ops) s.1 in (e, (c, s.2)).

Definition tcpCloseWrite (s : C * manager) : option error * (C * manager) :=
  let '(e, c) := halfClose "CloseWrite" (opCloseWrite ops) s.1 in (e, (c, s.2)).

Definition trackerStep (id : Z) (call : connCall) (s : C * manager) : connResult * (C * manager) :=
  match call with
  | CallRead len => let '((n, e), s) := tcpRead id len s in (Count n e, s)
  | CallWrite b => let '((n, e), s) := tcpWrite id b s in (Count n e, s)
  | CallClose => let '(e, s) := tcpClose id s in (Done e, s)
  | CallCloseRead => let '(e, s) := tcpCloseRead s in (Done e, s)
  | CallCloseWrite => let '(e, s) := tcpCloseWrite s in (Done e, s)
  end.

(** A sequence of calls and its results. *)
Fixpoint runCalls {S} (step : connCall → S → connResult * S) (calls : list connCall) (s : S) : list connResult * S :=
  match calls with
  | [] => ([], s)
  | call :: calls =>
      let '(r, s) := step call s in
      let '(rs, s) := runCalls step calls s in (r :: rs, s)
  end.

(** What the manager sees of a call with its result. *)
Definition reported (id : Z) (call : connCall) (r : connResult) : list managerOp :=
  match call, r with
  | CallRead _, Count n _ => [MgRead id n]
  | CallWrite _, Count n _ => [MgWrite id n]
  | CallClose, _ => [MgLeave id]
  | _, _ => []
  end.

Definition reports (id : Z) (calls : list connCall) (rs : list connResult) : list managerOp :=
  concat (zip_with (reported id) calls rs).

Lemma trackerStep_spec id call s :
  trackerStep id call s =
  let '(r, c) := connStep call s.1 in (r, (c, foldl managerStep s.2 (reported id call r))).
Proof.
  destruct s as [c m], call; cbn; unfold tcpRead, tcpWrite, tcpClose, tcpCloseRead, tcpCloseWrite; cbn.
  - by destruct (opRead ops len c) as [[n e] c'].
  - by destruct (opWrite ops b c) as [[n e] c'].
  - by destruct (opClose ops c) as [e c'].
  - by destruct (halfClose _ _ c) as [e c'].
  - by destruct (halfClose _ _ c) as [e c'].
Qed.

(** A tracker is transparent: whatever sequence of calls is made, each returns
    what the connection below returns and does to it the same, and the manager
    sees exactly the counts that were returned. *)
Theorem tracker_transparent id calls s :
  let '(rs, c) := runCalls connStep calls s.1 in
  runCalls (trackerStep id) calls s = (rs, (c, foldl managerStep s.2 (reports id calls rs))).
Proof.
  revert s. induction calls as [|call calls IH]; intros s; [by destruct s|].
  cbn [runCalls]. rewrite trackerStep_spec. destruct (connStep call s.1) as [r c].
  specialize (IH (c, foldl managerStep s.2 (reported id call r))). cbn [fst snd] in IH.
  destruct (runCalls connStep calls c) as [rs c']. rewrite IH. unfold reports. cbn [zip_with concat].
  by rewrite foldl_app.
Qed.

(** A tracker that was closed is not listed any more. *)
Lemma closed_not_listed id s e s' : tcpClose id s = (e, s') → mg_connections s'.2 !! id = None.
Proof. unfold tcpClose. destruct (opClose ops s.1) as [e0 c]. intros [= <- <-]. cbn. apply lookup_delete_eq. Qed.
End Tracker.

(** *** udpTracker: the same over packets *)

Section UDPTracker.
Context {C A : Type} (readFrom : Z → C → (Z * A * option error) * C) (writeTo : bytes → A → C → (Z * option error) * C)
  (close : C → option error * C).

Definition NewUDPTracker (id : Z) (c : C) (m : manager) : C * manager := (c, Join id m).

Definition udpReadFrom (id len : Z) (s : C * manager) : (Z * A * option error) * (C * manager) :=
  let '((n, a, e), c) := readFrom len s.1 in ((n, a, e), (c, trackRead id n s.2)).

Definition udpWriteTo (id : Z) (b : bytes) (a : A) (s : C * manager) : (Z * option error) * (C * manager) :=
  let '((n, e), c) := writeTo b a s.1 in ((n, e), (c, trackWrite id n s.2)).

Definition udpClose (id : Z) (s : C * manager) : option error * (C * manager) :=
  let m := Leave id s.2 in
  let '(e, c) := close s.1 in (e, (c, m)).
End UDPTracker.

(** ** The manager's loop *)

(** [Manager.Now] *)
Definition Now (m : manager) : Z * Z := (mg_upBlip m, mg_downBlip m).

(** [Manager.handle]: a tick of the clock or the end. *)
Inductive managerEvent := Tick | DoneClosed.

Fixpoint handle (events : list managerEvent) (m : manager) : manager :=
  match events with
  | [] | DoneClosed :: _ => m
  | Tick :: events => handle events (handleTick m)
  end.

(** [Manager.Close]: the channel is closed once, however often it is called. *)
Record managerLife := mkLife { lfOnce : bool; lfClosed : nat }.
Definition managerClose (l : managerLife) : managerLife := if lfOnce l then l else mkLife true (S (lfClosed l)).

(** Closing a closed channel would panic: it is closed at most once. *)
Lemma manager_closed_once n : lfClosed (Nat.iter (S n) managerClose (mkLife false 0)) = 1%nat.
Proof.
  assert (Nat.iter (S n) managerClose (mkLife false 0) = mkLife true 1) as ->; [|done].
  induction n as [|n IH]; [done|]. cbn [Nat.iter nat_rect] in *. by rewrite IH.
Qed.

(** The rates of a tick are what was counted since the last one, and a tick
    without traffic after it shows zero. *)
Lemma rates_per_tick m : Now (handle [Tick] m) = (mg_upTemp m, mg_downTemp m) ∧ Now (handle [Tick; Tick] m) = (0, 0).
Proof. done. Qed.

(** ** The tunnel and the global one (tunnel.go, global.go) *)

Definition udpSessionTimeout : Z := 60 * 1000000000.

(** The settings of a tunnel that can be changed while it runs. *)
Record tunnel (D : Type) := mkTunnel { tnUDPTimeout : Z; tnDialer : D }.
Arguments mkTunnel {_}.
Arguments tnUDPTimeout {_}.
Arguments tnDialer {_}.

Definition newTunnel {D} (dialer : D) : tunnel D := mkTunnel udpSessionTimeout dialer.
Definition Dialer {D} (t : tunnel D) : D := tnDialer t.

(** [_globalT] is a pointer; [ReplaceGlobal] returns the function that restores
    the one before, here the pointer it captured. *)
Definition T (g : option nat) : option nat := g.
Definition ReplaceGlobal (t : option nat) (g : option nat) : option nat * option nat := (g, t).
Definition restoreGlobal (prev g : option nat) : option nat := (ReplaceGlobal prev g).2.

(** Replacements undone in the opposite order leave the tunnel of before. *)
Lemma replaced_and_restored ts g :
  foldr (λ t (k : option nat → option nat) g, let '(prev, g) := ReplaceGlobal t g in restoreGlobal prev (k g)) id ts g = g.
Proof. revert g. induction ts as [|t ts IH]; intros g; [done|]. done. Qed.
