(* ===== verification/TunTcp.v ===== *)
(** * The tunnel of the packet engine (tun2socks/tunnel)

    Connections of the network stack are handed to the tunnel, which dials the
    proxy and copies both ways until both sides are done.  The goroutines are
    steps of a relation: the hand-over through the queue and the copying of the
    two directions are interleaved in every possible way. *)

From S2P Require Import Prelude Errors Netip FakeIP IPPool Dns Stream NetConn Socks5 ProxyConn TunProxy TunRelay.
Local Open Scope Z_scope.

(** ** Addresses (addr.go) *)

(** A [net.Addr]: nil, one that knows its address and port, or only a text. *)
Inductive localAddr := LNil | LAddrPort (a : Addr) (port : Z) | LText (s : gostring).

Definition parseAddrString (s : gostring) : Addr * Z :=
  match ParseAddrPort s with
  | Some (a, port) => (a, port)
  | None => (AddrInvalid, 0)
  end.

Definition parseNetAddr (addr : localAddr) : Addr * Z :=
  match addr with
  | LNil => (AddrInvalid, 0)
  | LAddrPort a port => (a, port)
  | LText s => parseAddrString s
  end.

Definition parseTCPIPAddress (b : bytes) : Addr := default AddrInvalid (AddrFromSlice b).

(** [stack.TransportEndpointID] *)
Record endpointID := mkEndpointID {
  idLocalPort : Z;
  idLocalAddress : bytes;
  idRemotePort : Z;
  idRemoteAddress : bytes;
}.

(** The metadata of a session: the local end of the endpoint is where the
    application wanted to go. *)
Definition sessionMetadata (net : network) (id : endpointID) (mid : Addr * Z) : Metadata :=
  mkMetadata net (parseTCPIPAddress (idRemoteAddress id)) mid.1 (parseTCPIPAddress (idLocalAddress id))
    (idRemotePort id) mid.2 (idLocalPort id).

(** ** Copying (tcp.go) *)

Definition RelayBufferSize : Z := 20 * 1024.

(** How long the other direction may go on when one has ended. *)
Definition tcpWaitTimeout : Z := 60 * second.

(** Where a copying goroutine is: about to read, about to write what it read
    (with the error that came with it), or done, since when and whether the read
    deadline ended it. *)
Inductive copier := Reading | Writing (b : bytes) (er : option error) | Finished (since : Z) (cut : bool).

Definition isFinished (c : copier) : bool := match c with Finished _ _ => true | _ => false end.

(** [pipe]: the two connections and the two goroutines; [half] says which sides
    were closed for writing.  The remote side is tracked under [id]. *)
Record pipeState := mkPipe {
  pOrigin : netConn;
  pRemote : netConn;
  pUp : copier;
  pDown : copier;
  pHalfRemote : bool;
  pHalfOrigin : bool;
  pManager : manager;
  pNow : Z;
}.

(** After a [Read]: write what came; without bytes go on, or end with the error. *)
Definition afterRead (now : Z) (b : bytes) (er : option error) : copier :=
  if 0 <? zlen b then Writing b er else match er with Some _ => Finished now false | None => Reading end.

(** After a [Write]: a failed write ends the copy, and so does the error that
    came with the bytes. *)
Definition afterWrite (now : Z) (ew er : option error) : copier :=
  match ew, er with None, None => Reading | _, _ => Finished now false end.

(** The goroutine of the other direction, when it ends, sets the read deadline of
    the connection this one reads from. *)
Definition readDeadline (other : copier) : option Z :=
  match other with Finished since _ => Some (since + tcpWaitTimeout) | _ => None end.

Definition inTime (now : Z) (deadline : option Z) : Prop := ∀ d, deadline = Some d → now < d.

Section Pipe.
(** The session, and whether the remote and the origin have a [CloseWrite]. *)
Context (id : Z) (canRemote canOrigin : bool).

(** The half-close at the end of a direction, where the connection can do it. *)
Definition closesWrite (can : bool) (c : copier) : bool := can && isFinished c.

Inductive pipeStep : pipeState → pipeState → Prop :=
| up_read o r d ho hr m now now' b er o' :
    now ≤ now' → inTime now' (readDeadline d) → netRead RelayBufferSize o = (b, er, o') →
    pipeStep (mkPipe o r Reading d hr ho m now)
      (mkPipe o' r (afterRead now' b er) d (hr || closesWrite canRemote (afterRead now' b er)) ho m now')
| up_timeout o r d ho hr m now now' dl :
    now ≤ now' → readDeadline d = Some dl → dl ≤ now' →
    pipeStep (mkPipe o r Reading d hr ho m now)
      (mkPipe o r (Finished now' true) d (hr || closesWrite canRemote (Finished now' true)) ho m now')
| up_write o r b er d hr ho m now now' ew r' :
    now ≤ now' → netWrite b r = (ew, r') →
    pipeStep (mkPipe o r (Writing b er) d hr ho m now)
      (mkPipe o r' (afterWrite now' ew er) d (hr || closesWrite canRemote (afterWrite now' ew er)) ho
        (trackWrite id (if ew then 0 else zlen b) m) now')
| down_read o r u hr ho m now now' b er r' :
    now ≤ now' → inTime now' (readDeadline u) → netRead RelayBufferSize r = (b, er, r') →
    pipeStep (mkPipe o r u Reading hr ho m now)
      (mkPipe o r' u (afterRead now' b er) hr (ho || closesWrite canOrigin (afterRead now' b er)) (trackRead id (zlen b) m) now')
| down_timeout o r u hr ho m now now' dl :
    now ≤ now' → readDeadline u = Some dl → dl ≤ now' →
    pipeStep (mkPipe o r u Reading hr ho m now)
      (mkPipe o r u (Finished now' true) hr (ho || closesWrite canOrigin (Finished now' true)) (trackRead id 0 m) now')
| down_write o r u b er hr ho m now now' ew o' :
    now ≤ now' → netWrite b o = (ew, o') →
    pipeStep (mkPipe o r u (Writing b er) hr ho m now)
      (mkPipe o' r u (afterWrite now' ew er) hr (ho || closesWrite canOrigin (afterWrite now' ew er)) m now').
End Pipe.

(** ** Both directions arrive *)

Definition inflight (c : copier) : bytes := match c with Writing b _ => b | _ => [] end.

(** What a direction has still to copy: [inp] is what its source will give. *)
Definition copierOK (c : copier) (inp : list bytes) : Prop :=
  match c with
  | Reading => True
  | Writing b er => b ≠ [] ∧ er = None
  | Finished _ cut => cut = false → inp = []
  end.

Definition work (c : copier) (inp : list bytes) : nat :=
  let n := (length inp + length (concat inp))%nat in
  match c with Reading => 2 * n + 1 | Writing _ _ => 2 * n + 2 | Finished _ _ => 0 end.

Lemma netRead_cases len c : 1 ≤ len → segsOK (ncSegs c) →
  (ncSegs c = [] ∧ netRead len c = ([], Some (ncEnd c), c)) ∨
  ∃ b segs', netRead len c = (b, None, setSegs c segs') ∧ b ≠ [] ∧ concat (ncSegs c) = b ++ concat segs' ∧
    segsOK segs' ∧ (length segs' ≤ length (ncSegs c))%nat.
Proof.
  intros Hl Hs. destruct (ncSegs c) as [|seg segs] eqn:E.
  - left. split; [done|]. unfold netRead. rewrite E. destruct (Z.leb_spec len 0); [lia|done].
  - right. assert (willRead (mkNet (ncSegs c) errEOF (ncOut c) (ncFail c)) (concat (ncSegs c))) as Hw by (by rewrite E).
    apply Forall_cons in Hs as [Hseg Hs]. destruct (netRead_some len _ _ Hl Hw) as (b & rest & c' & Er & Hb & _ & Hc & (Hs' & Hc' & _) & _ & _ & _ & Hlen).
    { rewrite E. by destruct seg. }
    exists b, (ncSegs c'). cbn [ncSegs] in Hlen. rewrite E in Hlen, Hc. cbn [concat]. cbn [concat] in Hc. rewrite Hc, Hc'.
    split; [|done]. revert Er. unfold netRead. cbn [ncSegs]. rewrite E. destruct (Z.leb_spec len 0); [lia|].
    destruct (zlen seg <=? len); by intros [= <- <-].
Qed.

Lemma copier_read now len c : 1 ≤ len → segsOK (ncSegs c) →
  ∃ b er segs', netRead len c = (b, er, setSegs c segs') ∧ segsOK segs' ∧ copierOK (afterRead now b er) segs' ∧
    concat (ncSegs c) = inflight (afterRead now b er) ++ concat segs' ∧
    (work (afterRead now b er) segs' < work Reading (ncSegs c))%nat ∧ zlen b = zlen (inflight (afterRead now b er)) ∧
    ∀ t, afterRead now b er ≠ Finished t true.
Proof.
  intros Hl Hs. destruct (netRead_cases len c Hl Hs) as [(E & ->)|(b & segs' & -> & Hb & Hc & Hs' & Hlen)].
  - exists [], (Some (ncEnd c)), []. split_and!; [|by apply Forall_nil|done|by rewrite E
      |change (work (Finished now false) [] < work Reading (ncSegs c))%nat; cbn; lia|done|done].
    f_equal. destruct c. cbn in *. by subst.
  - exists b, None, segs'. split; [done|]. split; [done|]. unfold afterRead. pose proof (zlen_pos b Hb).
    destruct (Z.ltb_spec 0 (zlen b)); [|lia]. cbn. rewrite Hc, length_app. split_and!; [done..| |done|done].
    destruct b; [done|]. cbn [length]. lia.
Qed.

(** A direction the deadline has cut: the other one had ended, and not by a
    deadline, at least the wait before. *)
Definition cutOK (c other : copier) : Prop :=
  ∀ t, c = Finished t true → ∃ t', other = Finished t' false ∧ t' + tcpWaitTimeout ≤ t.

Section Delivery.
Context (id : Z) (canRemote canOrigin : bool) (dataUp dataDown : bytes) (m0 : manager).

Record pipeInv (s : pipeState) : Prop := mkPipeInv {
  pi_quiet : quietWrites (pOrigin s) ∧ quietWrites (pRemote s);
  pi_segs : segsOK (ncSegs (pOrigin s)) ∧ segsOK (ncSegs (pRemote s));
  pi_up : dataUp = concat (ncOut (pRemote s)) ++ inflight (pUp s) ++ concat (ncSegs (pOrigin s));
  pi_down : dataDown = concat (ncOut (pOrigin s)) ++ inflight (pDown s) ++ concat (ncSegs (pRemote s));
  pi_copiers : copierOK (pUp s) (ncSegs (pOrigin s)) ∧ copierOK (pDown s) (ncSegs (pRemote s));
  pi_cut : cutOK (pUp s) (pDown s) ∧ cutOK (pDown s) (pUp s);
  pi_half : pHalfRemote s = canRemote && isFinished (pUp s) ∧ pHalfOrigin s = canOrigin && isFinished (pDown s);
  pi_totals : mg_upTotal (pManager s) = i64 (mg_upTotal m0 + zlen (concat (ncOut (pRemote s)))) ∧
    mg_downTotal (pManager s) = i64 (mg_downTotal m0 + zlen (concat (ncOut (pOrigin s)) ++ inflight (pDown s)));
}.

Definition pipeWork (s : pipeState) : nat :=
  work (pUp s) (ncSegs (pOrigin s)) + work (pDown s) (ncSegs (pRemote s)).

(** A goroutine that has not ended was not cut, and then neither was the other. *)
Lemma cutOK_step c c' other : isFinished c = false → cutOK other c → (∀ t, c' ≠ Finished t true) →
  cutOK c' other ∧ cutOK other c'.
Proof.
  intros Hc Ho Hc'. split; [by intros t ->; destruct (Hc' t)|].
  intros t E. destruct (Ho t E) as (t' & -> & _). done.
Qed.

Lemma cutOK_timeout c other now dl : isFinished c = false → cutOK other c → readDeadline other = Some dl → dl ≤ now →
  cutOK (Finished now true) other ∧ cutOK other (Finished now true).
Proof.
  intros Hc Ho Hd Hle. destruct other as [| |since cut]; try done. injection Hd as <-. split.
  - intros t [= <-]. exists since. split; [|done]. destruct cut; [|done]. destruct (Ho since eq_refl) as (t' & -> & _). done.
  - intros t [= -> ->]. destruct (Ho t eq_refl) as (t' & -> & _). done.
Qed.

Lemma afterWrite_quiet now : afterWrite now None None = Reading.
Proof. done. Qed.

Lemma pipe_step_inv s s' : pipeInv s → pipeStep id canRemote canOrigin s s' → pipeInv s' ∧ (pipeWork s' < pipeWork s)%nat.
Proof.
  intros [[Hqo Hqr] [Hso Hsr] Hu Hd [Hcu Hcd] [Hk1 Hk2] [Hh1 Hh2] [Ht1 Ht2]] Hstep.
  destruct Hstep as [o r d ho hr m now now' b er o' _ Hin E|o r d ho hr m now now' dl _ Hdl Hle|o r b er d hr ho m now now' ew r' _ E
    |o r u hr ho m now now' b er r' _ Hin E|o r u hr ho m now now' dl _ Hdl Hle|o r u b er hr ho m now now' ew o' _ E]; cbn in *;
    rewrite ?andb_false_r in *.
  - destruct (copier_read now' RelayBufferSize o ltac:(done) Hso) as (b1 & er1 & segs & E1 & Hs1 & Hc1 & Hcat & Hw & _ & Hnc).
    rewrite E in E1. injection E1 as -> -> ->.
    split; [|unfold pipeWork; cbn in *; lia].
    split; cbn; try done; [by rewrite Hu, Hcat|by apply (cutOK_step Reading)|by rewrite Hh1].
  - split; [|unfold pipeWork; cbn in *; lia]. split; cbn; try done; [by apply (cutOK_timeout Reading _ _ dl)|by rewrite Hh1].
  - rewrite netWrite_quiet in E by done. injection E as <- <-. destruct Hcu as [Hb ->].
    split; [|unfold pipeWork; cbn; lia]. split; cbn; rewrite ?andb_false_r; try done.
    + rewrite Hu, concat_app. cbn. by rewrite app_nil_r, <- app_assoc.
    + by apply (cutOK_step (Writing b None)).
    + unfold closesWrite. by rewrite Hh1, andb_false_r.
    + split; [|done]. rewrite Ht1, i64_add, concat_app. cbn. rewrite app_nil_r, zlen_app. f_equal. lia.
  - destruct (copier_read now' RelayBufferSize r ltac:(done) Hsr) as (b1 & er1 & segs & E1 & Hs1 & Hc1 & Hcat & Hw & Hz & Hnc).
    rewrite E in E1. injection E1 as -> -> ->.
    split; [|unfold pipeWork; cbn in *; lia].
    split; cbn; try done; [by rewrite Hd, Hcat|by apply and_comm, (cutOK_step Reading)|by rewrite Hh2|].
    split; [done|]. rewrite Ht2, i64_add, app_nil_r, zlen_app, Hz. f_equal. lia.
  - split; [|unfold pipeWork; cbn in *; lia]. split; cbn; try done; [by apply and_comm, (cutOK_timeout Reading _ _ dl)|by rewrite Hh2|].
    split; [done|]. by rewrite Ht2, i64_add, Z.add_0_r.
  - rewrite netWrite_quiet in E by done. injection E as <- <-. destruct Hcd as [Hb ->].
    split; [|unfold pipeWork; cbn; lia]. split; cbn; rewrite ?andb_false_r; try done.
    + rewrite Hd, concat_app. cbn. by rewrite app_nil_r, <- app_assoc.
    + by apply and_comm, (cutOK_step (Writing b None)).
    + unfold closesWrite. by rewrite Hh2, andb_false_r.
    + split; [done|]. rewrite Ht2, concat_app. cbn. by rewrite !app_nil_r.
Qed.

Lemma pipe_sn s : pipeInv s → sn (pipeStep id canRemote canOrigin) s.
Proof.
  remember (pipeWork s) as n eqn:En. revert s En. induction n as [n IH] using lt_wf_ind. intros s -> Hi.
  constructor. intros s' Hstep. destruct (pipe_step_inv s s' Hi Hstep) as [Hi' Hlt]. by eapply IH.
Qed.

(** A copier that is not done can go on. *)
Lemma pipe_red s : isFinished (pUp s) = false ∨ isFinished (pDown s) = false → red (pipeStep id canRemote canOrigin) s.
Proof.
  assert (∀ now dl, inTime now dl ∨ ∃ d, dl = Some d ∧ d ≤ now) as Htime.
  { intros now [d|]; [|by left]. destruct (Z.lt_ge_cases now d); [left; by intros ? [= <-]|right; by exists d]. }
  destruct s as [o r u d hr ho m now]. cbn. intros H. destruct u as [|b er|]; [..|destruct d as [|b er|]; [..|naive_solver]].
  - destruct (Htime now (readDeadline d)) as [Hin|(dl & Hdl & Hle)]; [|eexists; by eapply up_timeout].
    destruct (netRead RelayBufferSize o) as [[b er] o'] eqn:E. eexists. by eapply up_read.
  - destruct (netWrite b r) as [ew r'] eqn:E. eexists. by eapply up_write.
  - destruct (Htime now (readDeadline (Finished since cut))) as [Hin|(dl & Hdl & Hle)]; [|eexists; by eapply down_timeout].
    destruct (netRead RelayBufferSize r) as [[b er] r'] eqn:E. eexists. by eapply down_read.
  - destruct (netWrite b o) as [ew o'] eqn:E. eexists. by eapply down_write.
Qed.

Lemma pipe_inv_rtc s s' : pipeInv s → rtc (pipeStep id canRemote canOrigin) s s' → pipeInv s'.
Proof. intros Hi Hs. induction Hs as [|s1 s2 s3 H12 _ IH]; [done|]. by apply IH, (pipe_step_inv s1 s2). Qed.
End Delivery.

(** The start of a pipe on which nothing was copied yet. *)
Definition newPipe (o r : netConn) (m : manager) (now : Z) : pipeState := mkPipe o r Reading Reading false false m now.

(** A connection that has not been written to, and takes every write. *)
Definition freshNet (c : netConn) : Prop := segsOK (ncSegs c) ∧ ncOut c = [] ∧ quietWrites c.

(** How one direction has ended: with everything delivered, or cut off at [t], no
    earlier than the wait after the other one had delivered everything. *)
Definition directionEnd (c other : copier) (data out : bytes) : Prop :=
  ∃ t cut, c = Finished t cut ∧ out `prefix_of` data ∧
    if cut : bool then ∃ t', other = Finished t' false ∧ t' + tcpWaitTimeout ≤ t else out = data.

Definition delivered (canRemote canOrigin : bool) (o r : netConn) (m0 : manager) (s : pipeState) : Prop :=
  directionEnd (pUp s) (pDown s) (concat (ncSegs o)) (concat (ncOut (pRemote s))) ∧
  directionEnd (pDown s) (pUp s) (concat (ncSegs r)) (concat (ncOut (pOrigin s))) ∧
  pHalfRemote s = canRemote ∧ pHalfOrigin s = canOrigin ∧
  mg_upTotal (pManager s) = i64 (mg_upTotal m0 + zlen (concat (ncOut (pRemote s)))) ∧
  mg_downTotal (pManager s) = i64 (mg_downTotal m0 + zlen (concat (ncOut (pOrigin s)))).

(** The counters of the manager are int64. *)
Definition managerOK (m : manager) : Prop := mg_upTotal m = i64 (mg_upTotal m) ∧ mg_downTotal m = i64 (mg_downTotal m).

Lemma newPipe_inv cr co o r m now : freshNet o → freshNet r → managerOK m →
  pipeInv cr co (concat (ncSegs o)) (concat (ncSegs r)) m (newPipe o r m now).
Proof.
  intros (? & Ho & ?) (? & Hr & ?) [Hu Hd]. split; cbn; rewrite ?Ho, ?Hr, ?andb_false_r; try done. cbn. by rewrite !Z.add_0_r.
Qed.

Lemma pipe_finishes id cr co du dd m0 s : pipeInv cr co du dd m0 s → ∃ s', rtc (pipeStep id cr co) s s' ∧ nf (pipeStep id cr co) s'.
Proof.
  intros Hi. pose proof (pipe_sn id cr co _ _ _ s Hi) as Hsn. induction Hsn as [s _ IH].
  destruct (isFinished (pUp s)) eqn:Hu; [destruct (isFinished (pDown s)) eqn:Hd|].
  - exists s. split; [done|]. intros [s' Hstep]. destruct Hstep; done.
  - destruct (pipe_red id cr co s) as [s1 H1]; [by right|].
    destruct (IH s1 H1) as (s' & Hs' & Hnf); [by apply (pipe_step_inv id cr co du dd m0 s)|].
    exists s'. split; [by eapply rtc_l|done].
  - destruct (pipe_red id cr co s) as [s1 H1]; [by left|].
    destruct (IH s1 H1) as (s' & Hs' & Hnf); [by apply (pipe_step_inv id cr co du dd m0 s)|].
    exists s'. split; [by eapply rtc_l|done].
Qed.

Lemma pipe_nf_delivered id cr co o r m now s : freshNet o → freshNet r → managerOK m →
  rtc (pipeStep id cr co) (newPipe o r m now) s → nf (pipeStep id cr co) s → delivered cr co o r m s.
Proof.
  intros Ho Hr Hm Hs Hnf. pose proof (pipe_inv_rtc id cr co _ _ m _ s (newPipe_inv cr co o r m now Ho Hr Hm) Hs)
    as [_ _ Hu Hd [Hcu Hcd] [Hk1 Hk2] [Hh1 Hh2] [Ht1 Ht2]].
  assert (isFinished (pUp s) = true ∧ isFinished (pDown s) = true) as [Eu Ed].
  { split; apply not_false_iff_true; intros E; apply Hnf, pipe_red; auto. }
  destruct (pUp s) as [| |tu cu] eqn:Uu; [done|done|]. destruct (pDown s) as [| |td cd] eqn:Ud; [done|done|].
  cbn in *. rewrite app_nil_r in Ht2. rewrite andb_true_r in Hh1, Hh2. unfold delivered. rewrite Uu, Ud. split_and!; [| |done..].
  - exists tu, cu. split; [done|]. split; [by eexists|]. destruct cu; [by apply Hk1|]. by rewrite Hu, (Hcu eq_refl), app_nil_r.
  - exists td, cd. split; [done|]. split; [by eexists|]. destruct cd; [by apply Hk2|]. by rewrite Hd, (Hcd eq_refl), app_nil_r.
Qed.


(** ** A TCP session *)

(** What a dialer promises the tunnel. *)
Class OwningDialer (dialC : Metadata → dM conn) : Prop :=
  dialer_owns m w : worldOK w → dialled connHandle (λ _, None) w (dialC m w).

Record session := mkSession {
  ssWorld : world;
  ssOrigin : netConn;
  (** how often the origin was closed *)
  ssCloses : nat;
  ssManager : manager;
}.

Definition closeConn (c : conn) (w : world) : world :=
  match connHandle c with Some h => closeT h w | None => w end.

Section Session.
Context (dialC : Metadata → dM conn).
(** A dialled connection as the copying sees it: what it delivers, and its own
    address; whether it and the origin can be closed for writing; and the time. *)
Context (view : conn → world → netConn) (canCloseWrite : conn → bool) (canOrigin : bool) (now : Z).

(** [handleTCPConn]: the end of the pipe that ran, if one did. *)
Inductive handleTCPConn (id : endpointID) (uuid : Z) : session → option pipeState → session → Prop :=
| dial_fails w o n m e w' :
    dialC (sessionMetadata NetTCP id (AddrInvalid, 0)) w = (Err e, w') →
    handleTCPConn id uuid (mkSession w o n m) None (mkSession w' o (S n) m)
| relayed w o n m c w' s :
    dialC (sessionMetadata NetTCP id (AddrInvalid, 0)) w = (Ok c, w') →
    rtc (pipeStep uuid (canCloseWrite c) canOrigin) (newPipe o (view c w') (Join uuid m) now) s →
    nf (pipeStep uuid (canCloseWrite c) canOrigin) s →
    handleTCPConn id uuid (mkSession w o n m) (Some s)
      (mkSession (closeConn c w') (pOrigin s) (S n) (Leave uuid (pManager s))).

Context `{!OwningDialer dialC}.

(** A session always ends; the origin is then closed, nothing that was dialled is
    left open, and unless the dial failed both directions ended as
    [pipe_delivers] says. *)
Theorem tcp_session_complete id uuid w o n m :
  worldOK w → freshNet o → (∀ c w', freshNet (view c w')) → managerOK m →
  (∀ md w', dialC md w ≠ (Panic, w')) →
  (∃ p s', handleTCPConn id uuid (mkSession w o n m) p s') ∧
  ∀ p s', handleTCPConn id uuid (mkSession w o n m) p s' →
    ssCloses s' = S n ∧ owns w None None (ssWorld s') ∧
    match p with
    | Some s => ∃ c w', dialC (sessionMetadata NetTCP id (AddrInvalid, 0)) w = (Ok c, w') ∧
        delivered (canCloseWrite c) canOrigin o (view c w') (Join uuid m) s ∧ ssOrigin s' = pOrigin s
    | None => ssOrigin s' = o ∧ ssManager s' = m
    end.
Proof.
  intros Hw Ho Hv Hm Hnp. set (md := sessionMetadata NetTCP id (AddrInvalid, 0)).
  pose proof (dialer_owns md w Hw) as Hdial. split.
  - destruct (dialC md w) as [[c|e|] w'] eqn:E; [| |by apply Hnp in E].
    + destruct (pipe_finishes uuid (canCloseWrite c) canOrigin _ _ _ _ (newPipe_inv _ _ o (view c w') (Join uuid m) now Ho (Hv c w') Hm)) as (s & Hs & Hnf).
      eexists _, _. by eapply relayed.
    + eexists _, _. by eapply dial_fails.
  - intros p s' Hh. inversion Hh as [w1 o1 n1 m1 e w' E|w1 o1 n1 m1 c w' s E Hs Hnf]; subst; fold md in E; rewrite E in Hdial;
      cbn in Hdial; cbn [ssCloses ssWorld ssOrigin ssManager].
    + done.
    + split; [done|]. split.
      * unfold closeConn. destruct (connHandle c) as [h|]; [|done]. by eapply owns_closeT.
      * exists c, w'. split; [done|]. split; [|done]. by apply (pipe_nf_delivered uuid (canCloseWrite c) canOrigin o (view c w') (Join uuid m) now).
Qed.
End Session.

(** ** The hand-over (tunnel.go) *)

Inductive handed := Waiting | Handling | Closed.
Inductive procStatus := NotStarted | Running | Cancelled | Done.

(** [Tunnel]: the state of [process] and the connections handed to it so far. *)
Record tunnelState := mkTunnel { tStatus : procStatus; tConns : list handed }.

(** What the tunnel's goroutines do on their own.  [process] takes a waiting
    connection from a queue, also after it was cancelled but has not noticed;
    a handler closes its connection when it returns; a caller that waits sees
    that [process] has returned and closes the connection. *)
Inductive tunnelStep : tunnelState → tunnelState → Prop :=
| takes i st cs : cs !! i = Some Waiting → st = Running ∨ st = Cancelled →
    tunnelStep (mkTunnel st cs) (mkTunnel st (<[i := Handling]> cs))
| notices cs : tunnelStep (mkTunnel Cancelled cs) (mkTunnel Done cs)
| finishes i st cs : cs !! i = Some Handling → tunnelStep (mkTunnel st cs) (mkTunnel st (<[i := Closed]> cs))
| turned_away i cs : cs !! i = Some Waiting → tunnelStep (mkTunnel Done cs) (mkTunnel Done (<[i := Closed]> cs)).

(** What others do: [HandleTCP] and [HandleUDP], [ProcessAsync] and [Close].
    [ProcessAsync] is effective once; [Close] before it does nothing. *)
Inductive tunnelCall : tunnelState → tunnelState → Prop :=
| handle st cs : tunnelCall (mkTunnel st cs) (mkTunnel st (cs ++ [Waiting]))
| processAsync st cs : tunnelCall (mkTunnel st cs) (mkTunnel (match st with NotStarted => Running | st => st end) cs)
| close st cs : tunnelCall (mkTunnel st cs) (mkTunnel (match st with Running => Cancelled | st => st end) cs).

Definition tunnelRun : relation tunnelState := λ s s', tunnelStep s s' ∨ tunnelCall s s'.

Definition debt (h : handed) : nat := match h with Waiting => 2 | Handling => 1 | Closed => 0 end.

Definition tunnelDebt (s : tunnelState) : nat :=
  sum_list (debt <$> tConns s) + match tStatus s with NotStarted | Running => 2 | Cancelled => 1 | Done => 0 end.

Lemma debt_insert i h h' cs : cs !! i = Some h → (debt h' < debt h)%nat →
  (sum_list (debt <$> <[i := h']> cs) < sum_list (debt <$> cs))%nat.
Proof.
  revert i. induction cs as [|c cs IH]; intros [|i] Hl Hd; cbn in *; [done|done| |].
  - injection Hl as ->. lia.
  - apply Nat.add_lt_mono_l. by apply IH.
Qed.

Lemma tunnel_step_debt s s' : tunnelStep s s' → (tunnelDebt s' < tunnelDebt s)%nat.
Proof.
  intros []; unfold tunnelDebt; cbn [tConns tStatus]; [|lia|..];
    match goal with H : ?cs !! ?i = Some ?h |- context [<[?i := ?h']> ?cs] =>
      pose proof (debt_insert i h h' cs H ltac:(cbn; lia)) end; lia.
Qed.

(** Every connection that is handed over is taken care of.  Whatever calls are
    made and however the goroutines run: their steps always come to an end, and
    when they do, in a tunnel that was started, no connection is waiting or being
    handled and [process] has noticed a [Close]; a tunnel that has ended stays so
    and takes no connection any more, but turns every one away, closed. *)
Theorem handover_complete s :
  sn tunnelStep s ∧
  (tStatus s ≠ NotStarted → nf tunnelStep s → Forall (λ h, h = Closed) (tConns s) ∧ tStatus s ≠ Cancelled) ∧
  (tStatus s = Done → ∀ s' i, tunnelRun s s' → tStatus s' = Done ∧ (tConns s' !! i = Some Handling → tConns s !! i = Some Handling)).
Proof.
  split_and!.
  - remember (tunnelDebt s) as n eqn:En. revert s En. induction n as [n IH] using lt_wf_ind. intros s ->.
    constructor. intros s' Hstep. by eapply IH; [apply tunnel_step_debt|].
  - destruct s as [st cs]. cbn. intros Hst Hnf. split.
    + apply Forall_lookup. intros i h Hi. destruct h; [..|done]; destruct Hnf.
      * destruct st; [done|..]; eexists; [eapply takes; eauto|eapply takes; eauto|by eapply turned_away].
      * eexists. by eapply finishes.
    + intros ->. apply Hnf. eexists. apply notices.
  - intros Hd s' i [Hs|Hs]; destruct Hs; cbn in *; subst; try (by destruct_or!); try done.
    + split; [done|]. destruct (decide (i = i0)) as [->|Hne]; [|by rewrite list_lookup_insert_ne].
      rewrite list_lookup_insert_eq by (by eapply lookup_lt_Some). done.
    + split; [done|]. destruct (decide (i = i0)) as [->|Hne]; [|by rewrite list_lookup_insert_ne].
      rewrite list_lookup_insert_eq by (by eapply lookup_lt_Some). done.
    + split; [done|]. intros Hi. apply lookup_app_Some in Hi as [|[_ Hi]]; [done|].
      by destruct (i - length cs)%nat.
Qed.

(** ** A UDP session (udp.go) *)

(** Where the datagrams of a session go: its UDP address, or the text of the
    metadata. *)
Definition sessionRemote (m : Metadata) : (bytes * Z) + gostring :=
  match mdUDPAddr m with
  | Some a => inl a
  | None => inr (DestinationAddress m)
  end.

Definition newSymmetricNATPacketConn (m : Metadata) : natConn := mkNAT (DestinationAddress m) (DstPort m) None.

(** [pipePacket] returns when both loops have.  The end of the origin's loop
    closes both connections, so the other loop ends by then: on its own before,
    or by reading a closed connection.  The result is when that is, or [None]
    while the origin's loop runs. *)
Definition pipePacket (timeout now : Z) (fromOrigin : list relayEvent) : option Z :=
  snd <$> (copyPacketData true timeout now now fromOrigin).2.

(** [handleUDPConn]: the origin is closed in the end, and so is what was
    dialled. *)
Definition handleUDPConn (dialU : Metadata → dM packetConn) (id : endpointID) : dM unit := λ w,
  match dialU (sessionMetadata NetUDP id (AddrInvalid, 0)) w with
  | (Ok pc, w) => (Ok tt, closePacketConn pc w)
  | (Err e, w) => (Err e, w)
  | (Panic, w) => (Panic, w)
  end.

Lemma udp_session_releases dialU id w r w' :
  (∀ m w, worldOK w → dialled packetTCP packetUDP w (dialU m w)) → worldOK w →
  handleUDPConn dialU id w = (r, w') → r ≠ Panic → owns w None None w'.
Proof.
  intros Hd Hw E Hr. unfold handleUDPConn in E. specialize (Hd (sessionMetadata NetUDP id (AddrInvalid, 0)) w Hw).
  destruct (dialU _ w) as [[pc|e|] w1]; injection E as <- <-; cbn in Hd; [by apply close_releases|done|done].
Qed.

(** Every proxy is such a dialer. *)
#[global] Instance proxy_dialer {KS} dial parse room cleanHost XORKeyStream hkdf rnd validHost helloE requestE enc rr v ok bad
    (p : proxy KS) : OwningDialer
  (DialContext dial parse room cleanHost XORKeyStream hkdf rnd validHost helloE requestE enc rr v ok bad p).
Proof. intros m w Hw. by apply dialContext_owns. Qed.

(** ** On concrete data *)

Definition demoNet (segs : list bytes) : netConn := mkNet segs errEOF [] (λ _, None).


(** A tunnel that was never started keeps its callers waiting, and a [Close]
    before the start is forgotten. *)
Example not_started :
  nf tunnelStep (mkTunnel NotStarted [Waiting]) ∧
  rtc tunnelCall (mkTunnel NotStarted []) (mkTunnel Running []).
Proof.
  split.
  - intros [s' H]. inversion H as [i st cs Hi [?|?]| |i st cs Hi|]; subst; try done. by destruct i.
  - eapply rtc_l; [apply (close NotStarted)|]. eapply rtc_l; [apply (processAsync NotStarted)|]. apply rtc_refl.
Qed.

Example udp_metadata :
  sessionMetadata NetUDP (mkEndpointID 53 [8; 8; 8; 8] 40000 [10; 0; 0; 2]) (AddrInvalid, 0) =
    mkMetadata NetUDP (Addr4 0x0a000002) AddrInvalid (Addr4 0x08080808) 40000 0 53 ∧
  sessionRemote (sessionMetadata NetUDP (mkEndpointID 53 [8; 8; 8; 8] 40000 [10; 0; 0; 2]) (AddrInvalid, 0)) =
    inl ([8; 8; 8; 8], 53) ∧
  parseNetAddr (LText "1.2.3.4:5") = (Addr4 0x01020304, 5) ∧ parseNetAddr (LText "x") = (AddrInvalid, 0).
Proof. vm_compute. done. Qed.
