(* ===== verification/RestAPI.v ===== *)
(** * The REST API of tun2socks (tun2socks/restapi)

    Who may use it: the token, the check of the origin of a web page, and the rule
    that without a token the server only listens on the loopback interface; the
    listener under concurrent starts and stops; and what the handlers do to the
    connections of the tunnel.  The router, the CORS middleware, the WebSocket
    library, name resolution and the statistics of gVisor are arguments. *)

From S2P Require Import Prelude Errors Netip Pattern Stream Policy IPPool Engine ProxyURL TunRelay.
Local Open Scope Z_scope.

(** ** Requests *)

(** A request as the handlers see it: the method, [Access-Control-Request-Method],
    [IsWebSocketUpgrade], the pairs of the query and the headers that are looked at. *)
Record apiRequest := mkAPIRequest {
  rqMethod : gostring;
  rqRequestMethod : gostring;
  rqUpgrade : bool;
  rqQuery : list (gostring * gostring);
  rqAuthorization : gostring;
  rqOrigin : gostring;
  rqHost : gostring;
}.

(** [Values.Get] *)
Definition queryGet (key : gostring) (q : list (gostring * gostring)) : gostring :=
  match List.find (λ kv, bool_decide (kv.1 = key)) q with Some kv => kv.2 | None => [] end.

(** ** Who may use it (server.go) *)

(** [CheckOrigin] of the upgrader. *)
Definition CheckOrigin (r : apiRequest) : bool :=
  bool_decide (rqOrigin r = []) ||
  has_prefix (rqOrigin r) ("http://" ++ rqHost r) || has_prefix (rqOrigin r) ("https://" ++ rqHost r).

(** [authenticator]: whether the next handler is called. *)
Definition authenticator (token : gostring) (r : apiRequest) : bool :=
  if bool_decide (token = []) then true
  else if rqUpgrade r && negb (bool_decide (queryGet "token" (rqQuery r) = []))
  then bool_decide (queryGet "token" (rqQuery r) = token)
  else match cut (rqAuthorization r) 32 with
       | (scheme, t, true) => bool_decide (scheme = lit "Bearer") && bool_decide (t = token)
       | _ => false
       end.

Section Server.
Context (LookupHost : gostring → res (list gostring)).

Definition loopbackText (a : gostring) : bool := match ParseIP a with Some ip => IsLoopback ip | None => false end.

Definition isLoopbackAddr (addr : gostring) : bool :=
  let host := match SplitHostPort addr with Ok (host, _) => host | _ => addr end in
  if bool_decide (host = lit "localhost") || bool_decide (host = lit "127.0.0.1") || bool_decide (host = lit "::1") then true
  else match ParseIP host with
       | Some ip => IsLoopback ip
       | None => match LookupHost host with
                 | Ok addrs => forallb loopbackText addrs && negb (bool_decide (addrs = []))
                 | _ => false
                 end
       end.

(** *** The listener *)

(** [_listener], the listeners that are open, and the number of the next one. *)
Record apiState := mkAPI { asListener : option nat; asOpen : gset nat; asNext : nat }.

Definition noAPI : apiState := mkAPI None ∅ 0.

(** The critical section that closes the listener that is registered; [Stop] is
    this and nothing else. *)
Definition closeListener (s : apiState) : apiState :=
  match asListener s with
  | Some l => mkAPI None (asOpen s ∖ {[l]}) (asNext s)
  | None => s
  end.

Definition Stop : apiState → apiState := closeListener.

(** [net.Listen] that succeeds, and the critical section that registers it. *)
Definition listenOn (s : apiState) : apiState := mkAPI (asListener s) ({[asNext s]} ∪ asOpen s) (S (asNext s)).
Definition register (l : nat) (s : apiState) : apiState := mkAPI (Some l) (asOpen s) (asNext s).

Definition errNoToken (addr : gostring) : error :=
  errorString ("restapi: refusing to start on non-loopback " ++ addr ++ " without authentication token").

(** [Start] up to the point where it serves: the listener. *)
Definition Start (listen : option error) (addr token : gostring) : stM apiState nat := λ s,
  if bool_decide (token = []) && negb (isLoopbackAddr addr) then (Err (errNoToken addr), s) else
  let s := closeListener s in
  match listen with
  | Some e => (Err e, s)
  | None => (Ok (asNext s), register (asNext s) (listenOn s))
  end.

(** The same as steps of a goroutine, between which others run. *)
Inductive startPhase := Begun | Cleared | Listening (l : nat) | Serving (l : nat) | Failed.

Inductive startStep : startPhase * apiState → startPhase * apiState → Prop :=
| step_clear s : startStep (Begun, s) (Cleared, closeListener s)
| step_listen s : startStep (Cleared, s) (Listening (asNext s), listenOn s)
| step_refused s : startStep (Cleared, s) (Failed, s)
| step_register l s : startStep (Listening l, s) (Serving l, register l s).

(** ** Handlers (server.go, connections.go) *)

Inductive handler := Hello | Traffic | Version | Connections | CloseAll | CloseOne (id : gostring) | NetStats.

Inductive response :=
| NotFound
| Preflight (headers : list (gostring * gostring))
| Unauthorized
| BadRequest
| Forbidden
| NoContent
| Uninitialized
| JSON (text : gostring)
| Snapshot (upload download : Z) (connections : list Z)
| Stream (period : Z)
| Panicked.

(** The manager and the connections that were closed. *)
Record apiWorld := mkAPIWorld { awManager : manager; awClosed : list Z }.

Context (route : apiRequest → option handler) (idString : Z → gostring) (order : gmap Z tracker → list Z).
Context (helloText versionText : gostring) (netStats : option gostring).

(** [Manager.Snapshot] *)
Definition snapshot (m : manager) : response := Snapshot (mg_upTotal m) (mg_downTotal m) (order (mg_connections m)).

(** [Close] of a tracker. *)
Definition closeTracker (w : apiWorld) (id : Z) : apiWorld := mkAPIWorld (Leave id (awManager w)) (awClosed w ++ [id]).

Definition closeAllConnections (w : apiWorld) : apiWorld :=
  foldl closeTracker w (order (mg_connections (awManager w))).

Definition closeConnection (id : gostring) (w : apiWorld) : apiWorld :=
  match List.find (λ c, bool_decide (id = idString c)) (order (mg_connections (awManager w))) with
  | Some c => closeTracker w c
  | None => w
  end.

Definition defaultInterval : Z := 1000.
Definition millisecond : Z := 10 ^ 6.

(** [time.NewTicker] panics unless the period is positive. *)
Definition newTicker (d : Z) : response := if 0 <? d then Stream d else Panicked.

Definition getConnections (r : apiRequest) (m : manager) : response :=
  if negb (rqUpgrade r) then snapshot m else
  let text := queryGet "interval" (rqQuery r) in
  let start interval := if CheckOrigin r then newTicker (i64 (millisecond * interval)) else Forbidden in
  if bool_decide (text = []) then start defaultInterval
  else match atoi text with
       | Some t => if t <=? 0 then BadRequest else start t
       | None => BadRequest
       end.

(** The lines of [traffic]: one a second, until a write fails. *)
Definition trafficLine (up down : Z) : gostring := "{" ++ [34] ++ "up" ++ [34] ++ ":" ++ itoa up ++ "," ++ [34] ++ "down" ++ [34] ++ ":" ++ itoa down ++ "}" ++ [10].

Fixpoint traffic (ticks : list (manager * option error)) : list gostring :=
  match ticks with
  | [] => []
  | (m, None) :: ticks => trafficLine (mg_upBlip m) (mg_downBlip m) :: traffic ticks
  | (m, Some _) :: _ => [trafficLine (mg_upBlip m) (mg_downBlip m)]
  end.

Definition second_ : Z := 10 ^ 9.

Definition startTraffic (r : apiRequest) : response :=
  if rqUpgrade r && negb (CheckOrigin r) then Forbidden else Stream second_.

Definition getNetStats (r : apiRequest) : response :=
  match netStats with
  | None => Uninitialized
  | Some text => if negb (rqUpgrade r) then JSON text else if CheckOrigin r then Stream second_ else Forbidden
  end.

Definition handle (h : handler) (r : apiRequest) (w : apiWorld) : response * apiWorld :=
  match h with
  | Hello => (JSON helloText, w)
  | Version => (JSON versionText, w)
  | Traffic => (startTraffic r, w)
  | Connections => (getConnections r (awManager w), w)
  | CloseAll => (NoContent, closeAllConnections w)
  | CloseOne id => (NoContent, closeConnection id w)
  | NetStats => (getNetStats r, w)
  end.

(** The middleware of go-chi/cors: the headers of the empty answer it gives itself,
    or [None] when it passes the request on. *)
Context (cors : apiRequest → option (list (gostring * gostring))).

(** The router of [Start]: the CORS middleware sees every request first; every
    handler is behind the authenticator.  A path or method without a handler is
    answered "not found". *)
Definition serve (token : gostring) (r : apiRequest) (w : apiWorld) : response * apiWorld :=
  match cors r with
  | Some headers => (Preflight headers, w)
  | None =>
      match route r with
      | None => (NotFound, w)
      | Some h => if authenticator token r then handle h r w else (Unauthorized, w)
      end
  end.
End Server.

(** ** Nobody else *)

Lemma cut_true s c a b : cut s c = (a, b, true) → s = a ++ c :: b.
Proof.
  unfold cut. destruct (index_byte s c) as [i|] eqn:E; [|done]. intros [= <- <-]. revert i E.
  induction s as [|x s IH]; intros i E; [done|]. cbn in E. destruct (Z.eqb_spec x c) as [->|].
  - by injection E as <-.
  - apply fmap_Some in E as (j & E & ->). cbn. f_equal. by apply IH.
Qed.

(** A request shows the token: as a bearer, or, for a WebSocket, in the query. *)
Definition presents (token : gostring) (r : apiRequest) : Prop :=
  rqAuthorization r = "Bearer " ++ token ∨ (rqUpgrade r = true ∧ queryGet "token" (rqQuery r) = token).

Lemma authenticator_spec token r : authenticator token r = true → token = [] ∨ presents token r.
Proof.
  unfold authenticator. case_bool_decide; [by left|]. right.
  destruct (rqUpgrade r && _) eqn:E.
  - apply andb_true_iff in E as [Eu _]. apply bool_decide_eq_true in H0. by right.
  - destruct (cut (rqAuthorization r) 32) as [[scheme t] [|]] eqn:Ec; [|done].
    apply andb_true_iff in H0 as [H1 H2]. apply bool_decide_eq_true in H1, H2. subst. left.
    by rewrite (cut_true _ _ _ _ Ec).
Qed.

Lemma presents_passes token r : rqUpgrade r = false → rqAuthorization r = "Bearer " ++ token → authenticator token r = true.
Proof.
  intros Hu Ha. unfold authenticator. case_bool_decide; [done|]. rewrite Hu. cbn [andb]. rewrite Ha.
  change ("Bearer " ++ token) with (lit "Bearer" ++ 32 :: token). rewrite cut_at by (by apply literal_notin).
  by rewrite !bool_decide_true.
Qed.

(** *** Loopback means loopback *)

Definition loopbackIP (a : gostring) : Prop := ∃ ip, ParseIP a = Some ip ∧ IsLoopback ip = true.

(** What the address of a server without a token may be: [localhost], taken at its
    word, a literal loopback address, or a name all of whose addresses, at least
    one, are loopback addresses when it is looked up. *)
Definition onlyLoopback (LookupHost : gostring → res (list gostring)) (host : gostring) : Prop :=
  host = lit "localhost" ∨ loopbackIP host ∨
  (ParseIP host = None ∧ ∃ addrs, LookupHost host = Ok addrs ∧ addrs ≠ [] ∧ ∀ a, a ∈ addrs → loopbackIP a).

Definition hostOf (addr : gostring) : gostring := match SplitHostPort addr with Ok (host, _) => host | _ => addr end.

Lemma loopbackText_spec a : loopbackText a = true → loopbackIP a.
Proof. unfold loopbackText, loopbackIP. destruct (ParseIP a) as [ip|]; [|done]. intros. by exists ip. Qed.

Lemma isLoopbackAddr_spec LookupHost addr : isLoopbackAddr LookupHost addr = true → onlyLoopback LookupHost (hostOf addr).
Proof.
  unfold isLoopbackAddr. fold (hostOf addr). generalize (hostOf addr). intros host. unfold onlyLoopback.
  case_bool_decide as E1; [by left|]. case_bool_decide as E2.
  { intros _. right. left. apply loopbackText_spec. subst. by vm_compute. }
  case_bool_decide as E3.
  { intros _. right. left. apply loopbackText_spec. subst. by vm_compute. }
  cbn [orb]. intros H. right. destruct (ParseIP host) as [ip|] eqn:Ei; [left; by exists ip|]. right. split; [done|].
  destruct (LookupHost host) as [addrs|e|]; [|done..]. apply andb_true_iff in H as [Ha Hn]. exists addrs. split_and!; [done| |].
  - by apply negb_true_iff, bool_decide_eq_false in Hn.
  - intros a Hin. apply loopbackText_spec. rewrite forallb_forall in Ha. apply Ha. by apply list_elem_of_In.
Qed.

Section Guard.
Context (LookupHost : gostring → res (list gostring)).
Context (route : apiRequest → option handler) (idString : Z → gostring) (order : gmap Z tracker → list Z).
Context (helloText versionText : gostring) (netStats : option gostring).
Context (cors : apiRequest → option (list (gostring * gostring))).

(** A preflight: [OPTIONS] that asks about another method. *)
Definition isPreflight (r : apiRequest) : Prop := rqMethod r = lit "OPTIONS" ∧ rqRequestMethod r ≠ [].

(** The documented behaviour of the middleware: only preflights stop the chain. *)
Context (cors_preflight : ∀ r headers, cors r = Some headers → isPreflight r).

Abbreviation serving := (serve route idString order helloText versionText netStats cors).

End Guard.

(** ** The listener *)

(** One call after the other. *)
Inductive apiCall := CallStart (listen : option error) (addr token : gostring) | CallStop.

Definition runCall LookupHost (s : apiState) (c : apiCall) : apiState :=
  match c with
  | CallStart listen addr token => (Start LookupHost listen addr token s).2
  | CallStop => Stop s
  end.

(** The open listeners are the one that is registered, if any. *)
Definition apiInv (s : apiState) : Prop :=
  asOpen s = match asListener s with Some l => {[l]} | None => ∅ end ∧ (∀ l, asListener s = Some l → (l < asNext s)%nat).

Lemma closeListener_inv s : apiInv s → apiInv (closeListener s) ∧ asOpen (closeListener s) = ∅.
Proof.
  intros [H1 H2]. unfold closeListener, apiInv in *. destruct s as [[l|] o n]; cbn in *; [|done].
  rewrite H1. split; [split; [|done]|]; set_solver.
Qed.

(** Calls one after the other never leave a listener behind: at most the
    registered one is open, and none after [Stop]. *)
Theorem listener_not_leaked LookupHost calls :
  apiInv (foldl (runCall LookupHost) noAPI calls) ∧ asOpen (Stop (foldl (runCall LookupHost) noAPI calls)) = ∅.
Proof.
  assert (apiInv (foldl (runCall LookupHost) noAPI calls)) as H; [|by split; [|apply closeListener_inv]].
  induction calls as [|c calls IH] using rev_ind; [by split|]. rewrite foldl_app. cbn [foldl].
  generalize dependent (foldl (runCall LookupHost) noAPI calls). intros s Hs.
  destruct c as [listen addr token|]; [|by apply closeListener_inv]. cbn [runCall]. unfold Start.
  destruct (_ && _); [done|]. destruct (closeListener_inv s Hs) as [Hi Ho].
  destruct listen; [done|]. split; cbn; [rewrite Ho; set_solver|]. intros l [= <-]. lia.
Qed.

(** The engine starts the server in a goroutine: a [Stop] that comes before its
    listener is registered closes nothing, and the server keeps running. *)
Theorem stop_during_start_leaks :
  ∃ s1 s2 s3, startStep (Begun, noAPI) (Cleared, s1) ∧ startStep (Cleared, Stop s1) (Listening 0, s2) ∧
    startStep (Listening 0, s2) (Serving 0, s3) ∧ asOpen s3 = {[0%nat]} ∧
    (* two starts at the same time: the listener registered first stays open *)
    ∃ s4 s5 s6, startStep (Cleared, s1) (Listening 0, s4) ∧ startStep (Cleared, s4) (Listening 1, s5) ∧
      startStep (Listening 1, register 0 s5) (Serving 1, s6) ∧ asOpen (Stop s6) = {[0%nat]}.
Proof.
  eexists _, _, _. split_and!; [apply step_clear|apply (step_listen noAPI)|apply step_register|vm_compute; reflexivity|].
  eexists _, _, _. split_and!; [apply (step_listen noAPI)|apply step_listen|apply step_register|vm_compute; reflexivity].
Qed.

(** ** Handlers *)

Section Handlers.
Context (idString : Z → gostring) (order : gmap Z tracker → list Z).
Context (Horder : ∀ m id, id ∈ order m ↔ is_Some (m !! id)).

Lemma closeTrackers_spec ids w : mg_connections (awManager (foldl closeTracker w ids)) =
  filter (λ kv, kv.1 ∉ ids) (mg_connections (awManager w)) ∧ awClosed (foldl closeTracker w ids) = awClosed w ++ ids.
Proof.
  revert w. induction ids as [|id ids IH]; intros w; cbn [foldl].
  - split; [|by rewrite app_nil_r]. symmetry. apply map_filter_id. set_solver.
  - destruct (IH (closeTracker w id)) as [-> ->]. cbn [closeTracker awManager awClosed Leave mg_connections].
    split; [|by rewrite <- app_assoc]. apply map_eq. intros k. apply option_eq. intros v.
    rewrite !map_lookup_filter_Some, lookup_delete_Some. set_solver.
Qed.

(** Closing all connections closes every one that is tracked, and no other. *)
Lemma close_all_closes w : mg_connections (awManager (closeAllConnections order w)) = ∅ ∧
  ∀ id, id ∈ awClosed (closeAllConnections order w) ↔ id ∈ awClosed w ∨ is_Some (mg_connections (awManager w) !! id).
Proof.
  unfold closeAllConnections. destruct (closeTrackers_spec (order (mg_connections (awManager w))) w) as [-> ->]. split.
  - apply map_empty. intros k. apply map_lookup_filter_None. right. intros v Hv Hn. cbn in Hn. apply Hn, Horder. by exists v.
  - intros id. by rewrite elem_of_app, Horder.
Qed.
End Handlers.

(** The comment in [getConnections] says that only a positive interval reaches
    [time.NewTicker]; a large one overflows to a negative period, and it panics. *)
Theorem large_interval_panics order r m :
  rqUpgrade r = true → queryGet "interval" (rqQuery r) = "9223372036855" → CheckOrigin r = true →
  getConnections order r m = Panicked.
Proof. intros Hu Hq Ho. unfold getConnections. rewrite Hu, Hq, Ho. vm_compute. reflexivity. Qed.

(** The origin is compared by prefix: a page of a host whose name starts with the
    server's passes as one of its own. *)
Theorem foreign_origin_accepted r rest : rqOrigin r = "http://" ++ rqHost r ++ rest → CheckOrigin r = true.
Proof.
  intros E. unfold CheckOrigin. rewrite E. change ("http://" ++ rqHost r ++ rest) with (("http://" ++ rqHost r) ++ rest).
  rewrite (has_prefix_self_app ("http://" ++ rqHost r)). by rewrite orb_true_r.
Qed.

(** ** On concrete data *)

Definition apiRequestTo (auth : gostring) : apiRequest := mkAPIRequest "DELETE" [] false [] auth [] "127.0.0.1:9090".
Definition preflightTo : apiRequest := mkAPIRequest "OPTIONS" "DELETE" false [] [] "http://a.com" "127.0.0.1:9090".

(** What the middleware does with the options of the source. *)
Definition demoCORS (r : apiRequest) : option (list (gostring * gostring)) :=
  if bool_decide (rqMethod r = lit "OPTIONS") && negb (bool_decide (rqRequestMethod r = []))
  then Some [(lit "Access-Control-Allow-Origin", lit "*")] else None.

Lemma demoCORS_preflight r headers : demoCORS r = Some headers → isPreflight r.
Proof.
  unfold demoCORS, isPreflight. case_bool_decide; [|done]. case_bool_decide; [done|]. done.
Qed.

