(* ===== verification/Entry.v ===== *)
(** * The ways into the program (enimul/main.go, mobile/mobile_api.go)

    The command line program, and the calls of the mobile library that compose
    the configuration, the logger and the statistics of the other files. *)

From S2P Require Import Prelude Errors Netip Pattern Policy Routing Desync IPPool Session Dns GfwList DialBind Socks5Server HttpFront Engine Config ConfigJson StatsJson.
Local Open Scope Z_scope.

(** ** The command line program (main.go, pprof.go) *)

Record flags := mkFlags {
  fl_c : gostring;
  fl_b : gostring;
  fl_hb : gostring;
  fl_mp : Z;
  fl_license : bool;
  fl_dp : gostring;
}.

(** What [main] does after its banner, in order. *)
Inductive action :=
| ShowLicense
| LoadFailed (e : error)
| SetMaxProcs (n : Z)
| ServePprof (addr : gostring)
| ServeSOCKS5 (addr serverAddr : gostring)
| ServeHTTP (addr serverAddr : gostring)
| Crashed.

Definition configPath (f : flags) (getenv : gostring) : gostring :=
  if bool_decide (fl_c f = []) then if bool_decide (getenv = []) then "config.json" else getenv else fl_c f.

Definition startPprofServer (f : flags) : list action := if bool_decide (fl_dp f = []) then [] else [ServePprof (fl_dp f)].

Definition main {S} (load : gostring → stM S (gostring * gostring)) (f : flags) (getenv : gostring) (s : S) : list action * S :=
  if fl_license f then ([ShowLicense], s) else
  match load (configPath f getenv) s with
  | (Ok (socks5Addr, httpAddr), s) =>
      ((if 0 <? fl_mp f then [SetMaxProcs (fl_mp f)] else []) ++ startPprofServer f ++
       [ServeSOCKS5 (fl_b f) socks5Addr; ServeHTTP (fl_hb f) httpAddr], s)
  | (Err e, s) => ([LoadFailed e], s)
  | (Panic, s) => ([Crashed], s)
  end.

(** The addresses the two servers listen at. *)
Definition listens (acts : list action) : list gostring :=
  omap (λ a, match a with ServeSOCKS5 a s | ServeHTTP a s => listenAddress a s | _ => None end) acts.

Lemma listens_started acts f s5 h : acts = (if 0 <? fl_mp f then [SetMaxProcs (fl_mp f)] else []) ++ startPprofServer f ++
    [ServeSOCKS5 (fl_b f) s5; ServeHTTP (fl_hb f) h] →
  listens acts = option_list (listenAddress (fl_b f) s5) ++ option_list (listenAddress (fl_hb f) h).
Proof.
  intros ->. unfold listens, startPprofServer. destruct (0 <? fl_mp f), (bool_decide (fl_dp f = [])); cbn;
    destruct (listenAddress (fl_b f) s5), (listenAddress (fl_hb f) h); done.
Qed.

Section Entry.
Context {W : Type}.
Context (hash : gostring → Z) (bootstrapLookupIP : gostring → W → res (list gostring) * W).
Context `{GoURL, GoTime, GoUnicode}.
Context (socks5Error : gostring → option error) (gomaxprocs : Z) (now done_ : Z).
Context (embeddedGFWList : gostring).
Context (openLog : gostring → option error).
Context (trial : gostring → gostring → Z → res laddr) (interfaces : res (list osInterface)) (stdin : list (res Z)).
Context (jsonError : error) (lookupIP : gostring → res (list bytes)) (isAndroid : bool).

(** [LoadConfig] of a path: the file system, and the order in which the maps of
    the configuration are visited. *)
Context (readFile : gostring → error + bytes) (order : Config → Config).

Abbreviation load := (LoadConfig hash bootstrapLookupIP socks5Error gomaxprocs now done_ embeddedGFWList openLog
  trial interfaces stdin).

Definition decoded (path : gostring) : res Config :=
  match readFile path with
  | inl e => Err e
  | inr data => conf ← decodeConfigFile jsonError lookupIP isAndroid data; Ok (order conf)
  end.

Definition loadFile (path : gostring) : stM (globals W) (gostring * gostring) := load (decoded path).

(** The two servers listen at the addresses of the file, each unless the command
    line gives another one or there is none; when the file cannot be loaded
    nothing is served, and when it cannot be read or decoded nothing was
    changed either. *)
Theorem main_serves f getenv (g : globals W) acts g' : fl_license f = false → main loadFile f getenv g = (acts, g') →
  match decoded (configPath f getenv) with
  | Ok conf =>
      listens acts = [] ∨
      listens acts = option_list (listenAddress (fl_b f) (cfSocks5Addr conf)) ++ option_list (listenAddress (fl_hb f) (cfHttpAddr conf))
  | Err e => acts = [LoadFailed e] ∧ g' = g
  | Panic => acts = [Crashed] ∧ g' = g
  end.
Proof.
  intros Hl. unfold main, loadFile. rewrite Hl. destruct (decoded _) as [conf|e|] eqn:Ed.
  - destruct (load (Ok conf) g) as [[[s5 h]|e|] g1] eqn:El; intros [= <- <-]; [|by left..].
    right. apply load_in_force in El as ([= -> ->] & _). by apply listens_started.
  - by intros [= <- <-].
  - by intros [= <- <-].
Qed.

(** ** The mobile library *)

Definition Version : gostring := "v0.3.1".
Definition GetVersion : gostring := "enimul-" ++ Version ++ "-android".

Definition HelloSplice (goos : gostring) : gostring :=
  if bool_decide (goos = lit "linux") then "Splice is available on Linux/Android" else "Splice is NOT available on " ++ goos.

Definition LogFilePath (workingDir : gostring) : gostring :=
  if bool_decide (workingDir = []) then [] else joinPath workingDir "logs".

(** [ensureLogDirLocked] in logfile.go: the directory is made where the files go. *)
Definition ensureLogDirLocked (mkdirAll : gostring → option error) (workingDir : gostring) : res gostring :=
  if bool_decide (workingDir = []) then fail "working directory not set" else
  let dir := joinPath workingDir "logs" in
  match mkdirAll dir with Some e => Err e | None => Ok dir end.

Definition SetLogFileEnabled (enabled : bool) (s : logFiles) : logFiles := setLogFilesEnabled enabled s.

(** [mainLogger] is made when the package is initialised, with the level the
    variable has before any configuration: the zero value. *)
Definition mainLogger : consoleLogger := newConsoleLogger Swappable [] 0.

(** [OnNetworkChanged]: what it returns, and the line it logs at a time whose
    text is [stamp]. *)
Definition OnNetworkChanged (sysText : Z → gostring) (stamp : gostring) : stM (globals W) (gostring * option bytes) := λ g,
  let '(r, g') := ResetRuntimeState hash bootstrapLookupIP socks5Error gomaxprocs now done_ g in
  match r with
  | Ok _ => (line ← logCall stamp mainLogger Info [ArgText "network changed: runtime caches cleared"]; Ok ([], line), g')
  | Err e => (line ← logCall stamp mainLogger Config.Error [ArgText "network changed: reset runtime state: "; ArgText (Errors.Error sysText e)];
              Ok ([], line), g')
  | Panic => (Panic, g')
  end.

(** The log file path the application is told is where the files are. *)
Lemma log_file_path_made mkdirAll dir path : ensureLogDirLocked mkdirAll dir = Ok path → LogFilePath dir = path.
Proof.
  unfold ensureLogDirLocked, LogFilePath. case_bool_decide; [done|]. destruct (mkdirAll _); [done|]. by intros [= ->].
Qed.

(** A change of the network leaves the rules, the pools, the binding and the
    level as they are, whatever becomes of the caches, and always logs one line:
    the level of the configuration does not reach the library's own logger. *)
Theorem network_change_keeps_rules sysText stamp (g : globals W) r g' : OnNetworkChanged sysText stamp g = (r, g') → r ≠ Panic →
  tables g' = tables g ∧ ipPools g' = ipPools g ∧ gDial g' = gDial g ∧ logLevel g' = logLevel g ∧
  runtimeLogWriter g' = runtimeLogWriter g ∧ ∃ line, r = Ok ([], Some line).
Proof.
  unfold OnNetworkChanged. destruct (ResetRuntimeState _ _ _ _ _ _ g) as [r0 g0] eqn:E.
  assert (tables g0 = tables g ∧ ipPools g0 = ipPools g ∧ gDial g0 = gDial g ∧ logLevel g0 = logLevel g ∧
    runtimeLogWriter g0 = runtimeLogWriter g) as Hk.
  { revert E. unfold ResetRuntimeState, getS, wrapG, doSetDNS, doSetTTLProbing, mbind, stM_bind.
    destruct (setDNS _ _ _ _ _ _ _ _ _ _) as [[[]|e|] d]; cbn; [|by intros [= <- <-]..].
    destruct (setTTLProbing _ _ _) as [p|e|]; cbn; by intros [= <- <-]. }
  destruct r0 as [[]|e|]; intros [= <- <-] Hr; [..|done]; (split_and!; [apply Hk..|]); by eexists.
Qed.
End Entry.
